(* ===== verification/_CoqProject ===== *)
-Q . S2P
Prelude.v
Numeric.v
Floats.v
IniParser.v
OrderMap.v
ConfigParser.v
Options.v
Merged.v
SwdbDb.v
Swdb.v
ConfigMain.v
Repos.v
ArgumentParser.v
WeakPtr.v
Sets.v
Sack.v
Solv.v
Regex.v
Specs.v
Packages.v
SolvQuery.v
FullNames.v
Queries.v
QueryExamples.v
DnfSack.v
DnfSackExamples.v
DnfQuery.v
DnfLatest.v
DnfApply.v
DnfQueryExamples.v
DnfJobs.v
DnfRequests.v
DnfGoal.v
DnfSolved.v
DnfGoalExamples.v
Modules.v
ModuleSolving.v
ModuleSolved.v
ModuleTree.v
ModuleLatest.v
ModuleSolvingExamples.v
ModuleMaking.v
ModuleMade.v
ModuleMadeExamples.v
Lock.v
Progress.v
Bars.v
BarLines.v
MultiBars.v
MultiScreen.v
BarExamples.v
