(* ===== verification/Prelude.v ===== *)
(** * libdnf: a verification library

    libdnf manages RPM packages: it reads configuration files, keeps options
    with the priority of their source, creates repositories from [.repo]
    files, solves dependencies through libsolv, runs transactions through
    librpm and records them in a history database. [microdnf] is a command
    line program on top of it. The repository holds the library in
    development (under [src/libdnf], headers under [src/include/libdnf]) and
    the previous one (under [src/dnf-4]), which owns the history database.

    This development models the parts that are logic of the program itself.

    ** The parts and how they interact

    - [Prelude] (this file): strings as lists of bytes, [result] for calls that
      may throw with the notation [let*], searching in strings with positions as
      [std::string] has them, lists sorted by key for [std::map], tactics.
    - [Numeric]: the conversions of the C++ standard library that the sources
      use: printing integers and floats, [istream >>] for integers, [stoul],
      [stoi], [stod], [stof] on IEEE floats ([SpecFloat]), casts. [Floats]:
      rounding of exact values, and a hundredth of a number taken that many times.
    - [IniParser] ([libdnf/utils/iniparser.cpp]): the tokenizer of .ini files
      with its one line of look-ahead; [next] is the method [next], a state
      passing function on the record of its fields.
    - [OrderMap] ([utils/preserve_order_map.hpp]): the map that keeps the
      insertion order, as a list of pairs; the class [MapOps]/[MapLaws] states
      what its users need of a map.
    - [ConfigParser] ([conf/config_parser.cpp]): sections and options over
      [OrderMap], fed by [IniParser]; reading, editing, writing back, and the
      substitution of variables.
    - [Options] ([conf/option*.cpp], [config_utils.hpp]): the option types as
      instances of the class [OptionType] with the laws [OptionLaws]; child
      options and the bindings are proved against the class. Regular
      expressions and [stat] are the class [Environment].
    - [ConfigMain] ([conf/config_main.cpp], [base/base.cpp]): the main
      configuration as a map from member names to options of any type
      ([AnyOption]); its tables of members and names; setting by name, which
      goes through the bindings of [Options]; loading of files, which goes
      through [ConfigParser]; variables. [glob] and the files are the class
      [Files].
    - [Repos] ([rpm/config_repo.cpp], [rpm/repo_sack.cpp], parts of
      [rpm/repo.cpp]): the configuration of a repository, whose child options
      refer to members of [ConfigMain], and the creation of repositories.
    - [ArgumentParser] ([microdnf/argument_parser.cpp]): the command line;
      options are set with the priority of the command line.
    - [Merged] ([dnf-4 transaction/Types.hpp], [TransactionItemReason],
      [RPMItem::operator<], [MergedTransaction.cpp]): the order of reasons and
      of packages, and what several transactions amount to.
    - [SwdbDb] ([RPMItem.cpp], [CompsGroupItem.cpp],
      [CompsEnvironmentItem.cpp], [private/Repo.cpp], queries of [Swdb.cpp]):
      the tables of the history database as lists of rows and every SQL
      statement as a function on them.
    - [Swdb] ([Swdb.cpp], [private/Transaction.cpp], [TransactionItem.cpp]):
      the transaction in progress as a state machine over [SwdbDb]. A call
      returns the new state also when it throws.
    - [WeakPtr] ([utils/weak_ptr.hpp]): guards and the pointers they
      invalidate, as a heap of objects that refer to each other by address.
    - [Sets] ([utils/set.hpp]): sorted ranges over a strict weak order
      ([StrictWeak]) and the merging algorithms on them.
    - [Sack] ([common/sack]): comparison operators as flags, the matchers, the
      filters of a query, and sacks over sets of weak pointers. [fnmatch],
      [std::regex] and [tolower] are the class [Matching].
    - [Solv] ([rpm/solv]): libsolv's bit maps and queues as lists, the classes
      around them and their iterators. libsolv is the class [Libsolv] with the
      laws [LibsolvLaws].
    - [Regex]: the regular expressions of the sources as data, the search of
      ECMAScript, and what a match is; [Engine] is what a user may rely on.
    - [Specs] ([rpm/nevra.cpp], [rpm/solv/reldep_parser.cpp],
      [rpm/reldep.cpp], dnf-4 [nsvcap.cpp]): package names, dependencies and
      module specifications, parsed with [Regex].
    - [Packages] ([rpm/solv/package_private.hpp], [rpm/solv_sack_impl.hpp]): the
      fields of a package in libsolv's pool, the division of versions, the lists
      of packages that a sack caches, and binary search in them. The pool is the
      state of [Reldep.Pool] in [Specs]; what libsolv answers about it is the
      class [LibsolvPool] with the laws [LibsolvPoolLaws].
    - [SolvQuery] ([rpm/solv_query.cpp]): a query as a map of [Solv] and every
      filter on it, and the resolving of specifications with [Specs].
      [FullNames] and [Queries] hold the theorems, [QueryExamples] a small pool
      that meets the laws.
    - [DnfSack] (dnf-4 [dnf-sack.cpp], [Query::Impl::initResult]): the packages
      of a pool that are excluded, included or in disabled repositories, the
      kept map of what is considered, and the packages a query starts with.
      [DnfSackExamples] is a small pool that grows.
    - [DnfQuery] (dnf-4 [sack/query.cpp], [sack/advisory.cpp],
      [sack/advisorypkg.cpp], [what_upgrades] and [what_downgrades] of
      [hy-iutil.cpp]): queries as records with filters that are applied when the
      result is needed, and each filter that the repository defines. A write
      outside of a map and a failing assertion are the error [Crash]. The
      filters that are only declared are the class [MissingFilters], what
      advisories list is [Advisories], sets of packages are [PackageSets].
      [DnfLatest] has the theorems on sorted queues and their blocks, [DnfApply]
      those on filters and queries, [DnfQueryExamples] a small pool.
    - [DnfJobs] (dnf-4 [sack/selector.cpp], first half of [goal/Goal.cpp]):
      selectors and their translation into jobs of the solver, with [DnfRequests]
      for the theorems. [DnfGoal] (second half of [Goal.cpp]): requests, runs,
      results and the description of problems, over a solver that is the class
      [Solving]; [DnfSolved] has the theorems, [DnfGoalExamples] a small solver.
    - [Modules] and the files after it share the states of modules.
      [ModuleSolving] (second half of [ModulePackageContainer.cpp], end of
      [dnf-sack.cpp]): the container, which solves for modules with goals of
      [DnfGoal] on a sack of its own, the latest modules, queries, the report,
      the fail-safe files, and the excludes of packages that follow from it;
      the theorems are in [ModuleSolved], [ModuleTree] (modules that need
      others) and [ModuleLatest] (latest versions, files), a small container in
      [ModuleSolvingExamples]. [ModuleMaking] ([module/ModulePackage.cpp],
      [modulemd/ModuleDependencies.cpp]): modules as packages of the pool, their
      dependencies, the conflicts between streams, the platform; the edits of the
      pool are the class [SolvableEdits], their laws and the theorem are in
      [ModuleMade], a pool that meets them in [ModuleMadeExamples].
    - [Modules] (dnf-4 [module/ModulePackageContainer.cpp]): the states of
      modules, their files, and the reports on what has changed, in a monad of
      calls that keep their effects when they throw. The configuration file is
      the class [KeyFile]; [ConfigParser] is an instance.
    - [Lock] (dnf-4 [dnf-lock.cpp]): locks of threads and of processes, with
      processes that start, end and take steps in any order.
    - [Progress] (dnf-4 [dnf-state.cpp]): the chain of states of a task, its
      signals and percentages. Locks are the class [LockObject]; the lock object
      of [Lock] is an instance.
    - [Bars] (libdnf-cli [progressbar/progress_bar.cpp], [widgets],
      [download_progress_bar.cpp], [tty::get_width]): a bar that counts ticks, its
      columns and the line of them for the width of the terminal; [BarLines] has
      the theorems. [MultiBars] ([multi_progress_bar.cpp]): several bars that
      the caller holds too, and a screen to run the output on; the theorems are in
      [MultiScreen], two bars on a terminal in [BarExamples].

    ** What the theorems show

    - Configuration files: what was read is written back byte for byte; the
      tokenizer neither loses nor invents text and always ends; the in-place
      substitution computes the one-pass expansion; the ordered map refines a
      finite map and keeps its order; every editing operation keeps the parser
      well formed.
    - Options: the last value of the highest priority wins, for every option
      type; numbers stay in their limits (or are NaN), enumerations among their values,
      paths within their requirements; printing and reading are inverse; child
      options follow their parent until they are set.
    - Configurations: the main configuration can be constructed, and keeps its
      types, limits and requirements whatever is set or loaded; a section sets
      each member on its own, and never a stronger value, and logs exactly the
      settings that are refused; repositories inherit
      what they do not set; exactly the sections with good ids become
      repositories.
    - Command line: parsing ends; conflicting arguments are never accepted
      together; long options set exactly what they name.
    - History: every sequence of calls keeps the database well formed (keys,
      references, one row per package), unless it is reset when something in memory
      holds ids of its rows; a recorded reason is found again;
      calls outside a transaction throw and change nothing; an unset item
      state is refused.
    - Merging: the complete table for two actions on a package; chains of
      upgrades; nothing invented and nothing twice; the result is sorted.
    - Weak pointers: within the rules of the class no call touches memory that
      is not there; registration and ownership are exact; a guard that is
      destroyed invalidates its pointers and no others.
    - Sacks: the set operations are those of sets; filters keep exactly what
      the operator describes, and what an exception leaves is stated; a query
      over a sack refines a specification without any order.
    - Solver data structures: iterating over a map lists its ids, once, in
      order, and ends; bounds are checked; queues are lists.
    - Specifications: parsing is the inverse of printing, in every form.
    - Package queries: filters by name and by full name find exactly the packages
      whose texts match, though they go through ids and binary searches; a
      specification means what its first form means that finds anything; no
      sequence of filters adds to a query, or makes the caches of the sack wrong.
    - Excludes of dnf-4: whatever was excluded, included, loaded and disabled
      before, a query starts with the packages that are considered now.
    - Queries of dnf-4: the sequences of calls that crash are exactly those that
      apply a set of packages to provides; filters may be applied at
      once or one by one; latest packages, duplicates, extras, upgrades by
      priority and advisories are stated without the sorting, the blocks and the
      searches by bisection that compute them.
    - Goals of dnf-4: a selector has one target, and what its translation gives,
      or why it is refused, is stated; requests only append; the jobs of a run are
      listed; a run does not crash and succeeds exactly if there is a solution that
      keeps what is protected and the running kernel; the limit for installonly packages keeps as many as it says, the best ones,
      and the running kernel; each problem is described once.
    - Modules: rolling back undoes every sequence of calls; saving writes the
      files that differ and leaves nothing to save; a stream is switched once
      between two savings; what loading, enabling and [isChanged] do in every
      case.
    - Solving for modules: it always ends with an answer; what is asked for is
      listed, the error tells how it was solved, and what is active is what the
      solution installs; a disabled module never is; enabling modules with
      what they need ends and gives just what is reached; the latest modules of a
      repository are stated without sorting; files that are kept are found again;
      the dependencies of modules mean what the documents say.
    - Locks: taking a lock and releasing it restores items and files; no two
      processes hold the same lock while testing and writing its file are not
      interleaved; a thread cannot take or release what another one holds.
    - Progress: what a task announces only grows; a task whose steps are done
      reaches 100% without its locks, for every number of steps and in floating
      point; a child with weights stays within its step.
    - Progress bars: the line of a bar is as wide as the terminal, and nothing on the
      way overflows or is undefined; after any number of prints, whatever happens
      to the bars between, the screen has the lines of finished bars once and in
      order, then those in progress and the total.

    Behaviour of the code that is not what it means to do is stated by closed
    [Example]s next to the component.

    ** Fuel

    Loops that are not structural take a fuel and return [None] when it runs
    out; for each there is a theorem that the fuel used is enough:
    [IniParser.next_fuel] is the number of lines left and two more,
    [substitute] uses the length of the text (each step consumes at least one
    character of what is not yet scanned), [list_from_string_opt] and
    [resolve_globs_opt] the length of the string, [ArgumentParser.weight] the
    characters of the command line and two per word, [MapIterator.iterate] and
    [IdQueue.iterate] the number of bits and of ids, [Lock.finalize] the number
    of items, [Progress.unref_child] the number of states, [DnfGoal.limit_names]
    the length of the queue (each round takes at least one package),
    [ModuleSolving.enable_run] and [enable_runs] the number of packages and one
    more (each step enables a module that was not). [Bars.scale] has ten steps for
    a number of 64 bits, each of which divides by 1024. [lower_bound] uses the
    length of the list, [skip_epoch] that of the text; both halve or advance by
    one in each step.

    ** Not modelled

    The solver, transactions and downloads (calls of libsolv, librpm, librepo, gpgme),
    the loading of metadata into libsolv's pool, the filters of dnf-4 that are
    declared and have no definition in the repository, the YAML documents of libmodulemd, SQLite itself (the
    statements are modelled, not the engine), the migration of old databases, language bindings, plugins; of the terminal, colours beyond their names,
    hiding the cursor, and texts with control characters or of several bytes per column.
    Exceptions lose the changes an operation made before it threw only where
    the code leaves the object unchanged or unused; where the state after an
    exception matters ([Swdb], loading of configurations, creation of
    repositories) it is returned.

    Left out with no more reason than their size: the wrappers of package sets,
    the splitting and trimming of dnf-4 [utils/utils.cpp], the memory buffer and the
    router of the loggers, the functions on UTF-8 of libdnf-cli. *)

From stdpp Require Export base gmap strings list fin_maps sorting.
From Stdlib Require Export ZArith Ascii.
From Stdlib Require Import Lia.


(** ** Notations, scopes and the error monad *)

Declare Scope dnf_scope.
Delimit Scope dnf_scope with dnf.
Open Scope dnf_scope.

(** A C++ [std::string] (or a [char] buffer without embedded terminator) is a
    list of bytes. *)
Abbreviation cstr := (list ascii).

(** String literals of the source. *)
Definition lit (s : string) : cstr := String.list_ascii_of_string s.

(** A call that may throw: the value returned, or the exception. *)
Inductive result (E A : Type) : Type :=
| Ok (a : A)
| Err (e : E).
Arguments Ok {E A} a.
Arguments Err {E A} e.

Definition result_bind {E A B} (m : result E A) (f : A -> result E B) : result E B :=
  match m with Ok a => f a | Err e => Err e end.

Notation "'let*' x ':=' m 'in' k" := (result_bind m (fun x => k))
  (at level 10, x pattern, m at level 100, k at level 200,
   format "'[v' 'let*'  x  ':='  m  'in' '/' k ']'") : dnf_scope.

Definition is_ok {E A} (m : result E A) : bool :=
  match m with Ok _ => true | Err _ => false end.

Lemma result_bind_Ok {E A B} (m : result E A) (f : A -> result E B) b :
  result_bind m f = Ok b <-> exists a, m = Ok a /\ f a = Ok b.
Proof. destruct m; simpl; naive_solver. Qed.

Lemma result_bind_Err {E A B} (m : result E A) (f : A -> result E B) e :
  result_bind m f = Err e <-> m = Err e \/ exists a, m = Ok a /\ f a = Err e.
Proof. destruct m; simpl; naive_solver. Qed.

#[global] Instance result_eq_dec {E A} `{EqDecision E} `{EqDecision A} : EqDecision (result E A).
Proof. solve_decision. Defined.

(** ** Machine integers *)

Definition wrap (w z : Z) : Z := (z mod 2 ^ w)%Z.
(** [std::size_t] arithmetic is modulo [2^64]; [npos] is its maximum. *)
Definition size_wrap (z : Z) : Z := wrap 64 z.
Definition npos : Z := (2 ^ 64 - 1)%Z.

Lemma wrap_bounds w z : (0 <= w)%Z -> (0 <= wrap w z < 2 ^ w)%Z.
Proof. intros Hw. apply Z.mod_pos_bound. by apply Z.pow_pos_nonneg. Qed.

Lemma wrap_small w z : (0 <= z < 2 ^ w)%Z -> wrap w z = z.
Proof. apply Z.mod_small. Qed.

Lemma size_wrap_small z : (0 <= z < 2 ^ 64)%Z -> size_wrap z = z.
Proof. apply wrap_small. Qed.

(** ** Characters *)

Definition nl : ascii := "010"%char.
Definition tab : ascii := "009"%char.
Definition cr : ascii := "013"%char.

(** Membership of a byte in a set given as a string ([find_first_of(" \t")]). *)
Definition one_of (set : cstr) (c : ascii) : bool := bool_decide (c ∈ set).
Definition none_of (set : cstr) (c : ascii) : bool := negb (one_of set c).

Definition code (c : ascii) : N := N_of_ascii c.
Definition in_range (lo hi c : ascii) : bool := (code lo <=? code c)%N && (code c <=? code hi)%N.
(** <cctype> in the "C" locale. *)
Definition is_digit (c : ascii) : bool := in_range "0" "9" c.
Definition is_upper (c : ascii) : bool := in_range "A" "Z" c.
Definition is_lower (c : ascii) : bool := in_range "a" "z" c.
Definition is_alnum (c : ascii) : bool := is_digit c || is_upper c || is_lower c.
Definition to_lower (c : ascii) : ascii :=
  if is_upper c then ascii_of_N (code c + 32) else c.
Definition lower (s : cstr) : cstr := map to_lower s.

Lemma to_lower_idem c : to_lower (to_lower c) = to_lower c.
Proof. destruct c as [[] [] [] [] [] [] [] []]; reflexivity. Qed.

Lemma lower_idem s : lower (lower s) = lower s.
Proof. unfold lower. rewrite map_map. apply map_ext, to_lower_idem. Qed.

(** ** [std::string] searching *)

(** Index of the first element satisfying [p]; [None] is [npos]. *)
Fixpoint find_idx {A} (p : A -> bool) (s : list A) : option nat :=
  match s with
  | [] => None
  | c :: s' => if p c then Some 0 else S <$> find_idx p s'
  end.

Fixpoint find_last_idx {A} (p : A -> bool) (s : list A) : option nat :=
  match s with
  | [] => None
  | c :: s' =>
      match find_last_idx p s' with
      | Some i => Some (S i)
      | None => if p c then Some 0 else None
      end
  end.

(** [s.find_first_*(..., pos)] and [s.find_last_*(..., pos)]. *)
Definition find_from {A} (p : A -> bool) (s : list A) (pos : nat) : option nat :=
  (fun i => pos + i) <$> find_idx p (drop pos s).
Definition rfind_from {A} (p : A -> bool) (s : list A) (pos : nat) : option nat :=
  find_last_idx p (take (S pos) s).

(** [s.substr(pos, n)] for [pos <= s.size()], with [n] a [size_t]. *)
Definition substr (s : cstr) (pos : nat) (n : Z) : cstr :=
  take (Z.to_nat (Z.min n (Z.of_nat (length s - pos)))) (drop pos s).

(** [s.compare(0, pre.size(), pre) == 0]. *)
Definition starts_with (s pre : cstr) : bool := bool_decide (take (length pre) s = pre).

(** The longest prefix satisfying [p] and the rest. *)
Fixpoint span {A} (p : A -> bool) (s : list A) : list A * list A :=
  match s with
  | [] => ([], [])
  | c :: s' => if p c then let '(a, b) := span p s' in (c :: a, b) else ([], s)
  end.

Lemma span_app {A} (p : A -> bool) s t :
  Forall (fun c => p c = true) s -> span p t = ([], t) -> span p (s ++ t) = (s, t).
Proof. induction 1 as [|c s Hc Hs IH]; intros Ht; simpl; [done|]. by rewrite Hc, IH. Qed.

Lemma span_spec {A} (p : A -> bool) s a b :
  span p s = (a, b) -> s = a ++ b /\ Forall (fun c => p c = true) a.
Proof.
  revert a b. induction s as [|c s IH]; intros a b; simpl; [by intros [= <- <-]|].
  destruct (p c) eqn:Hc; [|by intros [= <- <-]]. destruct (span p s) as [a' b'].
  intros [= <- <-]. destruct (IH a' b' eq_refl) as [-> Ha]. split; [done|]. by constructor.
Qed.

Lemma span_rest {A} (p : A -> bool) s a c b : span p s = (a, c :: b) -> p c = false.
Proof.
  revert a. induction s as [|x s IH]; intros a; simpl; [done|].
  destruct (p x) eqn:Hx; [|by intros [= _ -> _]]. destruct (span p s) as [a' b'] eqn:E. intros [= <- ->]. by eapply IH.
Qed.

(** The pieces between the characters with [p]; never empty. *)
Fixpoint split_by {A} (p : A -> bool) (s : list A) : list (list A) :=
  match s with
  | [] => [[]]
  | c :: s =>
      if p c then [] :: split_by p s
      else match split_by p s with l :: ls => (c :: l) :: ls | [] => [[c]] end
  end.

Lemma split_by_app {A} (p : A -> bool) w c s :
  Forall (fun x => p x = false) w -> p c = true -> split_by p (w ++ c :: s) = w :: split_by p s.
Proof. intros Hw Hc. induction Hw as [|x w Hx _ IH]; simpl; [by rewrite Hc|]. by rewrite Hx, IH. Qed.

Lemma split_by_none {A} (p : A -> bool) w : Forall (fun x => p x = false) w -> split_by p w = [w].
Proof. intros Hw. induction Hw as [|x w Hx _ IH]; simpl; [done|]. by rewrite Hx, IH. Qed.

Section find_lemmas.
Context {A : Type}.
Implicit Types (p : A -> bool) (s : list A).

Lemma find_idx_Some p s i :
  find_idx p s = Some i <->
  exists c, s !! i = Some c /\ p c = true /\ Forall (fun x => p x = false) (take i s).
Proof.
  revert i. induction s as [|x s IH]; intros i; simpl; [naive_solver|].
  destruct (p x) eqn:Hx.
  - split; [intros [= <-]; eauto|].
    intros (c & Hc & Hp & Hf). destruct i as [|i]; [done|].
    simpl in Hf. inversion Hf; congruence.
  - rewrite fmap_Some. split.
    + intros (j & Hj & ->). apply IH in Hj as (c & ? & ? & ?).
      exists c. split_and!; try done. simpl. by constructor.
    + intros (c & Hc & Hp & Hf). destruct i as [|i]; simpl in *; [congruence|].
      exists i. split; [|done]. apply IH. inversion Hf; eauto.
Qed.

Lemma find_idx_lt p s i : find_idx p s = Some i -> i < length s.
Proof. intros (c & Hc & _)%find_idx_Some. by eapply lookup_lt_Some. Qed.

Lemma find_idx_split p s i :
  find_idx p s = Some i ->
  exists w c r, s = w ++ c :: r /\ length w = i /\ Forall (fun x => p x = false) w /\ p c = true.
Proof.
  intros Hi. pose proof (find_idx_lt _ _ _ Hi) as Hlt. apply find_idx_Some in Hi as (c & Hc & Hp & Hw).
  exists (take i s), c, (drop (S i) s). split_and!; [|rewrite length_take; lia|done..].
  by rewrite <-(drop_S _ _ _ Hc), take_drop.
Qed.

Lemma find_idx_None p s : find_idx p s = None <-> Forall (fun x => p x = false) s.
Proof.
  induction s as [|x s IH]; simpl; [split; [constructor|done]|].
  destruct (p x) eqn:Hx.
  - split; [done|]. inversion 1; congruence.
  - rewrite fmap_None, IH. split; [by constructor|by inversion 1].
Qed.


Lemma find_last_idx_lt p s i : find_last_idx p s = Some i -> i < length s.
Proof.
  revert i. induction s as [|x s IH]; simpl; [done|]. intros i.
  destruct (find_last_idx p s) as [j|]; [intros [= <-]; specialize (IH _ eq_refl); lia|].
  destruct (p x); [intros [= <-]; lia|done].
Qed.

Lemma find_last_idx_Some p s i :
  find_last_idx p s = Some i ->
  exists c, s !! i = Some c /\ p c = true /\ Forall (fun x => p x = false) (drop (S i) s).
Proof.
  revert i. induction s as [|x s IH]; simpl; [done|]. intros i.
  destruct (find_last_idx p s) as [j|] eqn:Hj.
  - intros [= <-]. destruct (IH _ eq_refl) as (c & ? & ? & ?). eauto.
  - destruct (p x) eqn:Hx; [|done]. intros [= <-]. exists x. split_and!; [done..|].
    clear IH. revert Hj. induction s as [|y s IH]; simpl; [constructor|].
    destruct (find_last_idx p s); [done|]. destruct (p y) eqn:Hy; [done|].
    intros _. rewrite drop_0 in *. constructor; [done|]. by apply IH.
Qed.

Lemma find_last_idx_None p s : find_last_idx p s = None <-> Forall (fun x => p x = false) s.
Proof.
  induction s as [|x s IH]; simpl; [split; [constructor|done]|].
  destruct (find_last_idx p s); [split; [done|inversion 1; naive_solver]|].
  destruct (p x) eqn:Hx; split; try done; [inversion 1; congruence|].
  intros _. constructor; naive_solver.
Qed.

Lemma find_from_Some p s pos i :
  find_from p s pos = Some i -> pos <= i < length s.
Proof.
  unfold find_from. intros (j & Hj%find_idx_lt & ->)%fmap_Some.
  rewrite length_drop in Hj. lia.
Qed.

Lemma find_from_None p s pos :
  find_from p s pos = None <-> Forall (fun x => p x = false) (drop pos s).
Proof. unfold find_from. by rewrite fmap_None, find_idx_None. Qed.
End find_lemmas.

Section find_app.
Context {A : Type}.
Implicit Types (p : A -> bool) (s t : list A).

Lemma find_idx_app_r p s t :
  Forall (fun x => p x = false) s ->
  find_idx p (s ++ t) = (fun i => length s + i) <$> find_idx p t.
Proof.
  induction 1 as [|x s Hx Hs IH]; simpl; [by destruct (find_idx p t)|].
  rewrite Hx, IH. by destruct (find_idx p t).
Qed.

Lemma find_last_idx_app_l p s t :
  Forall (fun x => p x = false) t -> find_last_idx p (s ++ t) = find_last_idx p s.
Proof.
  intros Ht. induction s as [|x s IH]; simpl; [by apply find_last_idx_None|].
  by rewrite IH.
Qed.

Lemma find_last_idx_app_r p s t i :
  find_last_idx p t = Some i -> find_last_idx p (s ++ t) = Some (length s + i).
Proof. intros Ht. induction s as [|x s IH]; simpl; [done|]. by rewrite IH. Qed.

Lemma find_idx_hit p x s : p x = true -> find_idx p (x :: s) = Some 0.
Proof. simpl. by intros ->. Qed.

Lemma find_last_idx_last p s x :
  last s = Some x -> p x = true -> find_last_idx p s = Some (length s - 1).
Proof.
  intros [s' ->]%last_Some Hp.
  rewrite (find_last_idx_app_r _ _ _ 0) by (simpl; by rewrite Hp).
  rewrite length_app. simpl. f_equal. lia.
Qed.
End find_app.

Lemma none_of_false set s :
  Forall (fun x => x ∈ set) s -> Forall (fun x => none_of set x = false) s.
Proof.
  intros H. eapply Forall_impl; [exact H|]. intros x Hx. unfold none_of, one_of. by rewrite bool_decide_eq_true_2.
Qed.

Lemma none_of_true set c : c ∉ set -> none_of set c = true.
Proof. intros Hc. unfold none_of, one_of. by rewrite bool_decide_eq_false_2. Qed.

Lemma one_of_false set s :
  Forall (fun x => x ∉ set) s -> Forall (fun x => one_of set x = false) s.
Proof.
  intros H. eapply Forall_impl; [exact H|]. intros x Hx. unfold one_of. by rewrite bool_decide_eq_false_2.
Qed.

Lemma find_from_0 {A} (p : A -> bool) (s : list A) : find_from p s 0 = find_idx p s.
Proof. unfold find_from. rewrite drop_0. by destruct (find_idx p s). Qed.

Lemma substr_small s pos n :
  n <= length s - pos -> substr s pos (Z.of_nat n) = take n (drop pos s).
Proof. intros Hn. unfold substr. f_equal. lia. Qed.

Lemma substr_large s pos n :
  (Z.of_nat (length s - pos) <= n)%Z -> substr s pos n = drop pos s.
Proof.
  intros Hn. unfold substr. rewrite take_ge; [done|]. rewrite length_drop. lia.
Qed.

(** [s.substr(a, b - a + 1)] for [a <= b + 1]. *)
Lemma substr_between s a b :
  a <= S b -> S b <= length s -> (Z.of_nat (length s) < 2 ^ 64)%Z ->
  substr s a (size_wrap (Z.of_nat b - Z.of_nat a + 1)) = take (S b - a) (drop a s).
Proof.
  intros Hab Hb Hl. rewrite size_wrap_small by lia.
  replace (Z.of_nat b - Z.of_nat a + 1)%Z with (Z.of_nat (S b - a)) by lia.
  apply substr_small. lia.
Qed.

Lemma starts_with_spec s pre : starts_with s pre = true <-> exists t, s = pre ++ t.
Proof.
  unfold starts_with. rewrite bool_decide_eq_true. split.
  - intros H. exists (drop (length pre) s). rewrite <-H at 1. symmetry. apply take_drop.
  - intros [t ->]. by rewrite take_app_length.
Qed.

Lemma filter_ne_id {A} `{EqDecision A} (k : A) (l : list A) :
  k ∉ l -> base.filter (fun x => x <> k) l = l.
Proof.
  induction l as [|x l IH]; [done|]. intros [Hx Hl]%not_elem_of_cons.
  rewrite filter_cons, decide_True by done. f_equal. by apply IH.
Qed.

(** ** The order of [std::string]: by unsigned bytes, then by length *)

Fixpoint str_ltb (s t : cstr) : bool :=
  match s, t with
  | _, [] => false
  | [], _ :: _ => true
  | a :: s, b :: t =>
      if (code a <? code b)%N then true else if (code b <? code a)%N then false else str_ltb s t
  end.

Lemma code_inj a b : code a = code b -> a = b.
Proof. unfold code. intros H. rewrite <-(ascii_N_embedding a), <-(ascii_N_embedding b). by rewrite H. Qed.

Lemma str_ltb_cons a s b t :
  str_ltb (a :: s) (b :: t) = true <-> (code a < code b)%N \/ a = b /\ str_ltb s t = true.
Proof.
  simpl. destruct (code a <? code b)%N eqn:E1; [apply N.ltb_lt in E1; naive_solver|]. apply N.ltb_ge in E1.
  destruct (code b <? code a)%N eqn:E2.
  - apply N.ltb_lt in E2. split; [done|]. intros [H|[-> _]]; lia.
  - apply N.ltb_ge in E2. assert (a = b) as -> by (apply code_inj; lia). split; [naive_solver|]. intros [H|[_ H]]; [lia|done].
Qed.

Lemma str_ltb_irrefl s : str_ltb s s = false.
Proof. induction s as [|a s IH]; [done|]. simpl. by rewrite N.ltb_irrefl. Qed.

Lemma str_ltb_trans s t u : str_ltb s t = true -> str_ltb t u = true -> str_ltb s u = true.
Proof.
  revert t u. induction s as [|a s IH]; intros [|b t] [|c u]; try done. rewrite !str_ltb_cons.
  intros [H1|[-> H1]] [H2|[-> H2]]; [left; lia|by left..|right; naive_solver].
Qed.

Lemma str_ltb_tricho s t : str_ltb s t = true \/ s = t \/ str_ltb t s = true.
Proof.
  revert t. induction s as [|a s IH]; intros [|b t]; [by auto..|]. rewrite !str_ltb_cons.
  destruct (N.lt_trichotomy (code a) (code b)) as [H|[H%code_inj|H]]; [by auto| |by auto].
  subst b. destruct (IH t) as [H|[->|H]]; auto.
Qed.

Definition str_le (s t : cstr) : Prop := str_ltb t s = false.
#[global] Instance str_le_dec : RelDecision str_le.
Proof. intros s t. unfold str_le. apply _. Defined.
#[global] Instance str_le_total : Total str_le.
Proof.
  intros s t. unfold str_le. destruct (str_ltb t s) eqn:E; [|by left]. right.
  destruct (str_ltb s t) eqn:E'; [|done]. pose proof (str_ltb_trans _ _ _ E E') as H. by rewrite str_ltb_irrefl in H.
Qed.
#[global] Instance str_le_antisymm : AntiSymm (=) str_le.
Proof. intros s t H1 H2. unfold str_le in *. destruct (str_ltb_tricho s t) as [H|[H|H]]; congruence. Qed.
#[global] Instance str_le_trans : Transitive str_le.
Proof.
  intros s t u H1 H2. unfold str_le in *. destruct (str_ltb u s) eqn:E; [|done]. exfalso.
  destruct (str_ltb_tricho s t) as [H|[->|H]]; [|congruence..].
  pose proof (str_ltb_trans _ _ _ E H). congruence.
Qed.

(** [std::sort] of strings. *)
Definition sort_strings (l : list cstr) : list cstr := merge_sort str_le l.

Lemma sort_strings_Permutation l : sort_strings l ≡ₚ l.
Proof. apply merge_sort_Permutation. Qed.

Lemma sort_strings_eq l k : sort_strings l = sort_strings k <-> l ≡ₚ k.
Proof.
  split; intros H; [by rewrite <-(sort_strings_Permutation l), H, sort_strings_Permutation|].
  unfold sort_strings in *. apply (StronglySorted_unique str_le); try apply StronglySorted_merge_sort; try apply _.
  by rewrite (merge_sort_Permutation str_le l), (merge_sort_Permutation str_le k).
Qed.

Definition key_le {A} (x y : cstr * A) : Prop := str_ltb (fst y) (fst x) = false.
#[global] Instance key_le_dec {A} : RelDecision (@key_le A).
Proof. intros x y. unfold key_le. apply _. Defined.

(** The elements of a [std::map] in the order of iteration. *)
Definition rows {A} (m : gmap cstr A) : list (cstr * A) := merge_sort key_le (map_to_list m).

Lemma elem_of_rows {A} (m : gmap cstr A) k v : (k, v) ∈ rows m <-> m !! k = Some v.
Proof. unfold rows. by rewrite merge_sort_Permutation, elem_of_map_to_list. Qed.

Lemma rows_empty {A} : rows (∅ : gmap cstr A) = [].
Proof. done. Qed.

Lemma rows_singleton {A} k (v : A) : rows ({[k := v]} : gmap cstr A) = [(k, v)].
Proof. unfold rows. by rewrite map_to_list_singleton. Qed.

(** ** Tactics *)

(** Case analysis on every test of the goal, with the arithmetic and the
    constructor equations it yields. *)
Ltac split_ifs :=
  repeat (case_match || case_decide); simplify_eq/=; try done.

(** Turn the boolean tests of the context into propositions. *)
Ltac reflect_bools :=
  repeat match goal with
  | H : (_ && _) = true |- _ => apply andb_true_iff in H as [? ?]
  | H : (_ || _) = false |- _ => apply orb_false_iff in H as [? ?]
  | H : negb _ = true |- _ => apply negb_true_iff in H
  | H : negb _ = false |- _ => apply negb_false_iff in H
  | H : bool_decide _ = true |- _ => apply bool_decide_eq_true in H
  | H : bool_decide _ = false |- _ => apply bool_decide_eq_false in H
  | H : Nat.ltb _ _ = true |- _ => apply Nat.ltb_lt in H
  | H : Nat.ltb _ _ = false |- _ => apply Nat.ltb_ge in H
  | H : Nat.leb _ _ = true |- _ => apply Nat.leb_le in H
  | H : Nat.leb _ _ = false |- _ => apply Nat.leb_gt in H
  | H : Nat.eqb _ _ = true |- _ => apply Nat.eqb_eq in H
  | H : Nat.eqb _ _ = false |- _ => apply Nat.eqb_neq in H
  | H : Z.ltb _ _ = true |- _ => apply Z.ltb_lt in H
  | H : Z.ltb _ _ = false |- _ => apply Z.ltb_ge in H
  | H : Z.leb _ _ = true |- _ => apply Z.leb_le in H
  | H : Z.leb _ _ = false |- _ => apply Z.leb_gt in H
  | H : Z.eqb _ _ = true |- _ => apply Z.eqb_eq in H
  | H : Z.eqb _ _ = false |- _ => apply Z.eqb_neq in H
  end.

(** Invert the binds of the error monad in the context. *)
Ltac inv_result :=
  repeat match goal with
  | H : result_bind _ _ = Ok _ |- _ => apply result_bind_Ok in H as (? & ? & ?)
  | H : result_bind _ _ = Err _ |- _ => apply result_bind_Err in H as [?|(? & ? & ?)]
  | H : Ok _ = Ok _ |- _ => injection H as H
  | H : Err _ = Err _ |- _ => injection H as H
  | H : Ok _ = Err _ |- _ => discriminate H
  | H : Err _ = Ok _ |- _ => discriminate H
  end.

Create HintDb dnf discriminated.
#[export] Hint Resolve find_idx_lt find_last_idx_lt lower_idem to_lower_idem : dnf.
