(* ===== verification/Numeric.v ===== *)
(** * Numeric: the conversions between numbers and strings the code uses

    What the sources use of the C++ standard library for numbers: decimal
    output of integers, [istream >> integer] in base ten, [std::stoul], and
    [std::stod] / [std::stof] with the IEEE 754 arithmetic on their results
    ([SpecFloat] of the Standard Library). *)

From Stdlib Require Import SpecFloat.
From S2P Require Import Prelude.

Module Numeric.

(** ** Exceptions of the conversions *)

Inductive std_error :=
| std_invalid_argument
| std_out_of_range
| std_runtime_error.

#[global] Instance std_error_eq_dec : EqDecision std_error.
Proof. solve_decision. Defined.

(** ** Decimal digits *)

Definition digit_char (d : N) : ascii := ascii_of_N (48 + d).
Definition digit_val (c : ascii) : N := code c - 48.

(** The digits of [n], most significant first, in front of [acc]. *)
Fixpoint dec_loop (fuel : nat) (n : N) (acc : cstr) : cstr :=
  match fuel with
  | O => acc
  | S fuel =>
      let acc := digit_char (n mod 10) :: acc in
      if (n / 10 =? 0)%N then acc else dec_loop fuel (n / 10) acc
  end.

Definition dec_N (n : N) : cstr := dec_loop (S (N.to_nat (N.log2 n))) n [].
Definition dec_Z (z : Z) : cstr :=
  if (z <? 0)%Z then "-"%char :: dec_N (Z.to_N (- z)) else dec_N (Z.to_N z).

Arguments dec_N : simpl never.

Definition value_of (base : N) (val : ascii -> N) (s : cstr) : N :=
  foldl (fun a c => (base * a + val c)%N) 0%N s.

Lemma digit_cases d : (d < 10)%N -> d ∈ [0; 1; 2; 3; 4; 5; 6; 7; 8; 9]%N.
Proof.
  intros Hd. assert (d = 0 \/ d = 1 \/ d = 2 \/ d = 3 \/ d = 4 \/ d = 5 \/ d = 6
    \/ d = 7 \/ d = 8 \/ d = 9)%N by lia. set_solver.
Qed.

Lemma digit_char_ok d : (d < 10)%N -> is_digit (digit_char d) = true /\ digit_val (digit_char d) = d.
Proof.
  intros Hd%digit_cases. repeat (apply elem_of_cons in Hd as [->|Hd]; [done|]).
  by apply elem_of_nil in Hd.
Qed.

Lemma dec_loop_value fuel n acc :
  (n < 2 ^ N.of_nat fuel)%N ->
  foldl (fun a c => (10 * a + digit_val c)%N) 0%N (dec_loop fuel n acc)
  = foldl (fun a c => (10 * a + digit_val c)%N) n acc.
Proof.
  revert n acc. induction fuel as [|fuel IH]; intros n acc Hn.
  { simpl in *. by replace n with 0%N by lia. }
  cbn [dec_loop]. pose proof (N.mod_upper_bound n 10 ltac:(lia)) as Hm.
  destruct (digit_char_ok _ Hm) as [_ Hv].
  pose proof (N.div_mod n 10 ltac:(lia)) as Hdm.
  destruct (N.eqb_spec (n / 10) 0) as [Hz|Hz].
  - cbn [foldl]. rewrite Hv. f_equal. lia.
  - rewrite IH.
    + cbn [foldl]. rewrite Hv. f_equal. lia.
    + rewrite Nat2N.inj_succ, N.pow_succ_r' in Hn.
      apply N.Div0.div_lt_upper_bound. lia.
Qed.

Lemma dec_loop_digits fuel n acc :
  Forall (fun c => is_digit c = true) acc ->
  Forall (fun c => is_digit c = true) (dec_loop fuel n acc).
Proof.
  revert n acc. induction fuel as [|fuel IH]; intros n acc Ha; [done|]. cbn [dec_loop].
  assert (is_digit (digit_char (n mod 10)) = true).
  { apply digit_char_ok, N.mod_upper_bound. lia. }
  case_match; [by constructor|]. apply IH. by constructor.
Qed.

Lemma dec_loop_nonempty fuel n acc : acc <> [] -> dec_loop fuel n acc <> [].
Proof.
  revert n acc. induction fuel as [|fuel IH]; intros n acc Ha; [done|]. cbn [dec_loop].
  case_match; [done|]. by apply IH.
Qed.

Lemma dec_N_digits n : Forall (fun c => is_digit c = true) (dec_N n).
Proof. by apply dec_loop_digits. Qed.

Lemma dec_N_nonempty n : dec_N n <> [].
Proof.
  unfold dec_N. cbn [dec_loop]. case_match; [done|]. by apply dec_loop_nonempty.
Qed.

Lemma dec_N_value n : value_of 10 digit_val (dec_N n) = n.
Proof.
  unfold value_of, dec_N. rewrite dec_loop_value; [done|].
  rewrite Nat2N.inj_succ, N2Nat.id.
  destruct (N.eq_dec n 0) as [->|Hn]; [done|]. apply N.log2_spec. lia.
Qed.

(** ** Integers *)

(** The limits of an integer type. *)
Record IntType := mkInt { t_min : Z; t_max : Z }.
Definition int32 : IntType := mkInt (- 2 ^ 31) (2 ^ 31 - 1).
Definition uint32 : IntType := mkInt 0 (2 ^ 32 - 1).
Definition int64 : IntType := mkInt (- 2 ^ 63) (2 ^ 63 - 1).
Definition uint64 : IntType := mkInt 0 (2 ^ 64 - 1).
Definition is_signed (t : IntType) : bool := (t_min t <? 0)%Z.

Definition is_space (c : ascii) : bool := (code c =? 32)%N || ((9 <=? code c) && (code c <=? 13))%N.

(** An optional sign: the rest, and whether it was [-]. *)
Definition split_sign (s : cstr) : bool * cstr :=
  match s with
  | "-"%char :: r => (true, r)
  | "+"%char :: r => (false, r)
  | _ => (false, s)
  end.

(** Optional white space, an optional sign and the longest string of digits:
    the sign, the digits and what follows. *)
Definition scan_int (s : cstr) : bool * cstr * cstr :=
  let '(neg, r) := split_sign (snd (span is_space s)) in
  let '(ds, rest) := span is_digit r in (neg, ds, rest).

(** [iss >> std::dec >> val]: no digits, or a magnitude out of the range of the
    type, sets [failbit]; a negative number of an unsigned type is negated
    modulo the range, and what follows the digits stays in the stream. *)
Definition extract_int (t : IntType) (s : cstr) : option Z :=
  let '(neg, ds, _) := scan_int s in
  match ds with
  | [] => None
  | _ =>
      let m := Z.of_N (value_of 10 digit_val ds) in
      if neg && is_signed t then if (m <=? - t_min t)%Z then Some (- m)%Z else None
      else if (m <=? t_max t)%Z
           then Some (if neg then (- m) mod (t_max t + 1) else m)%Z else None
  end.

(** [std::stoul(s)]. *)
Definition stoul (s : cstr) : result std_error Z :=
  let '(neg, ds, _) := scan_int s in
  match ds with
  | [] => Err std_invalid_argument
  | _ =>
      let m := Z.of_N (value_of 10 digit_val ds) in
      if (2 ^ 64 <=? m)%Z then Err std_out_of_range
      else Ok (if neg then wrap 64 (- m) else m)
  end.

(** [std::stoi(s)]. *)
Definition stoi (s : cstr) : result std_error Z :=
  let '(neg, ds, _) := scan_int s in
  match ds with
  | [] => Err std_invalid_argument
  | _ =>
      let m := Z.of_N (value_of 10 digit_val ds) in
      let z := if neg then (- m)%Z else m in
      if (t_min int32 <=? z)%Z && (z <=? t_max int32)%Z then Ok z else Err std_out_of_range
  end.

Lemma digit_not_space c : is_digit c = true -> is_space c = false.
Proof. destruct c as [[] [] [] [] [] [] [] []]; vm_compute; congruence. Qed.

Lemma digit_not_sign c r : is_digit c = true -> split_sign (c :: r) = (false, c :: r).
Proof. destruct c as [[] [] [] [] [] [] [] []]; vm_compute; congruence. Qed.

Lemma scan_int_dec z rest :
  span is_digit rest = ([], rest) ->
  scan_int (dec_Z z ++ rest) = ((z <? 0)%Z, dec_N (Z.to_N (Z.abs z)), rest).
Proof.
  intros Hr. unfold scan_int, dec_Z.
  pose proof (dec_N_digits (Z.to_N (Z.abs z))) as Hd.
  pose proof (dec_N_nonempty (Z.to_N (Z.abs z))) as Hne.
  destruct (Z.ltb_spec z 0) as [Hz|Hz].
  - replace (Z.to_N (- z)) with (Z.to_N (Z.abs z)) by lia. cbn.
    change (is_space "-") with false. cbn. by rewrite (span_app _ _ _ Hd Hr).
  - replace (Z.to_N z) with (Z.to_N (Z.abs z)) by lia.
    destruct (dec_N (Z.to_N (Z.abs z))) as [|c ds] eqn:E; [done|].
    inversion Hd as [|? ? Hc Hds]; subst. cbn [app span]. rewrite (digit_not_space c Hc). cbn [snd].
    rewrite (digit_not_sign c _ Hc).
    change (c :: ds ++ rest) with ((c :: ds) ++ rest). by rewrite (span_app _ _ _ Hd Hr).
Qed.

(** Reading back the decimal form of a number of the type, whatever follows. *)
Lemma extract_int_dec t z rest :
  (t_min t <= z <= t_max t)%Z -> span is_digit rest = ([], rest) ->
  extract_int t (dec_Z z ++ rest) = Some z.
Proof.
  intros Hz Hr. unfold extract_int. rewrite scan_int_dec by done.
  pose proof (dec_N_nonempty (Z.to_N (Z.abs z))) as Hne.
  destruct (dec_N (Z.to_N (Z.abs z))) eqn:E; [done|]. rewrite <-E, dec_N_value.
  rewrite Z2N.id by lia. unfold is_signed.
  destruct (Z.ltb_spec z 0) as [Hn|Hn]; simpl.
  - rewrite (proj2 (Z.ltb_lt (t_min t) 0)) by lia.
    rewrite (proj2 (Z.leb_le (Z.abs z) (- t_min t))) by lia. f_equal. lia.
  - rewrite (proj2 (Z.leb_le (Z.abs z) (t_max t))) by lia. f_equal. lia.
Qed.

Lemma stoi_dec z : (- 2 ^ 31 <= z < 2 ^ 31)%Z -> stoi (dec_Z z) = Ok z.
Proof.
  intros Hz. unfold stoi. rewrite <-(app_nil_r (dec_Z z)), scan_int_dec by done.
  pose proof (dec_N_nonempty (Z.to_N (Z.abs z))) as Hne.
  destruct (dec_N (Z.to_N (Z.abs z))) eqn:E; [done|]. rewrite <-E, dec_N_value.
  rewrite Z2N.id by lia.
  replace (if (z <? 0)%Z then (- Z.abs z)%Z else Z.abs z) with z by (case_match; lia).
  change (t_min int32) with (- 2 ^ 31)%Z. change (t_max int32) with (2 ^ 31 - 1)%Z.
  by rewrite (proj2 (Z.leb_le _ _)), (proj2 (Z.leb_le _ _)) by lia.
Qed.

(** ** Floating point: [std::stod], [std::stof] *)

(** The parameters of [double] and of [float]. *)
Record FloatType := mkFloat { prec : Z; emax : Z }.
Definition double : FloatType := mkFloat 53 1024.
Definition float : FloatType := mkFloat 24 128.

Definition is_hex (c : ascii) : bool := is_digit c || in_range "a" "f" (to_lower c).
Definition hex_val (c : ascii) : N :=
  if is_digit c then digit_val c else (code (to_lower c) - 87)%N.

(** A literal: mantissa and exponent (of two or of ten). *)
Inductive literal :=
| lit_nan
| lit_inf
| lit_num (base : Z) (m : N) (e : Z).

(** The digits around an optional point: the integer and the fraction part. *)
Definition scan_digits (is_d : ascii -> bool) (s : cstr) : cstr * cstr * cstr :=
  let '(i, r) := span is_d s in
  match r with
  | "."%char :: r' => let '(f, r'') := span is_d r' in (i, f, r'')
  | _ => (i, [], r)
  end.

(** An exponent part, taken only when it has a digit. *)
Definition scan_exp (mark : ascii) (s : cstr) : Z * cstr :=
  match s with
  | c :: r =>
      if bool_decide (to_lower c = mark) then
        let '(neg, r) := split_sign r in
        let '(ds, r) := span is_digit r in
        match ds with
        | [] => (0%Z, s)
        | _ => let e := Z.of_N (value_of 10 digit_val ds) in (if neg then (- e)%Z else e, r)
        end
      else (0%Z, s)
  | [] => (0%Z, s)
  end.

Definition is_ci (s pre : cstr) : bool := starts_with (lower s) pre.

(** [strtod] after the sign: the literal and the unread rest. *)
Definition scan_float (s : cstr) : option (literal * cstr) :=
  if is_ci s (lit "infinity") then Some (lit_inf, drop 8 s)
  else if is_ci s (lit "inf") then Some (lit_inf, drop 3 s)
  else if is_ci s (lit "nan") then
    let r := drop 3 s in
    match r with
    | "("%char :: r1 =>
        let '(_, r2) := span (fun c => is_alnum c || bool_decide (c = "_"%char)) r1 in
        match r2 with ")"%char :: r3 => Some (lit_nan, r3) | _ => Some (lit_nan, r) end
    | _ => Some (lit_nan, r)
    end
  else
    let hex := if is_ci s (lit "0x") then
        let '(i, f, r) := scan_digits is_hex (drop 2 s) in
        match i ++ f with
        | [] => None
        | ds => let '(e, r) := scan_exp "p" r in
                Some (lit_num 2 (value_of 16 hex_val ds) (e - 4 * Z.of_nat (length f)), r)
        end else None in
    match hex with
    | Some x => Some x
    | None =>
        let '(i, f, r) := scan_digits is_digit s in
        match i ++ f with
        | [] => None
        | ds => let '(e, r) := scan_exp "e" r in
                Some (lit_num 10 (value_of 10 digit_val ds) (e - Z.of_nat (length f)), r)
        end
    end.

(** The float nearest to [m * base ^ e]. Beyond the two cut-offs the result is
    infinite or zero whatever the digits ([10 ^ e <= 2 ^ (3 * e)] for a negative
    [e]). *)
Definition round_literal (t : FloatType) (m : N) (base e : Z) : spec_float :=
  match m with
  | N0 => S754_zero false
  | Npos p =>
      if (2 * emax t <? e)%Z then S754_infinity false
      else if (Z.log2 (Zpos p) + 1 + (if (base =? 2)%Z then e else 3 * e) <? - 4 * emax t)%Z then S754_zero false
      else if (0 <=? e)%Z then binary_normalize (prec t) (emax t) (Zpos p * base ^ e) 0 false
      else SFdiv (prec t) (emax t) (S754_finite false p 0)
             (S754_finite false (Z.to_pos (base ^ (- e))) 0)
  end.

(** [ERANGE]: the result overflows, or is below the normal range and inexact. *)
Definition range_error (t : FloatType) (m : N) (base e : Z) (x : spec_float) : bool :=
  match x with
  | S754_infinity _ => true
  | S754_zero _ => negb (N.eqb m 0)
  | S754_finite _ mx ex =>
      (Z.log2 (Zpos mx) <? prec t - 1)%Z
      && negb (Z.of_N m * base ^ (Z.max 0 e) * 2 ^ (Z.max 0 (- ex))
               =? Zpos mx * 2 ^ (Z.max 0 ex) * base ^ (Z.max 0 (- e)))%Z
  | S754_nan => false
  end.

Definition with_sign (neg : bool) (x : spec_float) : spec_float := if neg then SFopp x else x.

(** [std::stod(s, &idx)] and [std::stof(s, &idx)]. *)
Definition sto (t : FloatType) (s : cstr) : result std_error (spec_float * nat) :=
  let '(neg, r) := split_sign (snd (span is_space s)) in
  match scan_float r with
  | None => Err std_invalid_argument
  | Some (l, rest) =>
      let idx := length s - length rest in
      match l with
      | lit_nan => Ok (S754_nan, idx)
      | lit_inf => Ok (S754_infinity neg, idx)
      | lit_num base m e =>
          let x := round_literal t m base e in
          if range_error t m base e x then Err std_out_of_range else Ok (with_sign neg x, idx)
      end
  end.
Definition stod := sto double.
Definition stof := sto float.

(** The constant [z] as a float, [x * y], [x / y], [x < y]. *)
Definition of_Z (t : FloatType) (z : Z) : spec_float := binary_normalize (prec t) (emax t) z 0 false.
Definition fmul (t : FloatType) (x y : spec_float) : spec_float := SFmul (prec t) (emax t) x y.
Definition fdiv (t : FloatType) (x y : spec_float) : spec_float := SFdiv (prec t) (emax t) x y.
Definition flt (x y : spec_float) : bool := SFltb x y.

(** [static_cast<T>(x)] for an integer type: towards zero; [None] where the language leaves
    the result undefined. *)
Definition to_int (t : IntType) (x : spec_float) : option Z :=
  match x with
  | S754_zero _ => Some 0%Z
  | S754_finite s m e =>
      let a := if (0 <=? e)%Z then (Zpos m * 2 ^ e)%Z else (Zpos m / 2 ^ (- e))%Z in
      let z := if s then (- a)%Z else a in
      if (t_min t <=? z)%Z && (z <=? t_max t)%Z then Some z else None
  | _ => None
  end.

(** ** [ostream << float]: six significant digits *)

(** [10 ^ k <= num / den]. *)
Definition pow10_le (k num den : Z) : bool :=
  if (0 <=? k)%Z then (den * 10 ^ k <=? num)%Z else (den <=? num * 10 ^ (- k))%Z.
(** The decimal exponent, searched downwards. *)
Fixpoint dec_exponent (fuel : nat) (k num den : Z) : Z :=
  match fuel with
  | O => k
  | S fuel => if pow10_le k num den then k else dec_exponent fuel (k - 1) num den
  end.
(** The quotient rounded to the nearest integer, ties to even. *)
Definition div_round (a b : Z) : Z :=
  let q := (a / b)%Z in
  match (2 * (a mod b) ?= b)%Z with
  | Lt => q
  | Gt => (q + 1)%Z
  | Eq => if Z.even q then q else (q + 1)%Z
  end.
Definition strip_zeros (s : cstr) : cstr :=
  rev (snd (span (fun c => bool_decide (c = "0"%char)) (rev s))).
Definition with_point (i f : cstr) : cstr :=
  match strip_zeros f with [] => i | f => i ++ lit "." ++ f end.

Definition print_positive (num den : Z) : cstr :=
  let k := dec_exponent (Z.to_nat (Z.log2 num + Z.log2 den + 2)) (Z.log2 num) num den in
  let n := div_round (num * 10 ^ Z.max 0 (5 - k)) (den * 10 ^ Z.max 0 (k - 5)) in
  let (n, k) := if (n =? 10 ^ 6)%Z then ((10 ^ 5)%Z, (k + 1)%Z) else (n, k) in
  let ds := dec_Z n in
  if (k <? -4)%Z || (6 <=? k)%Z then
    let e := dec_Z (Z.abs k) in
    with_point (take 1 ds) (drop 1 ds)
    ++ lit (if (k <? 0)%Z then "e-" else "e+") ++ replicate (2 - length e) "0"%char ++ e
  else if (0 <=? k)%Z then with_point (take (S (Z.to_nat k)) ds) (drop (S (Z.to_nat k)) ds)
  else with_point (lit "0") (replicate (Z.to_nat (- k - 1)) "0"%char ++ ds).

(** The sign of a NaN is not kept by [spec_float]. *)
Definition print_float (x : spec_float) : cstr :=
  let sign (s : bool) := if s then lit "-" else [] in
  match x with
  | S754_nan => lit "nan"
  | S754_infinity s => sign s ++ lit "inf"
  | S754_zero s => sign s ++ lit "0"
  | S754_finite s m e => sign s ++ print_positive (Zpos m * 2 ^ Z.max 0 e) (2 ^ Z.max 0 (- e))
  end.

Example print_float_values :
  (fun s => match stof (lit s) with Ok (x, _) => print_float x | Err _ => [] end)
  <$> ["0.75"; "1e10"; "123456.7"; "-1e-5"; "999999.9"; "100"; "0.0001234567"; "inf"; "0.1"]%string
  = lit <$> ["0.75"; "1e+10"; "123457"; "-1e-05"; "1e+06"; "100"; "0.000123457"; "inf"; "0.1"]%string.
Proof. vm_compute. reflexivity. Qed.

Example stod_values :
  (fun s => let r := stod (lit s) in
     match r with Ok (x, i) => (to_int int32 (fmul double x (of_Z double 1000)), i) | Err _ => (None, 0) end)
  <$> ["1.2d"; "0xF"; " +2.5e1x"; "1e"; "0x"; ".5"; "-3."; "1e-400"; "abc"]%string
  = [(Some 1200%Z, 3); (Some 15000%Z, 3); (Some 25000%Z, 7); (Some 1000%Z, 1); (Some 0%Z, 1);
     (Some 500%Z, 2); (Some (-3000)%Z, 3); (None, 0); (None, 0)].
Proof. vm_compute. reflexivity. Qed.
End Numeric.
