(* ===== verification/Floats.v ===== *)
(** * Floats: how far rounding goes

    Bounds on the results of the IEEE operations of [Numeric] for positive
    numbers, from the definition of rounding: a result is at most one unit of
    its last place away from the exact value. *)

From S2P Require Import Prelude Numeric.
From Stdlib Require Import SpecFloat.
From Stdlib Require Import Lia.

Module Floats.
Import Numeric.
Local Open Scope Z_scope.

(** ** Shifting *)

Lemma digits_log2 m : 0 < m -> Zdigits2 m = Z.log2 m + 1.
Proof.
  destruct m as [|p|p]; try lia. intros _. cbn [Zdigits2]. induction p as [p IH|p IH|]; cbn [digits2_pos]; [| |done].
  - rewrite Pos2Z.inj_succ, IH, (Pos2Z.inj_xI p), Z.log2_succ_double by lia. lia.
  - rewrite Pos2Z.inj_succ, IH, (Pos2Z.inj_xO p), Z.log2_double by lia. lia.
Qed.

Lemma shr_1_half mrs : 0 <= shr_m mrs -> shr_m (shr_1 mrs) = shr_m mrs / 2.
Proof.
  destruct mrs as [m r s]. simpl. intros Hm. destruct m as [|[p|p|]|p]; try lia; simpl.
  - done.
  - rewrite (Pos2Z.inj_xI p). apply (Z.div_unique_pos _ _ _ 1); lia.
  - rewrite (Pos2Z.inj_xO p). apply (Z.div_unique_pos _ _ _ 0); lia.
  - done.
Qed.

Lemma iter_shr p mrs : 0 <= shr_m mrs -> shr_m (iter_pos shr_1 p mrs) = shr_m mrs / 2 ^ Zpos p.
Proof.
  revert mrs. induction p as [p IH|p IH|]; intros mrs Hm; simpl iter_pos.
  - assert (H1 : 0 <= shr_m (shr_1 mrs)) by (rewrite shr_1_half by done; by apply Z.div_pos).
    assert (H2 : 0 <= shr_m (iter_pos shr_1 p (shr_1 mrs))) by (rewrite IH by done; apply Z.div_pos; [done|by apply Z.pow_pos_nonneg]).
    rewrite IH, IH, shr_1_half by done. rewrite !Z.div_div by (try apply Z.pow_nonzero; try apply Z.mul_pos_pos; try apply Z.pow_pos_nonneg; lia).
    f_equal. rewrite (Pos2Z.inj_xI p), Z.add_1_r, Z.pow_succ_r, Z.mul_comm by lia. replace (2 * Zpos p) with (Zpos p + Zpos p) by lia. rewrite Z.pow_add_r by lia. lia.
  - assert (H2 : 0 <= shr_m (iter_pos shr_1 p mrs)) by (rewrite IH by done; apply Z.div_pos; [done|by apply Z.pow_pos_nonneg]).
    rewrite IH, IH by done. rewrite Z.div_div by (try apply Z.pow_nonzero; try apply Z.pow_pos_nonneg; lia).
    f_equal. rewrite (Pos2Z.inj_xO p). replace (2 * Zpos p) with (Zpos p + Zpos p) by lia. by rewrite Z.pow_add_r by lia.
  - rewrite shr_1_half by done. f_equal.
Qed.

Lemma round_even_near m l : m <= round_nearest_even m l <= m + 1.
Proof. destruct l as [|[| |]]; simpl; try lia. destruct (Z.even m); lia. Qed.

Section rounding.
Context (prec emax : Z) (Hprec : 1 < prec).
#[local] Notation emin := (emin prec emax).

(** Shifting to the precision, when there are enough digits and the exponent is
    not too small. *)
Lemma shr_fexp_normal m e l :
  0 < m -> emin <= e -> prec <= Z.log2 m + 1 ->
  exists mrs, shr_fexp prec emax m e l = (mrs, e + (Z.log2 m + 1 - prec)) /\ shr_m mrs = m / 2 ^ (Z.log2 m + 1 - prec).
Proof.
  intros Hm He Hd. unfold shr_fexp, shr, fexp. rewrite digits_log2 by done.
  replace (Z.max (Z.log2 m + 1 + e - prec) emin - e) with (Z.log2 m + 1 - prec) by lia.
  assert (Hr : shr_m (shr_record_of_loc m l) = m) by (by destruct l as [|[| |]]).
  destruct (Z.log2 m + 1 - prec) as [|p|p] eqn:E; [| |lia].
  - exists (shr_record_of_loc m l). rewrite Z.add_0_r, Hr, Z.div_1_r. done.
  - exists (iter_pos shr_1 p (shr_record_of_loc m l)). split; [done|]. rewrite iter_shr, Hr by (rewrite Hr; lia). done.
Qed.

(** A number with enough digits: the result has exactly [prec] digits and is at
    most one unit of the last place away. *)
Lemma round_aux_near s m e l :
  0 < m -> emin <= e -> prec <= Z.log2 m + 1 ->
  exists m' k, binary_round_aux prec emax s m e l
    = (if (e + k <=? emax - prec) then S754_finite s m' (e + k) else S754_infinity s)
  /\ 2 ^ (prec - 1) <= Zpos m' < 2 ^ prec /\ 0 <= k <= Z.log2 m + 2 - prec
  /\ Z.abs (Zpos m' * 2 ^ k - m) <= 2 ^ (Z.log2 m + 1 - prec).
Proof.
  intros Hm He Hd. unfold binary_round_aux.
  destruct (shr_fexp_normal m e l Hm He Hd) as (mrs & -> & Hmrs).
  set (k0 := Z.log2 m + 1 - prec) in *. assert (Hk0 : 0 <= k0) by lia.
  pose proof (round_even_near (shr_m mrs) (loc_of_shr_record mrs)) as Hr.
  set (m1 := round_nearest_even (shr_m mrs) (loc_of_shr_record mrs)) in *.
  assert (Hp : 0 < 2 ^ k0) by (by apply Z.pow_pos_nonneg).
  pose proof (Z.log2_spec m Hm) as [Hlo Hhi].
  assert (Hq : 2 ^ (prec - 1) <= m / 2 ^ k0 < 2 ^ prec).
  { split.
    - apply Z.div_le_lower_bound; [done|]. rewrite <-Z.pow_add_r by lia. etransitivity; [|exact Hlo]. apply Z.pow_le_mono_r; lia.
    - apply Z.div_lt_upper_bound; [done|]. rewrite <-Z.pow_add_r by lia. eapply Z.lt_le_trans; [exact Hhi|]. apply Z.pow_le_mono_r; lia. }
  pose proof (Z.div_mod m (2 ^ k0)) as Hdm. pose proof (Z.mod_pos_bound m (2 ^ k0) Hp) as Hmod.
  assert (Hnear : Z.abs (m1 * 2 ^ k0 - m) <= 2 ^ k0) by nia.
  assert (Hp1 : 0 < 2 ^ (prec - 1)) by (apply Z.pow_pos_nonneg; lia).
  destruct (Z.lt_ge_cases m1 (2 ^ prec)) as [Hlt|Hge].
  - assert (Hl1 : Z.log2 m1 = prec - 1).
    { apply Z.log2_unique; [lia|]. replace (Z.succ (prec - 1)) with prec by lia. lia. }
    destruct (shr_fexp_normal m1 (e + k0) loc_Exact) as (mrs' & -> & Hmrs'); [lia..|]. rewrite Hl1 in *.
    replace (prec - 1 + 1 - prec) with 0 in * by lia. rewrite Z.div_1_r in Hmrs'. rewrite Hmrs', Z.add_0_r.
    destruct m1 as [|m1|m1]; try lia. exists m1, k0. split; [done|]. lia.
  - assert (Hm1 : m1 = 2 ^ prec) by lia.
    assert (Hl1 : Z.log2 m1 = prec) by (rewrite Hm1; apply Z.log2_pow2; lia).
    destruct (shr_fexp_normal m1 (e + k0) loc_Exact) as (mrs' & -> & Hmrs'); [lia..|]. rewrite Hl1 in *.
    replace (prec + 1 - prec) with 1 in * by lia.
    assert (H2 : 2 ^ prec = 2 ^ (prec - 1) * 2) by (replace prec with (prec - 1 + 1) at 1 by lia; by rewrite Z.pow_add_r by lia).
    assert (Hsm : shr_m mrs' = 2 ^ (prec - 1)) by (rewrite Hmrs', Hm1, H2; by apply Z.div_mul).
    rewrite Hsm. destruct (2 ^ (prec - 1)) as [|m2|m2] eqn:E2; try lia. exists m2, (k0 + 1).
    rewrite Z.add_assoc. split; [done|]. split; [lia|]. split; [lia|].
    rewrite Z.pow_add_r by lia. change (2 ^ 1) with 2. nia.
Qed.

(** A number with exactly [prec] digits stays. *)
Lemma round_aux_exact s p e :
  emin <= e <= emax - prec -> Z.log2 (Zpos p) + 1 = prec ->
  binary_round_aux prec emax s (Zpos p) e loc_Exact = S754_finite s p e.
Proof.
  intros He Hd. pose proof (digits_log2 (Zpos p)) as Hg.
  assert (Hs : shr_fexp prec emax (Zpos p) e loc_Exact = (Build_shr_record (Zpos p) false false, e)).
  { unfold shr_fexp, fexp. rewrite Hg by lia. rewrite Hd. unfold shr.
    replace (Z.max (prec + e - prec) emin - e) with 0 by lia. done. }
  unfold binary_round_aux. rewrite Hs. cbn [shr_m loc_of_shr_record round_nearest_even]. rewrite Hs. cbn [shr_m].
  by rewrite (proj2 (Z.leb_le _ _)) by lia.
Qed.
End rounding.

(** ** A hundredth part, [n] times *)

(** The double [z], for a number below [2 ^ 53]. *)
Lemma of_Z_double n :
  0 < n < 2 ^ 53 ->
  exists m s, of_Z double n = S754_finite false m (- s) /\ Zpos m = n * 2 ^ s /\ 2 ^ 52 <= Zpos m < 2 ^ 53 /\ 0 <= s <= 52.
Proof.
  intros Hn. destruct n as [|p|p]; try lia. unfold of_Z, binary_normalize, binary_round. cbn [prec emax double].
  pose proof (Z.log2_spec (Zpos p)) as [Hlo Hhi]; [lia|]. pose proof (Z.log2_nonneg (Zpos p)) as Hl0.
  assert (Hl : Z.log2 (Zpos p) < 53) by (apply Z.log2_lt_pow2; lia).
  pose proof (digits_log2 (Zpos p)) as Hd. cbn [Zdigits2] in Hd. rewrite Hd, Z.add_0_r by lia.
  set (s := 52 - Z.log2 (Zpos p)).
  assert (Hf : fexp 53 1024 (Z.log2 (Zpos p) + 1) = - s) by (unfold fexp, emin; lia). rewrite Hf.
  assert (Halign : exists m, shl_align p 0 (- s) = (m, - s) /\ Zpos m = Zpos p * 2 ^ s).
  { unfold shl_align. destruct s as [|q|q] eqn:E; [exists p; split; [done|lia]| |lia]. simpl. exists (Pos.iter xO p q). split; [done|].
    pose proof (Zpower.shift_pos_correct q p) as Hq. unfold Zpower.shift_pos in Hq. rewrite Hq. simpl. lia. }
  destruct Halign as (m & Hal & Hm). rewrite Hal.
  assert (Hs : 0 <= s <= 52) by lia.
  assert (Hlm : Z.log2 (Zpos m) = 52).
  { rewrite Hm, Z.log2_mul_pow2 by lia. lia. }
  exists m, s. rewrite (round_aux_exact 53 1024) by (unfold emin; lia). split; [done|]. split; [done|]. split; [|done].
  pose proof (Z.log2_spec (Zpos m)) as Hb. rewrite Hlm in Hb. apply Hb. lia.
Qed.

(** The quotient of [100] by a double of 53 digits. *)
Lemma hundred_div N s :
  0 <= s <= 52 -> 2 ^ 52 <= Zpos N < 2 ^ 53 ->
  exists l, SFdiv_core_binary 53 1024 7036874417766400 (- 46) (Zpos N) (- s)
    = (7036874417766400 * 2 ^ 53 / Zpos N, s - 99, l).
Proof.
  intros Hs HN. unfold SFdiv_core_binary.
  assert (Hl : Z.log2 (Zpos N) = 52) by (apply Z.log2_unique; lia).
  assert (HdN : Zdigits2 (Zpos N) = 53) by (rewrite digits_log2, Hl by lia; done).
  assert (HdA : Zdigits2 7036874417766400 = 53) by (vm_compute; reflexivity). rewrite HdN, HdA.
  assert (He : Z.min (fexp 53 1024 (53 + - 46 - (53 + - s))) (- 46 - - s) = s - 99) by (unfold fexp, emin; lia). rewrite He.
  replace (- 46 - - s - (s - 99)) with 53 by lia.
  replace (Z.shiftl 7036874417766400 53) with (7036874417766400 * 2 ^ 53) by (vm_compute; reflexivity).
  unfold Z.div. destruct (Z.div_eucl (7036874417766400 * 2 ^ 53) (Zpos N)) as [q r]. by eexists.
Qed.

(** Two roundings: [Q] stands for the quotient and [W] for the product, scaled. *)
Lemma two_roundings N q Q P W e :
  let T := 7036874417766400 * 2 ^ 53 in
  2 ^ 52 <= N < 2 ^ 53 -> q * N <= T < (q + 1) * N -> Z.abs (Q - q) <= 2 ->
  P = Q * N -> Z.abs (W - P) <= e -> (P < 2 ^ 106 -> e <= 2 ^ 53) -> Z.abs (W - T) <= 4 * 2 ^ 53.
Proof.
  intros T HN Hq HQ -> HW He. assert (HT : T = 7036874417766400 * 9007199254740992) by done.
  change (2 ^ 53) with 9007199254740992 in *. change (2 ^ 52) with 4503599627370496 in *.
  change (2 ^ 106) with 81129638414606681695789005144064 in *.
  assert (HQN : Z.abs (Q * N - T) <= 3 * N) by nia. assert (e <= 9007199254740992) by (apply He; lia). lia.
Qed.

(** [100 / n * n] is 100, but for the last four units of a double. *)
Lemma hundredth_times n :
  0 < n < 2 ^ 32 ->
  exists m, fmul double (of_Z double n) (fdiv double (of_Z double 100) (of_Z double n)) = S754_finite false m (- 46)
  /\ Z.abs (Zpos m - 7036874417766400) <= 4.
Proof.
  intros Hn. destruct (of_Z_double n) as (N & s & -> & HN & HNb & Hs); [lia|].
  assert (H100 : of_Z double 100 = S754_finite false 7036874417766400 (- 46)) by (vm_compute; reflexivity). rewrite H100.
  unfold fdiv, fmul. cbn [prec emax double SFdiv SFmul xorb].
  destruct (hundred_div N s Hs HNb) as [l ->]. set (T := 7036874417766400 * 2 ^ 53). set (q := T / Zpos N).
  assert (Hq : q * Zpos N <= T < (q + 1) * Zpos N).
  { pose proof (Z.div_mod T (Zpos N)) as Hdm. pose proof (Z.mod_pos_bound T (Zpos N)) as Hmod. unfold q. lia. }
  assert (Hqb : 2 ^ 52 <= q < 2 ^ 54).
  { unfold T in Hq. change (2 ^ 53) with 9007199254740992 in *. change (2 ^ 52) with 4503599627370496 in *. change (2 ^ 54) with 18014398509481984. nia. }
  assert (Hlq : 52 <= Z.log2 q <= 53).
  { split; [apply Z.log2_le_pow2; lia|]. assert (Z.log2 q < 54) by (apply Z.log2_lt_pow2; lia). lia. }
  destruct (round_aux_near 53 1024 ltac:(lia) false q (s - 99) l) as (mq & k & -> & Hmq & Hk & Hnear); [lia|unfold emin; lia|lia|].
  rewrite (proj2 (Z.leb_le _ _)) by lia.
  assert (Hlog : 104 <= Z.log2 (Zpos (N * mq))).
  { apply Z.log2_le_pow2; [lia|]. rewrite Pos2Z.inj_mul. change (2 ^ 104) with (2 ^ 52 * 2 ^ 52). apply Z.mul_le_mono_nonneg; lia. }
  destruct (round_aux_near 53 1024 ltac:(lia) false (Zpos (N * mq)) (- s + (s - 99 + k)) loc_Exact) as (m & k2 & -> & Hm & Hk2 & Hnear2);
    [lia|unfold emin; lia|lia|].
  assert (Hlog2 : Z.log2 (Zpos (N * mq)) <= 105).
  { assert (Z.log2 (Zpos (N * mq)) < 106); [|lia]. apply Z.log2_lt_pow2; [lia|]. rewrite Pos2Z.inj_mul.
    change (2 ^ 106) with (2 ^ 53 * 2 ^ 53). apply Z.mul_lt_mono_nonneg; lia. }
  rewrite (proj2 (Z.leb_le _ _)) by lia.
  assert (HW : Z.abs (Zpos m * 2 ^ (k2 + k) - T) <= 4 * 2 ^ 53).
  { apply (two_roundings (Zpos N) q (Zpos mq * 2 ^ k) (Zpos (N * mq) * 2 ^ k) _ (2 ^ (Z.log2 (Zpos (N * mq)) - 52 + k)) HNb Hq).
    - etransitivity; [exact Hnear|]. transitivity (2 ^ 1); [apply Z.pow_le_mono_r; lia|done].
    - rewrite Pos2Z.inj_mul. lia.
    - rewrite Z.pow_add_r, Z.mul_assoc, <-Z.mul_sub_distr_r, Z.abs_mul by lia.
      rewrite (Z.abs_eq (2 ^ k)) by (apply Z.pow_nonneg; lia). rewrite Z.pow_add_r by lia.
      apply Z.mul_le_mono_nonneg_r; [apply Z.pow_nonneg; lia|].
      replace (Z.log2 (Zpos (N * mq)) - 52) with (Z.log2 (Zpos (N * mq)) + 1 - 53) by lia. done.
    - intros HP. apply Z.pow_le_mono_r; [lia|].
      assert (Z.log2 (Zpos (N * mq)) + k < 106); [|lia].
      rewrite Z.add_comm, <-Z.log2_mul_pow2 by lia. apply Z.log2_lt_pow2; [|done]. apply Z.mul_pos_pos; [lia|apply Z.pow_pos_nonneg; lia]. }
  assert (Hj : k2 + k = 53).
  { set (j := k2 + k) in *. destruct (Z.lt_trichotomy j 53) as [Hj|[Hj|Hj]]; [exfalso| done|exfalso].
    - assert (2 ^ j <= 2 ^ 52) by (apply Z.pow_le_mono_r; lia).
      assert (Zpos m * 2 ^ j <= 2 ^ 53 * 2 ^ 52) by (apply Z.mul_le_mono_nonneg; lia). unfold T in HW. lia.
    - assert (2 ^ 54 <= 2 ^ j) by (apply Z.pow_le_mono_r; lia).
      assert (2 ^ 52 * 2 ^ 54 <= Zpos m * 2 ^ j) by (apply Z.mul_le_mono_nonneg; lia). unfold T in HW. lia. }
  exists m. split; [f_equal; lia|]. rewrite Hj in HW. unfold T in HW. lia.
Qed.

(** ** Conversions, sums and differences *)

(** [(gfloat) x] of a double, and the conversion of any float to another type. *)
Definition fcast (t : FloatType) (x : spec_float) : spec_float :=
  match x with S754_finite s m e => binary_round (prec t) (emax t) s m e | _ => x end.
Definition fadd (t : FloatType) (x y : spec_float) : spec_float := SFadd (prec t) (emax t) x y.
Definition fsub (t : FloatType) (x y : spec_float) : spec_float := SFsub (prec t) (emax t) x y.

(** A few units of a double are nothing to a float. *)
Lemma cast_near_hundred m :
  Z.abs (Zpos m - 7036874417766400) <= 4 ->
  to_int uint32 (fcast float (S754_finite false m (- 46))) = Some 100.
Proof.
  intros Hm. assert (Hc : m ∈ [7036874417766396; 7036874417766397; 7036874417766398; 7036874417766399; 7036874417766400;
    7036874417766401; 7036874417766402; 7036874417766403; 7036874417766404]%positive).
  { rewrite !elem_of_cons. lia. }
  repeat (apply elem_of_cons in Hc as [->|Hc]; [vm_compute; reflexivity|]). by apply not_elem_of_nil in Hc.
Qed.
End Floats.
