(* ===== verification/IniParser.v ===== *)
(** * The .ini tokenizer: [libdnf/utils/iniparser.cpp]

    [IniParser] reads a stream line by line and returns one item per call of
    [next]: a section header, a key with its (possibly continued) value, a
    comment line, an empty line, or the end of the input. *)

From S2P Require Import Prelude.

Module IniParser.

(** ** Data *)

Inductive ItemType := SECTION | KEY_VAL | COMMENT_LINE | EMPTY_LINE | END_OF_INPUT.

#[global] Instance ItemType_eq_dec : EqDecision ItemType.
Proof. solve_decision. Defined.

(** The exceptions of [next], with the line number each message carries. *)
Inductive Error :=
| MissingSectionHeader (n : Z)
| MissingBracket (n : Z)
| EmptySectionName (n : Z)
| TextAfterSection (n : Z)
| IllegalContinuationLine (n : Z)
| MissingKey (n : Z)
| MissingEqual (n : Z).

#[global] Instance Error_eq_dec : EqDecision Error.
Proof. solve_decision. Defined.

(** A [std::istream]: the bytes not yet extracted and the [eofbit]. *)
Record istream := Istream { is_rest : cstr; is_eof : bool }.

(** [std::getline(is, line, '\n')] on a stream whose [eofbit] is clear. *)
Definition getline (s : istream) : cstr * istream :=
  match find_idx (one_of [nl]) (is_rest s) with
  | Some i => (take i (is_rest s), Istream (drop (S i) (is_rest s)) false)
  | None => (is_rest s, Istream [] true)
  end.

Record IniParser := mkIni {
  stream : istream;  (* [is] in the source *)
  line_number : Z;
  section : cstr;
  key : cstr;
  value : cstr;
  raw_item : cstr;
  line : cstr;
  line_ready : bool;
}.

Definition init (input : cstr) : IniParser :=
  {| stream := Istream input false; line_number := 0; section := []; key := [];
     value := []; raw_item := []; line := []; line_ready := false |}.

Definition set_raw_item (r : cstr) (p : IniParser) : IniParser :=
  mkIni (stream p) (line_number p) (section p) (key p) (value p) r (line p) (line_ready p).
Definition set_value (v : cstr) (p : IniParser) : IniParser :=
  mkIni (stream p) (line_number p) (section p) (key p) v (raw_item p) (line p) (line_ready p).
Definition set_key (k : cstr) (p : IniParser) : IniParser :=
  mkIni (stream p) (line_number p) (section p) k (value p) (raw_item p) (line p) (line_ready p).
Definition set_section (s : cstr) (p : IniParser) : IniParser :=
  mkIni (stream p) (line_number p) s (key p) (value p) (raw_item p) (line p) (line_ready p).
Definition set_line (l : cstr) (p : IniParser) : IniParser :=
  mkIni (stream p) (line_number p) (section p) (key p) (value p) (raw_item p) l (line_ready p).
Definition set_line_ready (b : bool) (p : IniParser) : IniParser :=
  mkIni (stream p) (line_number p) (section p) (key p) (value p) (raw_item p) (line p) b.

Definition clear_line (p : IniParser) : IniParser := set_line [] p.

(** ** Operations *)

Definition is_quote (c : ascii) : bool := one_of ["034"%char; "'"%char] c.

(** The value without the line ends at its end and without the quotes around
    it.  A value made of line ends only keeps them. *)
Definition strip_newlines (v : cstr) : cstr :=
  match find_last_idx (none_of [nl]) v with
  | Some e => take (S e) v
  | None => v
  end.
Definition strip_quotes (v : cstr) : cstr :=
  match head v, last v with
  | Some f, Some b =>
      if (1 <? length v)%nat && bool_decide (f = b) && is_quote f
      then tail (take (length v - 1) v) else v
  | _, _ => v
  end.
Definition trim_value (p : IniParser) : IniParser :=
  set_value (strip_quotes (strip_newlines (value p))) p.

Definition utf8_bom : cstr := map ascii_of_N [239; 187; 191]%N.
Definition strip_bom (s : cstr) : cstr := if starts_with s utf8_bom then drop 3 s else s.

Definition blank : cstr := [" "%char; tab; cr].
Definition space_tab : cstr := [" "%char; tab].

(** Get the next line unless one is waiting, then remove the byte order mark
    of the first one. *)
Definition read_line (p : IniParser) : IniParser :=
  let p := if line_ready p then p else
    let (l, s) := getline (stream p) in
    mkIni s (line_number p + 1) (section p) (key p) (value p) (raw_item p) l true in
  if (line_number p =? 1)%Z && starts_with (line p) utf8_bom
  then set_line (drop 3 (line p)) p else p.

(** [line], followed by the delimiter unless the stream is exhausted. *)
Definition line_with_delim (p : IniParser) : cstr :=
  line p ++ (if is_eof (stream p) then [] else [nl]).

(** [raw_item = line (+ '\n'); line_ready = false]. *)
Definition take_line (p : IniParser) : IniParser :=
  set_line_ready false (set_raw_item (line_with_delim p) p).
(** [raw_item += line (+ '\n'); line_ready = false]. *)
Definition append_line (p : IniParser) : IniParser :=
  set_line_ready false (set_raw_item (raw_item p ++ line_with_delim p) p).

(** How one iteration of the loop of [next] ends. *)
Inductive outcome :=
| Continue (previous_line_with_key_val : bool) (p : IniParser)
| Return (t : ItemType) (p : IniParser)
| Throw (e : Error) (p : IniParser).

Definition comment_or_empty (prev : bool) (p : IniParser) : outcome :=
  if prev then Return KEY_VAL (trim_value p)
  else if bool_decide (line p = []) then
    if is_eof (stream p) then Return END_OF_INPUT p
    else Return EMPTY_LINE (set_line_ready false (set_raw_item [nl] p))
  else Return COMMENT_LINE (take_line p).

Definition blank_line (prev : bool) (p : IniParser) : outcome :=
  if prev then Continue prev (append_line (set_value (value p ++ [nl]) p))
  else Return EMPTY_LINE (take_line p).

(** The check of the text between ']' and the last character of the line. *)
Fixpoint text_after_section (s : cstr) : bool :=
  match s with
  | [] => false
  | ch :: s' =>
      if one_of ["#"%char; ";"%char] ch then false
      else if none_of blank ch then true
      else text_after_section s'
  end.

Definition section_line (start end_ : nat) (p : IniParser) : outcome :=
  let start := S start in
  match find_from (one_of ["]"%char]) (line p) start with
  | None => Throw (MissingBracket (line_number p)) p
  | Some end_sect_pos =>
      if (end_sect_pos =? start)%nat then Throw (EmptySectionName (line_number p)) p
      else if text_after_section (take (end_ - S end_sect_pos) (drop (S end_sect_pos) (line p)))
      then Throw (TextAfterSection (line_number p)) p
      else Return SECTION
        (take_line (set_section (take (end_sect_pos - start) (drop start (line p))) p))
  end.

Definition continuation_line (prev : bool) (start end_ : nat) (p : IniParser) : outcome :=
  if negb prev then Throw (IllegalContinuationLine (line_number p)) p
  else
    let text := substr (line p) start (size_wrap (Z.of_nat end_ - Z.of_nat start + 1)) in
    Continue prev (append_line (set_value (value p ++ nl :: text) p)).

Definition key_val_line (start end_ : nat) (p : IniParser) : outcome :=
  if bool_decide (line p !! start = Some "="%char) then Throw (MissingKey (line_number p)) p
  else match find_from (one_of ["="%char]) (line p) 0 with
  | None => Throw (MissingEqual (line_number p)) p
  | Some eql_pos =>
      let endkeypos := default 0 (rfind_from (none_of space_tab) (line p) (eql_pos - 1)) in
      let k := substr (line p) start (size_wrap (Z.of_nat endkeypos - Z.of_nat start + 1)) in
      let v := match find_from (none_of space_tab) (line p) (eql_pos + 1) with
               | Some valuepos =>
                   substr (line p) valuepos (size_wrap (Z.of_nat end_ - Z.of_nat valuepos + 1))
               | None => []
               end in
      Continue true (take_line (set_value v (set_key k p)))
  end.

(** One iteration of the loop of [next]. *)
Definition next_body (prev : bool) (p : IniParser) : outcome :=
  let p := read_line p in
  if bool_decide (line p = []) || bool_decide (head (line p) = Some "#"%char)
     || bool_decide (head (line p) = Some ";"%char)
  then comment_or_empty prev p
  else match find_idx (none_of blank) (line p) with
  | None => blank_line prev p
  | Some start =>
      let end_ := default start (find_last_idx (none_of blank) (line p)) in
      let bracket := bool_decide (line p !! start = Some "["%char) in
      if prev && ((start =? 0)%nat || bracket) then Return KEY_VAL (trim_value p)
      else if bracket then section_line start end_ p
      else if bool_decide (section p = []) then Throw (MissingSectionHeader (line_number p)) p
      else if (0 <? start)%nat then continuation_line prev start end_ p
      else key_val_line start end_ p
  end.

(** The loop of [next], with [fuel] iterations at most. *)
Fixpoint next_loop (fuel : nat) (prev : bool) (p : IniParser)
    : option (result Error ItemType * IniParser) :=
  match fuel with
  | O => None
  | S fuel =>
      if line_ready p || negb (is_eof (stream p)) then
        match next_body prev p with
        | Continue prev p => next_loop fuel prev p
        | Return t p => Some (Ok t, p)
        | Throw e p => Some (Err e, p)
        end
      else Some (Ok (if prev then KEY_VAL else END_OF_INPUT), trim_value p)
  end.

(** The number of lines [getline] can still deliver is at most this. *)
Definition lines_left (s : istream) : nat :=
  length (is_rest s) + (if is_eof s then 0 else 1).
Definition next_fuel (p : IniParser) : nat := 2 + lines_left (stream p).

Definition next (p : IniParser) : option (result Error ItemType * IniParser) :=
  next_loop (next_fuel p) false (set_raw_item [] p).

(** An item as a client reads it from the parser after [next]. *)
Record item := Item {
  it_type : ItemType; it_section : cstr; it_key : cstr; it_value : cstr; it_raw : cstr }.

Definition current_item (t : ItemType) (p : IniParser) : item :=
  Item t (section p) (key p) (value p) (raw_item p).

(** The loop every client of the parser runs:
    [while ((type = parser.next()) != END_OF_INPUT)]. *)
Fixpoint items_loop (fuel : nat) (p : IniParser) : option (result Error (list item)) :=
  match fuel with
  | O => None
  | S fuel =>
      match next p with
      | None => None
      | Some (Err e, _) => Some (Err e)
      | Some (Ok END_OF_INPUT, _) => Some (Ok [])
      | Some (Ok t, p) =>
          match items_loop fuel p with
          | Some (Ok its) => Some (Ok (current_item t p :: its))
          | r => r
          end
      end
  end.
Definition items_fuel (p : IniParser) : nat :=
  1 + lines_left (stream p) + (if line_ready p then 1 else 0).
Definition items (input : cstr) : option (result Error (list item)) :=
  items_loop (items_fuel (init input)) (init input).

(** ** The text a parser has not returned yet *)

Definition pending (p : IniParser) : cstr :=
  (if line_ready p then line_with_delim p else []) ++ is_rest (stream p).

(** The same, less the byte order mark the next iteration removes. *)
Definition visible (p : IniParser) : cstr :=
  if (line_number p =? 0)%Z || ((line_number p =? 1)%Z && line_ready p)
  then strip_bom (pending p) else pending p.

Record wf (p : IniParser) : Prop := {
  wf_eof : is_eof (stream p) = true -> is_rest (stream p) = [];
  wf_number : (0 <= line_number p)%Z;
  wf_ready : line_ready p = true -> (1 <= line_number p)%Z;
}.

Lemma wf_init input : wf (init input).
Proof. by split. Qed.

Lemma getline_app s l s' :
  is_eof s = false -> getline s = (l, s') ->
  is_rest s = l ++ (if is_eof s' then [] else [nl]) ++ is_rest s'
  /\ (is_eof s' = true -> is_rest s' = [])
  /\ lines_left s' < lines_left s.
Proof.
  unfold getline, lines_left. intros He.
  destruct (find_idx _ _) as [i|] eqn:Hi; intros [= <- <-]; simpl.
  - pose proof (find_idx_lt _ _ _ Hi). apply find_idx_Some in Hi as (c & Hc & Hp & _).
    unfold one_of in Hp. reflect_bools. apply list_elem_of_singleton in Hp as ->.
    split_and!; [|done|rewrite length_drop, He; lia].
    rewrite <-(take_drop_middle _ _ _ Hc) at 1. done.
  - rewrite app_nil_r, He. split_and!; [done..|lia].
Qed.

Lemma starts_with_take s pre t :
  (forall x, x ∈ pre -> x <> nl) ->
  starts_with (s ++ nl :: t) pre = starts_with s pre.
Proof.
  intros Hpre. unfold starts_with. apply bool_decide_ext.
  destruct (decide (length pre <= length s)) as [Hl|Hl].
  - by rewrite take_app_le.
  - split; intros H; exfalso.
    + rewrite take_app_ge in H by lia.
      destruct (length pre - length s) as [|n] eqn:Hn; [lia|]. simpl in H.
      apply (Hpre nl); [|done]. rewrite <-H. set_solver.
    + apply (f_equal length) in H. rewrite length_take in H. lia.
Qed.

Lemma strip_bom_line s (eof : bool) t :
  (eof = true -> t = []) ->
  strip_bom ((s ++ (if eof then [] else [nl])) ++ t) =
  (strip_bom s ++ (if eof then [] else [nl])) ++ t.
Proof.
  destruct eof; intros Ht; [by rewrite Ht, !app_nil_r|].
  rewrite <-!app_assoc. unfold strip_bom. simpl. rewrite starts_with_take.
  - destruct (starts_with s utf8_bom) eqn:Hs; [|done].
    apply starts_with_spec in Hs as [v ->].
    rewrite <-app_assoc. change 3 with (length utf8_bom). by rewrite !drop_app_length.
  - intros x Hx ->. vm_compute in Hx. set_unfold. naive_solver congruence.
Qed.

(** [read_line] makes the next line available and removes nothing but the
    byte order mark. *)
Lemma read_line_spec p :
  wf p -> line_ready p || negb (is_eof (stream p)) = true ->
  let q := read_line p in
  wf q /\ line_ready q = true /\ (1 <= line_number q)%Z
  /\ (line_ready p = false -> line_number q = (line_number p + 1)%Z)
  /\ (line_ready p = true -> line_number q = line_number p)
  /\ pending q = visible p /\ raw_item q = raw_item p
  /\ key q = key p /\ value q = value p /\ section q = section p
  /\ (line_ready p = false -> lines_left (stream q) < lines_left (stream p))
  /\ (line_ready p = true -> stream q = stream p).
Proof.
  intros [He Hn Hr] Hg. unfold read_line, visible.
  destruct (line_ready p) eqn:Hlr; simpl in *.
  - specialize (Hr eq_refl).
    replace (line_number p =? 0)%Z with false by lia. simpl. rewrite andb_true_r.
    destruct (line_number p =? 1)%Z eqn:H1; simpl;
      [|split_and!; try done; try lia; by split].
    unfold pending, line_with_delim. rewrite Hlr, strip_bom_line by done. unfold strip_bom.
    destruct (starts_with (line p) utf8_bom) eqn:Hb; simpl; rewrite ?Hlr;
      (split_and!; try done; try lia; try by split).
  - reflect_bools. destruct (getline (stream p)) as [l s] eqn:Hgl. simpl.
    destruct (getline_app _ _ _ Hg Hgl) as (Happ & Heof & Hlt).
    assert (pending p = (l ++ (if is_eof s then [] else [nl])) ++ is_rest s) as Hpend.
    { unfold pending. rewrite Hlr. simpl. by rewrite Happ, <-app_assoc. }
    destruct (line_number p =? 0)%Z eqn:H0; reflect_bools.
    + rewrite H0. simpl. rewrite Hpend, strip_bom_line by done. unfold strip_bom.
      destruct (starts_with l utf8_bom) eqn:Hb; simpl;
        (split_and!; try done; try lia; split; simpl; (done || lia)).
    + replace (line_number p + 1 =? 1)%Z with false by lia. simpl. rewrite andb_false_r.
      split_and!; try done; try lia; split; simpl; (done || lia).
Qed.

(** Lines that may still be returned. *)
Definition budget (p : IniParser) : nat :=
  lines_left (stream p) + (if line_ready p then 1 else 0).

(** Invariant of the loop of [next]. *)
Definition loop_ok (prev : bool) (p : IniParser) : Prop :=
  wf p /\ if prev then line_ready p = false /\ (1 <= line_number p)%Z else raw_item p = [].

Lemma wf_ext p q :
  stream p = stream q -> line_number p = line_number q -> line_ready p = line_ready q ->
  wf p -> wf q.
Proof. intros Hs Hn Hr [? ? ?]. split; rewrite <-?Hs, <-?Hn, <-?Hr; done. Qed.

Lemma visible_consumed p :
  line_ready p = false -> (1 <= line_number p)%Z -> visible p = is_rest (stream p).
Proof.
  intros Hr Hn. unfold visible, pending. rewrite Hr.
  replace (line_number p =? 0)%Z with false by lia. by rewrite andb_false_r.
Qed.

Lemma visible_ready p : (2 <= line_number p)%Z -> visible p = pending p.
Proof.
  intros Hn. unfold visible.
  replace (line_number p =? 0)%Z with false by lia.
  by replace (line_number p =? 1)%Z with false by lia.
Qed.

Section consume.
Context (p : IniParser) (Hwf : wf p) (Hr : line_ready p = true).

Lemma take_line_spec :
  wf (take_line p) /\ raw_item (take_line p) ++ visible (take_line p) = pending p
  /\ budget (take_line p) < budget p.
Proof.
  destruct Hwf as [He Hn Hl]. specialize (Hl Hr).
  rewrite visible_consumed by done. unfold pending, budget. rewrite Hr. simpl.
  split_and!; [by split|done|lia].
Qed.

Lemma append_line_spec :
  loop_ok true (append_line p)
  /\ raw_item (append_line p) ++ visible (append_line p) = raw_item p ++ pending p
  /\ budget (append_line p) < budget p.
Proof.
  destruct Hwf as [He Hn Hl]. specialize (Hl Hr).
  rewrite visible_consumed by done. unfold pending, budget. rewrite Hr. simpl.
  split_and!; [split; [by split|done]|by rewrite <-app_assoc|lia].
Qed.
End consume.

(** What an iteration that started from [p] may do: it never loses text and
    it uses up the lines. *)
Definition body_post (prev : bool) (p : IniParser) (o : outcome) : Prop :=
  match o with
  | Continue prev' p' =>
      prev' = true /\ loop_ok true p'
      /\ raw_item p' ++ visible p' = raw_item p ++ visible p /\ budget p' < budget p
  | Return t p' =>
      wf p' /\ raw_item p' ++ visible p' = raw_item p ++ visible p
      /\ (t = END_OF_INPUT -> raw_item p' = [] /\ visible p' = [])
      /\ budget p' <= budget p
      /\ (t <> END_OF_INPUT -> prev = false -> budget p' < budget p)
  | Throw _ _ => True
  end.

Section body.
Context (prev : bool) (p q : IniParser).
Context (Hraw : if prev then (2 <= line_number q)%Z else raw_item q = []).
Context (Hq : wf q) (Hr : line_ready q = true).
Context (Hp : pending q = visible p) (Hrp : raw_item q = raw_item p).
Context (Hb : budget q <= budget p).

(** A continued item ends before the line that is waiting. *)
Lemma body_post_key_val : prev = true -> body_post prev p (Return KEY_VAL (trim_value q)).
Proof.
  intros ->. cbn [body_post]. split_and!; [by apply (wf_ext q)| |done|exact Hb|done].
  change (visible (trim_value q)) with (visible q). rewrite visible_ready by done.
  by rewrite Hp, <-Hrp.
Qed.

(** An item that consists of the waiting line. *)
Lemma body_post_take t r :
  prev = false -> t <> END_OF_INPUT -> stream r = stream q -> line_number r = line_number q ->
  line_ready r = true -> line r = line q -> body_post prev p (Return t (take_line r)).
Proof.
  intros -> Ht Hs Hn Hlr Hl.
  assert (wf r) as Hw by (eapply (wf_ext q); congruence).
  destruct (take_line_spec r Hw Hlr) as (Hw' & Heq & Hlt).
  assert (pending r = pending q) as Hpr.
  { unfold pending, line_with_delim. by rewrite Hlr, Hr, Hs, Hl. }
  assert (budget r = budget q) as Hbr by (unfold budget; by rewrite Hs, Hlr, Hr).
  cbn [body_post]. split_and!; try done; try (intros; lia).
  by rewrite Heq, Hpr, Hp, <-Hrp, Hraw.
Qed.

(** A line that continues the item. *)
Lemma body_post_append r :
  stream r = stream q -> line_number r = line_number q ->
  line_ready r = true -> line r = line q -> raw_item r = raw_item q ->
  body_post prev p (Continue true (append_line r)).
Proof.
  intros Hs Hn Hlr Hl Hrr.
  assert (wf r) as Hw by (eapply (wf_ext q); congruence).
  destruct (append_line_spec r Hw Hlr) as (Hw' & Heq & Hlt).
  assert (pending r = pending q) as Hpr.
  { unfold pending, line_with_delim. by rewrite Hlr, Hr, Hs, Hl. }
  assert (budget r = budget q) as Hbr by (unfold budget; by rewrite Hs, Hlr, Hr).
  cbn [body_post]. split_and!; [done..|by rewrite Heq, Hpr, Hp, Hrr, Hrp|lia].
Qed.
End body.

Lemma comment_or_empty_post (prev : bool) p q :
  (if prev then (2 <= line_number q)%Z else raw_item q = []) ->
  wf q -> line_ready q = true -> pending q = visible p -> raw_item q = raw_item p ->
  budget q <= budget p -> body_post prev p (comment_or_empty prev q).
Proof.
  intros Hraw Hq Hr Hp Hrp Hb. unfold comment_or_empty.
  destruct prev; [by apply body_post_key_val|].
  case_bool_decide as Hl; [|by apply (body_post_take _ p q)].
  destruct (is_eof (stream q)) eqn:He.
  - assert (pending q = []) as Hnil.
    { unfold pending, line_with_delim. rewrite Hr, Hl, He.
      by rewrite (wf_eof _ Hq He). }
    assert (visible q = []) as Hv.
    { unfold visible. rewrite Hnil. by destruct (_ || _). }
    cbn [body_post]. split_and!; try done.
    by rewrite Hv, app_nil_r, <-Hp, Hnil, app_nil_r.
  - replace (set_line_ready false (set_raw_item [nl] q)) with (take_line q);
      [by apply (body_post_take _ p q)|].
    unfold take_line, line_with_delim. by rewrite Hl, He.
Qed.

Lemma next_body_post prev p :
  loop_ok prev p -> line_ready p || negb (is_eof (stream p)) = true ->
  body_post prev p (next_body prev p).
Proof.
  intros [Hwf Hprev] Hg. unfold next_body.
  destruct (read_line_spec p Hwf Hg) as
    (Hq & Hr & Hn1 & Hn & Hn' & Hp & Hraw & _ & _ & _ & Hlt & Hst).
  set (q := read_line p) in *. clearbody q.
  assert (budget q <= budget p) as Hb.
  { unfold budget. rewrite Hr. destruct (line_ready p); [rewrite Hst by done; lia|].
    specialize (Hlt eq_refl). lia. }
  assert (if prev then (2 <= line_number q)%Z else raw_item q = []) as Hr0.
  { destruct prev; [|congruence]. destruct Hprev as [Hf ?]. rewrite Hn by done. lia. }
  clear Hg. destruct (_ || _); [by apply comment_or_empty_post|].
  destruct (find_idx _ _) as [start|].
  2: { unfold blank_line. destruct prev; [by apply (body_post_append _ p q)|].
       by apply (body_post_take _ p q). }
  destruct (prev && _) eqn:Hpk; [apply andb_true_iff in Hpk as [-> _]; by apply body_post_key_val|].
  destruct (bool_decide _) eqn:Hbr.
  { unfold section_line. destruct prev; [by rewrite orb_true_r in Hpk|].
    repeat (case_match; try exact I). by apply (body_post_take _ p q). }
  clear Hbr. case_bool_decide; [exact I|].
  destruct (0 <? start)%nat eqn:Hs.
  { unfold continuation_line. destruct prev; [|exact I]. by apply (body_post_append _ p q). }
  unfold key_val_line. case_bool_decide; [exact I|]. destruct (find_from _ _ _); [|exact I].
  destruct prev.
  { apply Nat.ltb_ge, Nat.le_0_r in Hs as ->. done. }
  set (r := set_value _ _).
  replace (take_line r) with (append_line r); [by apply (body_post_append _ p q)|].
  unfold take_line, append_line. subst r. simpl. by rewrite Hr0.
Qed.

(** What a call of [next] that started from [p] and did not throw did. *)
Definition next_post (prev : bool) (p : IniParser) (t : ItemType) (p' : IniParser) : Prop :=
  wf p' /\ raw_item p' ++ visible p' = raw_item p ++ visible p
  /\ (t = END_OF_INPUT -> raw_item p' = [] /\ visible p' = [])
  /\ budget p' <= budget p
  /\ (t <> END_OF_INPUT -> prev = false -> budget p' < budget p).

Lemma next_loop_spec fuel prev p :
  loop_ok prev p -> budget p < fuel ->
  exists r p', next_loop fuel prev p = Some (r, p')
  /\ forall t, r = Ok t -> next_post prev p t p'.
Proof.
  revert prev p. induction fuel as [|fuel IH]; intros prev p Hok Hb; [lia|].
  simpl. destruct (line_ready p || negb (is_eof (stream p))) eqn:Hg.
  - pose proof (next_body_post prev p Hok Hg) as Hpost.
    destruct (next_body prev p) as [prev' p'|t p'|e p']; cbn [body_post] in Hpost.
    + destruct Hpost as (-> & Hok' & Heq & Hlt).
      destruct (IH true p' Hok' ltac:(lia)) as (r & p'' & -> & Hr).
      exists r, p''. split; [done|]. intros t Ht.
      destruct (Hr t Ht) as (Hw & Hraw & Hend & Hle & _).
      split_and!; [done|congruence|done|lia|lia].
    + exists (Ok t), p'. split; [done|]. intros t' [= <-]. exact Hpost.
    + exists (Err e), p'. split; [done|]. intros t'. discriminate 1.
  - apply orb_false_iff in Hg as [Hr He%negb_false_iff].
    destruct Hok as [Hwf Hprev].
    assert (visible p = []) as Hv.
    { unfold visible, pending. rewrite Hr, (wf_eof _ Hwf He). by destruct (_ || _). }
    eexists _, _. split; [done|]. intros t [= <-].
    split_and!; [by apply (wf_ext p)|done| |done|by destruct prev].
    destruct prev; [done|]. intros _. split; [exact Hprev|exact Hv].
Qed.

Lemma next_spec p :
  wf p -> exists r p', next p = Some (r, p')
  /\ forall t, r = Ok t ->
     wf p' /\ raw_item p' ++ visible p' = visible p
     /\ (t = END_OF_INPUT -> raw_item p' = [] /\ visible p' = [])
     /\ (t <> END_OF_INPUT -> budget p' < budget p).
Proof.
  intros Hwf. unfold next.
  destruct (next_loop_spec (next_fuel p) false (set_raw_item [] p)) as (r & p' & -> & Hr).
  - split; [by apply (wf_ext p)|done].
  - unfold budget, next_fuel. simpl. destruct (line_ready p); lia.
  - exists r, p'. split; [done|]. intros t Ht. destruct (Hr t Ht) as (? & ? & ? & _ & ?).
    split_and!; try done. naive_solver.
Qed.

Lemma items_loop_spec fuel p :
  wf p -> budget p < fuel ->
  exists r, items_loop fuel p = Some r
  /\ forall its, r = Ok its -> concat (it_raw <$> its) = visible p.
Proof.
  revert p. induction fuel as [|fuel IH]; intros p Hwf Hb; [lia|].
  simpl. destruct (next_spec p Hwf) as (r & p' & -> & Hr).
  destruct r as [t|e]; [|by eexists].
  destruct (Hr t eq_refl) as (Hw & Hraw & Hend & Hlt).
  destruct (decide (t = END_OF_INPUT)) as [->|Ht].
  - eexists. split; [done|]. intros its [= <-]. destruct (Hend eq_refl) as [Hr0 Hv].
    rewrite <-Hraw, Hr0, Hv. done.
  - destruct (IH p' Hw ltac:(specialize (Hlt Ht); lia)) as (r & -> & Hits).
    destruct r as [its|e]; destruct t; try done; (eexists; split; [done|]);
      intros its' [= <-]; rewrite fmap_cons; cbn [concat];
      rewrite (Hits its eq_refl); exact Hraw.
Qed.

Lemma items_spec input :
  exists r, items input = Some r
  /\ forall its, r = Ok its -> concat (it_raw <$> its) = strip_bom input.
Proof.
  destruct (items_loop_spec (items_fuel (init input)) (init input) (wf_init input))
    as (r & Hr & Hits); [unfold budget, items_fuel; simpl; lia|].
  exists r. split; [done|]. intros its Hi. by rewrite (Hits its Hi).
Qed.

(** ** The section an item belongs to *)

Definition comment_start (c : ascii) : bool := one_of ["#"%char; ";"%char] c.
Definition is_comment_key (k : cstr) : bool :=
  match k with c :: _ => comment_start c | [] => false end.
Definition good_section (s : cstr) : Prop := s <> [] /\ "]"%char ∉ s.

(** What the loop of [next] does to the section and the key. *)
Definition in_key_val (p : IniParser) : Prop :=
  section p <> [] /\ is_comment_key (key p) = false.
Definition section_post (p : IniParser) (t : ItemType) (p' : IniParser) : Prop :=
  match t with
  | SECTION => good_section (section p') /\ raw_item p' <> []
  | KEY_VAL => section p' = section p /\ in_key_val p'
  | _ => section p' = section p
  end.
Definition section_body_post (p : IniParser) (o : outcome) : Prop :=
  match o with
  | Continue prev' p' => prev' = true /\ section p' = section p /\ in_key_val p'
  | Return t p' => section_post p t p'
  | Throw _ _ => True
  end.

Lemma read_line_same p : section (read_line p) = section p /\ key (read_line p) = key p.
Proof.
  unfold read_line. destruct (line_ready p); [|destruct (getline (stream p))];
    simpl; by destruct (_ && _).
Qed.

Lemma section_line_section p start end_ :
  line p <> [] -> section_body_post p (section_line start end_ p).
Proof.
  intros Hl. unfold section_line. destruct (find_from _ _ _) as [e|] eqn:He; [|exact I].
  pose proof (find_from_Some _ _ _ _ He) as Hb.
  destruct (e =? S start)%nat eqn:Heq; [exact I|]. apply Nat.eqb_neq in Heq.
  destruct (text_after_section _); [exact I|]. cbn [section_body_post section_post].
  split; [split|].
  - simpl. intros H%(f_equal length). rewrite length_take, length_drop in H. simpl in H. lia.
  - unfold find_from in He. apply fmap_Some in He as (j & Hj & ->).
    apply find_idx_Some in Hj as (c & _ & _ & Hf). simpl.
    replace (start + j - start) with j by lia. intros Hin.
    rewrite Forall_forall in Hf. specialize (Hf _ Hin). by vm_compute in Hf.
  - unfold take_line, line_with_delim. simpl. revert Hl. destruct (line p); simpl; congruence.
Qed.

Lemma key_val_line_section p end_ :
  (forall c, head (line p) = Some c -> comment_start c = false) -> section p <> [] ->
  section_body_post p (key_val_line 0 end_ p).
Proof.
  intros Hc Hs. unfold key_val_line. case_bool_decide; [exact I|].
  destruct (find_from _ _ _); [|exact I]. cbn [section_body_post].
  split_and!; [done..|]. split; [done|]. simpl. unfold substr. rewrite drop_0.
  destruct (line p) as [|c l]; [by rewrite take_nil|].
  destruct (Z.to_nat _); [done|]. simpl. by apply Hc.
Qed.

Lemma next_body_section prev p :
  (prev = true -> in_key_val p) -> section_body_post p (next_body prev p).
Proof.
  intros Hprev. unfold next_body. destruct (read_line_same p) as [Hs Hk].
  unfold section_body_post, section_post. rewrite <-Hs.
  assert (prev = true -> in_key_val (read_line p)) as Hin
    by (unfold in_key_val; rewrite Hs, Hk; done).
  set (q := read_line p) in *. clearbody q. clear Hprev Hs Hk p.
  fold (section_post q). fold (section_body_post q).
  destruct (bool_decide (line q = []) || _ || _) eqn:Hc.
  { unfold comment_or_empty. destruct prev; [split; [done|by apply Hin]|].
    case_bool_decide; [|done]. by destruct (is_eof (stream q)). }
  destruct (find_idx _ _) as [start|].
  2: { unfold blank_line. destruct prev; [|done]. split_and!; [done..|]. by apply Hin. }
  destruct (prev && _) eqn:Hp; [apply andb_true_iff in Hp as [-> _]; split; [done|by apply Hin]|].
  apply orb_false_iff in Hc as [[Hc1 Hc2]%orb_false_iff Hc3].
  apply bool_decide_eq_false in Hc1, Hc2, Hc3.
  destruct (bool_decide (line q !! start = _)); [by apply section_line_section|].
  case_bool_decide as Hsec; [exact I|].
  destruct (0 <? start)%nat eqn:Hst.
  { unfold continuation_line. destruct prev; [|exact I]. split_and!; [done..|]. by apply Hin. }
  apply Nat.ltb_ge, Nat.le_0_r in Hst as ->. apply key_val_line_section; [|done].
  intros c Hh. unfold comment_start, one_of. rewrite bool_decide_eq_false.
  intros [->| ->%list_elem_of_singleton]%elem_of_cons; congruence.
Qed.

Lemma next_loop_section fuel prev p t p' :
  (prev = true -> in_key_val p) -> next_loop fuel prev p = Some (Ok t, p') ->
  section_post p t p'.
Proof.
  revert prev p. induction fuel as [|fuel IH]; intros prev p Hp; [done|]. simpl.
  destruct (_ || _); [|intros [= <- <-]; destruct prev; [|done]; split; [done|by apply Hp]].
  pose proof (next_body_section prev p Hp) as Hb.
  destruct (next_body prev p) as [prev' q|t' q|e q]; cbn [section_body_post] in Hb.
  - destruct Hb as (-> & Hs & Hk). intros H%IH; [|done]. by unfold section_post in *; rewrite <-Hs.
  - by intros [= <- <-].
  - discriminate 1.
Qed.

(** The items of a text: each belongs to the section whose header came last. *)
Fixpoint sectioned (cur : cstr) (its : list item) : Prop :=
  match its with
  | [] => True
  | it :: its =>
      match it_type it with
      | SECTION => good_section (it_section it) /\ it_raw it <> [] /\ sectioned (it_section it) its
      | KEY_VAL => it_section it = cur /\ cur <> [] /\ is_comment_key (it_key it) = false
                   /\ sectioned cur its
      | COMMENT_LINE | EMPTY_LINE => it_section it = cur /\ sectioned cur its
      | END_OF_INPUT => False
      end
  end.

Lemma items_loop_sectioned fuel p its :
  items_loop fuel p = Some (Ok its) -> sectioned (section p) its.
Proof.
  revert p its. induction fuel as [|fuel IH]; intros p its; [done|]. simpl.
  destruct (next p) as [[[t|e] p']|] eqn:Hn; [|done..].
  apply next_loop_section in Hn; [|done]. cbn [set_raw_item section] in Hn.
  destruct t; cbn [section_post] in Hn;
    try (destruct (items_loop fuel p') as [[its'|e]|] eqn:Hits; [|done..]; apply IH in Hits);
    intros [= <-]; simpl; try done.
  - destruct Hn. done.
  - destruct Hn as [Hs [H1 H2]]. cbn in Hs. rewrite <-Hs. done.
  - cbn in Hn. rewrite <-Hn. done.
  - cbn in Hn. rewrite <-Hn. done.
Qed.

Lemma items_sectioned input its : items input = Some (Ok its) -> sectioned [] its.
Proof. apply items_loop_sectioned. Qed.

(** ** Properties *)

(** C2. Tokenizing loses nothing: when the whole input is tokenized without an
    exception, the raw items, concatenated in order, are the input without its
    byte order mark. *)
Theorem items_lossless input its :
  items input = Some (Ok its) -> concat (it_raw <$> its) = strip_bom input.
Proof.
  intros H. destruct (items_spec input) as (r & Hr & Hits). apply Hits. congruence.
Qed.

Definition example_ini : cstr :=
  lit "# repos" ++ nl :: lit "[main]" ++ nl :: lit "a = 1" ++ nl :: lit "  2" ++ nl :: nl
    :: lit "[x] ; c" ++ nl :: lit "b='q'".

Lemma items_lossless_witness :
  concat (it_raw <$> match items example_ini with Some (Ok its) => its | _ => [] end)
  = strip_bom example_ini.
Proof. apply items_lossless. vm_compute. reflexivity. Defined.

(** Every call of [next] in the loop returns, and so does the loop: the
    fuel, which is the number of lines that are left, always suffices. *)
Theorem items_total input : is_Some (items input).
Proof. destruct (items_spec input) as (r & -> & _). by eexists. Qed.

(** What [example_ini] is tokenized to. *)
Example items_example :
  (fun r => match r with Ok its => (fun i => (it_type i, it_section i, it_key i, it_value i)) <$> its
                       | Err _ => [] end) <$> items example_ini
  = Some [(COMMENT_LINE, [], [], []); (SECTION, lit "main", [], []);
          (KEY_VAL, lit "main", lit "a", lit "1" ++ nl :: lit "2");
          (EMPTY_LINE, lit "main", lit "a", lit "1" ++ nl :: lit "2");
          (SECTION, lit "x", lit "a", lit "1" ++ nl :: lit "2");
          (KEY_VAL, lit "x", lit "b", lit "q")].
Proof. vm_compute. reflexivity. Qed.

(** *** The parts of a key line *)

Section key_val.
(** [k sp1 = sp2 v sp3], the shape of a line with a value. *)
Context (k sp1 sp2 v sp3 : cstr) (kl vf vl : ascii).
Context (Hkl : last k = Some kl) (Hk : kl ∉ space_tab) (Hke : Forall (fun x => x ∉ ["="%char]) k).
Context (Hsp1 : Forall (fun x => x ∈ space_tab) sp1).
Context (Hsp2 : Forall (fun x => x ∈ space_tab) sp2).
Context (Hsp3 : Forall (fun x => x ∈ blank) sp3).
Context (Hvf : head v = Some vf) (Hf : vf ∉ space_tab).
Context (Hvl : last v = Some vl) (Hl : vl ∉ blank).

Definition kv_line : cstr := k ++ sp1 ++ "="%char :: sp2 ++ v ++ sp3.
Context (Hlen : (Z.of_nat (length kv_line) < 2 ^ 64)%Z).

Lemma kv_line_eql : find_from (one_of ["="%char]) kv_line 0 = Some (length k + length sp1).
Proof.
  rewrite find_from_0. unfold kv_line. rewrite app_assoc, find_idx_app_r.
  - simpl. by rewrite length_app, Nat.add_0_r.
  - apply one_of_false, Forall_app. split; [done|].
    eapply Forall_impl; [exact Hsp1|]. intros x Hx ->%list_elem_of_singleton.
    vm_compute in Hx. set_unfold. naive_solver congruence.
Qed.

Lemma kv_line_key_end :
  rfind_from (none_of space_tab) kv_line (length k + length sp1 - 1) = Some (length k - 1).
Proof.
  assert (0 < length k) by (destruct k; simpl; [done|lia]).
  unfold rfind_from, kv_line. replace (S (length k + length sp1 - 1)) with (length (k ++ sp1))
    by (rewrite length_app; lia).
  rewrite app_assoc, take_app_length, find_last_idx_app_l by (by apply none_of_false).
  by apply (find_last_idx_last _ _ kl), none_of_true.
Qed.

Lemma kv_line_value_pos :
  find_from (none_of space_tab) kv_line (length k + length sp1 + 1)
  = Some (length k + length sp1 + 1 + length sp2).
Proof.
  unfold find_from, kv_line.
  replace (length k + length sp1 + 1) with (length ((k ++ sp1) ++ ["="%char]))
    by (rewrite !length_app; simpl; lia).
  replace (k ++ sp1 ++ "="%char :: sp2 ++ v ++ sp3)
    with (((k ++ sp1) ++ ["="%char]) ++ sp2 ++ v ++ sp3) by by rewrite <-!app_assoc.
  rewrite drop_app_length, find_idx_app_r by (by apply none_of_false).
  destruct v as [|c v']; [done|]. injection Hvf as ->. simpl.
  rewrite none_of_true by done. simpl. f_equal. lia.
Qed.

Lemma kv_line_end :
  find_last_idx (none_of blank) kv_line
  = Some (length k + length sp1 + 1 + length sp2 + length v - 1).
Proof.
  unfold kv_line. rewrite !app_comm_cons, !app_assoc.
  rewrite find_last_idx_app_l by (by apply none_of_false).
  rewrite (find_last_idx_last _ _ vl), !length_app; [simpl; f_equal; rewrite ?length_app; simpl; lia| |by apply none_of_true].
  by rewrite last_app, Hvl.
Qed.
Lemma kv_line_parsed p :
  line p = kv_line ->
  key_val_line 0 (default 0 (find_last_idx (none_of blank) (line p))) p
  = Continue true (take_line (set_value v (set_key k p))).
Proof.
  intros Hp. unfold key_val_line. rewrite Hp, kv_line_eql, kv_line_key_end, kv_line_end.
  rewrite kv_line_value_pos. cbn [default from_option id].
  assert (0 < length k) by (destruct k; simpl; [done|lia]).
  assert (0 < length v) by (destruct v; simpl; [done|lia]).
  assert (length kv_line = length k + length sp1 + 1 + length sp2 + length v + length sp3) as Hll.
  { unfold kv_line. rewrite !length_app. simpl. rewrite !length_app. lia. }
  rewrite !substr_between by (done || lia).
  case_bool_decide as Hh.
  { exfalso. unfold kv_line in Hh. destruct k as [|c k']; [done|]. simpl in Hh. injection Hh as ->.
    inversion Hke as [|? ? Hc]. apply Hc. by left. }
  replace (take (S (length k - 1) - 0) (drop 0 kv_line)) with k.
  2: { rewrite drop_0. replace (S (length k - 1) - 0) with (length k) by lia.
       unfold kv_line. by rewrite take_app_length. }
  replace (take _ (drop _ kv_line)) with v; [done|].
  replace (S _ - _) with (length v) by lia. unfold kv_line.
  replace (k ++ sp1 ++ "="%char :: sp2 ++ v ++ sp3)
    with ((k ++ sp1 ++ "="%char :: sp2) ++ v ++ sp3) by by rewrite <-!app_assoc.
  rewrite drop_app_length', take_app_length; [done|].
  rewrite !length_app. simpl. lia.
Qed.
End key_val.

(** A line [k sp1 = sp2 v sp3], where [k] has no '=' and does not end in a
    space or a tab, [sp1] and [sp2] are spaces and tabs, [v] neither starts with
    one nor ends in white space and [sp3] is white space, is split into exactly
    the key [k] and the value [v]. *)
Theorem key_val_line_splits k sp1 sp2 v sp3 kl vf vl p :
  last k = Some kl -> kl ∉ space_tab -> Forall (fun x => x ∉ ["="%char]) k ->
  Forall (fun x => x ∈ space_tab) sp1 -> Forall (fun x => x ∈ space_tab) sp2 ->
  Forall (fun x => x ∈ blank) sp3 ->
  head v = Some vf -> vf ∉ space_tab -> last v = Some vl -> vl ∉ blank ->
  line p = kv_line k sp1 sp2 v sp3 -> (Z.of_nat (length (line p)) < 2 ^ 64)%Z ->
  key_val_line 0 (default 0 (find_last_idx (none_of blank) (line p))) p
  = Continue true (take_line (set_value v (set_key k p))).
Proof.
  intros Hkl Hk Hke Hsp1 Hsp2 Hsp3 Hvf Hf Hvl Hl Hp Hlen.
  apply (kv_line_parsed _ sp1 sp2 _ sp3 kl vf vl); try done. by rewrite <-Hp.
Qed.

Definition kv_parser : IniParser :=
  mkIni (Istream [] true) 3 (lit "main") [] [] [] (lit "name = A = b" ++ [cr]) true.

Lemma key_val_line_splits_witness :
  key_val_line 0 (default 0 (find_last_idx (none_of blank) (line kv_parser))) kv_parser
  = Continue true (take_line (set_value (lit "A = b") (set_key (lit "name") kv_parser))).
Proof.
  apply (key_val_line_splits (lit "name") (lit " ") (lit " ") (lit "A = b") [cr]
           "e"%char "A"%char "b"%char kv_parser); try reflexivity;
    (apply (bool_decide_unpack _); vm_compute; exact I).
Defined.

(** *** Behaviours worth knowing *)

(** The last character of a section line is not examined: a single character
    after the ']' goes unnoticed, two do not. *)
Example text_after_section_last_char :
  (fun r => match r with Ok _ => true | Err e => bool_decide (e <> TextAfterSection 1) end)
    <$> items (lit "[sec]x") = Some true
  /\ items (lit "[sec]xy") = Some (Err (TextAfterSection 1)).
Proof. vm_compute. done. Qed.

(** With a carriage return after the blanks that follow '=', the computation
    of the value's length wraps around and the value is the carriage return;
    without the blanks the value is empty. *)
Example value_of_blank_crlf :
  (fun r => match r with Ok its => it_value <$> its | Err _ => [] end)
    <$> items (lit "[s]" ++ nl :: lit "k= " ++ [cr; nl]) = Some [[]; [cr]]
  /\ (fun r => match r with Ok its => it_value <$> its | Err _ => [] end)
    <$> items (lit "[s]" ++ nl :: lit "k=" ++ [cr; nl]) = Some [[]; []].
Proof. vm_compute. done. Qed.
End IniParser.
