(* ===== verification/OrderMap.v ===== *)
(** * [PreserveOrderMap]: [include/libdnf/utils/preserve_order_map.hpp]

    A map kept as a vector of pairs in insertion order.  The file also states,
    as the class [MapOps], what the configuration parser relies on in its
    containers; both [PreserveOrderMap] and [std::map] (a [gmap]) provide it. *)

From S2P Require Import Prelude.

(** ** What a client may assume of a map *)

Class MapOps (M K V : Type) := {
  m_lookup : K -> M -> option V;
  m_assign : K -> V -> M -> M;   (* m[k] = v *)
  m_erase : K -> M -> M;         (* m.erase(k) *)
}.
Class MapLaws (M K V : Type) `{MapOps M K V} (ok : M -> Prop) := {
  m_assign_ok m k v : ok m -> ok (m_assign k v m);
  m_erase_ok m k : ok m -> ok (m_erase k m);
  m_lookup_assign_eq m k v : m_lookup k (m_assign k v m) = Some v;
  m_lookup_assign_ne m k k' v : k <> k' -> m_lookup k' (m_assign k v m) = m_lookup k' m;
  m_lookup_erase_eq m k : ok m -> m_lookup k (m_erase k m) = None;
  m_lookup_erase_ne m k k' : k <> k' -> m_lookup k' (m_erase k m) = m_lookup k' m;
}.

#[export] Instance gmap_ops {K V} `{Countable K} : MapOps (gmap K V) K V :=
  {| m_lookup k m := m !! k; m_assign k v m := <[k := v]> m; m_erase k m := delete k m |}.
#[export] Instance gmap_laws {K V} `{Countable K} : MapLaws (gmap K V) K V (fun _ => True).
Proof.
  split; simpl; intros; try done.
  - apply lookup_insert_eq.
  - by apply lookup_insert_ne.
  - apply lookup_delete_eq.
  - by apply lookup_delete_ne.
Qed.

(** A map of maps, such as the options of the sections of a file: proved from
    the laws, for whatever containers provide them. *)
Section nested.
Context {M1 M2 K V : Type} `{!MapOps M1 K M2} `{!MapOps M2 K V}.
Context {ok1 : M1 -> Prop} {ok2 : M2 -> Prop} `{!MapLaws M1 K M2 ok1} `{!MapLaws M2 K V ok2}.
Context `{EqDecision K}.

Definition m_lookup2 (s k : K) (m : M1) : option V := m_lookup s m ≫= m_lookup k.
Definition m_assign2 (s k : K) (v : V) (m2 : M2) (m : M1) : M1 := m_assign s (m_assign k v m2) m.

Lemma m_lookup2_assign2 s k s' k' v m2 m :
  m_lookup s m = Some m2 ->
  m_lookup2 s' k' (m_assign2 s k v m2 m)
  = if decide ((s, k) = (s', k')) then Some v else m_lookup2 s' k' m.
Proof using MapLaws0 MapLaws1.
  intros Hs. unfold m_lookup2, m_assign2.
  destruct (decide (s = s')) as [->|Hne].
  - rewrite m_lookup_assign_eq, Hs. simpl.
    destruct (decide (k = k')) as [->|Hk].
    + by rewrite m_lookup_assign_eq, decide_True.
    + rewrite m_lookup_assign_ne, decide_False by congruence. done.
  - rewrite m_lookup_assign_ne, decide_False by congruence. done.
Qed.
End nested.

Module PreserveOrderMap.
Section order_map.
Context {K V : Type} `{EqDecision K}.

(** The only field, [items]. *)
Definition container := list (K * V).

Definition empty (m : container) : bool := match m with [] => true | _ => false end.
Definition size (m : container) : nat := length m.
Definition clear (m : container) : container := [].

(** [find]: an iterator, that is the index of the entry or [size m] for
    [end()]. *)
Fixpoint find (k : K) (m : container) : nat :=
  match m with
  | [] => 0
  | (k', _) :: m' => if decide (k' = k) then 0 else S (find k m')
  end.

Definition is_end (m : container) (it : nat) : bool := (it =? size m)%nat.

(** [insert]: a present key is left alone, a new one goes where [find] stopped,
    at the end. *)
Definition insert (e : K * V) (m : container) : container * (nat * bool) :=
  let it := find (fst e) m in
  if is_end m it then (take it m ++ e :: drop it m, (it, true)) else (m, (it, false)).

(** [items.erase(pos)]. *)
Definition erase_at (it : nat) (m : container) : container := take it m ++ drop (S it) m.

Definition erase (k : K) (m : container) : container * nat :=
  let it := find k m in
  if is_end m it then (m, 0) else (erase_at it m, 1).

Definition count (k : K) (m : container) : nat := if is_end m (find k m) then 0 else 1.

(** [operator[]]: the position of the reference it returns, and the map,
    extended by the key with a default value when the key is new. *)
Fixpoint subscript (dflt : V) (k : K) (m : container) : container * nat :=
  match m with
  | [] => ([(k, dflt)], 0)
  | (k', v) :: m' =>
      if decide (k' = k) then ((k', v) :: m', 0)
      else let (m'', i) := subscript dflt k m' in ((k', v) :: m'', S i)
  end.

(** [m[k] = v], through the reference. *)
Definition assign (k : K) (v : V) (m : container) : container :=
  let (m', i) := subscript v k m in alter (fun e => (fst e, v)) i m'.

Inductive out_of_range := Out_of_range.

Fixpoint at_ (k : K) (m : container) : result out_of_range V :=
  match m with
  | [] => Err Out_of_range
  | (k', v) :: m' => if decide (k' = k) then Ok v else at_ k m'
  end.

(** ** Theory *)

Definition lookup (k : K) (m : container) : option V := snd <$> m !! find k m.
Definition keys (m : container) : list K := fst <$> m.
(** Keys are unique. *)
Definition unique (m : container) : Prop := NoDup (keys m).

Lemma find_le k m : find k m <= length m.
Proof. induction m as [|[k' v] m IH]; simpl; [lia|]. case_decide; lia. Qed.

Lemma find_lt k m : find k m < length m <-> k ∈ keys m.
Proof.
  induction m as [|[k' v] m IH]; simpl; [split; [lia|set_solver]|].
  case_decide as H; [subst; split; [left|lia]|].
  rewrite <-Nat.succ_lt_mono, IH. set_solver.
Qed.

Lemma is_end_spec k m : is_end m (find k m) = bool_decide (k ∉ keys m).
Proof.
  unfold is_end, size. pose proof (find_le k m) as Hle.
  case_bool_decide as Hk; [apply Nat.eqb_eq|apply Nat.eqb_neq];
    rewrite <-find_lt in Hk; lia.
Qed.

Lemma lookup_cons k k' v m :
  lookup k ((k', v) :: m) = if decide (k' = k) then Some v else lookup k m.
Proof. unfold lookup. simpl. by case_decide. Qed.

Lemma lookup_None k m : lookup k m = None <-> k ∉ keys m.
Proof.
  induction m as [|[k' v] m IH]; [set_solver|].
  rewrite lookup_cons. simpl. case_decide; set_solver.
Qed.

Lemma lookup_Some_elem k v m : lookup k m = Some v -> (k, v) ∈ m.
Proof.
  induction m as [|[k' v'] m IH]; [done|]. rewrite lookup_cons.
  case_decide; intros; simplify_eq; [by left|right; by apply IH].
Qed.

Lemma elem_lookup_Some k v m : unique m -> (k, v) ∈ m -> lookup k m = Some v.
Proof.
  induction m as [|[k' v'] m IH]; [by inversion 2|].
  unfold unique. simpl. intros [Hk Hu]%NoDup_cons [Heq|Hin]%elem_of_cons; rewrite lookup_cons.
  - injection Heq as -> ->. by rewrite decide_True.
  - rewrite decide_False; [by apply IH|]. intros ->. apply Hk.
    by apply (list_elem_of_fmap_2 fst _ (k, v)).
Qed.

Lemma at_lookup k m : at_ k m = match lookup k m with Some v => Ok v | None => Err Out_of_range end.
Proof.
  induction m as [|[k' v] m IH]; [done|]. rewrite lookup_cons. simpl. by case_decide.
Qed.

(** [assign] on each shape of the map. *)
Lemma assign_nil k v : assign k v [] = [(k, v)].
Proof. done. Qed.

Lemma assign_cons k v k' v' m :
  assign k v ((k', v') :: m)
  = if decide (k' = k) then (k', v) :: m else (k', v') :: assign k v m.
Proof.
  unfold assign. simpl. case_decide; [done|]. by destruct (subscript v k m) as [m' i].
Qed.

Lemma keys_assign k v m : keys (assign k v m) = keys m ++ (if decide (k ∈ keys m) then [] else [k]).
Proof.
  induction m as [|[k' v'] m IH]; [done|]. rewrite assign_cons. simpl.
  destruct (decide (k' = k)) as [->|Hk].
  - rewrite decide_True by (by left). by rewrite app_nil_r.
  - simpl. rewrite IH. f_equal. f_equal. apply decide_ext. set_solver.
Qed.

Lemma assign_new k v m : k ∉ keys m -> assign k v m = m ++ [(k, v)].
Proof.
  induction m as [|[k' v'] m IH]; [done|]. simpl. intros Hk.
  rewrite assign_cons, decide_False by set_solver. f_equal. apply IH. set_solver.
Qed.

Lemma assign_app_new k v m m' : k ∉ keys m -> assign k v (m ++ m') = m ++ assign k v m'.
Proof.
  induction m as [|[k' v'] m IH]; [done|]. simpl. intros Hk.
  rewrite assign_cons, decide_False by set_solver. f_equal. apply IH. set_solver.
Qed.

Lemma assign_unique k v m : unique m -> unique (assign k v m).
Proof.
  unfold unique. rewrite keys_assign. intros Hu. case_decide; [by rewrite app_nil_r|].
  apply NoDup_app. split_and!; [done|set_solver|apply NoDup_singleton].
Qed.

Lemma lookup_assign k k' v m :
  lookup k' (assign k v m) = if decide (k = k') then Some v else lookup k' m.
Proof.
  induction m as [|[k'' v'] m IH].
  - rewrite assign_nil, lookup_cons. done.
  - rewrite assign_cons. destruct (decide (k'' = k)) as [->|Hk]; rewrite !lookup_cons.
    + by destruct (decide (k = k')).
    + rewrite IH. destruct (decide (k'' = k')), (decide (k = k')); congruence.
Qed.

Lemma erase_cons k k' v m :
  fst (erase k ((k', v) :: m)) = if decide (k' = k) then m else (k', v) :: fst (erase k m).
Proof.
  unfold erase, is_end, erase_at, size. simpl. case_decide; [by rewrite drop_0|].
  simpl. by destruct (find k m =? length m)%nat.
Qed.

Lemma keys_erase k m : unique m -> keys (fst (erase k m)) = base.filter (fun x => x <> k) (keys m).
Proof.
  induction m as [|[k' v] m IH]; [done|]. unfold unique. simpl. intros [Hk Hu]%NoDup_cons.
  rewrite erase_cons, filter_cons. destruct (decide (k' = k)) as [->|Hd].
  - rewrite decide_False by naive_solver. by rewrite filter_ne_id.
  - rewrite decide_True by done. simpl. f_equal. by apply IH.
Qed.

Lemma erase_unique k m : unique m -> unique (fst (erase k m)).
Proof. intros Hu. unfold unique. rewrite keys_erase by done. by apply NoDup_filter. Qed.

Lemma lookup_erase k k' m :
  unique m -> lookup k' (fst (erase k m)) = if decide (k = k') then None else lookup k' m.
Proof.
  intros Hu. induction m as [|[k'' v] m IH]; [by case_decide|].
  apply NoDup_cons in Hu as [Hk Hu]. rewrite erase_cons.
  destruct (decide (k'' = k)) as [->|Hne].
  - rewrite lookup_cons. destruct (decide (k = k')); [|done]. subst. by apply lookup_None.
  - rewrite !lookup_cons, IH by done.
    destruct (decide (k'' = k')), (decide (k = k')); congruence.
Qed.

Lemma lookup_erase_ne k k' m : k <> k' -> lookup k' (fst (erase k m)) = lookup k' m.
Proof.
  intros Hne. induction m as [|[k'' v] m IH]; [done|]. rewrite erase_cons.
  destruct (decide (k'' = k)) as [->|]; rewrite !lookup_cons; [by rewrite decide_False|].
  by rewrite IH.
Qed.

Lemma erase_count k m : snd (erase k m) = count k m.
Proof. unfold erase, count. by destruct (is_end _ _). Qed.

Lemma count_lookup k m : count k m = match lookup k m with Some _ => 1 | None => 0 end.
Proof.
  unfold count. rewrite is_end_spec. destruct (lookup k m) as [v|] eqn:Hl.
  - rewrite bool_decide_eq_false_2; [done|]. intros Hk%lookup_None. congruence.
  - apply lookup_None in Hl. by rewrite bool_decide_eq_true_2.
Qed.

#[global] Instance order_map_ops : MapOps container K V :=
  {| m_lookup := lookup; m_assign := assign; m_erase k m := fst (erase k m) |}.
#[global] Instance order_map_laws : MapLaws container K V unique.
Proof.
  split; simpl; intros.
  - by apply assign_unique.
  - by apply erase_unique.
  - by rewrite lookup_assign, decide_True.
  - by rewrite lookup_assign, decide_False.
  - by rewrite lookup_erase, decide_True.
  - by apply lookup_erase_ne.
Qed.
End order_map.

#[global] Arguments container : clear implicits.

(** ** Properties *)

(** The vector implements a map: seen through [lookup], [operator[]]
    assignment, [erase] and [insert] are the operations of a finite map, [at]
    and [count] agree with it, and keys stay unique. *)
Theorem refines_map {K V} `{Countable K} (k : K) (v : V) (m : container K V) :
  unique m ->
  let abs (m : container K V) := (list_to_map m : gmap K V) in
  unique (assign k v m) /\ abs (assign k v m) = <[k := v]> (abs m)
  /\ unique (fst (erase k m)) /\ abs (fst (erase k m)) = delete k (abs m)
  /\ snd (erase k m) = (if decide (k ∈ dom (abs m)) then 1 else 0)
  /\ abs (fst (insert (k, v) m)) = (if decide (k ∈ dom (abs m)) then abs m else <[k := v]> (abs m))
  /\ at_ k m = match abs m !! k with Some v => Ok v | None => Err Out_of_range end.
Proof.
  intros Hu abs.
  assert (forall m, unique m -> forall k, abs m !! k = lookup k m) as Habs.
  { clear. intros m Hu k. unfold abs. destruct (lookup k m) as [v|] eqn:Hl.
    - apply elem_of_list_to_map_1; [done|]. by apply lookup_Some_elem.
    - apply not_elem_of_list_to_map_1. by apply lookup_None. }
  assert (k ∈ dom (abs m) <-> k ∈ keys m) as Hdom.
  { rewrite elem_of_dom, Habs by done. rewrite <-not_eq_None_Some, lookup_None.
    destruct (decide (k ∈ keys m)); naive_solver. }
  pose proof (assign_unique k v m Hu) as Hua. pose proof (erase_unique k m Hu) as Hue.
  assert (abs (assign k v m) = <[k := v]> (abs m)) as Hassign.
  { apply map_eq. intros i. by rewrite Habs, lookup_assign, lookup_insert, Habs. }
  split_and!; try done.
  - apply map_eq. intros i. by rewrite Habs, lookup_erase, lookup_delete, Habs.
  - rewrite erase_count, count_lookup, <-Habs by done. destruct (abs m !! k) eqn:Hk.
    + rewrite decide_True; [done|]. apply elem_of_dom. by eexists.
    + rewrite decide_False; [done|]. by apply not_elem_of_dom.
  - unfold insert. simpl. rewrite is_end_spec. case_bool_decide as Hk.
    + rewrite decide_False by naive_solver. simpl. rewrite <-Hassign, assign_new by done.
      rewrite take_ge, drop_ge; [done| |];
        (pose proof (find_lt k m); pose proof (find_le k m); destruct (decide (find k m < length m)); [naive_solver|lia]).
    + rewrite decide_True; [done|]. apply Hdom. destruct (decide (k ∈ keys m)); [done|naive_solver].
  - by rewrite at_lookup, Habs.
Qed.

Definition example_map : container nat bool := [(3, true); (1, false)].
Lemma refines_map_witness :
  (list_to_map (assign 2 true example_map) : gmap nat bool) = <[2 := true]> (list_to_map example_map).
Proof.
  apply (refines_map 2 true example_map). apply (bool_decide_unpack _). vm_compute. exact I.
Defined.

(** Order is preserved: assigning to a present key leaves the sequence of
    keys as it is, a new key is appended, and erasing a key keeps the order of
    the others. *)
Theorem preserves_order {K V} `{EqDecision K} (k : K) (v : V) (m : container K V) :
  unique m ->
  keys (assign k v m) = keys m ++ (if decide (k ∈ keys m) then [] else [k])
  /\ keys (fst (erase k m)) = base.filter (fun x => x <> k) (keys m).
Proof. intros Hu. split; [apply keys_assign|by apply keys_erase]. Qed.

Lemma preserves_order_witness :
  keys (assign 1 true example_map) = [3; 1] /\ keys (fst (erase 1 example_map)) = [3].
Proof.
  assert (unique example_map) as Hu by (apply (bool_decide_unpack _); vm_compute; exact I).
  pose proof (preserves_order 1 true example_map Hu) as H. vm_compute in H |- *. exact H.
Defined.
End PreserveOrderMap.
