(* ===== verification/ConfigParser.v ===== *)
(** * The configuration file: [libdnf/conf/config_parser.cpp]

    [ConfigParser] keeps the sections of an .ini file in order, with comments
    and the raw text of every item, so that a file that was read can be
    written back unchanged.  [substitute] expands the variables of a value. *)

From S2P Require Import Prelude IniParser OrderMap.
From stdpp Require Import pretty.

Module ConfigParser.
Import PreserveOrderMap.

(** ** Variable substitution *)

Definition name_char (c : ascii) : bool := is_alnum c || bool_decide (c = "_"%char).

(** One iteration of the loop of [substitute] at the '$' at index [start]:
    the new text and where the next '$' is; [None] is the [break]. *)
Definition substitute_body (subs : gmap cstr cstr) (text : cstr) (start : nat)
    : option (cstr * option nat) :=
  let variable := start + 1 in
  if (length text <=? variable)%nat then None else
  let bracket := bool_decide (text !! variable = Some "{"%char) in
  let variable := if bracket then variable + 1 else variable in
  if bracket && (length text <=? variable)%nat then None else
  let it := default (length text) (find_from (fun c => negb (name_char c)) text variable) in
  if bracket && (it =? length text)%nat then None else
  let past_variable := it in
  if bracket && negb (bool_decide (text !! it = Some "}"%char)) then
    Some (text, find_from (one_of ["$"%char]) text past_variable)
  else
    match subs !! take (past_variable - variable) (drop variable text) with
    | Some v =>
        let past_variable := if bracket then past_variable + 1 else past_variable in
        let text := take start text ++ v ++ drop past_variable text in
        Some (text, find_from (one_of ["$"%char]) text (start + length v))
    | None => Some (text, find_from (one_of ["$"%char]) text past_variable)
    end.

Fixpoint substitute_loop (fuel : nat) (subs : gmap cstr cstr) (text : cstr) (start : option nat)
    : option cstr :=
  match fuel, start with
  | _, None => Some text
  | O, Some _ => None
  | S fuel, Some start =>
      match substitute_body subs text start with
      | None => Some text
      | Some (text, start) => substitute_loop fuel subs text start
      end
  end.

Definition substitute (text : cstr) (subs : gmap cstr cstr) : option cstr :=
  substitute_loop (S (length text)) subs text (find_from (one_of ["$"%char]) text 0).

(** *** Reference: one pass over the text *)

(** What the text that starts with a '$' begins with: nothing that can be a
    variable up to its end, [n] characters that stay, or a reference of [n]
    characters to a variable with value [v]. *)
Inductive token := Stop | Keep (n : nat) | Expand (n : nat) (v : cstr).

Definition name_length (s : cstr) : nat :=
  default (length s) (find_idx (fun c => negb (name_char c)) s).

Definition scan (subs : gmap cstr cstr) (s : cstr) : token :=
  match s with
  | _ :: c :: r =>
      if decide (c = "{"%char) then
        let n := name_length r in
        match drop n r with
        | [] => Stop
        | b :: _ =>
            if decide (b = "}"%char) then
              match subs !! take n r with Some v => Expand (n + 3) v | None => Keep (n + 2) end
            else Keep (n + 2)
        end
      else
        let n := name_length (c :: r) in
        match subs !! take n (c :: r) with Some v => Expand (n + 1) v | None => Keep (n + 1) end
  | _ => Stop
  end.

(** The expansion of a text: what is substituted is not scanned again. *)
Fixpoint expand (fuel : nat) (subs : gmap cstr cstr) (s : cstr) : cstr :=
  match fuel with
  | O => s
  | S fuel =>
      match find_idx (one_of ["$"%char]) s with
      | None => s
      | Some i =>
          take i s ++
          let t := drop i s in
          match scan subs t with
          | Stop => t
          | Keep n => take n t ++ expand fuel subs (drop n t)
          | Expand n v => v ++ expand fuel subs (drop n t)
          end
      end
  end.

Lemma name_length_le s : name_length s <= length s.
Proof.
  unfold name_length. destruct (find_idx _ s) eqn:H; simpl; [|lia].
  apply find_idx_lt in H. lia.
Qed.

Lemma name_length_end s : name_length s = length s <-> drop (name_length s) s = [].
Proof.
  pose proof (name_length_le s). split; intros Hn.
  - rewrite Hn. apply drop_all.
  - apply (f_equal length) in Hn. rewrite length_drop in Hn. simpl in Hn. lia.
Qed.

Lemma find_name_end text n :
  n <= length text ->
  default (length text) (find_from (fun c => negb (name_char c)) text n)
  = n + name_length (drop n text).
Proof.
  intros Hn. unfold find_from, name_length.
  destruct (find_idx _ (drop n text)); simpl; [done|]. rewrite length_drop. lia.
Qed.

(** The iteration on [pre ++ s], where [s] starts with the '$', is what [scan]
    says of [s]. *)
Lemma substitute_body_scan subs pre s :
  head s = Some "$"%char ->
  substitute_body subs (pre ++ s) (length pre)
  = match scan subs s with
    | Stop => None
    | Keep n => Some (pre ++ s, find_from (one_of ["$"%char]) (pre ++ s) (length pre + n))
    | Expand n v => Some (pre ++ v ++ drop n s,
        find_from (one_of ["$"%char]) (pre ++ v ++ drop n s) (length pre + length v))
    end.
Proof.
  destruct s as [|d s]; [done|]. intros [= ->]. unfold substitute_body, scan.
  rewrite length_app. cbn [length].
  assert (forall m, drop (length pre + S m) (pre ++ "$"%char :: s) = drop m s) as Hdrop.
  { intros m. replace (length pre + S m) with (length (pre ++ ["$"%char]) + m)
      by (rewrite length_app; simpl; lia).
    rewrite <-drop_drop. replace (pre ++ "$"%char :: s) with ((pre ++ ["$"%char]) ++ s)
      by by rewrite <-app_assoc. by rewrite drop_app_length. }
  destruct s as [|c r].
  { simpl. replace (_ <=? _) with true by (symmetry; apply Nat.leb_le; lia). done. }
  replace (_ <=? _) with false by (symmetry; apply Nat.leb_gt; simpl; lia).
  assert ((pre ++ "$"%char :: c :: r) !! (length pre + 1) = Some c) as Hc.
  { rewrite lookup_app_r by lia. by replace (length pre + 1 - length pre) with 1 by lia. }
  rewrite Hc. destruct (decide (c = "{"%char)) as [->|Hb].
  - rewrite bool_decide_eq_true_2 by done. cbn beta zeta iota delta [andb].
    replace (length pre + 1 + 1) with (length pre + 2) by lia.
    destruct (_ <=? _) eqn:Hle.
    { apply Nat.leb_le in Hle. destruct r; [done|simpl in Hle; lia]. }
    apply Nat.leb_gt in Hle.
    pose proof (find_name_end (pre ++ "$"%char :: "{"%char :: r) (length pre + 2)) as Hf.
    rewrite length_app in Hf. cbn [length] in Hf |- *. rewrite Hf by lia. clear Hf.
    rewrite (Hdrop 1). change (drop 1 ("{"%char :: r)) with (drop 0 r). rewrite drop_0.
    pose proof (name_length_le r) as Hnl. set (n := name_length r) in *.
    destruct (_ =? _) eqn:Heq.
    { apply Nat.eqb_eq in Heq. assert (n = length r) as Hn by lia.
      apply name_length_end in Hn. fold n in Hn. by rewrite Hn. }
    apply Nat.eqb_neq in Heq.
    destruct (drop n r) as [|b u] eqn:Hdr.
    { apply name_length_end in Hdr. fold n in Hdr. lia. }
    assert ((pre ++ "$"%char :: "{"%char :: r) !! (length pre + 2 + n) = Some b) as ->.
    { rewrite lookup_app_r by lia. replace (length pre + 2 + n - length pre) with (S (S n)) by lia.
      simpl. rewrite <-(Nat.add_0_r n), <-lookup_drop, Hdr. done. }
    destruct (decide (b = "}"%char)) as [->|Hb'].
    + rewrite bool_decide_eq_true_2 by done. simpl.
      replace (length pre + 2 + n - (length pre + 2)) with n by lia.
      destruct (subs !! take n r) as [v|].
      * rewrite take_app_length.
        replace (length pre + 2 + n + 1) with (length pre + S (n + 2)) by lia.
        rewrite Hdrop. replace (n + 3) with (S (n + 2)) by lia. done.
      * by replace (length pre + 2 + n) with (length pre + (n + 2)) by lia.
    + rewrite bool_decide_eq_false_2 by congruence. simpl.
      by replace (length pre + 2 + n) with (length pre + (n + 2)) by lia.
  - rewrite bool_decide_eq_false_2 by congruence. cbn beta zeta iota delta [andb].
    pose proof (find_name_end (pre ++ "$"%char :: c :: r) (length pre + 1)) as Hf.
    rewrite length_app in Hf. cbn [length] in Hf |- *. rewrite Hf by lia. clear Hf.
    rewrite (Hdrop 0), drop_0. set (n := name_length (c :: r)).
    replace (length pre + 1 + n - (length pre + 1)) with n by lia.
    destruct (subs !! take n (c :: r)) as [v|].
    + rewrite take_app_length. replace (length pre + 1 + n) with (length pre + S n) by lia.
      rewrite Hdrop. by replace (n + 1) with (S n) by lia.
    + by replace (length pre + 1 + n) with (length pre + (n + 1)) by lia.
Qed.

Lemma find_from_app {A} (p : A -> bool) (pre s : list A) n :
  find_from p (pre ++ s) (length pre + n) = (fun i => length pre + i) <$> find_from p s n.
Proof.
  unfold find_from. rewrite <-drop_drop, drop_app_length, <-option_fmap_compose.
  destruct (find_idx _ _); simpl; [f_equal; lia|done].
Qed.

Lemma scan_bounds subs s :
  match scan subs s with Stop => True | Keep n | Expand n _ => 1 <= n <= length s end.
Proof.
  unfold scan. destruct s as [|d [|c r]]; [done..|].
  destruct (decide (c = "{"%char)).
  - pose proof (name_length_le r) as Hn. destruct (drop (name_length r) r) as [|b u] eqn:Hd; [done|].
    apply (f_equal length) in Hd. rewrite length_drop in Hd. simpl in Hd.
    cbn [length] in *. repeat case_match; simplify_eq; try done; lia.
  - pose proof (name_length_le (c :: r)) as Hn. cbn [length] in *. repeat case_match; simplify_eq; lia.
Qed.

Lemma substitute_loop_expand fuel subs pre s :
  length s < fuel ->
  substitute_loop fuel subs (pre ++ s) (find_from (one_of ["$"%char]) (pre ++ s) (length pre + 0))
  = Some (pre ++ expand fuel subs s).
Proof.
  revert pre s. induction fuel as [|fuel IH]; intros pre s Hf; [lia|].
  rewrite find_from_app, find_from_0. simpl.
  destruct (find_idx _ s) as [i|] eqn:Hi; simpl; [|done].
  pose proof (find_idx_lt _ _ _ Hi) as Hlt.
  assert (head (drop i s) = Some "$"%char) as Hhd.
  { apply find_idx_Some in Hi as (c & Hc & Hp & _). unfold one_of in Hp. reflect_bools.
    apply list_elem_of_singleton in Hp as ->. by rewrite (drop_S _ _ _ Hc). }
  assert (pre ++ s = (pre ++ take i s) ++ drop i s) as Hsplit
    by (by rewrite <-app_assoc, take_drop).
  assert (length pre + i = length (pre ++ take i s)) as Hlen
    by (rewrite length_app, length_take; lia).
  rewrite Hsplit, Hlen, substitute_body_scan by done.
  pose proof (scan_bounds subs (drop i s)) as Hb. set (t := drop i s) in *.
  assert (length t = length s - i) as Ht by (subst t; apply length_drop).
  destruct (scan subs t) as [|n|n v].
  - by rewrite <-app_assoc.
  - set (pre' := (pre ++ take i s) ++ take n t).
    assert ((pre ++ take i s) ++ t = pre' ++ drop n t) as ->
      by (unfold pre'; by rewrite <-(app_assoc (pre ++ take i s)), take_drop).
    replace (length (pre ++ take i s) + n) with (length pre' + 0)
      by (unfold pre'; rewrite (length_app (pre ++ _)), length_take; lia).
    rewrite IH by (rewrite length_drop; lia). unfold pre'. by rewrite <-!app_assoc.
  - set (pre' := (pre ++ take i s) ++ v).
    assert ((pre ++ take i s) ++ v ++ drop n t = pre' ++ drop n t) as ->
      by (unfold pre'; by rewrite <-(app_assoc (pre ++ take i s))).
    replace (length (pre ++ take i s) + length v) with (length pre' + 0)
      by (unfold pre'; rewrite (length_app (pre ++ _)); lia).
    rewrite IH by (rewrite length_drop; lia). unfold pre'. by rewrite <-!app_assoc.
Qed.

(** C3. The in-place loop of [substitute], which re-searches a text whose
    length changes under it, always ends, and computes the one-pass expansion:
    every reference to a known variable replaced by its value, everything else
    kept, and no inserted text scanned again. *)
Theorem substitute_expand text subs :
  substitute text subs = Some (expand (S (length text)) subs text).
Proof.
  pose proof (substitute_loop_expand (S (length text)) subs [] text) as H.
  simpl app in H. simpl length in H. apply H. lia.
Qed.

Example substitute_example :
  substitute (lit "http://${host}/$releasever/$basearch-$no/${x") {[ lit "host" := lit "$a"; lit "releasever" := lit "33"; lit "a" := lit "A" ]}
  = Some (lit "http://$a/33/$basearch-$no/${x").
Proof. vm_compute. reflexivity. Qed.

(** ** The parser's state *)

Abbreviation section_map := (container cstr cstr).

(** [item_number] counts comments without a bound; it is an [int] in the code. *)
Record ConfigParser := mkCfg {
  substitutions : gmap cstr cstr;
  data : container cstr section_map;
  item_number : Z;
  header : cstr;
  raw_items : gmap cstr cstr;
}.

Definition init : ConfigParser := mkCfg ∅ [] 0 [] ∅.

Inductive Error :=
| SectionNotFound (section : cstr)
| OptionNotFound (key section : cstr).

Definition set_data (d : container cstr section_map) (c : ConfigParser) : ConfigParser :=
  mkCfg (substitutions c) d (item_number c) (header c) (raw_items c).
Definition set_raw (r : gmap cstr cstr) (c : ConfigParser) : ConfigParser :=
  mkCfg (substitutions c) (data c) (item_number c) (header c) r.
Definition set_substitutions (s : gmap cstr cstr) (c : ConfigParser) : ConfigParser :=
  mkCfg s (data c) (item_number c) (header c) (raw_items c).
Definition append_header (h : cstr) (c : ConfigParser) : ConfigParser :=
  mkCfg (substitutions c) (data c) (item_number c) (header c ++ h) (raw_items c).

(** The key of an item in [raw_items]: [section + ']' + key]. *)
Definition raw_key (section key : cstr) : cstr := section ++ "]"%char :: key.

Definition has_section (section : cstr) (c : ConfigParser) : bool :=
  negb (is_end (data c) (find section (data c))).
Definition has_option (section key : cstr) (c : ConfigParser) : bool :=
  match lookup section (data c) with
  | Some kvs => negb (is_end kvs (find key kvs))
  | None => false
  end.

Definition add_section (section raw_line : cstr) (c : ConfigParser) : ConfigParser * bool :=
  if has_section section c then (c, false) else
  let c := if bool_decide (raw_line = []) then c
           else set_raw (<[section := raw_line]> (raw_items c)) c in
  (set_data (assign section [] (data c)) c, true).

Definition set_value_raw (section key value raw_item : cstr) (c : ConfigParser)
    : result Error ConfigParser :=
  match lookup section (data c) with
  | None => Err (SectionNotFound section)
  | Some kvs =>
      let raws := if decide (raw_items c = ∅) then delete (raw_key section key) (raw_items c)
                  else <[raw_key section key := raw_item]> (raw_items c) in
      Ok (set_data (assign section (assign key value kvs) (data c)) (set_raw raws c))
  end.

Definition create_raw_item (value old_raw_item : cstr) : cstr :=
  match find_from (one_of ["="%char]) old_raw_item 0 with
  | None => []
  | Some eql_pos =>
      let key_and_delim_length :=
        default (length old_raw_item)
          (find_from (none_of IniParser.space_tab) old_raw_item (eql_pos + 1)) in
      take key_and_delim_length old_raw_item ++ value ++ [nl]
  end.

Definition set_value (section key value : cstr) (c : ConfigParser) : result Error ConfigParser :=
  let raw := create_raw_item value (default [] (raw_items c !! raw_key section key)) in
  set_value_raw section key value raw c.

Definition remove_section (section : cstr) (c : ConfigParser) : ConfigParser * bool :=
  let (d, n) := erase section (data c) in
  if (0 <? n)%nat then (set_raw (delete section (raw_items c)) (set_data d c), true)
  else (set_data d c, false).

Definition remove_option (section key : cstr) (c : ConfigParser) : ConfigParser * bool :=
  match lookup section (data c) with
  | None => (c, false)
  | Some kvs =>
      let (kvs, n) := erase key kvs in
      let c := set_data (assign section kvs (data c)) c in
      if (0 <? n)%nat then (set_raw (delete (raw_key section key) (raw_items c)) c, true)
      else (c, false)
  end.

(** ["#" + std::to_string(n)]. *)
Definition comment_key (n : Z) : cstr := "#"%char :: lit (pretty n).

Definition add_comment_line (section comment : cstr) (c : ConfigParser)
    : result Error ConfigParser :=
  match lookup section (data c) with
  | None => Err (SectionNotFound section)
  | Some kvs =>
      let n := (item_number c + 1)%Z in
      Ok (mkCfg (substitutions c) (assign section (assign (comment_key n) comment kvs) (data c))
            n (header c) (raw_items c))
  end.

Definition get_value (section key : cstr) (c : ConfigParser) : result Error cstr :=
  match lookup section (data c) with
  | None => Err (SectionNotFound section)
  | Some kvs =>
      match lookup key kvs with
      | None => Err (OptionNotFound key section)
      | Some v => Ok v
      end
  end.

Definition get_substituted_value (section key : cstr) (c : ConfigParser)
    : option (result Error cstr) :=
  match get_value section key c with
  | Ok v => Ok <$> substitute v (substitutions c)
  | Err e => Some (Err e)
  end.

(** *** Reading *)

(** The body of the loop of [read], for the item just tokenized. *)
Definition read_item (it : IniParser.item) (c : ConfigParser) : result Error ConfigParser :=
  match IniParser.it_type it with
  | IniParser.SECTION => Ok (fst (add_section (IniParser.it_section it) (IniParser.it_raw it) c))
  | IniParser.KEY_VAL =>
      set_value_raw (IniParser.it_section it) (IniParser.it_key it) (IniParser.it_value it)
        (IniParser.it_raw it) c
  | IniParser.COMMENT_LINE | IniParser.EMPTY_LINE =>
      if bool_decide (IniParser.it_section it = []) then Ok (append_header (IniParser.it_raw it) c)
      else add_comment_line (IniParser.it_section it) (IniParser.it_raw it) c
  | IniParser.END_OF_INPUT => Ok c
  end.

Inductive read_error := TokenError (e : IniParser.Error) | StoreError (e : Error).

(** [read]: the configuration reached, and the exception that ended the loop
    if there was one. *)
Fixpoint read_loop (fuel : nat) (p : IniParser.IniParser) (c : ConfigParser)
    : option (ConfigParser * option read_error) :=
  match fuel with
  | O => None
  | S fuel =>
      match IniParser.next p with
      | None => None
      | Some (Err e, _) => Some (c, Some (TokenError e))
      | Some (Ok IniParser.END_OF_INPUT, _) => Some (c, None)
      | Some (Ok t, p) =>
          match read_item (IniParser.current_item t p) c with
          | Err e => Some (c, Some (StoreError e))
          | Ok c => read_loop fuel p c
          end
      end
  end.

Definition read (input : cstr) (c : ConfigParser) : option (ConfigParser * option read_error) :=
  read_loop (IniParser.items_fuel (IniParser.init input)) (IniParser.init input) c.

(** *** Writing *)

Definition escape_newlines (v : cstr) : cstr :=
  concat ((fun c => if bool_decide (c = nl) then [c; " "%char] else [c]) <$> v).

Definition write_key_val (section : cstr) (raws : gmap cstr cstr) (e : cstr * cstr) : cstr :=
  if IniParser.is_comment_key (fst e) then snd e
  else match raws !! raw_key section (fst e) with
       | Some raw => raw
       | None => fst e ++ "="%char :: escape_newlines (snd e) ++ [nl]
       end.

Definition write_key_vals (section : cstr) (kvs : section_map) (raws : gmap cstr cstr) : cstr :=
  concat (write_key_val section raws <$> kvs).

Definition write_section (section : cstr) (kvs : section_map) (raws : gmap cstr cstr) : cstr :=
  match raws !! section with
  | Some raw => raw
  | None => "["%char :: section ++ ["]"%char; nl]
  end ++ write_key_vals section kvs raws.

(** [write(ostream)]: what is appended to the stream. *)
Definition write (c : ConfigParser) : cstr :=
  header c ++ concat ((fun s => write_section (fst s) (snd s) (raw_items c)) <$> data c).

(** [write(ostream, section)]. *)
Definition write_one (section : cstr) (c : ConfigParser) : result Error cstr :=
  match lookup section (data c) with
  | None => Err (SectionNotFound section)
  | Some kvs => Ok (write_section section kvs (raw_items c))
  end.

(** ** What was read is written back *)

(** The items of a text stored one after the other. *)
Fixpoint read_items (its : list IniParser.item) (c : ConfigParser) : result Error ConfigParser :=
  match its with
  | [] => Ok c
  | it :: its => let* c := read_item it c in read_items its c
  end.

Lemma read_loop_items fuel p its c c' :
  IniParser.items_loop fuel p = Some (Ok its) -> read_items its c = Ok c' ->
  read_loop fuel p c = Some (c', None).
Proof.
  revert p its c. induction fuel as [|fuel IH]; intros p its c; [done|]. simpl.
  destruct (IniParser.next p) as [[[t|e] p']|]; [|done..].
  destruct (decide (t = IniParser.END_OF_INPUT)) as [->|Ht].
  - intros [= <-]. simpl. by intros [= ->].
  - destruct (IniParser.items_loop fuel p') as [[its'|e]|] eqn:Hits.
    2,3: destruct t; done.
    intros H Hr. assert (its = IniParser.current_item t p' :: its') as -> by (destruct t; congruence).
    simpl in Hr. apply result_bind_Ok in Hr as (c1 & Hc1 & Hr).
    destruct t; try done; rewrite Hc1; by eapply IH.
Qed.

(** No section and no option occurs twice. *)
Fixpoint no_repeat (secs : list cstr) (opts : list (cstr * cstr)) (its : list IniParser.item) : bool :=
  match its with
  | [] => true
  | it :: its =>
      let s := IniParser.it_section it in
      match IniParser.it_type it with
      | IniParser.SECTION => bool_decide (s ∉ secs) && no_repeat (s :: secs) opts its
      | IniParser.KEY_VAL =>
          bool_decide ((s, IniParser.it_key it) ∉ opts)
          && no_repeat secs ((s, IniParser.it_key it) :: opts) its
      | _ => no_repeat secs opts its
      end
  end.

Lemma raw_key_inj s s' k k' :
  "]"%char ∉ s -> "]"%char ∉ s' -> raw_key s k = raw_key s' k' -> s = s' /\ k = k'.
Proof.
  unfold raw_key. revert s'. induction s as [|c s IH]; intros [|c' s']; simpl; intros Hs Hs' [=].
  - done.
  - subst. set_solver.
  - subst. set_solver.
  - subst. edestruct (IH s') as [-> ->]; set_solver.
Qed.

Lemma raw_key_not_section s k s' : "]"%char ∉ s' -> raw_key s k <> s'.
Proof. intros Hs' <-. apply Hs'. unfold raw_key. set_solver. Qed.

Lemma comment_key_comment n : IniParser.is_comment_key (comment_key n) = true.
Proof. reflexivity. Qed.

Lemma comment_key_inj n m : comment_key n = comment_key m -> n = m.
Proof.
  unfold comment_key, lit. intros [= H]. apply (inj (pretty (A := Z))).
  rewrite <-(String.string_of_list_ascii_of_string (pretty n)), H.
  apply String.string_of_list_ascii_of_string.
Qed.

Lemma write_section_agree s kvs raws raws' :
  raws !! s = raws' !! s ->
  (forall k, k ∈ keys kvs -> IniParser.is_comment_key k = false ->
    raws !! raw_key s k = raws' !! raw_key s k) ->
  write_section s kvs raws = write_section s kvs raws'.
Proof.
  intros Hs Hk. unfold write_section. rewrite Hs. f_equal. unfold write_key_vals.
  induction kvs as [|[k v] kvs IH]; [done|]. simpl. f_equal.
  - unfold write_key_val. simpl. destruct (IniParser.is_comment_key k) eqn:Hc; [done|].
    rewrite Hk; [done|by left|done].
  - apply IH. intros k' Hk' Hc. apply Hk; [by right|done].
Qed.

Lemma write_section_snoc s kvs k v raws :
  write_section s (kvs ++ [(k, v)]) raws
  = write_section s kvs raws ++ write_key_val s raws (k, v).
Proof.
  unfold write_section, write_key_vals.
  rewrite fmap_app, concat_app. simpl. by rewrite app_nil_r, app_assoc.
Qed.

(** An option of a section that was stored from a file. *)
Definition stored_key (c : ConfigParser) (opts : list (cstr * cstr)) (s k : cstr) : Prop :=
  (exists n, (n <= item_number c)%Z /\ k = comment_key n)
  \/ (IniParser.is_comment_key k = false /\ is_Some (raw_items c !! raw_key s k) /\ (s, k) ∈ opts).

(** The state after reading the items whose raw texts make up [txt], the last
    header being that of [cur]. *)
Record reading (c : ConfigParser) (cur : cstr) (secs : list cstr) (opts : list (cstr * cstr))
    (txt : cstr) : Prop := {
  rd_write : write c = txt;
  rd_cur : if decide (cur = []) then data c = [] else exists d kvs, data c = d ++ [(cur, kvs)];
  rd_unique : unique (data c);
  rd_secs : forall s, s ∈ keys (data c) -> s ∈ secs;
  rd_good : forall s kvs, (s, kvs) ∈ data c -> IniParser.good_section s
    /\ is_Some (raw_items c !! s) /\ forall k, k ∈ keys kvs -> stored_key c opts s k;
}.

Lemma reading_init : reading init [] [] [] [].
Proof. split; try done; [apply NoDup_nil_2|set_solver..]. Qed.

(** The text written for the sections [d] does not depend on the rest of
    [raw_items]. *)
Lemma write_sections_agree (d : container cstr section_map) raws raws' :
  (forall s kvs, (s, kvs) ∈ d -> write_section s kvs raws = write_section s kvs raws') ->
  concat ((fun s => write_section (fst s) (snd s) raws) <$> d)
  = concat ((fun s => write_section (fst s) (snd s) raws') <$> d).
Proof.
  induction d as [|[s kvs] d IH]; [done|]. intros H. simpl. f_equal.
  - apply H. by left.
  - apply IH. intros s' kvs' Hin. apply H. by right.
Qed.

Lemma reading_section c cur secs opts txt s raw :
  reading c cur secs opts txt -> IniParser.good_section s -> raw <> [] -> s ∉ secs ->
  reading (fst (add_section s raw c)) s (s :: secs) opts (txt ++ raw).
Proof.
  intros [Hw Hc Hu Hs Hg] [Hnil Hbr] Hraw Hfresh.
  assert (s ∉ keys (data c)) as Hnew by naive_solver.
  unfold add_section, has_section. rewrite is_end_spec, bool_decide_eq_true_2 by done. simpl.
  rewrite bool_decide_eq_false_2 by done. simpl. rewrite assign_new by done.
  assert (forall s' k, "]"%char ∉ s' -> s' <> s ->
    <[s := raw]> (raw_items c) !! s' = raw_items c !! s'
    /\ <[s := raw]> (raw_items c) !! raw_key s' k = raw_items c !! raw_key s' k) as Hraws.
  { intros s' k Hs' Hne. rewrite !lookup_insert_ne; [done| |done].
    intros Heq. symmetry in Heq. by apply raw_key_not_section in Heq. }
  split; simpl.
  - unfold write in *. simpl. rewrite fmap_app, concat_app, app_assoc. simpl.
    rewrite <-Hw, app_nil_r. f_equal; [f_equal|].
    + apply write_sections_agree. intros s' kvs Hin. destruct (Hg _ _ Hin) as ([_ Hb] & _ & _).
      assert (s' <> s) by (intros ->; apply Hnew; by apply (list_elem_of_fmap_2 fst _ (s, kvs))).
      apply write_section_agree; [by apply (Hraws s' [])|]. intros k _ _. by apply Hraws.
    + unfold write_section. by rewrite lookup_insert_eq, app_nil_r.
  - rewrite decide_False by done. eauto.
  - unfold unique. rewrite <-(assign_new s []) by done. by apply assign_unique.
  - unfold keys. rewrite fmap_app. set_solver.
  - intros s' kvs [Hin|[= -> ->]%list_elem_of_singleton]%elem_of_app.
    + destruct (Hg _ _ Hin) as ([Hn' Hb] & Hr & Hk).
      assert (s' <> s) by (intros ->; apply Hnew; by apply (list_elem_of_fmap_2 fst _ (s, kvs))).
      split_and!; [done|by rewrite (proj1 (Hraws s' [] Hb ltac:(done)))|].
      intros k Hin'. destruct (Hk k Hin') as [?|(? & ? & ?)]; [by left|right].
      split_and!; [done| |done]. simpl. by rewrite (proj2 (Hraws s' k Hb ltac:(done))).
    + split_and!; [done|rewrite lookup_insert_eq; by eexists|set_solver].
Qed.

Lemma reading_header c secs opts txt raw :
  reading c [] secs opts txt -> reading (append_header raw c) [] secs opts (txt ++ raw).
Proof.
  intros [Hw Hc Hu Hs Hg]. rewrite decide_True in Hc by done. split; try done; simpl.
  - unfold write in *. simpl. rewrite Hc in *. simpl in *. rewrite app_nil_r in *. by rewrite Hw.
Qed.

(** Adding an entry [(k, v)] at the end of the last section. *)
Lemma reading_append c c' cur secs opts opts' txt k v d kvs :
  reading c cur secs opts txt -> cur <> [] -> data c = d ++ [(cur, kvs)] -> k ∉ keys kvs ->
  data c' = d ++ [(cur, kvs ++ [(k, v)])] -> header c' = header c ->
  (forall s k', "]"%char ∉ s -> is_Some (raw_items c !! raw_key s k') ->
     (s = cur -> k' <> k) -> raw_items c' !! raw_key s k' = raw_items c !! raw_key s k') ->
  (forall s, "]"%char ∉ s -> raw_items c' !! s = raw_items c !! s) ->
  (item_number c <= item_number c')%Z -> (forall o, o ∈ opts -> o ∈ opts') ->
  stored_key c' opts' cur k ->
  reading c' cur secs opts' (txt ++ write_key_val cur (raw_items c') (k, v)).
Proof.
  intros [Hw Hc Hu Hs Hg] Hne Hd Hk Hd' Hh Hraw Hsec Hn Ho Hst.
  assert (keys (data c') = keys (data c)) as Hkeys.
  { unfold keys. by rewrite Hd, Hd', !fmap_app. }
  assert (forall s kvs' k', (s, kvs') ∈ data c -> k' ∈ keys kvs' -> stored_key c' opts' s k') as Hold.
  { intros s kvs' k' Hin Hk'. destruct (Hg _ _ Hin) as ([_ Hb] & _ & Hkk).
    destruct (Hkk k' Hk') as [(n & ? & ->)|(? & ? & ?)]; [left; exists n; split; [lia|done]|right].
    split_and!; [done| |by apply Ho]. rewrite Hraw; try done. intros -> ->.
    assert (kvs' = kvs) as ->; [|done].
    assert ((cur, kvs) ∈ data c) by (rewrite Hd; set_solver).
    pose proof (elem_lookup_Some _ _ _ Hu Hin). pose proof (elem_lookup_Some cur kvs _ Hu ltac:(done)).
    congruence. }
  assert (forall s kvs', (s, kvs') ∈ data c ->
    write_section s kvs' (raw_items c') = write_section s kvs' (raw_items c)) as Hsame.
  { intros s kvs' Hin. destruct (Hg _ _ Hin) as ([_ Hb] & _ & Hkk).
    apply write_section_agree; [by apply Hsec|]. intros k' Hk' Hcomment.
    destruct (Hkk k' Hk') as [(n & ? & ->)|(? & ? & ?)]; [done|]. apply Hraw; [done..|].
    intros -> ->. destruct (Hold _ _ _ Hin Hk'); [naive_solver|].
    assert (kvs' = kvs) as ->; [|done].
    assert ((cur, kvs) ∈ data c) by (rewrite Hd; set_solver).
    pose proof (elem_lookup_Some _ _ _ Hu Hin). pose proof (elem_lookup_Some cur kvs _ Hu ltac:(done)).
    congruence. }
  split.
  - rewrite <-Hw. unfold write. rewrite Hd, Hd', Hh, !fmap_app, !concat_app. simpl.
    rewrite !app_nil_r, write_section_snoc, <-!app_assoc. f_equal. f_equal; [|f_equal].
    + apply write_sections_agree. intros s kvs' Hin. apply Hsame. rewrite Hd. set_solver.
    + apply Hsame. rewrite Hd. set_solver.
  - rewrite decide_False by done. eauto.
  - unfold unique. by rewrite Hkeys.
  - by rewrite Hkeys.
  - intros s kvs'. rewrite Hd'. intros [Hin|[= -> ->]%list_elem_of_singleton]%elem_of_app.
    + assert ((s, kvs') ∈ data c) as Hin' by (rewrite Hd; set_solver).
      destruct (Hg _ _ Hin') as (Hgs & Hr & _). split_and!; [done|rewrite Hsec; [done|apply Hgs]|].
      intros k'. by apply Hold.
    + assert ((cur, kvs) ∈ data c) as Hin' by (rewrite Hd; set_solver).
      destruct (Hg _ _ Hin') as (Hgs & Hr & _). split_and!; [done|rewrite Hsec; [done|apply Hgs]|].
      unfold keys. rewrite fmap_app. intros k' [Hk'| ->%list_elem_of_singleton]%elem_of_app; [|done].
      by eapply Hold.
Qed.

Lemma reading_lookup c cur secs opts txt d kvs :
  reading c cur secs opts txt -> data c = d ++ [(cur, kvs)] ->
  lookup cur (data c) = Some kvs
  /\ (forall kvs', assign cur kvs' (data c) = d ++ [(cur, kvs')]).
Proof.
  intros [_ _ Hu _ _] Hd. split.
  - apply elem_lookup_Some; [done|]. rewrite Hd. set_solver.
  - intros kvs'. rewrite Hd in *. unfold unique, keys in Hu. rewrite fmap_app in Hu.
    apply NoDup_app in Hu as (_ & Hu & _).
    rewrite assign_app_new; [|intros Hin; specialize (Hu _ Hin); set_solver].
    by rewrite assign_cons, decide_True.
Qed.

Lemma reading_key_val c cur secs opts txt k v raw :
  reading c cur secs opts txt -> cur <> [] -> IniParser.is_comment_key k = false ->
  (cur, k) ∉ opts ->
  exists c', set_value_raw cur k v raw c = Ok c'
  /\ reading c' cur secs ((cur, k) :: opts) (txt ++ raw).
Proof.
  intros Hrd Hne Hk Ho. pose proof (rd_cur _ _ _ _ _ Hrd) as Hc.
  rewrite decide_False in Hc by done. destruct Hc as (d & kvs & Hd).
  destruct (reading_lookup _ _ _ _ _ _ _ Hrd Hd) as [Hl Ha].
  assert ((cur, kvs) ∈ data c) as Hin by (rewrite Hd; set_solver).
  destruct (rd_good _ _ _ _ _ Hrd _ _ Hin) as ([_ Hb] & Hraw & Hkeys).
  assert (k ∉ keys kvs) as Hnew.
  { intros Hkk. destruct (Hkeys _ Hkk) as [(n & _ & ->)|(_ & _ & ?)]; [|done].
    by rewrite comment_key_comment in Hk. }
  unfold set_value_raw. rewrite Hl.
  rewrite decide_False by (intros He; rewrite He, lookup_empty in Hraw; by destruct Hraw).
  eexists. split; [done|].
  replace raw with (write_key_val cur (<[raw_key cur k:=raw]> (raw_items c)) (k, v)) at 2
    by (unfold write_key_val; simpl; by rewrite Hk, lookup_insert_eq).
  eapply (reading_append c); try done; simpl.
  - by rewrite Ha, assign_new.
  - intros s k' Hs _ Hdiff. apply lookup_insert_ne. intros Heq.
    apply raw_key_inj in Heq as [-> ->]; [by apply Hdiff|done..].
  - intros s Hs. apply lookup_insert_ne. by apply raw_key_not_section.
  - set_solver.
  - right. split_and!; [done|simpl; rewrite lookup_insert_eq; by eexists|by left].
Qed.

Lemma reading_comment c cur secs opts txt raw :
  reading c cur secs opts txt -> cur <> [] ->
  exists c', add_comment_line cur raw c = Ok c' /\ reading c' cur secs opts (txt ++ raw).
Proof.
  intros Hrd Hne. pose proof (rd_cur _ _ _ _ _ Hrd) as Hc.
  rewrite decide_False in Hc by done. destruct Hc as (d & kvs & Hd).
  destruct (reading_lookup _ _ _ _ _ _ _ Hrd Hd) as [Hl Ha].
  assert ((cur, kvs) ∈ data c) as Hin by (rewrite Hd; set_solver).
  destruct (rd_good _ _ _ _ _ Hrd _ _ Hin) as (_ & _ & Hkeys).
  set (n := (item_number c + 1)%Z).
  assert (comment_key n ∉ keys kvs) as Hnew.
  { intros Hkk. destruct (Hkeys _ Hkk) as [(m & Hm & Heq)|(Hf & _)].
    - apply comment_key_inj in Heq. lia.
    - by rewrite comment_key_comment in Hf. }
  unfold add_comment_line. rewrite Hl. eexists. split; [done|].
  eapply (reading_append c _ _ _ _ _ _ (comment_key n) raw); try done; simpl.
  - by rewrite Ha, assign_new.
  - lia.
  - left. exists n. split; [simpl; lia|done].
Qed.

Lemma read_items_reading its c cur secs opts txt :
  reading c cur secs opts txt -> IniParser.sectioned cur its -> no_repeat secs opts its = true ->
  exists c', read_items its c = Ok c'
  /\ write c' = txt ++ concat (IniParser.it_raw <$> its).
Proof.
  revert c cur secs opts txt. induction its as [|[t s k v raw] its IH]; intros c cur secs opts txt Hrd Hs Hn.
  - exists c. split; [done|]. simpl. rewrite app_nil_r. apply Hrd.
  - assert (exists c1 cur' secs' opts', read_item (IniParser.Item t s k v raw) c = Ok c1
      /\ reading c1 cur' secs' opts' (txt ++ raw) /\ IniParser.sectioned cur' its
      /\ no_repeat secs' opts' its = true) as (c1 & cur' & secs' & opts' & Hc1 & Hrd' & Hs' & Hn').
    { unfold read_item. simpl in *. destruct t; simpl in *.
      - destruct Hs as (Hg & Hr & Hs). reflect_bools. eexists _, s, _, _. split; [done|].
        split_and!; [by eapply reading_section|done..].
      - destruct Hs as (-> & Hne & Hk & Hs). reflect_bools.
        edestruct (reading_key_val c cur secs opts txt k v raw) as (c1 & -> & Hrd1); try done. eauto 10.
      - destruct Hs as (-> & Hs). case_bool_decide as Hcur.
        + subst. eexists _, [], _, _. split; [done|]. split_and!; [by apply reading_header|done..].
        + destruct (reading_comment c cur secs opts txt raw) as (c1 & -> & Hrd1); try done. eauto 10.
      - destruct Hs as (-> & Hs). case_bool_decide as Hcur.
        + subst. eexists _, [], _, _. split; [done|]. split_and!; [by apply reading_header|done..].
        + destruct (reading_comment c cur secs opts txt raw) as (c1 & -> & Hrd1); try done. eauto 10.
      - done. }
    edestruct IH as (c' & Hc' & Hw); [exact Hrd'|done..|].
    exists c'. split; [cbn [read_items]; by rewrite Hc1|].
    rewrite Hw. simpl. by rewrite <-app_assoc.
Qed.

(** C1. Reading a file into a new parser and writing it to a stream gives the
    file back, byte for byte (without its byte order mark), when the file can
    be tokenized and repeats neither a section nor an option. *)
Theorem read_write_identity input its :
  IniParser.items input = Some (Ok its) -> no_repeat [] [] its = true ->
  exists c, read input init = Some (c, None) /\ write c = IniParser.strip_bom input.
Proof.
  intros Hits Hn.
  destruct (read_items_reading its init [] [] [] []) as (c & Hc & Hw);
    [apply reading_init|by apply (IniParser.items_sectioned input)|done|].
  exists c. split; [by eapply read_loop_items|].
  rewrite Hw. simpl. destruct (IniParser.items_spec input) as (r & Hr & Hraw). apply Hraw. congruence.
Qed.

Definition sample_file : cstr :=
  lit "# head" ++ nl :: lit "[main]" ++ nl :: lit "a = 1" ++ nl :: lit " 2" ++ nl :: nl
  :: lit "; note" ++ nl :: lit "b=x" ++ nl :: lit "[r] # c" ++ nl :: lit "a=".

Lemma read_write_identity_witness :
  exists c, read sample_file init = Some (c, None) /\ write c = IniParser.strip_bom sample_file.
Proof. eapply read_write_identity; vm_compute; reflexivity. Defined.

(** A repeated section is merged into the first one: the file is not kept. *)
Example read_write_repeated :
  (fun r => write (fst r)) <$> read (lit "[a]" ++ nl :: lit "x=1" ++ nl :: lit "[b]" ++ nl :: lit "[a] #" ++ nl :: lit "y=2") init
  = Some (lit "[a]" ++ nl :: lit "x=1" ++ nl :: lit "y=2[b]" ++ [nl]).
Proof. vm_compute. reflexivity. Qed.

(** ** Looking up what was stored *)

Lemma get_value_lookup2 s k c :
  get_value s k c
  = match m_lookup2 s k (data c) with
    | Some v => Ok v
    | None => Err match lookup s (data c) with Some _ => OptionNotFound k s | None => SectionNotFound s end
    end.
Proof.
  unfold get_value, m_lookup2. simpl. destruct (lookup s (data c)) as [kvs|]; simpl; [|done].
  by destruct (lookup k kvs).
Qed.

(** [set_value] stores the value in a section that exists, and only there:
    afterwards [get_value] returns it, every other option of every section has
    the value it had; in a section that does not exist it throws
    [SectionNotFound]. *)
Theorem set_value_get section key value c :
  match set_value section key value c with
  | Ok c' =>
      has_section section c = true /\ get_value section key c' = Ok value
      /\ forall s k, (s, k) <> (section, key) -> get_value s k c' = get_value s k c
  | Err e => e = SectionNotFound section /\ has_section section c = false
  end.
Proof.
  unfold set_value, set_value_raw, has_section. rewrite is_end_spec.
  destruct (lookup section (data c)) as [kvs|] eqn:Hl.
  - assert (section ∈ keys (data c)) as Hin.
    { destruct (decide (section ∈ keys (data c))) as [?|Hn]; [done|].
      apply lookup_None in Hn. congruence. }
    pose proof (fun s k => m_lookup2_assign2 (M1 := container cstr section_map) (M2 := section_map)
      section key s k value kvs (data c) Hl) as Hset.
    unfold m_assign2 in Hset. cbn [m_assign order_map_ops] in Hset.
    split_and!; [by rewrite bool_decide_eq_false_2 by naive_solver| |].
    + rewrite get_value_lookup2. cbn [data set_data set_raw]. by rewrite (Hset section key), decide_True.
    + intros s k Hne. rewrite !get_value_lookup2. cbn [data set_data set_raw].
      rewrite (Hset s k), decide_False by congruence.
      destruct (m_lookup2 s k (data c)); [done|]. rewrite lookup_assign.
      case_decide; [by subst; rewrite Hl|done].
  - split; [done|]. apply lookup_None in Hl. by rewrite bool_decide_eq_true_2.
Qed.

(** Sections and the options of each section are unique. *)
Definition wf (c : ConfigParser) : Prop :=
  unique (data c) /\ forall s kvs, lookup s (data c) = Some kvs -> unique kvs.

Lemma wf_assign c c' s kvs :
  wf c -> unique kvs -> data c' = assign s kvs (data c) -> wf c'.
Proof.
  intros [Hu Hk] Hkvs Hd. split; rewrite Hd; [by apply assign_unique|].
  intros s' kvs'. rewrite lookup_assign. case_decide; [by intros [= <-]|apply Hk].
Qed.

Lemma wf_erase c c' s : wf c -> data c' = fst (erase s (data c)) -> wf c'.
Proof.
  intros [Hu Hk] Hd. split; rewrite Hd; [by apply erase_unique|].
  intros s' kvs'. rewrite lookup_erase by done. case_decide; [done|apply Hk].
Qed.

(** Every operation keeps the sections, and the options of each section,
    unique. *)
Theorem operations_wf s k v raw c :
  wf c ->
  wf (fst (add_section s raw c))
  /\ (forall c', set_value_raw s k v raw c = Ok c' -> wf c')
  /\ (forall c', set_value s k v c = Ok c' -> wf c')
  /\ wf (fst (remove_section s c)) /\ wf (fst (remove_option s k c))
  /\ (forall c', add_comment_line s v c = Ok c' -> wf c').
Proof.
  intros Hwf. pose proof Hwf as [Hu Hk].
  assert (forall r c', set_value_raw s k v r c = Ok c' -> wf c') as Hset.
  { intros r c'. unfold set_value_raw. destruct (lookup s (data c)) as [kvs|] eqn:Hl; [|done].
    intros [= <-]. eapply (wf_assign c); [done| |done]. apply assign_unique. by eapply Hk. }
  split_and!; [|by apply Hset|unfold set_value; apply Hset|..].
  - unfold add_section. destruct (has_section s c); [done|]. simpl.
    apply (wf_assign c _ s []); [done|apply NoDup_nil_2|by case_bool_decide].
  - unfold remove_section. destruct (erase s (data c)) as [d n] eqn:He.
    destruct (0 <? n)%nat; eapply (wf_erase c); try done; simpl; by rewrite He.
  - unfold remove_option. destruct (lookup s (data c)) as [kvs|] eqn:Hl; [|done].
    destruct (erase k kvs) as [kvs' n] eqn:He.
    assert (unique kvs') by (replace kvs' with (fst (erase k kvs)) by (by rewrite He);
      apply erase_unique; by eapply Hk).
    destruct (0 <? n)%nat; by eapply (wf_assign c).
  - intros c'. unfold add_comment_line. destruct (lookup s (data c)) as [kvs|] eqn:Hl; [|done].
    intros [= <-]. eapply (wf_assign c); [done| |done]. apply assign_unique. by eapply Hk.
Qed.

Lemma operations_wf_witness : wf (fst (remove_option (lit "s") (lit "k") init)).
Proof.
  assert (wf init) as H.
  { split; [apply (bool_decide_unpack _); vm_compute; exact I|]. intros s kvs. discriminate 1. }
  exact (proj1 (proj2 (proj2 (proj2 (proj2 (operations_wf (lit "s") (lit "k") [] [] init H)))))).
Defined.

(** *** An option added to a file that was read *)

Lemma create_raw_item_nil v : create_raw_item v [] = [].
Proof. done. Qed.

(** [set_value] stores a new option, but once the parser holds any raw item
    it also records an empty raw text for the option ([raw_items.empty()] is
    tested where the new [raw_item] is meant), so [write] leaves it out: the
    text written is the one before the call. *)
Theorem set_value_new_option_not_written section key value c kvs :
  wf c -> Forall (fun s => "]"%char ∉ s) (keys (data c)) ->
  lookup section (data c) = Some kvs -> key ∉ keys kvs ->
  IniParser.is_comment_key key = false ->
  raw_items c <> ∅ -> raw_items c !! raw_key section key = None ->
  exists c', set_value section key value c = Ok c'
  /\ get_value section key c' = Ok value /\ write c' = write c.
Proof.
  intros [Hu Hwf] Hgood Hl Hk Hcom Hraws Hraw.
  pose proof (set_value_get section key value c) as Hsg.
  unfold set_value, set_value_raw in *. rewrite Hl in *. rewrite Hraw in *. simpl in *.
  rewrite decide_False in * by done. destruct Hsg as (_ & Hget & _).
  eexists. split_and!; [done|done|]. unfold write. simpl. f_equal.
  pose proof (lookup_Some_elem _ _ _ Hl) as (d1 & d2 & Hd)%list_elem_of_split.
  assert (forall s k, "]"%char ∉ s -> (s = section -> k <> key) ->
    <[raw_key section key := []]> (raw_items c) !! raw_key s k = raw_items c !! raw_key s k) as Hne.
  { intros s k Hs Hd'. apply lookup_insert_ne. rewrite Forall_forall in Hgood.
    intros [-> ->]%raw_key_inj; [by apply Hd'|apply Hgood|done].
    rewrite Hd. unfold keys. rewrite fmap_app. set_solver. }
  assert (forall s kvs', s ∈ keys (data c) -> (s = section -> key ∉ keys kvs') ->
    write_section s kvs' (<[raw_key section key := []]> (raw_items c))
    = write_section s kvs' (raw_items c)) as Hsame.
  { intros s kvs' Hs Hkk. rewrite Forall_forall in Hgood. specialize (Hgood _ Hs).
    apply write_section_agree; [by apply lookup_insert_ne, raw_key_not_section|].
    intros k' Hk' _. apply Hne; [done|]. intros -> ->. by apply Hkk. }
  rewrite Hd in *. unfold unique, keys in Hu. rewrite fmap_app in Hu. simpl in Hu.
  apply NoDup_app in Hu as (_ & Hd1 & [Hd2 _]%NoDup_cons).
  assert (section ∉ keys d1) as Hn1 by (intros Hin; specialize (Hd1 _ Hin); set_solver).
  rewrite assign_app_new, assign_cons, decide_True by done.
  rewrite !fmap_app, !concat_app. simpl. f_equal; [|f_equal].
  - apply write_sections_agree. intros s kvs' Hin. apply Hsame.
    + unfold keys. rewrite fmap_app. apply elem_of_app. left. by apply (list_elem_of_fmap_2 fst _ (s, kvs')).
    + intros ->. by destruct Hn1; apply (list_elem_of_fmap_2 fst _ (section, kvs')).
  - rewrite assign_new by done. rewrite write_section_snoc.
    unfold write_key_val. simpl. rewrite Hcom, lookup_insert_eq, app_nil_r.
    apply Hsame; [|done]. unfold keys. rewrite fmap_app. set_solver.
  - apply write_sections_agree. intros s kvs' Hin. apply Hsame.
    + unfold keys. rewrite fmap_app. apply elem_of_app. right. right. by apply (list_elem_of_fmap_2 fst _ (s, kvs')).
    + intros ->. by destruct Hd2; apply (list_elem_of_fmap_2 fst _ (section, kvs')).
Qed.

Definition read_sample : ConfigParser :=
  match read (lit "[main]" ++ nl :: lit "a=1" ++ [nl]) init with Some (c, _) => c | None => init end.

Lemma set_value_new_option_not_written_witness :
  exists c', set_value (lit "main") (lit "b") (lit "2") read_sample = Ok c'
  /\ get_value (lit "main") (lit "b") c' = Ok (lit "2") /\ write c' = write read_sample.
Proof.
  apply (set_value_new_option_not_written _ _ _ _ [(lit "a", lit "1")]);
    try (vm_compute; reflexivity).
  - split; [apply (bool_decide_unpack _); vm_compute; exact I|].
    intros s kvs. change (data read_sample) with [(lit "main", [(lit "a", lit "1")])].
    rewrite lookup_cons. case_decide; [|done]. intros [= <-].
    apply (bool_decide_unpack _). vm_compute. exact I.
  - apply (bool_decide_unpack _). vm_compute. exact I.
  - apply (bool_decide_unpack _). vm_compute. exact I.
  - apply (bool_decide_unpack _). vm_compute. exact I.
Defined.

(** Giving a present option a value of two lines writes the second one without
    the indentation that makes it a continuation line; the text cannot be read
    back. *)
Example set_value_two_lines :
  match set_value (lit "main") (lit "a") (lit "x" ++ nl :: lit "y") read_sample with
  | Ok c => write c = lit "[main]" ++ nl :: lit "a=x" ++ nl :: lit "y" ++ [nl]
      /\ IniParser.items (write c) = Some (Err (IniParser.MissingEqual 3))
  | Err _ => False
  end.
Proof. vm_compute. done. Qed.

(** A file whose last line has no line end runs into the next one read. *)
Example read_two_files :
  match read (lit "[a]" ++ nl :: lit "x=1") init with
  | Some (c, _) => (fun r => write (fst r)) <$> read (lit "[b]" ++ nl :: lit "y=2" ++ [nl]) c
  | None => None
  end = Some (lit "[a]" ++ nl :: lit "x=1[b]" ++ nl :: lit "y=2" ++ [nl]).
Proof. vm_compute. reflexivity. Qed.
End ConfigParser.
