(* ===== verification/Options.v ===== *)
(** * Options: [libdnf/conf/option*.cpp] and [include/libdnf/conf/option*.hpp]

    An option stores a value with the priority of the source it came from; a
    new value is stored only when its priority is at least the stored one.
    The class [OptionType] is what the concrete options promise to their users
    (child options, the bindings, the configuration objects); each option type
    below is an instance. *)

From Stdlib Require Import SpecFloat.
From S2P Require Import Prelude Numeric.
Import Numeric.

Module Options.

(** ** Priorities and exceptions *)

Inductive Priority :=
| EMPTY | DEFAULT | MAINCONFIG | AUTOMATICCONFIG | REPOCONFIG
| PLUGINDEFAULT | PLUGINCONFIG | DROPINCONFIG | COMMANDLINE | RUNTIME.

#[global] Instance Priority_eq_dec : EqDecision Priority.
Proof. solve_decision. Defined.

Definition prio (p : Priority) : Z :=
  match p with
  | EMPTY => 0 | DEFAULT => 10 | MAINCONFIG => 20 | AUTOMATICCONFIG => 30 | REPOCONFIG => 40
  | PLUGINDEFAULT => 50 | PLUGINCONFIG => 60 | DROPINCONFIG => 65 | COMMANDLINE => 70 | RUNTIME => 80
  end.

(** What setting an option can end with: the exceptions derived from
    [Option::Exception], the exceptions of the standard conversions, and a
    conversion to an integer the language leaves undefined. *)
Inductive opt_error :=
| InvalidValue (v : cstr)
| NotAllowedValue (v : cstr)
| ValueNotSet
| PathNotExists (v : cstr)
| NegativeValue (v : cstr)
| UnknownUnit (v : cstr)
| StdException (e : std_error)
| UndefinedCast.

#[global] Instance opt_error_eq_dec : EqDecision opt_error.
Proof. solve_decision. Defined.

(** [catch (const Option::Exception &)]. *)
Definition is_option_exception (e : opt_error) : bool :=
  match e with StdException _ | UndefinedCast => false | _ => true end.

(** [priority >= get_priority()]. *)
Definition ge_prio (p q : Priority) : bool := (prio q <=? prio p)%Z.

Lemma prio_inj p q : prio p = prio q -> p = q.
Proof. by destruct p, q. Qed.

(** ** What an option type provides *)

Class OptionType (O V : Type) := {
  get_priority : O -> Priority;
  get_value : O -> result opt_error V;
  get_default_value : O -> V;
  test : O -> V -> result opt_error unit;
  from_string : O -> cstr -> result opt_error V;
  to_string : O -> V -> cstr;
  get_value_string : O -> result opt_error cstr;
  set : Priority -> V -> O -> result opt_error O;
}.

(** [Option::empty]. *)
Definition opt_empty {O V} `{OptionType O V} (o : O) : bool := bool_decide (get_priority o = EMPTY).

Class OptionLaws (O V : Type) `{OptionType O V} := {
  (** What [set] makes of a value: the value stored, or the exception. *)
  accepts : O -> V -> result opt_error V;
  set_low p v o w :
    ge_prio p (get_priority o) = false -> accepts o v = Ok w -> set p v o = Ok o;
  set_rejected p v o e :
    ge_prio p (get_priority o) = true -> accepts o v = Err e -> set p v o = Err e;
  set_accepted p v o w :
    ge_prio p (get_priority o) = true -> accepts o v = Ok w ->
    exists o', set p v o = Ok o' /\ get_priority o' = p
      /\ (p <> EMPTY -> get_value o' = Ok w) /\ (forall v', accepts o' v' = accepts o v');
}.

(** The value that a series of settings leaves: a later one replaces an
    earlier one of the same or a lower priority. *)
Definition winner {V} (cur : Priority * V) (new : Priority * V) : Priority * V :=
  if ge_prio (fst new) (fst cur) then new else cur.

Section settings.
Context {O V : Type} `{OptionLaws O V}.

Fixpoint set_all (sets : list (Priority * V)) (o : O) : result opt_error O :=
  match sets with
  | [] => Ok o
  | (p, v) :: sets => let* o := set p v o in set_all sets o
  end.

(** The settings, with the values as they are stored. *)
Definition as_stored (f : V -> V) (sets : list (Priority * V)) : list (Priority * V) :=
  (fun s => (fst s, f (snd s))) <$> sets.

Lemma set_all_winner f sets o v0 :
  get_value o = Ok v0 ->
  Forall (fun s => fst s <> EMPTY /\ accepts o (snd s) = Ok (f (snd s))) sets ->
  exists o', set_all sets o = Ok o'
  /\ get_value o' = Ok (snd (foldl winner (get_priority o, v0) (as_stored f sets)))
  /\ get_priority o' = fst (foldl winner (get_priority o, v0) (as_stored f sets)).
Proof.
  revert o v0. induction sets as [|[p v] sets IH]; intros o v0 Hv Hs; [by exists o|].
  inversion Hs as [|? ? [Hp Ht] Hs']; subst; simpl in *. unfold winner at 2 4. simpl.
  destruct (ge_prio p (get_priority o)) eqn:Hge.
  - destruct (set_accepted p v o _ Hge Ht) as (o' & -> & Hp' & Hv' & Htest). simpl.
    rewrite <-Hp'. apply IH; [by apply Hv'|].
    eapply Forall_impl; [exact Hs'|]. intros [p1 v1]. by rewrite Htest.
  - erewrite set_low by done. simpl. by apply IH.
Qed.
End settings.

Lemma winner_prio {V} (cur : Priority * V) sets :
  prio (fst (foldl winner cur sets))
  = foldl (fun m s => Z.max m (prio (fst s))) (prio (fst cur)) sets.
Proof.
  revert cur. induction sets as [|[p v] sets IH]; intros [p0 v0]; [done|]. simpl.
  rewrite IH. f_equal. unfold winner, ge_prio. simpl.
  destruct (prio p0 <=? prio p)%Z eqn:Hle; simpl; lia.
Qed.

(** C8. Whatever the option type, after a series of accepted settings the
    option holds the value of the last one with the highest priority (as the
    type stores it), or keeps the value it had when that had a higher priority
    than all of them; its priority is the highest. *)
Theorem set_all_highest {O V} `{OptionLaws O V} f (sets : list (Priority * V)) (o : O) v0 :
  get_value o = Ok v0 ->
  Forall (fun s => fst s <> EMPTY /\ accepts o (snd s) = Ok (f (snd s))) sets ->
  exists o', set_all sets o = Ok o'
  /\ get_value o' = Ok (snd (foldl winner (get_priority o, v0) (as_stored f sets)))
  /\ prio (get_priority o')
     = foldl (fun m s => Z.max m (prio (fst s))) (prio (get_priority o)) sets.
Proof.
  intros Hv Hs. destruct (set_all_winner f sets o v0 Hv Hs) as (o' & Ho & Hg & Hp).
  exists o'. split_and!; [done..|]. rewrite Hp, winner_prio. unfold as_stored.
  by rewrite foldl_fmap.
Qed.

(** ** [OptionBool] *)

Record OptionBool := mkBool {
  b_priority : Priority;
  true_values : option (list cstr);
  false_values : option (list cstr);
  b_default : bool;
  b_value : bool;
}.

Definition default_true_values : list cstr := lit <$> ["1"; "yes"; "true"; "on"]%string.
Definition default_false_values : list cstr := lit <$> ["0"; "no"; "false"; "off"]%string.
Definition get_true_values (o : OptionBool) : list cstr := default default_true_values (true_values o).
Definition get_false_values (o : OptionBool) : list cstr := default default_false_values (false_values o).

(** [OptionBool(default_value)] and the constructor with conversion tables. *)
Definition new_bool (d : bool) : OptionBool := mkBool DEFAULT None None d d.
Definition new_bool_tables (d : bool) (ts fs : list cstr) : OptionBool :=
  mkBool DEFAULT (Some ts) (Some fs) d d.

(** The copy constructor, and the copy assignment, which neither copies the
    priority (the base class is not assigned) nor drops the tables when the
    source has none. *)
Definition bool_copy (src : OptionBool) : OptionBool :=
  mkBool (b_priority src) (true_values src) (false_values src) (b_default src) (b_value src).
Definition bool_assign (self src : OptionBool) : OptionBool :=
  mkBool (b_priority self)
    (match true_values src with Some t => Some t | None => true_values self end)
    (match false_values src with Some t => Some t | None => false_values self end)
    (b_default src) (b_value src).

Definition bool_from_string (o : OptionBool) (value : cstr) : result opt_error bool :=
  let tmp_value := lower value in
  if bool_decide (tmp_value ∈ get_false_values o) then Ok false
  else if bool_decide (tmp_value ∈ get_true_values o) then Ok true
  else Err (InvalidValue value).

Definition bool_to_string (value : bool) : cstr := if value then lit "1" else lit "0".

Definition bool_set (p : Priority) (value : bool) (o : OptionBool) : result opt_error OptionBool :=
  if ge_prio p (b_priority o)
  then Ok (mkBool p (true_values o) (false_values o) (b_default o) value) else Ok o.

Definition bool_set_string (p : Priority) (value : cstr) (o : OptionBool) : result opt_error OptionBool :=
  let* v := bool_from_string o value in bool_set p v o.

#[global] Instance bool_option : OptionType OptionBool bool := {|
  get_priority := b_priority;
  get_value o := Ok (b_value o);
  get_default_value := b_default;
  test _ _ := Ok tt;
  from_string := bool_from_string;
  to_string _ v := bool_to_string v;
  get_value_string o := Ok (bool_to_string (b_value o));
  set := bool_set;
|}.
#[global] Instance bool_option_laws : OptionLaws OptionBool bool.
Proof.
  refine {| accepts _ v := Ok v |}; simpl; unfold bool_set.
  - by intros p v o w ->.
  - done.
  - intros p v o w -> [= ->]. by eexists.
Qed.

(** The conversion of an [OptionBool] from a string ignores the case of the
    string, accepts exactly the strings of its two tables, gives precedence to
    the table of false values and otherwise throws with the string it was
    given. *)
Theorem bool_from_string_spec o s :
  bool_from_string o (lower s)
  = (match bool_from_string o s with Ok b => Ok b | Err _ => Err (InvalidValue (lower s)) end)
  /\ (bool_from_string o s = Ok false <-> lower s ∈ get_false_values o)
  /\ (bool_from_string o s = Ok true <-> lower s ∈ get_true_values o /\ lower s ∉ get_false_values o)
  /\ (bool_from_string o s = Err (InvalidValue s)
      <-> (lower s ∉ get_true_values o) /\ (lower s ∉ get_false_values o)).
Proof.
  unfold bool_from_string. rewrite lower_idem.
  case_bool_decide; [naive_solver|]. case_bool_decide; naive_solver.
Qed.

(** An option with the default tables reads back the string it prints. *)
Theorem bool_string_roundtrip o b :
  true_values o = None -> false_values o = None ->
  from_string o (to_string o b) = Ok b.
Proof.
  intros Ht Hf. simpl. unfold bool_from_string, get_false_values, get_true_values.
  rewrite Ht, Hf. by destruct b.
Qed.

Lemma bool_string_roundtrip_witness :
  from_string (new_bool true) (to_string (new_bool true) false) = Ok false.
Proof. by apply (bool_string_roundtrip (new_bool true) false). Defined.

(** Copy assignment does not make the target equal to the source: it keeps
    its own priority, and its own tables where the source uses the default
    ones. *)
Theorem bool_assign_keeps self src :
  b_value (bool_assign self src) = b_value src
  /\ get_priority (bool_assign self src) = get_priority self
  /\ (true_values src = None -> get_true_values (bool_assign self src) = get_true_values self).
Proof. split_and!; [done..|]. intros H. unfold get_true_values. simpl. by rewrite H. Qed.

(** ** [OptionNumber<T>] for an integer type [T], and [OptionSeconds] *)

Record OptionNumber := mkNumber {
  n_type : IntType;
  n_priority : Priority;
  from_string_user : option (cstr -> result opt_error Z);
  n_default : Z;
  n_min : Z;
  n_max : Z;
  n_value : Z;
}.

Definition number_test (o : OptionNumber) (value : Z) : result opt_error unit :=
  if (value <? n_min o)%Z || (n_max o <? value)%Z
  then Err (NotAllowedValue (dec_Z value)) else Ok tt.

(** The constructor all others delegate to; the value is tested. *)
Definition new_number (t : IntType) (d mn mx : Z) (user : option (cstr -> result opt_error Z))
  : result opt_error OptionNumber :=
  let o := mkNumber t DEFAULT user d mn mx d in
  let* _ := number_test o d in Ok o.
Definition new_number_min (t : IntType) (d mn : Z) user := new_number t d mn (t_max t) user.
Definition new_number_any (t : IntType) (d : Z) user := new_number t d (t_min t) (t_max t) user.

Definition number_from_string (o : OptionNumber) (value : cstr) : result opt_error Z :=
  match from_string_user o with
  | Some f => f value
  | None =>
      match extract_int (n_type o) value with
      | Some val => Ok val
      | None => Err (InvalidValue value)
      end
  end.

Definition number_set (p : Priority) (value : Z) (o : OptionNumber) : result opt_error OptionNumber :=
  if ge_prio p (n_priority o) then
    let* _ := number_test o value in
    Ok (mkNumber (n_type o) p (from_string_user o) (n_default o) (n_min o) (n_max o) value)
  else Ok o.

Definition number_set_string (p : Priority) (value : cstr) (o : OptionNumber)
  : result opt_error OptionNumber :=
  let* v := number_from_string o value in number_set p v o.

#[global] Instance number_option : OptionType OptionNumber Z := {|
  get_priority := n_priority;
  get_value o := Ok (n_value o);
  get_default_value := n_default;
  test := number_test;
  from_string := number_from_string;
  to_string _ v := dec_Z v;
  get_value_string o := Ok (dec_Z (n_value o));
  set := number_set;
|}.

#[global] Instance number_option_laws : OptionLaws OptionNumber Z.
Proof.
  refine {| accepts o v := let* _ := number_test o v in Ok v |}; simpl; unfold number_set.
  - by intros p v o w ->.
  - intros p v o e ->. destruct (number_test o v) as [[]|]; simpl; [done|congruence].
  - intros p v o w ->. destruct (number_test o v) as [[]|]; simpl; [|done].
    intros [= ->]. by eexists.
Defined.

(** The value is between the limits: what construction establishes and every
    setting keeps. *)
Definition number_ok (o : OptionNumber) : Prop := (n_min o <= n_value o <= n_max o)%Z.

Lemma number_test_ok o v : number_test o v = Ok tt <-> (n_min o <= v <= n_max o)%Z.
Proof.
  unfold number_test.
  destruct (Z.ltb_spec v (n_min o)), (Z.ltb_spec (n_max o) v); simpl; split; try done; lia.
Qed.

Lemma number_test_cases o v :
  (number_test o v = Ok tt /\ (n_min o <= v <= n_max o)%Z)
  \/ (number_test o v = Err (NotAllowedValue (dec_Z v)) /\ ~ (n_min o <= v <= n_max o)%Z).
Proof.
  pose proof (number_test_ok o v) as Hok. unfold number_test in *.
  destruct (_ || _); [right|left]; split; naive_solver.
Qed.

(** Construction and every setting of an integer keep the value between the
    limits, which stay; what is refused is just what lies outside. *)
Lemma new_number_bounds t d mn mx user :
  match new_number t d mn mx user with
  | Ok o => number_ok o /\ n_value o = d
  | Err e => e = NotAllowedValue (dec_Z d) /\ ~ (mn <= d <= mx)%Z
  end.
Proof.
  unfold new_number. set (o := mkNumber t DEFAULT user d mn mx d).
  destruct (number_test_cases o d) as [[-> H]|[-> H]]; simpl; [by split|by split].
Qed.
Lemma number_set_bounds p v o : ge_prio p (n_priority o) = true ->
  match number_set p v o with
  | Ok o' => number_ok o' /\ n_value o' = v /\ n_min o' = n_min o /\ n_max o' = n_max o
  | Err e => e = NotAllowedValue (dec_Z v) /\ ~ (n_min o <= v <= n_max o)%Z
  end.
Proof.
  unfold number_set. intros ->. destruct (number_test_cases o v) as [[-> H]|[-> H]]; simpl; [by split_and!|done].
Qed.
Lemma number_set_weaker p v o : ge_prio p (n_priority o) = false -> number_set p v o = Ok o.
Proof. unfold number_set. by intros ->. Qed.

(** Every number of the option's type that is printed is read back,
    whatever text without a digit at its start follows it; a setting from the
    string of an allowed number stores that number. *)
Theorem number_string_roundtrip o v rest :
  from_string_user o = None -> (t_min (n_type o) <= v <= t_max (n_type o))%Z ->
  span is_digit rest = ([], rest) ->
  from_string o (to_string o v ++ rest) = Ok v
  /\ ((n_min o <= v <= n_max o)%Z -> ge_prio RUNTIME (n_priority o) = true ->
      exists o', number_set_string RUNTIME (to_string o v) o = Ok o' /\ n_value o' = v).
Proof.
  intros Hu Hv Hr. assert (Hp : forall r, span is_digit r = ([], r) ->
    number_from_string o (dec_Z v ++ r) = Ok v).
  { intros r Hr'. unfold number_from_string. by rewrite Hu, extract_int_dec. }
  split; [by apply Hp|]. intros Hb Hge. simpl. unfold number_set_string, number_set.
  rewrite <-(app_nil_r (dec_Z v)), (Hp []) by done. simpl. rewrite Hge.
  apply number_test_ok in Hb as ->. simpl. by eexists.
Qed.

Lemma number_string_roundtrip_witness :
  from_string (mkNumber int32 DEFAULT None 0 (-100) 100 0) (lit "-42 apples") = Ok (-42)%Z.
Proof.
  by apply (number_string_roundtrip (mkNumber int32 DEFAULT None 0 (-100) 100 0) (-42) (lit " apples")).
Defined.

(** The [std::stod] calls of the sources: an exception passes through. *)
Definition lift_std {A} (r : result std_error A) : result opt_error A :=
  match r with Ok a => Ok a | Err e => Err (StdException e) end.
Definition cast_int (t : IntType) (x : spec_float) : result opt_error Z :=
  match to_int t x with Some z => Ok z | None => Err UndefinedCast end.
(** [res < 0]. *)
Definition is_negative (x : spec_float) : bool := flt x (S754_zero false).

(** [OptionSeconds::from_string]. An [OptionSeconds] is an [OptionNumber<int32_t>]
    whose [set] from a string uses this conversion. *)
Definition seconds_from_string (value : cstr) : result opt_error Z :=
  if bool_decide (value = []) then Err (InvalidValue value)
  else if bool_decide (value = lit "-1") || bool_decide (value = lit "never") then Ok (-1)%Z
  else
    let* (res, idx) := lift_std (stod value) in
    if is_negative res then Err (NegativeValue value) else
    let* res :=
      if idx <? length value then
        if idx <? length value - 1 then Err (InvalidValue value) else
        match last value with
        | Some "s"%char | Some "S"%char => Ok res
        | Some "m"%char | Some "M"%char => Ok (fmul double res (of_Z double 60))
        | Some "h"%char | Some "H"%char => Ok (fmul double res (of_Z double (60 * 60)))
        | Some "d"%char | Some "D"%char => Ok (fmul double res (of_Z double (60 * 60 * 24)))
        | Some c => Err (UnknownUnit [c])
        | None => Err (UnknownUnit [])
        end
      else Ok res in
    cast_int int32 res.

Definition new_seconds (d : Z) : result opt_error OptionNumber :=
  new_number_any int32 d (Some seconds_from_string).

(** The conversions the documentation of [OptionSeconds::set] lists: the
    valid inputs give these numbers of seconds, the invalid ones throw; with a
    unit the conversion also accepts upper case, hexadecimal digits are taken
    as part of the number, and a number of days beyond the 32-bit range is not
    rejected but converted with an undefined result. *)
Theorem seconds_documented_inputs :
  (seconds_from_string <$> (lit <$> ["100"; "1.5m"; "90s"; "1.2d"; "1d"; "0xF"; "0.1"; "-1"; "never"]%string))
  = (Ok <$> [100; 90; 90; 103680; 86400; 15; 0; -1; -1])%Z
  /\ (seconds_from_string <$> (lit <$> ["-10"; "-0.1"; "45.6Z"; "1d6h"; "1day"; "1y"]%string))
  = [Err (NegativeValue (lit "-10")); Err (NegativeValue (lit "-0.1")); Err (UnknownUnit (lit "Z"));
     Err (InvalidValue (lit "1d6h")); Err (InvalidValue (lit "1day")); Err (UnknownUnit (lit "y"))]
  /\ seconds_from_string (lit "2H") = Ok 7200%Z
  /\ seconds_from_string (lit "0x1d") = Ok 29%Z
  /\ seconds_from_string (lit "abc") = Err (StdException std_invalid_argument)
  /\ seconds_from_string (lit "30000d") = Err UndefinedCast.
Proof. vm_compute. split_and!; reflexivity. Qed.

(** ** [OptionEnum<std::string>] *)

Record OptionEnum := mkEnum {
  e_priority : Priority;
  e_user : option (cstr -> cstr);
  enum_vals : list cstr;
  e_default : cstr;
  e_value : cstr;
}.

Definition enum_test (o : OptionEnum) (value : cstr) : result opt_error unit :=
  if bool_decide (value ∈ enum_vals o) then Ok tt else Err (NotAllowedValue value).

Definition new_enum (d : cstr) (vals : list cstr) (user : option (cstr -> cstr))
  : result opt_error OptionEnum :=
  let o := mkEnum DEFAULT user vals d d in
  let* _ := enum_test o d in Ok o.

(** The conversion functions of the sources do not throw. *)
Definition enum_from_string (o : OptionEnum) (value : cstr) : result opt_error cstr :=
  match e_user o with Some f => Ok (f value) | None => Ok value end.

Definition enum_set (p : Priority) (value : cstr) (o : OptionEnum) : result opt_error OptionEnum :=
  let* val := enum_from_string o value in
  if ge_prio p (e_priority o) then
    let* _ := enum_test o val in
    Ok (mkEnum p (e_user o) (enum_vals o) (e_default o) val)
  else Ok o.

#[global] Instance enum_option : OptionType OptionEnum cstr := {|
  get_priority := e_priority;
  get_value o := Ok (e_value o);
  get_default_value := e_default;
  test := enum_test;
  from_string := enum_from_string;
  to_string _ v := v;
  get_value_string o := Ok (e_value o);
  set := enum_set;
|}.

Lemma enum_from_string_total o v : exists w, enum_from_string o v = Ok w.
Proof. unfold enum_from_string. destruct (e_user o); eauto. Qed.

#[global] Instance enum_option_laws : OptionLaws OptionEnum cstr.
Proof.
  refine {| accepts o v := let* val := enum_from_string o v in
                           let* _ := enum_test o val in Ok val |}; simpl; unfold enum_set;
    intros p v o x; destruct (enum_from_string_total o v) as [w0 ->]; simpl.
  - by intros ->.
  - intros ->. destruct (enum_test o w0) as [[]|]; simpl; [done|congruence].
  - intros ->. destruct (enum_test o w0) as [[]|]; simpl; [|done].
    intros [= ->]. by eexists.
Defined.

(** An enumeration option holds one of its values: construction checks the
    default, and a setting stores the converted string only when it is one of
    them. *)
Theorem enum_value_allowed d vals user :
  (forall o, new_enum d vals user = Ok o -> e_value o ∈ enum_vals o /\ enum_vals o = vals)
  /\ forall o p s o', e_value o ∈ enum_vals o -> set p s o = Ok o' ->
      e_value o' ∈ enum_vals o' /\ enum_vals o' = enum_vals o
      /\ (ge_prio p (e_priority o) = true -> from_string o s = Ok (e_value o')).
Proof.
  assert (Ht : forall o v u, enum_test o v = Ok u -> v ∈ enum_vals o).
  { intros o v u. unfold enum_test. by case_bool_decide. }
  split.
  - unfold new_enum. intros o Ho. apply result_bind_Ok in Ho as (u & Hu & [= <-]).
    by apply Ht in Hu.
  - intros o p s o' Hv. simpl. unfold enum_set.
    destruct (enum_from_string_total o s) as [w Hw]. rewrite Hw. simpl.
    destruct (ge_prio p (e_priority o)); [|intros [= <-]; by split_and!].
    intros Ho. apply result_bind_Ok in Ho as (u & Hu & [= <-]). by apply Ht in Hu.
Qed.

Lemma enum_value_allowed_witness :
  let o := mkEnum DEFAULT None [lit "best"; lit "all"] (lit "best") (lit "best") in
  lit "all" ∈ enum_vals o.
Proof.
  simpl. refine (proj1 (proj2 (enum_value_allowed [] [] None)
    (mkEnum DEFAULT None [lit "best"; lit "all"] (lit "best") (lit "best")) RUNTIME (lit "all")
    (mkEnum RUNTIME None [lit "best"; lit "all"] (lit "best") (lit "all")) _ _)).
  - apply (bool_decide_unpack _); vm_compute; exact I.
  - reflexivity.
Defined.

(** ** [OptionStringList] *)

Definition list_sep : cstr := [" "%char; ","%char; nl].
Definition not_space (c : ascii) : bool := negb (bool_decide (c = " "%char)).

(** The end of an iteration of the loop of [from_string]: where the next item
    starts when the last one was ended by the separator at [end_]. *)
Definition next_start (value : cstr) (end_ : nat) : option nat :=
  let start := find_from not_space value (S end_) in
  let '(start, end_) :=
    match start with
    | Some st =>
        if bool_decide (value !! st = Some ","%char) && bool_decide (value !! end_ = Some " "%char)
        then (find_from not_space value (S st), st)
        else (Some st, end_)
    | None => (None, end_)
    end in
  match start with
  | Some st =>
      if bool_decide (value !! st = Some nl)
         && (bool_decide (value !! end_ = Some " "%char) || bool_decide (value !! end_ = Some ","%char))
      then find_from not_space value (S st)
      else Some st
  | None => None
  end.

Fixpoint list_loop (fuel : nat) (value : cstr) (start : option nat) (tmp : list cstr)
  : option (list cstr) :=
  match fuel with
  | O => None
  | S fuel =>
      match start with
      | None => Some tmp
      | Some st =>
          if st <? length value then
            match find_from (one_of list_sep) value st with
            | None => Some (tmp ++ [drop st value])
            | Some en =>
                list_loop fuel value (next_start value en)
                  (tmp ++ [substr value st (Z.of_nat (en - st))])
            end
          else Some tmp
      end
  end.

Definition list_from_string_opt (value : cstr) : option (list cstr) :=
  list_loop (S (S (length value))) value (find_idx not_space value) [].
Definition list_from_string (value : cstr) : list cstr := default [] (list_from_string_opt value).

(** [to_string]: the values with [", "] between them. *)
Definition list_to_string (value : list cstr) : cstr :=
  match value with
  | [] => []
  | v :: vs => v ++ concat ((fun v => lit ", " ++ v) <$> vs)
  end.

(** *** The loop ends *)

Lemma find_from_ge {A} (p : A -> bool) s pos i :
  find_from p s pos = Some i -> pos <= i < length s.
Proof.
  unfold find_from. intros (j & Hj & ->)%fmap_Some. apply find_idx_lt in Hj.
  rewrite length_drop in Hj. lia.
Qed.

Lemma next_start_gt value en st : next_start value en = Some st -> en < st < length value.
Proof.
  unfold next_start. destruct (find_from not_space value (S en)) as [s0|] eqn:Hs; [|done].
  apply find_from_ge in Hs.
  destruct (_ && _); [destruct (find_from not_space value (S s0)) as [s1|] eqn:Hs1; [|done];
    apply find_from_ge in Hs1|]; case_match; intros Hr;
    first [apply find_from_ge in Hr | injection Hr as <-]; lia.
Qed.

Lemma list_loop_total fuel value start tmp :
  (match start with Some st => length value - st < fuel | None => 0 < fuel end) ->
  is_Some (list_loop fuel value start tmp).
Proof.
  revert start tmp. induction fuel as [|fuel IH]; intros start tmp Hf; [by destruct start; lia|].
  simpl. destruct start as [st|]; [|by eexists]. case_match eqn:Hlt; [|by eexists].
  reflect_bools. destruct (find_from _ value st) as [en|] eqn:Hen; [|by eexists].
  apply find_from_ge in Hen. apply IH.
  destruct (next_start value en) as [st'|] eqn:Hn; [|lia]. apply next_start_gt in Hn. lia.
Qed.

(** Splitting a list value always ends. *)
Theorem list_from_string_total value : list_from_string_opt value = Some (list_from_string value).
Proof.
  unfold list_from_string. destruct (list_loop_total (S (S (length value))) value
    (find_idx not_space value) []) as [l Hl].
  - destruct (find_idx _ _); lia.
  - unfold list_from_string_opt. by rewrite Hl.
Qed.

(** *** Round trip *)

Definition clean_item (v : cstr) : Prop := Forall (fun c => c ∉ list_sep) v.
#[global] Instance clean_item_dec v : Decision (clean_item v).
Proof. unfold clean_item. apply _. Defined.

Lemma list_to_string_head v vs :
  Forall clean_item (v :: vs) -> last (v :: vs) <> Some [] ->
  exists c r, list_to_string (v :: vs) = c :: r /\ c <> " "%char /\ c <> nl.
Proof.
  intros Hc Hl. destruct v as [|c v].
  - destruct vs as [|w vs]; [done|]. by eexists _, _.
  - exists c. eexists. split; [done|]. inversion Hc as [|? ? Hcc _]; subst.
    inversion Hcc as [|? ? Hn _]; subst. unfold list_sep in Hn. set_solver.
Qed.

Lemma list_to_string_cons v w vs :
  list_to_string (v :: w :: vs) = v ++ ","%char :: " "%char :: list_to_string (w :: vs).
Proof. by simpl. Qed.

Lemma find_from_at {A} (p : A -> bool) pre s c t :
  Forall (fun x => p x = false) s -> p c = true ->
  find_from p (pre ++ s ++ c :: t) (length pre) = Some (length pre + length s).
Proof.
  intros Hs Hc. unfold find_from. rewrite drop_app_length, find_idx_app_r by done.
  simpl. rewrite Hc. simpl. by rewrite Nat.add_0_r.
Qed.

Lemma next_start_comma pre c r :
  c <> " "%char -> c <> nl ->
  next_start (pre ++ ","%char :: " "%char :: c :: r) (length pre) = Some (length pre + 2).
Proof.
  intros Hsp Hnl. unfold next_start.
  assert (Hlen : length pre + 2 = length (pre ++ [","%char; " "%char])) by (by rewrite length_app).
  assert (Heq : pre ++ ","%char :: " "%char :: c :: r = (pre ++ [","%char; " "%char]) ++ c :: r)
    by (by rewrite <-app_assoc).
  assert (Hf : find_from not_space (pre ++ ","%char :: " "%char :: c :: r) (S (length pre))
    = Some (length pre + 2)).
  { replace (pre ++ ","%char :: " "%char :: c :: r)
      with ((pre ++ [","%char]) ++ [" "%char] ++ c :: r) by (by rewrite <-app_assoc).
    replace (S (length pre)) with (length (pre ++ [","%char])) by (rewrite length_app; simpl; lia).
    rewrite find_from_at; [|by repeat constructor|].
    - f_equal. rewrite length_app. simpl. lia.
    - unfold not_space. by rewrite bool_decide_eq_false_2. }
  rewrite Hf. rewrite (list_lookup_middle pre _ ","%char (length pre)) by done.
  rewrite (bool_decide_eq_false_2 (Some ","%char = Some " "%char)) by done.
  rewrite andb_false_r, Heq, Hlen, list_lookup_middle by done.
  rewrite bool_decide_eq_false_2 by congruence. done.
Qed.

Lemma list_loop_items vs v pre tmp fuel :
  Forall clean_item (v :: vs) -> last (v :: vs) <> Some [] -> length vs < fuel ->
  list_loop fuel (pre ++ list_to_string (v :: vs)) (Some (length pre)) tmp
  = Some (tmp ++ v :: vs).
Proof.
  revert v pre tmp fuel. induction vs as [|w vs IH]; intros v pre tmp fuel Hc Hl Hf;
    (destruct fuel as [|fuel]; [simpl in Hf; lia|]); cbn [list_loop].
  - simpl. rewrite app_nil_r. assert (v <> []) by (intros ->; by apply Hl).
    rewrite (proj2 (Nat.ltb_lt _ _)) by (rewrite length_app; destruct v; [done|simpl; lia]).
    unfold find_from. rewrite drop_app_length.
    inversion Hc as [|? ? Hv _]; subst. by rewrite (proj2 (find_idx_None _ _)) by (by apply one_of_false).
  - rewrite list_to_string_cons. inversion Hc as [|? ? Hv Hc']; subst.
    rewrite (proj2 (Nat.ltb_lt _ _)) by (rewrite !length_app; simpl; lia).
    rewrite find_from_at; [|by apply one_of_false|done].
    replace (length pre + length v - length pre) with (length v) by lia.
    rewrite substr_small by (rewrite !length_app; lia).
    rewrite drop_app_length, take_app_length.
    destruct (list_to_string_head w vs Hc' Hl) as (c & r & Hw & Hsp & Hnl).
    rewrite app_assoc, <-length_app, Hw, next_start_comma by done. rewrite <-Hw.
    replace (length (pre ++ v) + 2) with (length ((pre ++ v) ++ [","%char; " "%char]))
      by (rewrite (length_app (pre ++ v)); simpl; lia).
    replace ((pre ++ v) ++ ","%char :: " "%char :: list_to_string (w :: vs))
      with (((pre ++ v) ++ [","%char; " "%char]) ++ list_to_string (w :: vs))
      by (by rewrite <-(app_assoc (pre ++ v))).
    rewrite IH by (done || (simpl in Hf; lia)). by rewrite <-app_assoc.
Qed.

Lemma list_from_to_opt vs :
  Forall clean_item vs -> last vs <> Some [] -> list_from_string_opt (list_to_string vs) = Some vs.
Proof.
  intros Hc Hl. destruct vs as [|v us]; [done|]. unfold list_from_string_opt.
  destruct (list_to_string_head v us Hc Hl) as (c & r & Heq & Hsp & _).
  assert (Hi : find_idx not_space (list_to_string (v :: us)) = Some 0).
  { rewrite Heq. apply find_idx_hit. unfold not_space. by rewrite bool_decide_eq_false_2. }
  rewrite Hi. apply (list_loop_items us v [] []); [done..|].
  enough (length us <= length (list_to_string (v :: us))) by lia.
  simpl. rewrite length_app. clear. induction us as [|u us IH]; simpl; [lia|].
  rewrite length_app. unfold fmap in IH. simpl. lia.
Qed.

Lemma list_from_to vs :
  Forall clean_item vs -> last vs <> Some [] -> list_from_string (list_to_string vs) = vs.
Proof. intros Hc Hl. unfold list_from_string. by rewrite list_from_to_opt. Qed.

(** C11. Printing a list of values and reading it back gives the list, when the
    values contain no space, comma or line end and the last one is not empty;
    empty values inside the list survive, an empty last value does not. *)
Theorem list_string_roundtrip vs :
  Forall clean_item vs -> last vs <> Some [] ->
  list_from_string (list_to_string vs) = vs
  /\ list_from_string (list_to_string [lit "x"; []]) = [lit "x"].
Proof. intros Hc Hl. split; [by apply list_from_to|done]. Qed.

Lemma list_string_roundtrip_witness :
  list_from_string (list_to_string [lit "a"; []; lit "b"]) = [lit "a"; []; lit "b"].
Proof.
  refine (proj1 (list_string_roundtrip [lit "a"; []; lit "b"] _ _)); [|done].
  apply (bool_decide_unpack _); vm_compute; exact I.
Defined.

(** ** What the options ask of their environment *)

(** The regular expression engine ([std::regex_match] of a value against a
    pattern, with or without [icase]; no option of the sources sets a pattern)
    and [stat]. *)
Class Environment := {
  regex_match : cstr -> bool -> cstr -> bool;
  file_exists : cstr -> bool;
}.

Section strings.
Context `{Environment}.

Record OptionStringList := mkStringList {
  l_priority : Priority;
  l_regex : cstr;
  l_icase : bool;
  l_default : list cstr;
  l_value : list cstr;
}.

Definition matches (regex : cstr) (icase : bool) (value : cstr) : bool :=
  bool_decide (regex = []) || regex_match regex icase value.

Fixpoint list_test_loop (regex : cstr) (icase : bool) (value : list cstr) : result opt_error unit :=
  match value with
  | [] => Ok tt
  | val :: value =>
      if regex_match regex icase val then list_test_loop regex icase value
      else Err (NotAllowedValue val)
  end.
Definition list_test (o : OptionStringList) (value : list cstr) : result opt_error unit :=
  if bool_decide (l_regex o = []) then Ok tt else list_test_loop (l_regex o) (l_icase o) value.

(** The constructor from a list; the one from a string converts it first. *)
Definition new_string_list (d : list cstr) : OptionStringList := mkStringList DEFAULT [] false d d.
Definition new_string_list_regex (d : list cstr) (regex : cstr) (icase : bool)
  : result opt_error OptionStringList :=
  let o := mkStringList DEFAULT regex icase d d in
  let* _ := list_test o d in Ok o.
Definition new_string_list_string (d : cstr) : OptionStringList :=
  let v := list_from_string d in mkStringList DEFAULT [] false v v.

Definition list_set (p : Priority) (value : list cstr) (o : OptionStringList)
  : result opt_error OptionStringList :=
  if ge_prio p (l_priority o) then
    let* _ := list_test o value in
    Ok (mkStringList p (l_regex o) (l_icase o) (l_default o) value)
  else Ok o.
Definition list_set_string (p : Priority) (value : cstr) (o : OptionStringList)
  : result opt_error OptionStringList :=
  list_set p (list_from_string value) o.

#[global] Instance list_option : OptionType OptionStringList (list cstr) := {|
  get_priority := l_priority;
  get_value o := Ok (l_value o);
  get_default_value := l_default;
  test := list_test;
  from_string _ s := Ok (list_from_string s);
  to_string _ v := list_to_string v;
  get_value_string o := Ok (list_to_string (l_value o));
  set := list_set;
|}.

#[global] Instance list_option_laws : OptionLaws OptionStringList (list cstr).
Proof.
  refine {| accepts o v := let* _ := list_test o v in Ok v |}; simpl; unfold list_set.
  - by intros p v o w ->.
  - intros p v o e ->. destruct (list_test o v) as [[]|]; simpl; [done|congruence].
  - intros p v o w ->. destruct (list_test o v) as [[]|]; simpl; [|done].
    intros [= ->]. by eexists.
Defined.

(** ** [OptionString] *)

Record OptionString := mkString {
  s_priority : Priority;
  s_regex : cstr;
  s_icase : bool;
  s_default : cstr;
  s_value : cstr;
}.

Definition string_test (o : OptionString) (value : cstr) : result opt_error unit :=
  if matches (s_regex o) (s_icase o) value then Ok tt else Err (NotAllowedValue value).

(** The constructors from a [std::string] and from a [const char *], which may
    be null: the option is then empty. *)
Definition new_string (d : cstr) : OptionString := mkString DEFAULT [] false d d.
Definition new_string_ptr (d : option cstr) : OptionString :=
  match d with Some d => new_string d | None => mkString EMPTY [] false [] [] end.
Definition new_string_regex (d : cstr) (regex : cstr) (icase : bool) : result opt_error OptionString :=
  let o := mkString DEFAULT regex icase d d in
  let* _ := string_test o d in Ok o.
Definition new_string_ptr_regex (d : option cstr) (regex : cstr) (icase : bool)
  : result opt_error OptionString :=
  match d with
  | Some d => new_string_regex d regex icase
  | None => Ok (mkString EMPTY regex icase [] [])
  end.

Definition string_set (p : Priority) (value : cstr) (o : OptionString) : result opt_error OptionString :=
  if ge_prio p (s_priority o) then
    let* _ := string_test o value in
    Ok (mkString p (s_regex o) (s_icase o) (s_default o) value)
  else Ok o.

Definition string_get_value (o : OptionString) : result opt_error cstr :=
  if bool_decide (s_priority o = EMPTY) then Err ValueNotSet else Ok (s_value o).

#[global] Instance string_option : OptionType OptionString cstr := {|
  get_priority := s_priority;
  get_value := string_get_value;
  get_default_value := s_default;
  test := string_test;
  from_string _ s := Ok s;
  to_string _ v := v;
  get_value_string := string_get_value;
  set := string_set;
|}.

#[global] Instance string_option_laws : OptionLaws OptionString cstr.
Proof.
  refine {| accepts o v := let* _ := string_test o v in Ok v |}; simpl;
    unfold string_set, string_get_value.
  - by intros p v o w ->.
  - intros p v o e ->. destruct (string_test o v) as [[]|]; simpl; [done|congruence].
  - intros p v o w ->. destruct (string_test o v) as [[]|]; simpl; [|done].
    intros [= ->]. eexists. split_and!; [done..| |done]. intros Hp. simpl.
    by rewrite bool_decide_eq_false_2.
Defined.

(** ** [OptionPath]: an [OptionString] with its own [test] and [set] *)

Record OptionPath := mkPath {
  p_string : OptionString;
  p_exists : bool;
  p_abs_path : bool;
}.

Definition remove_file_prot (value : cstr) : cstr :=
  if starts_with value (lit "file://") then drop 7 value else value.

(** [value[0]] of an empty string is the terminating zero. *)
Definition path_test (o : OptionPath) (value : cstr) : result opt_error unit :=
  if p_abs_path o && negb (bool_decide (head value = Some "/"%char)) then Err (NotAllowedValue value)
  else if p_exists o && negb (file_exists value) then Err (PathNotExists value)
  else Ok tt.

Definition with_value (o : OptionString) (p : Priority) (d v : cstr) : OptionString :=
  mkString p (s_regex o) (s_icase o) d v.

(** The constructors: the default value loses its [file://] and is tested. *)
Definition finish_path (s : OptionString) (exists_ abs_path : bool) : result opt_error OptionPath :=
  let d := remove_file_prot (s_default s) in
  let o := mkPath (with_value s (s_priority s) d d) exists_ abs_path in
  let* _ := path_test o d in Ok o.
Definition new_path (d : cstr) (exists_ abs_path : bool) : result opt_error OptionPath :=
  finish_path (new_string d) exists_ abs_path.
Definition new_path_ptr (d : option cstr) (exists_ abs_path : bool) : result opt_error OptionPath :=
  match d with
  | Some d => finish_path (new_string d) exists_ abs_path
  | None => Ok (mkPath (new_string_ptr None) exists_ abs_path)
  end.
Definition new_path_regex (d regex : cstr) (icase exists_ abs_path : bool)
  : result opt_error OptionPath :=
  let* s := new_string_regex (remove_file_prot d) regex icase in finish_path s exists_ abs_path.
Definition new_path_ptr_regex (d : option cstr) (regex : cstr) (icase exists_ abs_path : bool)
  : result opt_error OptionPath :=
  let* s := new_string_ptr_regex d regex icase in
  match d with
  | Some _ => finish_path s exists_ abs_path
  | None => Ok (mkPath s exists_ abs_path)
  end.

Definition path_set (p : Priority) (value : cstr) (o : OptionPath) : result opt_error OptionPath :=
  if ge_prio p (s_priority (p_string o)) then
    let* _ := string_test (p_string o) value in
    let val := remove_file_prot value in
    let* _ := path_test o val in
    Ok (mkPath (with_value (p_string o) p (s_default (p_string o)) val) (p_exists o) (p_abs_path o))
  else Ok o.

#[global] Instance path_option : OptionType OptionPath cstr := {|
  get_priority o := s_priority (p_string o);
  get_value o := string_get_value (p_string o);
  get_default_value o := s_default (p_string o);
  test := path_test;
  from_string _ s := Ok s;
  to_string _ v := v;
  get_value_string o := string_get_value (p_string o);
  set := path_set;
|}.

#[global] Instance path_option_laws : OptionLaws OptionPath cstr.
Proof.
  refine {| accepts o v := let* _ := string_test (p_string o) v in
                           let* _ := path_test o (remove_file_prot v) in
                           Ok (remove_file_prot v) |}; simpl;
    unfold path_set; intros p v o x.
  - by intros ->.
  - intros ->. destruct (string_test _ v) as [[]|]; simpl; [|congruence].
    destruct (path_test o _) as [[]|]; simpl; [done|congruence].
  - intros ->. destruct (string_test _ v) as [[]|]; simpl; [|done].
    destruct (path_test o _) as [[]|]; simpl; [|done].
    intros [= <-]. eexists. split_and!; [done..| |done]. intros Hp. unfold string_get_value. simpl.
    by rewrite bool_decide_eq_false_2.
Defined.

(** The value a path option stores has lost its [file://], and satisfies
    the option's requirements: it is absolute where that is required and named
    an existing file where that is required; a default is treated the same. *)
Theorem path_requirements v exists_ abs_path :
  let good s := (abs_path = true -> head s = Some "/"%char) /\ (exists_ = true -> file_exists s = true) in
  (forall o, new_path v exists_ abs_path = Ok o ->
     get_value o = Ok (remove_file_prot v) /\ good (remove_file_prot v))
  /\ (forall o p o', p_exists o = exists_ -> p_abs_path o = abs_path -> p <> EMPTY ->
     ge_prio p (get_priority o) = true -> set p v o = Ok o' ->
     get_value o' = Ok (remove_file_prot v) /\ good (remove_file_prot v)).
Proof.
  intros good. assert (Ht : forall o u, p_exists o = exists_ -> p_abs_path o = abs_path ->
    path_test o (remove_file_prot v) = Ok u -> good (remove_file_prot v)).
  { intros o u <- <-. unfold path_test, good.
    destruct (p_abs_path o), (p_exists o), (bool_decide _) eqn:Hb, (file_exists _) eqn:Hf;
      simpl; try done; reflect_bools; naive_solver. }
  split.
  - intros o Ho. unfold new_path, finish_path in Ho. apply result_bind_Ok in Ho as (u & Hu & [= <-]).
    split; [done|]. by eapply Ht in Hu.
  - intros o p o' He Ha Hp Hge. simpl in *. unfold path_set. rewrite Hge. intros Ho.
    apply result_bind_Ok in Ho as (u & _ & Ho). apply result_bind_Ok in Ho as (u' & Hu & [= <-]).
    split; [|by eapply Ht]. unfold string_get_value. simpl. by rewrite bool_decide_eq_false_2.
Qed.
(** ** [option_T_list_append]: a setting by name that appends *)

Definition max_prio (p q : Priority) : Priority := if ge_prio p q then p else q.

Fixpoint append_loop (p add_priority : Priority) (val : list cstr) (first : bool) (o : OptionStringList)
  : result opt_error OptionStringList :=
  match val with
  | [] => Ok o
  | item :: val =>
      let* o :=
        if bool_decide (item = [])
        then (if first then list_set_string p item o else Ok o)
        else list_set add_priority (l_value o ++ [item]) o in
      append_loop p add_priority val false o
  end.

Definition option_list_append (p : Priority) (value : cstr) (o : OptionStringList)
  : result opt_error OptionStringList :=
  if bool_decide (value = []) then list_set_string p value o
  else append_loop p (max_prio p (l_priority o)) (list_from_string value) true o.

Definition nonempty_items (val : list cstr) : list cstr := base.filter (fun i => i <> []) val.

Lemma list_set_no_regex p v o :
  l_regex o = [] ->
  list_set p v o = Ok (if ge_prio p (l_priority o)
    then mkStringList p [] (l_icase o) (l_default o) v else o).
Proof.
  intros Hr. unfold list_set, list_test. rewrite Hr, bool_decide_eq_true_2 by done.
  by case_match.
Qed.

Lemma append_loop_rest p add val o :
  l_regex o = [] -> ge_prio add (l_priority o) = true ->
  append_loop p add val false o
  = Ok (match nonempty_items val with
        | [] => o
        | items => mkStringList add [] (l_icase o) (l_default o) (l_value o ++ items)
        end).
Proof.
  revert o. induction val as [|item val IH]; intros o Hr Hge; [done|]. cbn [append_loop].
  case_bool_decide as Hi; simpl.
  - rewrite IH by done. unfold nonempty_items. by rewrite filter_cons, decide_False by naive_solver.
  - rewrite list_set_no_regex, Hge by done. simpl. rewrite IH by (unfold ge_prio; simpl; try done; lia).
    unfold nonempty_items. rewrite filter_cons, decide_True by done. simpl. f_equal.
    destruct (base.filter _ val) as [|i items]; simpl; [done|]. f_equal. by rewrite <-app_assoc.
Qed.

Lemma max_prio_ge p q : ge_prio (max_prio p q) q = true.
Proof. unfold max_prio, ge_prio. case_match; lia. Qed.

(** A setting by name of an appending list option appends the non-empty
    items of the string whatever the priority; only when the string is empty
    or starts with an empty item are the old values dropped, and that only by
    a priority at least the stored one; the priority becomes the higher one. *)
Theorem list_append_spec p value o :
  l_regex o = [] ->
  let items := list_from_string value in
  let clears := bool_decide (value = []) || bool_decide (head items = Some []) in
  let kept := if clears && ge_prio p (l_priority o) then [] else l_value o in
  exists o', option_list_append p value o = Ok o'
  /\ l_value o' = kept ++ nonempty_items items
  /\ l_priority o' = (if clears || negb (bool_decide (items = []))
                      then max_prio p (l_priority o) else l_priority o).
Proof.
  intros Hr items clears kept. unfold option_list_append, kept, clears, items, max_prio.
  case_bool_decide as Hv.
  { subst value. unfold list_set_string. rewrite list_set_no_regex by done. eexists. split; [done|].
    destruct (ge_prio p (l_priority o)); simpl; by rewrite ?app_nil_r. }
  destruct (list_from_string value) as [|item val]; simpl.
  { exists o. by rewrite app_nil_r. }
  case_bool_decide as Hi; simpl.
  - subst item. rewrite bool_decide_eq_true_2 by done. unfold list_set_string.
    rewrite list_set_no_regex by done. simpl.
    rewrite append_loop_rest by (destruct (ge_prio p (l_priority o)) eqn:Hge; simpl;
      unfold ge_prio in *; try done; lia).
    eexists. split; [done|].
    unfold nonempty_items. rewrite filter_cons, decide_False by naive_solver.
    destruct (ge_prio p (l_priority o)), (base.filter _ val); simpl; by rewrite ?app_nil_r.
  - rewrite (bool_decide_eq_false_2 (Some item = Some [])) by congruence.
    pose proof (max_prio_ge p (l_priority o)) as Hge. unfold max_prio in Hge.
    rewrite list_set_no_regex, Hge by done. simpl.
    rewrite append_loop_rest by (simpl; unfold ge_prio; try done; lia).
    eexists. split; [done|]. unfold nonempty_items.
    rewrite filter_cons, decide_True by done.
    destruct (base.filter _ val); simpl; split; try done. by rewrite <-app_assoc.
Qed.
End strings.

(** An environment without regular expressions in which only [/etc] exists. *)
Definition small_environment : Environment :=
  {| regex_match _ _ _ := true; file_exists s := bool_decide (s = lit "/etc") |}.

Lemma list_append_spec_witness :
  exists o', @option_list_append small_environment MAINCONFIG (lit "b")
    (mkStringList RUNTIME [] false [] [lit "a"]) = Ok o' /\ l_value o' = [lit "a"; lit "b"].
Proof.
  destruct (@list_append_spec small_environment MAINCONFIG (lit "b")
    (mkStringList RUNTIME [] false [] [lit "a"]) eq_refl) as (o' & H1 & H2 & _).
  exists o'. split; [exact H1|]. rewrite H2. reflexivity.
Defined.

Lemma path_requirements_witness :
  exists o, @new_path small_environment (lit "file:///etc") true true = Ok o
  /\ @get_value _ _ (@path_option small_environment) o = Ok (lit "/etc").
Proof.
  eexists. split; [reflexivity|].
  refine (proj1 (proj1 (@path_requirements small_environment (lit "file:///etc") true true) _ _)).
  reflexivity.
Defined.

(** ** [OptionChild]

    The parent option lives in another configuration object; the operations
    get it as it is when they are called. The value member is not initialised
    by the constructor: [v0] is what it holds. *)

Record OptionChild (V : Type) := mkChild { c_priority : Priority; c_value : V }.
Arguments mkChild {V}.
Arguments c_priority {V}.
Arguments c_value {V}.

Section child.
Context {O V : Type} `{OptionType O V}.
Implicit Types (parent : O) (c : OptionChild V).

Definition new_child (v0 : V) : OptionChild V := mkChild EMPTY v0.

Definition child_get_priority parent c : Priority :=
  if bool_decide (c_priority c = EMPTY) then get_priority parent else c_priority c.
Definition child_get_value parent c : result opt_error V :=
  if bool_decide (c_priority c = EMPTY) then get_value parent else Ok (c_value c).
Definition child_get_default_value parent c : V := get_default_value parent.
Definition child_get_value_string parent c : result opt_error cstr :=
  if bool_decide (c_priority c = EMPTY) then get_value_string parent else Ok (to_string parent (c_value c)).
Definition child_empty parent c : bool :=
  bool_decide (c_priority c = EMPTY) && opt_empty parent.

(** [set(priority, value)]: compared with the child's own priority, not with
    the one [get_priority] shows. *)
Definition child_set parent (p : Priority) (value : V) c : result opt_error (OptionChild V) :=
  if ge_prio p (c_priority c) then
    let* _ := test parent value in Ok (mkChild p value)
  else Ok c.
Definition child_set_string parent (p : Priority) (value : cstr) c : result opt_error (OptionChild V) :=
  if ge_prio p (c_priority c) then
    let* v := from_string parent value in child_set parent p v c
  else Ok c.

(** The specialisation for a parent whose values are strings converts the
    string before it looks at the priority. *)
Definition child_set_string_eager parent (p : Priority) (value : cstr) c
  : result opt_error (OptionChild V) :=
  let* val := from_string parent value in child_set parent p val c.

(** C9. A child option without a value of its own shows the value, the
    priority and the text of its parent, whatever the parent becomes; once a
    value is set with any priority above empty (even one below the parent's)
    it shows that value and priority instead, whatever the parent becomes,
    until a setting of at least the same priority. *)
Theorem child_overrides_parent parent c p v c' :
  p <> EMPTY -> ge_prio p (c_priority c) = true -> child_set parent p v c = Ok c' ->
  (c_priority c = EMPTY -> forall parent',
     child_get_value parent' c = get_value parent'
     /\ child_get_priority parent' c = get_priority parent'
     /\ child_get_value_string parent' c = get_value_string parent'
     /\ child_empty parent' c = opt_empty parent')
  /\ (forall parent', child_get_value parent' c' = Ok v /\ child_get_priority parent' c' = p
        /\ child_empty parent' c' = false)
  /\ test parent v = Ok tt
  /\ (forall parent' p' v', ge_prio p' p = false -> child_set parent' p' v' c' = Ok c').
Proof.
  intros Hp Hge. unfold child_set. rewrite Hge. intros Hs.
  apply result_bind_Ok in Hs as ([] & Ht & [= <-]).
  unfold child_get_value, child_get_priority, child_get_value_string, child_empty. simpl.
  split_and!; [|intros parent'; by rewrite bool_decide_eq_false_2|done|by intros _ p' v' ->].
  intros -> parent'. by rewrite bool_decide_eq_true_2.
Qed.
End child.

Lemma child_overrides_parent_witness :
  child_get_value (mkBool RUNTIME None None true true) (mkChild REPOCONFIG false) = Ok false.
Proof.
  refine (proj1 (proj1 (proj2 (child_overrides_parent (new_bool true) (new_child true) REPOCONFIG false
    (mkChild REPOCONFIG false) _ _ _)) (mkBool RUNTIME None None true true))); by vm_compute.
Defined.

Lemma set_all_highest_witness :
  exists o, set_all [(MAINCONFIG, 5%Z); (RUNTIME, 7%Z); (REPOCONFIG, 9%Z)]
    (mkNumber int32 DEFAULT None 2 0 10 2) = Ok o /\ get_value o = Ok 7%Z.
Proof.
  destruct (set_all_highest (fun v => v) [(MAINCONFIG, 5%Z); (RUNTIME, 7%Z); (REPOCONFIG, 9%Z)]
    (mkNumber int32 DEFAULT None 2 0 10 2) 2%Z) as (o & Ho & Hv & _); [done| |].
  - by repeat constructor.
  - exists o. by split.
Defined.

(** ** [OptionBinds]: options by name

    An item refers to an option object of the configuration [S] by what it
    calls on it; the two functions of an item are optional. *)

Record Item (S : Type) := mkItem {
  i_priority : S -> Priority;
  i_set : Priority -> cstr -> S -> result opt_error S;
  i_value_string : S -> result opt_error cstr;
  new_str_func : option (Priority -> cstr -> S -> result opt_error S);
  get_value_str_func : option (S -> result opt_error cstr);
  is_append_option : bool;
}.
Arguments mkItem {S}.
Arguments i_priority {S}.
Arguments i_set {S}.
Arguments i_value_string {S}.
Arguments new_str_func {S}.
Arguments get_value_str_func {S}.
Arguments is_append_option {S}.

Inductive binds_error := OptionNotFound (id : cstr) | OptionAlreadyExists (id : cstr).

Section binds.
Context {S : Type}.
Abbreviation OptionBinds := (gmap cstr (Item S)).

Definition item_new_string (item : Item S) (p : Priority) (value : cstr) (s : S) : result opt_error S :=
  match new_str_func item with Some f => f p value s | None => i_set item p value s end.
Definition item_get_value_string (item : Item S) (s : S) : result opt_error cstr :=
  match get_value_str_func item with Some f => f s | None => i_value_string item s end.

Definition binds_at (id : cstr) (b : OptionBinds) : result binds_error (Item S) :=
  match b !! id with Some item => Ok item | None => Err (OptionNotFound id) end.
Definition binds_add (id : cstr) (item : Item S) (b : OptionBinds) : result binds_error OptionBinds :=
  match b !! id with
  | Some _ => Err (OptionAlreadyExists id)
  | None => Ok (<[id := item]> b)
  end.
Fixpoint add_all (items : list (cstr * Item S)) (b : OptionBinds) : result binds_error OptionBinds :=
  match items with
  | [] => Ok b
  | (id, item) :: items => let* b := binds_add id item b in add_all items b
  end.

Lemma add_all_gen (items : list (cstr * Item S)) (b0 : OptionBinds) :
  ((NoDup items.*1 /\ Forall (fun id => b0 !! id = None) items.*1) <-> exists b, add_all items b0 = Ok b)
  /\ forall b, add_all items b0 = Ok b -> b = list_to_map items ∪ b0.
Proof.
  revert b0. induction items as [|[id item] items IH]; intros b0; simpl.
  { split; [split; [by eexists|by split; constructor]|]. intros b [= <-]. by rewrite map_empty_union. }
  unfold binds_add. destruct (b0 !! id) eqn:Hid; simpl.
  { split; [|done]. split; [intros [_ Hf]; inversion Hf; congruence|by intros [? ?]]. }
  specialize (IH (<[id := item]> b0)) as [IH1 IH2]. split.
  - rewrite <-IH1, NoDup_cons, !Forall_cons, !Forall_forall. split.
    + intros [[Hn Hd] [_ Hf]]. split; [done|]. intros x Hx.
      rewrite lookup_insert_ne by (intros ->; by apply Hn). by apply Hf.
    + intros [Hd Hf]. split_and!; try done.
      * intros Hin. specialize (Hf _ Hin). by rewrite lookup_insert_eq in Hf.
      * intros x Hx. specialize (Hf _ Hx). by apply lookup_insert_None in Hf as [? _].
  - intros b Hb. rewrite (IH2 _ Hb). rewrite <-insert_union_r, insert_union_l; [done|].
    apply not_elem_of_list_to_map_1. intros Hin.
    assert (Hok : exists b, add_all items (<[id := item]> b0) = Ok b) by eauto.
    apply IH1 in Hok as [_ Hf]. rewrite Forall_forall in Hf. specialize (Hf _ Hin).
    by rewrite lookup_insert_eq in Hf.
Qed.

(** A table without a repeated name is registered as it is. *)
Lemma add_all_ok (items : list (cstr * Item S)) :
  NoDup items.*1 -> add_all items ∅ = Ok (list_to_map items).
Proof.
  intros Hd. destruct (add_all_gen items ∅) as [H1 H2].
  destruct (proj1 H1) as [b Hb]; [split; [done|by apply Forall_true]|].
  by rewrite Hb, (H2 _ Hb), map_union_empty.
Qed.

(** Registering a table of options succeeds exactly when no name occurs
    twice, and then every name leads to the item registered under it and
    every other name throws [OptionNotFound]. *)
Theorem add_all_distinct (items : list (cstr * Item S)) :
  (NoDup items.*1 <-> exists b, add_all items ∅ = Ok b)
  /\ forall b, add_all items ∅ = Ok b -> forall id,
     binds_at id b = match list_to_map (M := OptionBinds) items !! id with
       | Some item => Ok item | None => Err (OptionNotFound id) end.
Proof.
  destruct (add_all_gen items ∅) as [H1 H2]. split.
  - rewrite <-H1. split; [|naive_solver]. intros Hd. split; [done|]. by apply Forall_true.
  - intros b Hb id. unfold binds_at. rewrite (H2 _ Hb), map_union_empty. done.
Qed.
End binds.
End Options.
