(* ===== verification/Merged.v ===== *)
(** * Merged: merging transactions of the history
    ([dnf-4/libdnf/transaction/{Types.hpp, TransactionItem.cpp,
    TransactionItemReason.hpp, RPMItem.cpp, MergedTransaction.cpp}])

    The history of a system is a list of transactions; each has items (a
    package, a comps group or an environment, with an action). A
    [MergedTransaction] combines the items of several transactions into what
    they did together. The items are shared objects whose actions the merge
    changes: they live in a store indexed by their identity. *)

From S2P Require Import Prelude Numeric.
Import Numeric.

Module Merged.

(** ** Types *)

Inductive TransactionState := TS_UNKNOWN | TS_DONE | TS_ERROR.
Inductive TransactionItemState := TIS_UNKNOWN | TIS_DONE | TIS_ERROR.
Inductive TransactionItemAction :=
| INSTALL | DOWNGRADE | DOWNGRADED | OBSOLETE | OBSOLETED | UPGRADE | UPGRADED
| REMOVE | REINSTALL | REINSTALLED | REASON_CHANGE.
Inductive TransactionItemReason :=
| R_UNKNOWN | R_DEPENDENCY | R_USER | R_CLEAN | R_WEAK_DEPENDENCY | R_GROUP.

#[global] Instance TransactionState_eq_dec : EqDecision TransactionState.
Proof. solve_decision. Defined.
#[global] Instance TransactionItemState_eq_dec : EqDecision TransactionItemState.
Proof. solve_decision. Defined.
#[global] Instance TransactionItemAction_eq_dec : EqDecision TransactionItemAction.
Proof. solve_decision. Defined.
#[global] Instance TransactionItemReason_eq_dec : EqDecision TransactionItemReason.
Proof. solve_decision. Defined.

(** The numbers stored in the database. *)
Definition action_code (a : TransactionItemAction) : Z :=
  match a with
  | INSTALL => 1 | DOWNGRADE => 2 | DOWNGRADED => 3 | OBSOLETE => 4 | OBSOLETED => 5 | UPGRADE => 6
  | UPGRADED => 7 | REMOVE => 8 | REINSTALL => 9 | REINSTALLED => 10 | REASON_CHANGE => 11
  end.

Definition transactionItemActionName (a : TransactionItemAction) : string :=
  match a with
  | INSTALL => "Install" | DOWNGRADE => "Downgrade" | DOWNGRADED => "Downgraded"
  | OBSOLETE => "Obsolete" | OBSOLETED => "Obsoleted" | UPGRADE => "Upgrade"
  | UPGRADED => "Upgraded" | REMOVE => "Removed" | REINSTALL => "Reinstall"
  | REINSTALLED => "Reinstalled" | REASON_CHANGE => "Reason Change"
  end.
Definition transactionItemActionShort (a : TransactionItemAction) : string :=
  match a with
  | INSTALL => "I" | DOWNGRADE => "D" | DOWNGRADED => "D" | OBSOLETE => "O" | OBSOLETED => "O"
  | UPGRADE => "U" | UPGRADED => "U" | REMOVE => "E" | REINSTALL => "R" | REINSTALLED => "R"
  | REASON_CHANGE => "?"
  end.

Definition isForwardAction (a : TransactionItemAction) : bool :=
  match a with INSTALL | DOWNGRADE | OBSOLETE | UPGRADE | REINSTALL => true | _ => false end.
Definition isBackwardAction (a : TransactionItemAction) : bool :=
  match a with REMOVE | DOWNGRADED | OBSOLETED | UPGRADED | REINSTALLED => true | _ => false end.

Definition reason_name (r : TransactionItemReason) : string :=
  match r with
  | R_UNKNOWN => "unknown" | R_DEPENDENCY => "dependency" | R_USER => "user" | R_CLEAN => "clean"
  | R_WEAK_DEPENDENCY => "weak-dependency" | R_GROUP => "group"
  end.

(** [operator<] walks an array from the least significant reason up. *)
Definition reason_order : list TransactionItemReason :=
  [R_UNKNOWN; R_CLEAN; R_WEAK_DEPENDENCY; R_DEPENDENCY; R_GROUP; R_USER].
Fixpoint reason_scan (order : list TransactionItemReason) (lhs rhs : TransactionItemReason) : bool :=
  match order with
  | [] => false
  | i :: order =>
      if bool_decide (lhs = i) then true
      else if bool_decide (rhs = i) then false else reason_scan order lhs rhs
  end.
Definition reason_lt (lhs rhs : TransactionItemReason) : bool :=
  if bool_decide (lhs = rhs) then false else reason_scan reason_order lhs rhs.
Definition reason_gt (lhs rhs : TransactionItemReason) : bool :=
  if bool_decide (lhs = rhs) then false else reason_lt rhs lhs.
Definition reason_compare (lhs rhs : TransactionItemReason) : Z :=
  if reason_lt lhs rhs then (-1)%Z else if reason_gt lhs rhs then 1%Z else 0%Z.

(** The rank of a reason: weaker reasons first. *)
Definition rank (r : TransactionItemReason) : Z :=
  match r with
  | R_UNKNOWN => 0 | R_CLEAN => 1 | R_WEAK_DEPENDENCY => 2 | R_DEPENDENCY => 3 | R_GROUP => 4 | R_USER => 5
  end.

Lemma reason_gt_rank l r : reason_gt l r = (rank r <? rank l)%Z.
Proof. by destruct l, r. Qed.

(** The reasons are strictly and totally ordered: unknown, clean, weak
    dependency, dependency, group, user; the comparison function is antisymmetric
    and is zero on equal reasons only. *)
Theorem reason_order_total l r :
  reason_lt l r = (rank l <? rank r)%Z
  /\ reason_gt l r = (rank r <? rank l)%Z
  /\ reason_compare l r = (- reason_compare r l)%Z
  /\ (reason_compare l r = 0%Z <-> l = r).
Proof. destruct l, r; vm_compute; naive_solver. Qed.

(** ** Items *)

Record RPMItem := mkRPM {
  r_name : cstr; r_epoch : Z; r_version : cstr; r_release : cstr; r_arch : cstr;
}.
Inductive Item :=
| RPM (r : RPMItem)
| GROUP (groupid : cstr)
| ENVIRONMENT (environmentid : cstr).

#[global] Instance RPMItem_eq_dec : EqDecision RPMItem.
Proof. solve_decision. Defined.
#[global] Instance Item_eq_dec : EqDecision Item.
Proof. solve_decision. Defined.

Definition is_rpm (i : Item) : bool := match i with RPM _ => true | _ => false end.

(** [RPMItem::getNEVRA]. *)
Definition getNEVRA (r : RPMItem) : cstr :=
  if (0 <? r_epoch r)%Z
  then r_name r ++ lit "-" ++ dec_Z (r_epoch r) ++ lit ":" ++ r_version r ++ lit "-" ++ r_release r
       ++ lit "." ++ r_arch r
  else r_name r ++ lit "-" ++ r_version r ++ lit "-" ++ r_release r ++ lit "." ++ r_arch r.

(** The successive results of [std::getline(ss, buffer, delim)]: [cur] is what
    the current line has so far. *)
Fixpoint tokens (delim : ascii) (cur s : cstr) : list cstr :=
  match s with
  | [] => match cur with [] => [] | _ => [cur] end
  | c :: s => if bool_decide (c = delim) then cur :: tokens delim [] s else tokens delim (cur ++ [c]) s
  end.

(** The loop over the parts of two versions. *)
Fixpoint compare_parts (this other : list cstr) : result std_error bool :=
  match this, other with
  | bufferThis :: this, bufferOther :: other =>
      let* subVersionThis := stoi bufferThis in
      let* subVersionOther := stoi bufferOther in
      if (subVersionThis =? subVersionOther)%Z then compare_parts this other
      else Ok (subVersionThis <? subVersionOther)%Z
  | _, _ => Ok false
  end.
Definition version_less (this other : cstr) : result std_error bool :=
  compare_parts (tokens "." [] this) (tokens "." [] other).

(** [RPMItem::operator<]. *)
Definition rpm_less (this other : RPMItem) : result std_error bool :=
  let epochDif := (r_epoch other - r_epoch this)%Z in
  if (0 <? epochDif)%Z then Ok true
  else if (r_epoch this <? 0)%Z then Ok false
  else version_less (r_version this) (r_version other).

(** ** The version order on dotted numbers *)

Fixpoint dotted (parts : list Z) : cstr :=
  match parts with
  | [] => []
  | [z] => dec_Z z
  | z :: parts => dec_Z z ++ "."%char :: dotted parts
  end.

Definition no_dot (s : cstr) : Prop := Forall (fun c => c <> "."%char) s.

Lemma dec_Z_no_dot z : no_dot (dec_Z z).
Proof.
  assert (Hd : forall n, no_dot (dec_N n)).
  { intros n. eapply Forall_impl; [apply dec_N_digits|]. by intros c Hc ->. }
  unfold dec_Z. case_match; [|apply Hd]. constructor; [done|apply Hd].
Qed.

Lemma dec_Z_nonempty z : dec_Z z <> [].
Proof. unfold dec_Z. case_match; [done|apply dec_N_nonempty]. Qed.

Lemma tokens_app cur s t :
  no_dot s -> tokens "." cur (s ++ t) = tokens "." (cur ++ s) t.
Proof.
  intros Hs. revert cur. induction Hs as [|c s Hc Hs IH]; intros cur; simpl; [by rewrite app_nil_r|].
  rewrite bool_decide_eq_false_2 by done. by rewrite IH, <-app_assoc.
Qed.

Lemma tokens_dotted parts : tokens "." [] (dotted parts) = dec_Z <$> parts.
Proof.
  induction parts as [|z [|z' parts] IH]; [done| |].
  - simpl. rewrite <-(app_nil_r (dec_Z z)) at 1. rewrite tokens_app by apply dec_Z_no_dot. simpl.
    pose proof (dec_Z_nonempty z). by destruct (dec_Z z).
  - change (dotted (z :: z' :: parts)) with (dec_Z z ++ "."%char :: dotted (z' :: parts)).
    rewrite tokens_app by apply dec_Z_no_dot. cbn [tokens].
    rewrite bool_decide_eq_true_2 by done. by rewrite IH.
Qed.

(** The lexicographic order of the common parts. *)
Fixpoint parts_less (this other : list Z) : bool :=
  match this, other with
  | a :: this, b :: other => if (a =? b)%Z then parts_less this other else (a <? b)%Z
  | _, _ => false
  end.

Definition is_int32 (z : Z) : Prop := (- 2 ^ 31 <= z < 2 ^ 31)%Z.

Lemma version_less_dotted this other :
  Forall is_int32 this -> Forall is_int32 other ->
  version_less (dotted this) (dotted other) = Ok (parts_less this other).
Proof.
  intros Ht Ho. unfold version_less. rewrite !tokens_dotted. revert other Ho.
  induction Ht as [|a this Ha Ht IH]; intros other Ho; [by destruct other|].
  destruct Ho as [|b other Hb Ho]; [done|]. cbn. rewrite !stoi_dec by done. simpl.
  case_match; [by apply IH|done].
Qed.

(** Packages with dotted decimal versions are compared by epoch first only
    where the other epoch is higher; otherwise, and even where this epoch is
    higher, the common parts of the versions decide, as numbers from the left.
    The order is irreflexive; it takes a version and any extension of it for
    equal. *)
Theorem rpm_less_spec a b pa pb :
  r_version a = dotted pa -> r_version b = dotted pb ->
  Forall is_int32 pa -> Forall is_int32 pb -> (0 <= r_epoch a)%Z ->
  rpm_less a b = Ok ((r_epoch a <? r_epoch b)%Z || parts_less pa pb)
  /\ rpm_less a a = Ok false
  /\ (r_epoch a = r_epoch b -> forall ext, pb = pa ++ ext -> rpm_less a b = Ok false).
Proof.
  intros Ha Hb Hpa Hpb He. unfold rpm_less.
  assert (Hr : forall p ext, parts_less p (p ++ ext) = false).
  { induction p as [|x p IH]; intros ext; simpl; [done|]. by rewrite Z.eqb_refl. }
  rewrite (proj2 (Z.ltb_ge (r_epoch a) 0)) by done.
  rewrite Z.sub_diag, Ha, Hb, !version_less_dotted by done. split_and!.
  - destruct (Z.ltb_spec 0 (r_epoch b - r_epoch a)), (Z.ltb_spec (r_epoch a) (r_epoch b));
      simpl; (done || lia).
  - simpl. by rewrite <-(app_nil_r pa) at 2; rewrite Hr.
  - intros -> ext ->. by rewrite Z.sub_diag, Hr.
Qed.

Lemma rpm_less_spec_witness :
  rpm_less (mkRPM (lit "foo") 2 (lit "1.2") (lit "1") (lit "noarch"))
    (mkRPM (lit "foo") 1 (lit "1.10") (lit "1") (lit "noarch")) = Ok true.
Proof.
  refine (proj1 (rpm_less_spec (mkRPM (lit "foo") 2 (lit "1.2") (lit "1") (lit "noarch"))
    (mkRPM (lit "foo") 1 (lit "1.10") (lit "1") (lit "noarch")) [1; 2]%Z [1; 10]%Z _ _ _ _ _));
    [reflexivity|reflexivity|..];
    [repeat constructor; unfold is_int32; lia..|simpl; lia].
Defined.

(** ** Transaction items and transactions *)

Record TransactionItem := mkTI {
  ti_item : Item;
  ti_repoid : cstr;
  ti_action : TransactionItemAction;
  ti_reason : TransactionItemReason;
  ti_state : TransactionItemState;
}.

(** The transaction items by their identity (the [shared_ptr]). *)
Abbreviation store := (nat -> TransactionItem).

Definition setAction (l : nat) (a : TransactionItemAction) (st : store) : store :=
  fun x => if x =? l
           then mkTI (ti_item (st l)) (ti_repoid (st l)) a (ti_reason (st l)) (ti_state (st l))
           else st x.
Definition getAction (st : store) (l : nat) : TransactionItemAction := ti_action (st l).

Record Transaction := mkTrans {
  t_id : Z;
  t_user : Z;
  t_cmdline : cstr;
  t_state : TransactionState;
  t_releasever : cstr;
  t_dt_begin : Z;
  t_dt_end : Z;
  t_version_begin : cstr;
  t_version_end : cstr;
  t_software : list RPMItem;
  t_console : list (Z * cstr);
  t_items : list nat;
}.

(** ** [MergedTransaction]: the transactions *)

Abbreviation MergedTransaction := (list Transaction).

Definition newMerged (trans : Transaction) : MergedTransaction := [trans].

(** Before the first transaction with a higher id. *)
Fixpoint merge (trans : Transaction) (ts : MergedTransaction) : MergedTransaction :=
  match ts with
  | [] => [trans]
  | t :: ts => if (t_id trans <? t_id t)%Z then trans :: t :: ts else t :: merge trans ts
  end.

Definition listIds (ts : MergedTransaction) : list Z := t_id <$> ts.
Definition listUserIds (ts : MergedTransaction) : list Z := t_user <$> ts.
Definition listCmdlines (ts : MergedTransaction) : list cstr := t_cmdline <$> ts.
Definition listStates (ts : MergedTransaction) : list TransactionState := t_state <$> ts.
Definition listReleasevers (ts : MergedTransaction) : list cstr := t_releasever <$> ts.
Definition getDtBegin (ts : MergedTransaction) : option Z := t_dt_begin <$> head ts.
Definition getDtEnd (ts : MergedTransaction) : option Z := t_dt_end <$> last ts.
Definition getRpmdbVersionBegin (ts : MergedTransaction) : option cstr := t_version_begin <$> head ts.
Definition getRpmdbVersionEnd (ts : MergedTransaction) : option cstr := t_version_end <$> last ts.
Definition getConsoleOutput (ts : MergedTransaction) : list (Z * cstr) := concat (t_console <$> ts).
(** A set of pointers: every transaction loads its own. *)
Definition getSoftwarePerformedWith (ts : MergedTransaction) : list RPMItem := concat (t_software <$> ts).

Definition id_le (a b : Transaction) : Prop := (t_id a <= t_id b)%Z.

Lemma merge_perm trans ts : merge trans ts ≡ₚ trans :: ts.
Proof.
  induction ts as [|t ts IH]; simpl; [done|]. case_match; [done|].
  rewrite IH. by constructor.
Qed.

Lemma merge_sorted trans ts : StronglySorted id_le ts -> StronglySorted id_le (merge trans ts).
Proof.
  induction 1 as [|t ts Hs IH Ht]; simpl; [by repeat constructor|].
  destruct (Z.ltb_spec (t_id trans) (t_id t)) as [Hlt|Hge].
  - constructor; [by constructor|]. constructor; [unfold id_le; lia|].
    eapply Forall_impl; [exact Ht|]. unfold id_le. intros; lia.
  - constructor; [done|]. rewrite merge_perm. by constructor; [unfold id_le|].
Qed.

(** Merging transactions in any order gives all of them in ascending order
    of their ids, those with one id in the order they were merged; the begin
    data come from a transaction with the lowest id and the end data from one
    with the highest. *)
Theorem merge_all_sorted first rest :
  let ts := foldl (fun ts t => merge t ts) (newMerged first) rest in
  StronglySorted Z.le (listIds ts)
  /\ ts ≡ₚ first :: rest
  /\ (forall i, base.filter (fun t => t_id t = i) ts = base.filter (fun t => t_id t = i) (first :: rest))
  /\ exists b e, getDtBegin ts = Some (t_dt_begin b) /\ getDtEnd ts = Some (t_dt_end e)
     /\ Forall (fun t => (t_id b <= t_id t <= t_id e)%Z) (first :: rest).
Proof.
  assert (Hgen : forall ts0, StronglySorted id_le ts0 ->
    let ts := foldl (fun ts t => merge t ts) ts0 rest in
    StronglySorted id_le ts /\ ts ≡ₚ ts0 ++ rest
    /\ forall i, base.filter (fun t => t_id t = i) ts = base.filter (fun t => t_id t = i) (ts0 ++ rest)).
  { induction rest as [|t rest IH]; intros ts0 Hs; simpl; [by rewrite app_nil_r|].
    destruct (IH _ (merge_sorted t ts0 Hs)) as (H1 & H2 & H3). split_and!; [done| |].
    - rewrite H2, merge_perm. by rewrite <-Permutation_middle.
    - intros i. rewrite H3, !filter_app, filter_cons. clear -Hs.
      induction Hs as [|t0 ts Hs IH Ht]; simpl.
      { rewrite filter_cons. by case_decide. }
      destruct (Z.ltb_spec (t_id t) (t_id t0)) as [Hlt|Hge].
      + rewrite filter_cons. destruct (decide (t_id t = i)) as [Hi|Hi]; [|done].
        assert (Hnone : base.filter (fun t => t_id t = i) (t0 :: ts) = []).
        { destruct (base.filter _ (t0 :: ts)) as [|x l] eqn:E; [done|].
          assert (Hx : x ∈ base.filter (fun t => t_id t = i) (t0 :: ts)) by (rewrite E; left).
          apply list_elem_of_filter in Hx as [Hxi [->|Hx]%elem_of_cons]; [lia|].
          rewrite Forall_forall in Ht. specialize (Ht _ Hx). unfold id_le in Ht. lia. }
        by rewrite Hnone.
      + rewrite !filter_cons. destruct (decide (t_id t0 = i)); simpl; by rewrite IH. }
  intros ts. destruct (Hgen (newMerged first)) as (H1 & H2 & H3); [by repeat constructor|].
  simpl in H2, H3. fold ts in H1, H2, H3. split_and!.
  - unfold listIds. clear -H1. induction H1 as [|t l Hl IH Ht]; simpl; [constructor|].
    constructor; [done|]. by apply Forall_fmap.
  - done.
  - done.
  - destruct ts as [|b ts'] eqn:Ets; [by apply Permutation_nil_l in H2|].
    destruct (last (b :: ts')) as [e|] eqn:He; [|by apply last_None in He].
    exists b, e. split_and!; [done|unfold getDtEnd; by rewrite He|].
    rewrite <-H2. apply Forall_forall. intros t Ht. split.
    + inversion H1 as [|? ? _ Hb]; subst. apply elem_of_cons in Ht as [->|Ht]; [lia|].
      rewrite Forall_forall in Hb. by apply Hb.
    + apply last_Some in He as [l' He]. rewrite He in H1, Ht.
      apply StronglySorted_app in H1 as (Hle & _ & _).
      apply elem_of_app in Ht as [Ht|Ht]; [|apply list_elem_of_singleton in Ht as ->; lia].
      apply (Hle t e Ht). by apply list_elem_of_singleton.
Qed.

(** ** Merging the items *)

(** What the merge can throw; a failed [dynamic_pointer_cast] is dereferenced. *)
Inductive merge_error :=
| StdException (e : std_error)
| NullPointer.

Definition lift {A} (r : result std_error A) : result merge_error A :=
  match r with Ok a => Ok a | Err e => Err (StdException e) end.

(** The original and the new item of a package; [None] is the null pointer. *)
Record ItemPair := mkPair { first : nat; second : option nat }.
Abbreviation ItemPairMap := (gmap cstr ItemPair).

Definition getItemIdentifier (item : Item) : cstr :=
  match item with
  | RPM r => r_name r ++ lit "." ++ r_arch r
  | GROUP groupid => groupid
  | ENVIRONMENT environmentid => environmentid
  end.

Definition same_version (a b : RPMItem) : bool :=
  bool_decide (r_version a = r_version b) && (r_epoch a =? r_epoch b)%Z.

Definition resolveRPMDifference (st : store) (previous : ItemPair) (m : nat)
  : result merge_error (store * ItemPair) :=
  match ti_item (st (first previous)), ti_item (st m) with
  | RPM firstRPM, RPM secondRPM =>
      if same_version firstRPM secondRPM then Ok (setAction m REINSTALL st, mkPair m None)
      else
        let* less := lift (rpm_less firstRPM secondRPM) in
        let st := if less
          then setAction m UPGRADE (setAction (first previous) UPGRADED st)
          else setAction m DOWNGRADE (setAction (first previous) DOWNGRADED st) in
        Ok (st, mkPair (first previous) (Some m))
  | _, _ => Err NullPointer
  end.

Definition resolveErase (st : store) (previous : ItemPair) (m : nat)
  : result merge_error (store * ItemPair) :=
  let* st :=
    if bool_decide (getAction st m = INSTALL) then
      if is_rpm (ti_item (st m)) then
        let* (st, _) := resolveRPMDifference st previous m in Ok st
      else Ok (setAction m REINSTALL st)
    else Ok st in
  Ok (st, mkPair m None).

Definition resolveAltered (st : store) (previous : ItemPair) (m : nat)
  : result merge_error (store * ItemPair) :=
  let newState := getAction st m in
  let firstState := getAction st (first previous) in
  match newState with
  | REMOVE | OBSOLETED => Ok (setAction (first previous) newState st, mkPair (first previous) None)
  | DOWNGRADED | UPGRADED =>
      match second previous, firstState with
      | None, (DOWNGRADE | UPGRADE) => Ok (st, mkPair m (Some (first previous)))
      | _, _ => Ok (st, previous)
      end
  | DOWNGRADE | UPGRADE =>
      match second previous with
      | None => Ok (st, mkPair (first previous) (Some m))
      | Some s =>
          if is_rpm (ti_item (st m)) then resolveRPMDifference st previous m
          else Ok (setAction s REINSTALL st, mkPair s None)
      end
  | _ => Ok (st, previous)
  end.

Definition mergeItem (st : store) (pairs : ItemPairMap) (m : nat)
  : result merge_error (store * ItemPairMap) :=
  let name := getItemIdentifier (ti_item (st m)) in
  match pairs !! name with
  | None => Ok (st, <[name := mkPair m None]> pairs)
  | Some previous =>
      let firstState := getAction st (first previous) in
      let newState := getAction st m in
      let store_pair r := let* (st, p) := r in Ok (st, <[name := p]> pairs) in
      if bool_decide (firstState = INSTALL) && isBackwardAction newState then Ok (st, pairs)
      else match firstState with
      | REMOVE | OBSOLETED => store_pair (resolveErase st previous m)
      | INSTALL =>
          match newState with
          | REMOVE | OBSOLETED => Ok (st, delete name pairs)
          | _ => Ok (setAction m INSTALL st, <[name := mkPair m None]> pairs)
          end
      | REINSTALL | REASON_CHANGE => Ok (st, <[name := mkPair m None]> pairs)
      | DOWNGRADE | DOWNGRADED | UPGRADE | UPGRADED | OBSOLETE =>
          store_pair (resolveAltered st previous m)
      | REINSTALLED => Ok (st, pairs)
      end
  end.

Fixpoint mergeItems (items : list nat) (st : store) (pairs : ItemPairMap)
  : result merge_error (store * ItemPairMap) :=
  match items with
  | [] => Ok (st, pairs)
  | m :: items => let* (st, pairs) := mergeItem st pairs m in mergeItems items st pairs
  end.

Definition pair_items (p : ItemPair) : list nat :=
  first p :: match second p with Some s => [s] | None => [] end.

(** [getItems]: the items of all transactions in order, then the pairs in the
    order of their identifiers; the actions in the store have changed. *)
Definition getItems (ts : MergedTransaction) (st : store) : result merge_error (store * list nat) :=
  let* (st, pairs) := mergeItems (concat (t_items <$> ts)) st ∅ in
  Ok (st, concat ((fun row => pair_items (snd row)) <$> rows pairs)).

Lemma mergeItems_app xs ys st pairs :
  mergeItems (xs ++ ys) st pairs
  = (let* (st, pairs) := mergeItems xs st pairs in mergeItems ys st pairs).
Proof.
  revert st pairs. induction xs as [|x xs IH]; intros st pairs; [done|]. simpl.
  destruct (mergeItem st pairs x) as [[st' pairs']|]; simpl; [apply IH|done].
Qed.

Lemma setAction_item l a st x : ti_item (setAction l a st x) = ti_item (st x).
Proof. unfold setAction. case_match eqn:E; [apply Nat.eqb_eq in E as ->; done|done]. Qed.

Lemma setAction_same l a st : getAction (setAction l a st) l = a.
Proof. unfold getAction, setAction. by rewrite Nat.eqb_refl. Qed.

Lemma setAction_other l a st x : x <> l -> setAction l a st x = st x.
Proof. intros Hx. unfold setAction. by rewrite (proj2 (Nat.eqb_neq x l)). Qed.

(** What one step may do: items keep their contents, and the pair of the new
    item's identifier is made of its old members and the new item. *)
Definition step_ok (st st' : store) (previous p : ItemPair) (m : nat) : Prop :=
  (forall l, ti_item (st' l) = ti_item (st l))
  /\ pair_items p ⊆ m :: pair_items previous
  /\ (m ∉ pair_items previous -> NoDup (pair_items previous) -> NoDup (pair_items p)).

Ltac step_ok_tac :=
  unfold step_ok, pair_items; simpl;
  repeat match goal with s : option nat |- _ => destruct s end;
  (split_and!; [intros; by rewrite ?setAction_item | set_solver | intros ? Hnd]);
  repeat match goal with H : NoDup (_ :: _) |- _ => apply NoDup_cons in H as [? ?] end;
  repeat (apply NoDup_cons_2; [set_solver|]); apply NoDup_nil_2.

Lemma resolveRPMDifference_ok st previous m st' p :
  resolveRPMDifference st previous m = Ok (st', p) -> step_ok st st' previous p m.
Proof.
  unfold resolveRPMDifference. destruct previous as [f s].
  destruct (ti_item _); try done. destruct (ti_item (st m)); try done.
  case_match; [intros [= <- <-]; step_ok_tac|].
  intros H'. apply result_bind_Ok in H' as ([] & _ & [= <- <-]); step_ok_tac.
Qed.

Lemma resolveErase_ok st previous m st' p :
  resolveErase st previous m = Ok (st', p) -> step_ok st st' previous p m.
Proof.
  unfold resolveErase. intros H'. apply result_bind_Ok in H' as (st1 & Hst & [= <- <-]).
  assert (Hi : forall l, ti_item (st1 l) = ti_item (st l)).
  { case_bool_decide; [|by injection Hst as <-].
    case_match; [|injection Hst as <-; intros; by rewrite setAction_item].
    apply result_bind_Ok in Hst as ([st2 p2] & H2 & [= <-]).
    by apply resolveRPMDifference_ok in H2 as [? _]. }
  split; [done|]. split; [set_solver|]. intros _ _. apply NoDup_singleton.
Qed.

Lemma resolveAltered_ok st previous m st' p :
  resolveAltered st previous m = Ok (st', p) -> step_ok st st' previous p m.
Proof.
  unfold resolveAltered. destruct previous as [f s]. simpl.
  destruct (getAction st m), s as [s|], (getAction st f);
    try (intros [= <- <-]; step_ok_tac); case_match;
    (by apply resolveRPMDifference_ok) || (intros [= <- <-]; step_ok_tac).
Qed.

(** What holds while the items [items] of the store [st0] have been merged. *)
Definition merge_inv (st0 : store) (items : list nat) (st : store) (pairs : ItemPairMap) : Prop :=
  (forall l, ti_item (st l) = ti_item (st0 l))
  /\ forall name p, pairs !! name = Some p ->
     pair_items p ⊆ items /\ NoDup (pair_items p)
     /\ forall l, l ∈ pair_items p -> getItemIdentifier (ti_item (st0 l)) = name.

Lemma merge_inv_step st0 items st st' pairs m previous p :
  merge_inv st0 items st pairs -> m ∉ items ->
  pairs !! getItemIdentifier (ti_item (st m)) = Some previous ->
  step_ok st st' previous p m ->
  merge_inv st0 (items ++ [m]) st' (<[getItemIdentifier (ti_item (st m)) := p]> pairs).
Proof.
  intros [Hi Hp] Hm Hprev (Hi' & Hsub & Hnd). split; [intros l; by rewrite Hi', Hi|].
  intros name q. destruct (Hp _ _ Hprev) as (Hs1 & Hn1 & Hid1).
  rewrite lookup_insert_Some. intros [[<- <-]|[Hne Hq]].
  - split_and!; [set_solver|apply Hnd; set_solver|].
    intros l Hl. apply Hsub in Hl as Hl'. apply elem_of_cons in Hl' as [->|Hl']; [by rewrite Hi|].
    by apply Hid1.
  - destruct (Hp _ _ Hq) as (? & ? & ?). split_and!; [set_solver|done|done].
Qed.

Lemma merge_inv_mono st0 items m st pairs :
  merge_inv st0 items st pairs -> merge_inv st0 (items ++ [m]) st pairs.
Proof.
  intros [Hi Hp]. split; [done|]. intros name q Hq. destruct (Hp _ _ Hq) as (? & ? & ?).
  split_and!; [set_solver|done|done].
Qed.

Lemma single_ok st st' previous m :
  (forall l, ti_item (st' l) = ti_item (st l)) -> step_ok st st' previous (mkPair m None) m.
Proof. intros Hi. split_and!; [done|set_solver|]. intros _ _. apply NoDup_singleton. Qed.

Lemma mergeItem_inv st0 items st pairs m st' pairs' :
  merge_inv st0 items st pairs -> m ∉ items -> mergeItem st pairs m = Ok (st', pairs') ->
  merge_inv st0 (items ++ [m]) st' pairs'.
Proof.
  intros Hinv Hm. unfold mergeItem.
  destruct (pairs !! _) as [previous|] eqn:Hprev.
  2: { intros [= <- <-]. destruct Hinv as [Hi Hp]. split; [done|].
       intros name q. rewrite lookup_insert_Some. intros [[<- <-]|[Hne Hq]].
       - split_and!; [set_solver|apply NoDup_singleton|].
         intros l ->%list_elem_of_singleton. by rewrite Hi.
       - destruct (Hp _ _ Hq) as (? & ? & ?). split_and!; [set_solver|done|done]. }
  assert (Hpair : forall r : result merge_error (store * ItemPair),
    (forall st1 p, r = Ok (st1, p) -> step_ok st st1 previous p m) ->
    (let* (st1, p) := r in Ok (st1, <[getItemIdentifier (ti_item (st m)) := p]> pairs)) = Ok (st', pairs') ->
    merge_inv st0 (items ++ [m]) st' pairs').
  { intros [[st1 p]|] Hr; simpl; [|done]. intros [= <- <-]. specialize (Hr _ _ eq_refl).
    by eapply merge_inv_step. }
  assert (Hsingle : forall a, merge_inv st0 (items ++ [m]) (setAction m a st)
    (<[getItemIdentifier (ti_item (st m)) := mkPair m None]> pairs)).
  { intros a. eapply merge_inv_step; [done..|]. apply single_ok. intros l. by rewrite setAction_item. }
  assert (Hsame : merge_inv st0 (items ++ [m]) st
    (<[getItemIdentifier (ti_item (st m)) := mkPair m None]> pairs)).
  { eapply merge_inv_step; [done..|]. by apply single_ok. }
  destruct (_ && _); [intros [= <- <-]; by apply merge_inv_mono|].
  destruct (getAction st (first previous)).
  all: try (apply Hpair; intros; eauto using resolveErase_ok, resolveAltered_ok; fail).
  all: try (intros [= <- <-]; done || by apply merge_inv_mono).
  destruct (getAction st m); intros [= <- <-]; try done.
  all: destruct (merge_inv_mono _ _ m _ _ Hinv) as [Hi Hp]; split; [done|].
  all: intros name q [_ Hq]%lookup_delete_Some; by apply Hp.
Qed.

Lemma mergeItems_inv st0 done_ items st pairs st' pairs' :
  merge_inv st0 done_ st pairs -> NoDup (done_ ++ items) -> mergeItems items st pairs = Ok (st', pairs') ->
  merge_inv st0 (done_ ++ items) st' pairs'.
Proof.
  revert done_ st pairs. induction items as [|m items IH]; intros done_ st pairs Hinv Hnd; simpl.
  { intros [= <- <-]. by rewrite app_nil_r. }
  intros H'. apply result_bind_Ok in H' as ([st1 pairs1] & H1 & H2).
  replace (done_ ++ m :: items) with ((done_ ++ [m]) ++ items) in * by (by rewrite <-app_assoc).
  eapply IH; [|done|done]. eapply mergeItem_inv; [done| |done].
  apply NoDup_app in Hnd as [Hnd _]. apply NoDup_app in Hnd as (_ & Hd & _).
  intros Hm. eapply Hd; [done|]. by left.
Qed.

(** Whatever the transactions, the merged items are some of their items,
    none twice; the merge changes no package, and no identifier has more than
    two items. *)
Theorem merged_items_sound ts st st' items :
  NoDup (concat (t_items <$> ts)) -> getItems ts st = Ok (st', items) ->
  NoDup items
  /\ (forall l, l ∈ items -> l ∈ concat (t_items <$> ts))
  /\ (forall l, ti_item (st' l) = ti_item (st l))
  /\ (forall name,
     length (base.filter (fun l => getItemIdentifier (ti_item (st l)) = name) items) <= 2).
Proof.
  intros Hnd H'. apply result_bind_Ok in H' as ([st1 pairs] & H1 & [= <- <-]).
  apply (mergeItems_inv st []) in H1 as [Hi Hp]; [|by split|done]. simpl in Hp.
  assert (Hrows : forall name p, (name, p) ∈ rows pairs ->
    pair_items p ⊆ concat (t_items <$> ts) /\ NoDup (pair_items p)
    /\ forall l, l ∈ pair_items p -> getItemIdentifier (ti_item (st l)) = name).
  { intros name p Hrow. apply Hp. by apply elem_of_rows. }
  assert (Hkeys : NoDup ((rows pairs).*1)).
  { unfold rows. rewrite merge_sort_Permutation. apply NoDup_fst_map_to_list. }
  clear Hp. induction (rows pairs) as [|[name p] l IH]; cbn [fmap list_fmap concat snd].
  { split_and!; [constructor|set_solver|done|intros; simpl; lia]. }
  apply NoDup_cons in Hkeys as [Hname Hkeys]. destruct (Hrows name p) as (Hs & Hn & Hid); [by left|].
  destruct IH as (IH1 & IH2 & _ & IH4); [intros; apply Hrows; by right|done|].
  assert (Hl : forall x, x ∈ concat ((fun row => pair_items row.2) <$> l) ->
    exists name', name' ∈ l.*1 /\ getItemIdentifier (ti_item (st x)) = name').
  { intros x (xs & Hx & Hxs)%list_elem_of_In%in_concat. apply list_elem_of_In in Hx, Hxs.
    apply list_elem_of_fmap in Hx as ([name' p'] & -> & Hrow). exists name'.
    split; [by apply (list_elem_of_fmap_2 fst) in Hrow|].
    destruct (Hrows name' p') as (_ & _ & Hid'); [by right|]. by apply Hid'. }
  split_and!.
  - apply NoDup_app. split_and!; [done| |done]. intros x Hx Hx'. apply Hl in Hx' as (n' & Hn' & Hx').
    rewrite Hid in Hx' by done. by subst.
  - intros x [Hx|Hx]%elem_of_app; [by apply Hs|by apply IH2].
  - done.
  - intros n. rewrite filter_app, length_app. destruct (decide (n = name)) as [->|Hne].
    + assert (Hz : base.filter (fun x => getItemIdentifier (ti_item (st x)) = name)
        (concat ((fun row => pair_items row.2) <$> l)) = []).
      { destruct (base.filter _ (concat _)) as [|x xs] eqn:E; [done|].
        assert (Hx : x ∈ x :: xs) by left. rewrite <-E in Hx.
        apply list_elem_of_filter in Hx as [Hx (n' & Hn' & Hx')%Hl]. by subst. }
      rewrite Hz. simpl. rewrite Nat.add_0_r. etrans; [apply length_filter|].
      destruct p as [f [s|]]; simpl; lia.
    + assert (Hz : base.filter (fun x => getItemIdentifier (ti_item (st x)) = n) (pair_items p) = []).
      { destruct (base.filter _ (pair_items p)) as [|x xs] eqn:E; [done|].
        assert (Hx : x ∈ x :: xs) by left. rewrite <-E in Hx.
        apply list_elem_of_filter in Hx as [Hx Hx'%Hid]. congruence. }
      rewrite Hz. simpl. apply IH4.
Qed.

(** ** Two transactions with one package *)

(** The merged items and their actions for an old item [a] with action [x] and
    a new item [b] with action [y]. *)
Definition merged_two (x y : TransactionItemAction) (a b : nat) (same less : bool)
  : list (nat * TransactionItemAction) :=
  match x with
  | INSTALL => if isBackwardAction y then [(a, INSTALL)] else [(b, INSTALL)]
  | REINSTALL | REASON_CHANGE => [(b, y)]
  | REINSTALLED => [(a, x)]
  | REMOVE | OBSOLETED =>
      match y with
      | INSTALL => [(b, if same then REINSTALL else if less then UPGRADE else DOWNGRADE)]
      | _ => [(b, y)]
      end
  | DOWNGRADE | UPGRADE | OBSOLETE | DOWNGRADED | UPGRADED =>
      match y with
      | REMOVE | OBSOLETED => [(a, y)]
      | DOWNGRADED | UPGRADED =>
          match x with DOWNGRADE | UPGRADE => [(b, y); (a, x)] | _ => [(a, x)] end
      | DOWNGRADE | UPGRADE => [(a, x); (b, y)]
      | _ => [(a, x)]
      end
  end.

Lemma getItems_items ts st :
  getItems ts st = (let* (st, pairs) := mergeItems (concat (t_items <$> ts)) st ∅ in
                    Ok (st, concat ((fun row => pair_items (snd row)) <$> rows pairs))).
Proof. done. Qed.

(** What two transactions with one item each of the same package merge to,
    for every pair of actions; in particular an installation followed by a
    removal stays an installation, where the documented rule is that nothing
    remains. *)
Theorem merge_two_transactions t1 t2 st a b ra rb less :
  t_items t1 = [a] -> t_items t2 = [b] -> a <> b ->
  ti_item (st a) = RPM ra -> ti_item (st b) = RPM rb ->
  getItemIdentifier (RPM ra) = getItemIdentifier (RPM rb) -> rpm_less ra rb = Ok less ->
  exists st', let items := merged_two (getAction st a) (getAction st b) a b (same_version ra rb) less in
    getItems [t1; t2] st = Ok (st', items.*1) /\ getAction st' <$> items.*1 = items.*2
    /\ (getAction st a = INSTALL -> getAction st b = REMOVE -> items = [(a, INSTALL)]).
Proof.
  intros H1 H2 Hab Ha Hb Hid Hless. rewrite getItems_items. simpl. rewrite H1, H2. simpl.
  unfold mergeItem at 1. rewrite lookup_empty. simpl. unfold mergeItem. rewrite Ha, Hb, Hid.
  rewrite lookup_insert_eq. simpl. unfold resolveErase, resolveAltered, resolveRPMDifference. simpl.
  rewrite Ha, Hb. simpl. rewrite Hless.
  assert (Hba : b <> a) by done.
  destruct (getAction st a) eqn:Hx, (getAction st b) eqn:Hy; simpl;
    destruct (same_version ra rb), less; simpl; rewrite ?insert_insert_eq; eexists;
    (split_and!; [by rewrite insert_empty, rows_singleton|
       simpl; rewrite ?setAction_same; unfold getAction in *; rewrite ?setAction_other by done;
       by rewrite ?Hx, ?Hy|try done]).
Qed.

(** ** A chain of upgrades *)

(** One upgrade: the new and the old item, listed in either order. *)
Record Upgrade := mkUpgrade { new_first : bool; u_new : nat; u_old : nat }.
Definition upgrade_items (u : Upgrade) : list nat :=
  if new_first u then [u_new u; u_old u] else [u_old u; u_new u].

Section chain.
Context (st : store) (name : cstr) (v0 : RPMItem).

(** An upgrade of the package [name], to a version above [v0]. *)
Definition upgrade_of (u : Upgrade) : Prop :=
  getAction st (u_new u) = UPGRADE /\ getAction st (u_old u) = UPGRADED
  /\ getItemIdentifier (ti_item (st (u_old u))) = name
  /\ exists r, ti_item (st (u_new u)) = RPM r /\ getItemIdentifier (RPM r) = name
     /\ same_version v0 r = false /\ rpm_less v0 r = Ok true.

Definition same_store (st' : store) : Prop := forall l, st' l = st l.

Lemma setAction_id l a st' : same_store st' -> getAction st l = a -> same_store (setAction l a st').
Proof.
  intros Hs <- x. unfold setAction. case_match eqn:E; [|apply Hs].
  apply Nat.eqb_eq in E as ->. rewrite Hs. unfold getAction. by destruct (st l).
Qed.

Lemma merge_new o1 st' n u :
  same_store st' -> ti_item (st o1) = RPM v0 -> getAction st o1 = UPGRADED -> upgrade_of u ->
  exists st'', same_store st''
  /\ mergeItem st' {[name := mkPair o1 (Some n)]} (u_new u)
     = Ok (st'', {[name := mkPair o1 (Some (u_new u))]}).
Proof.
  intros Hs Ho1 Ha1 (Hn & _ & _ & r & Hr & Hid & Hsv & Hless).
  unfold mergeItem, resolveAltered, resolveRPMDifference. unfold getAction in *.
  rewrite (Hs (u_new u)), Hr, Hid, lookup_singleton_eq. simpl. rewrite !Hs, Ha1, Hn. simpl.
  rewrite ?Hr, Ho1, Hsv, Hless. simpl. eexists. rewrite insert_singleton_eq. split; [|done].
  by repeat apply setAction_id.
Qed.

Lemma merge_old o1 st' n u :
  same_store st' -> getAction st o1 = UPGRADED -> upgrade_of u ->
  mergeItem st' {[name := mkPair o1 (Some n)]} (u_old u) = Ok (st', {[name := mkPair o1 (Some n)]}).
Proof.
  intros Hs Ha1 (_ & Ho & Hid & _). unfold mergeItem, resolveAltered. unfold getAction in *.
  rewrite (Hs (u_old u)), Hid, lookup_singleton_eq. simpl. rewrite !Hs, Ha1, Ho. simpl.
  by rewrite insert_singleton_eq.
Qed.

Lemma merge_chain o1 us st' n :
  same_store st' -> ti_item (st o1) = RPM v0 -> getAction st o1 = UPGRADED -> Forall upgrade_of us ->
  exists st'', same_store st''
  /\ mergeItems (concat (upgrade_items <$> us)) st' {[name := mkPair o1 (Some n)]}
     = Ok (st'', {[name := mkPair o1 (Some (default n (u_new <$> last us)))]}).
Proof.
  intros Hs Ho1 Ha1 Hus. revert st' n Hs. induction Hus as [|u us Hu Hus IH]; intros st' n Hs; [by exists st'|].
  cbn [fmap list_fmap concat]. rewrite mergeItems_app.
  assert (Hu' : exists st1, same_store st1 /\ mergeItems (upgrade_items u) st' {[name := mkPair o1 (Some n)]}
    = Ok (st1, {[name := mkPair o1 (Some (u_new u))]})).
  { destruct (merge_new o1 st' n u) as (st1 & Hs1 & Hm); [done..|]. exists st1. split; [done|].
    unfold upgrade_items. destruct (new_first u); cbn [mergeItems].
    - rewrite Hm. simpl. by rewrite merge_old.
    - rewrite merge_old by done. simpl. by rewrite Hm. }
  destruct Hu' as (st1 & Hs1 & ->). simpl. destruct (IH st1 (u_new u) Hs1) as (st2 & Hs2 & ->).
  exists st2. split; [done|]. destruct us as [|u' us]; [done|]. rewrite last_cons_cons.
  destruct (last (u' :: us)) eqn:E; [done|by apply last_None in E].
Qed.

(** A package upgraded in any number of transactions one after the other,
    each listing its two items in either order, merges to a single upgrade from
    the original item to the last new one, and no action changes. *)
Theorem upgrade_chain_merges ts u us :
  (concat (t_items <$> ts)) = concat (upgrade_items <$> (u :: us)) ->
  ti_item (st (u_old u)) = RPM v0 -> Forall upgrade_of (u :: us) ->
  exists st', getItems ts st = Ok (st', [u_old u; default (u_new u) (u_new <$> last us)])
  /\ same_store st'.
Proof.
  intros Hts Hv0 Hus. inversion Hus as [|? ? Hu Hus']; subst.
  rewrite getItems_items, Hts. cbn [fmap list_fmap concat]. rewrite mergeItems_app.
  assert (H1 : mergeItems (upgrade_items u) st ∅ = Ok (st, {[name := mkPair (u_old u) (Some (u_new u))]})).
  { destruct Hu as (Hn & Ho & Hid & r & Hr & Hid' & _). unfold getAction in *.
    unfold upgrade_items. destruct (new_first u); simpl; unfold mergeItem at 1;
      rewrite lookup_empty; simpl; unfold mergeItem, resolveAltered, getAction;
      rewrite ?Hr, ?Hid, ?Hid', lookup_insert_eq; simpl; rewrite Hn, Ho; simpl;
      by rewrite insert_insert_eq. }
  rewrite H1. simpl.
  destruct (merge_chain (u_old u) us st (u_new u)) as (st' & Hs' & ->); [done|done|by apply Hu|done|].
  exists st'. simpl. by rewrite rows_singleton.
Qed.
End chain.

(** ** Witnesses: packages [foo-1.0], [foo-1.1], [foo-2.0] *)

Definition foo (v : string) : Item := RPM (mkRPM (lit "foo") 0 (lit v) (lit "1") (lit "x86_64")).
Definition demo_item (i : Item) (a : TransactionItemAction) : TransactionItem :=
  mkTI i (lit "base") a R_USER TIS_DONE.
Definition demo_store (items : list TransactionItem) : store :=
  fun l => default (demo_item (foo "0") INSTALL) (items !! l).
Definition demo_trans (i : Z) (items : list nat) : Transaction :=
  mkTrans i 0 [] TS_DONE [] 0 0 [] [] [] [] items.

Lemma merged_items_sound_witness :
  length (base.filter (fun l => l = 0) [0]) = 1 /\ NoDup [0].
Proof.
  split; [reflexivity|].
  refine (proj1 (merged_items_sound [demo_trans 1 [0]; demo_trans 2 [1]]
    (demo_store [demo_item (foo "1.0") INSTALL; demo_item (foo "1.0") REMOVE])
    (demo_store [demo_item (foo "1.0") INSTALL; demo_item (foo "1.0") REMOVE]) [0] _ _)).
  - apply (bool_decide_unpack _); vm_compute; exact I.
  - reflexivity.
Defined.

Lemma merge_two_transactions_witness :
  exists st', getItems [demo_trans 1 [0]; demo_trans 2 [1]]
    (demo_store [demo_item (foo "1.0") REMOVE; demo_item (foo "1.1") INSTALL]) = Ok (st', [1])
  /\ getAction st' 1 = UPGRADE.
Proof.
  destruct (merge_two_transactions (demo_trans 1 [0]) (demo_trans 2 [1])
    (demo_store [demo_item (foo "1.0") REMOVE; demo_item (foo "1.1") INSTALL]) 0 1
    (mkRPM (lit "foo") 0 (lit "1.0") (lit "1") (lit "x86_64"))
    (mkRPM (lit "foo") 0 (lit "1.1") (lit "1") (lit "x86_64")) true) as (st' & H1 & H2 & _);
    [done..| |].
  - by vm_compute.
  - exists st'. split; [exact H1|]. by injection H2.
Defined.

Lemma upgrade_chain_merges_witness :
  exists st', getItems [demo_trans 1 [1; 0]; demo_trans 2 [3; 2]]
    (demo_store [demo_item (foo "1.0") UPGRADED; demo_item (foo "1.1") UPGRADE;
                 demo_item (foo "1.1") UPGRADED; demo_item (foo "2.0") UPGRADE])
    = Ok (st', [0; 3]).
Proof.
  destruct (upgrade_chain_merges
    (demo_store [demo_item (foo "1.0") UPGRADED; demo_item (foo "1.1") UPGRADE;
                 demo_item (foo "1.1") UPGRADED; demo_item (foo "2.0") UPGRADE])
    (lit "foo.x86_64") (mkRPM (lit "foo") 0 (lit "1.0") (lit "1") (lit "x86_64"))
    [demo_trans 1 [1; 0]; demo_trans 2 [3; 2]] (mkUpgrade true 1 0) [mkUpgrade true 3 2])
    as (st' & H1 & _).
  - reflexivity.
  - reflexivity.
  - repeat constructor; eexists; (split_and!; [reflexivity|reflexivity|by vm_compute|by vm_compute]).
  - exists st'. exact H1.
Defined.
End Merged.
