(* ===== verification/SwdbDb.v ===== *)
(** * SwdbDb: the tables of the software database
    ([dnf-4/libdnf/transaction/{Item, RPMItem, CompsGroupItem,
    CompsEnvironmentItem, private/Repo}.cpp] and [sql/create_tables.sql])

    The history of a system is kept in an SQLite database. A table is the list
    of its rows in the order of their insertion, an SQL statement of the sources
    is the function on the tables it denotes. The order of the rows of a query
    without [ORDER BY], and of rows that [ORDER BY] does not separate, is not
    specified by SQL; here it is the order of insertion, and no theorem depends
    on it. *)

From S2P Require Import Prelude Numeric Merged.
Import Merged.

Module SwdbDb.

(** ** Tables *)

Record TransRow := mkTransRow {
  tr_id : Z;
  tr_dt_begin : Z;
  tr_dt_end : Z;
  tr_version_begin : cstr;
  tr_version_end : cstr;
  tr_releasever : cstr;
  tr_user : Z;
  tr_cmdline : cstr;
  tr_state : TransactionState;
}.

Record TItemRow := mkTItemRow {
  tir_id : Z;
  tir_trans : Z;
  tir_item : Z;
  tir_repo : Z;
  tir_action : TransactionItemAction;
  tir_reason : TransactionItemReason;
  tir_state : TransactionItemState;
}.

(** [comps_group] and [comps_environment]; their packages and groups. *)
Record CompsRow := mkCompsRow {
  cr_item : Z; cr_id : cstr; cr_name : cstr; cr_translated : cstr; cr_types : Z;
}.
Record MemberRow := mkMemberRow {
  mr_id : Z; mr_owner : Z; mr_name : cstr; mr_installed : bool; mr_type : Z;
}.

#[global] Instance TItemRow_eq_dec : EqDecision TItemRow.
Proof. solve_decision. Defined.

Record db := mkDb {
  trans : list TransRow;
  repo : list (Z * cstr);
  console_output : list (Z * (Z * cstr));
  item : list (Z * Z);
  trans_item : list TItemRow;
  item_replaced_by : list (Z * Z);
  trans_with : list (Z * Z);
  rpm : list (Z * RPMItem);
  comps_group : list CompsRow;
  comps_group_package : list MemberRow;
  comps_environment : list CompsRow;
  comps_environment_group : list MemberRow;
}.

Definition empty_db : db := mkDb [] [] [] [] [] [] [] [] [] [] [] [].

Definition on_trans f d := mkDb (f (trans d)) (repo d) (console_output d) (item d) (trans_item d)
  (item_replaced_by d) (trans_with d) (rpm d) (comps_group d) (comps_group_package d)
  (comps_environment d) (comps_environment_group d).
Definition on_repo f d := mkDb (trans d) (f (repo d)) (console_output d) (item d) (trans_item d)
  (item_replaced_by d) (trans_with d) (rpm d) (comps_group d) (comps_group_package d)
  (comps_environment d) (comps_environment_group d).
Definition on_console f d := mkDb (trans d) (repo d) (f (console_output d)) (item d) (trans_item d)
  (item_replaced_by d) (trans_with d) (rpm d) (comps_group d) (comps_group_package d)
  (comps_environment d) (comps_environment_group d).
Definition on_item f d := mkDb (trans d) (repo d) (console_output d) (f (item d)) (trans_item d)
  (item_replaced_by d) (trans_with d) (rpm d) (comps_group d) (comps_group_package d)
  (comps_environment d) (comps_environment_group d).
Definition on_trans_item f d := mkDb (trans d) (repo d) (console_output d) (item d) (f (trans_item d))
  (item_replaced_by d) (trans_with d) (rpm d) (comps_group d) (comps_group_package d)
  (comps_environment d) (comps_environment_group d).
Definition on_replaced_by f d := mkDb (trans d) (repo d) (console_output d) (item d) (trans_item d)
  (f (item_replaced_by d)) (trans_with d) (rpm d) (comps_group d) (comps_group_package d)
  (comps_environment d) (comps_environment_group d).
Definition on_trans_with f d := mkDb (trans d) (repo d) (console_output d) (item d) (trans_item d)
  (item_replaced_by d) (f (trans_with d)) (rpm d) (comps_group d) (comps_group_package d)
  (comps_environment d) (comps_environment_group d).
Definition on_rpm f d := mkDb (trans d) (repo d) (console_output d) (item d) (trans_item d)
  (item_replaced_by d) (trans_with d) (f (rpm d)) (comps_group d) (comps_group_package d)
  (comps_environment d) (comps_environment_group d).
Definition on_group f d := mkDb (trans d) (repo d) (console_output d) (item d) (trans_item d)
  (item_replaced_by d) (trans_with d) (rpm d) (f (comps_group d)) (comps_group_package d)
  (comps_environment d) (comps_environment_group d).
Definition on_group_package f d := mkDb (trans d) (repo d) (console_output d) (item d) (trans_item d)
  (item_replaced_by d) (trans_with d) (rpm d) (comps_group d) (f (comps_group_package d))
  (comps_environment d) (comps_environment_group d).
Definition on_environment f d := mkDb (trans d) (repo d) (console_output d) (item d) (trans_item d)
  (item_replaced_by d) (trans_with d) (rpm d) (comps_group d) (comps_group_package d)
  (f (comps_environment d)) (comps_environment_group d).
Definition on_environment_group f d := mkDb (trans d) (repo d) (console_output d) (item d) (trans_item d)
  (item_replaced_by d) (trans_with d) (rpm d) (comps_group d) (comps_group_package d)
  (comps_environment d) (f (comps_environment_group d)).

(** The id of the next row: rows are never deleted. *)
Definition next_id (ids : list Z) : Z := (1 + foldr Z.max 0 ids)%Z.

(** [INSERT OR REPLACE] into a table of unique rows. *)
Definition insert_or_replace (row : Z * Z) (rows : list (Z * Z)) : list (Z * Z) :=
  base.filter (fun r => r <> row) rows ++ [row].

Lemma next_id_fresh ids x : x ∈ ids -> (x < next_id ids)%Z.
Proof.
  unfold next_id. induction ids as [|y ids IH]; [by intros ?%elem_of_nil|].
  intros [->|Hx]%elem_of_cons; simpl; [lia|]. specialize (IH Hx). lia.
Qed.

Lemma next_id_pos ids : (0 < next_id ids)%Z.
Proof. unfold next_id. induction ids; simpl; lia. Qed.

(** ** Item objects

    An object has the id of its row, 0 before it is saved. *)

Record Member := mkMember { m_id : Z; m_name : cstr; m_installed : bool; m_type : Z }.
Record Comps := mkComps {
  c_id : cstr; c_name : cstr; c_translated : cstr; c_types : Z; c_members : list Member;
}.
Inductive ItemData :=
| D_RPM (r : RPMItem)
| D_GROUP (c : Comps)
| D_ENVIRONMENT (c : Comps).
Record ItemObj := mkItem { it_id : Z; it_data : ItemData }.

(** [toStr]. *)
Definition toStr (o : ItemObj) : cstr :=
  match it_data o with
  | D_RPM r => getNEVRA r
  | D_GROUP c => lit "@" ++ c_id c
  | D_ENVIRONMENT c => lit "@" ++ c_id c
  end.

(** [addPackage] and [addGroup]: an existing member of the name is changed. *)
Definition add_member (name : cstr) (installed : bool) (type : Z) (c : Comps) : Comps :=
  let fix go (ms : list Member) : list Member :=
    match ms with
    | [] => [mkMember 0 name installed type]
    | m :: ms => if bool_decide (m_name m = name) then mkMember (m_id m) name installed type :: ms
                 else m :: go ms
    end in
  mkComps (c_id c) (c_name c) (c_translated c) (c_types c) (go (c_members c)).

(** [Item::dbInsert]. The classes of the items declare an [itemType] of their
    own; the insertion writes the one of the base class, [UNKNOWN]. *)
Definition item_dbInsert (d : db) : Z * db :=
  let id := next_id (item d).*1 in (id, on_item (fun t => t ++ [(id, 0%Z)]) d).

(** [RPMItem::dbSelectOrInsert], [save]. *)
Definition rpm_select (r : RPMItem) (d : db) : option Z :=
  fst <$> head (base.filter (fun row => snd row = r) (rpm d)).
Definition rpm_dbInsert (r : RPMItem) (d : db) : Z * db :=
  let '(id, d) := item_dbInsert d in (id, on_rpm (fun t => t ++ [(id, r)]) d).
Definition rpm_dbSelectOrInsert (r : RPMItem) (d : db) : Z * db :=
  match rpm_select r d with Some id => (id, d) | None => rpm_dbInsert r d end.
Definition rpm_save (id : Z) (r : RPMItem) (d : db) : Z * db :=
  if (id =? 0)%Z then rpm_dbSelectOrInsert r d else (id, d).

(** [CompsGroupPackage]: an inserted package does not get its id back. *)
Definition package_dbInsert (owner : Z) (m : Member) (d : db) : db :=
  on_group_package (fun t => t ++ [mkMemberRow (next_id (mr_id <$> t)) owner
    (m_name m) (m_installed m) (m_type m)]) d.
Definition package_dbUpdate (id : Z) (m : Member) (d : db) : db :=
  on_group_package (fun t => (fun row =>
    if (mr_id row =? id)%Z then mkMemberRow id (mr_owner row) (m_name m) (m_installed m) (m_type m)
    else row) <$> t) d.
Definition package_save (owner : Z) (m : Member) (d : db) : Member * db :=
  if (m_id m =? 0)%Z then
    match head (base.filter (fun row => mr_name row = m_name m /\ mr_owner row = owner)
                  (comps_group_package d)) with
    | Some row => (mkMember (mr_id row) (m_name m) (m_installed m) (m_type m),
                   package_dbUpdate (mr_id row) m d)
    | None => (m, package_dbInsert owner m d)
    end
  else (m, package_dbUpdate (m_id m) m d).

(** [CompsEnvironmentGroup]: saved once. *)
Definition envgroup_save (owner : Z) (m : Member) (d : db) : Member * db :=
  if (m_id m =? 0)%Z then
    let id := next_id (mr_id <$> comps_environment_group d) in
    (mkMember id (m_name m) (m_installed m) (m_type m),
     on_environment_group (fun t => t ++ [mkMemberRow id owner (m_name m) (m_installed m) (m_type m)]) d)
  else (m, d).

Fixpoint save_members (save : Z -> Member -> db -> Member * db) (owner : Z) (ms : list Member) (d : db)
  : list Member * db :=
  match ms with
  | [] => ([], d)
  | m :: ms =>
      let '(m, d) := save owner m d in
      let '(ms, d) := save_members save owner ms d in (m :: ms, d)
  end.

Definition load_members (owner : Z) (t : list MemberRow) : list Member :=
  (fun row => mkMember (mr_id row) (mr_name row) (mr_installed row) (mr_type row))
  <$> base.filter (fun row => mr_owner row = owner) t.

Definition with_members (c : Comps) (ms : list Member) : Comps :=
  mkComps (c_id c) (c_name c) (c_translated c) (c_types c) ms.

(** The order of [loadGroups]. *)
Definition member_le (x y : Member) : Prop := str_ltb (m_name y) (m_name x) = false.
#[global] Instance member_le_dec : RelDecision member_le.
Proof. intros x y. unfold member_le. apply _. Defined.

(** [CompsGroupItem::save] and [CompsEnvironmentItem::save]: the item, then its
    members, which are loaded first when there are none in memory. *)
Definition comps_row (id : Z) (c : Comps) : CompsRow :=
  mkCompsRow id (c_id c) (c_name c) (c_translated c) (c_types c).
Definition group_save (id : Z) (c : Comps) (d : db) : ItemObj * db :=
  let '(id, d) := if (id =? 0)%Z
    then let '(id, d) := item_dbInsert d in (id, on_group (fun t => t ++ [comps_row id c]) d)
    else (id, d) in
  let ms := match c_members c with [] => load_members id (comps_group_package d) | ms => ms end in
  let '(ms, d) := save_members package_save id ms d in
  (mkItem id (D_GROUP (with_members c ms)), d).
Definition environment_save (id : Z) (c : Comps) (d : db) : ItemObj * db :=
  let '(id, d) := if (id =? 0)%Z
    then let '(id, d) := item_dbInsert d in (id, on_environment (fun t => t ++ [comps_row id c]) d)
    else (id, d) in
  let ms := match c_members c with
    | [] => merge_sort member_le (load_members id (comps_environment_group d)) | ms => ms end in
  let '(ms, d) := save_members envgroup_save id ms d in
  (mkItem id (D_ENVIRONMENT (with_members c ms)), d).

Definition item_save (o : ItemObj) (d : db) : ItemObj * db :=
  match it_data o with
  | D_RPM r => let '(id, d) := rpm_save (it_id o) r d in (mkItem id (D_RPM r), d)
  | D_GROUP c => group_save (it_id o) c d
  | D_ENVIRONMENT c => environment_save (it_id o) c d
  end.

(** [Repo::dbSelectOrInsert]. *)
Definition repo_dbSelectOrInsert (repoid : cstr) (d : db) : Z * db :=
  match fst <$> head (base.filter (fun row => snd row = repoid) (repo d)) with
  | Some id => (id, d)
  | None => let id := next_id (repo d).*1 in (id, on_repo (fun t => t ++ [(id, repoid)]) d)
  end.

(** ** Queries *)

(** [ORDER BY key DESC LIMIT 1]: the first row with the highest key. *)
Fixpoint order_desc_first {A} (key : A -> Z) (rows : list A) : option A :=
  match rows with
  | [] => None
  | row :: rows =>
      match order_desc_first key rows with
      | Some best => Some (if (key best <=? key row)%Z then row else best)
      | None => Some row
      end
  end.

Definition trans_done (d : db) (id : Z) : Prop :=
  Exists (fun t => tr_id t = id /\ tr_state t = TS_DONE) (trans d).
#[global] Instance trans_done_dec d id : Decision (trans_done d id).
Proof. unfold trans_done. apply _. Defined.

(** [ti.action not in (3, 5, 7, 10)] for packages, [(3, 5, 7)] for comps. *)
Definition rpm_action_listed (a : TransactionItemAction) : bool :=
  negb (bool_decide (action_code a ∈ [3; 5; 7; 10]%Z)).
Definition comps_action_listed (a : TransactionItemAction) : bool :=
  negb (bool_decide (action_code a ∈ [3; 5; 7]%Z)).

(** The join of the transaction items with the packages, or with the comps
    items of a table. *)
Definition join_rpm (d : db) : list (TItemRow * RPMItem) :=
  ti ← trans_item d; row ← base.filter (fun row => fst row = tir_item ti) (rpm d); [(ti, snd row)].
Definition join_comps (t : list CompsRow) (d : db) : list (TItemRow * CompsRow) :=
  ti ← trans_item d; row ← base.filter (fun row => cr_item row = tir_item ti) t; [(ti, row)].

(** The rows the query of [resolveTransactionItemReason] is about. *)
Definition reason_rows (name arch : cstr) (d : db) : list (TItemRow * RPMItem) :=
  base.filter (fun x => trans_done d (tir_trans (fst x)) /\ rpm_action_listed (tir_action (fst x)) = true
    /\ r_name (snd x) = name /\ r_arch (snd x) = arch) (join_rpm d).
Definition reason_query (name arch : cstr) (d : db) : option TItemRow :=
  fst <$> order_desc_first (fun x => tir_trans (fst x)) (reason_rows name arch d).

(** [RPMItem::resolveTransactionItemReason]; the last argument of the source is
    not used. *)
Definition resolveTransactionItemReason (name arch : cstr) (d : db) : TransactionItemReason :=
  if bool_decide (arch <> []) then
    match reason_query name arch d with
    | Some ti => if bool_decide (tir_action ti = REMOVE) then R_UNKNOWN else tir_reason ti
    | None => R_UNKNOWN
    end
  else
    let archs := remove_dups (r_arch <$> (base.filter (fun r => r_name r = name) (rpm d).*2)) in
    foldl (fun result rpm_arch =>
      match reason_query name rpm_arch d with
      | Some ti =>
          if bool_decide (tir_action ti = REMOVE) then result
          else if reason_gt (tir_reason ti) result then tir_reason ti else result
      | None => result
      end) R_UNKNOWN archs.

(** [RPMItem::getTransactionItems]: joined with the repositories. *)
Definition rpm_transaction_items (trans_id : Z) (d : db) : list (TItemRow * (cstr * RPMItem)) :=
  x ← base.filter (fun x => tir_trans (fst x) = trans_id) (join_rpm d);
  r ← base.filter (fun row => fst row = tir_repo (fst x)) (repo d);
  [(fst x, (snd r, snd x))].

(** [RPMItem::getTransactionItem] and [Swdb::getRPMRepo] for a parsed NEVRA. *)
Definition rpm_last_item (n : RPMItem) (d : db) : option (TItemRow * RPMItem) :=
  order_desc_first (fun x => tir_id (fst x))
    (base.filter (fun x => snd x = n
       /\ Exists (fun row => fst row = tir_repo (fst x)) (repo d)) (join_rpm d)).
Definition rpm_repo (n : RPMItem) (d : db) : cstr :=
  let found := order_desc_first (fun x => tir_id (fst x))
    (x ← base.filter (fun x => snd x = n /\ rpm_action_listed (tir_action (fst x)) = true) (join_rpm d);
     r ← base.filter (fun row => fst row = tir_repo (fst x)) (repo d);
     [(fst x, snd r)]) in
  default [] (snd <$> found).

(** [CompsGroupItem::getTransactionItem] and the one of the environments, over
    their table: the last record that is not a removal. *)
Definition comps_query (t : list CompsRow) (id : cstr) (d : db) : option (TItemRow * CompsRow) :=
  order_desc_first (fun x => tir_trans (fst x))
    (base.filter (fun x => trans_done d (tir_trans (fst x))
       /\ comps_action_listed (tir_action (fst x)) = true /\ cr_id (snd x) = id) (join_comps t d)).
Definition comps_transaction_item (t : list CompsRow) (id : cstr) (d : db) : option (TItemRow * CompsRow) :=
  match comps_query t id d with
  | Some x => if bool_decide (tir_action (fst x) = REMOVE) then None else Some x
  | None => None
  end.

(** [CompsGroupItem::getTransactionItems], and the one of the environments,
    which reads neither the action nor the reason: they stay at the defaults of
    a new item. *)
Definition group_transaction_items (trans_id : Z) (d : db) : list (TItemRow * CompsRow) :=
  base.filter (fun x => tir_trans (fst x) = trans_id) (join_comps (comps_group d) d).
Definition environment_transaction_items (trans_id : Z) (d : db) : list (TItemRow * CompsRow) :=
  (fun x => (mkTItemRow (tir_id (fst x)) (tir_trans (fst x)) (tir_item (fst x)) (tir_repo (fst x))
               INSTALL R_UNKNOWN (tir_state (fst x)), snd x))
  <$> base.filter (fun x => tir_trans (fst x) = trans_id) (join_comps (comps_environment d) d).

(** [Swdb::getPackageCompsGroups] and [getCompsGroupEnvironments]: the comps
    items that list the name as installed, are not removed and whose last
    installed version still has an installed member. *)
Fixpoint insert_sorted (s : cstr) (l : list cstr) : list cstr :=
  match l with
  | [] => [s]
  | x :: l => if str_ltb x s then x :: insert_sorted s l else s :: x :: l
  end.
Definition sort_names (l : list cstr) : list cstr := foldr insert_sorted [] (remove_dups l).

Definition owners_of (name : cstr) (t : list CompsRow) (members : list MemberRow) : list cstr :=
  sort_names (c ← t; m ← base.filter (fun m => mr_owner m = cr_item c /\ mr_name m = name
                                           /\ mr_installed m = true) members; [cr_id c]).
Definition is_current_owner (t : list CompsRow) (members : list MemberRow) (d : db) (id : cstr) : bool :=
  match comps_query t id d with
  | Some (ti, c) =>
      negb (bool_decide (tir_action ti = REMOVE))
      && bool_decide (Exists (fun m => mr_owner m = cr_item c /\ mr_installed m = true) members)
  | None => false
  end.
Definition getPackageCompsGroups (name : cstr) (d : db) : list cstr :=
  base.filter (fun id => is_current_owner (comps_group d) (comps_group_package d) d id = true)
    (owners_of name (comps_group d) (comps_group_package d)).
Definition getCompsGroupEnvironments (groupid : cstr) (d : db) : list cstr :=
  base.filter (fun id => is_current_owner (comps_environment d) (comps_environment_group d) d id = true)
    (owners_of groupid (comps_environment d) (comps_environment_group d)).

(** [Swdb::filterUserinstalled] over the packages of a set, whose names and
    architectures are those of the pool. *)
Definition filterUserinstalled (pool : Z -> cstr * cstr) (d : db) (installed : list Z) : list Z :=
  base.filter (fun id =>
    let reason := resolveTransactionItemReason (fst (pool id)) (snd (pool id)) d in
    reason <> R_DEPENDENCY /\ reason <> R_WEAK_DEPENDENCY) installed.

(** ** Well-formed tables *)

Definition trans_ids (d : db) : list Z := tr_id <$> trans d.
Definition item_ids (d : db) : list Z := (item d).*1.
Definition titem_ids (d : db) : list Z := tir_id <$> trans_item d.

(** Primary keys are unique and positive, packages and repositories are stored
    once, every reference leads to a row. *)
Record db_wf (d : db) : Prop := {
  wf_trans : NoDup (trans_ids d);
  wf_trans_pos : Forall (Z.lt 0) (trans_ids d);
  wf_item : NoDup (item_ids d);
  wf_item_pos : Forall (Z.lt 0) (item_ids d);
  wf_titem : NoDup (titem_ids d);
  wf_titem_pos : Forall (Z.lt 0) (titem_ids d);
  wf_repo : NoDup (repo d).*1;
  wf_repo_names : NoDup (repo d).*2;
  wf_rpm : NoDup (rpm d).*1;
  wf_rpm_nevra : NoDup (rpm d).*2;
  wf_rpm_items : Forall (fun i => i ∈ item_ids d) (rpm d).*1;
  wf_group_items : Forall (fun i => i ∈ item_ids d) (cr_item <$> comps_group d);
  wf_environment_items : Forall (fun i => i ∈ item_ids d) (cr_item <$> comps_environment d);
  wf_references : Forall (fun row => tir_trans row ∈ trans_ids d /\ tir_item row ∈ item_ids d
                                     /\ tir_repo row ∈ (repo d).*1) (trans_item d);
}.

(** The tables the invariant is about. *)
Definition core (d : db) :=
  (trans d, repo d, item d, trans_item d, rpm d, comps_group d, comps_environment d).

Lemma db_wf_core d d' : core d' = core d -> db_wf d -> db_wf d'.
Proof.
  intros Hc [? ? ? ? ? ? ? ? ? ? ? ? ? ?]. unfold core in Hc. injection Hc as H1 H2 H3 H4 H5 H6 H7.
  unfold trans_ids, item_ids, titem_ids in *.
  split; unfold trans_ids, item_ids, titem_ids; by rewrite ?H1, ?H2, ?H3, ?H4, ?H5, ?H6, ?H7.
Qed.

(** What saving an item does to the tables: only rows of items are added. *)
Definition extends (d d' : db) : Prop :=
  trans d' = trans d /\ repo d' = repo d /\ trans_item d' = trans_item d
  /\ item_ids d ⊆ item_ids d' /\ rpm d ⊆ rpm d'.

Lemma extends_core d d' : core d' = core d -> extends d d'.
Proof.
  intros Hc. unfold core in Hc. injection Hc as H1 H2 H3 H4 H5 H6 H7.
  unfold extends, item_ids. by rewrite H1, H2, H3, H4, H5.
Qed.

Lemma extends_trans d1 d2 d3 : extends d1 d2 -> extends d2 d3 -> extends d1 d3.
Proof.
  intros (? & ? & ? & ? & ?) (? & ? & ? & ? & ?). unfold extends.
  split_and!; [congruence..| |]; by etrans.
Qed.

Lemma NoDup_snoc {A} (l : list A) x : NoDup l -> x ∉ l -> NoDup (l ++ [x]).
Proof.
  intros Hl Hx. apply NoDup_app. split_and!; [done| |apply NoDup_singleton].
  by intros y Hy ->%list_elem_of_singleton.
Qed.

Lemma next_id_notin ids : next_id ids ∉ ids.
Proof. intros H%next_id_fresh. lia. Qed.

Lemma fmap_snoc {A B} (f : A -> B) l x : f <$> (l ++ [x]) = (f <$> l) ++ [f x].
Proof. by rewrite fmap_app. Qed.

Lemma Forall_snoc {A} (P : A -> Prop) l x : Forall P l -> P x -> Forall P (l ++ [x]).
Proof. intros. apply Forall_app. split; [done|]. by constructor. Qed.

Lemma Forall_in_mono {A} (l : list A) (s t : list A) :
  s ⊆ t -> Forall (fun i => i ∈ s) l -> Forall (fun i => i ∈ t) l.
Proof. intros Hst Hl. eapply Forall_impl; [exact Hl|]. intros x. apply Hst. Qed.

Lemma item_dbInsert_ok d id d' :
  db_wf d -> item_dbInsert d = (id, d') ->
  db_wf d' /\ extends d d' /\ id ∈ item_ids d' /\ (id ∉ item_ids d) /\ (0 < id)%Z /\ rpm d' = rpm d.
Proof.
  intros Hwf [= <- <-]. pose proof (next_id_notin (item_ids d)) as Hn.
  pose proof (next_id_pos (item_ids d)) as Hp.
  assert (Hids : item_ids (on_item (fun t => t ++ [(next_id (item d).*1, 0%Z)]) d)
    = item_ids d ++ [next_id (item_ids d)]) by (unfold item_ids; simpl; by rewrite fmap_snoc).
  assert (Hsub : item_ids d ⊆ item_ids d ++ [next_id (item_ids d)]) by set_solver.
  destruct Hwf. split_and!; [|split_and!; [done..| |done]|rewrite Hids; set_solver|done|done|done].
  2: by rewrite Hids.
  split; rewrite ?Hids; try done.
  - by apply NoDup_snoc.
  - by apply Forall_snoc.
  - by eapply Forall_in_mono.
  - by eapply Forall_in_mono.
  - by eapply Forall_in_mono.
  - eapply Forall_impl; [exact wf_references0|]. intros row (? & ? & ?).
    split_and!; [done| |done]. by apply Hsub.
Qed.

Lemma rpm_select_Some r d id : rpm_select r d = Some id -> (id, r) ∈ rpm d.
Proof.
  unfold rpm_select. intros ([i r'] & Hh & ->)%fmap_Some. simpl.
  assert (Hin : (i, r') ∈ base.filter (fun row => snd row = r) (rpm d)).
  { destruct (base.filter _ _); simplify_eq/=. by left. }
  apply list_elem_of_filter in Hin as [<- ?]. done.
Qed.

Lemma rpm_select_None r d : rpm_select r d = None -> r ∉ (rpm d).*2.
Proof.
  unfold rpm_select. intros Hh. apply fmap_None in Hh. intros ([i r'] & -> & Hin)%list_elem_of_fmap.
  assert (Hx : (i, r') ∈ base.filter (fun row => snd row = r') (rpm d)) by by apply list_elem_of_filter.
  destruct (base.filter _ _); [by apply elem_of_nil in Hx|done].
Qed.

Lemma rpm_save_ok id r d id' d' :
  db_wf d -> (id = 0%Z \/ (id, r) ∈ rpm d) -> rpm_save id r d = (id', d') ->
  db_wf d' /\ extends d d' /\ (id', r) ∈ rpm d'.
Proof.
  intros Hwf Hid. unfold rpm_save. destruct (Z.eqb_spec id 0) as [->|Hne].
  2: { intros [= <- <-]. destruct Hid as [|Hid]; [done|]. by split_and!; [|apply extends_core|]. }
  unfold rpm_dbSelectOrInsert. destruct (rpm_select r d) as [i|] eqn:Hsel.
  { intros [= <- <-]. apply rpm_select_Some in Hsel. by split_and!; [|apply extends_core|]. }
  apply rpm_select_None in Hsel. unfold rpm_dbInsert.
  destruct (item_dbInsert d) as [i d1] eqn:Hins. apply item_dbInsert_ok in Hins as
    (Hwf1 & Hext & Hin & Hnot & Hpos & Hrpm); [|done]. intros [= <- <-].
  assert (Hi : i ∉ (rpm d1).*1).
  { rewrite Hrpm. intros Hi. destruct Hwf. rewrite Forall_forall in wf_rpm_items0. naive_solver. }
  split_and!.
  - destruct Hwf1. split; try done; simpl; rewrite ?fmap_snoc.
    + by apply NoDup_snoc.
    + apply NoDup_snoc; [done|]. by rewrite Hrpm.
    + by apply Forall_snoc.
  - eapply extends_trans; [exact Hext|]. split_and!; [done..|]. simpl. set_solver.
  - simpl. set_solver.
Qed.

Lemma save_members_core save owner ms d ms' d' :
  (forall m d m' d', save owner m d = (m', d') -> core d' = core d) ->
  save_members save owner ms d = (ms', d') -> core d' = core d.
Proof.
  intros Hs. revert d ms' d'. induction ms as [|m ms IH]; intros d ms' d'; simpl; [by intros [= <- <-]|].
  destruct (save owner m d) as [m1 d1] eqn:H1. destruct (save_members save owner ms d1) as [ms2 d2] eqn:H2.
  intros [= <- <-]. apply Hs in H1. apply IH in H2. congruence.
Qed.

Lemma package_save_core owner m d m' d' : package_save owner m d = (m', d') -> core d' = core d.
Proof. unfold package_save. repeat case_match; intros [= <- <-]; done. Qed.
Lemma envgroup_save_core owner m d m' d' : envgroup_save owner m d = (m', d') -> core d' = core d.
Proof. unfold envgroup_save. repeat case_match; intros [= <- <-]; done. Qed.

(** An object that was saved has the id of a row. *)
Definition object_ok (d : db) (o : ItemObj) : Prop :=
  match it_data o with
  | D_RPM r => it_id o = 0%Z \/ (it_id o, r) ∈ rpm d
  | _ => it_id o = 0%Z \/ it_id o ∈ item_ids d
  end.

Lemma group_dbInsert_wf d i d1 c :
  db_wf d -> item_dbInsert d = (i, d1) -> db_wf (on_group (fun t => t ++ [comps_row i c]) d1).
Proof.
  intros Hwf Hins. apply item_dbInsert_ok in Hins as (Hwf1 & _ & Hin & _); [|done].
  destruct Hwf1. split; try done. simpl. rewrite fmap_snoc. by apply Forall_snoc.
Qed.
Lemma environment_dbInsert_wf d i d1 c :
  db_wf d -> item_dbInsert d = (i, d1) -> db_wf (on_environment (fun t => t ++ [comps_row i c]) d1).
Proof.
  intros Hwf Hins. apply item_dbInsert_ok in Hins as (Hwf1 & _ & Hin & _); [|done].
  destruct Hwf1. split; try done. simpl. rewrite fmap_snoc. by apply Forall_snoc.
Qed.

(** Saving an item, new or saved before, keeps the tables well formed and
    the rows they have; the object gets the id of a row of its own data, and a
    package that is stored already is not stored again. *)
Lemma item_save_ok o d o' d' :
  db_wf d -> object_ok d o -> item_save o d = (o', d') ->
  db_wf d' /\ extends d d' /\ object_ok d' o' /\ it_id o' ∈ item_ids d'
  /\ (forall r, it_data o = D_RPM r -> it_data o' = D_RPM r /\ (it_id o', r) ∈ rpm d'
        /\ (r ∈ (rpm d).*2 -> d' = d)).
Proof.
  intros Hwf Ho. unfold item_save. destruct o as [id [r|c|c]]; simpl in *.
  - destruct (rpm_save id r d) as [id' d1] eqn:Hs. intros [= <- <-].
    pose proof Hs as Hs'. apply rpm_save_ok in Hs as (Hwf1 & Hext & Hin); [|done..].
    split_and!; [done..|by right| |].
    + destruct Hwf1. rewrite Forall_forall in wf_rpm_items0. apply wf_rpm_items0.
      by apply (list_elem_of_fmap_2 fst) in Hin.
    + intros r' [= <-]. split_and!; [done..|]. intros Hr. unfold rpm_save in Hs'.
      case_match; [|by injection Hs']. unfold rpm_dbSelectOrInsert in Hs'.
      destruct (rpm_select r d) eqn:Hsel; [by injection Hs'|]. by apply rpm_select_None in Hsel.
  - unfold group_save. destruct (Z.eqb_spec id 0) as [->|Hne].
    + destruct (item_dbInsert d) as [i d1] eqn:Hins.
      pose proof (group_dbInsert_wf d i d1 c Hwf Hins) as Hwf1.
      apply item_dbInsert_ok in Hins as (_ & Hext & Hin & _); [|done].
      destruct (save_members _ _ _ _) as [ms d2] eqn:Hm. intros [= <- <-].
      apply save_members_core in Hm; [|apply package_save_core].
      pose proof (extends_core _ _ Hm) as Hext2.
      assert (Hin2 : i ∈ item_ids d2) by (by apply Hext2). split_and!; try done.
      * by eapply db_wf_core.
      * eapply extends_trans; [exact Hext|]. exact Hext2.
      * by right.
    + destruct (save_members _ _ _ _) as [ms d2] eqn:Hm. intros [= <- <-].
      apply save_members_core in Hm; [|apply package_save_core].
      pose proof (extends_core _ _ Hm) as Hext2. destruct Ho as [|Ho]; [done|].
      assert (Hin2 : id ∈ item_ids d2) by (by apply Hext2). split_and!; try done.
      * by eapply db_wf_core.
      * by right.
  - unfold environment_save. destruct (Z.eqb_spec id 0) as [->|Hne].
    + destruct (item_dbInsert d) as [i d1] eqn:Hins.
      pose proof (environment_dbInsert_wf d i d1 c Hwf Hins) as Hwf1.
      apply item_dbInsert_ok in Hins as (_ & Hext & Hin & _); [|done].
      destruct (save_members _ _ _ _) as [ms d2] eqn:Hm. intros [= <- <-].
      apply save_members_core in Hm; [|apply envgroup_save_core].
      pose proof (extends_core _ _ Hm) as Hext2.
      assert (Hin2 : i ∈ item_ids d2) by (by apply Hext2). split_and!; try done.
      * by eapply db_wf_core.
      * eapply extends_trans; [exact Hext|]. exact Hext2.
      * by right.
    + destruct (save_members _ _ _ _) as [ms d2] eqn:Hm. intros [= <- <-].
      apply save_members_core in Hm; [|apply envgroup_save_core].
      pose proof (extends_core _ _ Hm) as Hext2. destruct Ho as [|Ho]; [done|].
      assert (Hin2 : id ∈ item_ids d2) by (by apply Hext2). split_and!; try done.
      * by eapply db_wf_core.
      * by right.
Qed.

(** ** The reason of a package *)

Lemma order_desc_first_spec {A} (key : A -> Z) rows :
  match order_desc_first key rows with
  | Some b => b ∈ rows /\ Forall (fun y => (key y <= key b)%Z) rows
  | None => rows = []
  end.
Proof.
  induction rows as [|x rows IH]; simpl; [done|].
  destruct (order_desc_first key rows) as [b|].
  - destruct IH as [Hin Hle]. destruct (Z.leb_spec (key b) (key x)).
    + split; [by left|]. constructor; [lia|]. eapply Forall_impl; [exact Hle|]. simpl. lia.
    + split; [by right|]. constructor; [lia|done].
  - subst. split; [by left|]. by repeat constructor.
Qed.

Lemma elem_of_join_rpm d ti r :
  (ti, r) ∈ join_rpm d <-> ti ∈ trans_item d /\ (tir_item ti, r) ∈ rpm d.
Proof.
  unfold join_rpm. rewrite list_elem_of_bind. split.
  - intros (ti' & Hin & Hti). apply list_elem_of_bind in Hin as ([i r'] & Hin & Hrow).
    apply list_elem_of_singleton in Hin as [= -> ->].
    apply list_elem_of_filter in Hrow as [Hi Hrow]. simpl in *. by subst.
  - intros [Hti Hr]. exists ti. split; [|done]. apply list_elem_of_bind. exists (tir_item ti, r).
    split; [by apply list_elem_of_singleton|]. by apply list_elem_of_filter.
Qed.

Lemma elem_of_reason_rows name arch d ti r :
  (ti, r) ∈ reason_rows name arch d <->
  trans_done d (tir_trans ti) /\ rpm_action_listed (tir_action ti) = true /\ r_name r = name
  /\ r_arch r = arch /\ ti ∈ trans_item d /\ (tir_item ti, r) ∈ rpm d.
Proof.
  unfold reason_rows. rewrite list_elem_of_filter, elem_of_join_rpm. simpl. naive_solver.
Qed.

(** The reason of an installed package is the one of its last record: where
    a finished transaction recorded an action of the package, and every other
    such record of the name and architecture is in a transaction with a lower
    id, the resolved reason is the recorded one, and unknown when the action
    was a removal. *)
Lemma reason_of_last_record d row r :
  db_wf d -> row ∈ trans_item d -> (tir_item row, r) ∈ rpm d -> trans_done d (tir_trans row) ->
  rpm_action_listed (tir_action row) = true -> r_arch r <> [] ->
  (forall row' r', row' ∈ trans_item d -> row' <> row -> (tir_item row', r') ∈ rpm d ->
     r_name r' = r_name r -> r_arch r' = r_arch r -> rpm_action_listed (tir_action row') = true ->
     trans_done d (tir_trans row') -> (tir_trans row' < tir_trans row)%Z) ->
  resolveTransactionItemReason (r_name r) (r_arch r) d
  = if bool_decide (tir_action row = REMOVE) then R_UNKNOWN else tir_reason row.
Proof.
  intros Hwf Hrow Hr Hdone Hact Harch Hlast. unfold resolveTransactionItemReason.
  rewrite bool_decide_eq_true_2 by done. unfold reason_query.
  assert (Hin : (row, r) ∈ reason_rows (r_name r) (r_arch r) d) by (apply elem_of_reason_rows; done).
  pose proof (order_desc_first_spec (fun x => tir_trans x.1) (reason_rows (r_name r) (r_arch r) d)) as Hspec.
  destruct (order_desc_first _ _) as [[row' r']|]; [|rewrite Hspec in Hin; by apply elem_of_nil in Hin].
  destruct Hspec as [Hin' Hle]. rewrite Forall_forall in Hle. specialize (Hle _ Hin). simpl in *.
  apply elem_of_reason_rows in Hin' as (Hd' & Ha' & Hn' & Har' & Hti' & Hr').
  destruct (decide (row' = row)) as [->|Hne]; [done|].
  specialize (Hlast row' r' Hti' Hne Hr' Hn' Har' Ha' Hd'). lia.
Qed.
End SwdbDb.
