(* ===== verification/Swdb.v ===== *)
(** * Swdb: recording a transaction
    ([dnf-4/libdnf/transaction/{Swdb, TransactionItem, private/Transaction,
    private/Repo}.cpp])

    A [Swdb] has at most one transaction in progress: it is created by
    [initTransaction], gets items, is written by [beginTransaction], its items
    are marked as done one by one, [endTransaction] writes its result and
    [closeTransaction] drops it. An operation returns the state it leaves, also
    when it throws. *)

From S2P Require Import Prelude Numeric Merged SwdbDb.
Import Merged SwdbDb.

Module Swdb.

(** ** State *)

(** A transaction item of the transaction in progress; its identity is its
    position, [x_replaced] the items added by [addReplacedBy]. *)
Record TItem := mkTItem {
  x_id : Z;
  x_item : nat;
  x_repoid : cstr;
  x_action : TransactionItemAction;
  x_reason : TransactionItemReason;
  x_state : TransactionItemState;
  x_replaced : list nat;
}.

Record Trans := mkProgress {
  p_row : TransRow;
  p_items : list TItem;
  p_software : list nat;
}.

Record Swdb := mkSwdb {
  database : db;
  objects : nat -> ItemObj;
  repo_cache : gmap cstr Z;
  transactionInProgress : option Trans;
  itemsInProgress : gmap cstr nat;
}.

Inductive swdb_error :=
| InProgress
| NotInProgress
| AlreadyBegan
| StateNotSet (item : cstr)
| Unsaved
| NullPointer.

#[global] Instance swdb_error_eq_dec : EqDecision swdb_error.
Proof. solve_decision. Defined.

Definition set_database d s :=
  mkSwdb d (objects s) (repo_cache s) (transactionInProgress s) (itemsInProgress s).
Definition set_objects o s :=
  mkSwdb (database s) o (repo_cache s) (transactionInProgress s) (itemsInProgress s).
Definition set_cache c s :=
  mkSwdb (database s) (objects s) c (transactionInProgress s) (itemsInProgress s).
Definition set_trans t s :=
  mkSwdb (database s) (objects s) (repo_cache s) t (itemsInProgress s).
Definition set_in_progress m s :=
  mkSwdb (database s) (objects s) (repo_cache s) (transactionInProgress s) m.

Definition upd_object (l : nat) (o : ItemObj) (objs : nat -> ItemObj) : nat -> ItemObj :=
  fun x => if x =? l then o else objs x.

Definition set_row row t := mkProgress row (p_items t) (p_software t).
Definition set_items items t := mkProgress (p_row t) items (p_software t).

(** ** Saving objects *)

(** [item->save()] of a shared object. *)
Definition save_object (l : nat) (s : Swdb) : Swdb :=
  let '(o, d) := item_save (objects s l) (database s) in
  set_objects (upd_object l o (objects s)) (set_database d s).

(** [Repo::getCached]: the cache outlives the database it was filled from. *)
Definition getCached (repoid : cstr) (s : Swdb) : Z * Swdb :=
  match repo_cache s !! repoid with
  | Some id => (id, s)
  | None =>
      let '(id, d) := repo_dbSelectOrInsert repoid (database s) in
      (id, set_cache (<[repoid := id]> (repo_cache s)) (set_database d s))
  end.

(** [TransactionItem::save] for an item of transaction [tid]: [dbInsert] gives
    it an id, [dbUpdate] rewrites its row. *)
Definition item_row (id tid repo : Z) (s : Swdb) (x : TItem) : TItemRow :=
  mkTItemRow id tid (it_id (objects s (x_item x))) repo (x_action x) (x_reason x) (x_state x).
Definition titem_save (tid : Z) (x : TItem) (s : Swdb) : TItem * Swdb :=
  let s := save_object (x_item x) s in
  let '(repo, s) := getCached (x_repoid x) s in
  if (x_id x =? 0)%Z then
    let id := next_id (tir_id <$> trans_item (database s)) in
    (mkTItem id (x_item x) (x_repoid x) (x_action x) (x_reason x) (x_state x) (x_replaced x),
     set_database (on_trans_item (fun t => t ++ [item_row id tid repo s x]) (database s)) s)
  else
    (x, set_database (on_trans_item (fun t => (fun row =>
          if (tir_id row =? x_id x)%Z then item_row (x_id x) tid repo s x else row) <$> t)
          (database s)) s).

Fixpoint save_items (tid : Z) (xs : list TItem) (s : Swdb) : list TItem * Swdb :=
  match xs with
  | [] => ([], s)
  | x :: xs =>
      let '(x, s) := titem_save tid x s in
      let '(xs, s) := save_items tid xs s in (x :: xs, s)
  end.

(** [saveReplacedBy] of every item, after all have ids. *)
Definition replaced_rows (xs : list TItem) : list (Z * Z) :=
  x ← xs; r ← x_replaced x;
  match xs !! r with Some y => [(x_id x, x_id y)] | None => [] end.
Definition save_replaced (xs : list TItem) (d : db) : db :=
  on_replaced_by (fun t => foldl (fun t row => insert_or_replace row t) t (replaced_rows xs)) d.

(** [saveState]. *)
Definition save_state (x : TItem) (d : db) : db :=
  on_trans_item (fun t => (fun row =>
    if (tir_id row =? x_id x)%Z
    then mkTItemRow (tir_id row) (tir_trans row) (tir_item row) (tir_repo row)
           (tir_action row) (tir_reason row) (x_state x)
    else row) <$> t) d.

(** ** [swdb_private::Transaction] *)

(** [getItems]: the items in memory, or else those of the database. They are
    only looked at for their packages and reasons. *)
Definition software_rows (software : list nat) (tid : Z) (s : Swdb) : Swdb :=
  foldl (fun s l =>
    let s := save_object l s in
    set_database (on_trans_with (insert_or_replace (tid, it_id (objects s l))) (database s)) s) s software.

Definition with_id (id : Z) (r : TransRow) : TransRow :=
  mkTransRow id (tr_dt_begin r) (tr_dt_end r) (tr_version_begin r) (tr_version_end r)
    (tr_releasever r) (tr_user r) (tr_cmdline r) (tr_state r).
Definition with_state (st : TransactionState) (r : TransRow) : TransRow :=
  mkTransRow (tr_id r) (tr_dt_begin r) (tr_dt_end r) (tr_version_begin r) (tr_version_end r)
    (tr_releasever r) (tr_user r) (tr_cmdline r) st.

(** [dbInsert], called without an id. *)
Definition trans_dbInsert (t : Trans) (s : Swdb) : Trans * Swdb :=
  let id := next_id (tr_id <$> trans (database s)) in
  let row := with_id id (p_row t) in
  let s := set_database (on_trans (fun rows => rows ++ [row]) (database s)) s in
  (set_row row t, software_rows (p_software t) id s).

Definition trans_dbUpdate (row : TransRow) (d : db) : db :=
  on_trans (fun rows => (fun r => if (tr_id r =? tr_id row)%Z then row else r) <$> rows) d.

Definition trans_begin (t : Trans) (s : Swdb) : Trans * Swdb * result swdb_error unit :=
  if negb (tr_id (p_row t) =? 0)%Z then (t, s, Err AlreadyBegan)
  else
    let '(t, s) := trans_dbInsert t s in
    let '(xs, s) := save_items (tr_id (p_row t)) (p_items t) s in
    (set_items xs t, set_database (save_replaced xs (database s)) s, Ok tt).

(** The first item whose state is not set. *)
Fixpoint unset_item (xs : list TItem) (s : Swdb) : option cstr :=
  match xs with
  | [] => None
  | x :: xs => if bool_decide (x_state x = TIS_UNKNOWN) then Some (toStr (objects s (x_item x)))
               else unset_item xs s
  end.

(** [finish]: the states of the items are written before they are checked. *)
Definition trans_finish (st : TransactionState) (t : Trans) (s : Swdb)
  : Trans * Swdb * result swdb_error unit :=
  let s := set_database (foldl (fun d x => save_state x d) (database s) (p_items t)) s in
  match unset_item (p_items t) s with
  | Some i => (t, s, Err (StateNotSet i))
  | None =>
      let t := set_row (with_state st (p_row t)) t in
      (t, set_database (trans_dbUpdate (p_row t) (database s)) s, Ok tt)
  end.

(** [addItem]: an item with the same text, repository and action is used again,
    with the more significant reason. *)
Definition same_item (s : Swdb) (l : nat) (repoid : cstr) (a : TransactionItemAction) (x : TItem) : bool :=
  bool_decide (toStr (objects s (x_item x)) = toStr (objects s l))
  && bool_decide (x_repoid x = repoid) && bool_decide (x_action x = a).
Definition set_reason (r : TransactionItemReason) (x : TItem) : TItem :=
  mkTItem (x_id x) (x_item x) (x_repoid x) (x_action x) r (x_state x) (x_replaced x).
Definition set_item_state (st : TransactionItemState) (x : TItem) : TItem :=
  mkTItem (x_id x) (x_item x) (x_repoid x) (x_action x) (x_reason x) st (x_replaced x).

Fixpoint add_item (s : Swdb) (l : nat) (repoid : cstr) (a : TransactionItemAction)
    (r : TransactionItemReason) (xs : list TItem) : list TItem * nat :=
  match xs with
  | [] => ([mkTItem 0 l repoid a r TIS_UNKNOWN []], 0)
  | x :: xs =>
      if same_item s l repoid a x
      then ((if reason_gt r (x_reason x) then set_reason r x else x) :: xs, 0)
      else let '(xs, i) := add_item s l repoid a r xs in (x :: xs, S i)
  end.

(** ** [Swdb] *)

Definition new_progress : Trans :=
  mkProgress (mkTransRow 0 0 0 [] [] [] 0 [] TS_UNKNOWN) [] [].

Definition initTransaction (s : Swdb) : Swdb * result swdb_error unit :=
  match transactionInProgress s with
  | Some _ => (s, Err InProgress)
  | None => (set_in_progress ∅ (set_trans (Some new_progress) s), Ok tt)
  end.

(** The operations that need a transaction in progress. *)
Definition in_progress {A} (f : Trans -> Swdb -> Swdb * result swdb_error A) (s : Swdb)
  : Swdb * result swdb_error A :=
  match transactionInProgress s with
  | None => (s, Err NotInProgress)
  | Some t => f t s
  end.

(** The packages of the items by NEVRA; a later item replaces an earlier one. *)
Fixpoint index_items (s : Swdb) (i : nat) (xs : list TItem) (m : gmap cstr nat) : gmap cstr nat :=
  match xs with
  | [] => m
  | x :: xs =>
      index_items s (S i) xs
        (match it_data (objects s (x_item x)) with
         | D_RPM r => <[getNEVRA r := i]> m
         | _ => m
         end)
  end.

Definition beginTransaction (dtBegin : Z) (rpmdbVersionBegin cmdline : cstr) (userId : Z)
  : Swdb -> Swdb * result swdb_error Z :=
  in_progress (fun t s =>
    let r := p_row t in
    let t := set_row (mkTransRow (tr_id r) dtBegin (tr_dt_end r) rpmdbVersionBegin (tr_version_end r)
                        (tr_releasever r) userId cmdline (tr_state r)) t in
    let '(t, s, res) := trans_begin t s in
    let s := set_trans (Some t) s in
    match res with
    | Err e => (s, Err e)
    | Ok _ => (set_in_progress (index_items s 0 (p_items t) (itemsInProgress s)) s, Ok (tr_id (p_row t)))
    end).

Definition endTransaction (dtEnd : Z) (rpmdbVersionEnd : cstr) (state : TransactionState)
  : Swdb -> Swdb * result swdb_error Z :=
  in_progress (fun t s =>
    let r := p_row t in
    let t := set_row (mkTransRow (tr_id r) (tr_dt_begin r) dtEnd (tr_version_begin r) rpmdbVersionEnd
                        (tr_releasever r) (tr_user r) (tr_cmdline r) (tr_state r)) t in
    let '(t, s, res) := trans_finish state t s in
    let s := set_trans (Some t) s in
    match res with Err e => (s, Err e) | Ok _ => (s, Ok (tr_id (p_row t))) end).

Definition closeTransaction : Swdb -> Swdb * result swdb_error Z :=
  in_progress (fun t s => (set_in_progress ∅ (set_trans None s), Ok (tr_id (p_row t)))).

Definition addItem (l : nat) (repoid : cstr) (a : TransactionItemAction) (r : TransactionItemReason)
  : Swdb -> Swdb * result swdb_error nat :=
  in_progress (fun t s =>
    let '(xs, i) := add_item s l repoid a r (p_items t) in
    (set_trans (Some (set_items xs t)) s, Ok i)).

(** [itemsInProgress[nevra]] of an unknown name is a null pointer. *)
Definition setItemDone (nevra : cstr) : Swdb -> Swdb * result swdb_error unit :=
  in_progress (fun t s =>
    match itemsInProgress s !! nevra with
    | Some i =>
        match p_items t !! i with
        | Some x =>
            let x := set_item_state TIS_DONE x in
            let s := set_trans (Some (set_items (<[i := x]> (p_items t)) t)) s in
            (set_database (save_state x (database s)) s, Ok tt)
        | None => (s, Err NullPointer)
        end
    | None => (s, Err NullPointer)
    end).

Definition setReleasever (value : cstr) : Swdb -> Swdb * result swdb_error unit :=
  in_progress (fun t s =>
    let r := p_row t in
    (set_trans (Some (set_row (mkTransRow (tr_id r) (tr_dt_begin r) (tr_dt_end r) (tr_version_begin r)
       (tr_version_end r) value (tr_user r) (tr_cmdline r) (tr_state r)) t)) s, Ok tt)).

Definition addConsoleOutputLine (fd : Z) (line : cstr) : Swdb -> Swdb * result swdb_error unit :=
  in_progress (fun t s =>
    if (tr_id (p_row t) =? 0)%Z then (s, Err Unsaved)
    else (set_database (on_console (fun rows => rows ++ [(tr_id (p_row t), (fd, line))]) (database s)) s, Ok tt)).

(** [addSoftwarePerformedWith] of the transaction in progress: a set. *)
Definition addSoftwarePerformedWith (l : nat) (t : Trans) : Trans :=
  mkProgress (p_row t) (p_items t) (if bool_decide (l ∈ p_software t) then p_software t else p_software t ++ [l]).

(** With [maxTransactionId] -2 the items in memory come first. *)
Definition resolveRPMTransactionItemReason (name arch : cstr) (maxTransactionId : Z) (s : Swdb)
  : TransactionItemReason :=
  let in_memory :=
    if (maxTransactionId =? -2)%Z then
      match transactionInProgress s with
      | Some t =>
          head (x ← p_items t;
                match it_data (objects s (x_item x)) with
                | D_RPM r => if bool_decide (r_name r = name /\ r_arch r = arch) then [x_reason x] else []
                | _ => []
                end)
      | None => None
      end
    else None in
  match in_memory with
  | Some r => r
  | None => resolveTransactionItemReason name arch (database s)
  end.

(** The ids of [listTransactions], and of [getLastTransaction]. *)
Definition getLastTransaction (s : Swdb) : option TransRow :=
  order_desc_first tr_id (trans (database s)).
Definition listTransactions (s : Swdb) : list Z :=
  merge_sort Z.le (tr_id <$> trans (database s)).

(** [resetDatabase]: a new file; the cache of the repositories stays. *)
Definition resetDatabase (s : Swdb) : Swdb := set_database empty_db s.

(** ** Every sequence of calls *)

(** The calls of a client: creating an item object, changing an object in
    memory, and the operations; what a call throws does not stop the client. *)
Inductive call :=
| CObject (l : nat) (data : ItemData)
| CInit
| CAdd (l : nat) (repoid : cstr) (a : TransactionItemAction) (r : TransactionItemReason)
| CSoftware (l : nat)
| CReplaced (i j : nat)
| CBegin (dtBegin : Z) (rpmdbVersionBegin cmdline : cstr) (userId : Z)
| CDone (nevra : cstr)
| CReleasever (value : cstr)
| CConsole (fd : Z) (line : cstr)
| CEnd (dtEnd : Z) (rpmdbVersionEnd : cstr) (state : TransactionState)
| CClose.

Definition add_replaced (i j : nat) (t : Trans) : Trans :=
  set_items (alter (fun x => mkTItem (x_id x) (x_item x) (x_repoid x) (x_action x) (x_reason x)
    (x_state x) (x_replaced x ++ [j])) i (p_items t)) t.

Definition run_call (s : Swdb) (c : call) : Swdb :=
  match c with
  | CObject l data => set_objects (upd_object l (mkItem 0 data) (objects s)) s
  | CInit => fst (initTransaction s)
  | CAdd l repoid a r => fst (addItem l repoid a r s)
  | CSoftware l => set_trans (addSoftwarePerformedWith l <$> transactionInProgress s) s
  | CReplaced i j => set_trans (add_replaced i j <$> transactionInProgress s) s
  | CBegin dt v cmd u => fst (beginTransaction dt v cmd u s)
  | CDone nevra => fst (setItemDone nevra s)
  | CReleasever v => fst (setReleasever v s)
  | CConsole fd line => fst (addConsoleOutputLine fd line s)
  | CEnd dt v st => fst (endTransaction dt v st s)
  | CClose => fst (closeTransaction s)
  end.
Definition run_calls (s : Swdb) (cs : list call) : Swdb := foldl run_call s cs.

Definition new_swdb : Swdb := mkSwdb empty_db (fun _ => mkItem 0 (D_RPM (mkRPM [] 0 [] [] []))) ∅ None ∅.

(** *** The invariant *)

Definition base_wf (s : Swdb) : Prop :=
  db_wf (database s) /\ (forall l, object_ok (database s) (objects s l))
  /\ map_Forall (fun repoid id => (id, repoid) ∈ repo (database s)) (repo_cache s).

Definition titem_ok (d : db) (x : TItem) : Prop := x_id x = 0%Z \/ x_id x ∈ titem_ids d.

Definition progress_ok (d : db) (t : Trans) : Prop :=
  (tr_id (p_row t) = 0%Z \/ tr_id (p_row t) ∈ trans_ids d) /\ Forall (titem_ok d) (p_items t).

Definition swdb_wf (s : Swdb) : Prop :=
  base_wf s /\ (forall t, transactionInProgress s = Some t -> progress_ok (database s) t).

(** What saving keeps of the database: its transactions and item rows. *)
Definition keeps (d d' : db) : Prop := trans d' = trans d /\ titem_ids d ⊆ titem_ids d'.

Lemma keeps_trans d1 d2 d3 : keeps d1 d2 -> keeps d2 d3 -> keeps d1 d3.
Proof. intros [? ?] [? ?]. split; [congruence|by etrans]. Qed.

Lemma object_ok_mono d d' o : extends d d' -> object_ok d o -> object_ok d' o.
Proof.
  intros (_ & _ & _ & Hi & Hr). unfold object_ok.
  destruct (it_data o); (intros [H|H]; [by left|right]); [by apply Hr|by apply Hi|by apply Hi].
Qed.

Lemma extends_keeps d d' : extends d d' -> keeps d d'.
Proof. intros (Ht & _ & Hti & _). split; [done|]. unfold titem_ids. by rewrite Hti. Qed.

Lemma save_object_ok l s :
  base_wf s ->
  base_wf (save_object l s) /\ extends (database s) (database (save_object l s))
  /\ it_id (objects (save_object l s) l) ∈ item_ids (database (save_object l s))
  /\ repo_cache (save_object l s) = repo_cache s.
Proof.
  intros (Hwf & Hobj & Hcache). unfold save_object.
  destruct (item_save (objects s l) (database s)) as [o d] eqn:Hs.
  destruct (item_save_ok _ _ _ _ Hwf (Hobj l) Hs) as (Hwf' & Hext & Ho & Hin & _). simpl.
  assert (Hl : upd_object l o (objects s) l = o) by (unfold upd_object; by rewrite Nat.eqb_refl).
  rewrite Hl. split_and!; [|done..]. split_and!; [done| |].
  - intros x. simpl. unfold upd_object. case_match; [done|]. by eapply object_ok_mono.
  - destruct Hext as (_ & Hrepo & _). simpl. by rewrite Hrepo.
Qed.

Lemma repo_dbSelectOrInsert_ok repoid d id d' :
  db_wf d -> repo_dbSelectOrInsert repoid d = (id, d') ->
  db_wf d' /\ (id, repoid) ∈ repo d' /\ repo d ⊆ repo d'
  /\ trans d' = trans d /\ item d' = item d /\ trans_item d' = trans_item d /\ rpm d' = rpm d.
Proof.
  intros Hwf. unfold repo_dbSelectOrInsert.
  destruct (fst <$> _) as [i|] eqn:Hsel.
  - intros [= <- <-]. apply fmap_Some in Hsel as ([i' n] & Hh & ->).
    assert (Hin : (i', n) ∈ base.filter (fun row => snd row = repoid) (repo d)).
    { destruct (base.filter _ _); simplify_eq/=. by left. }
    apply list_elem_of_filter in Hin as [<- Hin]. by split_and!.
  - intros [= <- <-]. apply fmap_None in Hsel.
    assert (Hn : repoid ∉ (repo d).*2).
    { intros ([i n] & -> & Hin)%list_elem_of_fmap.
      assert (Hx : (i, n) ∈ base.filter (fun row => snd row = n) (repo d)) by by apply list_elem_of_filter.
      destruct (base.filter _ _); [by apply elem_of_nil in Hx|done]. }
    split_and!; try done; simpl; [|set_solver..].
    destruct Hwf. split; try done; simpl; rewrite ?fmap_snoc.
    + apply NoDup_snoc; [done|]. apply next_id_notin.
    + by apply NoDup_snoc.
    + eapply Forall_impl; [exact wf_references0|]. intros row (? & ? & ?). set_solver.
Qed.

Lemma getCached_ok repoid s id s' :
  base_wf s -> getCached repoid s = (id, s') ->
  base_wf s' /\ id ∈ (repo (database s')).*1 /\ keeps (database s) (database s')
  /\ item (database s') = item (database s) /\ objects s' = objects s.
Proof.
  intros (Hwf & Hobj & Hcache). unfold getCached. destruct (repo_cache s !! repoid) as [i|] eqn:Hc.
  - intros [= <- <-]. pose proof (map_Forall_lookup_1 _ _ _ _ Hcache Hc) as Hin.
    split_and!; try done. by apply (list_elem_of_fmap_2 fst) in Hin.
  - destruct (repo_dbSelectOrInsert repoid (database s)) as [i d] eqn:Hr. intros [= <- <-].
    apply repo_dbSelectOrInsert_ok in Hr as (Hwf' & Hin & Hsub & Ht & Hi & Hti & Hrpm); [|done].
    simpl. split_and!; try done; [split_and!; [done|..]|..].
    + intros l. specialize (Hobj l). unfold object_ok, item_ids in *. simpl. by rewrite Hi, Hrpm.
    + simpl. apply map_Forall_insert_2; [done|]. eapply map_Forall_impl; [exact Hcache|].
      intros r j Hj. by apply Hsub.
    + by apply (list_elem_of_fmap_2 fst) in Hin.
    + split; [done|]. unfold titem_ids. by rewrite Hti.
Qed.

Lemma object_ok_item d d' o : rpm d' = rpm d -> item d' = item d -> object_ok d o -> object_ok d' o.
Proof. intros Hr Hi. unfold object_ok, item_ids. by rewrite Hr, Hi. Qed.

Lemma map_row_ids (f : TItemRow -> TItemRow) (rows : list TItemRow) :
  (forall row, tir_id (f row) = tir_id row) -> (tir_id <$> (f <$> rows)) = (tir_id <$> rows).
Proof. intros Hf. rewrite <-list_fmap_compose. apply list_fmap_ext. intros i row _. apply Hf. Qed.

(** Changing rows of [trans_item] without changing their ids, to rows with
    references that lead somewhere. *)
Lemma on_trans_item_wf d f :
  db_wf d -> (forall row, tir_id (f row) = tir_id row) ->
  (forall row, row ∈ trans_item d -> tir_trans (f row) ∈ trans_ids d
     /\ tir_item (f row) ∈ item_ids d /\ tir_repo (f row) ∈ (repo d).*1) ->
  db_wf (on_trans_item (fun t => f <$> t) d).
Proof.
  intros [] Hf Hr. split; unfold titem_ids in *; simpl; rewrite ?map_row_ids; try done.
  apply Forall_fmap, Forall_forall. intros row Hrow. apply Hr. done.
Qed.

(** Appending a row with the next id. *)
Lemma append_row_wf d row :
  db_wf d -> tir_id row = next_id (titem_ids d) ->
  tir_trans row ∈ trans_ids d -> tir_item row ∈ item_ids d -> tir_repo row ∈ (repo d).*1 ->
  db_wf (on_trans_item (fun t => t ++ [row]) d)
  /\ titem_ids (on_trans_item (fun t => t ++ [row]) d) = titem_ids d ++ [tir_id row].
Proof.
  intros Hwf Hid Ht Hi Hr.
  assert (Hids : titem_ids (on_trans_item (fun t => t ++ [row]) d) = titem_ids d ++ [tir_id row])
    by (unfold titem_ids; simpl; by rewrite fmap_snoc).
  split; [|done]. destruct Hwf. split; rewrite ?Hids; try done.
  - apply NoDup_snoc; [done|]. rewrite Hid. apply next_id_notin.
  - apply Forall_snoc; [done|]. rewrite Hid. apply next_id_pos.
  - simpl. by apply Forall_snoc.
Qed.

Lemma titem_save_ok tid x s x' s' :
  base_wf s -> tid ∈ trans_ids (database s) -> titem_ok (database s) x ->
  titem_save tid x s = (x', s') ->
  base_wf s' /\ keeps (database s) (database s') /\ titem_ok (database s') x'.
Proof.
  intros Hs Htid Hx. unfold titem_save.
  destruct (save_object_ok (x_item x) s Hs) as (Hs1 & Hext1 & Hit & _).
  set (s1 := save_object (x_item x) s) in *. pose proof (extends_keeps _ _ Hext1) as Hk1.
  destruct (getCached (x_repoid x) s1) as [rid s2] eqn:Hc.
  apply getCached_ok in Hc as (Hs2 & Hrid & Hk2 & Hi2 & Ho2); [|done].
  pose proof (keeps_trans _ _ _ Hk1 Hk2) as [Htr Hti].
  assert (Htid2 : tid ∈ trans_ids (database s2)) by (unfold trans_ids; by rewrite Htr).
  assert (Hit2 : it_id (objects s2 (x_item x)) ∈ item_ids (database s2))
    by (rewrite Ho2; unfold item_ids; by rewrite Hi2).
  destruct Hs2 as (Hwf2 & Hobj2 & Hcache2).
  destruct (Z.eqb_spec (x_id x) 0) as [Hz|Hnz]; intros [= <- <-].
  - destruct (append_row_wf (database s2) (item_row (next_id (titem_ids (database s2))) tid rid s2 x))
      as [Hwf3 Hids]; [done..|]. simpl in Hids.
    split_and!.
    + split_and!; [exact Hwf3|intros l; by eapply object_ok_item; [..|apply Hobj2]|done].
    + split; [done|]. etrans; [exact Hti|]. intros i Hi. unfold keeps in *. simpl.
      unfold titem_ids in *. simpl. rewrite fmap_snoc. set_solver.
    + right. simpl. unfold titem_ids. simpl. rewrite fmap_snoc. set_solver.
  - destruct Hx as [|Hx]; [done|].
    set (f := fun row => if (tir_id row =? x_id x)%Z then item_row (x_id x) tid rid s2 x else row).
    assert (Hf : forall row, tir_id (f row) = tir_id row).
    { intros row. unfold f. case_match eqn:E; [|done]. apply Z.eqb_eq in E. by rewrite E. }
    split_and!.
    + split_and!; [|intros l; by eapply object_ok_item; [..|apply Hobj2]|done].
      apply on_trans_item_wf; [done..|]. intros row Hrow. unfold f. case_match; [done|].
      destruct Hwf2. rewrite Forall_forall in wf_references0. by apply wf_references0.
    + split; [done|]. unfold titem_ids in *. simpl. fold f. by rewrite map_row_ids.
    + right. unfold titem_ids in *. simpl. fold f. rewrite map_row_ids by done. by apply Hti.
Qed.

Lemma titem_ok_mono d d' x : keeps d d' -> titem_ok d x -> titem_ok d' x.
Proof. intros [_ Hk] [H|H]; [by left|right; by apply Hk]. Qed.

Lemma save_items_ok tid xs s xs' s' :
  base_wf s -> tid ∈ trans_ids (database s) -> Forall (titem_ok (database s)) xs ->
  save_items tid xs s = (xs', s') ->
  base_wf s' /\ keeps (database s) (database s') /\ Forall (titem_ok (database s')) xs'.
Proof.
  revert s xs' s'. induction xs as [|x xs IH]; intros s xs' s' Hs Htid Hxs; simpl.
  { intros [= <- <-]. by split_and!. }
  inversion Hxs as [|? ? Hx Hxs1]; subst.
  destruct (titem_save tid x s) as [x1 s1] eqn:H1. destruct (save_items tid xs s1) as [xs2 s2] eqn:H2.
  intros [= <- <-]. apply titem_save_ok in H1 as (Hs1 & Hk1 & Hx1); [|done..].
  apply IH in H2 as (Hs2 & Hk2 & Hxs2); [|done| |].
  - split_and!; [done|by eapply keeps_trans|]. constructor; [by eapply titem_ok_mono|done].
  - unfold trans_ids. destruct Hk1 as [-> _]. done.
  - eapply Forall_impl; [exact Hxs1|]. intros y. by apply titem_ok_mono.
Qed.

(** Changes outside the tables and the objects of the invariant. *)
Lemma base_wf_core d s : core d = core (database s) -> base_wf s -> base_wf (set_database d s).
Proof.
  intros Hc (Hwf & Hobj & Hcache). pose proof (extends_core _ _ Hc) as Hext.
  split_and!; simpl.
  - by eapply db_wf_core.
  - intros l. by eapply object_ok_mono.
  - destruct Hext as (_ & Hr & _). by rewrite Hr.
Qed.

Lemma software_rows_ok ls tid s :
  base_wf s -> base_wf (software_rows ls tid s) /\ keeps (database s) (database (software_rows ls tid s)).
Proof.
  revert s. induction ls as [|l ls IH]; intros s Hs; simpl; [by split|].
  destruct (save_object_ok l s Hs) as (Hs1 & Hext & _).
  set (s1 := save_object l s) in *.
  assert (Hs2 : base_wf (set_database (on_trans_with (insert_or_replace (tid, it_id (objects s1 l)))
    (database s1)) s1)) by by apply base_wf_core.
  destruct (IH _ Hs2) as [Hs3 Hk3]. split; [done|].
  eapply keeps_trans; [|exact Hk3]. eapply keeps_trans; [by apply extends_keeps|]. done.
Qed.

Lemma trans_dbInsert_ok t s t' s' :
  base_wf s -> trans_dbInsert t s = (t', s') ->
  base_wf s' /\ tr_id (p_row t') ∈ trans_ids (database s') /\ p_items t' = p_items t
  /\ titem_ids (database s) ⊆ titem_ids (database s').
Proof.
  intros Hs. unfold trans_dbInsert.
  set (id := next_id (tr_id <$> trans (database s))).
  set (s1 := set_database (on_trans (fun rows => rows ++ [with_id id (p_row t)]) (database s)) s).
  assert (Hids : trans_ids (database s1) = trans_ids (database s) ++ [id])
    by (unfold trans_ids; simpl; by rewrite fmap_snoc).
  assert (Hs1 : base_wf s1).
  { destruct Hs as (Hwf & Hobj & Hcache). split_and!; [|done..].
    destruct Hwf. split; rewrite ?Hids; try done.
    - apply NoDup_snoc; [done|]. apply next_id_notin.
    - apply Forall_snoc; [done|]. apply next_id_pos.
    - eapply Forall_impl; [exact wf_references0|]. intros row (? & ? & ?). split_and!; [|done..]. set_solver. }
  intros [= <- <-]. destruct (software_rows_ok (p_software t) id s1 Hs1) as [Hs2 [Ht Hti]].
  split_and!; [done| |done|done]. unfold trans_ids. rewrite Ht. simpl. rewrite fmap_snoc. set_solver.
Qed.

Lemma trans_begin_ok t s t' s' res :
  base_wf s -> progress_ok (database s) t -> trans_begin t s = (t', s', res) ->
  base_wf s' /\ progress_ok (database s') t'.
Proof.
  intros Hs [Hid Hxs]. unfold trans_begin. case_match; [by intros [= <- <- <-]|].
  destruct (trans_dbInsert t s) as [t1 s1] eqn:H1. apply trans_dbInsert_ok in H1 as (Hs1 & Hid1 & Hx1 & Hti); [|done].
  rewrite Hx1. destruct (save_items _ _ s1) as [xs s2] eqn:H2. intros [= <- <- <-].
  apply save_items_ok in H2 as (Hs2 & [Ht2 Hk2] & Hxs2); [|done..|].
  - split; [by apply base_wf_core|]. split; simpl; [right|done].
    unfold trans_ids. simpl. rewrite Ht2. done.
  - eapply Forall_impl; [exact Hxs|]. intros x [?|?]; [by left|right; by apply Hti].
Qed.

Lemma save_state_ok x d : db_wf d -> db_wf (save_state x d) /\ titem_ids (save_state x d) = titem_ids d
  /\ extends (on_trans_item (fun _ => trans_item (save_state x d)) d) (save_state x d).
Proof.
  intros Hwf. set (f := fun row => if (tir_id row =? x_id x)%Z
    then mkTItemRow (tir_id row) (tir_trans row) (tir_item row) (tir_repo row)
           (tir_action row) (tir_reason row) (x_state x) else row).
  assert (Hf : forall row, tir_id (f row) = tir_id row) by (intros row; unfold f; by case_match).
  split_and!; [|unfold titem_ids; simpl; by apply map_row_ids|by apply extends_core].
  unfold save_state. apply on_trans_item_wf; [done..|]. intros row Hrow.
  destruct Hwf. rewrite Forall_forall in wf_references0. fold f. unfold f. case_match; simpl; by apply wf_references0.
Qed.

Lemma save_state_base x s :
  base_wf s -> base_wf (set_database (save_state x (database s)) s).
Proof.
  intros (Hwf & Hobj & Hcache). split_and!; [by apply save_state_ok| |done].
  intros l. simpl. by eapply object_ok_item; [..|apply Hobj].
Qed.

Lemma save_states_ok xs s :
  base_wf s ->
  let d := foldl (fun d x => save_state x d) (database s) xs in
  base_wf (set_database d s) /\ titem_ids d = titem_ids (database s) /\ trans d = trans (database s).
Proof.
  revert s. induction xs as [|x xs IH]; intros s Hs; simpl; [by destruct s|].
  destruct (IH _ (save_state_base x s Hs)) as (H1 & H2 & H3). simpl in *.
  split_and!; [done| |done]. rewrite H2. by apply save_state_ok, Hs.
Qed.

Lemma trans_dbUpdate_ok row s :
  base_wf s -> base_wf (set_database (trans_dbUpdate row (database s)) s)
  /\ trans_ids (trans_dbUpdate row (database s)) = trans_ids (database s).
Proof.
  intros (Hwf & Hobj & Hcache).
  assert (Hids : trans_ids (trans_dbUpdate row (database s)) = trans_ids (database s)).
  { unfold trans_ids, trans_dbUpdate. simpl. rewrite <-list_fmap_compose. apply list_fmap_ext.
    intros i r _. simpl. case_match eqn:E; [|done]. apply Z.eqb_eq in E. by rewrite E. }
  split; [|done]. split_and!; [|intros l; by eapply object_ok_item; [..|apply Hobj]|done].
  simpl. destruct Hwf. split; rewrite ?Hids; done.
Qed.

Lemma trans_finish_ok st t s t' s' res :
  base_wf s -> progress_ok (database s) t -> trans_finish st t s = (t', s', res) ->
  base_wf s' /\ progress_ok (database s') t'.
Proof.
  intros Hs [Hid Hxs]. unfold trans_finish.
  destruct (save_states_ok (p_items t) s Hs) as (Hs1 & Hti & Ht).
  set (d := foldl _ _ _) in *.
  assert (Hp : progress_ok d t).
  { split; [unfold trans_ids in *; by rewrite Ht|].
    eapply Forall_impl; [exact Hxs|]. intros x. unfold titem_ok. by rewrite Hti. }
  case_match; intros [= <- <- <-]; [by split|].
  destruct (trans_dbUpdate_ok (with_state st (p_row t)) (set_database d s) Hs1) as [Hs2 Hids].
  simpl in *. split; [exact Hs2|]. destruct Hp as [Hp1 Hp2]. split; simpl; [by rewrite Hids|].
  eapply Forall_impl; [exact Hp2|]. done.
Qed.

Lemma add_item_ok d s l repoid a r xs :
  Forall (titem_ok d) xs -> Forall (titem_ok d) (fst (add_item s l repoid a r xs)).
Proof.
  induction 1 as [|x xs Hx Hxs IH]; simpl; [repeat constructor; by left|].
  case_match; simpl; [constructor; [by case_match|done]|].
  destruct (add_item s l repoid a r xs). by constructor.
Qed.

Lemma keep_progress s t :
  base_wf s -> progress_ok (database s) t -> swdb_wf (set_trans (Some t) s).
Proof. intros Hs Ht. split; [done|]. by intros t' [= <-]. Qed.

(** An operation that needs a transaction leaves the state alone without one. *)
Lemma in_progress_wf {A} (f : Trans -> Swdb -> Swdb * result swdb_error A) s :
  swdb_wf s ->
  (forall t, base_wf s -> progress_ok (database s) t -> transactionInProgress s = Some t ->
     swdb_wf (fst (f t s))) ->
  swdb_wf (fst (in_progress f s)).
Proof.
  intros Hs Hf. unfold in_progress. destruct (transactionInProgress s) as [t|] eqn:Et; [|done].
  apply Hf; [apply Hs| |done]. by apply Hs.
Qed.

Lemma progress_map_wf (f : Trans -> Trans) s :
  swdb_wf s -> (forall t, progress_ok (database s) t -> progress_ok (database s) (f t)) ->
  swdb_wf (set_trans (f <$> transactionInProgress s) s).
Proof.
  intros [Hs Hp] Hf. split; [done|]. simpl. intros t (t0 & Ht & ->)%fmap_Some. apply Hf. by apply Hp.
Qed.

Lemma set_item_done_wf i x t s :
  base_wf s -> progress_ok (database s) t -> p_items t !! i = Some x ->
  let x := set_item_state TIS_DONE x in
  let s := set_trans (Some (set_items (<[i := x]> (p_items t)) t)) s in
  swdb_wf (set_database (save_state x (database s)) s).
Proof.
  intros Hs [Hid Hxs] Hi x' s'. split; [by apply (save_state_base x' s')|].
  intros t' [= <-]. split; [done|]. simpl.
  assert (Hids : titem_ids (save_state x' (database s)) = titem_ids (database s))
    by (by apply save_state_ok, Hs).
  apply Forall_insert.
  - eapply Forall_impl; [exact Hxs|]. intros y. unfold titem_ok. by rewrite Hids.
  - eapply Forall_lookup_1 in Hxs; [|exact Hi]. unfold titem_ok in *. by rewrite Hids.
Qed.

Lemma run_call_wf s c : swdb_wf s -> swdb_wf (run_call s c).
Proof.
  intros Hs. destruct c; cbn [run_call].
  - destruct Hs as [(? & Hobj & ?) Hp]. split; [|done]. split_and!; [done| |done].
    intros x. simpl. unfold upd_object. case_match; [unfold object_ok; simpl; destruct data; by left|apply Hobj].
  - unfold initTransaction. destruct (transactionInProgress s) eqn:Et; [done|].
    apply (keep_progress (set_in_progress ∅ s)); [apply Hs|]. split; [by left|constructor].
  - apply in_progress_wf; [done|]. intros t Hb [Hid Hxs] _.
    pose proof (add_item_ok _ s l repoid a r _ Hxs) as Hadd.
    destruct (add_item _ _ _ _ _ _) as [xs i]. by apply keep_progress.
  - apply progress_map_wf; [done|]. done.
  - apply progress_map_wf; [done|]. intros t [Hid Hxs]. split; [done|].
    apply Forall_alter; [done|]. by intros.
  - apply in_progress_wf; [done|]. intros t Hb Hp _. cbv zeta.
    destruct (trans_begin _ s) as [[t' s'] res] eqn:E.
    apply trans_begin_ok in E as [Hs' Hp']; [|done..].
    destruct res; [|by apply keep_progress]. split; [done|]. by intros t1 [= <-].
  - apply in_progress_wf; [done|]. intros t Hb Hp Et.
    destruct (itemsInProgress s !! nevra) as [i|]; [|done].
    destruct (p_items t !! i) as [x|] eqn:Hi; [|done]. by apply set_item_done_wf.
  - apply in_progress_wf; [done|]. intros t Hb Hp _. by apply keep_progress.
  - apply in_progress_wf; [done|]. intros t Hb Hp Et. case_match; [done|].
    split; [by apply base_wf_core|]. simpl. intros t' Ht'. assert (t' = t) as -> by congruence. done.
  - apply in_progress_wf; [done|]. intros t Hb Hp _. cbv zeta.
    destruct (trans_finish _ _ s) as [[t' s'] res] eqn:E.
    apply trans_finish_ok in E as [Hs' Hp']; [|done..]. destruct res; by apply keep_progress.
  - apply in_progress_wf; [done|]. intros t Hb Hp _. split; [done|]. done.
Qed.

Lemma run_calls_wf cs s : swdb_wf s -> swdb_wf (run_calls s cs).
Proof. revert s. induction cs as [|c cs IH]; intros s Hs; [done|]. simpl. by apply IH, run_call_wf. Qed.

Lemma new_swdb_wf : swdb_wf new_swdb.
Proof. split; [|done]. split_and!; [|by left|apply map_Forall_empty]. split; constructor. Qed.

(** Nothing that is in memory has an id of the database: no repository is cached,
    no item is saved, and a transaction in progress has not begun. *)
Definition holds_no_ids (s : Swdb) : Prop :=
  repo_cache s = ∅ /\ (forall l, it_id (objects s l) = 0%Z)
  /\ forall t, transactionInProgress s = Some t -> tr_id (p_row t) = 0%Z /\ Forall (fun x => x_id x = 0%Z) (p_items t).
Lemma reset_wf s : holds_no_ids s -> swdb_wf (resetDatabase s).
Proof.
  intros (Hc & Ho & Hp). split; [split_and!|].
  - split; constructor.
  - intros l. simpl. unfold object_ok. destruct (it_data _); by left.
  - simpl. rewrite Hc. apply map_Forall_empty.
  - intros t [Hid Hxs]%Hp. split; [by left|]. eapply Forall_impl; [exact Hxs|]. intros x Hx. by left.
Qed.
(** Every public call that changes something, [resetDatabase] among them. *)
Inductive client_call := Call (c : call) | Reset.
Definition run_client (s : Swdb) (c : client_call) : Swdb := match c with Call c => run_call s c | Reset => resetDatabase s end.
Fixpoint resets_early (s : Swdb) (cs : list client_call) : Prop :=
  match cs with
  | [] => True
  | c :: cs => (c = Reset -> holds_no_ids s) /\ resets_early (run_client s c) cs
  end.
(** C34. From an empty database, or a well-formed one, whatever a client calls in
    whatever order, including calls that throw, the tables stay well formed: ids are
    unique, packages and repositories are stored once, and every recorded item refers
    to a recorded transaction, item and repository. One call has a condition:
    [resetDatabase] while nothing in memory has an id of the old file, since cached
    repositories survive it. Without it there is no condition. *)
Theorem calls_keep_database_wf :
  swdb_wf new_swdb
  /\ (forall cs s, swdb_wf s -> swdb_wf (run_calls s cs))
  /\ forall cs s, swdb_wf s -> resets_early s cs -> swdb_wf (foldl run_client s cs).
Proof.
  split; [apply new_swdb_wf|]. split; [apply run_calls_wf|].
  induction cs as [|c cs IH]; intros s Hs Hr; [done|]. destruct Hr as [Hc Hr]. simpl. apply IH; [|done].
  destruct c as [c|]; [by apply run_call_wf|by apply reset_wf, Hc].
Qed.

(** ** Recording one item *)

Lemma titem_save_new tid l repoid a r s rp :
  base_wf s -> tid ∈ trans_ids (database s) -> it_data (objects s l) = D_RPM rp ->
  exists row s', titem_save tid (mkTItem 0 l repoid a r TIS_UNKNOWN []) s
    = (mkTItem (tir_id row) l repoid a r TIS_UNKNOWN [], s')
  /\ base_wf s' /\ trans (database s') = trans (database s)
  /\ trans_item (database s') = trans_item (database s) ++ [row]
  /\ tir_id row = next_id (titem_ids (database s)) /\ tir_trans row = tid
  /\ tir_action row = a /\ tir_reason row = r
  /\ (tir_item row, rp) ∈ rpm (database s') /\ it_data (objects s' l) = D_RPM rp.
Proof.
  intros Hs Htid Hl.
  destruct (titem_save tid (mkTItem 0 l repoid a r TIS_UNKNOWN []) s) as [x' s'] eqn:H.
  pose proof H as Hok. apply titem_save_ok in Hok as (Hs' & [Htr _] & _); [|done|done|by left].
  unfold titem_save in H. cbn [x_item x_id x_repoid] in H.
  destruct (save_object_ok l s Hs) as (Hs1 & Hext & _ & _).
  assert (Hl1 : exists i, objects (save_object l s) l = mkItem i (D_RPM rp)
    /\ (i, rp) ∈ rpm (database (save_object l s))).
  { unfold save_object. destruct (item_save (objects s l) (database s)) as [o d] eqn:Hi.
    destruct Hs as (Hwf & Hobj & _).
    destruct (item_save_ok _ _ _ _ Hwf (Hobj l) Hi) as (_ & _ & _ & _ & Hrpm).
    destruct (Hrpm rp Hl) as (Hd & Hin & _). exists (it_id o). simpl.
    unfold upd_object. rewrite Nat.eqb_refl. split; [destruct o; simpl in *; by subst|done]. }
  destruct Hl1 as (i & Hoi & Hini). set (s1 := save_object l s) in *.
  destruct (getCached repoid s1) as [rid s2] eqn:Hc.
  pose proof Hc as Hc'. apply getCached_ok in Hc' as (_ & _ & _ & _ & Ho2); [|done].
  assert (Hdb : trans_item (database s2) = trans_item (database s) /\ rpm (database s2) = rpm (database s1)).
  { destruct Hext as (_ & _ & Hti & _). unfold getCached in Hc.
    destruct (repo_cache s1 !! repoid); [by injection Hc as <- <-|].
    destruct (repo_dbSelectOrInsert repoid (database s1)) as [j d] eqn:Hr.
    apply repo_dbSelectOrInsert_ok in Hr as (_ & _ & _ & _ & _ & Hti' & Hrpm); [|apply Hs1].
    injection Hc as <- <-. simpl. split; congruence. }
  destruct Hdb as [Hti2 Hrpm2]. simpl in H. injection H as <- <-.
  eexists (item_row _ _ _ _ _), _. split; [reflexivity|].
  split; [exact Hs'|]. split; [exact Htr|]. simpl.
  rewrite Ho2, Hoi, Hti2, Hrpm2. unfold titem_ids. split_and!; try done. cbn [x_item]. by rewrite Hoi.
Qed.

(** The state of the item with the id of [x] is [DONE]. *)
Definition mark_done (i : Z) (row : TItemRow) : TItemRow :=
  if (tir_id row =? i)%Z
  then mkTItemRow (tir_id row) (tir_trans row) (tir_item row) (tir_repo row)
         (tir_action row) (tir_reason row) TIS_DONE else row.

Lemma mark_done_fields i row :
  tir_id (mark_done i row) = tir_id row /\ tir_trans (mark_done i row) = tir_trans row
  /\ tir_item (mark_done i row) = tir_item row /\ tir_action (mark_done i row) = tir_action row
  /\ tir_reason (mark_done i row) = tir_reason row.
Proof. unfold mark_done. by case_match. Qed.

Definition record_calls (l : nat) (repoid : cstr) (a : TransactionItemAction) (r : TransactionItemReason)
    (rp : RPMItem) (dt0 dt1 user : Z) (v0 v1 cmd : cstr) : list call :=
  [CInit; CAdd l repoid a r; CBegin dt0 v0 cmd user; CDone (getNEVRA rp); CEnd dt1 v1 TS_DONE; CClose].

Lemma record_run s l repoid a r rp dt0 dt1 user v0 v1 cmd :
  swdb_wf s -> transactionInProgress s = None -> it_data (objects s l) = D_RPM rp ->
  let s' := run_calls s (record_calls l repoid a r rp dt0 dt1 user v0 v1 cmd) in
  exists row id, id = next_id (trans_ids (database s))
  /\ transactionInProgress s' = None
  /\ trans_item (database s') = mark_done (tir_id row) <$> (mark_done (tir_id row) <$> (trans_item (database s) ++ [row]))
  /\ tir_trans row = id /\ tir_action row = a /\ tir_reason row = r
  /\ (tir_item row, rp) ∈ rpm (database s')
  /\ trans (database s') = (fun t => if (tr_id t =? id)%Z
       then mkTransRow id dt0 dt1 v0 v1 [] user cmd TS_DONE else t)
       <$> (trans (database s) ++ [mkTransRow id dt0 0 v0 [] [] user cmd TS_UNKNOWN]).
Proof.
  intros Hwf Hnone Hl. set (id := next_id (trans_ids (database s))).
  set (row0 := mkTransRow 0 dt0 0 v0 [] [] user cmd TS_UNKNOWN).
  set (x := mkTItem 0 l repoid a r TIS_UNKNOWN []).
  set (s0 := set_in_progress ∅ (set_trans (Some (mkProgress (mkTransRow 0 0 0 [] [] [] 0 [] TS_UNKNOWN) [x] [])) s)).
  set (s1 := set_database (on_trans (fun rows => rows ++ [with_id id row0]) (database s)) s0).
  assert (Hs1 : base_wf s1 /\ id ∈ trans_ids (database s1)).
  { assert (Hb : base_wf s0) by apply Hwf.
    destruct (trans_dbInsert (mkProgress row0 [x] []) s0) as [t' s'] eqn:E.
    pose proof E as E'. apply trans_dbInsert_ok in E as (H1 & H2 & _); [|exact Hb].
    injection E' as <- <-. done. }
  destruct Hs1 as [Hs1 Hid1].
  destruct (titem_save_new id l repoid a r s1 rp) as (row & s2 & Hsave & Hs2 & Htr & Hti & Hidr & Htrr & Har &
    Hrr & Hrpm & Hobj); [done..|].
  set (x1 := mkTItem (tir_id row) l repoid a r TIS_UNKNOWN []).
  set (t1 := mkProgress (with_id id row0) [x1] []).
  set (s3 := set_in_progress (<[getNEVRA rp := 0]> ∅)
    (set_trans (Some t1) (set_database (save_replaced [x1] (database s2)) s2))).
  assert (Hin : itemsInProgress s2 = ∅).
  { unfold titem_save in Hsave. destruct (getCached _ _) as [rid s'] eqn:Hc. simpl in Hsave.
    injection Hsave as _ <-. simpl. unfold getCached in Hc. unfold save_object in Hc. simpl in Hc.
    destruct (item_save _ _) as [o d]. simpl in Hc. case_match; [by injection Hc as _ <-|].
    destruct (repo_dbSelectOrInsert _ _). by injection Hc as _ <-. }
  assert (Hbegin : beginTransaction dt0 v0 cmd user s0 = (s3, Ok id)).
  { unfold beginTransaction, in_progress, trans_begin, trans_dbInsert. cbn [transactionInProgress s0
      set_in_progress set_trans set_row p_row p_items p_software tr_id negb Z.eqb software_rows foldl
      save_items set_items with_id].
    change (titem_save id (mkTItem 0 l repoid a r TIS_UNKNOWN []) s1) with (titem_save id x s1) in Hsave.
    change (titem_save _ x _) with (titem_save id x s1). rewrite Hsave. cbn. rewrite Hobj, Hin. done. }
  set (d4 := save_state (set_item_state TIS_DONE x1) (database s3)).
  set (t4 := mkProgress (with_id id row0) [set_item_state TIS_DONE x1] []).
  assert (Hdone : setItemDone (getNEVRA rp) s3 = (set_database d4 (set_trans (Some t4) s3), Ok tt)).
  { unfold setItemDone, in_progress. cbn [transactionInProgress s3 set_in_progress set_trans itemsInProgress].
    by rewrite lookup_insert_eq. }
  unfold run_calls, record_calls. cbn [foldl run_call].
  assert (Hinit : fst (addItem l repoid a r (fst (initTransaction s))) = s0).
  { unfold initTransaction. rewrite Hnone. done. }
  set (row5 := mkTransRow id dt0 dt1 v0 v1 [] user cmd TS_DONE).
  set (d5 := trans_dbUpdate row5 (save_state (set_item_state TIS_DONE x1) d4)).
  assert (Hend : endTransaction dt1 v1 TS_DONE (set_database d4 (set_trans (Some t4) s3))
    = (set_trans (Some (mkProgress row5 [set_item_state TIS_DONE x1] []))
         (set_database d5 (set_trans (Some t4) s3)), Ok id)) by reflexivity.
  rewrite Hinit, Hbegin. cbn [fst]. rewrite Hdone. cbn [fst]. rewrite Hend. cbn [fst].
  exists row, id. split_and!; try done.
  - change (mark_done (tir_id row) <$> (mark_done (tir_id row) <$> trans_item (database s2))
      = mark_done (tir_id row) <$> (mark_done (tir_id row) <$> (trans_item (database s) ++ [row]))).
    by rewrite Hti.
  - change ((fun r => if (tr_id r =? id)%Z then row5 else r) <$> trans (database s2)
      = (fun t => if (tr_id t =? id)%Z then row5 else t) <$> (trans (database s) ++ [with_id id row0])).
    by rewrite Htr.
Qed.

(** C35. Recording a package works: from any well-formed state without a
    transaction in progress, initialising, adding one package, beginning,
    marking it as done, ending and closing leaves no transaction in progress;
    the database has one more transaction, with the next id and the state
    [DONE]; and the reason of the package, whatever was recorded of it before,
    resolves to the recorded reason, or to unknown after a removal. *)
Theorem recorded_reason s l repoid a r rp dt0 dt1 user v0 v1 cmd :
  swdb_wf s -> transactionInProgress s = None -> it_data (objects s l) = D_RPM rp ->
  rpm_action_listed a = true -> r_arch rp <> [] ->
  let s' := run_calls s (record_calls l repoid a r rp dt0 dt1 user v0 v1 cmd) in
  let id := next_id (trans_ids (database s)) in
  transactionInProgress s' = None
  /\ trans (database s') = trans (database s) ++ [mkTransRow id dt0 dt1 v0 v1 [] user cmd TS_DONE]
  /\ resolveTransactionItemReason (r_name rp) (r_arch rp) (database s')
     = if bool_decide (a = REMOVE) then R_UNKNOWN else r.
Proof.
  intros Hwf Hnone Hl Ha Harch s' id.
  destruct (record_run s l repoid a r rp dt0 dt1 user v0 v1 cmd Hwf Hnone Hl)
    as (row & id' & -> & Hprog & Hti & Htid & Hact & Hreason & Hrpm & Htrans).
  fold s' in Hprog, Hti, Hrpm, Htrans. fold id in Htid, Htrans.
  assert (Hnew : trans (database s') = trans (database s) ++ [mkTransRow id dt0 dt1 v0 v1 [] user cmd TS_DONE]).
  { rewrite Htrans, fmap_app. simpl. rewrite Z.eqb_refl. f_equal.
    rewrite <-(list_fmap_id (trans (database s))) at 2. apply list_fmap_ext. intros i t Ht. simpl.
    destruct (Z.eqb_spec (tr_id t) id) as [Heq|]; [|done].
    exfalso. apply (next_id_notin (trans_ids (database s))). fold id. rewrite <-Heq.
    apply list_elem_of_fmap_2. by eapply list_elem_of_lookup_2. }
  split_and!; [done|done|].
  set (row' := mark_done (tir_id row) (mark_done (tir_id row) row)).
  destruct (mark_done_fields (tir_id row) row) as (_ & F2 & F3 & F4 & F5).
  destruct (mark_done_fields (tir_id row) (mark_done (tir_id row) row)) as (_ & G2 & G3 & G4 & G5).
  assert (Hwf' : swdb_wf s') by by apply run_calls_wf.
  assert (Htid' : tir_trans row' = id) by (unfold row'; congruence).
  assert (Hact' : tir_action row' = a) by (unfold row'; congruence).
  assert (Hreason' : tir_reason row' = r) by (unfold row'; congruence).
  rewrite (reason_of_last_record (database s') row' rp); rewrite ?Htid', ?Hact', ?Hreason'; try done.
  - apply Hwf'.
  - rewrite Hti, !fmap_app. apply elem_of_app. right. by left.
  - unfold row'. by rewrite G3, F3.
  - unfold trans_done. rewrite Hnew. apply Exists_exists. eexists. split; [apply elem_of_app; right; by left|].
    by split.
  - intros row1 r1 Hin Hne _ _ _ _ _. rewrite Hti, !fmap_app in Hin.
    apply elem_of_app in Hin as [Hin|Hin]; [|by apply list_elem_of_singleton in Hin as ->].
    apply list_elem_of_fmap in Hin as (y & -> & (z & -> & Hz)%list_elem_of_fmap).
    destruct (mark_done_fields (tir_id row) z) as (_ & Z2 & _).
    destruct (mark_done_fields (tir_id row) (mark_done (tir_id row) z)) as (_ & Y2 & _).
    rewrite Y2, Z2. apply next_id_fresh. destruct Hwf as [([] & _) _].
    rewrite Forall_forall in wf_references0. by apply wf_references0.
Qed.

Definition bash : RPMItem := mkRPM (lit "bash") 0 (lit "5.0") (lit "1") (lit "x86_64").
Definition demo_swdb : Swdb := run_calls new_swdb
  (CObject 7 (D_RPM bash) :: record_calls 7 (lit "base") INSTALL R_DEPENDENCY bash 1 2 0 [] [] []).

Lemma recorded_reason_witness :
  resolveTransactionItemReason (lit "bash") (lit "x86_64") (database
    (run_calls demo_swdb (record_calls 7 (lit "base") REMOVE R_USER bash 3 4 0 [] [] []))) = R_UNKNOWN.
Proof.
  refine (proj2 (proj2 (recorded_reason demo_swdb 7 (lit "base") REMOVE R_USER bash 3 4 0 [] [] []
    _ _ _ _ _))); [|by vm_compute..].
  apply run_calls_wf, new_swdb_wf.
Defined.

(** Without a transaction in progress every operation on it throws and
    changes nothing, and with one no second is started; closing always makes a
    new start possible. *)
Theorem needs_transaction s :
  (transactionInProgress s = None ->
     (forall dt v cmd u, beginTransaction dt v cmd u s = (s, Err NotInProgress))
     /\ (forall dt v st, endTransaction dt v st s = (s, Err NotInProgress))
     /\ closeTransaction s = (s, Err NotInProgress)
     /\ (forall l repoid a r, addItem l repoid a r s = (s, Err NotInProgress))
     /\ (forall nevra, setItemDone nevra s = (s, Err NotInProgress))
     /\ (forall v, setReleasever v s = (s, Err NotInProgress))
     /\ (forall fd line, addConsoleOutputLine fd line s = (s, Err NotInProgress))
     /\ snd (initTransaction s) = Ok tt)
  /\ (transactionInProgress s <> None ->
     initTransaction s = (s, Err InProgress)
     /\ (exists id, snd (closeTransaction s) = Ok id)
     /\ snd (initTransaction (fst (closeTransaction s))) = Ok tt).
Proof.
  unfold beginTransaction, endTransaction, closeTransaction, addItem, setItemDone, setReleasever,
    addConsoleOutputLine, initTransaction, in_progress.
  destruct (transactionInProgress s) as [t|]; split; try done.
  intros _. split_and!; [done|by eexists|done].
Qed.

(** C36. A transaction does not end while the state of an item is not set: the
    call throws naming the first such item and the transaction's record keeps
    its state, although the states of all items have been written. *)
Theorem end_needs_item_states s t dt v st i x :
  transactionInProgress s = Some t -> p_items t !! i = Some x -> x_state x = TIS_UNKNOWN ->
  (forall j y, j < i -> p_items t !! j = Some y -> x_state y <> TIS_UNKNOWN) ->
  snd (endTransaction dt v st s) = Err (StateNotSet (toStr (objects s (x_item x))))
  /\ trans (database (fst (endTransaction dt v st s))) = trans (database s)
  /\ trans_item (database (fst (endTransaction dt v st s)))
     = foldl (fun rows x => trans_item (save_state x (on_trans_item (fun _ => rows) (database s))))
         (trans_item (database s)) (p_items t).
Proof.
  intros Ht Hi Hx Hbefore. unfold endTransaction, in_progress. rewrite Ht. unfold trans_finish.
  cbn [p_items set_row].
  assert (Hu : forall s', objects s' = objects s ->
    unset_item (p_items t) s' = Some (toStr (objects s (x_item x)))).
  { intros s' Ho. clear -Hi Hx Hbefore Ho. revert i Hi Hbefore.
    induction (p_items t) as [|y ys IH]; intros i Hi Hbefore; [done|].
    destruct i as [|i]; simpl in *.
    - injection Hi as ->. by rewrite bool_decide_eq_true_2, Ho.
    - rewrite bool_decide_eq_false_2 by (apply (Hbefore 0 y); [lia|done]).
      apply (IH i); [done|]. intros j z Hj. apply (Hbefore (S j) z). lia. }
  rewrite Hu by done. simpl. split_and!; [done|..]; clear;
    generalize (database s); induction (p_items t) as [|y ys IH]; intros d; simpl; [done|by rewrite IH|done|].
  rewrite IH. done.
Qed.

Lemma end_needs_item_states_witness :
  snd (endTransaction 5 [] TS_DONE (run_calls demo_swdb [CInit; CAdd 7 (lit "base") REMOVE R_USER]))
  = Err (StateNotSet (lit "bash-5.0-1.x86_64")).
Proof.
  refine (proj1 (end_needs_item_states _ (mkProgress (mkTransRow 0 0 0 [] [] [] 0 [] TS_UNKNOWN)
    [mkTItem 0 7 (lit "base") REMOVE R_USER TIS_UNKNOWN []] []) 5 [] TS_DONE 0
    (mkTItem 0 7 (lit "base") REMOVE R_USER TIS_UNKNOWN []) _ _ _ _)); [done..|].
  intros j y Hj. lia.
Defined.

(** Adding an item to a transaction in progress never stores the same text,
    repository and action twice: a repeated item is the existing one, with the
    more significant of the two reasons, and all other items are unchanged. *)
Theorem add_item_once s l repoid a r xs xs' i :
  add_item s l repoid a r xs = (xs', i) ->
  exists x, xs' !! i = Some x /\ same_item s l repoid a x = true
  /\ (forall j, j <> i -> xs' !! j = xs !! j)
  /\ (forall j y, j < i -> xs !! j = Some y -> same_item s l repoid a y = false)
  /\ (match xs !! i with
      | Some y => same_item s l repoid a y = true /\ x_id x = x_id y
          /\ x_reason x = (if (rank (x_reason y) <? rank r)%Z then r else x_reason y)
      | None => i = length xs /\ x = mkTItem 0 l repoid a r TIS_UNKNOWN []
      end).
Proof.
  revert xs' i. induction xs as [|y ys IH]; intros xs' i; simpl.
  { intros [= <- <-]. eexists. split; [done|]. split_and!; [|by destruct j|done|done|done].
    unfold same_item. simpl. by rewrite !bool_decide_eq_true_2. }
  destruct (same_item s l repoid a y) eqn:Hs.
  - intros [= <- <-]. eexists. split; [done|]. rewrite reason_gt_rank.
    destruct (rank (x_reason y) <? rank r)%Z eqn:Hr; simpl; rewrite ?Hr;
      (split_and!; [done|by intros []|lia|done|done|done]).
  - destruct (add_item s l repoid a r ys) as [ys' j] eqn:Ha. intros [= <- <-].
    destruct (IH _ _ eq_refl) as (x & Hx & Hsx & Ho & Hb & Hm). exists x. simpl. split_and!; try done.
    + intros [|k] Hk; [done|]. apply Ho. lia.
    + intros [|k] z Hk; simpl; [by intros [= <-]|]. apply Hb. lia.
    + destruct (ys !! j); [done|]. destruct Hm as [-> ->]. done.
Qed.

Lemma add_item_once_witness :
  exists x, fst (add_item new_swdb 0 (lit "base") INSTALL R_USER
    [mkTItem 3 0 (lit "base") INSTALL R_DEPENDENCY TIS_UNKNOWN []]) !! 0 = Some x /\ x_reason x = R_USER.
Proof.
  destruct (add_item_once new_swdb 0 (lit "base") INSTALL R_USER
    [mkTItem 3 0 (lit "base") INSTALL R_DEPENDENCY TIS_UNKNOWN []] _ _ eq_refl)
    as (x & Hx & _ & _ & _ & _ & _ & Hr).
  exists x. split; [exact Hx|exact Hr].
Defined.

(** Observations on concrete databases. *)

(** The text of a group and of an environment with one id is the same: the
    second is not added. *)
Example group_hides_environment :
  let s := run_calls new_swdb
    [CObject 0 (D_GROUP (mkComps (lit "core") [] [] 2 []));
     CObject 1 (D_ENVIRONMENT (mkComps (lit "core") [] [] 2 []));
     CInit; CAdd 0 [] INSTALL R_USER; CAdd 1 [] INSTALL R_USER] in
  (length ∘ p_items) <$> transactionInProgress s = Some 1.
Proof. vm_compute. reflexivity. Qed.

Lemma calls_keep_database_wf_witness :
  let cs := Reset :: Call (CObject 7 (D_RPM bash)) :: (Call <$> record_calls 7 (lit "base") INSTALL R_USER bash 1 2 0 [] [] []) in
  resets_early new_swdb cs /\ swdb_wf (foldl run_client new_swdb cs).
Proof.
  intros cs. assert (H : resets_early new_swdb cs) by (vm_compute; repeat split; discriminate).
  split; [exact H|]. destruct calls_keep_database_wf as (H0 & _ & H2). by apply H2.
Defined.

(** A reset database keeps the cached repository ids: the items recorded next
    refer to a repository that is not there and are not listed. *)
Example reset_keeps_cache :
  let s := run_calls (resetDatabase demo_swdb)
    (CObject 7 (D_RPM bash) :: record_calls 7 (lit "base") INSTALL R_USER bash 1 2 0 [] [] []) in
  length (trans_item (database s)) = 1 /\ repo (database s) = [] /\ rpm_transaction_items 1 (database s) = [].
Proof. vm_compute. split_and!; reflexivity. Qed.

(** Every row of the table [item] has the type of the base class. *)
Example item_type_unknown : item (database demo_swdb) = [(1, 0)]%Z.
Proof. vm_compute. reflexivity. Qed.

(** The group of a package is still reported after a newer record of the group
    without the package. *)
Example group_without_package :
  let old := mkComps (lit "core") [] [] 2 [mkMember 0 (lit "bash") true 2] in
  let new := mkComps (lit "core") [] [] 2 [mkMember 0 (lit "zsh") true 2] in
  let s := run_calls new_swdb
    [CObject 0 (D_GROUP old); CObject 1 (D_GROUP new);
     CInit; CAdd 0 [] INSTALL R_USER; CBegin 1 [] [] 0; CEnd 2 [] TS_DONE; CClose] in
  let d := database (run_calls s [CInit; CAdd 1 [] UPGRADE R_USER; CBegin 3 [] [] 0]) in
  let done_ := on_trans (fun rows => with_state TS_DONE <$> rows) d in
  getPackageCompsGroups (lit "bash") done_ = [lit "core"].
Proof. vm_compute. reflexivity. Qed.
End Swdb.
