(* ===== verification/ConfigMain.v ===== *)
(** * ConfigMain: the main configuration ([libdnf/conf/config_main.cpp]) and
    its loading ([libdnf/base/base.cpp])

    The members of the configuration are options of all the types of
    [Options]; [AnyOption] is the base class with its virtual functions. The
    configuration is the finite map from the names of the members to their
    options; the table of the names by which files and users refer to them is
    an [OptionBinds]. *)

From Stdlib Require Import SpecFloat.
From S2P Require Import Prelude Numeric OrderMap ConfigParser Options.
From stdpp Require Import strings.
Import Numeric Options.

Module ConfigMain.

(** ** [OptionNumber<float>], always with its own conversion *)

Record OptionFloat := mkFloatOption {
  f_priority : Priority;
  f_user : cstr -> result opt_error spec_float;
  f_default : spec_float;
  f_min : spec_float;
  f_max : spec_float;
  f_value : spec_float;
}.

Definition float_test (o : OptionFloat) (value : spec_float) : result opt_error unit :=
  if flt value (f_min o) || flt (f_max o) value
  then Err (NotAllowedValue (print_float value)) else Ok tt.
Definition new_float (d mn mx : spec_float) (user : cstr -> result opt_error spec_float)
  : result opt_error OptionFloat :=
  let o := mkFloatOption DEFAULT user d mn mx d in
  let* _ := float_test o d in Ok o.
Definition float_set (p : Priority) (value : spec_float) (o : OptionFloat) : result opt_error OptionFloat :=
  if ge_prio p (f_priority o) then
    let* _ := float_test o value in
    Ok (mkFloatOption p (f_user o) (f_default o) (f_min o) (f_max o) value)
  else Ok o.

#[global] Instance float_option : OptionType OptionFloat spec_float := {|
  get_priority := f_priority;
  get_value o := Ok (f_value o);
  get_default_value := f_default;
  test := float_test;
  from_string := f_user;
  to_string _ v := print_float v;
  get_value_string o := Ok (print_float (f_value o));
  set := float_set;
|}.

(** A value between the limits, or no number at all: comparisons with NaN are false. *)
Definition fle (x y : spec_float) : bool := SFleb x y.
Definition float_within (o : OptionFloat) (v : spec_float) : Prop := v = S754_nan \/ fle (f_min o) v = true /\ fle v (f_max o) = true.
Definition has_limits (o : OptionFloat) : Prop := f_min o <> S754_nan /\ f_max o <> S754_nan.

Lemma flt_fle x y : x <> S754_nan -> y <> S754_nan -> fle x y = negb (flt y x).
Proof.
  unfold fle, flt, SFleb, SFltb. intros Hx Hy.
  destruct x as [s|s| |s m e], y as [s'|s'| |s' m' e']; try done; try (by destruct s); try (by destruct s'); try (by destruct s, s').
  pose proof (Pos.compare_antisym m m') as Hm. unfold Pos.compare in Hm.
  destruct s, s'; try done; cbn [SFcompare]; rewrite (Z.compare_antisym e e'), Hm; by destruct (e ?= e')%Z, (Pos.compare_cont Eq m m').
Qed.
Lemma float_test_cases o v : has_limits o ->
  float_test o v = Ok tt /\ float_within o v \/ float_test o v = Err (NotAllowedValue (print_float v)) /\ ~ float_within o v.
Proof.
  intros [H1 H2]. unfold float_test, float_within. assert (Hnan : v = S754_nan \/ v <> S754_nan) by (destruct v; (by left) || by right). destruct Hnan as [->|Hv].
  { left. split; [|by left]. unfold flt, SFltb. by destruct (f_max o). }
  rewrite !flt_fle by done. destruct (flt v (f_min o)), (flt (f_max o) v); simpl; (right; split; [done|naive_solver]) || (left; split; [done|by right]).
Qed.

(** C10. An option for integers never holds a value outside of its limits, and never
    changes them: a constructor throws just for a default outside, and whatever
    string or value is set, with a priority that counts, is stored if it is inside
    and refused if it is not. The option for floats does the same, except that NaN
    passes: it holds a value inside of its limits, or NaN. *)
Theorem number_bounds :
  (forall t d mn mx user, match new_number t d mn mx user with
     | Ok o => number_ok o /\ n_value o = d
     | Err e => e = NotAllowedValue (dec_Z d) /\ ~ (mn <= d <= mx)%Z
     end)
  /\ (forall p v (o : OptionNumber), ge_prio p (n_priority o) = true -> match set p v o with
     | Ok o' => number_ok o' /\ n_value o' = v /\ n_min o' = n_min o /\ n_max o' = n_max o
     | Err e => e = NotAllowedValue (dec_Z v) /\ ~ (n_min o <= v <= n_max o)%Z
     end)
  /\ (forall d mn mx user, mn <> S754_nan -> mx <> S754_nan -> match new_float d mn mx user with
     | Ok o => float_within o (f_value o) /\ f_value o = d
     | Err e => e = NotAllowedValue (print_float d) /\ d <> S754_nan /\ (fle mn d = false \/ fle d mx = false)
     end)
  /\ (forall p v (o : OptionFloat), has_limits o -> ge_prio p (f_priority o) = true -> match set p v o with
     | Ok o' => float_within o' (f_value o') /\ f_value o' = v /\ f_min o' = f_min o /\ f_max o' = f_max o
     | Err e => e = NotAllowedValue (print_float v) /\ ~ float_within o v
     end)
  /\ (forall p s (o : OptionNumber), number_set_string p s o = let* v := from_string o s in set p v o)
  /\ (forall p v (o : OptionNumber), ge_prio p (n_priority o) = false -> set p v o = Ok o)
  /\ (forall p v (o : OptionFloat), ge_prio p (f_priority o) = false -> set p v o = Ok o).
Proof.
  split; [intros; apply new_number_bounds|]. split; [intros; by apply number_set_bounds|]. split.
  { intros d mn mx user H1 H2. unfold new_float. set (o := mkFloatOption DEFAULT user d mn mx d).
    destruct (float_test_cases o d) as [[-> H]|[-> H]]; [by split|by split|]. simpl. split; [done|]. unfold float_within in H. simpl in H.
    split; [naive_solver|]. destruct (fle mn d), (fle d mx); naive_solver. }
  split; [|by split; [|split; intros p v o Hp; [by apply number_set_weaker|]; simpl; unfold float_set; rewrite Hp]].
  intros p v o Ho Hp. simpl. unfold float_set. rewrite Hp. by destruct (float_test_cases o v Ho) as [[-> H]|[-> H]].
Qed.
Lemma number_bounds_witness : number_ok (mkNumber int32 MAINCONFIG None 2 0 10 7) /\ float_within (mkFloatOption RUNTIME (fun _ => Err ValueNotSet) (of_Z float 0) (of_Z float 0) (of_Z float 10) (of_Z float 3)) (of_Z float 3).
Proof.
  destruct number_bounds as (_ & H1 & _ & H2 & _). split.
  - apply (H1 MAINCONFIG 7%Z (mkNumber int32 DEFAULT None 2 0 10 2) eq_refl).
  - apply (H2 RUNTIME (of_Z float 3) (mkFloatOption DEFAULT (fun _ => Err ValueNotSet) (of_Z float 0) (of_Z float 0) (of_Z float 10) (of_Z float 0))); [by split|reflexivity].
Defined.

(** ** The conversions of the configuration *)

(** [str_to_bytes]; the messages of the exceptions are the value strings. *)
Definition str_to_bytes (str : cstr) : result opt_error Z :=
  if bool_decide (str = []) then Err (InvalidValue [])
  else
    let* (res, idx) := lift_std (stod str) in
    if is_negative res then Err (InvalidValue str) else
    let* res :=
      if idx <? length str then
        if idx <? length str - 1 then Err (InvalidValue str) else
        match last str with
        | Some "k"%char | Some "K"%char => Ok (fmul double res (of_Z double 1024))
        | Some "m"%char | Some "M"%char => Ok (fmul double res (of_Z double (1024 * 1024)))
        | Some "g"%char | Some "G"%char => Ok (fmul double res (of_Z double (1024 * 1024 * 1024)))
        | Some c => Err (InvalidValue [c])
        | None => Err (InvalidValue [])
        end
      else Ok res in
    cast_int int32 res.

(** The [int] of [str_to_bytes] in an option of unsigned numbers. *)
Definition str_to_bytes_unsigned (str : cstr) : result opt_error Z :=
  let* n := str_to_bytes str in Ok (wrap 32 n).

Definition installonly_limit_from_string (value : cstr) : result opt_error Z :=
  if bool_decide (value = lit "<off>") then Ok 0%Z
  else match stoul value with Ok n => Ok (wrap 32 n) | Err _ => Ok 0%Z end.

Definition color_from_string (value : cstr) : cstr :=
  if bool_decide (value ∈ lit <$> ["on"; "yes"; "1"; "true"]%string) then lit "always"
  else if bool_decide (value ∈ lit <$> ["off"; "no"; "0"; "false"]%string) then lit "never"
  else if bool_decide (value ∈ lit <$> ["tty"; "if-tty"]%string) then lit "auto"
  else value.

Definition history_list_view_from_string (value : cstr) : cstr :=
  if bool_decide (value = lit "cmds") || bool_decide (value = lit "default") then lit "commands" else value.

Definition ip_resolve_from_string (value : cstr) : cstr :=
  if bool_decide (value = lit "4") then lit "ipv4"
  else if bool_decide (value = lit "6") then lit "ipv6" else lower value.

(** A percentage, or a number of bytes. *)
Definition throttle_from_string (value : cstr) : result opt_error spec_float :=
  if negb (bool_decide (value = [])) && bool_decide (last value = Some "%"%char) then
    let* (res, _) := lift_std (stof value) in
    if is_negative res || flt (of_Z float 100) res then Err (InvalidValue value)
    else Ok (fdiv float res (of_Z float 100))
  else let* n := str_to_bytes value in Ok (of_Z float n).

(** The largest [float]. *)
Definition float_max : spec_float := S754_finite false (2 ^ 24 - 1) 104.

(** ** Globs *)

(** The file system: the paths a pattern matches (directories with a slash at
    the end, as [GLOB_MARK] asks for), and the text of a file that can be
    opened. *)
Class Files := {
  glob : cstr -> list cstr;
  open_file : cstr -> option cstr;
}.

Definition blanks : cstr := [" "%char; tab; cr].

(** What [add_from_file] writes for one line. *)
Definition file_word (line : cstr) : cstr :=
  match find_idx (none_of blanks) line with
  | None => []
  | Some start =>
      if bool_decide (line !! start = Some "#"%char) then []
      else
        match find_last_idx (none_of blanks) line with
        | Some end_ => take (end_ - start + 1) (drop start line) ++ lit " "
        | None => []
        end
  end.

Section config.
Context `{Environment} `{Files}.

Definition add_from_file (path : cstr) : result opt_error cstr :=
  match open_file path with
  | Some text => Ok (concat (file_word <$> split_by (fun c => bool_decide (c = nl)) text))
  | None => Err (StdException std_runtime_error)
  end.

Fixpoint add_from_paths (paths : list cstr) : result opt_error cstr :=
  match paths with
  | [] => Ok []
  | path :: paths =>
      let* a := if bool_decide (last path = Some "/"%char) then Ok [] else add_from_file path in
      let* b := add_from_paths paths in
      Ok (a ++ b)
  end.
Definition add_from_files (glob_path : cstr) : result opt_error cstr := add_from_paths (glob glob_path).

(** The loop of [resolve_globs] for the text from [start] on; [None] when the
    fuel runs out. *)
Fixpoint resolve_loop (fuel : nat) (s : cstr) (start : nat) : option (result opt_error cstr) :=
  match fuel with
  | O => None
  | S fuel =>
      if length s <=? start then Some (Ok []) else
      let end_ := find_from (one_of list_sep) s start in
      if starts_with (drop start s) (lit "glob:") then
        let start := start + 5 in
        if length s <=? start then Some (Ok []) else
        match end_ with
        | None => Some (add_from_files (drop start s))
        | Some end_ =>
            match (if end_ - start =? 0 then Ok [] else add_from_files (take (end_ - start) (drop start s))) with
            | Err e => Some (Err e)
            | Ok a => (fun r => let* b := r in Ok (a ++ b)) <$> resolve_loop fuel s (S end_)
            end
        end
      else
        match end_ with
        | None => Some (Ok (drop start s))
        | Some end_ =>
            let a := if end_ - start =? 0 then [] else take (end_ - start) (drop start s) ++ lit " " in
            (fun r => let* b := r in Ok (a ++ b)) <$> resolve_loop fuel s (S end_)
        end
  end.
Definition resolve_globs_opt (s : cstr) : option (result opt_error cstr) := resolve_loop (S (length s)) s 0.
Definition resolve_globs (s : cstr) : result opt_error cstr := default (Ok []) (resolve_globs_opt s).

(** *** Reference: the text piece by piece *)

(** What a piece between separators stands for, as one of the last ([final])
    or of the others. *)
Definition piece_text (final : bool) (w : cstr) : result opt_error cstr :=
  if starts_with w (lit "glob:") then
    match drop 5 w with [] => Ok [] | pattern => add_from_files pattern end
  else Ok (if bool_decide (w = []) then [] else if final then w else w ++ lit " ").
Fixpoint pieces_text (ws : list cstr) : result opt_error cstr :=
  match ws with
  | [] => Ok []
  | [w] => piece_text true w
  | w :: ws => let* a := piece_text false w in let* b := pieces_text ws in Ok (a ++ b)
  end.

Lemma glob_prefix w r :
  starts_with (w ++ r) (lit "glob:") = starts_with w (lit "glob:")
  \/ exists t, r <> [] /\ lit "glob:" = w ++ t /\ t <> [] /\ head r = head t.
Proof.
  destruct (starts_with w (lit "glob:")) eqn:Hw.
  { left. apply starts_with_spec in Hw as [t ->]. apply starts_with_spec. exists (t ++ r). by rewrite <-app_assoc. }
  destruct (starts_with (w ++ r) (lit "glob:")) eqn:Hr; [right|by left].
  apply starts_with_spec in Hr as [t Ht].
  apply app_eq_inv in Ht as [(u & -> & Ht)|(u & Hu & Ht)].
  - assert (Hc : starts_with (lit "glob:" ++ u) (lit "glob:") = true) by (apply starts_with_spec; eauto).
    congruence.
  - exists u. destruct u as [|c u].
    + rewrite app_nil_r in Hu. subst w. assert (Hc : starts_with (lit "glob:") (lit "glob:") = true) by done. congruence.
    + subst r. by split_and!.
Qed.

(** A separator ends no proper start of [glob:]. *)
Lemma glob_prefix_sep w c r :
  c ∈ list_sep -> starts_with (w ++ c :: r) (lit "glob:") = starts_with w (lit "glob:").
Proof.
  intros Hc. destruct (glob_prefix w (c :: r)) as [?|(t & _ & Hw & _ & Ht)]; [done|]. exfalso.
  destruct t as [|d t]; [done|]. injection Ht as <-.
  assert (Hin : c ∈ lit "glob:") by (rewrite Hw; set_solver).
  revert Hc Hin. unfold list_sep. clear. rewrite !elem_of_cons. intros [->|[->|[->|[]%elem_of_nil]]];
    intros Hin; revert Hin; apply (bool_decide_unpack _); vm_compute; exact I.
Qed.

Lemma pieces_text_cons w ws :
  ws <> [] ->
  pieces_text (w :: ws) = (let* a := piece_text false w in let* b := pieces_text ws in Ok (a ++ b)).
Proof. by destruct ws. Qed.

Lemma split_by_nonempty {A} (p : A -> bool) s : split_by p s <> [].
Proof. destruct s; simpl; repeat case_match; done. Qed.

(** What stands between [start] and the next separator. *)
Lemma glob_piece (w : cstr) c r :
  (if length (w ++ c :: r) <=? 5 then [] else take (length w - 5) (drop 5 (w ++ c :: r))) = drop 5 w.
Proof.
  rewrite length_app. simpl. destruct (Nat.leb_spec (length w + S (length r)) 5).
  - symmetry. apply length_zero_iff_nil. rewrite length_drop. lia.
  - destruct (decide (5 <= length w)).
    + rewrite drop_app_le by lia. apply take_app_length'. rewrite length_drop. lia.
    + replace (length w - 5) with 0 by lia. simpl. symmetry.
      apply length_zero_iff_nil. rewrite length_drop. lia.
Qed.

Lemma resolve_loop_last fuel pre s :
  s <> [] -> Forall (fun x => one_of list_sep x = false) s ->
  resolve_loop (S fuel) (pre ++ s) (length pre) = Some (piece_text true s).
Proof.
  intros Hne Hs. assert (length s <> 0) by by destruct s. cbn [resolve_loop].
  destruct (Nat.leb_spec (length (pre ++ s)) (length pre)) as [Hle|_]; [rewrite length_app in Hle; lia|].
  unfold find_from, piece_text. rewrite drop_app_length, (proj2 (find_idx_None _ _) Hs).
  destruct (starts_with s (lit "glob:")); simpl; [|by rewrite bool_decide_eq_false_2].
  rewrite <-drop_drop, drop_app_length.
  destruct (Nat.leb_spec (length (pre ++ s)) (length pre + 5)) as [Hle|Hgt]; rewrite length_app in *.
  - assert (drop 5 s = []) as -> by (apply length_zero_iff_nil; rewrite length_drop; lia). done.
  - destruct (drop 5 s) eqn:Hd; [|done].
    apply (f_equal length) in Hd. rewrite length_drop in Hd. simpl in Hd. lia.
Qed.

Lemma resolve_loop_sep fuel pre w c r :
  Forall (fun x => one_of list_sep x = false) w -> one_of list_sep c = true ->
  resolve_loop (S fuel) (pre ++ w ++ c :: r) (length pre)
  = match piece_text false w with
    | Ok a => (fun x => let* b := x in Ok (a ++ b))
              <$> resolve_loop fuel (pre ++ w ++ c :: r) (S (length pre + length w))
    | Err e => Some (Err e)
    end.
Proof.
  intros Hw Hc. assert (Hlen : length (pre ++ w ++ c :: r) = length pre + length w + S (length r))
    by (rewrite !length_app; simpl; lia).
  cbn [resolve_loop]. destruct (Nat.leb_spec (length (pre ++ w ++ c :: r)) (length pre)) as [|_]; [lia|].
  unfold find_from. rewrite drop_app_length, find_idx_app_r, find_idx_hit by done.
  cbn [fmap option_fmap option_map]. rewrite Nat.add_0_r, glob_prefix_sep
    by (unfold one_of in Hc; by apply bool_decide_eq_true in Hc).
  unfold piece_text. destruct (starts_with w (lit "glob:")) eqn:Hg.
  - apply starts_with_spec in Hg as [t Ht].
    assert (length w = 5 + length t) by (by rewrite Ht, length_app).
    destruct (Nat.leb_spec (length (pre ++ w ++ c :: r)) (length pre + 5)) as [|_]; [lia|].
    rewrite <-drop_drop, drop_app_length.
    replace (length pre + length w - (length pre + 5)) with (length w - 5) by lia.
    pose proof (glob_piece w c r) as Hp. rewrite length_app in Hp. simpl length in Hp.
    destruct (Nat.leb_spec (length w + S (length r)) 5) as [|_]; [lia|]. rewrite Hp.
    replace (drop 5 w) with t by (by rewrite Ht).
    destruct t as [|d t].
    + replace (length w - 5) with 0 by (simpl in *; lia). done.
    + replace (length w - 5 =? 0) with false by (symmetry; apply Nat.eqb_neq; simpl in *; lia).
      by destruct (add_from_files _).
  - replace (length pre + length w - length pre) with (length w) by lia.
    rewrite take_app_length. by destruct w.
Qed.

Lemma resolve_loop_pieces fuel pre s :
  length s < fuel ->
  resolve_loop fuel (pre ++ s) (length pre) = Some (pieces_text (split_by (one_of list_sep) s)).
Proof.
  revert pre s. induction fuel as [|fuel IH]; intros pre s Hf; [lia|].
  destruct (find_idx (one_of list_sep) s) as [i|] eqn:Hi.
  - apply find_idx_split in Hi as (w & c & r & -> & Hi & Hw & Hc).
    rewrite resolve_loop_sep, split_by_app, pieces_text_cons by (done || apply split_by_nonempty).
    destruct (piece_text false w) as [a|e]; [|done]. simpl.
    replace (pre ++ w ++ c :: r) with ((pre ++ w ++ [c]) ++ r) by (by rewrite <-!app_assoc).
    replace (S (length pre + length w)) with (length (pre ++ w ++ [c])) by (rewrite !length_app; simpl; lia).
    rewrite length_app in Hf. simpl in Hf. by rewrite IH by lia.
  - apply find_idx_None in Hi. rewrite split_by_none by done. destruct (decide (s = [])) as [->|Hne].
    + cbn [resolve_loop]. by rewrite app_nil_r, Nat.leb_refl.
    + by apply resolve_loop_last.
Qed.

(** [resolve_globs] always ends, and replaces the text piece by piece
    between its separators (spaces, commas, line ends): a piece that starts with
    [glob:] by the words of the files its pattern matches, every other non-empty
    piece by itself, with a space behind it unless it is the last. *)
Theorem resolve_globs_pieces s :
  resolve_globs_opt s = Some (pieces_text (split_by (one_of list_sep) s))
  /\ resolve_globs s = pieces_text (split_by (one_of list_sep) s).
Proof.
  assert (Hr : resolve_globs_opt s = Some (pieces_text (split_by (one_of list_sep) s)))
    by (apply (resolve_loop_pieces (S (length s)) [] s); lia).
  split; [done|]. unfold resolve_globs. by rewrite Hr.
Qed.
End config.

(** ** An option of any type: the base class [Option] *)

Inductive AnyOption :=
| ABool (o : OptionBool)
| ANumber (o : OptionNumber)
| AFloat (o : OptionFloat)
| AEnum (o : OptionEnum)
| AString (o : OptionString)
| AList (o : OptionStringList)
| APath (o : OptionPath).

Definition CONF_FILENAME : string := "/etc/dnf/dnf.conf".
Definition PERSISTDIR : string := "/var/lib/dnf".
Definition SYSTEM_CACHEDIR : string := "/var/cache/dnf".
Definition VARS_DIRS : list string := ["/etc/yum/vars"; "/etc/dnf/vars"]%string.
Definition GROUP_PACKAGE_TYPES : list string := ["mandatory"; "default"; "conditional"]%string.
Definition INSTALLONLYPKGS : list string :=
  ["kernel"; "kernel-PAE"; "installonlypkg(kernel)"; "installonlypkg(kernel-module)"; "installonlypkg(vm)";
   "multiversion(kernel)"]%string.
Definition BUGTRACKER : string := "https://bugzilla.redhat.com/enter_bug.cgi?product=Fedora&component=dnf".

(** The configuration: its members by name. *)
Abbreviation Main := (gmap string AnyOption).

(** How a name is bound: directly, with [option_T_list_append], or with the
    setter of [protected_packages]. *)
Inductive binding := Plain | Append | Globs.

Section main.
Context `{Environment} `{Files}.

Definition any_priority (o : AnyOption) : Priority :=
  match o with
  | ABool o => get_priority o | ANumber o => get_priority o | AFloat o => get_priority o
  | AEnum o => get_priority o | AString o => get_priority o | AList o => get_priority o
  | APath o => get_priority o
  end.
Definition any_empty (o : AnyOption) : bool := bool_decide (any_priority o = EMPTY).

(** The virtual [set] from a string: conversion, then [set]. An [OptionEnum]
    converts in [set]. *)
Definition any_set_string (p : Priority) (value : cstr) (o : AnyOption) : result opt_error AnyOption :=
  match o with
  | ABool o => let* o := bool_set_string p value o in Ok (ABool o)
  | ANumber o => let* o := number_set_string p value o in Ok (ANumber o)
  | AFloat o => let* v := f_user o value in let* o := float_set p v o in Ok (AFloat o)
  | AEnum o => let* o := enum_set p value o in Ok (AEnum o)
  | AString o => let* o := string_set p value o in Ok (AString o)
  | AList o => let* o := list_set_string p value o in Ok (AList o)
  | APath o => let* o := path_set p value o in Ok (APath o)
  end.
Definition any_value_string (o : AnyOption) : result opt_error cstr :=
  match o with
  | ABool o => get_value_string o | ANumber o => get_value_string o | AFloat o => get_value_string o
  | AEnum o => get_value_string o | AString o => get_value_string o | AList o => get_value_string o
  | APath o => get_value_string o
  end.

(** ** The members and their defaults *)

Definition a_bool (d : bool) : result opt_error AnyOption := Ok (ABool (new_bool d)).
Definition a_number_between (t : IntType) (d mn mx : Z) : result opt_error AnyOption :=
  let* o := new_number t d mn mx None in Ok (ANumber o).
Definition a_number_min (t : IntType) (d mn : Z) (user : option (cstr -> result opt_error Z))
  : result opt_error AnyOption :=
  let* o := new_number_min t d mn user in Ok (ANumber o).
Definition a_number (t : IntType) (d : Z) (user : option (cstr -> result opt_error Z))
  : result opt_error AnyOption :=
  let* o := new_number_any t d user in Ok (ANumber o).
Definition a_seconds (d : Z) : result opt_error AnyOption := let* o := new_seconds d in Ok (ANumber o).
Definition a_float (d mn : spec_float) (user : cstr -> result opt_error spec_float)
  : result opt_error AnyOption :=
  let* o := new_float d mn float_max user in Ok (AFloat o).
Definition a_enum (d : string) (vals : list string) (user : option (cstr -> cstr))
  : result opt_error AnyOption :=
  let* o := new_enum (lit d) (lit <$> vals) user in Ok (AEnum o).
Definition a_string (d : option string) : result opt_error AnyOption :=
  Ok (AString (new_string_ptr (lit <$> d))).
Definition a_list (d : list string) : result opt_error AnyOption :=
  Ok (AList (new_string_list (lit <$> d))).
Definition a_path (d : option string) (exists_ abs_path : bool) : result opt_error AnyOption :=
  let* o := new_path_ptr (lit <$> d) exists_ abs_path in Ok (APath o).
Definition a_globs (d : string) : result opt_error AnyOption :=
  let* s := resolve_globs (lit d) in Ok (AList (new_string_list_string s)).

Definition members : list (string * result opt_error AnyOption) :=
  [("debuglevel", a_number_between int32 2 0 10);
   ("errorlevel", a_number_between int32 3 0 10);
   ("installroot", a_path (Some "/") false true);
   ("config_file_path", a_path (Some CONF_FILENAME) false false);
   ("plugins", a_bool true);
   ("pluginpath", a_list []);
   ("pluginconfpath", a_list []);
   ("persistdir", a_path (Some PERSISTDIR) false false);
   ("transformdb", a_bool true);
   ("recent", a_number_min int32 7 0 None);
   ("reset_nice", a_bool true);
   ("system_cachedir", a_path (Some SYSTEM_CACHEDIR) false false);
   ("cacheonly", a_bool false);
   ("keepcache", a_bool false);
   ("logdir", a_string (Some "/var/log"));
   ("log_size", a_number int32 (1024 * 1024) (Some str_to_bytes));
   ("log_rotate", a_number_min int32 4 0 None);
   ("varsdir", a_list VARS_DIRS);
   ("reposdir", a_list ["/etc/yum.repos.d"; "/etc/yum/repos.d"; "/etc/distro.repos.d"]);
   ("debug_solver", a_bool false);
   ("installonlypkgs", a_list INSTALLONLYPKGS);
   ("group_package_types", a_list GROUP_PACKAGE_TYPES);
   ("installonly_limit", a_number_min uint32 3 0 (Some installonly_limit_from_string));
   ("tsflags", a_list []);
   ("assumeyes", a_bool false);
   ("assumeno", a_bool false);
   ("check_config_file_age", a_bool true);
   ("defaultyes", a_bool false);
   ("diskspacecheck", a_bool true);
   ("localpkg_gpgcheck", a_bool false);
   ("gpgkey_dns_verification", a_bool false);
   ("obsoletes", a_bool true);
   ("showdupesfromrepos", a_bool false);
   ("exit_on_lock", a_bool false);
   ("allow_vendor_change", a_bool true);
   ("metadata_timer_sync", a_seconds (60 * 60 * 3));
   ("disable_excludes", a_list []);
   ("multilib_policy", a_enum "best" ["best"; "all"] None);
   ("best", a_bool false);
   ("install_weak_deps", a_bool true);
   ("bugtracker_url", a_string (Some BUGTRACKER));
   ("zchunk", a_bool true);
   ("color", a_enum "auto" ["auto"; "never"; "always"] (Some color_from_string));
   ("color_list_installed_older", a_string (Some "yellow"));
   ("color_list_installed_newer", a_string (Some "bold,yellow"));
   ("color_list_installed_reinstall", a_string (Some "dim,cyan"));
   ("color_list_installed_extra", a_string (Some "bold,red"));
   ("color_list_available_upgrade", a_string (Some "bold,blue"));
   ("color_list_available_downgrade", a_string (Some "dim,magenta"));
   ("color_list_available_reinstall", a_string (Some "bold,underline,green"));
   ("color_list_available_install", a_string (Some "bold,cyan"));
   ("color_update_installed", a_string (Some "dim,red"));
   ("color_update_local", a_string (Some "dim,green"));
   ("color_update_remote", a_string (Some "bold,green"));
   ("color_search_match", a_string (Some "bold,magenta"));
   ("history_record", a_bool true);
   ("history_record_packages", a_list ["dnf"; "rpm"]);
   ("rpmverbosity", a_string (Some "info"));
   ("strict", a_bool true);
   ("skip_broken", a_bool false);
   ("autocheck_running_kernel", a_bool true);
   ("clean_requirements_on_remove", a_bool true);
   ("history_list_view", a_enum "commands" ["single-user-commands"; "users"; "commands"] (Some history_list_view_from_string));
   ("upgrade_group_objects_upgrade", a_bool true);
   ("destdir", a_path None false false);
   ("comment", a_string None);
   ("downloadonly", a_bool false);
   ("ignorearch", a_bool false);
   ("module_platform_id", a_string None);
   ("user_agent", a_string (Some "libdnf"));
   ("countme", a_bool false)]%string.

Definition repo_members : list (string * result opt_error AnyOption) :=
  [("retries", a_number uint32 10 None);
   ("cachedir", a_string None);
   ("fastestmirror", a_bool false);
   ("excludepkgs", a_list []);
   ("includepkgs", a_list []);
   ("proxy", a_string (Some ""));
   ("proxy_username", a_string None);
   ("proxy_password", a_string None);
   ("proxy_auth_method", a_enum "any" ["any"; "none"; "basic"; "digest"; "negotiate"; "ntlm"; "digest_ie"; "ntlm_wb"] (Some lower));
   ("protected_packages", a_globs "dnf glob:/etc/yum/protected.d/*.conf glob:/etc/dnf/protected.d/*.conf");
   ("username", a_string (Some ""));
   ("password", a_string (Some ""));
   ("gpgcheck", a_bool false);
   ("repo_gpgcheck", a_bool false);
   ("enabled", a_bool true);
   ("enablegroups", a_bool true);
   ("bandwidth", a_number uint32 0 (Some str_to_bytes_unsigned));
   ("minrate", a_number uint32 1000 (Some str_to_bytes_unsigned));
   ("ip_resolve", a_enum "whatever" ["ipv4"; "ipv6"; "whatever"] (Some ip_resolve_from_string));
   ("throttle", a_float (of_Z float 0) (of_Z float 0) throttle_from_string);
   ("timeout", a_seconds 30);
   ("max_parallel_downloads", a_number_min uint32 3 1 None);
   ("metadata_expire", a_seconds (60 * 60 * 48));
   ("sslcacert", a_string (Some ""));
   ("sslverify", a_bool true);
   ("sslclientcert", a_string (Some ""));
   ("sslclientkey", a_string (Some ""));
   ("deltarpm", a_bool true);
   ("deltarpm_percentage", a_number uint32 75 None);
   ("skip_if_unavailable", a_bool false)]%string.

(** The members are constructed in the order of their declaration. *)
Fixpoint construct (ms : list (string * result opt_error AnyOption)) (cfg : Main) : result opt_error Main :=
  match ms with
  | [] => Ok cfg
  | (m, r) :: ms => let* o := r in construct ms (<[m := o]> cfg)
  end.
Definition new_main : result opt_error Main := construct (members ++ repo_members) ∅.
#[local] Strategy expand [new_main].
Lemma new_main_construct cfg : new_main = Ok cfg -> construct (members ++ repo_members) ∅ = Ok cfg.
Proof. unfold new_main. trivial. Qed.

(** ** The names of the options *)

Definition main_names : list (string * (string * binding)) :=
  [("debuglevel", ("debuglevel", Plain)); ("errorlevel", ("errorlevel", Plain));
   ("installroot", ("installroot", Plain)); ("config_file_path", ("config_file_path", Plain));
   ("plugins", ("plugins", Plain)); ("pluginpath", ("pluginpath", Plain));
   ("pluginconfpath", ("pluginconfpath", Plain)); ("persistdir", ("persistdir", Plain));
   ("transformdb", ("transformdb", Plain)); ("recent", ("recent", Plain));
   ("reset_nice", ("reset_nice", Plain)); ("system_cachedir", ("system_cachedir", Plain));
   ("cacheonly", ("cacheonly", Plain)); ("keepcache", ("keepcache", Plain));
   ("logdir", ("logdir", Plain)); ("log_size", ("log_size", Plain));
   ("log_rotate", ("log_rotate", Plain)); ("varsdir", ("varsdir", Plain));
   ("reposdir", ("reposdir", Plain)); ("debug_solver", ("debug_solver", Plain));
   ("installonlypkgs", ("installonlypkgs", Append));
   ("group_package_types", ("group_package_types", Plain));
   ("installonly_limit", ("installonly_limit", Plain)); ("tsflags", ("tsflags", Append));
   ("assumeyes", ("assumeyes", Plain)); ("assumeno", ("assumeno", Plain));
   ("check_config_file_age", ("check_config_file_age", Plain)); ("defaultyes", ("defaultyes", Plain));
   ("diskspacecheck", ("diskspacecheck", Plain)); ("localpkg_gpgcheck", ("localpkg_gpgcheck", Plain));
   ("gpgkey_dns_verification", ("gpgkey_dns_verification", Plain)); ("obsoletes", ("obsoletes", Plain));
   ("showdupesfromrepos", ("showdupesfromrepos", Plain)); ("exit_on_lock", ("exit_on_lock", Plain));
   ("allow_vendor_change", ("allow_vendor_change", Plain));
   ("metadata_timer_sync", ("metadata_timer_sync", Plain));
   ("disable_excludes", ("disable_excludes", Plain)); ("multilib_policy", ("multilib_policy", Plain));
   ("best", ("best", Plain)); ("install_weak_deps", ("install_weak_deps", Plain));
   ("bugtracker_url", ("bugtracker_url", Plain)); ("zchunk", ("zchunk", Plain));
   ("color", ("color", Plain)); ("color_list_installed_older", ("color_list_installed_older", Plain));
   ("color_list_installed_newer", ("color_list_installed_newer", Plain));
   ("color_list_installed_reinstall", ("color_list_installed_reinstall", Plain));
   ("color_list_installed_extra", ("color_list_installed_extra", Plain));
   ("color_list_available_upgrade", ("color_list_available_upgrade", Plain));
   ("color_list_available_downgrade", ("color_list_available_downgrade", Plain));
   ("color_list_available_reinstall", ("color_list_available_reinstall", Plain));
   ("color_list_available_install", ("color_list_available_install", Plain));
   ("color_update_installed", ("color_update_installed", Plain));
   ("color_update_local", ("color_update_local", Plain));
   ("color_update_remote", ("color_update_remote", Plain));
   ("color_search_match", ("color_search_match", Plain)); ("history_record", ("history_record", Plain));
   ("history_record_packages", ("history_record_packages", Plain));
   ("rpmverbosity", ("rpmverbosity", Plain)); ("strict", ("strict", Plain));
   ("skip_broken", ("skip_broken", Plain));
   ("autocheck_running_kernel", ("autocheck_running_kernel", Plain));
   ("clean_requirements_on_remove", ("clean_requirements_on_remove", Plain));
   ("history_list_view", ("history_list_view", Plain));
   ("upgrade_group_objects_upgrade", ("upgrade_group_objects_upgrade", Plain));
   ("destdir", ("destdir", Plain)); ("comment", ("comment", Plain));
   ("ignorearch", ("ignorearch", Plain)); ("module_platform_id", ("module_platform_id", Plain));
   ("user_agent", ("user_agent", Plain)); ("countme", ("countme", Plain))]%string.

Definition main_repo_names : list (string * (string * binding)) :=
  [("retries", ("retries", Plain)); ("cachedir", ("cachedir", Plain));
   ("fastestmirror", ("fastestmirror", Plain)); ("excludepkgs", ("excludepkgs", Append));
   ("exclude", ("excludepkgs", Append)); ("includepkgs", ("includepkgs", Append));
   ("proxy", ("proxy", Plain)); ("proxy_username", ("proxy_username", Plain));
   ("proxy_password", ("proxy_password", Plain)); ("proxy_auth_method", ("proxy_auth_method", Plain));
   ("protected_packages", ("protected_packages", Globs)); ("username", ("username", Plain));
   ("password", ("password", Plain)); ("gpgcheck", ("gpgcheck", Plain));
   ("repo_gpgcheck", ("repo_gpgcheck", Plain)); ("enabled", ("enabled", Plain));
   ("enablegroups", ("enablegroups", Plain)); ("bandwidth", ("bandwidth", Plain));
   ("minrate", ("minrate", Plain)); ("ip_resolve", ("ip_resolve", Plain));
   ("throttle", ("throttle", Plain)); ("timeout", ("timeout", Plain));
   ("max_parallel_downloads", ("max_parallel_downloads", Plain));
   ("metadata_expire", ("metadata_expire", Plain)); ("sslcacert", ("sslcacert", Plain));
   ("sslverify", ("sslverify", Plain)); ("sslclientcert", ("sslclientcert", Plain));
   ("sslclientkey", ("sslclientkey", Plain)); ("deltarpm", ("deltarpm", Plain));
   ("deltarpm_percentage", ("deltarpm_percentage", Plain));
   ("skip_if_unavailable", ("skip_if_unavailable", Plain))]%string.

Definition member_priority (m : string) (cfg : Main) : Priority :=
  default EMPTY (any_priority <$> cfg !! m).
(** A call on a member of the configuration. *)
Definition on_member (m : string) (f : AnyOption -> result opt_error AnyOption) (cfg : Main)
  : result opt_error Main :=
  match cfg !! m with Some o => let* o := f o in Ok (<[m := o]> cfg) | None => Ok cfg end.
Definition on_list (f : OptionStringList -> result opt_error OptionStringList) (o : AnyOption)
  : result opt_error AnyOption :=
  match o with AList l => let* l := f l in Ok (AList l) | _ => Ok o end.

(** What a new string for a name does to the member it is bound to. *)
Definition bound_set (how : binding) (p : Priority) (value : cstr) (o : AnyOption)
  : result opt_error AnyOption :=
  match how with
  | Plain => any_set_string p value o
  | Append => on_list (option_list_append p value) o
  | Globs =>
      if ge_prio p (any_priority o)
      then let* v := resolve_globs value in on_list (list_set_string p v) o
      else Ok o
  end.

Definition main_item (m : string) (how : binding) : Item Main :=
  mkItem (member_priority m) (fun p v => on_member m (any_set_string p v))
    (fun cfg => match cfg !! m with Some o => any_value_string o | None => Err ValueNotSet end)
    (match how with Plain => None | _ => Some (fun p v => on_member m (bound_set how p v)) end)
    None (match how with Append => true | _ => false end).

Definition items_of (names : list (string * (string * binding))) : list (cstr * Item Main) :=
  (fun x => (lit (fst x), main_item (fst (snd x)) (snd (snd x)))) <$> names.
(** The constructor of [ConfigMain::Impl]. *)
Definition main_binds : result binds_error (gmap cstr (Item Main)) :=
  add_all (items_of (main_names ++ main_repo_names)) ∅.
(** The bindings of a configuration, once it is constructed. *)
Definition opt_binds : gmap cstr (Item Main) := match main_binds with Ok b => b | Err _ => ∅ end.

(** ** Loading *)

(** A warning: section, key and exception. *)
Definition warning : Type := cstr * cstr * opt_error.

(** The loop of [load_config_from_parser] over a section, for options bound by
    [binds] in a state [S]: an exception of an option is logged, any other
    leaves the loop, with what was set before. *)
Fixpoint load_section {S} (binds : gmap cstr (Item S)) (p : Priority) (section : cstr)
    (opts : list (cstr * cstr)) (s : S) (log : list warning) : S * list warning * option opt_error :=
  match opts with
  | [] => (s, log, None)
  | (key, value) :: opts =>
      match binds !! key with
      | None => load_section binds p section opts s log
      | Some item =>
          match item_new_string item p value s with
          | Ok s => load_section binds p section opts s log
          | Err e =>
              if is_option_exception e
              then load_section binds p section opts s (log ++ [(section, key, e)])
              else (s, log, Some e)
          end
      end
  end.

Definition load_config_from_parser (parser : ConfigParser.ConfigParser) (section : cstr) (cfg : Main)
    (log : list warning) : Main * list warning * option opt_error :=
  match PreserveOrderMap.lookup section (ConfigParser.data parser) with
  | Some opts => load_section opt_binds MAINCONFIG section opts cfg log
  | None => (cfg, log, None)
  end.

(** What loading a file can throw: an exception of the parser, of the options,
    or the failure to open the file. *)
Inductive load_error :=
| CantOpen (path : cstr)
| ReadError (e : ConfigParser.read_error)
| OptError (e : opt_error).

(** [parser.read(path)] for a new parser; [None] when the reading runs out of
    fuel. *)
Definition read_file (path : cstr) : option (result load_error ConfigParser.ConfigParser) :=
  match open_file path with
  | None => Some (Err (CantOpen path))
  | Some text =>
      match ConfigParser.read text ConfigParser.init with
      | None => None
      | Some (c, None) => Some (Ok c)
      | Some (_, Some e) => Some (Err (ReadError e))
      end
  end.

Definition load_config_from_file (path : cstr) (cfg : Main) (log : list warning)
  : option (Main * list warning * option load_error) :=
  (fun r => match r with
    | Err e => (cfg, log, Some e)
    | Ok parser =>
        let '(cfg, log, e) := load_config_from_parser parser (lit "main") cfg log in
        (cfg, log, OptError <$> e)
    end) <$> read_file path.

(** [load_config_from_dir]: the files [.conf] of the directory, [entries] with
    their extension, in the order of their paths. *)
Definition path_leb (a b : cstr) : Prop := str_ltb b a = false.
#[global] Instance path_leb_dec : RelDecision path_leb.
Proof. intros a b. unfold path_leb. apply _. Defined.
Fixpoint load_config_from_paths (paths : list cstr) (cfg : Main) (log : list warning)
  : option (Main * list warning * option load_error) :=
  match paths with
  | [] => Some (cfg, log, None)
  | path :: paths =>
      match load_config_from_file path cfg log with
      | Some (cfg, log, None) => load_config_from_paths paths cfg log
      | r => r
      end
  end.
Definition load_config_from_dir (entries : list (cstr * cstr)) (cfg : Main) (log : list warning)
  : option (Main * list warning * option load_error) :=
  load_config_from_paths
    (merge_sort path_leb (fst <$> base.filter (fun e => snd e = lit ".conf") entries)) cfg log.

(** ** What every configuration keeps *)

(** What settings never change of an option. *)
Definition shape (o : AnyOption) : AnyOption :=
  match o with
  | ABool o => ABool (mkBool EMPTY (true_values o) (false_values o) (b_default o) false)
  | ANumber o => ANumber (mkNumber (n_type o) EMPTY (from_string_user o) (n_default o) (n_min o) (n_max o) 0)
  | AFloat o => AFloat (mkFloatOption EMPTY (f_user o) (f_default o) (f_min o) (f_max o) S754_nan)
  | AEnum o => AEnum (mkEnum EMPTY (e_user o) (enum_vals o) (e_default o) [])
  | AString o => AString (mkString EMPTY (s_regex o) (s_icase o) (s_default o) [])
  | AList o => AList (mkStringList EMPTY (l_regex o) (l_icase o) (l_default o) [])
  | APath o => APath (mkPath (mkString EMPTY (s_regex (p_string o)) (s_icase (p_string o))
      (s_default (p_string o)) []) (p_exists o) (p_abs_path o))
  end.

(** The value satisfies the requirements of its option. *)
Definition any_ok (o : AnyOption) : Prop :=
  match o with
  | ANumber o => number_ok o
  | AFloat o => float_test o (f_value o) = Ok tt
  | AEnum o => e_value o ∈ enum_vals o
  | APath o => s_priority (p_string o) <> EMPTY -> path_test o (s_value (p_string o)) = Ok tt
  | _ => True
  end.

Definition steady (o o' : AnyOption) : Prop := shape o' = shape o /\ (any_ok o -> any_ok o').

Lemma steady_refl o : steady o o.
Proof. by split. Qed.

Lemma steady_trans o1 o2 o3 : steady o1 o2 -> steady o2 o3 -> steady o1 o3.
Proof. unfold steady. intros [-> H1] [-> H2]. auto. Qed.

(** A setting that does not throw keeps the option or stores a tested value. *)
Ltac set_cases :=
  intros Hs; repeat match type of Hs with
  | (if ?b then _ else _) = _ => destruct b; [|injection Hs as <-; by left]
  | _ => apply result_bind_Ok in Hs as ([] & ? & Hs)
  end; injection Hs as <-; right.

Lemma number_set_cases p v o o' :
  number_set p v o = Ok o' ->
  o' = o \/ (number_test o v = Ok tt
    /\ o' = mkNumber (n_type o) p (from_string_user o) (n_default o) (n_min o) (n_max o) v).
Proof. unfold number_set. set_cases. by split. Qed.

Lemma float_set_cases p v o o' :
  float_set p v o = Ok o' ->
  o' = o \/ (float_test o v = Ok tt
    /\ o' = mkFloatOption p (f_user o) (f_default o) (f_min o) (f_max o) v).
Proof. unfold float_set. set_cases. by split. Qed.

Lemma list_set_cases p v o o' :
  list_set p v o = Ok o' ->
  o' = o \/ o' = mkStringList p (l_regex o) (l_icase o) (l_default o) v.
Proof. unfold list_set. by set_cases. Qed.

Lemma string_set_cases p v o o' :
  string_set p v o = Ok o' ->
  o' = o \/ o' = mkString p (s_regex o) (s_icase o) (s_default o) v.
Proof. unfold string_set. by set_cases. Qed.

Lemma path_set_cases p v o o' :
  path_set p v o = Ok o' ->
  o' = o \/ (path_test o (remove_file_prot v) = Ok tt
    /\ o' = mkPath (with_value (p_string o) p (s_default (p_string o)) (remove_file_prot v))
              (p_exists o) (p_abs_path o)).
Proof. unfold path_set. set_cases. by split. Qed.

Lemma enum_set_cases p v o o' :
  enum_set p v o = Ok o' ->
  o' = o \/ exists w, enum_test o w = Ok tt /\ o' = mkEnum p (e_user o) (enum_vals o) (e_default o) w.
Proof.
  unfold enum_set. intros Hs. apply result_bind_Ok in Hs as (w & _ & Hs). revert Hs.
  set_cases. by exists w.
Qed.

Lemma any_set_string_steady p v o o' : any_set_string p v o = Ok o' -> steady o o'.
Proof.
  destruct o as [o|o|o|o|o|o|o]; cbn [any_set_string]; intros Hs; apply result_bind_Ok in Hs as (x & Hx & Hs).
  - injection Hs as <-. apply result_bind_Ok in Hx as (w & _ & Hx). unfold bool_set in Hx.
    by case_match; injection Hx as <-.
  - injection Hs as <-. apply result_bind_Ok in Hx as (w & _ & Hx).
    apply number_set_cases in Hx as [->|[Ht ->]]; [by split|]. split; [done|].
    intros _. by apply number_test_ok in Ht.
  - apply result_bind_Ok in Hs as (y & Hy & [= <-]).
    apply float_set_cases in Hy as [->|[Ht ->]]; [by split|]. by split.
  - injection Hs as <-. apply enum_set_cases in Hx as [->|(w & Ht & ->)]; [by split|].
    split; [done|]. intros _. unfold enum_test in Ht. by case_bool_decide.
  - injection Hs as <-. by apply string_set_cases in Hx as [->| ->].
  - injection Hs as <-. by apply list_set_cases in Hx as [->| ->].
  - injection Hs as <-. apply path_set_cases in Hx as [->|[Ht ->]]; [by split|]. split; [done|].
    intros _ _. exact Ht.
Qed.

Lemma on_list_steady f o o' :
  (forall l l', f l = Ok l' -> steady (AList l) (AList l')) -> on_list f o = Ok o' -> steady o o'.
Proof.
  intros Hf. destruct o; simpl; try (intros [= <-]; apply steady_refl).
  intros Hs. apply result_bind_Ok in Hs as (l & Hl & [= <-]). by apply Hf.
Qed.

Lemma list_set_steady p v l l' : list_set p v l = Ok l' -> steady (AList l) (AList l').
Proof. by intros [->| ->]%list_set_cases. Qed.

Lemma append_loop_steady p add val first l l' :
  append_loop p add val first l = Ok l' -> steady (AList l) (AList l').
Proof.
  revert first l. induction val as [|item val IH]; intros first l; cbn [append_loop].
  { intros [= <-]. apply steady_refl. }
  intros Hs. apply result_bind_Ok in Hs as (l1 & H1 & Hs). eapply steady_trans; [|by eapply IH].
  repeat case_match; try (injection H1 as <-; apply steady_refl); by eapply list_set_steady.
Qed.

Lemma bound_set_steady how p v o o' : bound_set how p v o = Ok o' -> steady o o'.
Proof.
  destruct how; simpl.
  - apply any_set_string_steady.
  - apply on_list_steady. intros l l'. unfold option_list_append.
    case_match; [apply list_set_steady|apply append_loop_steady].
  - case_match; [|intros [= <-]; apply steady_refl]. intros Hs. apply result_bind_Ok in Hs as (w & _ & Hs).
    revert Hs. apply on_list_steady. intros l l'. apply list_set_steady.
Qed.

(** A setting by name that does not throw changes at most the member the name
    is bound to, and that steadily. *)
Lemma new_string_member m how p v cfg cfg' :
  item_new_string (main_item m how) p v cfg = Ok cfg' ->
  (cfg !! m = None /\ cfg' = cfg)
  \/ exists o o', cfg !! m = Some o /\ bound_set how p v o = Ok o' /\ cfg' = <[m := o']> cfg.
Proof.
  assert (Hm : on_member m (bound_set how p v) cfg = Ok cfg' ->
    (cfg !! m = None /\ cfg' = cfg)
    \/ exists o o', cfg !! m = Some o /\ bound_set how p v o = Ok o' /\ cfg' = <[m := o']> cfg).
  { unfold on_member. destruct (cfg !! m) as [o|]; [|intros [= <-]; by left].
    intros Hs. apply result_bind_Ok in Hs as (o' & Ho & [= <-]). right. by exists o, o'. }
  by destruct how.
Qed.

(** ** The table of names *)

Definition all_names : list (string * (string * binding)) := main_names ++ main_repo_names.
(** The member a name leads to, and how. *)
Definition binding_of (id : cstr) : option (string * binding) :=
  (list_to_map ((fun x => (lit (fst x), snd x)) <$> all_names) : gmap cstr (string * binding)) !! id.

Lemma all_names_unique : NoDup (lit <$> all_names.*1).
Proof. apply (bool_decide_unpack _); vm_compute; exact I. Qed.

Lemma items_of_names names : (items_of names).*1 = lit <$> names.*1.
Proof. unfold items_of. by rewrite <-!list_fmap_compose. Qed.

(** No name is registered twice, so the constructor does not throw. *)
Lemma main_binds_ok : main_binds = Ok (list_to_map (items_of all_names)).
Proof. apply add_all_ok. rewrite items_of_names. apply all_names_unique. Qed.

Lemma opt_binds_lookup id :
  opt_binds !! id = (fun b => main_item (fst b) (snd b)) <$> binding_of id.
Proof.
  unfold opt_binds. rewrite main_binds_ok. unfold binding_of. rewrite <-lookup_fmap, <-list_to_map_fmap.
  unfold items_of. by rewrite <-list_fmap_compose.
Qed.

Lemma names_are_members : Forall (fun x => fst (snd x) ∈ (members ++ repo_members).*1) all_names.
Proof. apply (bool_decide_unpack _); vm_compute; exact I. Qed.

Lemma binding_of_member id m how : binding_of id = Some (m, how) -> m ∈ (members ++ repo_members).*1.
Proof.
  unfold binding_of. intros Hb%elem_of_list_to_map_2. apply list_elem_of_fmap in Hb as ([n b] & Hb & Hin).
  injection Hb as -> <-. pose proof names_are_members as Hall. rewrite Forall_forall in Hall.
  exact (Hall _ Hin).
Qed.

Lemma main_binds_eq : main_binds = Ok opt_binds.
Proof. unfold opt_binds. by rewrite main_binds_ok. Qed.

#[global] Arguments binding_of : simpl never.
#[global] Arguments opt_binds : simpl never.
#[global] Opaque binding_of opt_binds.

(** ** What loading does *)

(** What every setting of the section keeps, the loading keeps. *)
Lemma load_section_inv {S} (P : S -> Prop) binds p section opts s log s' log' e :
  (forall id v item s s', (id, v) ∈ opts -> binds !! id = Some item -> P s ->
     item_new_string item p v s = Ok s' -> P s') ->
  P s -> load_section binds p section opts s log = (s', log', e) -> P s'.
Proof.
  revert s log. induction opts as [|[k v] opts IH]; intros s log Hstep Hs; cbn [load_section];
    [by intros [= <- <- <-]|].
  assert (Hrest : forall s log, P s -> load_section binds p section opts s log = (s', log', e) -> P s').
  { intros s1 log1. apply IH. intros id w item s2 s3 Hin. apply Hstep. by right. }
  destruct (binds !! k) as [item|] eqn:Hk; [|by apply Hrest].
  destruct (item_new_string _ _ _ _) eqn:Hn.
  - apply Hrest. eapply Hstep; [left|done..].
  - case_match; [by apply Hrest|]. by intros [= <- <- <-].
Qed.

(** The settings a section has for a member, and what one of them does: a
    setting that throws is skipped. *)
Definition settings (m : string) (opts : list (cstr * cstr)) : list (binding * cstr) :=
  omap (fun kv => b ← binding_of (fst kv); if decide (fst b = m) then Some (snd b, snd kv) else None) opts.
Lemma settings_cons m k v opts :
  settings m ((k, v) :: opts)
  = match binding_of k with
    | Some (m1, how) => if decide (m1 = m) then (how, v) :: settings m opts else settings m opts
    | None => settings m opts
    end.
Proof. unfold settings. simpl. destruct (binding_of k) as [[m1 how]|]; simpl; [|done]. by case_decide. Qed.

Definition try_set (p : Priority) (o : AnyOption) (x : binding * cstr) : AnyOption :=
  match bound_set (fst x) p (snd x) o with Ok o => o | Err _ => o end.

Lemma new_string_error m how p v cfg e :
  item_new_string (main_item m how) p v cfg = Err e ->
  exists o, cfg !! m = Some o /\ bound_set how p v o = Err e.
Proof.
  assert (Hm : on_member m (bound_set how p v) cfg = Err e ->
    exists o, cfg !! m = Some o /\ bound_set how p v o = Err e).
  { unfold on_member. destruct (cfg !! m) as [o|]; [|done].
    intros [Hs|(o' & _ & ?)]%result_bind_Err; [|done]. by exists o. }
  by destruct how.
Qed.

Lemma load_section_members p section opts cfg log cfg' log' :
  load_section opt_binds p section opts cfg log = (cfg', log', None) ->
  forall m, cfg' !! m = (fun o => foldl (try_set p) o (settings m opts)) <$> cfg !! m.
Proof.
  revert cfg log. induction opts as [|[k v] opts IH]; intros cfg log; cbn [load_section].
  { intros [= <- <-] m; unfold settings. simpl. by destruct (cfg !! m). }
  rewrite opt_binds_lookup. intros Hl m. rewrite settings_cons.
  destruct (binding_of k) as [[m1 how]|]; cbn [fmap option_fmap option_map fst snd] in *;
    [|by apply (IH _ _ Hl)].
  destruct (item_new_string _ _ _ _) as [cfg1|e] eqn:Hi.
  - rewrite (IH _ _ Hl m). apply new_string_member in Hi as [[Hn ->]|(o & o' & Ho & Hb & ->)].
    + case_decide as Hm; [|done]. subst m1. by rewrite Hn.
    + case_decide as Hm.
      * subst m1. rewrite lookup_insert_eq, Ho. cbn [fmap option_fmap option_map foldl]. unfold try_set at 3. cbn [fst snd]. by rewrite Hb.
      * by rewrite lookup_insert_ne.
  - destruct (is_option_exception e); [|done]. rewrite (IH _ _ Hl m).
    case_decide as Hm; [|done]. subst m1. apply new_string_error in Hi as (o & Ho & Hb).
    rewrite Ho. cbn [fmap option_fmap option_map foldl]. unfold try_set at 3. cbn [fst snd]. by rewrite Hb.
Qed.

(** What a setting throws, when the settings [before] it have been made. *)
Definition complaint (p : Priority) (cfg : Main) (before : list (cstr * cstr)) (kv : cstr * cstr) : option opt_error :=
  b ← binding_of (fst kv);
  o ← cfg !! fst b;
  match bound_set (snd b) p (snd kv) (foldl (try_set p) o (settings (fst b) before)) with Ok _ => None | Err e => Some e end.
Definition warnings (p : Priority) (section : cstr) (cfg : Main) (opts : list (cstr * cstr)) : list warning :=
  concat (imap (fun i kv => match complaint p cfg (take i opts) kv with Some e => [(section, fst kv, e)] | None => [] end) opts).

Lemma load_section_cons p section kv opts cfg log :
  load_section opt_binds p section (kv :: opts) cfg log
  = let '(cfg1, log1, e) := load_section opt_binds p section [kv] cfg log in
    match e with None => load_section opt_binds p section opts cfg1 log1 | Some e => (cfg1, log1, Some e) end.
Proof.
  destruct kv as [k v]. cbn [load_section]. destruct (opt_binds !! k) as [item|]; [|done].
  destruct (item_new_string _ _ _ _) as [cfg1|e]; [done|]. by destruct (is_option_exception e).
Qed.

(** A single setting is logged just when it throws. *)
Lemma load_one_log p section kv cfg log cfg' log' :
  load_section opt_binds p section [kv] cfg log = (cfg', log', None) ->
  log' = log ++ warnings p section cfg [kv] /\ forall e, complaint p cfg [] kv = Some e -> is_option_exception e = true.
Proof.
  destruct kv as [k v]. cbn [load_section]. unfold warnings, complaint. cbn [imap concat fst snd take]. rewrite opt_binds_lookup.
  destruct (binding_of k) as [[m how]|]; simpl; [|intros [= <- <-]; by rewrite app_nil_r].
  destruct (item_new_string _ _ _ _) as [cfg1|e] eqn:Hi.
  - intros [= <- <-]. apply new_string_member in Hi as [[-> _]|(o & o' & -> & Hb & _)]; simpl; [by rewrite app_nil_r|].
    rewrite Hb. by rewrite app_nil_r.
  - destruct (is_option_exception e) eqn:He; [|done]. intros [= <- <-]. apply new_string_error in Hi as (o & -> & Hb). simpl.
    rewrite Hb. split; [done|]. by intros e' [= <-].
Qed.

Lemma settings_app m opts opts' : settings m (opts ++ opts') = settings m opts ++ settings m opts'.
Proof. apply omap_app. Qed.
Lemma complaint_after p cfg cfg1 kv before kv' :
  (forall m, cfg1 !! m = (fun o => foldl (try_set p) o (settings m [kv])) <$> cfg !! m) ->
  complaint p cfg1 before kv' = complaint p cfg (kv :: before) kv'.
Proof.
  intros Hset. unfold complaint. destruct (binding_of (fst kv')) as [[m how]|]; [|done]. cbn [fst snd mbind option_bind]. rewrite Hset.
  destruct (cfg !! m) as [o|]; [|done]. cbn [fmap option_fmap option_map mbind option_bind].
  change (kv :: before) with ([kv] ++ before). by rewrite settings_app, foldl_app.
Qed.

(** The warnings of a section: exactly the settings that threw, in their order. *)
Lemma load_section_log p section opts cfg log cfg' log' :
  load_section opt_binds p section opts cfg log = (cfg', log', None) ->
  log' = log ++ warnings p section cfg opts
  /\ forall before kv after e, opts = before ++ kv :: after -> complaint p cfg before kv = Some e -> is_option_exception e = true.
Proof.
  revert cfg log. induction opts as [|kv opts IH]; intros cfg log.
  { intros [= <- <-]. split; [by rewrite app_nil_r|]. by intros [] ????. }
  rewrite load_section_cons. destruct (load_section _ _ _ [kv] _ _) as [[cfg1 log1] [e|]] eqn:H1; [done|]. intros H2.
  pose proof (load_section_members _ _ _ _ _ _ _ H1) as Hm. destruct (load_one_log _ _ _ _ _ _ _ H1) as [-> He].
  destruct (IH _ _ H2) as [-> Hes]. split.
  - rewrite <-app_assoc. f_equal. unfold warnings. cbn [imap concat]. rewrite app_nil_r. f_equal. f_equal. apply imap_ext. intros i x _. simpl.
    by rewrite (complaint_after p cfg cfg1 kv).
  - intros [|x before] kv' after e [= -> ->]; [apply He|]. rewrite <-(complaint_after p cfg cfg1) by done. by eapply Hes.
Qed.

Lemma any_set_low p v o o' :
  ge_prio p (any_priority o) = false -> any_set_string p v o = Ok o' -> o' = o.
Proof.
  intros Hp. destruct o as [o|o|o|o|o|o|o]; cbn [any_set_string any_priority] in *; simpl in Hp;
    intros Hs; apply result_bind_Ok in Hs as (x & Hx & Hs).
  - injection Hs as <-. apply result_bind_Ok in Hx as (w & _ & Hx). unfold bool_set in Hx.
    rewrite Hp in Hx. by injection Hx as <-.
  - injection Hs as <-. apply result_bind_Ok in Hx as (w & _ & Hx). unfold number_set in Hx.
    rewrite Hp in Hx. by injection Hx as <-.
  - apply result_bind_Ok in Hs as (y & Hy & [= <-]). unfold float_set in Hy. rewrite Hp in Hy.
    by injection Hy as <-.
  - injection Hs as <-. apply result_bind_Ok in Hx as (w & _ & Hx). rewrite Hp in Hx. by injection Hx as <-.
  - injection Hs as <-. unfold string_set in Hx. rewrite Hp in Hx. by injection Hx as <-.
  - injection Hs as <-. unfold list_set_string, list_set in Hx. rewrite Hp in Hx. by injection Hx as <-.
  - injection Hs as <-. unfold path_set in Hx. rewrite Hp in Hx. by injection Hx as <-.
Qed.

Lemma try_set_low p o how v :
  how <> Append -> ge_prio p (any_priority o) = false -> try_set p o (how, v) = o.
Proof.
  intros Hh Hp. unfold try_set. cbn [fst snd]. destruct how; [|by destruct Hh|]; cbn [bound_set].
  - destruct (any_set_string p v o) eqn:Hs; [|done]. by eapply any_set_low.
  - by rewrite Hp.
Qed.

(** C5. Loading a section changes every member of the configuration on its own:
    its value is what the settings of the section for this member make of it,
    one after the other, where a setting that throws is skipped. Exactly the settings
    that throw are logged, in their order, each with its exception, which is one of
    an option; keys that are no option are ignored. A member that
    already has a higher priority (from the command line, say) and has no
    appending name is left as it is. *)
Theorem load_section_spec p section opts cfg log cfg' log' :
  load_section opt_binds p section opts cfg log = (cfg', log', None) ->
  (forall m, cfg' !! m = (fun o => foldl (try_set p) o (settings m opts)) <$> cfg !! m)
  /\ log' = log ++ warnings p section cfg opts
  /\ (forall before kv after e, opts = before ++ kv :: after -> complaint p cfg before kv = Some e ->
      is_option_exception e = true)
  /\ (forall m o, cfg !! m = Some o -> ge_prio p (any_priority o) = false ->
      Forall (fun x => fst x <> Append) (settings m opts) -> cfg' !! m = Some o).
Proof.
  intros Hl. pose proof (load_section_members _ _ _ _ _ _ _ Hl) as Hm.
  destruct (load_section_log _ _ _ _ _ _ _ Hl) as [H1 H2].
  split_and!; [done|done|done|]. intros m o Ho Hp Hs. rewrite Hm, Ho. simpl. f_equal.
  induction Hs as [|[how v] opts' Hh _ IH]; simpl; [done|]. by rewrite try_set_low.
Qed.

(** ** Construction and the invariant *)

(** The configurations that arise: the members as they were constructed, up to
    values and priorities, with values that satisfy their requirements. *)
Definition config_wf (cfg : Main) : Prop :=
  exists cfg0, new_main = Ok cfg0 /\ shape <$> cfg = shape <$> cfg0
  /\ map_Forall (fun _ o => any_ok o) cfg.

(** What a constructor of a member returns satisfies its requirements. *)
Definition constructs_ok (r : result opt_error AnyOption) : Prop := forall o, r = Ok o -> any_ok o.

Lemma a_bool_ok d : constructs_ok (a_bool d).
Proof. by intros o [= <-]. Qed.

Lemma new_number_ok t d mn mx user :
  constructs_ok (let* o := new_number t d mn mx user in Ok (ANumber o)).
Proof.
  intros o Hs. apply result_bind_Ok in Hs as (n & Hn & [= <-]).
  apply result_bind_Ok in Hn as ([] & Ht & [= <-]). by apply number_test_ok in Ht.
Qed.

Lemma a_number_between_ok t d mn mx : constructs_ok (a_number_between t d mn mx).
Proof. apply new_number_ok. Qed.
Lemma a_number_min_ok t d mn user : constructs_ok (a_number_min t d mn user).
Proof. apply new_number_ok. Qed.
Lemma a_number_ok t d user : constructs_ok (a_number t d user).
Proof. apply new_number_ok. Qed.
Lemma a_seconds_ok d : constructs_ok (a_seconds d).
Proof. apply new_number_ok. Qed.

Lemma a_float_ok d mn user : constructs_ok (a_float d mn user).
Proof.
  intros o Hs. apply result_bind_Ok in Hs as (n & Hn & [= <-]).
  apply result_bind_Ok in Hn as ([] & Ht & [= <-]). exact Ht.
Qed.

Lemma a_enum_ok d vals user : constructs_ok (a_enum d vals user).
Proof.
  intros o Hs. apply result_bind_Ok in Hs as (n & Hn & [= <-]).
  apply result_bind_Ok in Hn as ([] & Ht & [= <-]). unfold enum_test in Ht. simpl in *. by case_bool_decide.
Qed.

Lemma a_string_ok d : constructs_ok (a_string d).
Proof. by intros o [= <-]. Qed.

Lemma a_list_ok d : constructs_ok (a_list d).
Proof. by intros o [= <-]. Qed.

Lemma a_globs_ok d : constructs_ok (a_globs d).
Proof. intros o Hs. by apply result_bind_Ok in Hs as (n & Hn & [= <-]). Qed.

Lemma a_path_ok d e a : constructs_ok (a_path d e a).
Proof.
  intros o Hs. apply result_bind_Ok in Hs as (n & Hn & [= <-]). destruct d as [d|]; simpl in Hn.
  - apply result_bind_Ok in Hn as ([] & Ht & [= <-]). intros _. exact Ht.
  - injection Hn as <-. intros Hne. by destruct Hne.
Qed.

Create HintDb config discriminated.
#[local] Hint Resolve a_bool_ok a_number_between_ok a_number_min_ok a_number_ok a_seconds_ok a_float_ok
  a_enum_ok a_string_ok a_list_ok a_globs_ok a_path_ok : config.

Lemma members_ok : Forall (fun x => constructs_ok (snd x)) (members ++ repo_members).
Proof.
  apply Forall_app. split; unfold members, repo_members;
    (repeat (apply List.Forall_cons; [cbn [snd]; auto 2 with config|])); apply List.Forall_nil.
Qed.

Lemma construct_ok ms cfg cfg' :
  Forall (fun x => constructs_ok (snd x)) ms -> map_Forall (fun _ o => any_ok o) cfg ->
  construct ms cfg = Ok cfg' -> map_Forall (fun _ o => any_ok o) cfg'.
Proof.
  intros Hms. revert cfg. induction Hms as [|[m r] ms Hr _ IH]; intros cfg Hc; simpl; [by intros [= <-]|].
  intros Hs. apply result_bind_Ok in Hs as (o & Ho & Hs). eapply IH; [|exact Hs].
  apply map_Forall_insert_2; [by apply Hr|done].
Qed.

Lemma config_wf_member cfg m o o' :
  config_wf cfg -> cfg !! m = Some o -> steady o o' -> config_wf (<[m := o']> cfg).
Proof.
  intros (cfg0 & Hnew & Hshape & Hok) Hm [Hs Hk]. exists cfg0. split_and!; [done| |].
  - rewrite fmap_insert, Hs. rewrite insert_id; [done|]. by rewrite lookup_fmap, Hm.
  - apply map_Forall_insert_2; [|done]. apply Hk. by apply (Hok m).
Qed.

Lemma new_string_wf id item p v cfg cfg' :
  config_wf cfg -> opt_binds !! id = Some item -> item_new_string item p v cfg = Ok cfg' -> config_wf cfg'.
Proof.
  intros Hwf. rewrite opt_binds_lookup. destruct (binding_of id) as [[m how]|]; [|done].
  intros [= <-] [[_ ->]|(o & o' & Ho & Hb & ->)]%new_string_member; [done|].
  eapply config_wf_member; [done..|]. by eapply bound_set_steady.
Qed.

Lemma load_section_wf p section opts cfg log cfg' log' e :
  config_wf cfg -> load_section opt_binds p section opts cfg log = (cfg', log', e) -> config_wf cfg'.
Proof.
  intros Hwf Hl. eapply (load_section_inv config_wf); [|exact Hwf|exact Hl].
  intros id v item s s' _ Hi Hs Hn. by eapply new_string_wf.
Qed.

Lemma new_main_wf cfg : new_main = Ok cfg -> config_wf cfg.
Proof.
  intros Hnew. exists cfg. split; [exact Hnew|]. split; [reflexivity|]. apply new_main_construct in Hnew.
  revert Hnew. apply construct_ok; [apply members_ok|apply map_Forall_empty].
Qed.

(** C4. Every configuration is well formed: as it is constructed, after any
    setting by name, and after any loading of a section, even one that ends
    with an exception, it
    has the same members with the same types, limits, conversions and
    defaults, every number is within its limits, every enumeration holds one
    of its values and every path satisfies its requirements. *)
Theorem config_invariant :
  (forall cfg, new_main = Ok cfg -> config_wf cfg)
  /\ (forall cfg id item p v cfg', config_wf cfg -> opt_binds !! id = Some item ->
      item_new_string item p v cfg = Ok cfg' -> config_wf cfg')
  /\ (forall cfg log parser section cfg' log' e, config_wf cfg ->
      load_config_from_parser parser section cfg log = (cfg', log', e) -> config_wf cfg').
Proof.
  split_and!.
  - apply new_main_wf.
  - intros cfg id item p v cfg'. apply new_string_wf.
  - intros cfg log parser section cfg' log' e Hwf. unfold load_config_from_parser.
    destruct (PreserveOrderMap.lookup _ _); [|by intros [= <- <- <-]]. by apply load_section_wf.
Qed.

(** ** A configuration as it is constructed *)

(** The option holds its default. *)
Definition fresh (o : AnyOption) : Prop := any_priority o = DEFAULT \/ any_priority o = EMPTY.
Definition constructs_fresh (r : result opt_error AnyOption) : Prop := exists o, r = Ok o /\ fresh o.

Lemma add_from_paths_ok paths :
  Forall (fun path => last path = Some "/"%char \/ is_Some (open_file path)) paths ->
  exists t, add_from_paths paths = Ok t.
Proof.
  intros Hp. induction Hp as [|path paths Hpath _ [t IH]]; simpl; [by eexists|]. rewrite IH.
  case_bool_decide as Hlast; simpl; [by eexists|]. destruct Hpath as [?|[text Ht]]; [done|].
  unfold add_from_file. rewrite Ht. by eexists.
Qed.

Lemma new_number_fresh t d mn mx user :
  (mn <=? d)%Z && (d <=? mx)%Z = true ->
  constructs_fresh (let* o := new_number t d mn mx user in Ok (ANumber o)).
Proof.
  intros Hd. apply andb_true_iff in Hd as [H1%Z.leb_le H2%Z.leb_le].
  assert (Ht : number_test (mkNumber t DEFAULT user d mn mx d) d = Ok tt) by by apply number_test_ok.
  unfold new_number. rewrite Ht. eexists. split; [reflexivity|]. by left.
Qed.

Lemma a_bool_fresh d : constructs_fresh (a_bool d).
Proof. eexists. split; [reflexivity|]. by left. Qed.

Lemma a_string_fresh d : constructs_fresh (a_string d).
Proof. eexists. split; [reflexivity|]. destruct d; [by left|by right]. Qed.

Lemma a_list_fresh d : constructs_fresh (a_list d).
Proof. eexists. split; [reflexivity|]. by left. Qed.

Lemma a_float_fresh d mn user :
  flt d mn || flt float_max d = false -> constructs_fresh (a_float d mn user).
Proof.
  intros Hd. unfold a_float, new_float, float_test. simpl. rewrite Hd. simpl.
  eexists. split; [reflexivity|]. by left.
Qed.

Lemma a_enum_fresh d vals user : bool_decide (d ∈ vals) = true -> constructs_fresh (a_enum d vals user).
Proof.
  intros Hd. apply bool_decide_eq_true in Hd. unfold a_enum, new_enum, enum_test. simpl.
  rewrite bool_decide_eq_true_2 by by apply list_elem_of_fmap_2. simpl.
  eexists. split; [reflexivity|]. by left.
Qed.

(** A path that need not exist. *)
Lemma a_path_fresh d abs_path :
  (match d with Some d => negb abs_path || bool_decide (head (remove_file_prot (lit d)) = Some "/"%char)
   | None => true end) = true ->
  constructs_fresh (a_path d false abs_path).
Proof.
  intros Hd. destruct d as [d|]; [|eexists; split; [reflexivity|]; by right].
  assert (Ht : forall s, path_test (mkPath s false abs_path) (remove_file_prot (lit d)) = Ok tt).
  { intros s. unfold path_test. cbn [p_abs_path p_exists andb].
    destruct abs_path; cbn [negb orb andb] in *; [by rewrite Hd|done]. }
  unfold a_path, new_path_ptr, finish_path. cbn [fmap option_fmap option_map new_string s_default].
  rewrite Ht. eexists. split; [reflexivity|]. by left.
Qed.

Ltac fresh_member :=
  lazymatch goal with
  | |- constructs_fresh (a_bool _) => apply a_bool_fresh
  | |- constructs_fresh (a_string _) => apply a_string_fresh
  | |- constructs_fresh (a_list _) => apply a_list_fresh
  | |- constructs_fresh (a_path _ _ _) => apply a_path_fresh; vm_compute; reflexivity
  | |- constructs_fresh (a_enum _ _ _) => apply a_enum_fresh; vm_compute; reflexivity
  | |- constructs_fresh (a_float _ _ _) => apply a_float_fresh; vm_compute; reflexivity
  | |- constructs_fresh (a_globs _) => idtac
  | |- _ => apply new_number_fresh; vm_compute; reflexivity
  end.

Section readable.
(** Every file a pattern matches can be opened. *)
Context (Hreadable : forall pattern,
  Forall (fun path => last path = Some "/"%char \/ is_Some (open_file path)) (glob pattern)).

Lemma pieces_text_ok ws : exists t, pieces_text ws = Ok t.
Proof.
  assert (Hp : forall final w, exists t, piece_text final w = Ok t).
  { intros final w. unfold piece_text. case_match; [|by eexists]. case_match; [by eexists|].
    apply add_from_paths_ok, Hreadable. }
  induction ws as [|w ws [t IH]]; [by eexists|]. destruct ws as [|w' ws]; [apply Hp|].
  rewrite pieces_text_cons by done. destruct (Hp false w) as [a ->]. rewrite IH. by eexists.
Qed.

Lemma resolve_globs_ok s : exists t, resolve_globs s = Ok t.
Proof.
  unfold resolve_globs, resolve_globs_opt.
  rewrite (resolve_loop_pieces (S (length s)) [] s) by lia. apply pieces_text_ok.
Qed.

Lemma a_globs_fresh d : constructs_fresh (a_globs d).
Proof.
  unfold a_globs. destruct (resolve_globs_ok (lit d)) as [t ->]. eexists. split; [reflexivity|]. by left.
Qed.

Lemma members_fresh : Forall (fun x => constructs_fresh (snd x)) (members ++ repo_members).
Proof.
  apply Forall_app. split; unfold members, repo_members;
    (repeat (apply List.Forall_cons; [cbn [snd]; fresh_member; try apply a_globs_fresh|]));
    apply List.Forall_nil.
Qed.
End readable.

Lemma construct_total ms cfg :
  Forall (fun x => constructs_fresh (snd x)) ms -> map_Forall (fun _ o => fresh o) cfg ->
  exists cfg', construct ms cfg = Ok cfg' /\ map_Forall (fun _ o => fresh o) cfg'
  /\ forall m, m ∈ ms.*1 \/ is_Some (cfg !! m) -> is_Some (cfg' !! m).
Proof.
  intros Hms. revert cfg. induction Hms as [|[m r] ms (o & Ho & Hfr) _ IH]; intros cfg Hc; simpl.
  { exists cfg. split_and!; [done..|]. intros m [[]%elem_of_nil|?]; done. }
  simpl in Ho. rewrite Ho. simpl.
  destruct (IH (<[m := o]> cfg)) as (cfg' & Hcfg & Hf & Hin); [by apply map_Forall_insert_2|].
  exists cfg'. split_and!; [done..|]. intros m' Hm'. apply Hin.
  destruct (decide (m' = m)) as [->|Hne]; [right; rewrite lookup_insert_eq; by eexists|].
  rewrite lookup_insert_ne by done. destruct Hm' as [Hm'|]; [|by right].
  apply elem_of_cons in Hm' as [?|?]; [done|by left].
Qed.

(** When the files that the patterns of [protected_packages] match can be
    opened, the main configuration is constructed without an exception: no
    default is refused, no name is registered twice, and every name leads to a
    member, which holds its default. *)
Theorem main_config_ready :
  (forall pattern, Forall (fun path => last path = Some "/"%char \/ is_Some (open_file path)) (glob pattern)) ->
  exists cfg, new_main = Ok cfg /\ main_binds = Ok opt_binds
  /\ forall id item, opt_binds !! id = Some item ->
     exists m how o, item = main_item m how /\ cfg !! m = Some o /\ fresh o.
Proof.
  intros Hr. destruct (construct_total (members ++ repo_members) ∅) as (cfg & Hcfg & Hf & Hin).
  - by apply members_fresh.
  - apply map_Forall_empty.
  - exists cfg. split; [exact Hcfg|]. split; [apply main_binds_eq|].
    intros id item. rewrite opt_binds_lookup. destruct (binding_of id) as [[m how]|] eqn:Hb; [|done].
    intros [= <-]. apply binding_of_member in Hb.
    destruct (Hin m (or_introl Hb)) as [o Ho]. exists m, how, o. split_and!; [done..|].
    by apply (Hf m).
Qed.
End main.

(** ** Variables from the environment and from directories *)

(** The name and value an entry of [environ] gives, if any. *)
Definition env_var (var : cstr) : option (cstr * cstr) :=
  eql_idx ← find_idx (fun c => bool_decide (c = "="%char)) var;
  let value := drop (S eql_idx) var in
  if bool_decide (eql_idx = 4) && starts_with var (lit "DNF")
     && match var !! 3 with Some c => is_digit c | None => false end
  then Some (take eql_idx var, value)
  else if (8 <? eql_idx) && starts_with var (lit "DNF_VAR_")
     && (length (fst (span ConfigParser.name_char (drop 8 var))) =? eql_idx - 8)
  then Some (take (eql_idx - 8) (drop 8 var), value)
  else None.

Definition add_vars_from_env (environ : list cstr) (vars_map : gmap cstr cstr) : gmap cstr cstr :=
  foldl (fun m var => match env_var var with Some (k, v) => <[k := v]> m | None => m end) vars_map environ.

(** [entries] are the names in the directory, in the order of [readdir]; of a
    file that can be read and is not empty the first line is taken. *)
Definition add_vars_from_dir `{Files} (entries : list cstr) (dir_path : cstr) (vars_map : gmap cstr cstr)
  : gmap cstr cstr :=
  foldl (fun m dname =>
    if bool_decide (dname = lit ".") || bool_decide (dname = lit "..") then m else
    let full_path := dir_path ++ (if bool_decide (last dir_path = Some "/"%char) then [] else lit "/") ++ dname in
    match open_file full_path with
    | None | Some [] => m
    | Some text => <[dname := fst (span (fun c => negb (bool_decide (c = nl))) text)]> m
    end) vars_map entries.

Definition dnf_digit (k : cstr) : Prop := exists d, is_digit d = true /\ k = lit "DNF" ++ [d].
Definition var_name (k : cstr) : Prop := k <> [] /\ Forall (fun c => ConfigParser.name_char c = true) k.

Lemma eql_not_name : ConfigParser.name_char "="%char = false.
Proof. reflexivity. Qed.

Lemma find_eql k v :
  Forall (fun c => ConfigParser.name_char c = true) k ->
  find_idx (fun c => bool_decide (c = "="%char)) (k ++ "="%char :: v) = Some (length k).
Proof.
  intros Hk. rewrite find_idx_app_r, find_idx_hit; [simpl; f_equal; lia|done|].
  eapply Forall_impl; [exact Hk|]. intros c Hc. apply bool_decide_eq_false. intros ->.
  rewrite eql_not_name in Hc. done.
Qed.

Lemma digit_name d : is_digit d = true -> ConfigParser.name_char d = true.
Proof. intros Hd. unfold ConfigParser.name_char, is_alnum. by rewrite Hd. Qed.

Lemma env_var_digit k v : dnf_digit k -> env_var (k ++ "="%char :: v) = Some (k, v).
Proof.
  intros (d & Hd & ->). unfold env_var. rewrite find_eql.
  - simpl. by rewrite Hd.
  - repeat (constructor; [done|]). by constructor; [apply digit_name|].
Qed.

Lemma env_var_name k v : var_name k -> env_var (lit "DNF_VAR_" ++ k ++ "="%char :: v) = Some (k, v).
Proof.
  intros [Hne Hk]. assert (Hl : length k <> 0) by by destruct k. unfold env_var. rewrite app_assoc, find_eql.
  2:{ apply Forall_app. split; [|done]. repeat (constructor; [reflexivity|]). constructor. }
  assert (Hlen : length (lit "DNF_VAR_" ++ k) = 8 + length k) by (by rewrite length_app).
  cbn [mbind option_bind]. rewrite Hlen, bool_decide_eq_false_2 by lia. cbn [andb].
  replace (8 <? 8 + length k) with true by (symmetry; apply Nat.ltb_lt; lia).
  rewrite <-app_assoc, (drop_app_length (lit "DNF_VAR_") (k ++ _) : drop 8 _ = _).
  rewrite (proj2 (starts_with_spec _ (lit "DNF_VAR_"))) by by eexists.
  rewrite (span_app _ k) by done. cbn [fst andb]. replace (8 + length k - 8) with (length k) by lia.
  rewrite Nat.eqb_refl, take_app_length. repeat f_equal.
  replace (S (8 + length k)) with (length (lit "DNF_VAR_" ++ k ++ ["="%char]))
    by (rewrite !length_app; simpl; lia).
  replace (lit "DNF_VAR_" ++ k ++ "="%char :: v) with ((lit "DNF_VAR_" ++ k ++ ["="%char]) ++ v)
    by (by rewrite <-!app_assoc). apply drop_app_length.
Qed.

Lemma env_var_cases var k v :
  env_var var = Some (k, v) ->
  (dnf_digit k /\ var = k ++ "="%char :: v) \/ (var_name k /\ var = lit "DNF_VAR_" ++ k ++ "="%char :: v).
Proof.
  unfold env_var. destruct (find_idx _ var) as [n|] eqn:Hi; [|done]. cbn [mbind option_bind].
  apply find_idx_split in Hi as (w & c & r & -> & <- & _ & Hc). apply bool_decide_eq_true in Hc as ->.
  assert (Hd : drop (S (length w)) (w ++ "="%char :: r) = r).
  { replace (S (length w)) with (length (w ++ ["="%char])) by (rewrite length_app; simpl; lia).
    replace (w ++ "="%char :: r) with ((w ++ ["="%char]) ++ r) by (by rewrite <-app_assoc).
    apply drop_app_length. }
  rewrite Hd. destruct (_ && _ && _) eqn:H1.
  - intros [= <- <-]. left. rewrite take_app_length. split; [|done].
    apply andb_true_iff in H1 as [[H1 H2]%andb_true_iff H3]. apply bool_decide_eq_true in H1.
    apply starts_with_spec in H2 as [t Ht].
    destruct w as [|c1 [|c2 [|c3 [|c4 [|]]]]]; try done. injection Ht as -> -> -> _. by exists c4.
  - clear H1. destruct (_ && _ && _) eqn:H2; [|done]. intros [= <- <-]. right.
    apply andb_true_iff in H2 as [[H1 H2]%andb_true_iff H3]. apply Nat.ltb_lt in H1.
    apply starts_with_spec in H2 as [t Ht]. rewrite Ht in H3 |- *.
    assert (Hw : exists u, w = lit "DNF_VAR_" ++ u).
    { apply app_eq_inv in Ht as [(u & -> & _)|(u & Hu & _)]; [by exists u|].
      apply (f_equal length) in Hu. rewrite length_app in Hu. simpl in Hu. lia. }
    destruct Hw as [u ->]. rewrite <-app_assoc in Ht. apply app_inv_head in Ht. subst t.
    rewrite length_app in *. rewrite (drop_app_length (lit "DNF_VAR_") (u ++ _) : drop 8 _ = _) in *.
    change (length (lit "DNF_VAR_")) with 8 in *. replace (8 + length u - 8) with (length u) in * by lia.
    rewrite take_app_length. split; [|done]. split; [intros ->; simpl in H1; lia|].
    destruct (span _ _) as [a b] eqn:Hs. apply span_spec in Hs as [Hab Ha]. apply Nat.eqb_eq in H3. simpl in H3.
    apply app_inj_1 in Hab as [-> _]; [done|by rewrite H3].
Qed.

(** What the environment adds to the variables: the value of a variable is
    that of the last entry that defines it, [DNF<digit>=value] under its own
    name or [DNF_VAR_<name>=value] for a non-empty name of letters, digits and
    underscores; every other entry is ignored, and a variable that no entry
    defines keeps its value. *)
Theorem vars_from_env_spec environ vars k :
  let defines var v := (dnf_digit k /\ var = k ++ "="%char :: v)
                    \/ (var_name k /\ var = lit "DNF_VAR_" ++ k ++ "="%char :: v) in
  (exists pre var v post, environ = pre ++ var :: post /\ defines var v
     /\ (forall x w, x ∈ post -> ~ defines x w) /\ add_vars_from_env environ vars !! k = Some v)
  \/ ((forall x w, x ∈ environ -> ~ defines x w) /\ add_vars_from_env environ vars !! k = vars !! k).
Proof.
  intros defines.
  assert (Hdef : forall var v, defines var v <-> env_var var = Some (k, v)).
  { intros var v. split; [|apply env_var_cases]. intros [[Hk ->]|[Hk ->]]; [by apply env_var_digit|by apply env_var_name]. }
  induction environ as [|var environ IH] using rev_ind.
  { right. split; [|done]. by intros x w Hx%elem_of_nil. }
  unfold add_vars_from_env in *. rewrite foldl_app. simpl.
  destruct (decide (fst <$> env_var var = Some k)) as [[[? v] [Hv Hk]]%fmap_Some|Hno].
  { simpl in Hk. subst. left. exists environ, var, v, []. split_and!; [done|by apply Hdef|by intros x w Hx%elem_of_nil|].
    by rewrite Hv, lookup_insert_eq. }
  assert (Hv : forall w, ~ defines var w) by (intros w Hw; apply Hdef in Hw; by rewrite Hw in Hno).
  replace (match env_var var with Some (k0, v) => _ | None => _ end !! k)
    with (foldl (fun m x => match env_var x with Some (k, v) => <[k := v]> m | None => m end) vars environ !! k)
    by (destruct (env_var var) as [[k' v]|]; [rewrite lookup_insert_ne; naive_solver|done]).
  destruct IH as [(pre & y & w & post & -> & Hy & Hp & Hl)|[Hn Hl]]; [left|right].
  - exists pre, y, w, (post ++ [var]). split_and!; [by rewrite <-app_assoc|done| |done].
    intros x w' [Hx| ->%list_elem_of_singleton]%elem_of_app; [by apply Hp|apply Hv].
  - split; [|done]. intros x w' [Hx| ->%list_elem_of_singleton]%elem_of_app; [by apply Hn|apply Hv].
Qed.

Example vars_example :
  env_var <$> (lit <$> ["DNF3=x=y"; "DNF_VAR_a_1="; "DNF_VAR_=x"; "DNF_VAR_a-b=c"; "DNFx=1"; "DNF10=1"; "PATH"]%string)
  = [Some (lit "DNF3", lit "x=y"); Some (lit "a_1", []); None; None; None; None; None].
Proof. vm_compute. reflexivity. Qed.

(** ** Concrete configurations *)

(** One file with protected packages. *)
Definition small_files : Files :=
  {| glob p := if bool_decide (p = lit "/etc/dnf/protected.d/*.conf") then [lit "/etc/dnf/protected.d/a.conf"] else [];
     open_file p := if bool_decide (p = lit "/etc/dnf/protected.d/a.conf")
                    then Some (lit "systemd" ++ [nl] ++ lit "# no" ++ [nl] ++ lit "  sudo ") else None |}.

Example protected_words :
  @resolve_globs small_files (lit "dnf,glob:/etc/yum/protected.d/*.conf glob:/etc/dnf/protected.d/*.conf")
  = Ok (lit "dnf systemd sudo ").
Proof. vm_compute. reflexivity. Qed.

Lemma main_config_ready_witness :
  exists cfg, @new_main small_environment small_files = Ok cfg
  /\ @main_binds small_environment small_files = Ok (@opt_binds small_environment small_files).
Proof.
  destruct (@main_config_ready small_environment small_files) as (cfg & H1 & H2 & _).
  - intros pattern. simpl. destruct (bool_decide (pattern = _)); [|constructor].
    constructor; [right; eexists; vm_compute; reflexivity|constructor].
  - exists cfg. by split.
Defined.

(** Two options, one of them set from the command line. *)
Definition demo_config : Main :=
  {["debuglevel"%string := ANumber (mkNumber int32 DEFAULT None 2 0 10 2);
    "best"%string := ABool (mkBool COMMANDLINE None None false true)]}.
Definition demo_section : list (cstr * cstr) :=
  (fun x => (lit (fst x), lit (snd x)))
  <$> [("debuglevel", "5"); ("colour", "x"); ("best", "0"); ("debuglevel", "99")]%string.
Definition demo_loaded : Main * list warning :=
  fst (@load_section Main (@opt_binds small_environment small_files) MAINCONFIG (lit "main")
    demo_section demo_config []).

Lemma load_section_spec_witness :
  fst demo_loaded !! "debuglevel"%string = Some (ANumber (mkNumber int32 MAINCONFIG None 2 0 10 5))
  /\ fst demo_loaded !! "best"%string = Some (ABool (mkBool COMMANDLINE None None false true))
  /\ snd demo_loaded = [(lit "main", lit "debuglevel", NotAllowedValue (lit "99"))].
Proof.
  destruct (@load_section_spec small_environment small_files MAINCONFIG (lit "main") demo_section demo_config []
    (fst demo_loaded) (snd demo_loaded)) as (H1 & Hlog & _ & H2); [vm_compute; reflexivity|].
  split_and!; [rewrite H1; vm_compute; reflexivity| |rewrite Hlog; vm_compute; reflexivity].
  apply H2; [reflexivity|reflexivity|]. vm_compute. repeat constructor; discriminate.
Defined.

Lemma config_invariant_witness :
  exists cfg, @new_main small_environment small_files = Ok cfg /\ @config_wf small_environment small_files cfg.
Proof.
  destruct (@new_main small_environment small_files) as [cfg|e] eqn:Hnew.
  - exists cfg. split; [reflexivity|]. by apply (proj1 (@config_invariant small_environment small_files)).
  - exfalso. assert (Hok : is_ok (@new_main small_environment small_files) = true) by (vm_compute; reflexivity).
    rewrite Hnew in Hok. discriminate.
Defined.

(** A number that is no bandwidth ends the loading of the file: the exception of
    [std::stod] is not one of the options. *)
Example bandwidth_ends_loading :
  let o := ANumber (mkNumber uint32 DEFAULT (Some str_to_bytes_unsigned) 0 0 (2 ^ 32 - 1) 0) in
  snd (@load_section Main (@opt_binds small_environment small_files) MAINCONFIG (lit "main")
    [(lit "bandwidth", lit "fast"); (lit "best", lit "1")] {["bandwidth"%string := o]} [])
  = Some (StdException std_invalid_argument).
Proof. vm_compute. reflexivity. Qed.

Example bytes_values :
  str_to_bytes <$> (lit <$> ["100"; "1.5k"; "2M"; "1g"; "2G"; "-1"; "5x"; ""; "k"]%string)
  = [Ok 100%Z; Ok 1536%Z; Ok 2097152%Z; Ok 1073741824%Z; Err UndefinedCast; Err (InvalidValue (lit "-1"));
     Err (InvalidValue (lit "x")); Err (InvalidValue []); Err (StdException std_invalid_argument)].
Proof. vm_compute. reflexivity. Qed.

(** A percentage that is no number is no error, and passes the limits of [throttle]. *)
Example throttle_nan :
  throttle_from_string (lit "nan%") = Ok S754_nan
  /\ (let* o := new_float (of_Z float 0) (of_Z float 0) float_max throttle_from_string in
      let* o := float_set RUNTIME S754_nan o in Ok (f_value o)) = Ok S754_nan.
Proof. vm_compute. by split. Qed.

Example throttle_values :
  (fun s => match throttle_from_string (lit s) with Ok x => Some (print_float x) | Err _ => None end)
  <$> ["50%"; "12abc%"; "101%"; "2k"]%string
  = [Some (lit "0.5"); Some (lit "0.12"); None; Some (lit "2048")].
Proof. vm_compute. reflexivity. Qed.

End ConfigMain.
