(* ===== verification/Repos.v ===== *)
(** * Repos: the configurations of repositories and their loading
    ([libdnf/rpm/config_repo.cpp], [libdnf/rpm/repo_sack.cpp] and the functions
    of [libdnf/rpm/repo.cpp] that only use the configuration)

    A repository has options of its own and children of the options of the main
    configuration. A child refers to its parent by the name of the member; every
    operation of a child gets the main configuration as it is at the time. *)

From Stdlib Require Import SpecFloat.
From S2P Require Import Prelude Numeric OrderMap ConfigParser Options ConfigMain.
From stdpp Require Import strings.
Import Numeric Options ConfigMain.

Module Repos.

(** ** An option of a repository *)

Inductive RepoOption :=
| ROwn (o : AnyOption)
| CBool (parent : string) (c : OptionChild bool)
| CNumber (parent : string) (c : OptionChild Z)
| CFloat (parent : string) (c : OptionChild spec_float)
| CString (parent : string) (c : OptionChild cstr)
| CEnum (parent : string) (c : OptionChild cstr)
| CList (parent : string) (c : OptionChild (list cstr)).

Abbreviation ConfigRepo := (gmap string RepoOption).

(** The parents by their types. *)
Definition as_bool (o : AnyOption) : option OptionBool := match o with ABool o => Some o | _ => None end.
Definition as_number (o : AnyOption) : option OptionNumber := match o with ANumber o => Some o | _ => None end.
Definition as_float (o : AnyOption) : option OptionFloat := match o with AFloat o => Some o | _ => None end.
Definition as_string (o : AnyOption) : option OptionString := match o with AString o => Some o | _ => None end.
Definition as_enum (o : AnyOption) : option OptionEnum := match o with AEnum o => Some o | _ => None end.
Definition as_list (o : AnyOption) : option OptionStringList := match o with AList o => Some o | _ => None end.

(** How a name is bound: directly, with [option_T_list_append], or with the
    setter of [proxy]. *)
Inductive repo_binding := RPlain | RAppend | RProxy.

(** ** The types of the members of the main configuration *)

Inductive kind := KBool | KNumber | KFloat | KEnum | KString | KList | KPath.
#[global] Instance kind_eq_dec : EqDecision kind.
Proof. solve_decision. Defined.
Definition kind_of (o : AnyOption) : kind :=
  match o with
  | ABool _ => KBool | ANumber _ => KNumber | AFloat _ => KFloat | AEnum _ => KEnum
  | AString _ => KString | AList _ => KList | APath _ => KPath
  end.

Lemma shape_kind o o' : shape o = shape o' -> kind_of o = kind_of o'.
Proof. by destruct o, o'. Qed.

(** The types do not depend on the environment. *)
Definition main_kinds : list (string * kind) :=
  Eval vm_compute in
    omap (fun x => match snd x with Ok o => Some (fst x, kind_of o) | Err _ => None end)
      (@members small_environment).
Definition repo_kinds : list (string * kind) :=
  Eval vm_compute in
    omap (fun x => match snd x with Ok o => Some (fst x, kind_of o) | Err _ => None end)
      (@repo_members small_files).
Definition member_kinds : list (string * kind) := main_kinds ++ repo_kinds.

Definition constructs_kind (k : kind) (r : result opt_error AnyOption) : Prop :=
  forall o, r = Ok o -> kind_of o = k.

Section kinds.
Context `{Environment} `{Files}.

Lemma a_bool_kind d : constructs_kind KBool (a_bool d).
Proof. by intros o [= <-]. Qed.
Lemma new_number_kind t d mn mx user :
  constructs_kind KNumber (let* o := new_number t d mn mx user in Ok (ANumber o)).
Proof. intros o Hs. by apply result_bind_Ok in Hs as (n & _ & [= <-]). Qed.
Lemma a_number_between_kind t d mn mx : constructs_kind KNumber (a_number_between t d mn mx).
Proof. apply new_number_kind. Qed.
Lemma a_number_min_kind t d mn user : constructs_kind KNumber (a_number_min t d mn user).
Proof. apply new_number_kind. Qed.
Lemma a_number_kind t d user : constructs_kind KNumber (a_number t d user).
Proof. apply new_number_kind. Qed.
Lemma a_seconds_kind d : constructs_kind KNumber (a_seconds d).
Proof. apply new_number_kind. Qed.
Lemma a_float_kind d mn user : constructs_kind KFloat (a_float d mn user).
Proof. intros o Hs. by apply result_bind_Ok in Hs as (n & _ & [= <-]). Qed.
Lemma a_enum_kind d vals user : constructs_kind KEnum (a_enum d vals user).
Proof. intros o Hs. by apply result_bind_Ok in Hs as (n & _ & [= <-]). Qed.
Lemma a_string_kind d : constructs_kind KString (a_string d).
Proof. by intros o [= <-]. Qed.
Lemma a_list_kind d : constructs_kind KList (a_list d).
Proof. by intros o [= <-]. Qed.
Lemma a_globs_kind d : constructs_kind KList (a_globs d).
Proof. intros o Hs. by apply result_bind_Ok in Hs as (n & _ & [= <-]). Qed.
Lemma a_path_kind d e a : constructs_kind KPath (a_path d e a).
Proof. intros o Hs. by apply result_bind_Ok in Hs as (n & _ & [= <-]). Qed.

Create HintDb kinds discriminated.
#[local] Hint Resolve a_bool_kind a_number_between_kind a_number_min_kind a_number_kind a_seconds_kind
  a_float_kind a_enum_kind a_string_kind a_list_kind a_globs_kind a_path_kind : kinds.

Definition kind_fits (mk : string * kind) (x : string * result opt_error AnyOption) : Prop :=
  fst mk = fst x /\ constructs_kind (snd mk) (snd x).
Lemma kind_fits_intro m k r : constructs_kind k r -> kind_fits (m, k) (m, r).
Proof. by split. Qed.

Lemma members_kinds :
  Forall2 kind_fits member_kinds (members ++ repo_members).
Proof.
  apply Forall2_app; unfold main_kinds, repo_kinds, members, repo_members;
  repeat (apply List.Forall2_cons; [apply kind_fits_intro; auto 2 with kinds|]); apply List.Forall2_nil.
Qed.

Lemma construct_lookup ms cfg cfg' :
  construct ms cfg = Ok cfg' -> NoDup ms.*1 ->
  (forall m, m ∉ ms.*1 -> cfg' !! m = cfg !! m)
  /\ Forall (fun x => exists o, snd x = Ok o /\ cfg' !! fst x = Some o) ms.
Proof.
  revert cfg. induction ms as [|[m r] ms IH]; intros cfg; cbn [construct]; [by intros [= <-]|].
  intros Hc Hd. apply result_bind_Ok in Hc as (o & -> & Hc). simpl in Hd. apply NoDup_cons in Hd as [Hm Hd].
  destruct (IH _ Hc Hd) as [Hout Hin]. split.
  - intros m' Hm'. rewrite Hout by (intros ?; apply Hm'; by right).
    apply lookup_insert_ne. intros ->. apply Hm'. left.
  - constructor; [|done]. exists o. split; [done|]. simpl. rewrite Hout by done. apply lookup_insert_eq.
Qed.

(** In every configuration that arises the members have their types. *)
Lemma member_typed cfg m k :
  config_wf cfg -> (m, k) ∈ member_kinds -> exists o, cfg !! m = Some o /\ kind_of o = k.
Proof.
  intros (cfg0 & Hnew & Hshape & _) Hin.
  assert (Hnames : member_kinds.*1 = (members ++ repo_members).*1).
  { clear. pose proof members_kinds as Hk. induction Hk as [|? ? ? ? [Hx _] _ IH]; [done|]. cbn. f_equal; [exact Hx|exact IH]. }
  apply new_main_construct, construct_lookup in Hnew as [_ Hl].
  2:{ rewrite <-Hnames. apply (bool_decide_unpack _); vm_compute; exact I. }
  pose proof members_kinds as Hk. apply list_elem_of_lookup in Hin as [i Hi].
  eapply Forall2_lookup_l in Hk as ([m' r] & Hr & Hm & Hkind); [|exact Hi]. simpl in *. subst m'.
  rewrite Forall_forall in Hl. destruct (Hl (m, r)) as (o0 & Hr0 & Ho0); [by eapply list_elem_of_lookup_2|].
  simpl in Hr0, Ho0. subst r. apply (f_equal (.!! m)) in Hshape. rewrite !lookup_fmap, Ho0 in Hshape. simpl in Hshape.
  apply fmap_Some in Hshape as (o & Ho & Hs). exists o. split; [done|].
  rewrite <-(Hkind _ eq_refl). by apply shape_kind.
Qed.
End kinds.

Section repo.
Context `{Environment} `{Files}.

(** A call with the parent of a child. The members of the main configuration
    have the types the children expect ([parents_typed]). *)
Definition with_parent {O A} (as_type : AnyOption -> option O) (main : Main) (m : string)
    (f : O -> result opt_error A) : result opt_error A :=
  match main !! m ≫= as_type with Some o => f o | None => Err ValueNotSet end.

(** The virtual functions. A child of an option of strings converts the string
    before it looks at the priority. *)
Definition repo_set_string (main : Main) (p : Priority) (v : cstr) (o : RepoOption)
  : result opt_error RepoOption :=
  match o with
  | ROwn o => let* o := any_set_string p v o in Ok (ROwn o)
  | CBool m c =>
      let* c := with_parent as_bool main m (fun par => child_set_string par p v c) in Ok (CBool m c)
  | CNumber m c =>
      let* c := with_parent as_number main m (fun par => child_set_string par p v c) in Ok (CNumber m c)
  | CFloat m c =>
      let* c := with_parent as_float main m (fun par => child_set_string par p v c) in Ok (CFloat m c)
  | CString m c =>
      let* c := with_parent as_string main m (fun par => child_set_string_eager par p v c) in Ok (CString m c)
  | CEnum m c =>
      let* c := with_parent as_enum main m (fun par => child_set_string_eager par p v c) in Ok (CEnum m c)
  | CList m c =>
      let* c := with_parent as_list main m (fun par => child_set_string par p v c) in Ok (CList m c)
  end.

Definition repo_value_string (main : Main) (o : RepoOption) : result opt_error cstr :=
  match o with
  | ROwn o => any_value_string o
  | CBool m c => with_parent as_bool main m (fun par => child_get_value_string par c)
  | CNumber m c => with_parent as_number main m (fun par => child_get_value_string par c)
  | CFloat m c => with_parent as_float main m (fun par => child_get_value_string par c)
  | CString m c => with_parent as_string main m (fun par => child_get_value_string par c)
  | CEnum m c => with_parent as_enum main m (fun par => child_get_value_string par c)
  | CList m c => with_parent as_list main m (fun par => child_get_value_string par c)
  end.

(** The priority of the option's own value, [EMPTY] for a child without one. *)
Definition own_priority (o : RepoOption) : Priority :=
  match o with
  | ROwn o => any_priority o
  | CBool _ c => c_priority c | CNumber _ c => c_priority c | CFloat _ c => c_priority c
  | CString _ c => c_priority c | CEnum _ c => c_priority c | CList _ c => c_priority c
  end.
Definition parent_of (o : RepoOption) : option string :=
  match o with
  | ROwn _ => None
  | CBool m _ | CNumber m _ | CFloat m _ | CString m _ | CEnum m _ | CList m _ => Some m
  end.
Definition repo_priority (main : Main) (o : RepoOption) : Priority :=
  if bool_decide (own_priority o = EMPTY)
  then match parent_of o with Some m => member_priority m main | None => EMPTY end
  else own_priority o.
Definition repo_empty (main : Main) (o : RepoOption) : bool := bool_decide (repo_priority main o = EMPTY).

(** ** The members and the names *)

Definition own (r : result opt_error AnyOption) : result opt_error RepoOption := let* o := r in Ok (ROwn o).

Definition config_members : list (string * result opt_error RepoOption) :=
  [("name", own (a_string (Some "")));
   ("enabled", Ok (CBool "enabled" (new_child false)));
   ("basecachedir", Ok (CString "cachedir" (new_child [])));
   ("baseurl", own (a_list []));
   ("mirrorlist", own (a_string None));
   ("metalink", own (a_string None));
   ("type", own (a_string (Some "")));
   ("mediaid", own (a_string (Some "")));
   ("gpgkey", own (a_list []));
   ("excludepkgs", own (a_list []));
   ("includepkgs", own (a_list []));
   ("fastestmirror", Ok (CBool "fastestmirror" (new_child false)));
   ("proxy", Ok (CString "proxy" (new_child [])));
   ("proxy_username", Ok (CString "proxy_username" (new_child [])));
   ("proxy_password", Ok (CString "proxy_password" (new_child [])));
   ("proxy_auth_method", Ok (CEnum "proxy_auth_method" (new_child [])));
   ("username", Ok (CString "username" (new_child [])));
   ("password", Ok (CString "password" (new_child [])));
   ("protected_packages", Ok (CList "protected_packages" (new_child [])));
   ("gpgcheck", Ok (CBool "gpgcheck" (new_child false)));
   ("repo_gpgcheck", Ok (CBool "repo_gpgcheck" (new_child false)));
   ("enablegroups", Ok (CBool "enablegroups" (new_child false)));
   ("retries", Ok (CNumber "retries" (new_child 0%Z)));
   ("bandwidth", Ok (CNumber "bandwidth" (new_child 0%Z)));
   ("minrate", Ok (CNumber "minrate" (new_child 0%Z)));
   ("ip_resolve", Ok (CEnum "ip_resolve" (new_child [])));
   ("throttle", Ok (CFloat "throttle" (new_child (S754_zero false))));
   ("timeout", Ok (CNumber "timeout" (new_child 0%Z)));
   ("max_parallel_downloads", Ok (CNumber "max_parallel_downloads" (new_child 0%Z)));
   ("metadata_expire", Ok (CNumber "metadata_expire" (new_child 0%Z)));
   ("cost", own (a_number int32 1000 None));
   ("priority", own (a_number int32 99 None));
   ("module_hotfixes", own (a_bool false));
   ("sslcacert", Ok (CString "sslcacert" (new_child [])));
   ("sslverify", Ok (CBool "sslverify" (new_child false)));
   ("sslclientcert", Ok (CString "sslclientcert" (new_child [])));
   ("sslclientkey", Ok (CString "sslclientkey" (new_child [])));
   ("deltarpm", Ok (CBool "deltarpm" (new_child false)));
   ("deltarpm_percentage", Ok (CNumber "deltarpm_percentage" (new_child 0%Z)));
   ("skip_if_unavailable", Ok (CBool "skip_if_unavailable" (new_child false)));
   ("enabled_metadata", own (a_string (Some "")));
   ("user_agent", Ok (CString "user_agent" (new_child [])));
   ("countme", Ok (CBool "countme" (new_child false)));
   ("failovermethod", own (a_enum "priority" ["priority"; "roundrobin"] None));
   ("build_cache", own (a_bool true))]%string.

Definition config_names : list (string * (string * repo_binding)) :=
  [("name", ("name", RPlain)); ("enabled", ("enabled", RPlain)); ("cachedir", ("basecachedir", RPlain));
   ("baseurl", ("baseurl", RPlain)); ("mirrorlist", ("mirrorlist", RPlain));
   ("metalink", ("metalink", RPlain)); ("type", ("type", RPlain)); ("mediaid", ("mediaid", RPlain));
   ("gpgkey", ("gpgkey", RPlain)); ("excludepkgs", ("excludepkgs", RAppend));
   ("exclude", ("excludepkgs", RAppend)); ("includepkgs", ("includepkgs", RAppend));
   ("fastestmirror", ("fastestmirror", RPlain)); ("proxy", ("proxy", RProxy));
   ("proxy_username", ("proxy_username", RPlain)); ("proxy_password", ("proxy_password", RPlain));
   ("proxy_auth_method", ("proxy_auth_method", RPlain)); ("username", ("username", RPlain));
   ("password", ("password", RPlain)); ("protected_packages", ("protected_packages", RPlain));
   ("gpgcheck", ("gpgcheck", RPlain)); ("repo_gpgcheck", ("repo_gpgcheck", RPlain));
   ("enablegroups", ("enablegroups", RPlain)); ("retries", ("retries", RPlain));
   ("bandwidth", ("bandwidth", RPlain)); ("minrate", ("minrate", RPlain));
   ("ip_resolve", ("ip_resolve", RPlain)); ("throttle", ("throttle", RPlain));
   ("timeout", ("timeout", RPlain)); ("max_parallel_downloads", ("max_parallel_downloads", RPlain));
   ("metadata_expire", ("metadata_expire", RPlain)); ("cost", ("cost", RPlain));
   ("priority", ("priority", RPlain)); ("module_hotfixes", ("module_hotfixes", RPlain));
   ("sslcacert", ("sslcacert", RPlain)); ("sslverify", ("sslverify", RPlain));
   ("sslclientcert", ("sslclientcert", RPlain)); ("sslclientkey", ("sslclientkey", RPlain));
   ("deltarpm", ("deltarpm", RPlain)); ("deltarpm_percentage", ("deltarpm_percentage", RPlain));
   ("skip_if_unavailable", ("skip_if_unavailable", RPlain));
   ("enabled_metadata", ("enabled_metadata", RPlain)); ("user_agent", ("user_agent", RPlain));
   ("countme", ("countme", RPlain)); ("build_cache", ("build_cache", RPlain))]%string.

Fixpoint construct_repo (ms : list (string * result opt_error RepoOption)) (cfg : ConfigRepo)
  : result opt_error ConfigRepo :=
  match ms with
  | [] => Ok cfg
  | (m, r) :: ms => let* o := r in construct_repo ms (<[m := o]> cfg)
  end.
(** [ConfigRepo(master_config)]. *)
Definition new_config : result opt_error ConfigRepo := construct_repo config_members ∅.

Definition on_repo_member (m : string) (f : RepoOption -> result opt_error RepoOption) (cfg : ConfigRepo)
  : result opt_error ConfigRepo :=
  match cfg !! m with Some o => let* o := f o in Ok (<[m := o]> cfg) | None => Ok cfg end.

Definition repo_bound_set (main : Main) (how : repo_binding) (p : Priority) (v : cstr) (o : RepoOption)
  : result opt_error RepoOption :=
  match how with
  | RPlain => repo_set_string main p v o
  | RAppend =>
      match o with
      | ROwn o => let* o := on_list (option_list_append p v) o in Ok (ROwn o)
      | _ => Ok o
      end
  | RProxy => repo_set_string main p (if bool_decide (lower v = lit "_none_") then [] else v) o
  end.

Definition repo_item (main : Main) (m : string) (how : repo_binding) : Item ConfigRepo :=
  mkItem (fun cfg => default EMPTY (repo_priority main <$> cfg !! m))
    (fun p v => on_repo_member m (repo_set_string main p v))
    (fun cfg => match cfg !! m with Some o => repo_value_string main o | None => Err ValueNotSet end)
    (match how with RPlain => None | _ => Some (fun p v => on_repo_member m (repo_bound_set main how p v)) end)
    None (match how with RAppend => true | _ => false end).
Definition repo_items (main : Main) : list (cstr * Item ConfigRepo) :=
  (fun x => (lit (fst x), repo_item main (fst (snd x)) (snd (snd x)))) <$> config_names.
Definition repo_binds (main : Main) : gmap cstr (Item ConfigRepo) :=
  match add_all (repo_items main) ∅ with Ok b => b | Err _ => ∅ end.


(** ** Repositories *)

Record Repo := mkRepo { repo_id : cstr; repo_cfg : ConfigRepo }.

Definition REPOID_CHARS : cstr :=
  lit "ABCDEFGHIJKLMNOPQRSTUVWXYZabcdefghijklmnopqrstuvwxyz0123456789-_.:".
(** The position of the first bad character; [None] is the [-1] of the code. *)
Definition verify_id (id : cstr) : option nat := find_idx (none_of REPOID_CHARS) id.

(** What can be thrown: also a bad id, with the character and its position. *)
Inductive repo_error :=
| LoadError (e : load_error)
| BadRepoId (id section : cstr) (pos : nat)
| NoMirror (id : cstr)
| UnsupportedType (id type : cstr).

(** What is logged: a warning of an option, a repository that is skipped, one
    without a name. *)
Inductive repo_log :=
| LogOption (w : warning)
| LogSkipped (id section : cstr) (pos : nat)
| LogNoName (id : cstr).

Definition own_option (m : string) (cfg : ConfigRepo) : option AnyOption :=
  match cfg !! m with Some (ROwn o) => Some o | _ => None end.

(** [Repo::verify]. *)
Definition string_missing (main : Main) (m : string) (cfg : ConfigRepo) : bool :=
  match cfg !! m with
  | Some o => repo_empty main o
      || bool_decide (repo_value_string main o = Ok [])
  | None => true
  end.
Definition supported_types : list cstr := lit <$> ["rpm-md"; "rpm"; "repomd"; "rpmmd"; "yum"; "YUM"]%string.
Definition verify (main : Main) (r : Repo) : result repo_error unit :=
  let cfg := repo_cfg r in
  if (match cfg !! "baseurl"%string with Some o => repo_empty main o | None => true end)
     && string_missing main "metalink" cfg && string_missing main "mirrorlist" cfg
  then Err (NoMirror (repo_id r))
  else
    match own_option "type" cfg with
    | Some o =>
        match any_value_string o with
        | Ok [] => Ok tt
        | Ok type => if bool_decide (type ∈ supported_types) then Ok tt else Err (UnsupportedType (repo_id r) type)
        | Err e => Err (LoadError (OptError e))
        end
    | None => Ok tt
    end.

(** [Repo::is_enabled], [Repo::enable] and [Repo::disable]. *)
Definition is_enabled (main : Main) (cfg : ConfigRepo) : result opt_error bool :=
  match cfg !! "enabled"%string with
  | Some (CBool m c) => with_parent as_bool main m (fun par => child_get_value par c)
  | _ => Err ValueNotSet
  end.
Definition set_enabled (main : Main) (v : bool) (cfg : ConfigRepo) : result opt_error ConfigRepo :=
  on_repo_member "enabled" (fun o =>
    match o with
    | CBool m c => let* c := with_parent as_bool main m (fun par => child_set par RUNTIME v c) in Ok (CBool m c)
    | _ => Ok o
    end) cfg.

(** ** Creating repositories *)

Definition subst (vars : gmap cstr cstr) (v : cstr) : cstr := default v (ConfigParser.substitute v vars).

(** [load_config_from_parser] of the sack: the values are substituted. *)
Definition load_repo_config (main : Main) (vars : gmap cstr cstr) (section : cstr) (opts : list (cstr * cstr))
    (cfg : ConfigRepo) : ConfigRepo * list warning * option opt_error :=
  load_section (repo_binds main) REPOCONFIG section ((fun kv => (fst kv, subst vars (snd kv))) <$> opts) cfg [].

(** The name of a repository without one becomes its id. *)
Definition name_or_id (main : Main) (id : cstr) (cfg : ConfigRepo) : ConfigRepo * list repo_log :=
  match cfg !! "name"%string with
  | Some (ROwn (AString o)) =>
      if bool_decide (get_priority o = DEFAULT)
      then (match string_set REPOCONFIG id o with
            | Ok o => <["name"%string := ROwn (AString o)]> cfg
            | Err _ => cfg
            end, [LogNoName id])
      else (cfg, [])
  | _ => (cfg, [])
  end.

(** Whether a section with a bad id is skipped. Its own setting is converted
    without substitution. *)
Definition skip_bad_id (main : Main) (opts : list (cstr * cstr)) : result opt_error bool :=
  match PreserveOrderMap.lookup (lit "skip_if_unavailable") opts with
  | Some value => bool_from_string (new_bool false) value
  | None =>
      match main !! "skip_if_unavailable"%string ≫= as_bool with
      | Some o => get_value o
      | None => Err ValueNotSet
      end
  end.

(** What one section does: the repositories, the log and the exception. *)
Definition load_repo (main : Main) (vars : gmap cstr cstr) (section : cstr) (opts : list (cstr * cstr))
    (repos : list Repo) (log : list repo_log) : list Repo * list repo_log * option repo_error :=
  if bool_decide (section = lit "main") then (repos, log, None) else
  let id := subst vars section in
  match verify_id id with
  | Some pos =>
      match skip_bad_id main opts with
      | Ok true => (repos, log ++ [LogSkipped id section pos], None)
      | Ok false => (repos, log, Some (BadRepoId id section pos))
      | Err e => (repos, log, Some (LoadError (OptError e)))
      end
  | None =>
      match new_config with
      | Err e => (repos, log, Some (LoadError (OptError e)))
      | Ok cfg =>
          let '(cfg, ws, e) := load_repo_config main vars section opts cfg in
          let log := log ++ (LogOption <$> ws) in
          match e with
          | Some e => (repos ++ [mkRepo id cfg], log, Some (LoadError (OptError e)))
          | None => let (cfg, l) := name_or_id main id cfg in (repos ++ [mkRepo id cfg], log ++ l, None)
          end
      end
  end.

Fixpoint load_repos (main : Main) (vars : gmap cstr cstr) (sections : list (cstr * list (cstr * cstr)))
    (repos : list Repo) (log : list repo_log) : list Repo * list repo_log * option repo_error :=
  match sections with
  | [] => (repos, log, None)
  | (section, opts) :: sections =>
      match load_repo main vars section opts repos log with
      | (repos, log, None) => load_repos main vars sections repos log
      | r => r
      end
  end.

Definition new_repos_from_file (main : Main) (vars : gmap cstr cstr) (path : cstr)
    (repos : list Repo) (log : list repo_log) : option (list Repo * list repo_log * option repo_error) :=
  (fun r => match r with
    | Ok parser => load_repos main vars (ConfigParser.data parser) repos log
    | Err e => (repos, log, Some (LoadError e))
    end) <$> read_file path.

(** [new_repos_from_dir]: the regular files [.repo] of the directory, [entries]
    with their extension, in the order of their paths. *)
Fixpoint new_repos_from_paths (main : Main) (vars : gmap cstr cstr) (paths : list cstr)
    (repos : list Repo) (log : list repo_log) : option (list Repo * list repo_log * option repo_error) :=
  match paths with
  | [] => Some (repos, log, None)
  | path :: paths =>
      match new_repos_from_file main vars path repos log with
      | Some (repos, log, None) => new_repos_from_paths main vars paths repos log
      | r => r
      end
  end.
Definition new_repos_from_dir (main : Main) (vars : gmap cstr cstr) (entries : list (cstr * cstr))
    (repos : list Repo) (log : list repo_log) : option (list Repo * list repo_log * option repo_error) :=
  new_repos_from_paths main vars
    (merge_sort path_leb (fst <$> base.filter (fun e => snd e = lit ".repo") entries)) repos log.

(** [new_repos_from_dirs], for [listing] of a directory, [None] where it cannot
    be read. *)
Fixpoint new_repos_from_dirs (main : Main) (vars : gmap cstr cstr)
    (listing : cstr -> option (list (cstr * cstr))) (dirs : list cstr)
    (repos : list Repo) (log : list repo_log) : option (list Repo * list repo_log * option repo_error) :=
  match dirs with
  | [] => Some (repos, log, None)
  | dir :: dirs =>
      match listing dir with
      | None => new_repos_from_dirs main vars listing dirs repos log
      | Some entries =>
          match new_repos_from_dir main vars entries repos log with
          | Some (repos, log, None) => new_repos_from_dirs main vars listing dirs repos log
          | r => r
          end
      end
  end.

(** ** The names and the children *)

Definition repo_binding_of (id : cstr) : option (string * repo_binding) :=
  (list_to_map ((fun x => (lit (fst x), snd x)) <$> config_names) : gmap cstr (string * repo_binding)) !! id.

Lemma config_names_unique : NoDup (lit <$> config_names.*1).
Proof. apply (bool_decide_unpack _); vm_compute; exact I. Qed.

Lemma repo_binds_lookup main id :
  repo_binds main !! id = (fun b => repo_item main (fst b) (snd b)) <$> repo_binding_of id.
Proof.
  unfold repo_binds. rewrite add_all_ok.
  - unfold repo_binding_of. rewrite <-lookup_fmap, <-list_to_map_fmap.
    unfold repo_items. by rewrite <-list_fmap_compose.
  - assert (Hn : (repo_items main).*1 = lit <$> config_names.*1) by (unfold repo_items; by rewrite <-!list_fmap_compose).
    rewrite Hn. apply config_names_unique.
Qed.
#[global] Arguments repo_binding_of : simpl never.
#[global] Arguments repo_binds : simpl never.
#[global] Opaque repo_binding_of repo_binds.

(** The parent of a child, with the type it must have. *)
Definition child_kind (o : RepoOption) : option (string * kind) :=
  match o with
  | ROwn _ => None
  | CBool m _ => Some (m, KBool) | CNumber m _ => Some (m, KNumber) | CFloat m _ => Some (m, KFloat)
  | CString m _ => Some (m, KString) | CEnum m _ => Some (m, KEnum) | CList m _ => Some (m, KList)
  end.
Definition well_parented (r : result opt_error RepoOption) : Prop :=
  forall o mk, r = Ok o -> child_kind o = Some mk -> mk ∈ member_kinds /\ own_priority o = EMPTY.

Lemma own_well_parented r : well_parented (own r).
Proof. intros o mk Ho Hk. by apply result_bind_Ok in Ho as (a & _ & [= <-]). Qed.
Lemma child_well_parented c :
  match child_kind c with
  | Some mk => bool_decide (mk ∈ member_kinds) && bool_decide (own_priority c = EMPTY)
  | None => true
  end = true ->
  well_parented (Ok c).
Proof.
  intros Hc o mk Ho Hk. injection Ho as <-. rewrite Hk in Hc.
  apply andb_true_iff in Hc as [H1 H2]. by apply bool_decide_eq_true in H1, H2.
Qed.

(** The children have parents of their types, and no values at first. *)
Lemma parents_typed : Forall (fun x => well_parented (snd x)) config_members.
Proof.
  unfold config_members.
  repeat (apply List.Forall_cons; [cbn [snd];
    first [apply own_well_parented | apply child_well_parented; vm_compute; reflexivity]|]).
  apply List.Forall_nil.
Qed.

(** What settings never change of an option of a repository. *)
Definition rshape (o : RepoOption) : RepoOption :=
  match o with
  | ROwn o => ROwn (shape o)
  | CBool m _ => CBool m (new_child false) | CNumber m _ => CNumber m (new_child 0%Z)
  | CFloat m _ => CFloat m (new_child S754_nan) | CString m _ => CString m (new_child [])
  | CEnum m _ => CEnum m (new_child []) | CList m _ => CList m (new_child [])
  end.

Lemma rshape_child_kind o o' : rshape o = rshape o' -> child_kind o = child_kind o'.
Proof. destruct o, o'; simpl; congruence. Qed.

Lemma repo_set_string_shape main p v o o' : repo_set_string main p v o = Ok o' -> rshape o' = rshape o.
Proof.
  destruct o as [o|m c|m c|m c|m c|m c|m c]; cbn [repo_set_string]; intros Hs;
    apply result_bind_Ok in Hs as (x & Hx & [= <-]); [|done..].
  simpl. f_equal. by apply any_set_string_steady in Hx as [Hx _].
Qed.

Lemma repo_bound_set_shape main how p v o o' : repo_bound_set main how p v o = Ok o' -> rshape o' = rshape o.
Proof.
  destruct how; cbn [repo_bound_set]; [apply repo_set_string_shape| |apply repo_set_string_shape].
  destruct o; try by intros [= <-]. intros Hs. apply result_bind_Ok in Hs as (x & Hx & [= <-]). simpl. f_equal.
  change (on_list _ _) with (bound_set Append p v o) in Hx. by apply bound_set_steady in Hx as [Hx _].
Qed.

Lemma repo_new_string_member main m how p v cfg cfg' :
  item_new_string (repo_item main m how) p v cfg = Ok cfg' ->
  (cfg !! m = None /\ cfg' = cfg)
  \/ exists o o', cfg !! m = Some o /\ repo_bound_set main how p v o = Ok o' /\ cfg' = <[m := o']> cfg.
Proof.
  assert (Hm : on_repo_member m (repo_bound_set main how p v) cfg = Ok cfg' ->
    (cfg !! m = None /\ cfg' = cfg)
    \/ exists o o', cfg !! m = Some o /\ repo_bound_set main how p v o = Ok o' /\ cfg' = <[m := o']> cfg).
  { unfold on_repo_member. destruct (cfg !! m) as [o|]; [|intros [= <-]; by left].
    intros Hs. apply result_bind_Ok in Hs as (o' & Ho & [= <-]). right. by exists o, o'. }
  by destruct how.
Qed.

(** A configuration of a repository as it is constructed, up to values. *)
Definition repo_wf (cfg : ConfigRepo) : Prop :=
  exists cfg0, new_config = Ok cfg0 /\ rshape <$> cfg = rshape <$> cfg0.

Lemma repo_new_string_wf main id item p v cfg cfg' :
  repo_wf cfg -> repo_binds main !! id = Some item -> item_new_string item p v cfg = Ok cfg' -> repo_wf cfg'.
Proof.
  intros (cfg0 & Hnew & Hs). rewrite repo_binds_lookup. destruct (repo_binding_of id) as [[m how]|]; [|done].
  intros [= <-] [[_ ->]|(o & o' & Ho & Hb & ->)]%repo_new_string_member; [by exists cfg0|].
  exists cfg0. split; [done|]. apply repo_bound_set_shape in Hb.
  rewrite fmap_insert, Hb, insert_id; [done|]. by rewrite lookup_fmap, Ho.
Qed.

Lemma load_repo_config_wf main vars section opts cfg cfg' ws e :
  repo_wf cfg -> load_repo_config main vars section opts cfg = (cfg', ws, e) -> repo_wf cfg'.
Proof.
  intros Hwf Hl. eapply (load_section_inv repo_wf); [|exact Hwf|exact Hl].
  intros id v item s s' _ Hi Hs Hn. by eapply repo_new_string_wf.
Qed.

Lemma construct_repo_inv (P : RepoOption -> Prop) ms cfg cfg' :
  Forall (fun x => forall o, snd x = Ok o -> P o) ms -> map_Forall (fun _ => P) cfg ->
  construct_repo ms cfg = Ok cfg' -> map_Forall (fun _ => P) cfg'.
Proof.
  intros Hms. revert cfg. induction Hms as [|[m r] ms Hr _ IH]; intros cfg Hc; cbn [construct_repo];
    [by intros [= <-]|].
  intros Hs. apply result_bind_Ok in Hs as (o & Ho & Hs). eapply IH; [|exact Hs].
  apply map_Forall_insert_2; [by apply Hr|done].
Qed.

#[local] Strategy expand [new_config].
Lemma new_config_child cfg m o mk :
  new_config = Ok cfg -> cfg !! m = Some o -> child_kind o = Some mk ->
  mk ∈ member_kinds /\ own_priority o = EMPTY.
Proof.
  unfold new_config. intros Hnew Hm. revert mk.
  refine (construct_repo_inv (fun o => forall mk, child_kind o = Some mk ->
    mk ∈ member_kinds /\ own_priority o = EMPTY) _ _ _ _ _ Hnew m o Hm); [|apply map_Forall_empty].
  eapply Forall_impl; [apply parents_typed|]. intros x Hx o' Ho' mk. by apply Hx.
Qed.

(** A child without a value of its own shows its parent. *)
Lemma child_shows_parent main o pm k par :
  child_kind o = Some (pm, k) -> own_priority o = EMPTY -> main !! pm = Some par -> kind_of par = k ->
  repo_value_string main o = any_value_string par /\ repo_priority main o = any_priority par.
Proof.
  intros Hk Hp Hpar Hkind. split.
  - destruct o; simpl in Hk, Hp |- *; simplify_eq; destruct par; try done;
      unfold with_parent; rewrite Hpar; simpl; unfold child_get_value_string;
      by rewrite bool_decide_eq_true_2.
  - unfold repo_priority. rewrite bool_decide_eq_true_2 by done.
    assert (Hm : parent_of o = Some pm) by (destruct o; simpl in *; by simplify_eq).
    rewrite Hm. unfold member_priority. by rewrite Hpar.
Qed.

(** C7. A child option of a repository that the section of the repository does
    not set has no value of its own: its text and its priority are those of its
    parent in the main configuration, whatever the main configuration becomes
    later. *)
Theorem repo_inherits main vars section opts cfg0 cfg ws e m o pm k :
  new_config = Ok cfg0 -> cfg0 !! m = Some o -> child_kind o = Some (pm, k) ->
  load_repo_config main vars section opts cfg0 = (cfg, ws, e) ->
  Forall (fun key => forall how, repo_binding_of key <> Some (m, how)) opts.*1 ->
  cfg !! m = Some o
  /\ forall main', config_wf main' -> exists par, main' !! pm = Some par
     /\ repo_value_string main' o = any_value_string par /\ repo_priority main' o = any_priority par.
Proof.
  intros Hnew Ho Hk Hl Hkeys. destruct (new_config_child _ _ _ _ Hnew Ho Hk) as [Hin Hp]. split.
  - unfold load_repo_config in Hl. revert Ho Hl. apply (load_section_inv (fun c => c !! m = Some o)).
    intros id v item s s' Hid Hi Hs Hn. rewrite repo_binds_lookup in Hi.
    destruct (repo_binding_of id) as [[m1 how]|] eqn:Hb; [|done]. injection Hi as <-.
    apply repo_new_string_member in Hn as [[_ ->]|(o1 & o2 & _ & _ & ->)]; [done|].
    rewrite lookup_insert_ne; [done|]. intros ->. rewrite Forall_forall in Hkeys.
    apply list_elem_of_fmap in Hid as ([k' v'] & [= -> ->] & Hid).
    refine (Hkeys k' _ how Hb). by apply (list_elem_of_fmap_2 fst _ (k', v')).
  - intros main' Hwf. destruct (member_typed _ _ _ Hwf Hin) as (par & Hpar & Hkind).
    exists par. split; [done|]. by eapply child_shows_parent.
Qed.

(** ** The repositories that are created *)

(** The ids of the sections that become repositories. *)
Definition good_ids (vars : gmap cstr cstr) (sections : list (cstr * list (cstr * cstr))) : list cstr :=
  base.filter (fun id => verify_id id = None)
    (subst vars <$> base.filter (fun s => s <> lit "main") sections.*1).

(** A repository that is ready: a good id and a name from the file or the id. *)
Definition repo_ready (r : Repo) : Prop :=
  verify_id (repo_id r) = None
  /\ exists o, repo_cfg r !! "name"%string = Some (ROwn (AString o)) /\ get_priority o <> DEFAULT.

Lemma new_config_name cfg : new_config = Ok cfg -> cfg !! "name"%string = Some (ROwn (AString (new_string []))).
Proof.
  assert (Hc : match new_config with Ok c => c !! "name"%string | Err _ => None end
    = Some (ROwn (AString (new_string [])))) by (vm_compute; reflexivity).
  intros Hnew. by rewrite Hnew in Hc.
Qed.

Lemma repo_wf_name cfg :
  repo_wf cfg -> exists o, cfg !! "name"%string = Some (ROwn (AString o)) /\ s_regex o = [].
Proof.
  intros (cfg0 & Hnew%new_config_name & Hs). apply (f_equal (.!! "name"%string)) in Hs.
  rewrite !lookup_fmap, Hnew in Hs. apply fmap_Some in Hs as (o & Ho & Hshape).
  destruct o as [o|m c|m c|m c|m c|m c|m c]; try done. destruct o; try done.
  simpl in Hshape. injection Hshape as Hr _ _. by eexists.
Qed.

Lemma name_or_id_ready main id cfg cfg' l :
  repo_wf cfg -> verify_id id = None -> name_or_id main id cfg = (cfg', l) -> repo_ready (mkRepo id cfg').
Proof.
  intros Hwf Hid Hn. split; [done|]. simpl. destruct (repo_wf_name _ Hwf) as (o & Ho & Hr).
  unfold name_or_id in Hn. rewrite Ho in Hn. case_bool_decide as Hp.
  - unfold string_set, string_test, matches in Hn. simpl in Hp. rewrite Hp, Hr in Hn. simpl in Hn.
    injection Hn as <- <-. eexists. rewrite lookup_insert_eq. split; [reflexivity|done].
  - injection Hn as <- <-. by eexists.
Qed.

Lemma good_ids_cons vars x sections : good_ids vars (x :: sections) = good_ids vars [x] ++ good_ids vars sections.
Proof.
  unfold good_ids. change (x :: sections) with ([x] ++ sections) at 1.
  by rewrite fmap_app, filter_app, fmap_app, filter_app.
Qed.

Lemma good_ids_one vars section opts :
  good_ids vars [(section, opts)]
  = if bool_decide (section = lit "main") then []
    else match verify_id (subst vars section) with Some _ => [] | None => [subst vars section] end.
Proof.
  unfold good_ids. cbn [fmap list_fmap fst]. rewrite filter_cons. case_bool_decide as Hm.
  - by rewrite decide_False by (intros Hn; by apply Hn).
  - rewrite decide_True by done. cbn [fmap list_fmap filter base.filter]. simpl.
    unfold base.filter, list_filter. by destruct (verify_id _).
Qed.

(** What the loading of some sections may add: repositories with good ids, all
    of those of the sections, and ready, unless an exception ends it. *)
Definition adds (ids : list cstr) (repos repos' : list Repo) (e : option repo_error) : Prop :=
  exists new, repos' = repos ++ new /\ Forall (fun r => verify_id (repo_id r) = None) new
  /\ match e with
     | None => repo_id <$> new = ids /\ Forall repo_ready new
     | Some _ => repo_id <$> new `prefix_of` ids
     end.

Lemma load_repo_adds main vars section opts repos log repos' log' e :
  load_repo main vars section opts repos log = (repos', log', e) ->
  adds (good_ids vars [(section, opts)]) repos repos' e.
Proof.
  rewrite good_ids_one. unfold load_repo. case_bool_decide.
  { intros [= <- <- <-]. exists []. by rewrite app_nil_r. }
  assert (Hnone : forall ids, adds ids repos repos (Some (BadRepoId [] [] 0))).
  { intros ids. exists []. rewrite app_nil_r. split_and!; [done..|]. by apply prefix_nil. }
  destruct (verify_id (subst vars section)) as [pos|] eqn:Hid.
  { destruct (skip_bad_id main opts) as [[]|]; intros [= <- <- <-]; [|apply Hnone..].
    exists []. by rewrite app_nil_r. }
  destruct new_config as [cfg|] eqn:Hnew; [|intros [= <- <- <-]; apply Hnone].
  assert (Hwf : repo_wf cfg) by by exists cfg.
  destruct (load_repo_config _ _ _ _ _) as [[cfg1 ws] [e1|]] eqn:Hl.
  - intros [= <- <- <-]. exists [mkRepo (subst vars section) cfg1]. split_and!; [done|by repeat constructor|done].
  - apply load_repo_config_wf in Hl; [|done].
    destruct (name_or_id main (subst vars section) cfg1) as [cfg2 l] eqn:Hn. intros [= <- <- <-].
    exists [mkRepo (subst vars section) cfg2]. split_and!; [done|by repeat constructor|done|].
    constructor; [|done]. by eapply name_or_id_ready.
Qed.

(** C6. Creating repositories from the sections of a file creates exactly one
    repository for every section other than [main] whose id, after
    substitution, has only allowed characters, in the order of the file; each
    has a name, its id where the file gives none. When an exception ends it the
    repositories created so far are a first part of these, and none has a bad
    id. *)
Theorem repos_created main vars sections repos log repos' log' e :
  load_repos main vars sections repos log = (repos', log', e) ->
  exists new, repos' = repos ++ new /\ Forall (fun r => verify_id (repo_id r) = None) new
  /\ match e with
     | None => repo_id <$> new = good_ids vars sections /\ Forall repo_ready new
     | Some _ => repo_id <$> new `prefix_of` good_ids vars sections
     end.
Proof.
  revert repos log. induction sections as [|[section opts] sections IH]; intros repos log; cbn [load_repos].
  { intros [= <- <- <-]. exists []. by rewrite app_nil_r. }
  rewrite good_ids_cons. destruct (load_repo _ _ _ _ _ _) as [[repos1 log1] e1] eqn:Hl.
  apply load_repo_adds in Hl as (new1 & -> & Hv1 & He1). destruct e1 as [e1|].
  - intros [= <- <- <-]. exists new1. split_and!; [done..|]. by apply prefix_app_r.
  - intros H1. destruct He1 as [Hids Hr1]. apply IH in H1 as (new2 & -> & Hv2 & He2).
    exists (new1 ++ new2). rewrite fmap_app, Hids, <-app_assoc. split_and!; [done|by apply Forall_app|].
    destruct e as [e|]; [by apply prefix_app|]. destruct He2 as [-> Hr2]. split; [done|by apply Forall_app].
Qed.
End repo.

(** ** Concrete repositories *)

#[local] Existing Instance small_environment.
#[local] Existing Instance small_files.

Definition demo_main : Main := {["skip_if_unavailable"%string := ABool (new_bool true)]}.
Definition demo_vars : gmap cstr cstr := {[lit "releasever" := lit "33"; lit "yes" := lit "1"]}.
Definition demo_opts (l : list (string * string)) : list (cstr * cstr) :=
  (fun x => (lit (fst x), lit (snd x))) <$> l.
Definition demo_config : ConfigRepo :=
  match new_config with Ok c => c | Err _ => ∅ end.
Definition demo_repos (sections : list (string * list (string * string)))
  : list Repo * list repo_log * option repo_error :=
  load_repos demo_main demo_vars
    ((fun s => (lit (fst s), demo_opts (snd s))) <$> sections) [] [].

Definition demo_sections : list (string * list (string * string)) :=
  [("main", []); ("fedora-$releasever", [("name", "Fedora $releasever")]); ("bad id", []); ("updates", [])]%string.

Lemma repos_created_witness :
  repo_id <$> fst (fst (demo_repos demo_sections)) = lit <$> ["fedora-33"; "updates"]%string.
Proof.
  assert (He : snd (demo_repos demo_sections) = None) by (vm_compute; reflexivity).
  destruct (repos_created demo_main demo_vars
    ((fun s => (lit (fst s), demo_opts (snd s))) <$> demo_sections) [] []
    (fst (fst (demo_repos demo_sections))) (snd (fst (demo_repos demo_sections))) None)
    as (new & Hn & _ & Hids & _).
  - rewrite <-He. unfold demo_repos. by destruct (load_repos _ _ _ _ _) as [[? ?] ?].
  - rewrite Hn. simpl app. rewrite Hids. vm_compute. reflexivity.
Defined.

Lemma repo_inherits_witness :
  fst (fst (load_repo_config demo_main demo_vars (lit "r")
    (demo_opts [("gpgcheck", "1"); ("cost", "5")]%string) demo_config)) !! "enabled"%string
  = Some (CBool "enabled" (new_child false)).
Proof.
  destruct (load_repo_config demo_main demo_vars (lit "r")
    (demo_opts [("gpgcheck", "1"); ("cost", "5")]%string) demo_config) as [[cfg ws] e] eqn:Hl.
  refine (proj1 (repo_inherits demo_main demo_vars (lit "r")
    (demo_opts [("gpgcheck", "1"); ("cost", "5")]%string) demo_config cfg ws e "enabled"
    (CBool "enabled" (new_child false)) "enabled" KBool _ _ _ Hl _)); try (vm_compute; reflexivity).
  repeat (constructor; [intros how Hh; apply (f_equal (fmap fst)) in Hh; vm_compute in Hh; discriminate|]).
  constructor.
Defined.

(** A repository without [baseurl], [metalink] and [mirrorlist] passes: the
    option [baseurl] always has a default and is never empty. *)
Example verify_without_mirror :
  verify demo_main (mkRepo (lit "r") demo_config) = Ok tt.
Proof. vm_compute. reflexivity. Qed.

(** The setting of a skipped section is not substituted: [$yes] throws. *)
Example bad_id_setting :
  snd (demo_repos [("bad id", [("skip_if_unavailable", "$yes")])]%string)
  = Some (LoadError (OptError (InvalidValue (lit "$yes"))))
  /\ snd (demo_repos [("good-id", [("skip_if_unavailable", "$yes")])]%string) = None.
Proof. vm_compute. split; reflexivity. Qed.

(** [_none_] in any case clears the proxy of the main configuration. *)
Example proxy_none :
  (fun cfg => (cfg : ConfigRepo) !! "proxy"%string)
  (fst (fst (load_repo_config
    {["proxy"%string := AString (new_string (lit "http://p"))]} ∅ (lit "r")
    (demo_opts [("proxy", "_None_")]%string) demo_config)))
  = Some (CString "proxy" (mkChild REPOCONFIG [])).
Proof. vm_compute. reflexivity. Qed.
End Repos.
