(* ===== verification/ArgumentParser.v ===== *)
(** * ArgumentParser: the command line of microdnf
    ([microdnf/argument_parser.{cpp,hpp}])

    A parser owns commands, named and positional arguments, which refer to each
    other and to the options they set by pointers: here they are indices into
    the parser. What parsing changes (how often an argument was parsed, the
    options, and whatever the hooks of the client change) is the state. *)

From S2P Require Import Prelude.

Module ArgumentParser.

(** ** Arguments *)

Inductive arg_ref := Pos (n : nat) | Named (n : nat) | Cmd (n : nat).
#[global] Instance arg_ref_eq_dec : EqDecision arg_ref.
Proof. solve_decision. Defined.

(** What parsing can throw: a [std::runtime_error], the exception of an option
    or of a hook; a read behind the end of a string; a null pointer. *)
Inductive parse_error :=
| RuntimeError (msg : cstr)
| ClientError (msg : cstr)
| OutOfBounds
| NullPointer.

#[global] Instance parse_error_eq_dec : EqDecision parse_error.
Proof. solve_decision. Defined.

Section parser.
(** The options, what [set] with the priority of the command line does to one,
    and the state of the client. *)
Context {Opt C : Type} (opt_set : cstr -> Opt -> result parse_error Opt).

Record PositionalArg := mkPos {
  pa_name : cstr;
  pa_nargs : Z;
  pa_init_value : option Opt;
  pa_values : nat;
  pa_store_value : bool;
  pa_conflict_args : option (list arg_ref);
  pa_parse_hook : option (list cstr -> C -> result parse_error C);
}.
Record NamedArg := mkNamed {
  na_name : cstr;
  na_long_name : cstr;
  na_short_name : option ascii;
  na_has_arg : bool;
  na_const_val : cstr;
  na_value : option nat;
  na_store_value : bool;
  na_conflict_args : option (list arg_ref);
  na_parse_hook : option (cstr -> cstr -> C -> result parse_error C);
}.
Record Command := mkCommand {
  cm_name : cstr;
  cm_cmds : list nat;
  cm_named_args : list nat;
  cm_pos_args : list nat;
  cm_conflict_args : option (list arg_ref);
  cm_parse_hook : option (cstr -> list cstr -> C -> result parse_error C);
}.
Record Parser := mkParser {
  positional : nat -> PositionalArg;
  named : nat -> NamedArg;
  command : nat -> Command;
  root_command : option nat;
}.

Record State := mkState {
  parse_count : arg_ref -> nat;
  options : nat -> Opt;
  values : nat -> list Opt;
  client : C;
}.

Definition bump (a : arg_ref) (st : State) : State :=
  mkState (fun x => if decide (x = a) then S (parse_count st x) else parse_count st x)
    (options st) (values st) (client st).
Definition set_option (n : nat) (o : Opt) (st : State) : State :=
  mkState (parse_count st) (fun x => if x =? n then o else options st x) (values st) (client st).
Definition set_values (n : nat) (vs : list Opt) (st : State) : State :=
  mkState (parse_count st) (options st) (fun x => if x =? n then vs else values st x) (client st).
Definition set_client (c : C) (st : State) : State :=
  mkState (parse_count st) (options st) (values st) c.

Context (p : Parser).

Definition conflict_args (a : arg_ref) : option (list arg_ref) :=
  match a with
  | Pos n => pa_conflict_args (positional p n)
  | Named n => na_conflict_args (named p n)
  | Cmd n => cm_conflict_args (command p n)
  end.

Definition get_conflict_argument (a : arg_ref) (st : State) : option arg_ref :=
  match conflict_args a with
  | Some args => head (base.filter (fun x => x <> a /\ 0 < parse_count st x) args)
  | None => None
  end.

(** The short name replaces what was put together before. *)
Definition get_conflict_arg_msg (conflict_arg : arg_ref) : cstr :=
  match conflict_arg with
  | Named n =>
      let a := named p n in
      let conflict := if bool_decide (na_long_name a = []) then []
        else ["034"%char] ++ lit "--" ++ na_long_name a ++ ["034"%char] in
      let conflict := if negb (bool_decide (na_long_name a = [])) && bool_decide (is_Some (na_short_name a))
        then conflict ++ lit "/" else conflict in
      let conflict := match na_short_name a with
        | Some c => ["034"%char; "-"%char; c; "034"%char] | None => conflict end in
      lit "not allowed with argument " ++ conflict
  | Cmd n => lit "not allowed with command " ++ cm_name (command p n)
  | Pos n => lit "not allowed with positional argument " ++ pa_name (positional p n)
  end.

Definition quoted (s : cstr) : cstr := ["034"%char] ++ s ++ ["034"%char].

(** The check every [parse] starts with. *)
Definition check_conflict (a : arg_ref) (msg : cstr -> cstr) (st : State) : result parse_error unit :=
  match get_conflict_argument a st with
  | Some arg => Err (RuntimeError (msg (get_conflict_arg_msg arg)))
  | None => Ok tt
  end.

(** ** Positional arguments *)

(** [nargs]: a number, [OPTIONAL] (0), or a negative number for the rest. *)
Definition positional_count (nargs : Z) (argc : nat) : nat :=
  if (0 <? nargs)%Z then Z.to_nat nargs else if (nargs =? 0)%Z then 1 else argc.

(** The loop over the values: missing ones are cloned from [init_value]. *)
Fixpoint store_values (init : option Opt) (i : nat) (args : list cstr) (vs : list Opt)
  : result parse_error (list Opt) :=
  match args with
  | [] => Ok vs
  | arg :: args =>
      let* vs := if length vs <=? i
        then match init with Some o => Ok (vs ++ [o]) | None => Err NullPointer end
        else Ok vs in
      match vs !! i with
      | Some o => let* o := opt_set arg o in store_values init (S i) args (<[i := o]> vs)
      | None => Err NullPointer
      end
  end.

Definition run_hook (hook : option (C -> result parse_error C)) (st : State) : result parse_error State :=
  match hook with
  | Some f => let* c := f (client st) in Ok (set_client c st)
  | None => Ok st
  end.

(** [argv] holds the arguments from the positional one on. *)
Definition pos_parse (n : nat) (option_ : cstr) (argv : list cstr) (st : State)
  : result parse_error (nat * State) :=
  let a := positional p n in
  let* _ := check_conflict (Pos n)
    (fun m => lit "positional argument " ++ quoted option_ ++ lit ": " ++ m) st in
  if (Z.of_nat (length argv) <? pa_nargs a)%Z then Err (RuntimeError (lit "Not enough parameters"))
  else
    let count := positional_count (pa_nargs a) (length argv) in
    let* st := if pa_store_value a
      then let* vs := store_values (pa_init_value a) 0 (take count argv) (values st (pa_values a)) in
           Ok (set_values (pa_values a) vs st)
      else Ok st in
    let st := bump (Pos n) st in
    let* st := run_hook ((fun f => f argv) <$> pa_parse_hook a) st in
    Ok (count, st).

(** ** Named arguments *)

(** Everything behind the first [=]. *)
Definition assign_ptr (s : cstr) : option cstr :=
  (fun i => drop (S i) s) <$> find_idx (fun c => bool_decide (c = "="%char)) s.
Definition before_assign (s : cstr) : cstr := fst (span (fun c => negb (bool_decide (c = "="%char))) s).

(** The common end: store the value, count, hook. *)
Definition finish_named (n : nat) (option_ arg_value : cstr) (st : State) : result parse_error State :=
  let a := named p n in
  let* st := match na_store_value a, na_value a with
    | true, Some v => let* o := opt_set arg_value (options st v) in Ok (set_option v o st)
    | _, _ => Ok st
    end in
  run_hook ((fun f => f option_ arg_value) <$> na_parse_hook a) (bump (Named n) st).

Definition parse_long (n : nat) (option_ : cstr) (argv : list cstr) (st : State)
  : result parse_error (nat * State) :=
  let a := named p n in
  let* _ := check_conflict (Named n)
    (fun m => lit "argument " ++ quoted (lit "--" ++ option_) ++ lit ": " ++ m) st in
  let* (arg_value, consumed_args) :=
    if na_has_arg a then
      match assign_ptr option_ with
      | Some v => Ok (v, 1)
      | None => match argv with
                | _ :: v :: _ => Ok (v, 2)
                | _ => Err (RuntimeError (lit "Not enough arguments"))
                end
      end
    else
      match assign_ptr option_ with
      | Some v => Err (RuntimeError (lit "NamedArg: Error: Unexpected argument " ++ quoted v))
      | None => Ok (na_const_val a, 1)
      end in
  let* st := finish_named n option_ arg_value st in
  Ok (consumed_args, st).

(** The text of the conflict is cut to its first character. *)
Definition parse_short (n : nat) (option_ : cstr) (argv : list cstr) (st : State)
  : result parse_error (nat * State) :=
  let a := named p n in
  let* _ := check_conflict (Named n)
    (fun m => lit "argument " ++ quoted (lit "-" ++ option_) ++ lit ": " ++ take 1 m) st in
  let* (arg_value, consumed_args) :=
    if na_has_arg a then
      match drop 1 option_ with
      | [] => match argv with
              | _ :: v :: _ => Ok (v, 2)
              | _ => Err (RuntimeError (lit "Not enough arguments"))
              end
      | v => Ok (v, 1)
      end
    else Ok (na_const_val a, match drop 1 option_ with [] => 1 | _ => 0 end) in
  let* st := finish_named n option_ arg_value st in
  Ok (consumed_args, st).

(** ** Commands *)

(** [tmp[short_option_idx]]: the terminating zero is no character. *)
Definition char_at (s : cstr) (i : nat) : result parse_error (option ascii) :=
  if i <=? length s then Ok (s !! i) else Err OutOfBounds.

(** The loop over the named arguments for [argv[i]]: the new position and short
    option index when one of them was used. *)
Fixpoint named_loop (opts : list nat) (long_option : bool) (tmp : cstr) (argv : list cstr)
    (short_idx : nat) (st : State) : result parse_error (option (nat * nat * State)) :=
  match opts with
  | [] => Ok None
  | n :: opts =>
      let a := named p n in
      if long_option then
        if negb (bool_decide (na_long_name a = [])) && bool_decide (before_assign tmp = na_long_name a)
        then let* (used, st) := parse_long n tmp argv st in Ok (Some (used, short_idx, st))
        else named_loop opts long_option tmp argv short_idx st
      else
        match na_short_name a with
        | None => named_loop opts long_option tmp argv short_idx st
        | Some c =>
            let* ch := char_at tmp short_idx in
            if bool_decide (ch = Some c) then
              let* (used, st) := parse_short n (drop short_idx tmp) argv st in
              Ok (Some (if used =? 0 then (0, S short_idx, st) else (used, 0, st)))
            else named_loop opts long_option tmp argv short_idx st
        end
  end.

(** An argument that starts with a dash: one or two dashes are taken off. *)
Definition named_step (c : Command) (argv : list cstr) (short_idx : nat) (st : State)
  : result parse_error (option (nat * nat * State)) :=
  match argv with
  | ("-"%char :: "-"%char :: tmp) :: _ => named_loop (cm_named_args c) true tmp argv short_idx st
  | ("-"%char :: tmp) :: _ => named_loop (cm_named_args c) false tmp argv short_idx st
  | _ => Ok None
  end.

Definition find_command (c : Command) (arg : cstr) : option nat :=
  head (base.filter (fun k => cm_name (command p k) = arg) (cm_cmds c)).

(** The lookups of the client: the first member with the name. *)
Definition get_command (c : Command) (name : cstr) : result parse_error nat :=
  match head (base.filter (fun k => cm_name (command p k) = name) (cm_cmds c)) with
  | Some k => Ok k | None => Err (RuntimeError (lit "Commnand not found"))
  end.
Definition get_named_arg (c : Command) (name : cstr) : result parse_error nat :=
  match head (base.filter (fun n => na_name (named p n) = name) (cm_named_args c)) with
  | Some n => Ok n | None => Err (RuntimeError (lit "Named argument not found"))
  end.
Definition get_positional_arg (c : Command) (name : cstr) : result parse_error nat :=
  match head (base.filter (fun n => pa_name (positional p n) = name) (cm_pos_args c)) with
  | Some n => Ok n | None => Err (RuntimeError (lit "Positional argument not found"))
  end.

Definition finish_command (k : nat) (option_ : cstr) (argv : list cstr) (st : State)
  : result parse_error State :=
  run_hook ((fun f => f option_ argv) <$> cm_parse_hook (command p k)) (bump (Cmd k) st).

(** [Command::parse] from [argv[i]] on, with [i >= 1]; [None] when the fuel runs
    out. After a positional argument the flag [used] is still false, and one
    more argument is skipped. *)
Fixpoint parse_loop (fuel : nat) (k : nat) (option_ : cstr) (argv : list cstr)
    (i used_values short_idx : nat) (st : State) : option (result parse_error State) :=
  match fuel with
  | O => None
  | S fuel =>
      let c := command p k in
      match drop i argv with
      | [] => Some (finish_command k option_ argv st)
      | arg :: rest =>
          match named_step c (arg :: rest) short_idx st with
          | Err e => Some (Err e)
          | Ok (Some (used, short_idx, st)) =>
              parse_loop fuel k option_ argv (i + used) used_values short_idx st
          | Ok None =>
              match find_command c arg with
              | Some sub =>
                  match check_conflict (Cmd k)
                    (fun m => lit "command " ++ quoted option_ ++ lit ": " ++ m) st with
                  | Err e => Some (Err e)
                  | Ok _ =>
                      match parse_loop fuel sub arg (arg :: rest) 1 0 0 st with
                      | Some (Ok st) => Some (finish_command k option_ argv st)
                      | r => r
                      end
                  end
              | None =>
                  match cm_pos_args c !! used_values with
                  | Some n =>
                      match pos_parse n arg (arg :: rest) st with
                      | Err e => Some (Err e)
                      | Ok (count, st) =>
                          parse_loop fuel k option_ argv (S (i + count)) (S used_values) short_idx st
                      end
                  | None => parse_loop fuel k option_ argv (S i) used_values short_idx st
                  end
              end
          end
      end
  end.

(** What [help] prints in front of the description of a named argument;
    [help] is its [arg_value_help]. *)
Definition named_arg_names (a : NamedArg) (help : cstr) : cstr :=
  let value (sep : string) := if na_has_arg a
    then (if bool_decide (help = []) then lit sep ++ lit "VALUE" else lit sep ++ help) else [] in
  let names := match na_short_name a with
    | Some c => ["-"%char; c] ++ value " " ++ (if bool_decide (na_long_name a = []) then [] else lit ", ")
    | None => []
    end in
  if bool_decide (na_long_name a = []) then names
  else names ++ lit "--" ++ na_long_name a ++ value "=".

(** A fuel that is enough: every step advances by a character or an argument. *)
Definition weight (argv : list cstr) : nat := sum_list_with (fun a => length a + 2) argv.
Definition command_parse (k : nat) (option_ : cstr) (argv : list cstr) (st : State)
  : option (result parse_error State) :=
  parse_loop (S (weight argv)) k option_ argv 1 0 0 st.

(** [ArgumentParser::parse], for [argv] with the name of the program. *)
Definition parse (argv : list cstr) (st : State) : option (result parse_error State) :=
  match root_command p, argv with
  | Some k, arg0 :: _ => command_parse k arg0 argv st
  | _, _ => Some (Err (RuntimeError (lit "ArgumentParser: Error: root command is not set")))
  end.

Definition reset_parse_count (st : State) : State :=
  mkState (fun _ => 0) (options st) (values st) (client st).

(** ** Termination *)

Definition measure_at (argv : list cstr) (i short_idx : nat) : nat :=
  weight (drop i argv) - match drop i argv with a :: _ => min short_idx (length a) | [] => 0 end.

Lemma weight_drop_le argv i j : i <= j -> weight (drop j argv) <= weight (drop i argv).
Proof.
  intros Hij. replace j with (i + (j - i)) by lia. rewrite <-drop_drop.
  generalize (drop i argv) (j - i). intros l. induction l as [|a l IH]; intros n; [by destruct n|].
  destruct n as [|n]; simpl; [lia|]. specialize (IH n). unfold weight in *. simpl. lia.
Qed.

Lemma measure_next argv i j arg rest short_idx short_idx' :
  drop i argv = arg :: rest -> i < j ->
  measure_at argv j short_idx' < measure_at argv i short_idx.
Proof.
  intros Hd Hj. unfold measure_at at 2. rewrite Hd.
  pose proof (weight_drop_le argv (S i) j ltac:(lia)) as Hle.
  assert (Hr : drop (S i) argv = rest).
  { replace (S i) with (i + 1) by lia. rewrite <-drop_drop, Hd. done. }
  rewrite Hr in Hle. unfold measure_at, weight in *. simpl. lia.
Qed.

Lemma parse_long_consumes n tmp argv st used st' :
  parse_long n tmp argv st = Ok (used, st') -> 0 < used.
Proof.
  unfold parse_long. intros H1. apply result_bind_Ok in H1 as (_ & _ & H1).
  apply result_bind_Ok in H1 as ([v u] & Hu & H1). apply result_bind_Ok in H1 as (s & _ & [= <- <-]).
  repeat case_match; simplify_eq; lia.
Qed.

Lemma named_loop_progress opts long tmp argv short_idx st used si st' :
  named_loop opts long tmp argv short_idx st = Ok (Some (used, si, st')) ->
  0 < used \/ (used = 0 /\ si = S short_idx /\ short_idx < length tmp).
Proof.
  induction opts as [|n opts IH]; simpl; [done|]. destruct long.
  - case_match; [|by apply IH]. intros H1. apply result_bind_Ok in H1 as ([u s] & H1 & [= <- <- <-]).
    left. by eapply parse_long_consumes.
  - destruct (na_short_name (named p n)) as [c|]; [|by apply IH].
    intros H1. apply result_bind_Ok in H1 as (ch & Hch & H1). case_bool_decide as Hc; [|by apply IH].
    apply result_bind_Ok in H1 as ([u s] & H1 & Hu).
    unfold char_at in Hch. destruct (short_idx <=? length tmp); [|done].
    injection Hch as <-. apply lookup_lt_Some in Hc.
    destruct (Nat.eqb_spec u 0); injection Hu as <- <- <-; [right; by split_and!|left; lia].
Qed.

Lemma named_step_progress c arg rest short_idx st used si st' :
  named_step c (arg :: rest) short_idx st = Ok (Some (used, si, st')) ->
  0 < used \/ (used = 0 /\ si = S short_idx /\ short_idx < length arg).
Proof.
  unfold named_step. repeat case_match; try done;
    intros H'%named_loop_progress; simpl; naive_solver lia.
Qed.

Lemma pos_parse_count n opt arg rest st count st' :
  pos_parse n opt (arg :: rest) st = Ok (count, st') -> 0 < count.
Proof.
  unfold pos_parse. intros H1. apply result_bind_Ok in H1 as (_ & _ & H1). case_match; [done|].
  apply result_bind_Ok in H1 as (s1 & _ & H1). apply result_bind_Ok in H1 as (s2 & _ & [= <- <-]).
  unfold positional_count. simpl. repeat case_match; lia.
Qed.

Lemma parse_loop_total fuel k opt argv i uv si st :
  1 <= i -> measure_at argv i si < fuel ->
  exists r, parse_loop fuel k opt argv i uv si st = Some r.
Proof.
  revert k opt argv i uv si st. induction fuel as [|fuel IH]; intros k opt argv i uv si st Hi Hf; [lia|].
  cbn [parse_loop]. destruct (drop i argv) as [|arg rest] eqn:Hd; [by eexists|].
  assert (Hnext : forall j si', i < j -> measure_at argv j si' < fuel).
  { intros j si' Hj. pose proof (measure_next argv i j arg rest si si' Hd Hj). lia. }
  destruct (named_step _ _ _ _) as [[[[used si'] st']|]|e] eqn:Hn; [..|by eexists].
  - apply named_step_progress in Hn as [Hu|(-> & -> & Hlt)].
    + apply IH; [lia|]. apply Hnext. lia.
    + rewrite Nat.add_0_r. apply IH; [done|]. unfold measure_at in *. rewrite Hd in *.
      assert (length arg + 2 <= weight (arg :: rest)) by (unfold weight; simpl; lia). lia.
  - destruct (find_command _ _) as [sub|].
    + destruct (check_conflict _ _ _); [|by eexists].
      destruct (IH sub arg (arg :: rest) 1 0 0 st) as [r Hr]; [lia| |].
      * unfold measure_at in *. rewrite Hd in Hf. change (drop 1 (arg :: rest)) with (drop 0 rest).
        rewrite drop_0. assert (Hw : weight (arg :: rest) = length arg + 2 + weight rest) by done. lia.
      * rewrite Hr. destruct r; by eexists.
    + destruct (cm_pos_args _ !! uv) as [n|].
      * destruct (pos_parse _ _ _ _) as [[count st']|] eqn:Hp; [|by eexists].
        apply pos_parse_count in Hp. apply IH; [lia|]. apply Hnext. lia.
      * apply IH; [lia|]. apply Hnext. lia.
Qed.

(** Parsing a command line always ends, with a state or an exception,
    whatever the arguments are and however the commands refer to each other. *)
Theorem parse_total argv st : exists r, parse argv st = Some r.
Proof.
  unfold parse. destruct (root_command p) as [k|]; [|by eexists]. destruct argv as [|arg0 argv]; [by eexists|].
  apply parse_loop_total; [done|]. unfold measure_at, weight. simpl. destruct argv; simpl; lia.
Qed.

(** ** Conflicts *)

(** At most one argument of the group was parsed. *)
Definition at_most_one (group : list arg_ref) (st : State) : Prop :=
  forall a b, a ∈ group -> b ∈ group -> 0 < parse_count st a -> 0 < parse_count st b -> a = b.

(** A group of named and positional arguments all of which know the group. *)
Definition conflict_group (group : list arg_ref) : Prop :=
  Forall (fun a => conflict_args a = Some group /\ forall k, a <> Cmd k) group.

Lemma check_conflict_ok a group msg st :
  check_conflict a msg st = Ok tt -> conflict_args a = Some group ->
  forall b, b ∈ group -> b <> a -> parse_count st b = 0.
Proof.
  unfold check_conflict, get_conflict_argument. intros Hc Ha b Hb Hne. rewrite Ha in Hc.
  destruct (decide (parse_count st b = 0)) as [|Hpos]; [done|].
  assert (Hin : b ∈ base.filter (fun x => x <> a /\ 0 < parse_count st x) group)
    by (apply list_elem_of_filter; split; [split; [done|lia]|done]).
  destruct (base.filter _ group); [by apply elem_of_nil in Hin|done].
Qed.

Lemma bump_at_most_one group a st :
  at_most_one group st ->
  (a ∈ group -> forall b, b ∈ group -> b <> a -> parse_count st b = 0) ->
  at_most_one group (bump a st).
Proof.
  intros Hone Ha x y Hx Hy. simpl. repeat case_decide; subst; try done.
  - intros _ Hp. rewrite Ha in Hp by done. lia.
  - intros Hp _. rewrite Ha in Hp by done. lia.
  - by apply Hone.
Qed.

Lemma run_hook_count hook st st' : run_hook hook st = Ok st' -> parse_count st' = parse_count st.
Proof.
  unfold run_hook. destruct hook as [f|]; [|by intros [= <-]].
  intros H1. by apply result_bind_Ok in H1 as (c & _ & [= <-]).
Qed.

Lemma finish_named_count n opt v st st' :
  finish_named n opt v st = Ok st' -> parse_count st' = parse_count (bump (Named n) st).
Proof.
  unfold finish_named. intros H1. apply result_bind_Ok in H1 as (s & Hs & ->%run_hook_count).
  repeat case_match; try (by injection Hs as <-).
  by apply result_bind_Ok in Hs as (o & _ & [= <-]).
Qed.

Lemma at_most_one_count group st st' :
  parse_count st' = parse_count st -> at_most_one group st -> at_most_one group st'.
Proof. intros He. unfold at_most_one. by rewrite He. Qed.

Section conflicts.
Context (group : list arg_ref) (Hgroup : conflict_group group).

Lemma group_check a msg st :
  check_conflict a msg st = Ok tt -> at_most_one group st -> at_most_one group (bump a st).
Proof.
  intros Hc Hone. apply bump_at_most_one; [done|]. intros Ha.
  unfold conflict_group in Hgroup. rewrite Forall_forall in Hgroup.
  destruct (Hgroup _ Ha) as [Hg _]. by eapply check_conflict_ok.
Qed.

Lemma bump_command k st : at_most_one group st -> at_most_one group (bump (Cmd k) st).
Proof.
  intros Hone. apply bump_at_most_one; [done|]. intros Ha.
  unfold conflict_group in Hgroup. rewrite Forall_forall in Hgroup. destruct (Hgroup _ Ha) as [_ Hk]. by destruct (Hk k).
Qed.

Lemma parse_long_one n opt argv st used st' :
  parse_long n opt argv st = Ok (used, st') -> at_most_one group st -> at_most_one group st'.
Proof.
  unfold parse_long. intros H1 Hone. apply result_bind_Ok in H1 as ([] & Hc & H1).
  apply result_bind_Ok in H1 as ([v u] & _ & H1). apply result_bind_Ok in H1 as (s & Hs & [= <- <-]).
  apply finish_named_count in Hs. eapply at_most_one_count; [exact Hs|]. by eapply group_check.
Qed.

Lemma parse_short_one n opt argv st used st' :
  parse_short n opt argv st = Ok (used, st') -> at_most_one group st -> at_most_one group st'.
Proof.
  unfold parse_short. intros H1 Hone. apply result_bind_Ok in H1 as ([] & Hc & H1).
  apply result_bind_Ok in H1 as ([v u] & _ & H1). apply result_bind_Ok in H1 as (s & Hs & [= <- <-]).
  apply finish_named_count in Hs. eapply at_most_one_count; [exact Hs|]. by eapply group_check.
Qed.

Lemma named_step_one c argv si st used si' st' :
  named_step c argv si st = Ok (Some (used, si', st')) -> at_most_one group st -> at_most_one group st'.
Proof.
  assert (Hloop : forall opts long tmp, named_loop opts long tmp argv si st = Ok (Some (used, si', st')) ->
    at_most_one group st -> at_most_one group st').
  { induction opts as [|n opts IH]; intros long tmp; simpl; [done|]. destruct long.
    - case_match; [|apply IH]. intros H1. apply result_bind_Ok in H1 as ([u s] & H1 & [= <- <- <-]).
      by eapply parse_long_one.
    - destruct (na_short_name (named p n)) as [ch|]; [|apply IH].
      intros H1. apply result_bind_Ok in H1 as (ch' & _ & H1). case_match; [|by eapply IH].
      apply result_bind_Ok in H1 as ([u s] & H1 & Hu). intros Hone. apply parse_short_one in H1; [|done].
      by destruct (u =? 0); injection Hu as <- <- <-. }
  unfold named_step. repeat case_match; try done; apply Hloop.
Qed.

Lemma pos_parse_one n opt argv st count st' :
  pos_parse n opt argv st = Ok (count, st') -> at_most_one group st -> at_most_one group st'.
Proof.
  unfold pos_parse. intros H1 Hone. apply result_bind_Ok in H1 as ([] & Hc & H1). case_match; [done|].
  apply result_bind_Ok in H1 as (s1 & Hs1 & H1). apply result_bind_Ok in H1 as (s2 & Hs2 & [= <- <-]).
  apply run_hook_count in Hs2. eapply at_most_one_count; [exact Hs2|].
  assert (Heq : parse_count s1 = parse_count st).
  { case_match; [|by injection Hs1 as <-]. by apply result_bind_Ok in Hs1 as (vs & _ & [= <-]). }
  apply (at_most_one_count group (bump (Pos n) st)); [simpl; by rewrite Heq|]. by eapply group_check.
Qed.

Lemma parse_loop_one fuel k opt argv i uv si st st' :
  parse_loop fuel k opt argv i uv si st = Some (Ok st') -> at_most_one group st -> at_most_one group st'.
Proof.
  revert k opt argv i uv si st st'. induction fuel as [|fuel IH]; intros k opt argv i uv si st st'; [done|].
  assert (Hfin : forall s, finish_command k opt argv s = Ok st' -> at_most_one group s -> at_most_one group st').
  { intros s Hs Hone. apply run_hook_count in Hs. eapply at_most_one_count; [exact Hs|]. by apply bump_command. }
  cbn [parse_loop]. destruct (drop i argv) as [|arg rest]; [intros [= H1]; by eapply Hfin|].
  destruct (named_step _ _ _ _) as [[[[used si'] s1]|]|e] eqn:Hn; [..|done].
  - intros H1 Hone. eapply IH; [exact H1|]. by eapply named_step_one.
  - destruct (find_command _ _) as [sub|].
    + destruct (check_conflict _ _ _); [|done].
      destruct (parse_loop fuel sub _ _ _ _ _ _) as [[s1|]|] eqn:Hs; [|done|done].
      intros [= H1] Hone. eapply Hfin; [exact H1|]. by eapply IH.
    + destruct (cm_pos_args _ !! uv) as [n|]; [|by apply IH].
      destruct (pos_parse _ _ _ _) as [[count s1]|] eqn:Hp; [|done].
      intros H1 Hone. eapply IH; [exact H1|]. by eapply pos_parse_one.
Qed.

End conflicts.

(** Named and positional arguments that conflict are never parsed together:
    when the members of a group all list the group, a command line that is
    accepted has parsed at most one of them. *)
Theorem conflicts_rejected group argv st st' :
  conflict_group group -> at_most_one group st -> parse argv st = Some (Ok st') -> at_most_one group st'.
Proof.
  intros Hg Hone. unfold parse. destruct (root_command p); [|done]. destruct argv; [done|].
  intros H1. by eapply parse_loop_one.
Qed.

(** ** Long options *)

Definition render (x : nat * cstr) : cstr :=
  lit "--" ++ na_long_name (named p (fst x)) ++ lit "=" ++ snd x.

(** An argument of the command that takes a value and stores it in an option. *)
Definition plain_option (c : Command) (f : cstr -> Opt -> Opt) (x : nat * cstr) : Prop :=
  let a := named p (fst x) in
  fst x ∈ cm_named_args c /\ na_has_arg a = true /\ na_store_value a = true
  /\ is_Some (na_value a) /\ na_conflict_args a = None /\ na_parse_hook a = None
  /\ na_long_name a <> [] /\ ("="%char ∉ na_long_name a)
  /\ forall o, opt_set (snd x) o = Ok (f (snd x) o).

(** No two arguments of the list share a long name. *)
Definition long_names_unique (opts : list nat) : Prop :=
  forall m n, m ∈ opts -> n ∈ opts -> na_long_name (named p m) = na_long_name (named p n) ->
  na_long_name (named p m) <> [] -> m = n.

(** The setting of one option. *)
Definition set_plain (f : cstr -> Opt -> Opt) (st : State) (x : nat * cstr) : State :=
  bump (Named (fst x)) (match na_value (named p (fst x)) with
    | Some v => set_option v (f (snd x) (options st v)) st
    | None => st
    end).

Lemma before_assign_app name v : "="%char ∉ name -> before_assign (name ++ "="%char :: v) = name.
Proof.
  intros Hn. unfold before_assign. rewrite (span_app _ name ("="%char :: v)); [done| |done].
  apply Forall_forall. intros c Hc. apply negb_true_iff, bool_decide_eq_false. by intros ->.
Qed.

Lemma assign_ptr_app name v : "="%char ∉ name -> assign_ptr (name ++ "="%char :: v) = Some v.
Proof.
  intros Hn. unfold assign_ptr. rewrite find_idx_app_r.
  - simpl. rewrite Nat.add_0_r. replace (S (length name)) with (length (name ++ ["="%char]))
      by (rewrite length_app; simpl; lia).
    replace (name ++ "="%char :: v) with ((name ++ ["="%char]) ++ v) by (by rewrite <-app_assoc).
    by rewrite drop_app_length.
  - apply Forall_forall. intros c Hc. apply bool_decide_eq_false. by intros ->.
Qed.

Lemma named_loop_long c f x argv si st opts :
  plain_option c f x -> fst x ∈ opts -> long_names_unique opts ->
  named_loop opts true (na_long_name (named p (fst x)) ++ "="%char :: snd x) argv si st
  = Ok (Some (1, si, set_plain f st x)).
Proof.
  intros (_ & Harg & Hstore & [v Hv] & Hconf & Hhook & Hne & Heq & Hset) Hin Hnd.
  induction opts as [|n opts IH]; [by apply elem_of_nil in Hin|]. cbn [named_loop].
  rewrite before_assign_app by done.
  destruct (decide (na_long_name (named p (fst x)) = na_long_name (named p n))) as [Hsame|Hdiff].
  - assert (n = fst x) as ->.
    { symmetry. apply Hnd; [done|left|done|done]. }
    rewrite bool_decide_eq_false_2, bool_decide_eq_true_2 by done. cbn [negb andb].
    unfold parse_long, check_conflict, get_conflict_argument. simpl. rewrite Hconf, Harg.
    rewrite assign_ptr_app by done. simpl. unfold finish_named. rewrite Hstore, Hv, Hset, Hhook. simpl.
    unfold set_plain. by rewrite Hv.
  - rewrite (bool_decide_eq_false_2 (na_long_name (named p (fst x)) = _)) by done.
    rewrite andb_false_r. apply IH.
    + apply elem_of_cons in Hin as [Hin|Hin]; [by rewrite Hin in Hdiff|done].
    + intros m1 m2 H1 H2. apply Hnd; by right.
Qed.

Lemma parse_loop_long f k opt xs pre fuel uv si st :
  Forall (plain_option (command p k) f) xs ->
  long_names_unique (cm_named_args (command p k)) -> length xs < fuel ->
  parse_loop fuel k opt (pre ++ (render <$> xs)) (length pre) uv si st
  = Some (finish_command k opt (pre ++ (render <$> xs)) (foldl (set_plain f) st xs)).
Proof.
  intros Hxs Hnd. revert pre fuel st. induction Hxs as [|x xs Hx Hxs IH]; intros pre fuel st Hf;
    (destruct fuel as [|fuel]; [simpl in Hf; lia|]); cbn [parse_loop].
  - by rewrite app_nil_r, drop_all.
  - rewrite drop_app_length. cbn [fmap list_fmap]. unfold render at 1.
    replace (lit "--" ++ _) with ("-"%char :: "-"%char :: na_long_name (named p (fst x)) ++ "="%char :: snd x) by done.
    cbn [named_step]. rewrite (named_loop_long (command p k) f x) by (done || exact (proj1 Hx)).
    replace (length pre + 1) with (length (pre ++ [render x])) by (rewrite length_app; done).
    rewrite (cons_middle (render x) pre), app_assoc.
    apply IH. simpl in Hf. lia.
Qed.

(** A command line of long options with values sets exactly those options,
    in order, each to what its value makes of it, and counts every occurrence;
    then the hook of the root command runs. *)
Theorem long_options_set f k arg0 xs st :
  root_command p = Some k -> Forall (plain_option (command p k) f) xs ->
  long_names_unique (cm_named_args (command p k)) ->
  parse (arg0 :: (render <$> xs)) st
  = Some (finish_command k arg0 (arg0 :: (render <$> xs)) (foldl (set_plain f) st xs))
  /\ forall n, parse_count (foldl (set_plain f) st xs) (Named n)
       = parse_count st (Named n) + length (base.filter (fun x => fst x = n) xs).
Proof.
  intros Hroot Hxs Hnd. split.
  - unfold parse. rewrite Hroot. unfold command_parse.
    apply (parse_loop_long f k arg0 xs [arg0]); [done..|].
    unfold weight. simpl. clear. induction xs as [|x xs IH]; simpl in *; [lia|]. unfold fmap in *. lia.
  - clear Hxs. revert st. induction xs as [|x xs IH]; intros st n; simpl; [lia|].
    rewrite IH, filter_cons. unfold set_plain at 1. simpl.
    destruct (na_value _); simpl; repeat case_decide; simplify_eq/=; lia.
Qed.
End parser.

(** ** A small parser *)

(** Options of strings; the arguments [--out=VALUE], [-v], [-c] (in conflict
    with [--out]) and two positional ones. *)
Definition demo_set (v : cstr) (_ : cstr) : result parse_error cstr := Ok v.
Definition demo_parser : @Parser cstr unit :=
  mkParser
    (fun n => mkPos (lit "pos") 1 (Some []) n true None None)
    (fun n => match n with
      | 0 => mkNamed (lit "out") (lit "out") None true [] (Some 0) true None None
      | 1 => mkNamed (lit "v") [] (Some "v"%char) false (lit "1") (Some 1) true None None
      | 2 => mkNamed (lit "c") [] (Some "c"%char) false (lit "1") (Some 2) true (Some [Named 1; Named 2]) None
      | _ => mkNamed (lit "d") (lit "debug") (Some "d"%char) false (lit "1") (Some 3) true (Some [Named 2; Named 3]) None
      end)
    (fun _ => mkCommand (lit "main") [] [0; 1; 2; 3] [0; 1] None None)
    (Some 0).
Definition demo_state : @State cstr unit := mkState (fun _ => 0) (fun _ => []) (fun _ => []) tt.
Definition demo_result (argv : list string) : option (list cstr * list (list cstr)) :=
  match parse demo_set demo_parser (lit <$> argv) demo_state with
  | Some (Ok st) => Some (options st <$> [0; 1; 2], values st <$> [0; 1])
  | _ => None
  end.

Lemma long_options_set_witness :
  exists st, parse demo_set demo_parser (lit <$> ["prog"; "--out=a"; "--out=b"]%string) demo_state = Some (Ok st)
  /\ parse_count st (Named 0) = 2.
Proof.
  destruct (long_options_set demo_set demo_parser (fun v _ => v) 0 (lit "prog")
    [(0, lit "a"); (0, lit "b")] demo_state) as [H1 H2].
  - reflexivity.
  - assert (Hp : forall v, plain_option demo_set demo_parser (command demo_parser 0) (fun v _ => v) (0, v)).
    { intros v. unfold plain_option. simpl.
      split_and!; try reflexivity; [left|by eexists|discriminate|apply (bool_decide_unpack _); vm_compute; exact I]. }
    repeat constructor; apply Hp.
  - intros m n Hm Hn. cbn in Hm, Hn. rewrite !elem_of_cons, elem_of_nil in Hm, Hn.
    destruct Hm as [->|[->|[->|[->|[]]]]], Hn as [->|[->|[->|[->|[]]]]]; by try discriminate 1.
  - eexists. split; [exact H1|]. exact (H2 0).
Defined.

(** The same parser with one group of conflicting arguments, [-v] and [-c]. *)
Definition solo_parser : @Parser cstr unit :=
  mkParser (positional demo_parser) (fun n => let a := named demo_parser n in
    mkNamed (na_name a) (na_long_name a) (na_short_name a) (na_has_arg a) (na_const_val a)
      (na_value a) (na_store_value a) (Some [Named 1; Named 2]) None) (command demo_parser) (Some 0).

Lemma conflicts_rejected_witness :
  exists st, parse demo_set solo_parser (lit <$> ["prog"; "-v"; "-v"]%string) demo_state = Some (Ok st)
  /\ at_most_one [Named 1; Named 2] st /\ parse_count st (Named 1) = 2.
Proof.
  eexists. split; [reflexivity|]. split; [|reflexivity].
  eapply (conflicts_rejected demo_set solo_parser [Named 1; Named 2] (lit <$> ["prog"; "-v"; "-v"]%string) demo_state).
  - repeat constructor; discriminate.
  - intros a b _ _ Ha. simpl in Ha. lia.
  - reflexivity.
Defined.

(** [-v] and then [-c] is refused, with the message of the code. *)
Example conflict_refused :
  parse demo_set solo_parser (lit <$> ["prog"; "-v"; "-c"]%string) demo_state
  = Some (Err (RuntimeError (lit "argument " ++ quoted (lit "-c") ++ lit ": n"))).
Proof. reflexivity. Qed.

(** After a positional argument the next one is skipped: of three words the
    second positional argument gets the third. *)
Example positional_skips : demo_result ["prog"; "a"; "b"; "c"] = Some ([[]; []; []], [[lit "a"]; [lit "c"]]).
Proof. vm_compute. reflexivity. Qed.

(** An unknown letter leaves the index of the group behind: the option [-v] of
    the next word is not recognised and taken for a positional argument. *)
Example group_index_kept : demo_result ["prog"; "-vx"; "-v"] = Some ([[]; lit "1"; []], [[lit "-vx"]; []]).
Proof. vm_compute. reflexivity. Qed.

(** The name of an argument with both names is only its short one. *)
Example conflict_msg_short :
  get_conflict_arg_msg demo_parser (Named 3) = lit "not allowed with argument " ++ quoted (lit "-d").
Proof. vm_compute. reflexivity. Qed.
End ArgumentParser.
