(* ===== verification/WeakPtr.v ===== *)
(** * WeakPtr: pointers that their guard invalidates ([utils/weak_ptr.hpp])

    A guard knows the pointers that are registered with it, and each pointer
    knows its guard. The objects are mutable and refer to each other by
    address: the model is a heap of guards, of weak pointers and, for the
    pointers that own their resource ([ptr_owner]), of the resources. A step
    that would read or free memory that is not there is an error of its own. *)

From S2P Require Import Prelude.
From stdpp Require Import gmap fin_sets.

Module WeakPtr.

(** The addresses of weak pointers, guards and resources are numbers. *)
Record Ptr := mkPtr { ptr : option nat; guard : option nat }.
Record Heap := mkHeap {
  guards : gmap nat (gset nat);
  ptrs : gmap nat Ptr;
  objects : gset nat;
}.

(** The exception of the class, and undefined behaviour. *)
Inductive error := InvalidPtr | BadAccess.
#[global] Instance error_eq_dec : EqDecision error.
Proof. solve_decision. Defined.

Section weak.
Context (ptr_owner : bool).

Definition guard_of (h : Heap) (p : nat) : option nat := ptrs h !! p ≫= guard.
Definition obj_of (h : Heap) (p : nat) : option nat := ptrs h !! p ≫= ptr.

(** ** Accesses *)

Definition set_field (p : nat) (f : Ptr -> Ptr) (h : Heap) : result error Heap :=
  match ptrs h !! p with
  | Some x => Ok (mkHeap (guards h) (<[p := f x]> (ptrs h)) (objects h))
  | None => Err BadAccess
  end.
Definition set_guard (p : nat) (g : option nat) : Heap -> result error Heap :=
  set_field p (fun x => mkPtr (ptr x) g).
Definition set_ptr (p : nat) (o : option nat) : Heap -> result error Heap :=
  set_field p (fun x => mkPtr o (guard x)).

Definition on_guard (g : nat) (f : gset nat -> gset nat) (h : Heap) : result error Heap :=
  match guards h !! g with
  | Some s => Ok (mkHeap (<[g := f s]> (guards h)) (ptrs h) (objects h))
  | None => Err BadAccess
  end.
(** [if (is_valid()) guard->register_ptr(this)], and for unregistering. *)
Definition register_if_valid (p : nat) (h : Heap) : result error Heap :=
  match guard_of h p with Some g => on_guard g (fun s => {[p]} ∪ s) h | None => Ok h end.
Definition unregister_if_valid (p : nat) (h : Heap) : result error Heap :=
  match guard_of h p with Some g => on_guard g (fun s => s ∖ {[p]}) h | None => Ok h end.

(** [delete ptr]. *)
Definition delete_ptr (p : nat) (h : Heap) : result error Heap :=
  match obj_of h p with
  | None => Ok h
  | Some o =>
      if decide (o ∈ objects h) then Ok (mkHeap (guards h) (ptrs h) (objects h ∖ {[o]}))
      else Err BadAccess
  end.
(** [new TPtr( *src.ptr)] for a pointer that is not null. *)
Definition clone (src : nat) (h : Heap) : result error (option nat * Heap) :=
  match obj_of h src with
  | None => Ok (None, h)
  | Some o =>
      if decide (o ∈ objects h)
      then let o' := fresh (objects h) in Ok (Some o', mkHeap (guards h) (ptrs h) ({[o']} ∪ objects h))
      else Err BadAccess
  end.
(** [ptr = src.ptr] of a copy: the resource is cloned where it is owned. *)
Definition copy_ptr (p src : nat) (h : Heap) : result error Heap :=
  if ptr_owner then let* (o, h) := clone src h in set_ptr p o h
  else set_ptr p (obj_of h src) h.

(** ** [WeakPtr] *)

(** The constructor from a resource and a guard: null is refused. *)
Definition construct (p : nat) (o g : option nat) (h : Heap) : result error Heap :=
  match o, g with
  | Some o, Some g =>
      let h := mkHeap (guards h) (<[p := mkPtr (Some o) (Some g)]> (ptrs h))
                 (if ptr_owner then {[o]} ∪ objects h else objects h) in
      register_if_valid p h
  | _, _ => Err InvalidPtr
  end.

Definition copy_construct (p src : nat) (h : Heap) : result error Heap :=
  let h := mkHeap (guards h) (<[p := mkPtr None (guard_of h src)]> (ptrs h)) (objects h) in
  let* h := copy_ptr p src h in
  register_if_valid p h.

(** The move constructor and the move assignment exist for owners only. *)
Definition move_construct (p src : nat) (h : Heap) : result error Heap :=
  let h := mkHeap (guards h) (<[p := mkPtr None (guard_of h src)]> (ptrs h)) (objects h) in
  let* h := unregister_if_valid src h in
  let* h := set_guard src None h in
  let* h := set_ptr p (obj_of h src) h in
  let* h := set_ptr src None h in
  register_if_valid p h.

Definition destroy (p : nat) (h : Heap) : result error Heap :=
  let* h := unregister_if_valid p h in
  let* h := if ptr_owner then delete_ptr p h else Ok h in
  Ok (mkHeap (guards h) (delete p (ptrs h)) (objects h)).

Definition copy_assign (p src : nat) (h : Heap) : result error Heap :=
  if decide (guard_of h p = guard_of h src) then
    let* h := if ptr_owner then delete_ptr p h else Ok h in
    copy_ptr p src h
  else
    let* h := unregister_if_valid p h in
    let* h := set_guard p (guard_of h src) h in
    let* h := if ptr_owner then delete_ptr p h else Ok h in
    let* h := copy_ptr p src h in
    register_if_valid p h.

Definition move_assign (p src : nat) (h : Heap) : result error Heap :=
  if decide (guard_of h p = guard_of h src) then
    let* h := unregister_if_valid src h in
    let* h := set_guard src None h in
    let* h := delete_ptr p h in
    let* h := set_ptr p (obj_of h src) h in
    set_ptr src None h
  else
    let* h := unregister_if_valid p h in
    let* h := unregister_if_valid src h in
    let* h := set_guard p (guard_of h src) h in
    let* h := set_guard src None h in
    let* h := delete_ptr p h in
    let* h := set_ptr p (obj_of h src) h in
    let* h := set_ptr src None h in
    register_if_valid p h.

(** [operator->] and [get]. *)
Definition get (p : nat) (h : Heap) : result error (option nat) :=
  match guard_of h p with Some _ => Ok (obj_of h p) | None => Err InvalidPtr end.

(** ** [WeakPtrGuard] *)

Definition new_guard (g : nat) (h : Heap) : Heap := mkHeap (<[g := ∅]> (guards h)) (ptrs h) (objects h).

Fixpoint set_guards (ps : list nat) (g : option nat) (h : Heap) : result error Heap :=
  match ps with
  | [] => Ok h
  | p :: ps => let* h := set_guard p g h in set_guards ps g h
  end.

Definition guard_clear (g : nat) (h : Heap) : result error Heap :=
  match guards h !! g with
  | Some s => let* h := set_guards (elements s) None h in on_guard g (fun _ => ∅) h
  | None => Err BadAccess
  end.
Definition guard_destroy (g : nat) (h : Heap) : result error Heap :=
  let* h := guard_clear g h in Ok (mkHeap (delete g (guards h)) (ptrs h) (objects h)).

(** The move constructor and the move assignment: the registered pointers go
    over (the container moved from is empty) and are told their new guard. *)
Definition guard_move (g src : nat) (h : Heap) : result error Heap :=
  match guards h !! src with
  | Some s =>
      let h := mkHeap (<[g := s]> (<[src := ∅]> (guards h))) (ptrs h) (objects h) in
      set_guards (elements s) (Some g) h
  | None => Err BadAccess
  end.


(** ** The invariant: registration *)

(** Exactly the pointers outside [P] with guard [g] are registered with [g];
    every guard that a pointer refers to exists. *)
Record registered (P : gset nat) (h : Heap) : Prop := {
  reg_iff g s p : guards h !! g = Some s -> p ∈ s <-> (p ∉ P) /\ guard_of h p = Some g;
  reg_alive p g : guard_of h p = Some g -> is_Some (guards h !! g);
}.

(** Steps that leave the guards and what refers to them alone. *)
Definition same_guards (h h' : Heap) : Prop :=
  guards h' = guards h /\ forall p, guard_of h' p = guard_of h p.

Lemma registered_same P h h' : same_guards h h' -> registered P h -> registered P h'.
Proof.
  intros [Hg Hp] [H1 H2]. split.
  - intros g s p. rewrite Hg, Hp. apply H1.
  - intros p g. rewrite Hg, Hp. apply H2.
Qed.

Lemma set_field_Ok p f h h' :
  set_field p f h = Ok h' ->
  exists x, ptrs h !! p = Some x /\ h' = mkHeap (guards h) (<[p := f x]> (ptrs h)) (objects h).
Proof. unfold set_field. destruct (ptrs h !! p) as [x|]; [|done]. intros [= <-]. by exists x. Qed.

Lemma guard_of_insert gs ps os p x q :
  guard_of (mkHeap gs (<[p := x]> ps) os) q = if decide (q = p) then guard x else ps !! q ≫= guard.
Proof. unfold guard_of. simpl. case_decide; simplify_map_eq; done. Qed.

Lemma obj_of_insert gs ps os p x q :
  obj_of (mkHeap gs (<[p := x]> ps) os) q = if decide (q = p) then ptr x else ps !! q ≫= ptr.
Proof. unfold obj_of. simpl. case_decide; simplify_map_eq; done. Qed.

Lemma set_ptr_effect p o h h' :
  set_ptr p o h = Ok h' ->
  same_guards h h' /\ objects h' = objects h
  /\ forall q, obj_of h' q = if decide (q = p) then o else obj_of h q.
Proof.
  intros (x & Hx & ->)%set_field_Ok. split_and!; [split; [done|]|done|]; intros q.
  - rewrite guard_of_insert. case_decide; [|done]. subst q. unfold guard_of. by rewrite Hx.
  - by rewrite obj_of_insert.
Qed.

Lemma set_guard_effect p g h h' :
  set_guard p g h = Ok h' ->
  guards h' = guards h /\ objects h' = objects h /\ (forall q, obj_of h' q = obj_of h q)
  /\ forall q, guard_of h' q = if decide (q = p) then g else guard_of h q.
Proof.
  intros (x & Hx & ->)%set_field_Ok. split_and!; [done|done| |]; intros q.
  - rewrite obj_of_insert. case_decide; [|done]. subst q. unfold obj_of. by rewrite Hx.
  - by rewrite guard_of_insert.
Qed.

Lemma set_field_total p f h : p ∈ dom (ptrs h) -> exists h', set_field p f h = Ok h' /\ dom (ptrs h') = dom (ptrs h).
Proof.
  intros [x Hx]%elem_of_dom. unfold set_field. rewrite Hx. eexists. split; [done|]. simpl.
  rewrite dom_insert_L. apply subseteq_union_1_L, singleton_subseteq_l, elem_of_dom. by exists x.
Qed.

(** What only changes the guards' sets. *)
Definition same_ptrs (h h' : Heap) : Prop := ptrs h' = ptrs h /\ objects h' = objects h.

Lemma except_other (p q : nat) (P : gset nat) : q <> p -> (q ∉ {[p]} ∪ P) <-> q ∉ P.
Proof. set_solver. Qed.
Lemma except_self (p : nat) (P : gset nat) : ~ (p ∉ {[p]} ∪ P).
Proof. set_solver. Qed.

Lemma on_guard_registered P P' g f h s :
  registered P h -> guards h !! g = Some s ->
  (forall q, q ∈ f s <-> (q ∉ P') /\ guard_of h q = Some g) ->
  (forall g' q, g' <> g -> guard_of h q = Some g' -> (q ∉ P') <-> (q ∉ P)) ->
  exists h', on_guard g f h = Ok h' /\ same_ptrs h h' /\ registered P' h'.
Proof.
  intros [H1 H2] Hs Hf Hother. unfold on_guard. rewrite Hs. eexists. split; [done|]. split; [done|].
  split; unfold guard_of in *; simpl.
  - intros g' s' q Hs'. destruct (decide (g' = g)) as [->|Hne]; simplify_map_eq; [done|].
    rewrite (H1 _ _ _ Hs'). split; intros [Hq Hg']; (split; [by eapply Hother|done]).
  - intros q g' Hq. destruct (decide (g' = g)) as [->|Hne]; simplify_map_eq; [by eexists|]. by apply (H2 q).
Qed.

Lemma no_guard_registered P p h :
  registered P h -> guard_of h p = None -> registered ({[p]} ∪ P) h.
Proof.
  intros [H1 H2] Hp. split; [|done]. intros g s q Hs. rewrite (H1 _ _ _ Hs).
  destruct (decide (q = p)) as [->|Hqp]; [naive_solver|]. by rewrite except_other.
Qed.

Lemma unregister_ok P p h :
  registered P h ->
  exists h', unregister_if_valid p h = Ok h' /\ same_ptrs h h' /\ registered ({[p]} ∪ P) h'.
Proof.
  intros Hr. unfold unregister_if_valid. destruct (guard_of h p) as [g|] eqn:Hg.
  2:{ exists h. split_and!; [done|done|]. by apply no_guard_registered. }
  destruct (reg_alive _ _ Hr _ _ Hg) as [s Hs]. eapply on_guard_registered; [done|done| |].
  - intros q. rewrite elem_of_difference, (reg_iff _ _ Hr _ _ _ Hs), elem_of_singleton.
    destruct (decide (q = p)) as [->|Hqp]; [|rewrite except_other by done; naive_solver].
    pose proof (except_self p P). naive_solver.
  - intros g' q Hg' Hq. apply except_other. congruence.
Qed.

Lemma register_ok P p h :
  registered ({[p]} ∪ P) h -> p ∉ P ->
  exists h', register_if_valid p h = Ok h' /\ same_ptrs h h' /\ registered P h'.
Proof.
  intros Hr Hp. unfold register_if_valid. destruct (guard_of h p) as [g|] eqn:Hg.
  - destruct (reg_alive _ _ Hr _ _ Hg) as [s Hs]. eapply on_guard_registered; [done|done| |].
    + intros q. rewrite elem_of_union, (reg_iff _ _ Hr _ _ _ Hs), elem_of_singleton.
      destruct (decide (q = p)) as [->|Hqp]; [naive_solver|]. rewrite except_other by done. naive_solver.
    + intros g' q Hg' Hq. rewrite except_other; [done|congruence].
  - exists h. split_and!; [done|done|]. destruct Hr as [H1 H2]. split; [|done].
    intros g s q Hs. rewrite (H1 _ _ _ Hs). destruct (decide (q = p)) as [->|Hqp]; [naive_solver|].
    by rewrite except_other.
Qed.

Lemma set_guard_registered P p g h h' :
  registered P h -> p ∈ P -> (forall g', g = Some g' -> is_Some (guards h !! g')) ->
  set_guard p g h = Ok h' -> registered P h'.
Proof.
  intros [H1 H2] Hp Hg (Hgs & _ & _ & Hq)%set_guard_effect. split.
  - intros g' s q. rewrite Hgs, Hq. intros Hs. rewrite (H1 _ _ _ Hs). case_decide; [subst q|]; naive_solver.
  - intros q g'. rewrite Hgs, Hq. case_decide; [apply Hg|apply H2].
Qed.

Lemma registered_drop P p h :
  registered ({[p]} ∪ P) h -> guard_of h p = None -> registered P h.
Proof.
  intros [H1 H2] Hp. split; [|done]. intros g s q Hs. rewrite (H1 _ _ _ Hs).
  destruct (decide (q = p)) as [->|Hqp]; [naive_solver|]. by rewrite except_other.
Qed.

(** ** The invariant: ownership *)

(** The resources are exactly those of the pointers outside [Q], and no two of
    these share one. *)
Record owned_by (Q : gset nat) (h : Heap) : Prop := {
  own_iff o : o ∈ objects h <-> exists p, (p ∉ Q) /\ obj_of h p = Some o;
  own_inj p q o : p ∉ Q -> q ∉ Q -> obj_of h p = Some o -> obj_of h q = Some o -> p = q;
}.
Definition owned (Q : gset nat) (h : Heap) : Prop := ptr_owner = true -> owned_by Q h.

Lemma owned_same Q h h' :
  objects h' = objects h -> (forall p, obj_of h' p = obj_of h p) -> owned Q h -> owned Q h'.
Proof.
  intros Ho Hp Hown Hb. destruct (Hown Hb) as [H1 H2]. split.
  - intros o. rewrite Ho, H1. by setoid_rewrite Hp.
  - intros p q o. rewrite !Hp. apply H2.
Qed.

Lemma owned_drop Q p h : owned ({[p]} ∪ Q) h -> obj_of h p = None -> owned Q h.
Proof.
  intros Hown Hp Hb. destruct (Hown Hb) as [H1 H2]. split.
  - intros o. rewrite H1. split; intros (q & Hq & Ho); exists q; (split; [|done]);
      (destruct (decide (q = p)) as [->|Hqp]; [congruence|]); by apply (except_other p q Q Hqp).
  - intros q r o Hq Hr Hqo Hro. eapply H2; [| |done|done]; apply except_other; congruence.
Qed.

(** The state between two steps: what is registered, what is owned, and which
    pointers exist. *)
Definition st (P Q D : gset nat) (h : Heap) : Prop :=
  registered P h /\ owned Q h /\ dom (ptrs h) = D.

Lemma same_ptrs_obj h h' p : same_ptrs h h' -> obj_of h' p = obj_of h p /\ guard_of h' p = guard_of h p.
Proof. intros [Hp _]. unfold obj_of, guard_of. by rewrite Hp. Qed.

Lemma same_ptrs_owned Q h h' : same_ptrs h h' -> owned Q h -> owned Q h'.
Proof. intros Hs. apply owned_same; [apply Hs|]. intros p. by apply same_ptrs_obj. Qed.

Lemma st_unregister P Q D p h :
  st P Q D h ->
  exists h', unregister_if_valid p h = Ok h' /\ st ({[p]} ∪ P) Q D h' /\ forall q, guard_of h' q = guard_of h q.
Proof.
  intros (Hr & Ho & Hd). destruct (unregister_ok P p h Hr) as (h' & -> & Hs & Hr').
  exists h'. split_and!; [done| |by intros q; apply same_ptrs_obj]. split_and!; [done|by eapply same_ptrs_owned|].
  by rewrite (proj1 Hs).
Qed.

Lemma st_register P Q D p h :
  st ({[p]} ∪ P) Q D h -> p ∉ P ->
  exists h', register_if_valid p h = Ok h' /\ st P Q D h' /\ forall q, guard_of h' q = guard_of h q.
Proof.
  intros (Hr & Ho & Hd) Hp. destruct (register_ok P p h Hr Hp) as (h' & -> & Hs & Hr').
  exists h'. split_and!; [done| |by intros q; apply same_ptrs_obj]. split_and!; [done|by eapply same_ptrs_owned|].
  by rewrite (proj1 Hs).
Qed.

Lemma st_set_guard P Q D p g h :
  st P Q D h -> p ∈ P -> p ∈ D -> (forall g', g = Some g' -> is_Some (guards h !! g')) ->
  exists h', set_guard p g h = Ok h' /\ st P Q D h'
  /\ forall q, guard_of h' q = if decide (q = p) then g else guard_of h q.
Proof.
  intros (Hr & Ho & Hd) Hp HpD Hg. destruct (set_field_total p (fun x => mkPtr (ptr x) g) h) as (h' & Hs & Hd');
    [by rewrite Hd|]. fold (set_guard p g h) in Hs. exists h'.
  pose proof (set_guard_effect _ _ _ _ Hs) as (_ & Hob & Hobj & Hgu). split_and!; [done| |done].
  split_and!; [by eapply set_guard_registered|by eapply owned_same|congruence].
Qed.

Lemma st_delete P Q D p h :
  ptr_owner = true -> st P Q D h -> p ∉ Q ->
  exists h', delete_ptr p h = Ok h' /\ st P ({[p]} ∪ Q) D h' /\ forall q, guard_of h' q = guard_of h q.
Proof.
  intros Hb (Hr & Ho & Hd) Hp. destruct (Ho Hb) as [H1 H2]. unfold delete_ptr.
  destruct (obj_of h p) as [o|] eqn:Hobj.
  - rewrite decide_True by (apply H1; by exists p). eexists. split_and!; [done| |done].
    split_and!; [by apply (registered_same P h)|intros _|done]. split; unfold obj_of in *; simpl.
    + intros o'. rewrite elem_of_difference, elem_of_singleton, H1. split.
      * intros [(q & Hq & Hqo) Hne]. exists q. split; [|done]. apply except_other; [|done]. congruence.
      * intros (q & Hq & Hqo). assert (Hqp : q <> p) by (intros ->; by apply (except_self p Q)).
        apply except_other in Hq; [|done]. split; [by exists q|]. intros ->. by destruct (H2 q p o).
    + intros q r o' Hq Hr'. apply H2; [clear -Hq|clear -Hr']; set_solver.
  - exists h. split_and!; [done| |done]. split_and!; [done|intros _|done]. split.
    + intros o'. rewrite H1. split; intros (q & Hq & Hqo); exists q; (split; [|done]).
      * apply except_other; [congruence|done].
      * clear -Hq. set_solver.
    + intros q r o' Hq Hr'. apply H2; [clear -Hq|clear -Hr']; set_solver.
Qed.

Lemma st_set_ptr P Q Q' D p o h :
  st P Q D h -> p ∈ D ->
  (forall h', objects h' = objects h -> (forall q, obj_of h' q = if decide (q = p) then o else obj_of h q) ->
     owned Q' h') ->
  exists h', set_ptr p o h = Ok h' /\ st P Q' D h' /\ (forall q, guard_of h' q = guard_of h q)
  /\ objects h' = objects h /\ forall q, obj_of h' q = if decide (q = p) then o else obj_of h q.
Proof.
  intros (Hr & Ho & Hd) Hp Hown. destruct (set_field_total p (fun x => mkPtr o (guard x)) h) as (h' & Hs & Hd');
    [by rewrite Hd|]. fold (set_ptr p o h) in Hs. exists h'.
  pose proof (set_ptr_effect _ _ _ _ Hs) as (Hsame & Hob & Hobj). split_and!; [done| |apply Hsame|done|exact Hobj].
  split_and!; [by eapply registered_same|by apply Hown|congruence].
Qed.

(** [ptr = src.ptr] of a copy: [p] gets a resource of its own. *)
Lemma st_copy_ptr P Q D p src h :
  st P ({[p]} ∪ Q) D h -> p ∉ Q -> src ∉ Q -> (ptr_owner = true -> src <> p) -> p ∈ D ->
  exists h', copy_ptr p src h = Ok h' /\ st P Q D h' /\ forall q, guard_of h' q = guard_of h q.
Proof.
  intros Hst Hp Hsrc Hne HpD. pose proof Hst as (Hr & Ho & Hd). unfold copy_ptr.
  destruct ptr_owner eqn:Hb.
  2:{ destruct (st_set_ptr P ({[p]} ∪ Q) Q D p (obj_of h src) h) as (h' & -> & Hs & Hg & _); [done|done| |].
      - intros h' _ _ Hb'. congruence.
      - by exists h'. }
  specialize (Hne eq_refl). destruct (Ho Hb) as [H1 H2]. unfold clone.
  destruct (obj_of h src) as [o|] eqn:Hobj.
  - assert (Hin : o ∈ objects h) by (apply H1; exists src; split; [by apply except_other|done]).
    rewrite decide_True by done. cbn [result_bind].
    set (o' := fresh (objects h)). assert (Hfresh : o' ∉ objects h) by apply is_fresh.
    set (h1 := mkHeap (guards h) (ptrs h) ({[o']} ∪ objects h)).
    destruct (set_field_total p (fun x => mkPtr (Some o') (guard x)) h1) as (h' & Hs & Hd'); [simpl; by rewrite Hd|].
    fold (set_ptr p (Some o') h1) in Hs. exists h'. apply set_ptr_effect in Hs as Heff.
    destruct Heff as (Hsame & Hob & Hobj'). split_and!; [done| |intros q; by rewrite (proj2 Hsame)].
    split_and!; [eapply registered_same; [exact Hsame|by apply (registered_same P h)]|intros _|rewrite Hd'; exact Hd].
    assert (Hold : forall q, obj_of h1 q = obj_of h q) by done.
    split.
    + intros x. rewrite Hob. simpl. rewrite elem_of_union, elem_of_singleton, H1. split.
      * intros [->|(q & Hq & Hqo)]; [exists p; by rewrite Hobj', decide_True|].
        assert (Hqp : q <> p) by (intros ->; by apply (except_self p Q)).
        exists q. rewrite Hobj', decide_False, Hold by done. split; [by apply (except_other p q Q Hqp)|done].
      * intros (q & Hq & Hqo). rewrite Hobj', Hold in Hqo. case_decide as Hqp; [left; congruence|right].
        exists q. split; [by apply except_other|done].
    + assert (Hnew : forall q, q ∉ Q -> q <> p -> obj_of h q <> Some o').
      { intros q Hq Hqp Hqo. apply Hfresh, H1. exists q. split; [by apply except_other|done]. }
      intros q r x Hq Hr'. rewrite !Hobj', !Hold.
      destruct (decide (q = p)) as [->|Hqp], (decide (r = p)) as [->|Hrp]; [done| | |].
      * intros [= <-] Hr2. by destruct (Hnew r).
      * intros Hq2 [= <-]. by destruct (Hnew q).
      * apply H2; by apply except_other.
  - cbn [result_bind]. destruct (st_set_ptr P ({[p]} ∪ Q) Q D p None h) as (h' & -> & Hs & Hg & _); [done|done| |].
    + intros h' Hob Hobj'. apply (owned_drop Q p); [|rewrite Hobj', decide_True by done; done].
      intros _. split.
      * intros x. rewrite Hob, H1. split; intros (q & Hq & Hqo); exists q; (split; [done|]);
          rewrite Hobj' in *; (rewrite decide_False in * by (intros ->; by apply (except_self p Q))); done.
      * intros q r x Hq Hr'. rewrite !Hobj'.
        rewrite !decide_False by (intros ->; by apply (except_self p Q)). by apply H2.
    + by exists h'.
Qed.

(** [ptr = src.ptr; src.ptr = nullptr]: the resource changes its owner. *)
Lemma st_move_ptr P Q D p src h :
  st P ({[p]} ∪ Q) D h -> p ∉ Q -> src ∉ Q -> p ∈ D -> src ∈ D ->
  exists h1 h', set_ptr p (obj_of h src) h = Ok h1 /\ set_ptr src None h1 = Ok h'
  /\ st P Q D h' /\ forall q, guard_of h' q = guard_of h q.
Proof.
  intros Hst Hp Hsrc HpD HsD. pose proof Hst as (Hr & Ho & Hd).
  destruct (set_field_total p (fun x => mkPtr (obj_of h src) (guard x)) h) as (h1 & Hs1 & Hd1); [by rewrite Hd|].
  fold (set_ptr p (obj_of h src) h) in Hs1.
  destruct (set_field_total src (fun x => mkPtr None (guard x)) h1) as (h' & Hs2 & Hd2); [by rewrite Hd1, Hd|].
  fold (set_ptr src None h1) in Hs2. exists h1, h'.
  apply set_ptr_effect in Hs1 as E1. apply set_ptr_effect in Hs2 as E2.
  destruct E1 as (Hg1 & Ho1 & Hob1), E2 as (Hg2 & Ho2 & Hob2).
  split_and!; [done|done| |intros q; by rewrite (proj2 Hg2), (proj2 Hg1)].
  split_and!; [eapply registered_same; [exact Hg2|]; by eapply registered_same|intros Hb|by rewrite Hd2, Hd1].
  destruct (Ho Hb) as [H1 H2].
  assert (Hobj : forall q, obj_of h' q = if decide (q = src) then None else if decide (q = p) then obj_of h src else obj_of h q).
  { intros q. rewrite Hob2. case_decide; [done|]. by rewrite Hob1. }
  (* where a resource is after the move: the owner [src] becomes [p] *)
  assert (Hback : forall q x, q ∉ Q -> obj_of h' q = Some x ->
    exists r, (r ∉ {[p]} ∪ Q) /\ obj_of h r = Some x /\ q = (if decide (r = src) then p else r)).
  { intros q x Hq. rewrite Hobj. destruct (decide (q = src)) as [->|Hqs]; [done|].
    destruct (decide (q = p)) as [->|Hqp]; intros Hx.
    - exists src. rewrite decide_True by done. split_and!; [|done|done]. apply except_other; congruence.
    - exists q. rewrite decide_False by done. split_and!; [by apply except_other|done|done]. }
  split.
  - intros x. rewrite Ho2, Ho1, H1. split.
    + intros (q & Hq & Hqo). assert (Hqp : q <> p) by (intros ->; by apply (except_self p Q)).
      destruct (decide (q = src)) as [->|Hqs].
      * exists p. rewrite Hobj, decide_False, decide_True by congruence. by split.
      * exists q. rewrite Hobj, !decide_False by done. split; [by apply (except_other p q Q Hqp)|done].
    + intros (q & Hq & Hqo). destruct (Hback _ _ Hq Hqo) as (r & Hr' & Hro & _). by exists r.
  - intros q r x Hq Hr' Hqo Hro. destruct (Hback _ _ Hq Hqo) as (q1 & Hq1 & Hqo1 & ->).
    destruct (Hback _ _ Hr' Hro) as (r1 & Hr1 & Hro1 & ->). by rewrite (H2 q1 r1 x Hq1 Hr1 Hqo1 Hro1).
Qed.

(** A new pointer that is null, with a guard that exists. *)
Lemma st_new P Q D p g h :
  st P Q D h -> p ∉ D -> (forall g', g = Some g' -> is_Some (guards h !! g')) ->
  st ({[p]} ∪ P) Q ({[p]} ∪ D) (mkHeap (guards h) (<[p := mkPtr None g]> (ptrs h)) (objects h)).
Proof.
  intros (Hr & Ho & Hd) Hp Hg. rewrite <-Hd in Hp. apply not_elem_of_dom in Hp.
  assert (Hno : guard_of h p = None /\ obj_of h p = None) by (unfold guard_of, obj_of; by rewrite Hp).
  split_and!; [|eapply owned_same; [| |done]|simpl; by rewrite dom_insert_L, Hd].
  - destruct Hr as [H1 H2]. split; simpl.
    + intros g' s q Hs. rewrite guard_of_insert, (H1 _ _ _ Hs). case_decide as Hqp.
      * subst q. pose proof (except_self p P). naive_solver congruence.
      * by rewrite except_other.
    + intros q g'. rewrite guard_of_insert. case_decide; [apply Hg|apply H2].
  - done.
  - intros q. rewrite obj_of_insert. case_decide; [subst q; by rewrite (proj2 Hno)|done].
Qed.

(** ** The operations keep the invariant *)

Lemma st_delete_if P Q D p h :
  st P Q D h -> p ∉ Q ->
  exists h', (if ptr_owner then delete_ptr p h else Ok h) = Ok h' /\ st P ({[p]} ∪ Q) D h'
  /\ forall q, guard_of h' q = guard_of h q.
Proof.
  intros Hst Hp. destruct ptr_owner eqn:Hb; [by apply st_delete|].
  exists h. split_and!; [done| |done]. destruct Hst as (Hr & _ & Hd). split_and!; [done| |done]. intros Hb'. congruence.
Qed.

Lemma guard_alive P Q D h p : st P Q D h -> forall g, guard_of h p = Some g -> is_Some (guards h !! g).
Proof. intros (Hr & _). apply (reg_alive _ _ Hr). Qed.

Definition wf (h : Heap) : Prop := registered ∅ h /\ owned ∅ h.
Lemma wf_st h : wf h <-> st ∅ ∅ (dom (ptrs h)) h.
Proof. unfold wf, st. naive_solver. Qed.

Lemma copy_assign_ok D p src h :
  st ∅ ∅ D h -> p ∈ D -> src ∈ D -> (ptr_owner = true -> src <> p) ->
  exists h', copy_assign p src h = Ok h' /\ st ∅ ∅ D h'.
Proof.
  intros Hst Hp Hs Hne. unfold copy_assign. case_decide as Hg.
  - destruct (st_delete_if ∅ ∅ D p h) as (h1 & -> & H1 & _); [done|set_solver|]. cbn [result_bind].
    destruct (st_copy_ptr ∅ ∅ D p src h1) as (h2 & -> & H2 & _); [done|set_solver..|done|done|]. by exists h2.
  - assert (Hsp : src <> p) by congruence.
    destruct (st_unregister ∅ ∅ D p h) as (h1 & -> & H1 & Hg1); [done|]. cbn [result_bind].
    destruct (st_set_guard ({[p]} ∪ ∅) ∅ D p (guard_of h src) h1) as (h2 & E2 & H2 & Hg2); [done|set_solver|done| |].
    { intros g. rewrite <-Hg1. by eapply guard_alive. }
    rewrite <-(Hg1 src) in E2. rewrite E2. cbn [result_bind].
    destruct (st_delete_if ({[p]} ∪ ∅) ∅ D p h2) as (h3 & -> & H3 & Hg3); [done|set_solver|]. cbn [result_bind].
    destruct (st_copy_ptr ({[p]} ∪ ∅) ∅ D p src h3) as (h4 & -> & H4 & Hg4); [done|set_solver..|done|done|]. cbn [result_bind].
    destruct (st_register ∅ ∅ D p h4) as (h5 & -> & H5 & _); [done|set_solver|]. by exists h5.
Qed.

(** A new pointer that is null, before it gets its resource. *)
Lemma owned_null Q p h : owned Q h -> p ∉ Q -> obj_of h p = None -> owned ({[p]} ∪ Q) h.
Proof.
  intros Ho Hp Hno Hb. destruct (Ho Hb) as [A B]. split.
  - intros o. rewrite A. split; intros (q & Hq & Hqo); exists q; (split; [|done]).
    + apply except_other; [congruence|done].
    + clear -Hq. set_solver.
  - intros q r o Hq Hr. apply B; [clear -Hq|clear -Hr]; set_solver.
Qed.

Lemma st_new_null D p g h :
  st ∅ ∅ D h -> p ∉ D -> (forall g', g = Some g' -> is_Some (guards h !! g')) ->
  st ({[p]} ∪ ∅) ({[p]} ∪ ∅) ({[p]} ∪ D) (mkHeap (guards h) (<[p := mkPtr None g]> (ptrs h)) (objects h)).
Proof.
  intros Hst Hp Hg. destruct (st_new ∅ ∅ D p g h Hst Hp Hg) as (Hr & Ho & Hd). split_and!; [done| |done].
  apply owned_null; [done|set_solver|]. by rewrite obj_of_insert, decide_True by done.
Qed.

Lemma st_drop P Q D p h : st ({[p]} ∪ P) Q D h -> guard_of h p = None -> st P Q D h.
Proof. intros (Hr & Ho & Hd) Hp. split_and!; [by eapply registered_drop|done|done]. Qed.

Lemma copy_construct_ok D p src h :
  st ∅ ∅ D h -> p ∉ D -> src ∈ D -> exists h', copy_construct p src h = Ok h' /\ st ∅ ∅ ({[p]} ∪ D) h'.
Proof.
  intros Hst Hp Hs. unfold copy_construct.
  assert (Hne : src <> p) by (intros ->; done).
  pose proof (st_new_null D p (guard_of h src) h Hst Hp (guard_alive _ _ _ _ src Hst)) as H1.
  set (h1 := mkHeap _ _ _) in *.
  destruct (st_copy_ptr ({[p]} ∪ ∅) ∅ ({[p]} ∪ D) p src h1) as (h2 & -> & H2 & _); [done|set_solver..|done|set_solver|].
  cbn [result_bind]. destruct (st_register ∅ ∅ ({[p]} ∪ D) p h2) as (h3 & -> & H3 & _); [done|set_solver|]. by exists h3.
Qed.

Lemma move_construct_ok D p src h :
  st ∅ ∅ D h -> p ∉ D -> src ∈ D -> exists h', move_construct p src h = Ok h' /\ st ∅ ∅ ({[p]} ∪ D) h'.
Proof.
  intros Hst Hp Hs. unfold move_construct.
  assert (Hne : src <> p) by (intros ->; done).
  pose proof (st_new_null D p (guard_of h src) h Hst Hp (guard_alive _ _ _ _ src Hst)) as H1.
  set (h1 := mkHeap _ _ _) in *. set (D' := {[p]} ∪ D) in *. assert (src ∈ D') by set_solver. assert (p ∈ D') by set_solver.
  destruct (st_unregister _ _ _ src h1 H1) as (h2 & -> & H2 & Hg2). cbn [result_bind].
  destruct (st_set_guard _ _ _ src None h2 H2) as (h3 & -> & H3 & Hg3); [set_solver|done|done|]. cbn [result_bind].
  destruct (st_move_ptr _ ∅ D' p src h3 H3) as (h4 & h5 & -> & E5 & H5 & Hg5); [set_solver|set_solver|done|done|].
  cbn [result_bind]. rewrite E5. cbn [result_bind].
  apply st_drop in H5; [|by rewrite Hg5, Hg3, decide_True].
  destruct (st_register ∅ ∅ D' p h5 H5) as (h6 & -> & H6 & _); [set_solver|]. by exists h6.
Qed.

Lemma move_assign_ok D p src h :
  ptr_owner = true -> st ∅ ∅ D h -> p ∈ D -> src ∈ D ->
  exists h', move_assign p src h = Ok h' /\ st ∅ ∅ D h'.
Proof.
  intros Hb Hst Hp Hs. unfold move_assign. case_decide as Hg.
  - destruct (st_unregister ∅ ∅ D src h Hst) as (h1 & -> & H1 & _). cbn [result_bind].
    destruct (st_set_guard _ _ _ src None h1 H1) as (h2 & -> & H2 & Hg2); [set_solver|done|done|]. cbn [result_bind].
    destruct (st_delete _ _ _ p h2 Hb H2) as (h3 & -> & H3 & Hg3); [set_solver|]. cbn [result_bind].
    destruct (st_move_ptr _ ∅ D p src h3 H3) as (h4 & h5 & -> & E5 & H5 & Hg5); [set_solver|set_solver|done|done|].
    cbn [result_bind]. rewrite E5. exists h5. split; [done|].
    apply st_drop in H5; [done|]. by rewrite Hg5, Hg3, Hg2, decide_True.
  - destruct (st_unregister ∅ ∅ D p h Hst) as (h1 & -> & H1 & Hg1). cbn [result_bind].
    destruct (st_unregister _ _ _ src h1 H1) as (h2 & -> & H2 & Hg2). cbn [result_bind].
    destruct (st_set_guard _ _ _ p (guard_of h2 src) h2 H2) as (h3 & -> & H3 & Hg3);
      [set_solver|done|by eapply guard_alive|]. cbn [result_bind].
    destruct (st_set_guard _ _ _ src None h3 H3) as (h4 & -> & H4 & Hg4); [set_solver|done|done|]. cbn [result_bind].
    destruct (st_delete _ _ _ p h4 Hb H4) as (h5 & -> & H5 & Hg5); [set_solver|]. cbn [result_bind].
    destruct (st_move_ptr _ ∅ D p src h5 H5) as (h6 & h7 & -> & E7 & H7 & Hg7); [set_solver|set_solver|done|done|].
    cbn [result_bind]. rewrite E7. cbn [result_bind].
    apply st_drop in H7; [|by rewrite Hg7, Hg5, Hg4, decide_True].
    destruct (st_register ∅ ∅ D p h7 H7) as (h8 & -> & H8 & _); [set_solver|]. by exists h8.
Qed.

Lemma construct_kept D p o g h :
  st ∅ ∅ D h -> p ∉ D -> is_Some (guards h !! g) -> (ptr_owner = true -> o ∉ objects h) ->
  exists h', construct p (Some o) (Some g) h = Ok h' /\ st ∅ ∅ ({[p]} ∪ D) h'.
Proof.
  intros Hst Hp Hg Hfree. unfold construct.
  destruct (st_new ∅ ∅ D p (Some g) h Hst Hp) as (Hr & _ & Hd); [by intros ? [= <-]|].
  destruct Hst as (_ & Ho & Hdom). rewrite <-Hdom in Hp. apply not_elem_of_dom in Hp.
  match goal with |- exists _, register_if_valid p ?x = _ /\ _ => set (h1 := x) end.
  assert (H1 : st ({[p]} ∪ ∅) ∅ ({[p]} ∪ D) h1).
  { split_and!.
    - eapply registered_same; [|exact Hr]. split; [done|]. intros q. unfold h1. by rewrite !guard_of_insert.
    - intros Hb. destruct (Ho Hb) as [A B]. specialize (Hfree Hb). unfold h1. rewrite Hb.
      assert (Hnone : obj_of h p = None) by (unfold obj_of; by rewrite Hp). split; simpl.
      + intros x. rewrite elem_of_union, elem_of_singleton, A. setoid_rewrite obj_of_insert. split.
        * intros [->|(q & Hq & Hx)]; [exists p; by rewrite decide_True|]. exists q.
          rewrite decide_False by congruence. done.
        * intros (q & Hq & Hx). case_decide; simplify_eq/=; [by left|]. right. by exists q.
      + intros q r x Hq Hr'. rewrite !obj_of_insert. fold (obj_of h q) (obj_of h r).
        assert (Hnew : forall q', obj_of h q' <> Some o) by (intros q' E; apply Hfree, A; exists q'; split; [set_solver|done]).
        unfold obj_of in *. repeat case_decide; simplify_eq/=; intros; simplify_eq; [done|naive_solver|naive_solver|].
        by apply (B q r x).
    - simpl. by rewrite dom_insert_L, Hdom. }
  destruct (st_register ∅ ∅ ({[p]} ∪ D) p h1 H1) as (h2 & -> & H2 & _); [set_solver|]. by exists h2.
Qed.

Lemma destroy_kept D p h :
  st ∅ ∅ D h -> p ∈ D ->
  exists h', destroy p h = Ok h' /\ st ∅ ∅ (D ∖ {[p]}) h'.
Proof.
  intros Hst Hp. unfold destroy.
  destruct (st_unregister ∅ ∅ D p h Hst) as (h1 & -> & H1 & _). cbn [result_bind].
  destruct (st_delete_if _ _ _ p h1 H1) as (h2 & -> & (Hr & Ho & Hd) & _); [set_solver|]. cbn [result_bind].
  eexists. split; [done|].
  assert (Hdel : forall q, ptrs h2 !! q = None \/ q <> p -> delete p (ptrs h2) !! q = ptrs h2 !! q).
  { intros q Hq. destruct (decide (q = p)) as [->|Hne]; [|by apply lookup_delete_ne].
    destruct Hq as [->|]; [|done]. apply lookup_delete_eq. }
  assert (Hmem : forall q, (q ∉ {[p]} ∪ (∅ : gset nat)) <-> q <> p) by (clear; set_solver).
  split_and!; [destruct Hr as [A B]|intros Hb; destruct (Ho Hb) as [A B]|simpl; by rewrite dom_delete_L, Hd];
    split; unfold guard_of, obj_of in *; simpl.
  - intros g s q Hs. rewrite (A _ _ _ Hs), Hmem. destruct (decide (q = p)) as [->|Hne].
    + rewrite lookup_delete_eq. simpl. naive_solver.
    + rewrite lookup_delete_ne by done. set_solver.
  - intros q g. destruct (decide (q = p)) as [->|Hne]; [by rewrite lookup_delete_eq|].
    rewrite lookup_delete_ne by done. apply B.
  - intros o. rewrite A. split; intros (q & Hq & Hqo).
    + apply Hmem in Hq. exists q. rewrite lookup_delete_ne by done. split; [clear; set_solver|done].
    + destruct (decide (q = p)) as [->|Hne]; [by rewrite lookup_delete_eq in Hqo|].
      rewrite lookup_delete_ne in Hqo by done. exists q. by rewrite Hmem.
  - intros q r o _ _ Hqo Hro.
    destruct (decide (q = p)) as [->|Hq]; [by rewrite lookup_delete_eq in Hqo|].
    destruct (decide (r = p)) as [->|Hr']; [by rewrite lookup_delete_eq in Hro|].
    rewrite lookup_delete_ne in Hqo, Hro by done. by apply (B q r o); [apply Hmem..| |].
Qed.

(** ** The guards *)

Lemma set_guards_ok ps g h :
  (forall p, p ∈ ps -> p ∈ dom (ptrs h)) ->
  exists h', set_guards ps g h = Ok h' /\ guards h' = guards h /\ objects h' = objects h
  /\ dom (ptrs h') = dom (ptrs h) /\ (forall q, obj_of h' q = obj_of h q)
  /\ forall q, guard_of h' q = if decide (q ∈ ps) then g else guard_of h q.
Proof.
  revert h. induction ps as [|p ps IH]; intros h Hin; [exists h; by split_and!|]. simpl.
  destruct (set_field_total p (fun x => mkPtr (ptr x) g) h) as (h1 & Hs & Hd1); [apply Hin; by left|].
  fold (set_guard p g h) in Hs. rewrite Hs. cbn [result_bind].
  apply set_guard_effect in Hs as (Hg1 & Ho1 & Hob1 & Hgu1).
  destruct (IH h1) as (h' & -> & Hg & Ho & Hd & Hob & Hgu); [intros q Hq; rewrite Hd1; apply Hin; by right|].
  exists h'. split_and!; [done|congruence|congruence|congruence|intros q; by rewrite Hob|].
  intros q. rewrite Hgu, Hgu1. repeat case_decide; set_solver.
Qed.

Lemma guard_of_dom h p g : guard_of h p = Some g -> p ∈ dom (ptrs h).
Proof. intros (x & Hx & _)%bind_Some. apply elem_of_dom. by exists x. Qed.

Lemma registered_elements h g s p :
  registered ∅ h -> guards h !! g = Some s -> p ∈ elements s <-> guard_of h p = Some g.
Proof. intros Hr Hs. rewrite elem_of_elements, (reg_iff _ _ Hr _ _ _ Hs). set_solver. Qed.

Lemma elements_dom h g s p : registered ∅ h -> guards h !! g = Some s -> p ∈ elements s -> p ∈ dom (ptrs h).
Proof. intros Hr Hs Hp. eapply guard_of_dom. by apply (registered_elements h g s p). Qed.

(** After [clear] the guard has no pointer, and its pointers have no guard. *)
Lemma guard_clear_ok D g s h :
  st ∅ ∅ D h -> guards h !! g = Some s ->
  exists h', guard_clear g h = Ok h' /\ st ∅ ∅ D h' /\ guards h' = <[g := ∅]> (guards h)
  /\ objects h' = objects h /\ (forall q, obj_of h' q = obj_of h q)
  /\ forall q, guard_of h' q = if decide (guard_of h q = Some g) then None else guard_of h q.
Proof.
  intros (Hr & Ho & Hd) Hs. unfold guard_clear. rewrite Hs.
  destruct (set_guards_ok (elements s) None h) as (h1 & -> & Hg & Hob & Hd1 & Hobj & Hgu).
  { intros p. by apply (elements_dom h g s p). }
  cbn [result_bind]. unfold on_guard. rewrite Hg, Hs. eexists. split; [done|]. simpl.
  assert (Hgu' : forall q, guard_of h1 q = if decide (guard_of h q = Some g) then None else guard_of h q).
  { intros q. rewrite Hgu. repeat case_decide; try done; by rewrite registered_elements in * by done. }
  split_and!; [|done|done|by intros q; rewrite <-Hobj|exact Hgu'].
  split_and!; [|by apply (owned_same _ h)|simpl; by rewrite Hd1].
  destruct Hr as [A B]. split; unfold guard_of in *; simpl.
  - intros g' s' q. destruct (decide (g' = g)) as [->|Hne]; intros Hl; simplify_map_eq.
    + rewrite Hgu'. case_decide; set_solver.
    + rewrite Hgu', (A _ _ _ Hl). case_decide; naive_solver.
  - intros q g'. rewrite Hgu'. case_decide; [done|]. intros Hq. apply lookup_insert_is_Some'. right. by apply (B q).
Qed.

Lemma st_guards_delete D g h :
  st ∅ ∅ D h -> (forall q, guard_of h q <> Some g) ->
  st ∅ ∅ D (mkHeap (delete g (guards h)) (ptrs h) (objects h)).
Proof.
  intros ([A B] & Ho & Hd) Hno. split_and!; [|by apply (owned_same _ h)|done]. split; unfold guard_of in *; simpl.
  - intros g' s q [_ Hs]%lookup_delete_Some. by apply A.
  - intros q g' Hq. rewrite lookup_delete_ne by (intros <-; by apply (Hno q)). by apply (B q).
Qed.

Lemma new_guard_ok D g h : st ∅ ∅ D h -> guards h !! g = None -> st ∅ ∅ D (new_guard g h).
Proof.
  intros (Hr & Ho & Hd) Hg. split_and!; [|by apply (owned_same _ h)|done].
  destruct Hr as [A B]. unfold new_guard. split; unfold guard_of in *; simpl.
  - intros g' s q. destruct (decide (g' = g)) as [->|Hne]; intros Hl; simplify_map_eq; [|by apply A].
    split; [set_solver|]. intros [_ Hq]. destruct (B q g Hq) as [x Hx]. rewrite Hg in Hx. discriminate.
  - intros q g' Hq. apply lookup_insert_is_Some'. right. by apply (B q).
Qed.

(** The pointers of a guard that is moved get the guard they are moved to,
    which has to have none of its own. *)
Lemma guard_move_ok D g src s h :
  st ∅ ∅ D h -> guards h !! src = Some s -> g <> src -> (forall s', guards h !! g = Some s' -> s' = ∅) ->
  exists h', guard_move g src h = Ok h' /\ st ∅ ∅ D h'
  /\ forall q, guard_of h' q = if decide (guard_of h q = Some src) then Some g else guard_of h q.
Proof.
  intros (Hr & Ho & Hd) Hs Hne Hempty. unfold guard_move. rewrite Hs.
  set (h1 := mkHeap _ _ _).
  destruct (set_guards_ok (elements s) (Some g) h1) as (h' & -> & Hg & Hob & Hd1 & Hobj & Hgu).
  { intros p. by apply (elements_dom h src s p). }
  assert (Hgu' : forall q, guard_of h' q = if decide (guard_of h q = Some src) then Some g else guard_of h q).
  { intros q. rewrite Hgu. fold (guard_of h q). repeat case_decide; try done; by rewrite registered_elements in * by done. }
  assert (Hnone : forall q, guard_of h q <> Some g).
  { intros q Hq. destruct (reg_alive _ _ Hr _ _ Hq) as [s' Hs']. rewrite (Hempty _ Hs') in Hs'.
    assert (q ∈ (∅ : gset nat)); [|set_solver]. apply (reg_iff _ _ Hr _ _ _ Hs'). split; [set_solver|done]. }
  exists h'. split; [done|]. split; [|exact Hgu'].
  split_and!; [|by apply (owned_same _ h)|by rewrite Hd1].
  destruct Hr as [A B]. split.
  - intros g' s' q. rewrite Hg. simpl. rewrite Hgu'. destruct (decide (g' = g)) as [->|Hg1].
    + rewrite lookup_insert_eq. intros [= <-]. rewrite (A _ _ _ Hs). case_decide; naive_solver.
    + rewrite lookup_insert_ne by done. destruct (decide (g' = src)) as [->|Hg2].
      * rewrite lookup_insert_eq. intros [= <-]. case_decide; set_solver.
      * rewrite lookup_insert_ne by done. intros Hl. rewrite (A _ _ _ Hl). case_decide; naive_solver.
  - intros q g'. rewrite Hg, Hgu'. simpl. case_decide; intros Hq; simplify_eq.
    + rewrite lookup_insert_eq. by eexists.
    + apply lookup_insert_is_Some'. right. apply lookup_insert_is_Some'. right. by apply (B q).
Qed.

(** ** Sequences of calls *)

Inductive call :=
| NewGuard (g : nat) | ClearGuard (g : nat) | DestroyGuard (g : nat) | MoveGuard (g src : nat)
| Construct (p : nat) (o g : option nat) | CopyConstruct (p src : nat) | MoveConstruct (p src : nat)
| Destroy (p : nat) | CopyAssign (p src : nat) | MoveAssign (p src : nat) | Get (p : nat).

Definition run (c : call) (h : Heap) : result error Heap :=
  match c with
  | NewGuard g => Ok (new_guard g h)
  | ClearGuard g => guard_clear g h
  | DestroyGuard g => guard_destroy g h
  | MoveGuard g src => guard_move g src h
  | Construct p o g => construct p o g h
  | CopyConstruct p src => copy_construct p src h
  | MoveConstruct p src => move_construct p src h
  | Destroy p => destroy p h
  | CopyAssign p src => copy_assign p src h
  | MoveAssign p src => move_assign p src h
  | Get p => let* _ := get p h in Ok h
  end.

(** What a caller has to respect: objects exist from their constructor to
    their destructor, a resource is given to one owner only, an owner is not
    assigned to itself by copy, and a guard with pointers is not overwritten. *)
Definition allowed (c : call) (h : Heap) : Prop :=
  match c with
  | NewGuard g => guards h !! g = None
  | ClearGuard g | DestroyGuard g => is_Some (guards h !! g)
  | MoveGuard g src => is_Some (guards h !! src) /\ g <> src /\ (forall s, guards h !! g = Some s -> s = ∅)
  | Construct p o g =>
      (p ∉ dom (ptrs h)) /\ (forall x, g = Some x -> is_Some (guards h !! x))
      /\ (ptr_owner = true -> forall x, o = Some x -> (x ∉ objects h))
  | CopyConstruct p src => (p ∉ dom (ptrs h)) /\ src ∈ dom (ptrs h)
  | MoveConstruct p src => ptr_owner = true /\ (p ∉ dom (ptrs h)) /\ src ∈ dom (ptrs h)
  | Destroy p | Get p => p ∈ dom (ptrs h)
  | CopyAssign p src => p ∈ dom (ptrs h) /\ src ∈ dom (ptrs h) /\ (ptr_owner = true -> src <> p)
  | MoveAssign p src => ptr_owner = true /\ p ∈ dom (ptrs h) /\ src ∈ dom (ptrs h)
  end.

Lemma st_wf D h : st ∅ ∅ D h -> wf h.
Proof. intros (Hr & Ho & _). by split. Qed.

(** An allowed call succeeds and keeps the invariant, or throws [InvalidPtr]. *)
Lemma run_kept c h : wf h -> allowed c h -> (exists h', run c h = Ok h' /\ wf h') \/ run c h = Err InvalidPtr.
Proof.
  intros Hwf%wf_st Ha. set (D := dom (ptrs h)) in *. destruct c as [g|g|g|g src|p o g|p src|p src|p|p src|p src|p]; simpl in *.
  - left. eexists. split; [done|]. eapply st_wf. by apply new_guard_ok.
  - left. destruct Ha as [s Hs]. destruct (guard_clear_ok D g s h Hwf Hs) as (h' & ? & ? & _). exists h'. eauto using st_wf.
  - left. destruct Ha as [s Hs]. unfold guard_destroy.
    destruct (guard_clear_ok D g s h Hwf Hs) as (h' & -> & Hst & _ & _ & _ & Hg). eexists. split; [done|].
    eapply st_wf, st_guards_delete; [done|]. intros q. rewrite Hg. by case_decide.
  - left. destruct Ha as ([s Hs] & Hne & He). destruct (guard_move_ok D g src s h) as (h' & ? & ? & _); eauto using st_wf.
  - destruct Ha as (Hp & Hg & Ho). destruct o as [o|]; [|by right]. destruct g as [g|]; [|by right]. left.
    destruct (construct_kept D p o g h) as (h' & ? & ?); eauto using st_wf.
  - left. destruct Ha. destruct (copy_construct_ok D p src h) as (h' & ? & ?); eauto using st_wf.
  - left. destruct Ha as (? & ? & ?). destruct (move_construct_ok D p src h) as (h' & ? & ?); eauto using st_wf.
  - left. destruct (destroy_kept D p h) as (h' & ? & ?); eauto using st_wf.
  - left. destruct Ha as (? & ? & ?). destruct (copy_assign_ok D p src h) as (h' & ? & ?); eauto using st_wf.
  - left. destruct Ha as (? & ? & ?). destruct (move_assign_ok D p src h) as (h' & ? & ?); eauto using st_wf.
  - unfold get. destruct (guard_of h p); [left|by right]. exists h. eauto using st_wf.
Qed.

(** The heaps that a program can reach: it catches the exceptions. *)
Inductive reachable : Heap -> Prop :=
| reachable_start : reachable (mkHeap ∅ ∅ ∅)
| reachable_call c h h' : reachable h -> allowed c h -> run c h = Ok h' -> reachable h'.

Lemma reachable_wf h : reachable h -> wf h.
Proof.
  induction 1 as [|c h h' _ IH Ha Hr].
  - split.
    + split; unfold guard_of; simpl; [intros g s p Hs|intros p g Hp]; by rewrite lookup_empty in *.
    + intros _. split; unfold obj_of; simpl; [intros o; split; [set_solver|]; intros (p & _ & Hp)|intros p q o _ _ Hp];
        by rewrite lookup_empty in Hp.
  - destruct (run_kept c h IH Ha) as [(h2 & Hr2 & Hwf)|Hr2]; congruence.
Qed.

(** Whatever a program does with weak pointers and their guards within the
    rules of the class, no call reads, writes or frees memory that is not
    there: a pointer is registered with exactly the guard it refers to, that
    guard exists, and (for owners) every resource has exactly one owner that
    frees it. A call either succeeds or throws [InvalidPtr]. *)
Theorem weak_ptr_safe h c :
  reachable h -> allowed c h ->
  (forall g s p, guards h !! g = Some s -> p ∈ s <-> guard_of h p = Some g)
  /\ (forall p g, guard_of h p = Some g -> is_Some (guards h !! g))
  /\ (ptr_owner = true -> forall o, o ∈ objects h <-> exists! p, obj_of h p = Some o)
  /\ run c h <> Err BadAccess.
Proof.
  intros Hre Ha. pose proof (reachable_wf h Hre) as Hwf. split_and!.
  - intros g s p Hs. rewrite (reg_iff _ _ (proj1 Hwf) _ _ _ Hs). set_solver.
  - apply (reg_alive _ _ (proj1 Hwf)).
  - intros Hb o. destruct (proj2 Hwf Hb) as [A B]. rewrite A. split.
    + intros (p & Hp & Ho). exists p. split; [done|]. intros q Hq. by apply (B p q o); [set_solver..| |].
    + intros (p & Ho & _). exists p. split; [set_solver|done].
  - destruct (run_kept c h Hwf Ha) as [(h' & -> & _)| ->]; done.
Qed.

(** Destroying a guard invalidates exactly the pointers that refer to it:
    [get] throws on them from then on, their resources are untouched, and the
    other pointers answer as before. *)
Theorem guard_destroy_invalidates h g :
  reachable h -> is_Some (guards h !! g) ->
  exists h', guard_destroy g h = Ok h' /\ guards h' !! g = None /\ objects h' = objects h
  /\ forall p, obj_of h' p = obj_of h p
       /\ get p h' = if decide (guard_of h p = Some g) then Err InvalidPtr else get p h.
Proof.
  intros Hwf%reachable_wf%wf_st [s Hs]. unfold guard_destroy.
  destruct (guard_clear_ok _ g s h Hwf Hs) as (h1 & -> & _ & _ & Ho & Hobj & Hg).
  eexists. split; [done|]. split_and!; [apply lookup_delete_eq|done|]. intros p. split; [apply Hobj|].
  unfold get. change (guard_of (mkHeap _ (ptrs h1) _) p) with (guard_of h1 p).
  change (obj_of (mkHeap _ (ptrs h1) _) p) with (obj_of h1 p). rewrite Hg, Hobj. by case_decide.
Qed.
End weak.

(** ** Concrete programs *)

Fixpoint runs (b : bool) (cs : list call) (h : Heap) : result error Heap :=
  match cs with
  | [] => Ok h
  | c :: cs => let* h := run b c h in runs b cs h
  end.
Definition start : Heap := mkHeap ∅ ∅ ∅.

Definition one_owner : Heap := mkHeap {[0 := {[5]}]} {[5 := mkPtr (Some 10) (Some 0)]} {[10]}.

Lemma one_owner_reachable : reachable true one_owner.
Proof.
  apply (reachable_call true (Construct 5 (Some 10) (Some 0)) (mkHeap {[0 := ∅]} ∅ ∅)).
  - apply (reachable_call true (NewGuard 0) start); [apply reachable_start|reflexivity|reflexivity].
  - split_and!; [set_solver|intros x [= <-]; by eexists|set_solver].
  - vm_compute. reflexivity.
Defined.

(** A copy of the only pointer. *)
Lemma weak_ptr_safe_witness :
  reachable true one_owner /\ run true (CopyConstruct 6 5) one_owner <> Err BadAccess.
Proof.
  split; [exact one_owner_reachable|].
  apply (weak_ptr_safe true one_owner (CopyConstruct 6 5)); [exact one_owner_reachable|].
  split; [|apply elem_of_dom; by eexists]. intros H. apply elem_of_dom in H as [x Hx]. vm_compute in Hx. discriminate.
Defined.

Lemma guard_destroy_invalidates_witness :
  get 5 one_owner = Ok (Some 10)
  /\ exists h', guard_destroy 0 one_owner = Ok h' /\ get 5 h' = Err InvalidPtr.
Proof.
  split; [reflexivity|].
  destruct (guard_destroy_invalidates true one_owner 0 one_owner_reachable) as (h' & E & _ & _ & Hp); [by eexists|].
  exists h'. split; [exact E|]. exact (proj2 (Hp 5)).
Defined.

(** Without its rule an owner that is assigned to itself reads the resource
    that it has just freed. *)
Example copy_assign_self : run true (CopyAssign 5 5) one_owner = Err BadAccess.
Proof. reflexivity. Qed.
(** The move assignment to itself loses the resource's pointer: it is freed. *)
Example move_assign_self :
  run true (MoveAssign 5 5) one_owner = Ok (mkHeap {[0 := ∅]} {[5 := mkPtr None None]} ∅).
Proof. reflexivity. Qed.

(** A guard that is overwritten forgets its pointers without telling them:
    they refer to it after it has gone. *)
Example overwritten_guard_dangles :
  runs false [NewGuard 0; NewGuard 1; Construct 5 (Some 10) (Some 0); MoveGuard 0 1; DestroyGuard 0; Destroy 5] start
  = Err BadAccess.
Proof. reflexivity. Qed.
(** A copy of an invalid pointer is allowed, and is invalid. *)
Example copy_of_invalid :
  (let* h := runs false [NewGuard 0; Construct 5 (Some 10) (Some 0); DestroyGuard 0; CopyConstruct 6 5] start in
   Ok (get 6 h, ptrs h !! 6)) = Ok (Err InvalidPtr, Some (mkPtr (Some 10) None)).
Proof. reflexivity. Qed.
(** A pointer of another guard moves over with the assignment. *)
Example assign_changes_guard :
  (let* h := runs false [NewGuard 0; NewGuard 1; Construct 5 (Some 10) (Some 0); Construct 6 (Some 20) (Some 1);
                         CopyAssign 5 6; DestroyGuard 0] start in
   get 5 h) = Ok (Some 20).
Proof. reflexivity. Qed.
End WeakPtr.
