(* ===== verification/Sets.v ===== *)
(** * Sets: sets of objects as sorted ranges ([utils/set.hpp])

    [libdnf::Set] is a [std::set]: a range without equivalent elements, sorted
    by the [operator<] of the element type, which is a strict weak order and
    need not be total (the weak pointers of sacks are compared by what they
    point to). The set operations are the merging algorithms of the C++
    standard library on two such ranges. *)

From S2P Require Import Prelude.
From stdpp Require Import sorting.

(** What [std::set] asks of [operator<]. *)
Class StrictWeak {A} (lt : A -> A -> bool) : Prop := {
  sw_irrefl x : lt x x = false;
  sw_trans x y z : lt x y = true -> lt y z = true -> lt x z = true;
  sw_cotrans x y z : lt x z = true -> lt x y = true \/ lt y z = true;
}.

Module Sets.
Section sets.
Context {A : Type} (lt : A -> A -> bool).

Definition equivb (x y : A) : bool := negb (lt x y) && negb (lt y x).

(** ** [std::set] *)

(** An element equivalent to the new one stays. *)
Fixpoint insert (x : A) (s : list A) : list A :=
  match s with
  | [] => [x]
  | y :: s' => if lt x y then x :: s else if lt y x then y :: insert x s' else s
  end.
Definition erase (x : A) (s : list A) : list A := List.filter (fun y => negb (equivb x y)) s.
Definition find (x : A) (s : list A) : option A := List.find (equivb x) s.

(** Filling a set through [std::inserter], and from an initializer list. *)
Definition from_range (l : list A) : list A := fold_left (fun s x => insert x s) l [].

(** ** The algorithms on sorted ranges *)

Fixpoint set_union (a : list A) : list A -> list A :=
  match a with
  | [] => fun b => b
  | x :: a' =>
      fix go b :=
        match b with
        | [] => x :: a'
        | y :: b' =>
            if lt y x then y :: go b'
            else if lt x y then x :: set_union a' (y :: b')
            else x :: set_union a' b'
        end
  end.
Fixpoint set_intersection (a : list A) : list A -> list A :=
  match a with
  | [] => fun b => []
  | x :: a' =>
      fix go b :=
        match b with
        | [] => []
        | y :: b' =>
            if lt x y then set_intersection a' (y :: b')
            else if lt y x then go b'
            else x :: set_intersection a' b'
        end
  end.
Fixpoint set_difference (a : list A) : list A -> list A :=
  match a with
  | [] => fun b => []
  | x :: a' =>
      fix go b :=
        match b with
        | [] => x :: a'
        | y :: b' =>
            if lt x y then x :: set_difference a' (y :: b')
            else if lt y x then go b'
            else set_difference a' b'
        end
  end.
Fixpoint set_symmetric_difference (a : list A) : list A -> list A :=
  match a with
  | [] => fun b => b
  | x :: a' =>
      fix go b :=
        match b with
        | [] => x :: a'
        | y :: b' =>
            if lt x y then x :: set_symmetric_difference a' (y :: b')
            else if lt y x then y :: go b'
            else set_symmetric_difference a' b'
        end
  end.
(** [std::includes]: whether the first range has every element of the second. *)
Fixpoint includes (a : list A) : list A -> bool :=
  fun b =>
    match b with
    | [] => true
    | y :: b' =>
        match a with
        | [] => false
        | x :: a' => if lt y x then false else if lt x y then includes a' b else includes a' b'
        end
    end.

(** ** [Set] *)

Definition contains (s : list A) (x : A) : bool := match find x s with Some _ => true | None => false end.
Definition add (x : A) (s : list A) : list A := insert x s.
Definition remove (x : A) (s : list A) : list A := erase x s.
Definition set_or (s t : list A) : list A := from_range (set_union s t).
Definition set_and (s t : list A) : list A := from_range (set_intersection s t).
Definition set_minus (s t : list A) : list A := from_range (set_difference s t).
Definition set_xor (s t : list A) : list A := from_range (set_symmetric_difference s t).
Definition is_subset (s t : list A) : bool := includes t s.
Definition is_superset (s t : list A) : bool := includes s t.

(** ** The order *)

Definition sorted (s : list A) : Prop := StronglySorted (fun x y => lt x y = true) s.

Context `{!StrictWeak lt}.

Lemma lt_asym x y : lt x y = true -> lt y x = false.
Proof.
  intros H. destruct (lt y x) eqn:E; [|done]. pose proof (sw_trans _ _ _ H E) as Hx. by rewrite sw_irrefl in Hx.
Qed.

Lemma equivb_true x y : equivb x y = true <-> lt x y = false /\ lt y x = false.
Proof. unfold equivb. by rewrite andb_true_iff, !negb_true_iff. Qed.

Lemma equivb_lt x y z : equivb x y = true -> lt y z = lt x z.
Proof.
  intros [H1 H2]%equivb_true. destruct (lt y z) eqn:E1, (lt x z) eqn:E2; try done; exfalso.
  - destruct (sw_cotrans y x z E1); congruence.
  - destruct (sw_cotrans x y z E2); congruence.
Qed.

Lemma equivb_gt x y z : equivb x y = true -> lt z y = lt z x.
Proof.
  intros [H1 H2]%equivb_true. destruct (lt z y) eqn:E1, (lt z x) eqn:E2; try done; exfalso.
  - destruct (sw_cotrans z x y E1); congruence.
  - destruct (sw_cotrans z y x E2); congruence.
Qed.

Lemma equivb_equiv z x y : equivb x y = true -> equivb z x = equivb z y.
Proof. intros H. unfold equivb. by rewrite (equivb_lt x y z H), (equivb_gt x y z H). Qed.

Lemma equivb_refl x : equivb x x = true.
Proof. by rewrite equivb_true, sw_irrefl. Qed.

(** ** Membership *)

Lemma contains_cons y s x : contains (y :: s) x = equivb x y || contains s x.
Proof. unfold contains, find. simpl. by destruct (equivb x y). Qed.

Lemma contains_exists s x : contains s x = true <-> exists y, In y s /\ equivb x y = true.
Proof.
  unfold contains, find. destruct (List.find (equivb x) s) as [y|] eqn:E.
  - apply List.find_some in E. split; [|done]. by exists y.
  - split; [done|]. intros (y & Hy & He). by rewrite (List.find_none _ _ E _ Hy) in He.
Qed.

(** Everything in a sorted range is above a bound of its first element. *)
Lemma contains_below z s : Forall (fun y => lt z y = true) s -> contains s z = false.
Proof.
  induction 1 as [|y s Hy _ IH]; [done|]. rewrite contains_cons, IH. unfold equivb. by rewrite Hy.
Qed.

Lemma sorted_cons x s : sorted (x :: s) <-> sorted s /\ Forall (fun y => lt x y = true) s.
Proof.
  split; [intros H; by apply StronglySorted_inv in H|]. intros [H1 H2]. by constructor.
Qed.

Lemma forall_lt_trans x y s : lt x y = true -> Forall (fun z => lt y z = true) s -> Forall (fun z => lt x z = true) s.
Proof. intros H Hs. eapply Forall_impl; [exact Hs|]. intros z Hz. by eapply sw_trans. Qed.

Lemma forall_lt_equiv x y s :
  equivb x y = true -> Forall (fun z => lt y z = true) s -> Forall (fun z => lt x z = true) s.
Proof. intros H Hs. eapply Forall_impl; [exact Hs|]. intros z Hz. simpl in Hz. by rewrite <-(equivb_lt x y z H). Qed.

(** ** All the algorithms are one merge *)

Definition keep (b : bool) (x : A) (l : list A) : list A := if b then x :: l else l.

Fixpoint merge (ka kb kab : bool) (a : list A) : list A -> list A :=
  match a with
  | [] => fun b => if kb then b else []
  | x :: a' =>
      fix go b :=
        match b with
        | [] => if ka then x :: a' else []
        | y :: b' =>
            if lt x y then keep ka x (merge ka kb kab a' (y :: b'))
            else if lt y x then keep kb y (go b')
            else keep kab x (merge ka kb kab a' b')
        end
  end.

Lemma merge_nil_r ka kb kab a : merge ka kb kab a [] = if ka then a else [].
Proof. destruct a; simpl; [by destruct ka, kb|done]. Qed.

Lemma merge_cons ka kb kab x a y b :
  merge ka kb kab (x :: a) (y :: b) =
  if lt x y then keep ka x (merge ka kb kab a (y :: b))
  else if lt y x then keep kb y (merge ka kb kab (x :: a) b)
  else keep kab x (merge ka kb kab a b).
Proof. done. Qed.

(** Induction on two ranges, one of which gets shorter in each step. *)
Lemma two_lists_ind (P : list A -> list A -> Prop) :
  (forall b, P [] b) -> (forall a, P a []) ->
  (forall x a y b, P a (y :: b) -> P (x :: a) b -> P a b -> P (x :: a) (y :: b)) ->
  forall a b, P a b.
Proof.
  intros H1 H2 H3 a. induction a as [|x a IHa]; [done|]. intros b. induction b as [|y b IHb]; auto.
Qed.

Ltac merged :=
  apply two_lists_ind; [done|by intros []|]; intros x a y b H1 H2 H3; simpl in *;
  rewrite ?H1, ?H2, ?H3; destruct (lt x y) eqn:E1, (lt y x) eqn:E2; try done;
  by rewrite (lt_asym _ _ E1) in E2.

Lemma set_union_merge a b : set_union a b = merge true true true a b.
Proof. revert a b. merged. Qed.
Lemma set_intersection_merge a b : set_intersection a b = merge false false true a b.
Proof. revert a b. merged. Qed.
Lemma set_difference_merge a b : set_difference a b = merge true false false a b.
Proof. revert a b. merged. Qed.
Lemma set_symmetric_difference_merge a b : set_symmetric_difference a b = merge true true false a b.
Proof. revert a b. merged. Qed.


Lemma merge_forall (P : A -> Prop) ka kb kab a b :
  Forall P a -> Forall P b -> Forall P (merge ka kb kab a b).
Proof.
  revert a b. apply (two_lists_ind (fun a b => Forall P a -> Forall P b -> Forall P (merge ka kb kab a b))).
  - intros b _ Hb. simpl. by destruct kb.
  - intros a Ha _. rewrite merge_nil_r. by destruct ka.
  - intros x a y b H1 H2 H3 Ha Hb. rewrite merge_cons. inversion Ha; inversion Hb; subst.
    destruct (lt x y), (lt y x), ka, kb, kab; simpl; auto.
Qed.

Lemma merged_sorted ka kb kab a b : sorted a -> sorted b -> sorted (merge ka kb kab a b).
Proof.
  revert a b. apply (two_lists_ind (fun a b => sorted a -> sorted b -> sorted (merge ka kb kab a b))).
  - intros b _ Hb. simpl. destruct kb; [done|constructor].
  - intros a Ha _. rewrite merge_nil_r. destruct ka; [done|constructor].
  - intros x a y b H1 H2 H3 Ha Hb. rewrite merge_cons.
    pose proof Ha as [Ha1 Ha2]%sorted_cons. pose proof Hb as [Hb1 Hb2]%sorted_cons.
    destruct (lt x y) eqn:E1; [|destruct (lt y x) eqn:E2].
    + destruct ka; cbn [keep]; [|by apply H1]. apply sorted_cons. split; [by apply H1|].
      apply merge_forall; [done|]. constructor; [done|by eapply forall_lt_trans].
    + destruct kb; cbn [keep]; [|by apply H2]. apply sorted_cons. split; [by apply H2|].
      apply merge_forall; [|done]. constructor; [done|by eapply forall_lt_trans].
    + assert (He : equivb x y = true) by by apply equivb_true.
      destruct kab; cbn [keep]; [|by apply H3]. apply sorted_cons. split; [by apply H3|].
      apply merge_forall; [done|by eapply forall_lt_equiv].
Qed.

Definition choose (ka kb kab a b : bool) : bool := if a then if b then kab else ka else b && kb.

Lemma contains_keep k x l z : contains (keep k x l) z = (k && equivb z x) || contains l z.
Proof. destruct k; [apply contains_cons|done]. Qed.

Lemma merge_contains ka kb kab a b z :
  sorted a -> sorted b -> contains (merge ka kb kab a b) z = choose ka kb kab (contains a z) (contains b z).
Proof.
  revert a b. apply (two_lists_ind (fun a b => sorted a -> sorted b ->
    contains (merge ka kb kab a b) z = choose ka kb kab (contains a z) (contains b z))).
  - intros b _ _. simpl. destruct kb; simpl; [by rewrite andb_true_r|by rewrite andb_false_r].
  - intros a _ _. rewrite merge_nil_r. destruct ka; simpl; by destruct (contains a z).
  - intros x a y b H1 H2 H3 Ha Hb. rewrite merge_cons.
    pose proof Ha as [Ha1 Ha2]%sorted_cons. pose proof Hb as [Hb1 Hb2]%sorted_cons.
    destruct (lt x y) eqn:E1; [|destruct (lt y x) eqn:E2]; rewrite contains_keep.
    + rewrite H1, (contains_cons x a) by done. destruct (equivb z x) eqn:Ez; [|by destruct ka].
      rewrite (contains_below z a) by by eapply forall_lt_equiv.
      rewrite (contains_below z (y :: b)); [by destruct ka|].
      eapply forall_lt_equiv; [exact Ez|]. constructor; [done|by eapply forall_lt_trans].
    + rewrite H2, (contains_cons y b) by done. destruct (equivb z y) eqn:Ez; [|by destruct kb].
      rewrite (contains_below z b) by by eapply forall_lt_equiv.
      rewrite (contains_below z (x :: a)); [by destruct kb|].
      eapply forall_lt_equiv; [exact Ez|]. constructor; [done|by eapply forall_lt_trans].
    + assert (He : equivb x y = true) by by apply equivb_true.
      rewrite H3, !contains_cons, <-(equivb_equiv z x y He) by done.
      destruct (equivb z x) eqn:Ez; [|by destruct kab].
      rewrite (contains_below z a) by by eapply forall_lt_equiv.
      rewrite (contains_below z b); [by destruct kab|].
      eapply forall_lt_equiv; [|exact Hb2]. by rewrite <-(equivb_equiv z x y He).
Qed.

(** ** The set itself *)

Lemma insert_contains x s z : contains (insert x s) z = equivb z x || contains s z.
Proof.
  induction s as [|y s IH]; [apply contains_cons|]. simpl.
  destruct (lt x y) eqn:E1; [by rewrite contains_cons|]. destruct (lt y x) eqn:E2.
  - rewrite !contains_cons, IH. by destruct (equivb z x), (equivb z y).
  - rewrite !contains_cons, <-(equivb_equiv z x y) by by apply equivb_true. by destruct (equivb z x).
Qed.

Lemma insert_forall (P : A -> Prop) x s : P x -> Forall P s -> Forall P (insert x s).
Proof.
  intros Hx. induction 1 as [|y s Hy Hs IH]; simpl; [by constructor|].
  destruct (lt x y), (lt y x); repeat constructor; done.
Qed.

Lemma insert_sorted x s : sorted s -> sorted (insert x s).
Proof.
  induction s as [|y s IH]; intros Hs; simpl; [apply sorted_cons; split; [done|constructor]|].
  pose proof Hs as [Hs1 Hs2]%sorted_cons.
  destruct (lt x y) eqn:E1; [|destruct (lt y x) eqn:E2; [|done]].
  - apply sorted_cons. split; [done|]. constructor; [done|by eapply forall_lt_trans].
  - apply sorted_cons. split; [by apply IH|]. by apply insert_forall.
Qed.

Lemma insert_above x s : Forall (fun y => lt y x = true) s -> insert x s = s ++ [x].
Proof.
  induction 1 as [|y s Hy _ IH]; [done|]. simpl. by rewrite (lt_asym _ _ Hy), Hy, IH.
Qed.

Lemma fold_insert_sorted l s :
  sorted (s ++ l) -> fold_left (fun s x => insert x s) l s = s ++ l.
Proof.
  revert s. induction l as [|x l IH]; intros s Hs; simpl; [by rewrite app_nil_r|].
  rewrite insert_above.
  - replace (s ++ x :: l) with ((s ++ [x]) ++ l) in * by by rewrite <-app_assoc. by apply IH.
  - clear IH. induction s as [|y s IHs]; [done|]. simpl in Hs.
    apply sorted_cons in Hs as [Hs1 Hs2]. apply Forall_app in Hs2 as [_ Hs2]. inversion Hs2; subst.
    constructor; [done|by apply IHs].
Qed.

Lemma from_range_id l : sorted l -> from_range l = l.
Proof. intros H. unfold from_range. by rewrite fold_insert_sorted. Qed.

Lemma from_range_sorted l : sorted (from_range l).
Proof.
  unfold from_range. assert (H : sorted []) by constructor. revert H. generalize (@nil A).
  induction l as [|x l IH]; intros s Hs; [done|]. simpl. apply IH. by apply insert_sorted.
Qed.

Lemma filter_sorted (f : A -> bool) s : sorted s -> sorted (List.filter f s).
Proof.
  induction s as [|x s IH]; intros Hs; [done|]. apply sorted_cons in Hs as [H1 H2]. simpl.
  destruct (f x); [|by apply IH]. apply sorted_cons. split; [by apply IH|].
  apply List.Forall_forall. intros y [Hy _]%List.filter_In. by eapply List.Forall_forall in H2.
Qed.

Lemma erase_contains x s z : contains (erase x s) z = contains s z && negb (equivb z x).
Proof.
  unfold erase. induction s as [|y s IH]; [done|]. simpl. rewrite contains_cons.
  destruct (equivb x y) eqn:E; simpl; rewrite ?contains_cons, IH.
  - rewrite (equivb_equiv z x y E). by destruct (equivb z y), (contains s z).
  - destruct (equivb z y) eqn:Ez; [|done]. simpl.
    assert (Hzx : equivb z x = false); [|by rewrite Hzx].
    unfold equivb. rewrite andb_comm. fold (equivb x z). by rewrite (equivb_equiv x z y Ez).
Qed.

Lemma includes_spec a b :
  sorted a -> sorted b -> includes a b = true <-> forall z, contains b z = true -> contains a z = true.
Proof.
  revert b. induction a as [|x a IH]; intros b Ha Hb; destruct b as [|y b]; simpl; try (split; done).
  - split; [done|]. intros H. specialize (H y). rewrite contains_cons, equivb_refl in H. discriminate (H eq_refl).
  - pose proof Ha as [Ha1 Ha2]%sorted_cons. pose proof Hb as [Hb1 Hb2]%sorted_cons.
    destruct (lt y x) eqn:E1; [|destruct (lt x y) eqn:E2].
    + split; [done|]. intros H. specialize (H y). rewrite contains_cons, equivb_refl, (contains_below y (x :: a)) in H.
      * discriminate (H eq_refl).
      * constructor; [done|by eapply forall_lt_trans].
    + rewrite IH by done. split; intros H z Hz; [rewrite contains_cons, (H z Hz); by rewrite orb_true_r|].
      specialize (H z Hz). rewrite contains_cons in H. apply orb_true_iff in H as [H|]; [|done].
      rewrite (contains_below z (y :: b)) in Hz; [done|].
      eapply forall_lt_equiv; [exact H|]. constructor; [done|by eapply forall_lt_trans].
    + assert (He : equivb x y = true) by by apply equivb_true. rewrite IH by done.
      assert (Hx : forall z, equivb z y = true -> contains a z = false).
      { intros z Hz. apply contains_below. eapply forall_lt_equiv; [|exact Ha2]. by rewrite (equivb_equiv z x y He). }
      assert (Hy : forall z, equivb z y = true -> contains b z = false).
      { intros z Hz. apply contains_below. by eapply forall_lt_equiv. }
      split; intros H z Hz; specialize (H z); rewrite !contains_cons, ?(equivb_equiv z x y He) in *;
        destruct (equivb z y) eqn:Ez; simpl in *; try done; [by apply H|by rewrite Hy in Hz|by apply H].
Qed.

Lemma set_or_contains s t z : sorted s -> sorted t -> contains (set_or s t) z = contains s z || contains t z.
Proof.
  intros Hs Ht. unfold set_or. rewrite set_union_merge, from_range_id, merge_contains by auto using merged_sorted.
  unfold choose. by destruct (contains s z), (contains t z).
Qed.

Lemma set_and_contains s t z : sorted s -> sorted t -> contains (set_and s t) z = contains s z && contains t z.
Proof.
  intros Hs Ht. unfold set_and. rewrite set_intersection_merge, from_range_id, merge_contains by auto using merged_sorted.
  unfold choose. by destruct (contains s z), (contains t z).
Qed.

Lemma set_minus_contains s t z :
  sorted s -> sorted t -> contains (set_minus s t) z = contains s z && negb (contains t z).
Proof.
  intros Hs Ht. unfold set_minus. rewrite set_difference_merge, from_range_id, merge_contains by auto using merged_sorted.
  unfold choose. by destruct (contains s z), (contains t z).
Qed.

Lemma set_xor_contains s t z : sorted s -> sorted t -> contains (set_xor s t) z = xorb (contains s z) (contains t z).
Proof.
  intros Hs Ht. unfold set_xor.
  rewrite set_symmetric_difference_merge, from_range_id, merge_contains by auto using merged_sorted.
  unfold choose. by destruct (contains s z), (contains t z).
Qed.

(** Nothing comes from nowhere. *)
Lemma set_minus_forall (P : A -> Prop) s t : sorted s -> sorted t -> Forall P s -> Forall P (set_minus s t).
Proof.
  intros Hs Ht HP. unfold set_minus. rewrite set_difference_merge, from_range_id by auto using merged_sorted.
  revert s t Hs Ht HP. apply (two_lists_ind (fun a b => sorted a -> sorted b -> Forall P a -> Forall P (merge true false false a b))).
  - done.
  - intros a _ _ Ha. by rewrite merge_nil_r.
  - intros x a y b H1 H2 H3 Hx Hy Ha. rewrite merge_cons.
    apply sorted_cons in Hx as [Hx1 ?]. pose proof Hy as [Hy1 ?]%sorted_cons. inversion Ha; subst.
    destruct (lt x y), (lt y x); simpl; auto; apply H2; auto; by apply sorted_cons.
Qed.

(** The operations of [Set] are those of sets: each result is sorted
    without equivalent elements, and has the elements that the operation's
    name promises; the tests for subset and superset are exact. *)
Theorem set_operations s t x z :
  sorted s -> sorted t ->
  (contains (add x s) z = equivb z x || contains s z)
  /\ (contains (remove x s) z = contains s z && negb (equivb z x))
  /\ (contains (set_or s t) z = contains s z || contains t z)
  /\ (contains (set_and s t) z = contains s z && contains t z)
  /\ (contains (set_minus s t) z = contains s z && negb (contains t z))
  /\ (contains (set_xor s t) z = xorb (contains s z) (contains t z))
  /\ (is_subset s t = true <-> forall y, contains s y = true -> contains t y = true)
  /\ (is_superset s t = true <-> forall y, contains t y = true -> contains s y = true)
  /\ Forall sorted [add x s; remove x s; set_or s t; set_and s t; set_minus s t; set_xor s t].
Proof.
  intros Hs Ht. unfold is_subset, is_superset. rewrite !includes_spec by done. split_and!.
  - apply insert_contains.
  - apply erase_contains.
  - by apply set_or_contains.
  - by apply set_and_contains.
  - by apply set_minus_contains.
  - by apply set_xor_contains.
  - done.
  - done.
  - rewrite !Forall_cons. split_and!; [by apply insert_sorted|by apply filter_sorted|apply from_range_sorted..|by apply Forall_nil].
Qed.
End sets.

(** Numbers, which addresses are. *)
#[global] Instance ltb_strict_weak : StrictWeak Nat.ltb.
Proof.
  split; intros; rewrite ?Nat.ltb_lt, ?Nat.ltb_ge in *; lia.
Qed.

(** The elements compared by a key. *)
#[global] Instance by_key_strict_weak {A B} (key : A -> B) (lt : B -> B -> bool) `{!StrictWeak lt} :
  StrictWeak (fun x y => lt (key x) (key y)).
Proof. split; intros; [apply sw_irrefl|by eapply sw_trans|by apply sw_cotrans]. Qed.

Lemma set_operations_witness :
  sorted Nat.ltb [1; 4; 6] /\ set_minus Nat.ltb [1; 4; 6] [2; 4] = [1; 6]
  /\ contains Nat.ltb (set_minus Nat.ltb [1; 4; 6] [2; 4]) 4 = false.
Proof.
  assert (H1 : sorted Nat.ltb [1; 4; 6]) by (repeat constructor).
  assert (H2 : sorted Nat.ltb [2; 4]) by (repeat constructor).
  split_and!; [exact H1|reflexivity|].
  destruct (set_operations Nat.ltb [1; 4; 6] [2; 4] 0 4 H1 H2) as (_ & _ & _ & _ & H & _). exact H.
Defined.
End Sets.
