(* ===== verification/Sack.v ===== *)
(** * Sack: queries and sacks ([common/sack])

    A query is a set with filters; a sack owns its items and makes queries
    over them. [fnmatch], [std::regex] and [tolower] belong to the C library
    and the locale: they are the class [Matching]. *)

From S2P Require Import Prelude WeakPtr Sets.
From stdpp Require Import sorting.

(** ** Comparison operators ([query_cmp.hpp]) *)
Module QueryCmp.
Local Open Scope N_scope.

(** [uint32_t], not only the enumerators: the operators below make others. *)
Definition t : Type := N.
Definition or (lhs rhs : t) : t := N.lor lhs rhs.
Definition and (lhs rhs : t) : t := N.land lhs rhs.
(** The subtraction wraps around. *)
Definition minus (lhs rhs : t) : t := (lhs + 2 ^ 32 - rhs) mod 2 ^ 32.

Definition NOT := N.shiftl 1 0.
Definition ICASE := N.shiftl 1 1.
Definition ISNULL := N.shiftl 1 7.
Definition EQ := N.shiftl 1 8.
Definition NEQ := N.lor NOT EQ.
Definition GT := N.shiftl 1 9.
Definition GTE := N.lor GT EQ.
Definition LT := N.shiftl 1 10.
Definition LTE := N.lor LT EQ.
Definition EXACT := EQ.
Definition IEXACT := N.lor ICASE EXACT.
Definition NOT_IEXACT := N.lor NOT IEXACT.
Definition CONTAINS := N.shiftl 1 16.
Definition NOT_CONTAINS := N.lor NOT CONTAINS.
Definition ICONTAINS := N.lor ICASE CONTAINS.
Definition NOT_ICONTAINS := N.lor NOT ICONTAINS.
Definition STARTSWITH := N.shiftl 1 17.
Definition ISTARTSWITH := N.lor ICASE STARTSWITH.
Definition ENDSWITH := N.shiftl 1 18.
Definition IENDSWITH := N.lor ICASE ENDSWITH.
Definition REGEX := N.shiftl 1 19.
Definition IREGEX := N.lor ICASE REGEX.
Definition GLOB := N.shiftl 1 20.
Definition NOT_GLOB := N.lor NOT GLOB.
Definition IGLOB := N.lor ICASE GLOB.
Definition NOT_IGLOB := N.lor NOT IGLOB.

Definition enumerators : list t :=
  [NOT; ICASE; ISNULL; EQ; NEQ; GT; GTE; LT; LTE; IEXACT; NOT_IEXACT; CONTAINS; NOT_CONTAINS; ICONTAINS;
   NOT_ICONTAINS; STARTSWITH; ISTARTSWITH; ENDSWITH; IENDSWITH; REGEX; IREGEX; GLOB; NOT_GLOB; IGLOB; NOT_IGLOB].

Lemma minus_flag cmp flag :
  cmp < 2 ^ 32 -> and cmp flag = flag -> minus cmp flag = N.ldiff cmp flag.
Proof.
  unfold minus, and. intros Hc Hf. assert (Hsub : N.ldiff cmp flag = cmp - flag).
  { rewrite N.sub_nocarry_ldiff; [done|]. rewrite <-Hf. apply N.bits_inj. intros i.
    rewrite N.ldiff_spec, N.land_spec, N.bits_0. by destruct (N.testbit cmp i), (N.testbit flag i). }
  assert (Hle : flag <= cmp).
  { assert (N.ldiff flag cmp = 0) as H by
      (apply N.bits_inj; intros i; rewrite <-Hf, N.ldiff_spec, N.land_spec, N.bits_0;
       by destruct (N.testbit cmp i), (N.testbit flag i)).
    by apply N.ldiff_le in H. }
  rewrite Hsub. replace (cmp + 2 ^ 32 - flag) with ((cmp - flag) + 1 * 2 ^ 32) by lia.
  rewrite N.Div0.mod_add. apply N.mod_small. lia.
Qed.
End QueryCmp.

(** ** Matching ([match_int64.cpp], [match_string.cpp]) *)

Class Matching := {
  FNM_CASEFOLD : N;
  FNM_EXTMATCH : N;
  (** [fnmatch(pattern, string, flags) == 0] on strings without zero bytes. *)
  fnmatch : N -> cstr -> cstr -> bool;
  (** [std::regex(pattern, icase)], [None] when the constructor throws, and
      [std::regex_match] with it. *)
  regex_compile : bool -> cstr -> option (cstr -> bool);
  tolower_char : ascii -> ascii;
}.

Module Matches.
Import QueryCmp.

Inductive error := Unsupported | Standalone | NotImplemented | RegexError.
#[global] Instance error_eq_dec : EqDecision error.
Proof. solve_decision. Defined.

(** The cases of a [switch] over enumerators. *)
Definition case (cmp : t) (l : list t) : bool := existsb (N.eqb cmp) l.

(** No case for a value that is not an enumerator: the result is [false]. *)
Definition match_int64 (value : Z) (cmp : t) (pattern : Z) : result error bool :=
  if case cmp [EQ] then Ok (value =? pattern)%Z
  else if case cmp [NEQ] then Ok (negb (value =? pattern)%Z)
  else if case cmp [LT] then Ok (value <? pattern)%Z
  else if case cmp [LTE] then Ok (value <=? pattern)%Z
  else if case cmp [GT] then Ok (pattern <? value)%Z
  else if case cmp [GTE] then Ok (pattern <=? value)%Z
  else if case cmp [IEXACT; NOT_IEXACT; GLOB; NOT_GLOB; IGLOB; NOT_IGLOB; REGEX; IREGEX; CONTAINS; NOT_CONTAINS;
                    ICONTAINS; NOT_ICONTAINS; STARTSWITH; ISTARTSWITH; ENDSWITH; IENDSWITH; ISNULL]
       then Err Unsupported
  else if case cmp [NOT; ICASE] then Err Standalone
  else Ok false.

(** The loops over patterns and values: the first match ends them. *)
Fixpoint any_of {A} (f : A -> result error bool) (l : list A) : result error bool :=
  match l with
  | [] => Ok false
  | x :: l => let* b := f x in if b then Ok true else any_of f l
  end.

Definition match_int64_patterns (value : Z) (cmp : t) (patterns : list Z) : result error bool :=
  any_of (match_int64 value cmp) patterns.
Definition match_int64_values (values : list Z) (cmp : t) (pattern : Z) : result error bool :=
  any_of (fun value => match_int64 value cmp pattern) values.
Definition match_int64_all (values : list Z) (cmp : t) (patterns : list Z) : result error bool :=
  any_of (fun value => any_of (match_int64 value cmp) patterns) values.

Section strings.
Context `{Matching}.

(** [c_str()]: a C function sees a string up to its first zero byte. *)
Fixpoint c_str (s : cstr) : cstr :=
  match s with
  | [] => []
  | c :: s => if (code c =? 0)%N then [] else c :: c_str s
  end.
Definition tolower (s : cstr) : cstr := map tolower_char s.
Definition regex (icase : bool) (pattern value : cstr) : result error bool :=
  match regex_compile icase pattern with Some re => Ok (re value) | None => Err RegexError end.

Definition match_string (value : cstr) (cmp : t) (pattern : cstr) : result error bool :=
  if case cmp [EXACT] then Ok (bool_decide (value = pattern))
  else if case cmp [NEQ] then Ok (negb (bool_decide (value = pattern)))
  else if case cmp [IEXACT] then Ok (bool_decide (tolower value = tolower pattern))
  else if case cmp [GLOB] then Ok (fnmatch FNM_EXTMATCH (c_str pattern) (c_str value))
  else if case cmp [IGLOB] then Ok (fnmatch (N.lor FNM_CASEFOLD FNM_EXTMATCH) (c_str pattern) (c_str value))
  else if case cmp [REGEX] then regex false pattern value
  else if case cmp [IREGEX] then regex true pattern value
  else if case cmp [NOT_GLOB; NOT_IGLOB; NOT_IEXACT; CONTAINS; NOT_CONTAINS; ICONTAINS; NOT_ICONTAINS; STARTSWITH;
                    ISTARTSWITH; ENDSWITH; IENDSWITH] then Err NotImplemented
  else if case cmp [ISNULL; LT; LTE; GT; GTE] then Err Unsupported
  else if case cmp [NOT; ICASE] then Err Standalone
  else Ok false.

Definition match_string_patterns (value : cstr) (cmp : t) (patterns : list cstr) : result error bool :=
  any_of (match_string value cmp) patterns.
Definition match_string_values (values : list cstr) (cmp : t) (pattern : cstr) : result error bool :=
  any_of (fun value => match_string value cmp pattern) values.
Definition match_string_all (values : list cstr) (cmp : t) (patterns : list cstr) : result error bool :=
  any_of (fun value => any_of (match_string value cmp) patterns) values.
End strings.
End Matches.

(** ** Queries ([query.hpp]) *)
Module Query.
Import Matches.

Section query.
Context {T : Type}.
Context `{Matching}.

(** The loop that every [ifilter] has: the items that do not match are erased
    one by one, so that an exception leaves the rest of the set unfiltered.
    [kept] are the items already passed. *)
Fixpoint filter_loop (test : T -> result error bool) (kept rest : list T) : list T * option error :=
  match rest with
  | [] => (kept, None)
  | x :: rest' =>
      match test x with
      | Ok true => filter_loop test (kept ++ [x]) rest'
      | Ok false => filter_loop test kept rest'
      | Err e => (kept ++ rest, Some e)
      end
  end.

Definition ifilter_string (getter : T -> cstr) cmp pattern (s : list T) :=
  filter_loop (fun x => match_string (getter x) cmp pattern) [] s.
Definition ifilter_vector_string (getter : T -> list cstr) cmp pattern (s : list T) :=
  filter_loop (fun x => match_string_values (getter x) cmp pattern) [] s.
Definition ifilter_string_patterns (getter : T -> cstr) cmp patterns (s : list T) :=
  filter_loop (fun x => match_string_patterns (getter x) cmp patterns) [] s.
Definition ifilter_vector_string_patterns (getter : T -> list cstr) cmp patterns (s : list T) :=
  filter_loop (fun x => match_string_all (getter x) cmp patterns) [] s.
Definition ifilter_int64 (getter : T -> Z) cmp pattern (s : list T) :=
  filter_loop (fun x => match_int64 (getter x) cmp pattern) [] s.
Definition ifilter_vector_int64 (getter : T -> list Z) cmp pattern (s : list T) :=
  filter_loop (fun x => match_int64_values (getter x) cmp pattern) [] s.
Definition ifilter_int64_patterns (getter : T -> Z) cmp patterns (s : list T) :=
  filter_loop (fun x => match_int64_patterns (getter x) cmp patterns) [] s.
Definition ifilter_vector_int64_patterns (getter : T -> list Z) cmp patterns (s : list T) :=
  filter_loop (fun x => match_int64_all (getter x) cmp patterns) [] s.
(** Any other operator than EQ matches nothing. *)
Definition ifilter_bool (getter : T -> bool) cmp (pattern : bool) (s : list T) :=
  filter_loop (fun x => Ok ((cmp =? QueryCmp.EQ)%N && Bool.eqb (getter x) pattern)) [] s.

(** [None] is the exception. *)
Definition get (s : list T) : option T := match s with [x] => Some x | _ => None end.

(** ** The filter in general *)

Definition matched (test : T -> result error bool) (x : T) : bool :=
  match test x with Ok b => b | Err _ => false end.

Lemma filter_loop_spec test kept rest :
  filter_loop test kept rest =
  match find_idx (fun x => negb (is_ok (test x))) rest with
  | None => (kept ++ List.filter (matched test) rest, None)
  | Some i => (kept ++ List.filter (matched test) (take i rest) ++ drop i rest,
               match rest !! i with Some x => match test x with Err e => Some e | Ok _ => None end | None => None end)
  end.
Proof.
  revert kept. induction rest as [|x rest IH]; intros kept; simpl; [by rewrite app_nil_r|].
  unfold matched. destruct (test x) as [[]|e] eqn:E; simpl; [| |by rewrite E].
  - rewrite IH. destruct (find_idx _ rest); simpl; by rewrite <-?app_assoc, ?E.
  - rewrite IH. destruct (find_idx _ rest); simpl; by rewrite ?E.
Qed.

Lemma filter_loop_ok test s :
  (forall x, In x s -> is_ok (test x) = true) -> filter_loop test [] s = (List.filter (matched test) s, None).
Proof.
  intros Hok. rewrite filter_loop_spec. destruct (find_idx _ s) as [i|] eqn:E; [|done].
  apply find_idx_Some in E as (x & Hx & Hf & _). apply list_elem_of_lookup_2, list_elem_of_In in Hx.
  by rewrite (Hok x Hx) in Hf.
Qed.

(** ** Which operators there are *)

(** The test for a numeric operator, read off its bits. *)
Definition numeric (cmp : QueryCmp.t) (value pattern : Z) : bool :=
  xorb (N.testbit cmp 0)
    ((N.testbit cmp 8 && (value =? pattern)%Z) || (N.testbit cmp 9 && (pattern <? value)%Z)
     || (N.testbit cmp 10 && (value <? pattern)%Z)).

Definition numeric_ops : list QueryCmp.t :=
  [QueryCmp.EQ; QueryCmp.NEQ; QueryCmp.LT; QueryCmp.LTE; QueryCmp.GT; QueryCmp.GTE].

Lemma match_int64_numeric value cmp pattern :
  In cmp numeric_ops -> match_int64 value cmp pattern = Ok (numeric cmp value pattern).
Proof.
  intros Hin. repeat (destruct Hin as [<-|Hin]; [cbv -[Z.eqb Z.ltb Z.leb];
    destruct (Z.eqb_spec value pattern), (Z.ltb_spec value pattern), (Z.ltb_spec pattern value),
      (Z.leb_spec value pattern), (Z.leb_spec pattern value); try reflexivity; lia|]); destruct Hin.
Qed.

Lemma match_int64_error cmp value pattern value' pattern' e :
  match_int64 value cmp pattern = Err e -> match_int64 value' cmp pattern' = Err e.
Proof. unfold match_int64. repeat case_match; congruence. Qed.

Lemma case_false cmp l : cmp ∉ l -> case cmp l = false.
Proof.
  intros Hn. unfold case. induction l as [|x l IH]; [done|]. simpl. apply not_elem_of_cons in Hn as [Hx Hl].
  rewrite IH by done. by apply N.eqb_neq in Hx as ->.
Qed.

Lemma match_int64_unknown value cmp pattern :
  cmp ∉ QueryCmp.enumerators -> match_int64 value cmp pattern = Ok false.
Proof.
  intros Hn. assert (Hc : forall l, l ⊆ QueryCmp.enumerators -> case cmp l = false).
  { intros l Hl. apply case_false. intros Hin. by apply Hn, Hl. }
  unfold match_int64. rewrite !Hc; [done| | | | | | | |]; apply (bool_decide_unpack _); vm_compute; exact I.
Qed.

(** A filter by a number keeps exactly the items in the relation that the
    bits of the operator describe (less, equal, greater, and the negation of
    these); an operator that is not for numbers throws and leaves the set as it
    was (an empty set is never tested); a combination of flags that is no
    enumerator matches nothing. *)
Theorem int64_filter getter cmp pattern s :
  (In cmp numeric_ops ->
     ifilter_int64 getter cmp pattern s = (List.filter (fun x => numeric cmp (getter x) pattern) s, None))
  /\ (In cmp QueryCmp.enumerators -> ~ In cmp numeric_ops -> s <> [] ->
     exists e, ifilter_int64 getter cmp pattern s = (s, Some e))
  /\ ((cmp ∉ QueryCmp.enumerators) -> ifilter_int64 getter cmp pattern s = ([], None)).
Proof.
  unfold ifilter_int64. split_and!.
  - intros Hin. rewrite filter_loop_ok.
    + f_equal. apply List.filter_ext. intros x. unfold matched. by rewrite match_int64_numeric.
    + intros x _. by rewrite match_int64_numeric.
  - intros Hin Hnum Hs. destruct s as [|x s]; [done|]. simpl.
    assert (Herr : exists e, match_int64 (getter x) cmp pattern = Err e); [|destruct Herr as [e ->]; by exists e].
    revert Hnum. repeat (destruct Hin as [<-|Hin]; [intros Hnum; first [by eexists; reflexivity|destruct Hnum; vm_compute; tauto]|]).
    destruct Hin.
  - intros Hn. rewrite filter_loop_ok by (intros x _; by rewrite match_int64_unknown). f_equal.
    induction s as [|x s IH]; [done|]. simpl. unfold matched at 1. by rewrite match_int64_unknown.
Qed.

(** ** Exceptions *)

Lemma match_string_error cmp value pattern value' e :
  match_string value cmp pattern = Err e -> match_string value' cmp pattern = Err e.
Proof. unfold match_string, regex. repeat case_match; congruence. Qed.

Lemma filter_loop_cases test s :
  match filter_loop test [] s with
  | (s', None) => forall x, In x s' <-> In x s /\ test x = Ok true
  | (s', Some e) => exists pre x post, s = pre ++ x :: post /\ test x = Err e
                    /\ Forall (fun y => is_ok (test y) = true) pre
                    /\ s' = List.filter (matched test) pre ++ x :: post
  end.
Proof.
  rewrite filter_loop_spec. simpl. destruct (find_idx _ s) as [i|] eqn:E.
  - apply find_idx_Some in E as (x & Hx & Hf & Hpre). rewrite Hx.
    destruct (test x) as [b|e] eqn:Et; [done|]. exists (take i s), x, (drop (S i) s). split_and!.
    + symmetry. by apply take_drop_middle.
    + done.
    + eapply Forall_impl; [exact Hpre|]. intros y Hy. by apply negb_false_iff in Hy.
    + f_equal. by apply drop_S.
  - intros x. rewrite List.filter_In. unfold matched. split; intros [Hx Ht]; (split; [done|]).
    + destruct (test x) as [b|e]; [by subst b|done].
    + by rewrite Ht.
Qed.

Lemma filter_loop_sorted lt test s : Sets.sorted lt s -> StrictWeak lt -> Sets.sorted lt (fst (filter_loop test [] s)).
Proof.
  intros Hs Hlt. pose proof (filter_loop_cases test s) as Hc. rewrite filter_loop_spec in *. simpl in *.
  destruct (find_idx _ s) as [i|]; simpl in *; [|by apply Sets.filter_sorted].
  clear Hc. revert i. induction s as [|x s IH]; intros [|i]; simpl; try done; apply Sets.sorted_cons in Hs as [H1 H2].
  destruct (matched test x); simpl; [|by apply IH]. apply Sets.sorted_cons. split; [by apply IH|].
  apply Forall_app. split; [|by apply Forall_drop].
  apply List.Forall_forall. intros y [Hy _]%List.filter_In. apply list_elem_of_In in Hy.
  apply elem_of_take in Hy as (j & Hj & _). apply list_elem_of_lookup_2 in Hj. by eapply Forall_forall in H2.
Qed.

(** A filter by a string is all or nothing: it throws on the first item
    and changes nothing (exactly when the operator is not for strings, is not
    implemented, or its regular expression is wrong), or it keeps exactly the
    items that match. The result is a sorted set again in both cases. *)
Theorem string_filter lt `{!StrictWeak lt} getter cmp pattern s :
  Sets.sorted lt s ->
  Sets.sorted lt (fst (ifilter_string getter cmp pattern s))
  /\ match ifilter_string getter cmp pattern s with
     | (s', Some e) => s' = s /\ s <> [] /\ forall value, match_string value cmp pattern = Err e
     | (s', None) => forall x, In x s' <-> In x s /\ match_string (getter x) cmp pattern = Ok true
     end.
Proof.
  intros Hs. split; [by apply filter_loop_sorted|]. unfold ifilter_string.
  pose proof (filter_loop_cases (fun x => match_string (getter x) cmp pattern) s) as Hc.
  destruct (filter_loop _ [] s) as [s' [e|]]; [|exact Hc].
  destruct Hc as (pre & x & post & -> & Hx & Hpre & ->).
  assert (Hall : forall value, match_string value cmp pattern = Err e).
  { intros value. eapply match_string_error, Hx. }
  destruct pre as [|y pre]; [split_and!; [done..|exact Hall]|].
  inversion Hpre as [|? ? Hy]; subst. by rewrite Hall in Hy.
Qed.

(** With several values per item an exception can come late: the items
    before the first one with a value are tested, and erased, without it. *)
Theorem vector_filter_exception getter cmp pattern s s' e :
  ifilter_vector_string getter cmp pattern s = (s', Some e) ->
  (forall value, match_string value cmp pattern = Err e)
  /\ exists pre x post, s = pre ++ x :: post /\ getter x <> [] /\ Forall (fun y => getter y = []) pre /\ s' = x :: post.
Proof.
  intros Hf. unfold ifilter_vector_string in Hf.
  pose proof (filter_loop_cases (fun x => match_string_values (getter x) cmp pattern) s) as Hc. rewrite Hf in Hc.
  destruct Hc as (pre & x & post & -> & Hx & Hpre & ->).
  assert (Hall : forall value, match_string value cmp pattern = Err e).
  { unfold match_string_values in Hx. revert Hx. induction (getter x) as [|v vs IH]; simpl; [done|]. intros Hx.
    destruct (match_string v cmp pattern) as [b|e'] eqn:E; simpl in Hx; [destruct b; [done|by apply IH]|].
    simplify_eq. intros value. by eapply match_string_error. }
  split; [done|]. exists pre, x, post.
  assert (Hempty : Forall (fun y => getter y = []) pre).
  { eapply Forall_impl; [exact Hpre|]. intros y. unfold match_string_values. destruct (getter y) as [|v vs]; [done|].
    simpl. by rewrite Hall. }
  split_and!; [done| |done|].
  - intros Hg. unfold match_string_values in Hx. by rewrite Hg in Hx.
  - clear Hf Hpre. induction Hempty as [|y pre Hy _ IH]; [done|]. simpl. unfold matched at 1, match_string_values at 1.
    by rewrite Hy.
Qed.
End query.
End Query.

(** ** Sacks ([sack.hpp]) *)
Module Sack.
Import WeakPtr.

(** Weak pointers are compared by the address of their item; null is 0. *)
Definition address (p : Ptr) : nat := default 0 (ptr p).
Definition ptr_lt (p q : Ptr) : bool := Nat.ltb (address p) (address q).

(** The items by their addresses, in the order in which they were added;
    [data_guard] is the address of the guard. *)
Record Sack := mkSack {
  data_guard : nat;
  excludes : list Ptr;
  includes : list Ptr;
  use_includes : bool;
  data : list (option nat);
}.
Definition new_sack (g : nat) : Sack := mkSack g [] [] false [].

Definition set_excludes (v : list Ptr) (s : Sack) : Sack := mkSack (data_guard s) v (includes s) (use_includes s) (data s).
Definition add_excludes (v : list Ptr) (s : Sack) : Sack := set_excludes (Sets.set_or ptr_lt (excludes s) v) s.
Definition remove_excludes (v : list Ptr) (s : Sack) : Sack := set_excludes (Sets.set_minus ptr_lt (excludes s) v) s.
Definition set_includes (v : list Ptr) (s : Sack) : Sack := mkSack (data_guard s) (excludes s) v (use_includes s) (data s).
Definition add_includes (v : list Ptr) (s : Sack) : Sack := set_includes (Sets.set_or ptr_lt (includes s) v) s.
Definition remove_includes (v : list Ptr) (s : Sack) : Sack := set_includes (Sets.set_minus ptr_lt (includes s) v) s.
Definition set_use_includes (b : bool) (s : Sack) : Sack := mkSack (data_guard s) (excludes s) (includes s) b (data s).

(** [DataItemWeakPtr(item.get(), &data_guard)]. *)
Definition item_ptr (s : Sack) (item : option nat) : result error Ptr :=
  match item with Some _ => Ok (mkPtr item (Some (data_guard s))) | None => Err InvalidPtr end.
Definition add_item (item : option nat) (s : Sack) : Sack :=
  mkSack (data_guard s) (excludes s) (includes s) (use_includes s) (data s ++ [item]).
Definition add_item_with_return (item : option nat) (s : Sack) : result error (Ptr * Sack) :=
  let* ret := item_ptr s item in Ok (ret, add_item item s).

Fixpoint add_all (s : Sack) (items : list (option nat)) (q : list Ptr) : result error (list Ptr) :=
  match items with
  | [] => Ok q
  | item :: items => let* p := item_ptr s item in add_all s items (Sets.add ptr_lt p q)
  end.
Definition new_query (s : Sack) : result error (list Ptr) :=
  let* q := if use_includes s then Ok (includes s) else add_all s (data s) [] in
  Ok (Sets.set_minus ptr_lt q (excludes s)).

(** ** What can happen to a sack *)

Inductive op :=
| AddItem (item : nat)
| SetExcludes (v : list Ptr) | AddExcludes (v : list Ptr) | RemoveExcludes (v : list Ptr)
| SetIncludes (v : list Ptr) | AddIncludes (v : list Ptr) | RemoveIncludes (v : list Ptr)
| SetUseIncludes (b : bool).
Definition do (o : op) (s : Sack) : Sack :=
  match o with
  | AddItem i => add_item (Some i) s
  | SetExcludes v => set_excludes v s | AddExcludes v => add_excludes v s | RemoveExcludes v => remove_excludes v s
  | SetIncludes v => set_includes v s | AddIncludes v => add_includes v s | RemoveIncludes v => remove_includes v s
  | SetUseIncludes b => set_use_includes b s
  end.
(** The arguments are sets. *)
Definition op_sets (o : op) : Prop :=
  match o with
  | SetExcludes v | AddExcludes v | RemoveExcludes v | SetIncludes v | AddIncludes v | RemoveIncludes v => Sets.sorted ptr_lt v
  | _ => True
  end.

(** The specification: a sack without any order or merging. *)
Record Spec := mkSpec { items : nat -> bool; excluded : nat -> bool; included : nat -> bool; only_included : bool }.
Definition spec_new : Spec := mkSpec (fun _ => false) (fun _ => false) (fun _ => false) false.
Definition has (v : list Ptr) (a : nat) : bool := existsb (fun p => address p =? a) v.
Definition spec_do (o : op) (s : Spec) : Spec :=
  let '(mkSpec it ex inc only) := s in
  match o with
  | AddItem i => mkSpec (fun a => it a || (a =? i)) ex inc only
  | SetExcludes v => mkSpec it (has v) inc only
  | AddExcludes v => mkSpec it (fun a => ex a || has v a) inc only
  | RemoveExcludes v => mkSpec it (fun a => ex a && negb (has v a)) inc only
  | SetIncludes v => mkSpec it ex (has v) only
  | AddIncludes v => mkSpec it ex (fun a => inc a || has v a) only
  | RemoveIncludes v => mkSpec it ex (fun a => inc a && negb (has v a)) only
  | SetUseIncludes b => mkSpec it ex inc b
  end.
Definition spec_query (s : Spec) (a : nat) : bool :=
  (if only_included s then included s a else items s a) && negb (excluded s a).

#[global] Instance ptr_lt_strict_weak : StrictWeak ptr_lt.
Proof. apply (Sets.by_key_strict_weak address Nat.ltb). Qed.

Lemma has_contains v p : Sets.contains ptr_lt v p = has v (address p).
Proof.
  induction v as [|q v IH]; [done|]. rewrite Sets.contains_cons, IH. simpl. f_equal.
  unfold Sets.equivb, ptr_lt. destruct (Nat.eqb_spec (address q) (address p)), (Nat.ltb_spec (address p) (address q)),
    (Nat.ltb_spec (address q) (address p)); simpl; try done; lia.
Qed.

Definition at_address (a : nat) : Ptr := mkPtr (Some a) None.
Lemma has_at v a : has v a = Sets.contains ptr_lt v (at_address a).
Proof. by rewrite has_contains. Qed.

(** The sack refines its specification. *)
Record refines (s : Sack) (sp : Spec) : Prop := {
  ref_excl_sorted : Sets.sorted ptr_lt (excludes s);
  ref_incl_sorted : Sets.sorted ptr_lt (includes s);
  ref_items : Forall is_Some (data s);
  ref_data a : existsb (fun i => bool_decide (i = Some a)) (data s) = items sp a;
  ref_excl a : has (excludes s) a = excluded sp a;
  ref_incl a : has (includes s) a = included sp a;
  ref_use : use_includes s = only_included sp;
}.

Lemma set_or_has v w a : Sets.sorted ptr_lt v -> Sets.sorted ptr_lt w -> has (Sets.set_or ptr_lt v w) a = has v a || has w a.
Proof. intros Hv Hw. rewrite !has_at. exact (Sets.set_or_contains ptr_lt v w _ Hv Hw). Qed.
Lemma set_minus_has v w a :
  Sets.sorted ptr_lt v -> Sets.sorted ptr_lt w -> has (Sets.set_minus ptr_lt v w) a = has v a && negb (has w a).
Proof. intros Hv Hw. rewrite !has_at. exact (Sets.set_minus_contains ptr_lt v w _ Hv Hw). Qed.

Lemma do_refines o s sp : op_sets o -> refines s sp -> refines (do o s) (spec_do o sp).
Proof.
  intros Ho [He Hi Hsome Hd Hex Hin Hu]. destruct sp as [it ex inc only]. simpl in *.
  destruct o; simpl in *; split; simpl; try done; intros;
    rewrite ?set_or_has, ?set_minus_has, ?Hex, ?Hin by done; try done.
  - apply Forall_app. split; [done|]. repeat constructor. by eexists.
  - rewrite existsb_app, Hd. simpl. rewrite orb_false_r. f_equal. destruct (Nat.eqb_spec a item); case_bool_decide; congruence.
  - exact (Sets.from_range_sorted ptr_lt _).
  - exact (Sets.from_range_sorted ptr_lt _).
  - exact (Sets.from_range_sorted ptr_lt _).
  - exact (Sets.from_range_sorted ptr_lt _).
Qed.

Lemma add_items_ok s its q :
  Forall is_Some its -> Sets.sorted ptr_lt q -> Forall (fun p => guard p = Some (data_guard s)) q ->
  exists q', add_all s its q = Ok q' /\ Sets.sorted ptr_lt q'
    /\ Forall (fun p => guard p = Some (data_guard s)) q'
    /\ forall a, has q' a = has q a || existsb (fun i => bool_decide (i = Some a)) its.
Proof.
  intros Hits. revert q. induction Hits as [|item its [x ->] _ IH]; intros q Hq Hg; simpl.
  - exists q. split_and!; try done. intros a. by rewrite orb_false_r.
  - destruct (IH (Sets.add ptr_lt (mkPtr (Some x) (Some (data_guard s))) q)) as (q' & -> & Hs & Hg' & Hh).
    + by apply (Sets.insert_sorted ptr_lt).
    + by apply (Sets.insert_forall ptr_lt).
    + exists q'. split_and!; try done. intros a. rewrite Hh, !has_at. unfold Sets.add. rewrite (Sets.insert_contains ptr_lt).
      rewrite (orb_comm (Sets.equivb _ _ _)), <-orb_assoc. f_equal. f_equal.
      unfold Sets.equivb, ptr_lt, at_address, address. simpl.
      destruct (decide (x = a)) as [->|Hne]; [by rewrite Nat.ltb_irrefl, bool_decide_true|].
      rewrite bool_decide_false by congruence. by destruct (Nat.ltb_spec a x), (Nat.ltb_spec x a); try lia.
Qed.

(** C40. Whatever is done to a sack, a query over it is computed, is a sorted
    set, and holds exactly the items that the specification names: those added
    (or, where includes are used, those included) that are not excluded. Its
    pointers are valid when they come from the data. *)
Theorem sack_refines_spec g ops :
  Forall op_sets ops ->
  let s := fold_left (fun s o => do o s) ops (new_sack g) in
  let sp := fold_left (fun s o => spec_do o s) ops spec_new in
  exists q, new_query s = Ok q /\ Sets.sorted ptr_lt q
    /\ (forall a, has q a = spec_query sp a)
    /\ (use_includes s = false -> Forall (fun p => guard p = Some g) q).
Proof.
  intros Hops s sp.
  assert (Hr : refines s sp /\ data_guard s = g).
  { unfold s, sp. assert (H0 : refines (new_sack g) spec_new /\ data_guard (new_sack g) = g)
      by (split; [split; simpl; (done || constructor)|done]).
    revert H0. generalize (new_sack g), spec_new. induction Hops as [|o ops Ho _ IH]; intros s1 sp1 [H1 Hg]; [done|].
    simpl. apply IH. split; [by apply do_refines|by destruct o]. }
  destruct Hr as [[He Hi Hsome Hd Hex Hin Hu] Hg]. unfold new_query, spec_query. rewrite <-Hu.
  assert (Hm : forall q, Sets.sorted ptr_lt q -> exists q', Ok (Sets.set_minus ptr_lt q (excludes s)) = @Ok error _ q'
    /\ Sets.sorted ptr_lt q' /\ (forall a, has q' a = has q a && negb (excluded sp a))
    /\ forall P, Forall P q -> Forall P q').
  { intros q Hq. eexists. split; [done|]. split; [exact (Sets.from_range_sorted ptr_lt _)|]. split.
    - intros a. by rewrite set_minus_has, Hex.
    - intros P HP. by apply (Sets.set_minus_forall ptr_lt). }
  destruct (use_includes s) eqn:Euse; cbn [result_bind].
  - destruct (Hm (includes s) Hi) as (q' & E & Hs & Hh & _). exists q'. split_and!; try done. intros a. by rewrite Hh, Hin.
  - destruct (add_items_ok s (data s) [] Hsome) as (q & -> & Hs & Hgs & Hh); [constructor|constructor|]. cbn [result_bind].
    destruct (Hm q Hs) as (q' & E & Hs' & Hh' & HP). exists q'. split_and!; try done.
    + intros a. by rewrite Hh', Hh, Hd.
    + intros _. apply HP. by rewrite <-Hg.
Qed.
End Sack.

(** ** Concrete runs *)
Module SackExamples.
Import WeakPtr Matches Query Sack.

(** A C locale, patterns without wildcards, and one regular expression. *)
Definition plain : Matching := {|
  FNM_CASEFOLD := 16; FNM_EXTMATCH := 32;
  fnmatch flags p s := if N.testbit flags 4 then bool_decide (lower p = lower s) else bool_decide (p = s);
  regex_compile icase p := if decide (p = lit "(") then None else Some (fun s => bool_decide (s = p));
  tolower_char := to_lower;
|}.
#[local] Existing Instance plain.

(** Items as in the tests of queries: an id and a name, compared by id. *)
Definition item : Type := Z * cstr.
Definition item_lt (x y : item) : bool := (fst x <? fst y)%Z.
#[local] Instance item_lt_strict_weak : StrictWeak item_lt.
Proof. split; unfold item_lt; intros; lia. Qed.
Definition three : list item := [(4%Z, lit "item4"); (6%Z, lit "item6"); (10%Z, lit "Item10")].

Lemma int64_filter_witness :
  In QueryCmp.GTE numeric_ops
  /\ ifilter_int64 fst QueryCmp.GTE 6 three = ([(6%Z, lit "item6"); (10%Z, lit "Item10")], None)
  /\ (exists e, ifilter_int64 fst QueryCmp.GLOB 6 three = (three, Some e)).
Proof.
  assert (Hin : In QueryCmp.GTE numeric_ops) by (vm_compute; tauto). split_and!; [exact Hin| |].
  - rewrite (proj1 (int64_filter fst QueryCmp.GTE 6%Z three) Hin). vm_compute. reflexivity.
  - apply (proj1 (proj2 (int64_filter fst QueryCmp.GLOB 6%Z three))); [vm_compute; tauto| |discriminate].
    intros Hf. vm_compute in Hf. repeat (destruct Hf as [Hf|Hf]; [discriminate|]). exact Hf.
Defined.

Lemma string_filter_witness :
  Sets.sorted item_lt three
  /\ (In (6%Z, lit "item6") (fst (ifilter_string snd QueryCmp.IEXACT (lit "ITEM6") three))
      <-> In (6%Z, lit "item6") three /\ match_string (lit "item6") QueryCmp.IEXACT (lit "ITEM6") = Ok true).
Proof.
  assert (Hs : Sets.sorted item_lt three) by repeat constructor. split; [exact Hs|].
  destruct (string_filter item_lt snd QueryCmp.IEXACT (lit "ITEM6") three Hs) as [_ H].
  change (ifilter_string snd QueryCmp.IEXACT (lit "ITEM6") three) with ([(6%Z, lit "item6")], @None Matches.error) in *.
  exact (H (6%Z, lit "item6")).
Defined.

(** Two names per item: the second has the first value that is tested. *)
Definition names (x : item) : list cstr := if (fst x =? 4)%Z then [] else [snd x].
Lemma vector_filter_exception_witness :
  ifilter_vector_string names QueryCmp.CONTAINS (lit "x") three = (drop 1 three, Some NotImplemented)
  /\ match_string (lit "any") QueryCmp.CONTAINS (lit "x") = Err NotImplemented.
Proof.
  split; [vm_compute; reflexivity|].
  apply (vector_filter_exception names QueryCmp.CONTAINS (lit "x") three (drop 1 three) NotImplemented).
  vm_compute. reflexivity.
Defined.

(** A wrong pattern throws, and nothing is filtered. *)
Example wrong_regex : ifilter_string snd QueryCmp.REGEX (lit "(") three = (three, Some RegexError).
Proof. vm_compute. reflexivity. Qed.
Example wrong_regex_empty : ifilter_string (T:=item) snd QueryCmp.REGEX (lit "(") [] = ([], None).
Proof. reflexivity. Qed.
(** With several patterns, "not equal" means not equal to one of them. *)
Example neq_of_two : match_int64_patterns 4 QueryCmp.NEQ [4; 6]%Z = Ok true.
Proof. reflexivity. Qed.
(** An operator of combined flags that has no name matches nothing, and does
    not throw: NOT_REGEX. *)
Example not_regex : match_string (lit "a") (QueryCmp.or QueryCmp.NOT QueryCmp.REGEX) (lit "b") = Ok false.
Proof. reflexivity. Qed.
(** A flag that is not set cannot be taken away. *)
Example minus_unset_flag : QueryCmp.minus QueryCmp.EQ QueryCmp.ICASE = 254%N.
Proof. reflexivity. Qed.

Definition ops : list op :=
  [AddItem 30; AddItem 10; AddItem 20; AddExcludes [mkPtr (Some 20) None]; SetUseIncludes false].
Lemma sack_refines_spec_witness :
  Forall op_sets ops
  /\ exists q, new_query (fold_left (fun s o => do o s) ops (new_sack 7)) = Ok q
     /\ (has q 20 = false /\ has q 30 = true) /\ Forall (fun p => guard p = Some 7) q.
Proof.
  assert (Hops : Forall op_sets ops) by (repeat constructor). split; [exact Hops|].
  destruct (sack_refines_spec 7 ops Hops) as (q & E & _ & Hq & Hg). exists q.
  split; [exact E|]. split; [split; apply Hq|apply Hg; reflexivity].
Defined.
(** An item that is null is stored, and every query throws from then on. *)
Example null_item : new_query (add_item None (new_sack 7)) = Err InvalidPtr.
Proof. reflexivity. Qed.
End SackExamples.
