(* ===== verification/Solv.v ===== *)
(** * Solv: bit maps, queues and their iterators ([rpm/solv])

    libsolv's [Map] is an array of bytes, of which the sources read the bytes
    themselves; its [Queue] is an array of ids. What the sources do with them
    through libsolv is the class [Libsolv], with the documented effect of each
    call as its laws [LibsolvLaws]. *)

From S2P Require Import Prelude.
From stdpp Require Import sorting.
Local Open Scope Z_scope.

(** The bytes of a [Map], and the ids of a [Queue]. *)
Notation Map := (list Z).
Notation Queue := (list Z).

(** Bit [n] of a map, false outside. *)
Definition bit (m : Map) (n : Z) : bool :=
  match m !! Z.to_nat (n / 8) with Some b => (0 <=? n) && Z.testbit b (n mod 8) | None => false end.
Definition bits (m : Map) : Z := 8 * Z.of_nat (length m).
Definition bytes_ok (m : Map) : Prop := Forall (fun b => 0 <= b < 256) m.

Class Libsolv := {
  map_init : Z -> Map;
  MAPSET : Map -> Z -> Map;
  MAPCLR : Map -> Z -> Map;
  MAPTST : Map -> Z -> bool;
  map_empty : Map -> Map;
  map_or : Map -> Map -> Map;
  map_subtract : Map -> Map -> Map;
  map_and : Map -> Map -> Map;
  queue_push : Queue -> Z -> Queue;
  queue_push2 : Queue -> Z -> Z -> Queue;
  queue_empty : Queue -> Queue;
  queue_insertn : Queue -> Z -> Queue -> Queue;
}.

Class LibsolvLaws `(Libsolv) : Prop := {
  map_init_spec n : 0 <= n -> map_init n = repeat 0 (Z.to_nat ((n + 7) / 8));
  mapset_spec m n k : bytes_ok m -> 0 <= n < bits m ->
    bytes_ok (MAPSET m n) /\ bits (MAPSET m n) = bits m /\ bit (MAPSET m n) k = (k =? n) || bit m k;
  mapclr_spec m n k : bytes_ok m -> 0 <= n < bits m ->
    bytes_ok (MAPCLR m n) /\ bits (MAPCLR m n) = bits m /\ bit (MAPCLR m n) k = negb (k =? n) && bit m k;
  maptst_spec m n : bytes_ok m -> 0 <= n < bits m -> MAPTST m n = bit m n;
  map_empty_spec m : map_empty m = repeat 0 (length m);
  map_or_spec m o k : bytes_ok m -> bytes_ok o ->
    bytes_ok (map_or m o) /\ bits (map_or m o) = Z.max (bits m) (bits o) /\ bit (map_or m o) k = bit m k || bit o k;
  map_subtract_spec m o k : bytes_ok m -> bytes_ok o ->
    bytes_ok (map_subtract m o) /\ bits (map_subtract m o) = bits m
    /\ bit (map_subtract m o) k = bit m k && negb (bit o k);
  map_and_spec m o k : bytes_ok m -> bytes_ok o ->
    bytes_ok (map_and m o) /\ bits (map_and m o) = bits m
    /\ ((bit m k = true -> k < bits o) -> bit (map_and m o) k = bit m k && bit o k);
  queue_push_spec q x : queue_push q x = q ++ [x];
  queue_push2_spec q x y : queue_push2 q x y = q ++ [x; y];
  queue_empty_spec q : queue_empty q = [];
  queue_insertn_end q p : queue_insertn q (Z.of_nat (length q)) p = q ++ p;
}.

(** ** [SolvMapIterator] *)
Module MapIterator.

Definition BEGIN : Z := -1.
Definition END : Z := -2.
(** [map_current] as an index into the map; [map_end] is the map's size. *)
Record iterator := mkIt { map : Map; map_current : nat; current_value : Z }.

(** [ffs]: one plus the index of the least bit of an [int], 0 for 0. *)
Fixpoint ffs_pos (p : positive) : Z :=
  match p with xO p => 1 + ffs_pos p | _ => 1 end.
Definition ffs (n : Z) : Z := match n with Zpos p => ffs_pos p | _ => 0 end.

(** The search in the bytes from [cur] on: those that are 0 are skipped. *)
Fixpoint scan (m : Map) (cur : nat) (rest : list Z) : iterator :=
  match rest with
  | [] => mkIt m cur END
  | b :: rest => if b =? 0 then scan m (S cur) rest else mkIt m cur (Z.shiftl (Z.of_nat cur) 3 + ffs b - 1)
  end.
Definition scan_from (m : Map) (cur : nat) : iterator := scan m cur (drop cur m).

(** [operator++]; [None] is a read outside of the map. *)
Definition incr (it : iterator) : option iterator :=
  let '(mkIt m cur v) := it in
  if 0 <=? v then
    match m !! cur with
    | None => None
    | Some byte =>
        let s := Z.land v 7 + 1 in
        let bit := ffs (Z.shiftl (wrap 8 (Z.shiftr byte s)) s) in
        if bit =? 0 then Some (scan_from m (S cur))
        else Some (mkIt m cur (Z.shiftl (Z.of_nat cur) 3 + bit - 1))
    end
  else Some (scan_from m cur).

(** The constructor, [begin] and [end]. *)
Definition make (m : Map) : option iterator := incr (mkIt m 0 BEGIN).
Definition rewind (it : iterator) : option iterator := incr (mkIt (map it) (map_current it) BEGIN).
Definition to_end (it : iterator) : iterator := mkIt (map it) (map_current it) END.
Definition eqb (it other : iterator) : bool := current_value it =? current_value other.

(** ** The ids of a map *)

Definition byte_bits (b : Z) : list Z := List.filter (Z.testbit b) [0; 1; 2; 3; 4; 5; 6; 7].
Fixpoint ids_from (i : Z) (m : Map) : list Z :=
  match m with
  | [] => []
  | b :: m => List.map (fun j => 8 * i + j) (byte_bits b) ++ ids_from (i + 1) m
  end.
Definition ids (m : Map) : list Z := ids_from 0 m.

(** A property of bytes is checked on all 256 of them. *)
Definition all_bytes : list Z := List.map Z.of_nat (seq 0 256).
Lemma byte_check (P : Z -> bool) b : forallb P all_bytes = true -> 0 <= b < 256 -> P b = true.
Proof.
  intros H Hb. rewrite forallb_forall in H. apply H. unfold all_bytes. apply in_map_iff.
  exists (Z.to_nat b). split; [lia|]. apply in_seq. lia.
Qed.

Definition first_or_zero (l : list Z) : Z := match l with [] => 0 | j :: _ => j + 1 end.

Lemma ffs_byte b : 0 <= b < 256 -> ffs b = first_or_zero (byte_bits b).
Proof.
  intros Hb. apply Z.eqb_eq. apply (byte_check (fun b => ffs b =? first_or_zero (byte_bits b))); [|done].
  vm_compute. reflexivity.
Qed.

Lemma ffs_after b k : 0 <= b < 256 -> 0 <= k < 8 ->
  ffs (Z.shiftl (wrap 8 (Z.shiftr b (k + 1))) (k + 1)) = first_or_zero (List.filter (Z.ltb k) (byte_bits b)).
Proof.
  intros Hb Hk. apply Z.eqb_eq.
  assert (H : forallb (fun k => ffs (Z.shiftl (wrap 8 (Z.shiftr b (k + 1))) (k + 1))
                         =? first_or_zero (List.filter (Z.ltb k) (byte_bits b))) [0;1;2;3;4;5;6;7] = true).
  { apply (byte_check (fun b => forallb (fun k => ffs (Z.shiftl (wrap 8 (Z.shiftr b (k + 1))) (k + 1))
                         =? first_or_zero (List.filter (Z.ltb k) (byte_bits b))) [0;1;2;3;4;5;6;7])); [|done].
    vm_compute. reflexivity. }
  rewrite forallb_forall in H. apply H. simpl. lia.
Qed.

Lemma byte_bits_nil b : 0 <= b < 256 -> byte_bits b = [] <-> b = 0.
Proof.
  intros Hb. assert (H : (match byte_bits b with [] => b =? 0 | _ => negb (b =? 0) end) = true).
  { apply (byte_check (fun b => match byte_bits b with [] => b =? 0 | _ => negb (b =? 0) end)); [|done].
    vm_compute. reflexivity. }
  destruct (byte_bits b); destruct (Z.eqb_spec b 0); done.
Qed.

Lemma byte_bits_range b j : In j (byte_bits b) -> 0 <= j < 8.
Proof. intros [H _]%List.filter_In. simpl in H. lia. Qed.

Lemma byte_bits_in b j : In j (byte_bits b) <-> 0 <= j < 8 /\ Z.testbit b j = true.
Proof.
  unfold byte_bits. rewrite List.filter_In. simpl. intuition lia.
Qed.

Lemma byte_bits_sorted b : StronglySorted Z.lt (byte_bits b).
Proof.
  unfold byte_bits. assert (H : StronglySorted Z.lt [0; 1; 2; 3; 4; 5; 6; 7]) by (repeat constructor).
  revert H. generalize [0; 1; 2; 3; 4; 5; 6; 7]. induction l as [|x l IH]; intros H; [constructor|].
  apply StronglySorted_inv in H as [H1 H2]. simpl. destruct (Z.testbit b x); [|by apply IH].
  constructor; [by apply IH|]. apply List.Forall_forall. intros y [Hy _]%List.filter_In.
  by eapply List.Forall_forall in H2.
Qed.

(** The bits of a byte come in order: those after the first are the greater ones. *)
Lemma byte_bits_after b k : 0 <= b < 256 -> forall pre post, byte_bits b = pre ++ k :: post ->
  List.filter (Z.ltb k) (byte_bits b) = post.
Proof.
  intros _. pose proof (byte_bits_sorted b) as Hs.
  intros pre post E. rewrite E in *. clear E. induction pre as [|x pre IH]; simpl in *.
  - rewrite Z.ltb_irrefl. apply StronglySorted_inv in Hs as [_ H]. induction H as [|y l Hy _ IH]; [done|].
    simpl. rewrite (proj2 (Z.ltb_lt k y) Hy). by rewrite IH.
  - apply StronglySorted_inv in Hs as [H1 H2]. rewrite Forall_app in H2. destruct H2 as [_ H2].
    inversion H2; subst. destruct (Z.ltb_spec k x); [lia|]. by apply IH.
Qed.

(** ** The iterator points into the list of ids *)

(** [l] is what is still to come, from the iterator's value on. *)
Definition points (it : iterator) (l : list Z) : Prop :=
  match l with
  | [] => current_value it = END
  | v :: _ =>
      current_value it = v /\ exists b pre k post,
        map it !! map_current it = Some b /\ byte_bits b = pre ++ k :: post /\ v = 8 * Z.of_nat (map_current it) + k
        /\ l = List.map (fun j => 8 * Z.of_nat (map_current it) + j) (k :: post)
               ++ ids_from (Z.of_nat (map_current it) + 1) (drop (S (map_current it)) (map it))
  end.

Lemma scan_points m cur rest :
  bytes_ok m -> drop cur m = rest -> points (scan m cur rest) (ids_from (Z.of_nat cur) rest) /\ map (scan m cur rest) = m.
Proof.
  intros Hm. revert cur. induction rest as [|b rest IH]; intros cur Hd; [done|]. simpl.
  assert (Hb : m !! cur = Some b) by (pose proof (lookup_drop m cur 0) as H; rewrite Hd, Nat.add_0_r in H; done).
  assert (Hrange : 0 <= b < 256) by (by eapply Forall_lookup_1 in Hm).
  assert (Hd' : drop (S cur) m = rest).
  { rewrite <-Nat.add_1_r, <-drop_drop, Hd. done. }
  destruct (Z.eqb_spec b 0) as [->|Hnz].
  - simpl. replace (Z.of_nat cur + 1) with (Z.of_nat (S cur)) by lia. by apply IH.
  - destruct (byte_bits b) as [|k post] eqn:E; [by apply byte_bits_nil in E|].
    assert (Hv : Z.shiftl (Z.of_nat cur) 3 + ffs b - 1 = 8 * Z.of_nat cur + k).
    { rewrite (ffs_byte b Hrange), E, Z.shiftl_mul_pow2 by lia. simpl. lia. }
    split; [|done]. simpl. split; [exact Hv|]. exists b, [], k, post. split_and!; [done|done|done|].
    by rewrite Hd'.
Qed.

Lemma land_7 a k : 0 <= k < 8 -> Z.land (8 * a + k) 7 = k.
Proof.
  intros Hk. change 7 with (Z.ones 3). rewrite Z.land_ones by lia. change (2 ^ 3) with 8.
  replace (8 * a + k) with (k + a * 8) by lia. rewrite Z.mod_add by lia. by apply Z.mod_small.
Qed.

Lemma incr_points it v l :
  bytes_ok (map it) -> points it (v :: l) -> exists it', incr it = Some it' /\ points it' l /\ map it' = map it.
Proof.
  destruct it as [m cur v']. intros Hm (Hv & b & pre & k & post & Hb & E & -> & Hl). simpl in *. subst v'.
  assert (Hk : 0 <= k < 8) by (apply (byte_bits_range b); rewrite E; apply in_app_iff; right; by left).
  assert (Hrange : 0 <= b < 256) by (by eapply Forall_lookup_1 in Hm).
  destruct (Z.leb_spec 0 (8 * Z.of_nat cur + k)); [|lia]. rewrite Hb, land_7, ffs_after by done.
  rewrite (byte_bits_after b k Hrange pre post E). injection Hl as ->.
  destruct post as [|k2 post]; simpl.
  - eexists. split; [done|]. destruct (scan_points m (S cur) _ Hm eq_refl) as [H1 H2].
    replace (Z.of_nat cur + 1) with (Z.of_nat (S cur)) by lia. split; [exact H1|exact H2].
  - assert (Hk2 : 0 <= k2 < 8) by (apply (byte_bits_range b); rewrite E; apply in_app_iff; right; right; by left).
    destruct (Z.eqb_spec (k2 + 1) 0); [lia|]. eexists. split; [done|]. split; [|done]. simpl.
    rewrite Z.shiftl_mul_pow2 by lia. split; [lia|]. exists b, (pre ++ [k]), k2, post.
    split_and!; [done|by rewrite <-app_assoc|done|done].
Qed.

(** ** Loops *)

(** [for (auto it = begin; it != end; ++it)]: the values seen. [None] is a read
    outside of the map, or the end of the fuel. *)
Fixpoint loop (fuel : nat) (it : iterator) : option (list Z) :=
  if current_value it =? END then Some []
  else match fuel with
       | O => None
       | S fuel =>
           match incr it with
           | None => None
           | Some it' => match loop fuel it' with Some l => Some (current_value it :: l) | None => None end
           end
       end.
Definition iterate (m : Map) : option (list Z) :=
  match make m with Some it => loop (8 * length m) it | None => None end.

Lemma points_nonneg it v l : points it (v :: l) -> current_value it <> END.
Proof.
  intros (Hv & b & pre & k & post & Hb & E & -> & _). rewrite Hv.
  assert (Hk : 0 <= k < 8) by (apply (byte_bits_range b); rewrite E; apply in_app_iff; right; by left).
  unfold END. lia.
Qed.

Lemma loop_points fuel it l :
  bytes_ok (map it) -> points it l -> (length l <= fuel)%nat -> loop fuel it = Some l.
Proof.
  revert it l. induction fuel as [|fuel IH]; intros it l Hm Hp Hl.
  - destruct l; [|simpl in Hl; lia]. simpl in *. by rewrite Hp.
  - destruct l as [|v l]; [simpl in *; by rewrite Hp|].
    pose proof (points_nonneg _ _ _ Hp) as Hne. simpl. rewrite (proj2 (Z.eqb_neq _ _) Hne).
    destruct (incr_points it v l Hm Hp) as (it' & -> & Hp' & Hm'). rewrite (IH it' l); [|by rewrite Hm'|done|simpl in Hl; lia].
    by destruct Hp as [-> _].
Qed.

Lemma ids_from_length i m : (length (ids_from i m) <= 8 * length m)%nat.
Proof.
  revert i. induction m as [|b m IH]; intros i; simpl; [lia|]. rewrite length_app, length_map. specialize (IH (i + 1)).
  assert (length (byte_bits b) <= 8)%nat; [|lia]. unfold byte_bits. etransitivity; [apply List.filter_length_le|]. simpl. lia.
Qed.

Lemma iterate_ids m : bytes_ok m -> iterate m = Some (ids m).
Proof.
  intros Hm. unfold iterate, make. simpl. destruct (scan_points m 0 m Hm eq_refl) as [H1 H2].
  unfold scan_from. rewrite drop_0. apply loop_points; [by rewrite H2|exact H1|apply ids_from_length].
Qed.

Lemma ids_from_in i m n :
  0 <= i -> In n (ids_from i m) <-> 8 * i <= n /\ bit m (n - 8 * i) = true.
Proof.
  revert i. induction m as [|b m IH]; intros i Hi; simpl; [split; [done|intros [_ ?]; done]|].
  rewrite in_app_iff, in_map_iff, IH by lia. unfold bit. setoid_rewrite byte_bits_in.
  destruct (Z.lt_ge_cases (n - 8 * i) 0) as [Hlt|Hge]; [split; intros H; exfalso|].
  - destruct H as [(j & ? & ? & _)|[? _]]; lia.
  - lia.
  - destruct (Z.lt_ge_cases (n - 8 * i) 8) as [Hlt8|Hge8].
    + rewrite (Z.div_small (n - 8 * i)), (Z.mod_small (n - 8 * i)) by lia. simpl. rewrite (proj2 (Z.leb_le 0 (n - 8 * i)) Hge). simpl. split.
      * intros [(j & <- & _ & Hj)|[? _]]; [|lia]. split; [lia|]. replace (8 * i + j - 8 * i) with j by lia. done.
      * intros [_ Hb]. left. exists (n - 8 * i). split_and!; [lia|lia|lia|done].
    + assert (E1 : (n - 8 * i) / 8 = 1 + (n - 8 * (i + 1)) / 8)
        by (rewrite <-Z.div_add_l by lia; f_equal; lia).
      assert (E2 : (n - 8 * i) mod 8 = (n - 8 * (i + 1)) mod 8).
      { replace (n - 8 * i) with (n - 8 * (i + 1) + 1 * 8) by lia. by rewrite Z.mod_add. }
      assert (Hq : 0 <= (n - 8 * (i + 1)) / 8) by (apply Z.div_pos; lia).
      rewrite E1, E2. replace (Z.to_nat (1 + (n - 8 * (i + 1)) / 8)) with (S (Z.to_nat ((n - 8 * (i + 1)) / 8))) by lia.
      simpl. rewrite (proj2 (Z.leb_le 0 (n - 8 * i)) Hge), (proj2 (Z.leb_le 0 (n - 8 * (i + 1)))) by lia. split.
      * intros [(j & <- & ? & _)|[? ?]]; [lia|]. split; [lia|done].
      * intros [_ Hb]. right. split; [lia|done].
Qed.

Lemma ids_from_sorted i m : 0 <= i -> StronglySorted Z.lt (ids_from i m).
Proof.
  revert i. induction m as [|b m IH]; intros i Hi; simpl; [constructor|].
  assert (Hrest : Forall (fun n => 8 * i + 8 <= n) (ids_from (i + 1) m)).
  { apply List.Forall_forall. intros n Hn. apply ids_from_in in Hn; lia. }
  pose proof (byte_bits_sorted b) as Hs.
  assert (Hr : Forall (fun j => 0 <= j < 8) (byte_bits b)) by (apply List.Forall_forall; apply byte_bits_range).
  induction Hs as [|j l _ IHs Hl]; simpl; [apply IH; lia|]. inversion Hr; subst.
  constructor; [by apply IHs|]. apply Forall_app. split.
  - apply List.Forall_map. eapply Forall_impl; [exact Hl|]. simpl. intros; lia.
  - eapply Forall_impl; [exact Hrest|]. simpl. intros; lia.
Qed.
End MapIterator.

(** ** [SolvMap] ([solv_map.hpp]), and [PackageSet] on top of it *)
Module SolvMap.
Section map.
Context `{Libsolv}.

(** [std::out_of_range]. *)
Inductive error := OutOfRange.

Definition B2 (n : Z) : list Z := [n; n + 1; n + 1; n + 2].
Definition B4 (n : Z) : list Z := B2 n ++ B2 (n + 1) ++ B2 (n + 1) ++ B2 (n + 2).
Definition B6 (n : Z) : list Z := B4 n ++ B4 (n + 1) ++ B4 (n + 1) ++ B4 (n + 2).
Definition BIT_COUNT_LOOKUP : list Z := B6 0 ++ B6 1 ++ B6 1 ++ B6 2.

Definition make (size : Z) : Map := map_init size.
Definition in_range (m : Map) (id : Z) : bool := negb ((id <? 0) || (Z.shiftl (Z.of_nat (length m)) 3 <=? id)).
Definition check_id_in_bitmap_range (m : Map) (id : Z) : result error unit :=
  if (id <? 0) || (Z.shiftl (Z.of_nat (length m)) 3 <=? id) then Err OutOfRange else Ok tt.
Definition add_unsafe (m : Map) (id : Z) : Map := MAPSET m id.
Definition contains_unsafe (m : Map) (id : Z) : bool := MAPTST m id.
Definition remove_unsafe (m : Map) (id : Z) : Map := MAPCLR m id.
Definition add (m : Map) (id : Z) : result error Map :=
  let* _ := check_id_in_bitmap_range m id in Ok (add_unsafe m id).
Definition contains (m : Map) (id : Z) : bool :=
  if (id <? 0) || (Z.shiftl (Z.of_nat (length m)) 3 <=? id) then false else contains_unsafe m id.
Definition remove (m : Map) (id : Z) : result error Map :=
  let* _ := check_id_in_bitmap_range m id in Ok (remove_unsafe m id).

Fixpoint empty (m : Map) : bool :=
  match m with [] => true | byte :: m => if byte =? 0 then empty m else false end.
(** The sum is a [size_t]; a byte outside of the table is impossible. *)
Definition size (m : Map) : Z :=
  fold_left (fun result byte => size_wrap (result + nth (Z.to_nat byte) BIT_COUNT_LOOKUP 0)) m 0.
Definition clear (m : Map) : Map := map_empty m.

Definition or_with (m other : Map) : Map := map_or m other.
Definition minus_with (m other : Map) : Map := map_subtract m other.
Definition and_with (m other : Map) : Map := map_and m other.

(** ** Lemmas *)
Context `{!LibsolvLaws _}.

Lemma shiftl_bits m : Z.shiftl (Z.of_nat (length m)) 3 = bits m.
Proof. rewrite Z.shiftl_mul_pow2 by lia. unfold bits. lia. Qed.

Lemma bit_outside m n : n < 0 \/ bits m <= n -> bit m n = false.
Proof.
  unfold bit, bits. intros Hn. destruct (m !! Z.to_nat (n / 8)) as [b|] eqn:E; [|done].
  destruct (Z.leb_spec 0 n); [|done]. apply lookup_lt_Some in E.
  assert (n / 8 < Z.of_nat (length m)); [|].
  { assert (0 <= n / 8) by (apply Z.div_pos; lia). lia. }
  destruct Hn; [lia|]. pose proof (Z.div_le_lower_bound n 8 (Z.of_nat (length m))). lia.
Qed.

Lemma contains_bit m n : bytes_ok m -> contains m n = bit m n.
Proof.
  intros Hm. unfold contains. rewrite shiftl_bits. destruct (Z.ltb_spec n 0), (Z.leb_spec (bits m) n); simpl;
    rewrite ?bit_outside by lia; try done. apply maptst_spec; [done|lia].
Qed.

Lemma check_ok m n : check_id_in_bitmap_range m n = if bool_decide (0 <= n < bits m) then Ok tt else Err OutOfRange.
Proof.
  unfold check_id_in_bitmap_range. rewrite shiftl_bits.
  destruct (Z.ltb_spec n 0), (Z.leb_spec (bits m) n); simpl; case_bool_decide; try done; lia.
Qed.

Lemma empty_spec m : bytes_ok m -> empty m = true <-> forall n, bit m n = false.
Proof.
  intros Hm. assert (He : empty m = true <-> MapIterator.ids m = []).
  { unfold MapIterator.ids. generalize 0. induction Hm as [|b m Hb _ IH]; intros i; [done|]. simpl.
    destruct (Z.eqb_spec b 0) as [->|Hne]; [apply IH|]. split; [done|].
    destruct (MapIterator.byte_bits b) eqn:E; [|done]. by apply MapIterator.byte_bits_nil in E. }
  rewrite He. split.
  - intros Hnil n. destruct (bit m n) eqn:E; [|done]. exfalso.
    assert (Hin : In n (MapIterator.ids m)); [|by rewrite Hnil in Hin].
    apply MapIterator.ids_from_in; [lia|]. rewrite Z.sub_0_r. split; [|done].
    destruct (Z.lt_ge_cases n 0); [|lia]. by rewrite bit_outside in E by lia.
  - intros Hb. destruct (MapIterator.ids m) as [|n l] eqn:E; [done|].
    assert (Hin : In n (MapIterator.ids m)) by (rewrite E; by left).
    apply MapIterator.ids_from_in in Hin as [_ Hn]; [|lia]. by rewrite Hb in Hn.
Qed.

Lemma lookup_count b :
  0 <= b < 256 -> nth (Z.to_nat b) BIT_COUNT_LOOKUP 0 = Z.of_nat (length (MapIterator.byte_bits b)).
Proof.
  intros Hb. apply Z.eqb_eq.
  apply (MapIterator.byte_check (fun b => nth (Z.to_nat b) BIT_COUNT_LOOKUP 0 =? Z.of_nat (length (MapIterator.byte_bits b)))); [|done].
  vm_compute. reflexivity.
Qed.

Lemma size_ids m : bytes_ok m -> bits m < 2 ^ 64 -> size m = Z.of_nat (length (MapIterator.ids m)).
Proof.
  unfold size, MapIterator.ids. intros Hm Hsize.
  assert (Hgen : forall i n, 0 <= n -> n + bits m < 2 ^ 64 ->
    fold_left (fun result byte => size_wrap (result + nth (Z.to_nat byte) BIT_COUNT_LOOKUP 0)) m n
    = n + Z.of_nat (length (MapIterator.ids_from i m))); [|by rewrite (Hgen 0) by lia].
  clear Hsize. induction Hm as [|b m Hb _ IH]; intros i n Hn Hs; cbn [fold_left MapIterator.ids_from]; [simpl; lia|].
  unfold bits in *. cbn [length] in Hs. rewrite lookup_count by done.
  assert (Hlen : (length (MapIterator.byte_bits b) <= 8)%nat).
  { unfold MapIterator.byte_bits. etransitivity; [apply List.filter_length_le|]. simpl. lia. }
  rewrite size_wrap_small by lia. rewrite (IH (i + 1)) by lia. rewrite length_app, length_map. lia.
Qed.

(** The iterator of a map visits exactly the ids in it, each once and in
    increasing order, never reads outside of the map and reaches the end; the
    number of visits is [size], and [empty] tells whether there is none. *)
Theorem iteration_lists_ids m :
  bytes_ok m -> bits m < 2 ^ 31 ->
  exists l, MapIterator.iterate m = Some l /\ StronglySorted Z.lt l
  /\ (forall id, In id l <-> contains m id = true)
  /\ size m = Z.of_nat (length l) /\ (empty m = true <-> l = []).
Proof.
  intros Hm Hb. exists (MapIterator.ids m). split_and!.
  - by apply MapIterator.iterate_ids.
  - by apply MapIterator.ids_from_sorted.
  - intros id. unfold MapIterator.ids. rewrite MapIterator.ids_from_in, contains_bit, Z.sub_0_r by (done || lia).
    split; [tauto|]. intros Hid. split; [|done]. destruct (Z.lt_ge_cases id 0); [|lia]. by rewrite bit_outside in Hid by lia.
  - apply size_ids; [done|lia].
  - rewrite empty_spec by done. split.
    + intros Hn. destruct (MapIterator.ids m) as [|n l] eqn:E; [done|].
      assert (Hin : In n (MapIterator.ids m)) by (rewrite E; by left).
      apply MapIterator.ids_from_in in Hin as [_ Hin]; [|lia]. by rewrite Hn in Hin.
    + intros Hnil n. destruct (bit m n) eqn:E; [|done]. exfalso.
      assert (Hin : In n (MapIterator.ids m)); [|by rewrite Hnil in Hin].
      apply MapIterator.ids_from_in; [lia|]. rewrite Z.sub_0_r. split; [|done].
      destruct (Z.lt_ge_cases n 0); [|lia]. by rewrite bit_outside in E by lia.
Qed.

(** Bounds: an id outside of the map is never contained, and adding or
    removing it throws; inside, [add] and [remove] change exactly that id and
    nothing of the map's size. The operators are union, difference and
    intersection, and only the union can make the map larger; the intersection
    is asked about ids that the other map has room for. *)
Theorem map_operations m other id :
  bytes_ok m -> bytes_ok other ->
  (id < 0 \/ bits m <= id -> contains m id = false /\ add m id = Err OutOfRange /\ remove m id = Err OutOfRange)
  /\ (0 <= id < bits m ->
      exists a r, add m id = Ok a /\ remove m id = Ok r /\ bits a = bits m /\ bits r = bits m
      /\ forall k, contains a k = (k =? id) || contains m k /\ contains r k = negb (k =? id) && contains m k)
  /\ (forall k, contains (or_with m other) k = contains m k || contains other k)
  /\ (forall k, contains (minus_with m other) k = contains m k && negb (contains other k))
  /\ (forall k, (contains m k = true -> k < bits other) -> contains (and_with m other) k = contains m k && contains other k)
  /\ bits (or_with m other) = Z.max (bits m) (bits other)
  /\ bits (minus_with m other) = bits m /\ bits (and_with m other) = bits m.
Proof.
  intros Hm Ho. unfold or_with, minus_with, and_with. split_and!.
  - intros Hout. rewrite contains_bit, bit_outside by done. unfold add, remove. rewrite check_ok, bool_decide_false by lia. done.
  - intros Hin. unfold add, remove, add_unsafe, remove_unsafe. rewrite check_ok, bool_decide_true by done. cbn [result_bind].
    exists (MAPSET m id), (MAPCLR m id).
    destruct (mapset_spec m id 0 Hm Hin) as (H1 & H2 & _), (mapclr_spec m id 0 Hm Hin) as (H3 & H4 & _).
    split_and!; [done..|]. intros k. rewrite !contains_bit by done. split; [by apply mapset_spec|by apply mapclr_spec].
  - intros k. rewrite !contains_bit by (done || by apply (map_or_spec m other 0)). by apply map_or_spec.
  - intros k. rewrite !contains_bit by (done || by apply (map_subtract_spec m other 0)). by apply map_subtract_spec.
  - intros k. rewrite !contains_bit by (done || by apply (map_and_spec m other 0)). by apply map_and_spec.
  - by apply (map_or_spec m other 0).
  - by apply (map_subtract_spec m other 0).
  - by apply (map_and_spec m other 0).
Qed.
End map.
End SolvMap.

(** ** [IdQueue] ([id_queue.hpp], [queue_iterator.hpp]), and [ReldepList] on top of it *)
Module IdQueue.
Section queue.
Context `{Libsolv}.

Definition size (q : Queue) : Z := Z.of_nat (length q).
Definition empty (q : Queue) : bool := size q =? 0.
(** [None] outside of the queue. *)
Definition at_index (q : Queue) (i : Z) : option Z := if i <? 0 then None else q !! Z.to_nat i.

(** [operator==]: the loop from index [i], with [n] indexes to go. *)
Fixpoint eq_loop (q other : Queue) (i : Z) (n : nat) : bool :=
  match n with
  | O => true
  | S n => if bool_decide (at_index q i = at_index other i) then eq_loop q other (i + 1) n else false
  end.
Definition eqb (q other : Queue) : bool :=
  if negb (size q =? size other) then false else eq_loop q other 0 (length q).

Definition push_back (q : Queue) (id : Z) : Queue := queue_push q id.
Definition push_back2 (q : Queue) (id1 id2 : Z) : Queue := queue_push2 q id1 id2.
Definition clear (q : Queue) : Queue := queue_empty q.
Definition append (q src : Queue) : Queue := queue_insertn q (size q) src.
(** The assignment of another queue. *)
Definition assign (q src : Queue) : Queue := append (queue_empty q) src.

Definition END : Z := -2.
Record iterator := mkIt { queue : Queue; current_index : Z; current_value : Z }.
(** [None] is a read outside of the queue. *)
Definition incr (it : iterator) : option iterator :=
  let i := current_index it + 1 in
  if size (queue it) <=? i then Some (mkIt (queue it) i END)
  else match at_index (queue it) i with Some v => Some (mkIt (queue it) i v) | None => None end.
Definition begin_it (q : Queue) : option iterator := incr (mkIt q (-1) 0).
Definition end_it (q : Queue) : iterator := mkIt q (size q) END.
Definition it_eqb (it other : iterator) : bool := current_index it =? current_index other.

Fixpoint loop (fuel : nat) (it : iterator) : option (list Z) :=
  if it_eqb it (end_it (queue it)) then Some []
  else match fuel with
       | O => None
       | S fuel => match incr it with
                   | None => None
                   | Some it' => match loop fuel it' with Some l => Some (current_value it :: l) | None => None end
                   end
       end.
Definition iterate (q : Queue) : option (list Z) :=
  match begin_it q with Some it => loop (length q) it | None => None end.

(** ** Lemmas *)

Lemma at_index_nat q i : at_index q (Z.of_nat i) = q !! i.
Proof. unfold at_index. destruct (Z.ltb_spec (Z.of_nat i) 0); [lia|]. by rewrite Nat2Z.id. Qed.

Lemma eq_loop_spec q other i n :
  eq_loop q other (Z.of_nat i) n = true <-> forall k, (i <= k < i + n)%nat -> q !! k = other !! k.
Proof.
  revert i. induction n as [|n IH]; intros i; simpl; [split; [intros; lia|done]|].
  rewrite !at_index_nat. case_bool_decide as E.
  - replace (Z.of_nat i + 1) with (Z.of_nat (S i)) by lia. rewrite IH. split; intros Hk k Hr.
    + destruct (decide (k = i)) as [->|]; [done|]. apply Hk. lia.
    + apply Hk. lia.
  - split; [done|]. intros Hk. exfalso. apply E, Hk. lia.
Qed.

Lemma incr_at q i v : q !! S i = Some v -> incr (mkIt q (Z.of_nat i) 0) = Some (mkIt q (Z.of_nat (S i)) v).
Proof.
  intros Hv. unfold incr. cbn [current_index queue]. replace (Z.of_nat i + 1) with (Z.of_nat (S i)) by lia.
  apply lookup_lt_Some in Hv as Hlt. destruct (Z.leb_spec (size q) (Z.of_nat (S i))); [unfold size in *; lia|].
  by rewrite at_index_nat, Hv.
Qed.

Lemma loop_spec q i v fuel :
  q !! i = Some v -> (length q <= i + fuel)%nat -> loop fuel (mkIt q (Z.of_nat i) v) = Some (drop i q).
Proof.
  revert i v. induction fuel as [|fuel IH]; intros i v Hi Hf; pose proof (lookup_lt_Some _ _ _ Hi) as Hlt; [lia|].
  simpl. unfold it_eqb. simpl. destruct (Z.eqb_spec (Z.of_nat i) (size q)); [unfold size in *; lia|].
  unfold incr. cbn [current_index queue]. replace (Z.of_nat i + 1) with (Z.of_nat (S i)) by lia.
  rewrite at_index_nat. rewrite (drop_S q v i Hi). destruct (Z.leb_spec (size q) (Z.of_nat (S i))) as [Hle|Hgt].
  - unfold size in Hle. rewrite (drop_ge q (S i)) by lia.
    assert (He : (Z.of_nat (S i) =? Z.of_nat (length q)) = true) by (apply Z.eqb_eq; lia).
    by destruct fuel; cbn [loop]; unfold it_eqb, end_it, size; cbn [current_index queue]; rewrite He.
  - destruct (q !! S i) as [v'|] eqn:E; [cbv iota beta; by rewrite (IH _ _ E) by lia|].
    apply lookup_ge_None in E. unfold size in Hgt. lia.
Qed.

Context `{!LibsolvLaws _}.

(** A queue is a list: pushing and appending add at the end, assignment
    copies, the comparison decides equality, and the iterator visits the ids
    in order (also ids that look like the end) and ends. *)
Theorem queue_is_list q other id id2 :
  push_back q id = q ++ [id] /\ push_back2 q id id2 = q ++ [id; id2]
  /\ append q other = q ++ other /\ assign q other = other /\ clear q = []
  /\ (eqb q other = true <-> q = other) /\ iterate q = Some q
  /\ (empty q = true <-> q = []).
Proof.
  unfold push_back, push_back2, append, assign, clear, append, size. split_and!.
  - apply queue_push_spec.
  - apply queue_push2_spec.
  - apply queue_insertn_end.
  - rewrite queue_empty_spec. apply (queue_insertn_end []).
  - apply queue_empty_spec.
  - unfold eqb, size. destruct (Z.eqb_spec (Z.of_nat (length q)) (Z.of_nat (length other))) as [El|Hl]; simpl.
    + rewrite (eq_loop_spec q other 0). split; [|by intros ->]. intros Hk. apply list_eq. intros i.
      destruct (decide (i < length q)%nat); [apply Hk; lia|]. rewrite !lookup_ge_None_2 by lia. done.
    + split; [done|]. by intros ->.
  - unfold iterate, begin_it, incr. simpl. destruct q as [|v q]; [done|].
    destruct (Z.leb_spec (size (v :: q)) (-1 + 1)) as [Hle|_]; [unfold size in Hle; simpl in Hle; lia|].
    change (-1 + 1) with (Z.of_nat 0). rewrite at_index_nat. change ((v :: q) !! 0%nat) with (Some v).
    cbv iota beta. rewrite (loop_spec (v :: q) 0 v); [done|done|lia].
  - unfold empty, size. rewrite Z.eqb_eq. destruct q; simpl; split; intros; (done || lia).
Qed.
End queue.
End IdQueue.

(** ** Concrete maps and queues *)
Module SolvExamples.

Definition tab (f : nat -> Z) (len : nat) : Map := List.map f (seq 0 len).
Definition at_byte (m : Map) (i : nat) : Z := nth i m 0.
Definition byte_of (n : Z) : nat := Z.to_nat (n / 8).

Definition libsolv : Libsolv := {|
  map_init n := repeat 0 (Z.to_nat ((n + 7) / 8));
  MAPSET m n := tab (fun i => if (i =? byte_of n)%nat then Z.lor (at_byte m i) (Z.shiftl 1 (n mod 8)) else at_byte m i) (length m);
  MAPCLR m n := tab (fun i => if (i =? byte_of n)%nat then Z.ldiff (at_byte m i) (Z.shiftl 1 (n mod 8)) else at_byte m i) (length m);
  MAPTST m n := Z.testbit (at_byte m (byte_of n)) (n mod 8);
  map_empty m := repeat 0 (length m);
  map_or m o := tab (fun i => Z.lor (at_byte m i) (at_byte o i)) (Nat.max (length m) (length o));
  map_subtract m o := tab (fun i => Z.ldiff (at_byte m i) (at_byte o i)) (length m);
  map_and m o := tab (fun i => if (i <? length o)%nat then Z.land (at_byte m i) (at_byte o i) else at_byte m i) (length m);
  queue_push q x := q ++ [x];
  queue_push2 q x y := q ++ [x; y];
  queue_empty q := [];
  queue_insertn q n p := take (Z.to_nat n) q ++ p ++ drop (Z.to_nat n) q;
|}.
#[local] Existing Instance libsolv.

Lemma bit_at m n : bit m n = (0 <=? n) && Z.testbit (at_byte m (byte_of n)) (n mod 8).
Proof.
  unfold bit, at_byte, byte_of. destruct (m !! Z.to_nat (n / 8)) as [b|] eqn:E.
  - by rewrite (nth_lookup_Some _ _ _ _ E).
  - apply lookup_ge_None in E. by rewrite nth_overflow, Z.bits_0, andb_false_r.
Qed.

Lemma at_tab f len i : at_byte (tab f len) i = if (i <? len)%nat then f i else 0.
Proof.
  unfold at_byte, tab. destruct (Nat.ltb_spec i len).
  - rewrite (nth_indep _ 0 (f 0%nat)) by (rewrite length_map, length_seq; lia). by rewrite map_nth, seq_nth.
  - apply nth_overflow. rewrite length_map, length_seq. lia.
Qed.

Lemma bits_tab f len : bits (tab f len) = 8 * Z.of_nat len.
Proof. unfold bits, tab. by rewrite length_map, length_seq. Qed.

Lemma byte_ones x : 0 <= x < 256 <-> Z.land x (Z.ones 8) = x.
Proof.
  rewrite Z.land_ones by lia. change (2 ^ 8) with 256. split; [apply Z.mod_small|].
  intros <-. apply Z.mod_pos_bound. lia.
Qed.

Lemma byte_lor x y : 0 <= x < 256 -> 0 <= y < 256 -> 0 <= Z.lor x y < 256.
Proof. rewrite !byte_ones. intros Hx Hy. by rewrite Z.land_lor_distr_l, Hx, Hy. Qed.
Lemma byte_land x y : 0 <= x < 256 -> 0 <= Z.land x y < 256.
Proof. rewrite !byte_ones. intros Hx. by rewrite <-Z.land_assoc, (Z.land_comm y), Z.land_assoc, Hx. Qed.
Lemma byte_ldiff x y : 0 <= x < 256 -> 0 <= Z.ldiff x y < 256.
Proof.
  rewrite !byte_ones. intros Hx. apply Z.bits_inj'. intros n Hn. rewrite Z.land_spec, !Z.ldiff_spec.
  rewrite <-Hx at 2. rewrite Z.land_spec. by destruct (Z.testbit x n), (Z.testbit (Z.ones 8) n), (Z.testbit y n).
Qed.
Lemma byte_shift n : 0 <= Z.shiftl 1 (n mod 8) < 256.
Proof.
  rewrite Z.shiftl_1_l. pose proof (Z.mod_pos_bound n 8). split; [apply Z.pow_nonneg; lia|].
  change 256 with (2 ^ 8). apply Z.pow_lt_mono_r; lia.
Qed.

Lemma at_byte_ok m i : bytes_ok m -> 0 <= at_byte m i < 256.
Proof.
  intros Hm. unfold at_byte. destruct (nth_in_or_default i m 0) as [Hin| ->]; [|lia].
  unfold bytes_ok in Hm. rewrite List.Forall_forall in Hm. by apply Hm.
Qed.

Lemma tab_ok f len : (forall i, 0 <= f i < 256) -> bytes_ok (tab f len).
Proof. intros Hf. apply List.Forall_forall. intros b (i & <- & _)%in_map_iff. apply Hf. Qed.

Lemma byte_of_lt n len : 0 <= n < 8 * Z.of_nat len -> (byte_of n < len)%nat.
Proof.
  intros Hn. unfold byte_of. assert (n / 8 < Z.of_nat len) by (apply Z.div_lt_upper_bound; lia).
  assert (0 <= n / 8) by (apply Z.div_pos; lia). lia.
Qed.

Lemma at_byte_outside m i : (length m <= i)%nat -> at_byte m i = 0.
Proof. apply nth_overflow. Qed.

Lemma same_byte k n : 0 <= k -> 0 <= n -> byte_of k = byte_of n -> (k mod 8 =? n mod 8) = (k =? n).
Proof.
  unfold byte_of. intros Hk Hn Hb. pose proof (Z.div_mod k 8). pose proof (Z.div_mod n 8).
  assert (0 <= k / 8) by (apply Z.div_pos; lia). assert (0 <= n / 8) by (apply Z.div_pos; lia).
  destruct (Z.eqb_spec (k mod 8) (n mod 8)), (Z.eqb_spec k n); try done; [lia|congruence].
Qed.

Lemma testbit_one k n : 0 <= k mod 8 -> Z.testbit (Z.shiftl 1 (n mod 8)) (k mod 8) = (k mod 8 =? n mod 8).
Proof.
  intros Hk. rewrite Z.shiftl_1_l. pose proof (Z.mod_pos_bound n 8). rewrite Z.pow2_bits_eqb by lia. apply Z.eqb_sym.
Qed.

#[local] Instance libsolv_laws : LibsolvLaws libsolv.
Proof.
  split; simpl; intros; try done.
  - assert (Hlt := byte_of_lt n (length m) ltac:(unfold bits in *; lia)).
    split_and!; [|by rewrite bits_tab|].
    + apply tab_ok. intros i. case_match; [apply byte_lor; [by apply at_byte_ok|apply byte_shift]|by apply at_byte_ok].
    + rewrite !bit_at, at_tab. destruct (Z.leb_spec 0 k); simpl.
      * destruct (Nat.eqb_spec (byte_of k) (byte_of n)) as [Eb|Nb].
        -- rewrite Eb. destruct (Nat.ltb_spec (byte_of n) (length m)); [|lia].
           rewrite Z.lor_spec, testbit_one, same_byte by (try done; try lia; pose proof (Z.mod_pos_bound k 8); lia).
           apply orb_comm.
        -- destruct (Z.eqb_spec k n) as [->|]; [done|]. simpl.
           destruct (Nat.ltb_spec (byte_of k) (length m)); [done|]. by rewrite at_byte_outside.
      * destruct (Z.eqb_spec k n); [lia|done].
  - assert (Hlt := byte_of_lt n (length m) ltac:(unfold bits in *; lia)).
    split_and!; [|by rewrite bits_tab|].
    + apply tab_ok. intros i. case_match; [apply byte_ldiff|]; by apply at_byte_ok.
    + rewrite !bit_at, at_tab. destruct (Z.leb_spec 0 k); simpl; [|by rewrite andb_false_r].
      destruct (Nat.eqb_spec (byte_of k) (byte_of n)) as [Eb|Nb].
      * rewrite Eb. destruct (Nat.ltb_spec (byte_of n) (length m)); [|lia].
        rewrite Z.ldiff_spec, testbit_one, same_byte by (try done; try lia; pose proof (Z.mod_pos_bound k 8); lia).
        apply andb_comm.
      * destruct (Z.eqb_spec k n) as [->|]; [done|]. simpl.
        destruct (Nat.ltb_spec (byte_of k) (length m)); [done|]. by rewrite at_byte_outside.
  - rewrite bit_at. destruct (Z.leb_spec 0 n); [done|lia].
  - split_and!; [apply tab_ok; intros; apply byte_lor; by apply at_byte_ok|rewrite bits_tab; unfold bits; lia|].
    rewrite !bit_at, at_tab. destruct (0 <=? k); [|done]. simpl.
    destruct (Nat.ltb_spec (byte_of k) (Nat.max (length m) (length o))); [apply Z.lor_spec|].
    by rewrite !at_byte_outside, Z.bits_0 by lia.
  - split_and!; [apply tab_ok; intros; apply byte_ldiff; by apply at_byte_ok|by rewrite bits_tab|].
    rewrite !bit_at, at_tab. destruct (0 <=? k); [|done]. simpl.
    destruct (Nat.ltb_spec (byte_of k) (length m)); [apply Z.ldiff_spec|].
    by rewrite (at_byte_outside m), Z.bits_0 by lia.
  - split_and!; [apply tab_ok; intros i; case_match; [apply byte_land|]; by apply at_byte_ok|by rewrite bits_tab|].
    intros Hk. rewrite !bit_at, at_tab in *. destruct (Z.leb_spec 0 k); [|done]. simpl in *.
    destruct (Nat.ltb_spec (byte_of k) (length m)); [|by rewrite (at_byte_outside m), Z.bits_0 by lia].
    destruct (Nat.ltb_spec (byte_of k) (length o)); [apply Z.land_spec|].
    destruct (Z.testbit (at_byte m (byte_of k)) (k mod 8)); [|done].
    pose proof (byte_of_lt k (length o)). unfold bits in Hk. specialize (Hk eq_refl). lia.
  - rewrite Nat2Z.id, firstn_all, drop_all, app_nil_r. done.
Defined.

Definition sample : Map := [0; 130; 0; 1].
Lemma sample_ok : bytes_ok sample.
Proof. repeat constructor; lia. Qed.

Lemma iteration_lists_ids_witness :
  bytes_ok sample /\ exists l, MapIterator.iterate sample = Some l /\ StronglySorted Z.lt l
  /\ (In 15 l <-> SolvMap.contains sample 15 = true) /\ SolvMap.size sample = Z.of_nat (length l).
Proof.
  split; [exact sample_ok|].
  destruct (SolvMap.iteration_lists_ids sample sample_ok ltac:(reflexivity)) as (l & H1 & H2 & H3 & H4 & _).
  exists l. split_and!; [exact H1|exact H2|exact (H3 15)|exact H4].
Defined.

Lemma map_operations_witness :
  bytes_ok sample /\ SolvMap.add sample 32 = Err SolvMap.OutOfRange
  /\ exists a, SolvMap.add sample 31 = Ok a /\ bits a = 32 /\ SolvMap.contains a 31 = true.
Proof.
  split; [exact sample_ok|].
  split.
  - apply (SolvMap.map_operations sample sample 32 sample_ok sample_ok). right. vm_compute. discriminate.
  - destruct (SolvMap.map_operations sample sample 31 sample_ok sample_ok) as (_ & H & _).
    destruct H as (a & r & E & _ & Hb & _ & Hk); [split; [lia|reflexivity]|].
    exists a. split_and!; [exact E|exact Hb|]. rewrite (proj1 (Hk 31)). reflexivity.
Defined.

Lemma queue_is_list_witness :
  LibsolvLaws libsolv /\ IdQueue.iterate [5; -2; 7] = Some [5; -2; 7] /\ IdQueue.append [1] [2; 3] = [1; 2; 3].
Proof.
  split; [exact libsolv_laws|].
  split; [exact (proj1 (proj2 (proj2 (proj2 (proj2 (proj2 (proj2 (IdQueue.queue_is_list [5; -2; 7] [] 0 0))))))))|].
  exact (proj1 (proj2 (proj2 (IdQueue.queue_is_list [1] [2; 3] 0 0)))).
Defined.

Example sample_ids : MapIterator.iterate sample = Some [9; 15; 24].
Proof. reflexivity. Qed.
(** [begin] of an iterator that has moved does not go back to the first byte. *)
Example begin_does_not_rewind :
  (match MapIterator.make sample with
   | Some it => match MapIterator.incr it with
                | Some it => match MapIterator.incr it with
                             | Some it => option_map MapIterator.current_value (MapIterator.rewind it)
                             | None => None end
                | None => None end
   | None => None end) = Some 24.
Proof. reflexivity. Qed.
(** An iterator that was moved to the end starts again when it is advanced. *)
Example end_restarts :
  (match MapIterator.make sample with
   | Some it => option_map MapIterator.current_value (MapIterator.incr (MapIterator.to_end it))
   | None => None end) = Some 9.
Proof. reflexivity. Qed.
End SolvExamples.
