(* ===== verification/Regex.v ===== *)
(** * Regex: the regular expressions of the sources

    The sources split package names, dependencies and module specifications
    with [std::regex] (ECMAScript: an ordered, greedy search with backtracking)
    and with the [regexec] of POSIX. The expressions they use are built from
    character classes, repetitions of classes, groups and optional parts:
    that is the type [re]. [run] is the ECMAScript search. [matches] says what
    a match is, in whatever order it is found: the search is sound and
    complete for it, so that an expression whose match is unique means the same
    for both engines. *)

From S2P Require Import Prelude.

Inductive re :=
| Chr (p : ascii -> bool)
| Many (p : ascii -> bool)
| Many1 (p : ascii -> bool)
| Eps
| Seq (a b : re)
| Opt (a : re)
| Group (i : nat) (a : re).

Module Regex.

Definition literal (c : ascii) : re := Chr (fun x => bool_decide (x = c)).
Definition seq (l : list re) : re := foldr Seq Eps l.
Definition one_of_chars (set : cstr) : ascii -> bool := one_of set.
Definition none_of_chars (set : cstr) : ascii -> bool := none_of set.

(** The groups that took part in the match, the last one first. *)
Definition captures : Type := list (nat * cstr).
(** [match[i].str()]: empty for a group that took no part. *)
Definition str (caps : captures) (i : nat) : cstr :=
  match List.find (fun c => fst c =? i) caps with Some c => snd c | None => [] end.
(** What was read between two positions. *)
Definition consumed (s s' : cstr) : cstr := take (length s - length s') s.

(** ** The search *)

Definition cont : Type := cstr -> captures -> option captures.
Definition or_else {A} (x : option A) (y : option A) : option A := match x with Some _ => x | None => y end.

(** Greedy: as many characters as possible, then one less, ... *)
Fixpoint many (p : ascii -> bool) (s : cstr) (k : cstr -> option captures) : option captures :=
  match s with
  | [] => k []
  | c :: s' => if p c then or_else (many p s' k) (k s) else k s
  end.

Fixpoint run (r : re) (s : cstr) (caps : captures) (k : cont) : option captures :=
  match r with
  | Chr p => match s with c :: s' => if p c then k s' caps else None | [] => None end
  | Many p => many p s (fun s' => k s' caps)
  | Many1 p => match s with c :: s' => if p c then many p s' (fun s' => k s' caps) else None | [] => None end
  | Eps => k s caps
  | Seq a b => run a s caps (fun s' caps' => run b s' caps' k)
  | Opt a => or_else (run a s caps (fun s' caps' => if length s' =? length s then None else k s' caps')) (k s caps)
  | Group i a => run a s caps (fun s' caps' => k s' ((i, consumed s s') :: caps'))
  end.

(** [std::regex_match]: the whole text. *)
Definition regex_match (r : re) (s : cstr) : option captures :=
  run r s [] (fun s' caps => match s' with [] => Some caps | _ => None end).

(** ** What a match is *)

Fixpoint matches (r : re) (s : cstr) (caps : captures) (s' : cstr) (caps' : captures) : Prop :=
  match r with
  | Chr p => (exists c, s = c :: s' /\ p c = true) /\ caps' = caps
  | Many p => (exists w, s = w ++ s' /\ Forall (fun c => p c = true) w) /\ caps' = caps
  | Many1 p => (exists w, s = w ++ s' /\ w <> [] /\ Forall (fun c => p c = true) w) /\ caps' = caps
  | Eps => s' = s /\ caps' = caps
  | Seq a b => exists s1 caps1, matches a s caps s1 caps1 /\ matches b s1 caps1 s' caps'
  | Opt a => (s' = s /\ caps' = caps) \/ (matches a s caps s' caps' /\ length s' <> length s)
  | Group i a => exists caps1, matches a s caps s' caps1 /\ caps' = (i, consumed s s') :: caps1
  end.

Lemma or_else_Some {A} (x y : option A) a : or_else x y = Some a -> x = Some a \/ y = Some a.
Proof. destruct x; simpl; auto. Qed.

Lemma many_sound p s k x :
  many p s k = Some x -> exists w s', s = w ++ s' /\ Forall (fun c => p c = true) w /\ k s' = Some x.
Proof.
  induction s as [|c s IH]; simpl; intros H; [by exists [], []|].
  destruct (p c) eqn:Hc; [|by exists [], (c :: s)].
  apply or_else_Some in H as [H|H]; [|by exists [], (c :: s)].
  destruct (IH H) as (w & s' & -> & Hw & Hk). exists (c :: w), s'. split_and!; [done|by constructor|done].
Qed.

Lemma many_complete p w s' k :
  Forall (fun c => p c = true) w -> is_Some (k s') -> is_Some (many p (w ++ s') k).
Proof.
  induction 1 as [|c w Hc _ IH]; simpl; intros Hk.
  - destruct s' as [|c s']; simpl; [done|]. destruct (p c); [|done]. destruct (many p s' k); [by eexists|done].
  - rewrite Hc. destruct (IH Hk) as [x ->]. by eexists.
Qed.

(** What the search finds is a match, and its continuation accepts it. *)
Lemma run_sound r s caps k x :
  run r s caps k = Some x -> exists s' caps', matches r s caps s' caps' /\ k s' caps' = Some x.
Proof.
  revert s caps k x. induction r as [p|p|p| |a IHa b IHb|a IHa|i a IHa]; simpl; intros s caps k x H.
  - destruct s as [|c s]; [done|]. destruct (p c) eqn:Hc; [|done]. exists s, caps. eauto.
  - apply many_sound in H as (w & s' & -> & Hw & Hk). exists s', caps. eauto.
  - destruct s as [|c s]; [done|]. destruct (p c) eqn:Hc; [|done].
    apply many_sound in H as (w & s' & -> & Hw & Hk). exists s', caps. split; [|done]. split; [|done].
    exists (c :: w). split_and!; [done|done|by constructor].
  - exists s, caps. eauto.
  - apply IHa in H as (s1 & caps1 & Ha & H). apply IHb in H as (s' & caps' & Hb & Hk). eauto 10.
  - apply or_else_Some in H as [H|H].
    + apply IHa in H as (s' & caps' & Ha & H). destruct (Nat.eqb_spec (length s') (length s)); [done|]. eauto 10.
    + exists s, caps. eauto.
  - apply IHa in H as (s' & caps' & Ha & H). exists s', ((i, consumed s s') :: caps'). eauto.
Qed.

(** The search finds something wherever there is a match that the
    continuation accepts whatever the captures. *)
Lemma run_complete r s caps s' caps' caps0 k :
  matches r s caps s' caps' -> (forall c, is_Some (k s' c)) -> is_Some (run r s caps0 k).
Proof.
  revert s caps s' caps' caps0 k. induction r as [p|p|p| |a IHa b IHb|a IHa|i a IHa]; simpl; intros s caps s' caps' caps0 k Hm Hk.
  - destruct Hm as [(c & -> & Hc) _]. by rewrite Hc.
  - destruct Hm as [(w & -> & Hw) _]. by apply many_complete.
  - destruct Hm as [(w & -> & Hne & Hw) _]. destruct Hw as [|c w Hc Hw]; [done|]. simpl. rewrite Hc. by apply many_complete.
  - destruct Hm as [-> _]. apply Hk.
  - destruct Hm as (s1 & caps1 & Ha & Hb). eapply IHa; [exact Ha|]. intros c. by eapply IHb.
  - destruct Hm as [[-> _]|[Ha Hne]].
    + destruct (run a _ _ _); [by eexists|apply Hk].
    + destruct (IHa s caps s' caps' caps0 (fun s' caps' => if length s' =? length s then None else k s' caps') Ha) as [x ->];
        [|by eexists]. intros c. by rewrite (proj2 (Nat.eqb_neq _ _) Hne).
  - destruct Hm as (caps1 & Ha & _). eapply IHa; [exact Ha|]. intros c. apply Hk.
Qed.

(** ** Whole matches *)

Lemma regex_match_sound r s caps : regex_match r s = Some caps -> matches r s [] [] caps.
Proof. intros H. apply run_sound in H as (s' & caps' & Hm & Hk). destruct s'; [|done]. by simplify_eq. Qed.

Lemma regex_match_complete r s caps : matches r s [] [] caps -> is_Some (regex_match r s).
Proof. intros H. eapply run_complete; [exact H|]. intros c. by eexists. Qed.

(** An engine for [matches]: some match is found if there is one. POSIX promises
    more (the longest), which unique matches do not need. *)
Class Engine (search : re -> cstr -> option captures) : Prop := {
  engine_sound r s caps : search r s = Some caps -> matches r s [] [] caps;
  engine_complete r s caps : matches r s [] [] caps -> is_Some (search r s);
}.
#[global] Instance ecmascript : Engine regex_match.
Proof. split; [apply regex_match_sound|apply regex_match_complete]. Qed.

Section engine.
Context (search : re -> cstr -> option captures) `{!Engine search}.

Lemma engine_unique r s caps :
  matches r s [] [] caps -> (forall caps', matches r s [] [] caps' -> caps' = caps) -> search r s = Some caps.
Proof.
  intros Hm Hu. destruct (engine_complete _ _ _ Hm) as [caps' Hc]. rewrite Hc. f_equal. by apply Hu, engine_sound.
Qed.

Lemma engine_none r s : (forall caps, ~ matches r s [] [] caps) -> search r s = None.
Proof. intros Hn. destruct (search r s) as [caps|] eqn:E; [|done]. exfalso. by eapply Hn, engine_sound. Qed.
End engine.

(** ** Reading off matches *)

Lemma consumed_app w s : consumed (w ++ s) s = w.
Proof. unfold consumed. rewrite length_app. replace (length w + length s - length s) with (length w) by lia. apply take_app_length. Qed.

Lemma matches_seq_cons a l s caps s' caps' :
  matches (seq (a :: l)) s caps s' caps' <->
  exists s1 caps1, matches a s caps s1 caps1 /\ matches (seq l) s1 caps1 s' caps'.
Proof. done. Qed.

Lemma matches_literal c s caps s' caps' : matches (literal c) s caps s' caps' <-> s = c :: s' /\ caps' = caps.
Proof.
  simpl. split.
  - intros [(c' & -> & Hc) ->]. by apply bool_decide_eq_true in Hc as ->.
  - intros [-> ->]. split; [|done]. exists c. split; [done|]. by apply bool_decide_eq_true.
Qed.

(** A group of one or more characters of a class. *)
Lemma matches_group1 i p s caps s' caps' :
  matches (Group i (Many1 p)) s caps s' caps' <->
  exists w, s = w ++ s' /\ w <> [] /\ Forall (fun c => p c = true) w /\ caps' = (i, w) :: caps.
Proof.
  simpl. split.
  - intros (caps1 & [(w & -> & Hne & Hw) ->] & ->). exists w. by rewrite consumed_app.
  - intros (w & -> & Hne & Hw & ->). exists caps. rewrite consumed_app. eauto 10.
Qed.

Lemma matches_group0 i p s caps s' caps' :
  matches (Group i (Many p)) s caps s' caps' <->
  exists w, s = w ++ s' /\ Forall (fun c => p c = true) w /\ caps' = (i, w) :: caps.
Proof.
  simpl. split.
  - intros (caps1 & [(w & -> & Hw) ->] & ->). exists w. by rewrite consumed_app.
  - intros (w & -> & Hw & ->). exists caps. rewrite consumed_app. eauto 10.
Qed.

Lemma matches_group_eps i s caps s' caps' : matches (Group i Eps) s caps s' caps' <-> s' = s /\ caps' = (i, []) :: caps.
Proof.
  simpl. assert (Hc : consumed s s = []) by (unfold consumed; by rewrite Nat.sub_diag). split.
  - intros (caps1 & [-> ->] & ->). by rewrite Hc.
  - intros [-> ->]. exists caps. by rewrite Hc.
Qed.

(** ** Splitting at a character that one side does not have *)

(** The first occurrence of a character. *)
Lemma split_first (c : ascii) a b a' b' :
  c ∉ a -> c ∉ a' -> a ++ c :: b = a' ++ c :: b' -> a = a' /\ b = b'.
Proof.
  revert a'. induction a as [|x a IH]; intros [|y a'] Ha Ha' E; simpl in *; simplify_eq; try done.
  - set_solver.
  - set_solver.
  - destruct (IH a') as [-> ->]; [set_solver|set_solver|done|done].
Qed.

(** The last occurrence. *)
Lemma split_last (c : ascii) a b a' b' :
  c ∉ b -> c ∉ b' -> a ++ c :: b = a' ++ c :: b' -> a = a' /\ b = b'.
Proof.
  intros Hb Hb' E. apply (f_equal (@rev ascii)) in E. rewrite !rev_app_distr in E. simpl in E.
  rewrite <-!app_assoc in E. simpl in E.
  apply split_first in E as [E1 E2].
  - split; [|by apply (f_equal (@rev ascii)) in E1; rewrite !rev_involutive in E1].
    by apply (f_equal (@rev ascii)) in E2; rewrite !rev_involutive in E2.
  - by rewrite list_elem_of_In, <-in_rev, <-list_elem_of_In.
  - by rewrite list_elem_of_In, <-in_rev, <-list_elem_of_In.
Qed.

Lemma class_without (p : ascii -> bool) c w : p c = false -> Forall (fun x => p x = true) w -> c ∉ w.
Proof. intros Hc Hw Hin. rewrite Forall_forall in Hw. specialize (Hw c Hin). congruence. Qed.
End Regex.
