(* ===== verification/Specs.v ===== *)
(** * Specs: package names, dependencies and module specifications

    [rpm/nevra.cpp], [rpm/solv/reldep_parser.cpp], [rpm/reldep.cpp] and
    [rpm/reldep_list.cpp], and dnf-4's [nsvcap.cpp]. The expressions are those
    of the sources; what they accept, and how the text is divided, is stated by
    printing functions. *)

From S2P Require Import Prelude Regex Solv.

Notation cl := (fun p w => Forall (fun c : ascii => p c = true) w).

(** ** Package names ([nevra.cpp]) *)
Module Nevra.
Import Regex.

Definition name_char : ascii -> bool := none_of (lit ":(/=<> ").
Definition epoch_char : ascii -> bool := one_of (lit "][*?0123456789").
Definition version_char : ascii -> bool := none_of (lit "-:(/=<> ").
Definition arch_char : ascii -> bool := none_of (lit "-:.(/=<> ").

Definition PKG_NAME : re := Group 1 (Many1 name_char).
Definition PKG_EPOCH : re := Opt (Group 2 (seq [Group 3 (Many1 epoch_char); literal ":"])).
Definition PKG_VERSION (i : nat) : re := Group i (Many1 version_char).
Definition PKG_RELEASE : nat -> re := PKG_VERSION.
Definition PKG_ARCH (i : nat) : re := Group i (Many1 arch_char).
Definition none (i : nat) : re := Group i Eps.

Inductive Form := NEVRA | NEVR | NEV | NA | NAME.
#[global] Instance form_eq_dec : EqDecision Form.
Proof. solve_decision. Defined.

Definition NEVRA_FORM_REGEX (form : Form) : re :=
  match form with
  | NEVRA => seq [PKG_NAME; literal "-"; PKG_EPOCH; PKG_VERSION 4; literal "-"; PKG_RELEASE 5; literal "."; PKG_ARCH 6]
  | NEVR => seq [PKG_NAME; literal "-"; PKG_EPOCH; PKG_VERSION 4; literal "-"; PKG_RELEASE 5; none 6]
  | NEV => seq [PKG_NAME; literal "-"; PKG_EPOCH; PKG_VERSION 4; none 5; none 6]
  | NA => seq [PKG_NAME; none 2; none 3; none 4; none 5; literal "."; PKG_ARCH 6]
  | NAME => seq [PKG_NAME; none 2; none 3; none 4; none 5; none 6]
  end.
Definition PKG_SPEC_FORMS : list Form := [NEVRA; NA; NAME; NEVR; NEV].

Record Nevra := mkNevra { name : cstr; epoch : cstr; version : cstr; release : cstr; arch : cstr }.

(** The object after the call, and what the call returns. *)
Definition parse (nevra : Nevra) (nevra_str : cstr) (form : Form) : Nevra * bool :=
  match regex_match (NEVRA_FORM_REGEX form) nevra_str with
  | None => (nevra, false)
  | Some m => (mkNevra (str m 1) (str m 3) (str m 4) (str m 5) (str m 6), true)
  end.
Definition clear (nevra : Nevra) : Nevra := mkNevra [] [] [] [] [].
Definition is_empty (s : cstr) : bool := match s with [] => true | _ => false end.
Definition has_just_name (n : Nevra) : bool :=
  negb (is_empty (name n)) && is_empty (epoch n) && is_empty (version n) && is_empty (release n) && is_empty (arch n).

(** ** Printing *)

Definition print_epoch (e : cstr) : cstr := match e with [] => [] | _ => e ++ [":"%char] end.
Definition print (form : Form) (n : Nevra) : cstr :=
  match form with
  | NEVRA => name n ++ "-"%char :: print_epoch (epoch n) ++ version n ++ "-"%char :: release n ++ "."%char :: arch n
  | NEVR => name n ++ "-"%char :: print_epoch (epoch n) ++ version n ++ "-"%char :: release n
  | NEV => name n ++ "-"%char :: print_epoch (epoch n) ++ version n
  | NA => name n ++ "."%char :: arch n
  | NAME => name n
  end.

Definition field (p : ascii -> bool) (w : cstr) : Prop := w <> [] /\ cl p w.
(** The fields that a form has are not empty (but the epoch may be) and made of
    their characters; it has no others. *)
Definition valid (form : Form) (n : Nevra) : Prop :=
  field name_char (name n)
  /\ match form with
     | NEVRA | NEVR | NEV => cl epoch_char (epoch n) /\ field version_char (version n)
     | _ => epoch n = [] /\ version n = []
     end
  /\ match form with NEVRA | NEVR => field version_char (release n) | _ => release n = [] end
  /\ match form with NEVRA | NA => field arch_char (arch n) | _ => arch n = [] end.

Definition epoch_caps (e : cstr) : captures := match e with [] => [] | _ => [(2, e ++ [":"%char]); (3, e)] end.
Definition caps (form : Form) (n : Nevra) : captures :=
  match form with
  | NEVRA | NEVR => (6, arch n) :: (5, release n) :: (4, version n) :: epoch_caps (epoch n) ++ [(1, name n)]
  | NEV => (6, []) :: (5, []) :: (4, version n) :: epoch_caps (epoch n) ++ [(1, name n)]
  | NA | NAME => (6, arch n) :: (5, []) :: (4, []) :: (3, []) :: (2, []) :: [(1, name n)]
  end.

(** ** The matches *)

Lemma print_epoch_app e s : e <> [] -> print_epoch e ++ s = e ++ ":"%char :: s.
Proof. destruct e; [done|]. intros _. unfold print_epoch. by rewrite <-app_assoc. Qed.
Lemma epoch_caps_app e cs : e <> [] -> epoch_caps e ++ cs = (2, e ++ [":"%char]) :: (3, e) :: cs.
Proof. by destruct e. Qed.

Lemma matches_epoch s cs s' cs' :
  matches PKG_EPOCH s cs s' cs' <->
  exists e, cl epoch_char e /\ s = print_epoch e ++ s' /\ cs' = epoch_caps e ++ cs.
Proof.
  assert (Hc : forall e : cstr, consumed (e ++ ":"%char :: s') s' = e ++ [":"%char]).
  { intros e. replace (e ++ ":"%char :: s') with ((e ++ [":"%char]) ++ s') by (by rewrite <-app_assoc). apply consumed_app. }
  unfold PKG_EPOCH. cbn [matches]. split.
  - intros [[-> ->]|[(c1 & (s1 & c2 & Hg & s2 & c3 & Hl & [-> ->]) & ->) _]]; [by exists []|].
    apply matches_group1 in Hg as (w & -> & Hne & Hw & ->). apply matches_literal in Hl as [-> ->].
    exists w. rewrite print_epoch_app, epoch_caps_app, Hc by done. done.
  - intros (e & He & -> & ->). destruct (decide (e = [])) as [->|Hne]; [by left|].
    rewrite print_epoch_app, epoch_caps_app by done. right. split; [|rewrite length_app; simpl; lia].
    exists ((3, e) :: cs). split; [|by rewrite Hc].
    exists (":"%char :: s'), ((3, e) :: cs). split; [apply matches_group1; by exists e|].
    exists s', ((3, e) :: cs). split; [by apply matches_literal|done].
Qed.

Lemma str_epoch e l : str (epoch_caps e ++ (1, l) :: []) 3 = e.
Proof. by destruct e. Qed.

(** Splits the matches of an expression into its parts. *)
Ltac parts :=
  repeat match goal with
  | H : matches (seq (_ :: _)) _ _ _ _ |- _ => apply matches_seq_cons in H as (? & ? & ? & H)
  | H : matches (seq []) _ _ _ _ |- _ => destruct H as [? ?]
  | H : matches (literal _) _ _ _ _ |- _ => apply matches_literal in H as [-> ->]
  | H : matches PKG_EPOCH _ _ _ _ |- _ => apply matches_epoch in H as (? & ? & -> & ->)
  | H : matches (Group _ (Many1 _)) _ _ _ _ |- _ => apply matches_group1 in H as (? & -> & ? & ? & ->)
  | H : matches (Group _ Eps) _ _ _ _ |- _ => apply matches_group_eps in H as [? ->]; subst
  end; subst.
(** Builds them. *)
Ltac build :=
  repeat match goal with
  | |- matches (seq (_ :: _)) _ _ _ _ => apply matches_seq_cons; do 2 eexists; split
  | |- matches (seq []) _ _ _ _ => split; reflexivity
  | |- matches (literal _) _ _ _ _ => apply matches_literal; split; reflexivity
  | |- matches PKG_EPOCH _ _ _ _ => apply matches_epoch; eexists; split_and!; [eassumption|reflexivity|reflexivity]
  | |- matches (Group _ (Many1 _)) _ _ _ _ => apply matches_group1; eexists; split_and!; [reflexivity|eassumption|eassumption|reflexivity]
  | |- matches (Group _ Eps) _ _ _ _ => apply matches_group_eps; split; reflexivity
  end.

Ltac fields := unfold valid, field; simpl; split_and!; first [eassumption|reflexivity].

Lemma form_matches form s cs :
  matches (NEVRA_FORM_REGEX form) s [] [] cs <-> exists n, valid form n /\ s = print form n /\ cs = caps form n.
Proof.
  split.
  - intros H. destruct form; unfold NEVRA_FORM_REGEX, PKG_NAME, PKG_RELEASE, PKG_VERSION, PKG_ARCH, none in H; parts;
      rewrite ?app_nil_r.
    + eexists (mkNevra _ _ _ _ _). (split; cycle 1; [split; reflexivity|fields]).
    + eexists (mkNevra _ _ _ _ []). (split; cycle 1; [split; reflexivity|fields]).
    + eexists (mkNevra _ _ _ [] []). (split; cycle 1; [split; reflexivity|fields]).
    + eexists (mkNevra _ [] [] [] _). (split; cycle 1; [split; reflexivity|fields]).
    + eexists (mkNevra _ [] [] [] []). (split; cycle 1; [split; reflexivity|fields]).
  - intros (n & Hv & -> & ->). rewrite <-(app_nil_r (print form n)).
    destruct n as [nn e v r a], form; unfold valid, field in Hv; simpl in Hv;
      destruct_and!; subst; unfold NEVRA_FORM_REGEX, PKG_NAME, PKG_RELEASE, PKG_VERSION, PKG_ARCH, none;
      cbn [print caps name epoch version release arch];
      repeat (rewrite <-app_assoc; cbn [app]); build.
Qed.

(** ** The division is unique *)

Lemma field_without p c w : p c = false -> cl p w -> c ∉ w.
Proof. apply class_without. Qed.

Lemma no_colon_epoch e v (n : cstr) :
  ":"%char ∉ n -> ":"%char ∉ v -> (":"%char ∈ n ++ "-"%char :: print_epoch e ++ v) <-> e <> [].
Proof.
  intros Hn Hv. rewrite elem_of_app, elem_of_cons, elem_of_app. split.
  - intros [?|[?|[He|?]]]; try done. intros ->. by apply not_elem_of_nil in He.
  - intros He. do 2 right. left. destruct e; [done|]. simpl. set_solver.
Qed.

Lemma nev_unique n e v n' e' v' :
  cl name_char n -> cl name_char n' -> cl epoch_char e -> cl epoch_char e' -> cl version_char v -> cl version_char v' ->
  n ++ "-"%char :: print_epoch e ++ v = n' ++ "-"%char :: print_epoch e' ++ v' -> n = n' /\ e = e' /\ v = v'.
Proof.
  intros Hn Hn' He He' Hv Hv' E.
  assert (Hc : forall w, cl name_char w -> ":"%char ∉ w) by (intros w; by apply class_without).
  assert (Hcv : forall w, cl version_char w -> ":"%char ∉ w) by (intros w; by apply class_without).
  assert (Hdv : forall w, cl version_char w -> "-"%char ∉ w) by (intros w; by apply class_without).
  assert (Hde : forall w, cl epoch_char w -> "-"%char ∉ w) by (intros w; by apply class_without).
  assert (Hiff : e <> [] <-> e' <> []).
  { rewrite <-(no_colon_epoch e v n), <-(no_colon_epoch e' v' n') by auto. by rewrite E. }
  destruct (decide (e = [])) as [->|Hne].
  - assert (e' = []) as -> by (destruct e'; [done|]; by destruct (proj2 Hiff)). simpl in E.
    apply split_last in E as [-> ->]; auto.
  - rewrite !print_epoch_app in E by (done || by apply Hiff).
    replace (n ++ "-"%char :: e ++ ":"%char :: v) with ((n ++ "-"%char :: e) ++ ":"%char :: v) in E by (by rewrite <-app_assoc).
    replace (n' ++ "-"%char :: e' ++ ":"%char :: v') with ((n' ++ "-"%char :: e') ++ ":"%char :: v') in E by (by rewrite <-app_assoc).
    apply split_last in E as [E ->]; auto. apply split_last in E as [-> ->]; auto.
Qed.

Lemma print_inj form n n' : valid form n -> valid form n' -> print form n = print form n' -> n = n'.
Proof.
  intros Hv Hv' E. assert (Hdash : forall w, cl version_char w -> "-"%char ∉ w) by (intros w; by apply class_without).
  assert (Hdot : forall w, cl arch_char w -> "."%char ∉ w) by (intros w; by apply class_without).
  assert (Hassoc : forall (a b c : cstr) x y, a ++ x :: b ++ y :: c = (a ++ x :: b) ++ y :: c) by (intros; by rewrite <-app_assoc).
  destruct n as [n e v r a], n' as [n' e' v' r' a'], form; unfold valid, field in *; simpl in *; destruct_and!; subst.
  - rewrite !(app_assoc (print_epoch _)), !Hassoc in E.
    replace (((n ++ "-"%char :: print_epoch e ++ v) ++ "-"%char :: r ++ "."%char :: a))
      with ((((n ++ "-"%char :: print_epoch e ++ v) ++ "-"%char :: r) ++ "."%char :: a)) in E by (by rewrite <-!app_assoc).
    replace (((n' ++ "-"%char :: print_epoch e' ++ v') ++ "-"%char :: r' ++ "."%char :: a'))
      with ((((n' ++ "-"%char :: print_epoch e' ++ v') ++ "-"%char :: r') ++ "."%char :: a')) in E by (by rewrite <-!app_assoc).
    apply split_last in E as [E ->]; auto. apply split_last in E as [E ->]; auto.
    apply nev_unique in E as (-> & -> & ->); auto.
  - rewrite !(app_assoc (print_epoch _)), !Hassoc in E.
    apply split_last in E as [E ->]; auto. apply nev_unique in E as (-> & -> & ->); auto.
  - apply nev_unique in E as (-> & -> & ->); auto.
  - apply split_last in E as [-> ->]; auto.
  - done.
Qed.

Lemma str_caps form n :
  valid form n -> mkNevra (str (caps form n) 1) (str (caps form n) 3) (str (caps form n) 4) (str (caps form n) 5)
                    (str (caps form n) 6) = n.
Proof. destruct n as [nn e v r a], form, e; intros Hv; unfold valid in Hv; simpl in *; destruct_and!; subst; done. Qed.

(** Parsing a package specification in a form succeeds exactly on the texts
    that the form prints, and gives the fields back: name, epoch, version,
    release and architecture. There is one way to divide a text. *)
Theorem nevra_parse_print nevra s form :
  (forall n, parse nevra s form = (n, true) <-> valid form n /\ s = print form n)
  /\ (snd (parse nevra s form) = false -> fst (parse nevra s form) = nevra /\ forall n, valid form n -> s <> print form n).
Proof.
  unfold parse. destruct (regex_match (NEVRA_FORM_REGEX form) s) as [cs|] eqn:E.
  - apply regex_match_sound, form_matches in E as (n0 & Hv & -> & ->). rewrite str_caps by done. split; [|done].
    intros n. split; [by intros [= <-]|]. intros [Hn Ep]. by rewrite (print_inj form n0 n).
  - assert (Hno : forall n, valid form n -> s <> print form n).
    { intros n Hv ->. assert (Hm : matches (NEVRA_FORM_REGEX form) (print form n) [] [] (caps form n)).
      { apply form_matches. by exists n. }
      apply regex_match_complete in Hm as [x Hx]. congruence. }
    split; [|done]. intros n. split; [done|]. intros [Hv ->]. by destruct (Hno n Hv).
Qed.

Lemma nevra_parse_print_witness :
  let fish := mkNevra (lit "four-of-fish") (lit "8") (lit "3.6.9") (lit "11.fc100") (lit "x86_64") in
  valid NEVRA fish /\ parse (clear fish) (lit "four-of-fish-8:3.6.9-11.fc100.x86_64") NEVRA = (fish, true)
  /\ fst (parse fish (lit "four-of-fish") NA) = fish.
Proof.
  intros fish. assert (Hv : valid NEVRA fish).
  { unfold valid, field. split_and!; try done; apply (bool_decide_unpack _); vm_compute; exact I. }
  split_and!; [exact Hv| |].
  - apply (nevra_parse_print (clear fish) (lit "four-of-fish-8:3.6.9-11.fc100.x86_64") NEVRA). split; [exact Hv|reflexivity].
  - apply (nevra_parse_print fish (lit "four-of-fish") NA). vm_compute. reflexivity.
Defined.

(** One text in three forms. *)
Example forms_of_text :
  map (fun form => parse (clear (mkNevra [] [] [] [] [])) (lit "four-of-fish-3.6.9.i686") form) [NEVRA; NA; NEV]
  = [(mkNevra (lit "four-of") [] (lit "fish") (lit "3.6.9") (lit "i686"), true);
     (mkNevra (lit "four-of-fish-3.6.9") [] [] [] (lit "i686"), true);
     (mkNevra (lit "four-of-fish") [] (lit "3.6.9.i686") [] [], true)].
Proof. vm_compute. reflexivity. Qed.
End Nevra.

(** ** Dependencies ([reldep_parser.cpp], [reldep.cpp], [reldep_list.cpp]) *)
Module Reldep.
Import Regex.

Inductive CmpType := NONE | GT | EQ | GTE | LT | LTE.
Definition cmp_value (c : CmpType) : Z :=
  match c with NONE => 0 | GT => 1 | EQ => 2 | GTE => 3 | LT => 4 | LTE => 6 end.
Record ReldepParser := mkParser { name : cstr; evr : cstr; cmp_type : CmpType }.

Definition space (c : ascii) : bool := one_of (lit " " ++ [tab; nl; "011"; "012"; cr])%char c.
Definition nonspace (c : ascii) : bool := negb (space c).

Definition RELDEP_REGEX : re :=
  seq [Group 1 (Many nonspace); Many space; Opt (Group 2 (Many nonspace)); Many space; Group 3 (Many nonspace)].

(** What the call leaves in [*cmp_type], and what it returns. *)
Definition set_cmp_type (cmp_type : CmpType) (s : cstr) (length : nat) : CmpType * bool :=
  if length =? 2 then
    if negb (bool_decide (s !! 1 = Some "="%char)) then (cmp_type, false)
    else if bool_decide (s !! 0 = Some "<"%char) then (LTE, true)
    else if bool_decide (s !! 0 = Some ">"%char) then (GTE, true)
    else (cmp_type, false)
  else if length =? 1 then
    if bool_decide (s !! 0 = Some ">"%char) then (GT, true)
    else if bool_decide (s !! 0 = Some "<"%char) then (LT, true)
    else if bool_decide (s !! 0 = Some "="%char) then (EQ, true)
    else (cmp_type, false)
  else (cmp_type, false).

Definition parse (p : ReldepParser) (reldep_str : cstr) : ReldepParser * bool :=
  match regex_match RELDEP_REGEX reldep_str with
  | None => (p, false)
  | Some m =>
      let cmp_type_length := length (str m 2) in
      let evr_length := length (str m 3) in
      if (negb (cmp_type_length =? 0) && negb (evr_length =? 0)) || ((cmp_type_length =? 0) && (evr_length =? 0)) then
        if negb (cmp_type_length =? 0) then
          let '(cmp, ok) := set_cmp_type (cmp_type p) (str m 2) cmp_type_length in
          (mkParser (str m 1) (str m 3) cmp, ok)
        else (mkParser (str m 1) [] NONE, true)
      else (p, false)
  end.

(** ** The words of a text *)

Definition words (s : cstr) : option (cstr * cstr * cstr) :=
  let '(n, r) := span nonspace s in
  let '(_, r) := span space r in
  let '(c, r) := span nonspace r in
  let '(_, r) := span space r in
  let '(e, r) := span nonspace r in
  match r with [] => Some (n, c, e) | _ => None end.

(** The state of an automaton that counts the changes between words and
    spaces: 0, 2, 4 in a word, 1, 3, 5 in spaces. *)
Definition step (j : nat) (c : ascii) : nat := if nonspace c then j + j mod 2 else j + (1 - j mod 2).
Definition final (j : nat) (s : cstr) : nat := fold_left step s j.

Lemma mod2 j : j mod 2 = 0 \/ j mod 2 = 1.
Proof. pose proof (Nat.mod_upper_bound j 2). lia. Qed.

Lemma step_mono i j c : i <= j -> step i c <= step j c.
Proof.
  unfold step. intros H. destruct (decide (i = j)) as [->|]; [lia|].
  destruct (mod2 i), (mod2 j), (nonspace c); lia.
Qed.
Lemma final_mono i j s : i <= j -> final i s <= final j s.
Proof. unfold final. revert i j. induction s as [|c s IH]; intros i j H; [done|]. by apply IH, step_mono. Qed.
Lemma step_ge j c : j <= step j c.
Proof. unfold step. destruct (nonspace c); lia. Qed.
Lemma final_ge j s : j <= final j s.
Proof.
  unfold final. revert j. induction s as [|c s IH]; intros j; simpl; [lia|]. etransitivity; [apply (step_ge j c)|apply IH].
Qed.

Lemma final_word j w s : j mod 2 = 0 -> cl nonspace w -> final j (w ++ s) = final j s.
Proof.
  intros Hj. induction 1 as [|c w Hc _ IH]; [done|]. unfold final in *. simpl. unfold step at 2. rewrite Hc, Hj.
  by rewrite Nat.add_0_r.
Qed.
Lemma final_spaces j w s : j mod 2 = 1 -> cl space w -> final j (w ++ s) = final j s.
Proof.
  intros Hj. induction 1 as [|c w Hc _ IH]; [done|]. unfold final in *. simpl. unfold step at 2, nonspace. rewrite Hc, Hj.
  by rewrite Nat.add_0_r.
Qed.

(** A text that the expression divides changes at most four times. *)
Lemma matches_final s cs : matches RELDEP_REGEX s [] [] cs -> final 0 s <= 4.
Proof.
  unfold RELDEP_REGEX. rewrite !matches_seq_cons. intros (s1 & c1 & H1 & H).
  apply matches_seq_cons in H as (s2 & c2 & H2 & H). apply matches_seq_cons in H as (s3 & c3 & H3 & H).
  apply matches_seq_cons in H as (s4 & c4 & H4 & H). apply matches_seq_cons in H as (s5 & c5 & H5 & <- & _).
  apply matches_group0 in H1 as (w1 & -> & Hw1 & _). destruct H2 as [(w2 & -> & Hw2) _].
  assert (Hopt : exists w, s2 = w ++ s3 /\ cl nonspace w).
  { destruct H3 as [[-> _]|[H3 _]]; [by exists []|]. apply matches_group0 in H3 as (w & -> & Hw & _). by exists w. }
  destruct Hopt as (w3 & -> & Hw3), H4 as [(w4 & -> & Hw4) _]. apply matches_group0 in H5 as (w5 & -> & Hw5 & _).
  rewrite final_word by done. etransitivity; [apply (final_mono 0 1); lia|].
  rewrite final_spaces by done. etransitivity; [apply (final_mono 1 2); lia|].
  rewrite final_word by done. etransitivity; [apply (final_mono 2 3); lia|].
  rewrite final_spaces by done. etransitivity; [apply (final_mono 3 4); lia|].
  by rewrite final_word.
Qed.

Lemma many_greedy p s k x : k (snd (span p s)) = Some x -> many p s k = Some x.
Proof.
  revert x. induction s as [|c s IH]; simpl; [done|]. intros x. destruct (p c); [|done].
  destruct (span p s) as [a b]. simpl in *. intros H. by rewrite (IH x H).
Qed.

Lemma span_consumed p s a b : span p s = (a, b) -> consumed s b = a.
Proof. intros H. apply span_spec in H as [-> _]. apply consumed_app. Qed.

Lemma span_nil {A} (p : A -> bool) b : span p [] = b -> b = ([], []).
Proof. by intros <-. Qed.

(** What is left after the spaces is a word or the end. *)
Lemma word_after_spaces s a r c r' : span space s = (a, r) -> span nonspace r = (c, r') -> c = [] -> r = [].
Proof.
  intros Hs Hn ->. destruct r as [|x r]; [done|]. exfalso. apply span_rest in Hs.
  simpl in Hn. unfold nonspace in Hn at 1. rewrite Hs in Hn. simpl in Hn. by destruct (span nonspace r).
Qed.

Lemma words_match s n c e :
  words s = Some (n, c, e) ->
  exists cs, regex_match RELDEP_REGEX s = Some cs /\ str cs 1 = n /\ str cs 2 = c /\ str cs 3 = e.
Proof.
  unfold words. destruct (span nonspace s) as [n' r1] eqn:E1, (span space r1) as [a r2] eqn:E2,
    (span nonspace r2) as [c' r3] eqn:E3, (span space r3) as [b r4] eqn:E4, (span nonspace r4) as [e' r5] eqn:E5.
  destruct r5; [|done]. intros [= -> -> ->].
  set (cs := match c with [] => [(3, e); (1, n)] | _ => [(3, e); (2, c); (1, n)] end).
  exists cs. split; [|unfold cs; by destruct c].
  unfold regex_match, RELDEP_REGEX, seq. cbn [foldr run].
  apply many_greedy. rewrite E1. cbn [snd]. rewrite (span_consumed _ _ _ _ E1).
  apply many_greedy. rewrite E2. cbn [snd].
  destruct (decide (c = [])) as [Hc|Hc].
  - pose proof (word_after_spaces r1 a r2 c r3 E2 E3 Hc). subst c r2. apply span_nil in E3. simplify_eq.
    apply span_nil in E4. simplify_eq. apply span_nil in E5. simplify_eq. reflexivity.
  - assert (Hlen : (length r3 =? length r2) = false).
    { apply span_spec in E3 as [-> _]. rewrite length_app. apply Nat.eqb_neq. destruct c; [done|]. simpl. lia. }
    match goal with |- or_else ?x _ = _ => assert (Hx : x = Some cs); [|by rewrite Hx] end.
    apply many_greedy. rewrite E3. cbn [snd]. rewrite Hlen, (span_consumed _ _ _ _ E3).
    apply many_greedy. rewrite E4. cbn [snd].
    apply many_greedy. rewrite E5. cbn [snd]. rewrite (span_consumed _ _ _ _ E5). unfold cs. by destruct c.
Qed.

Lemma final_span_word j s w r :
  j mod 2 = 0 -> span nonspace s = (w, r) -> r <> [] -> final j s = final (S j) r.
Proof.
  intros Hj Hs Hr. destruct r as [|c r]; [done|]. pose proof (span_rest _ _ _ _ _ Hs) as Hc.
  apply span_spec in Hs as [-> Hw]. rewrite final_word by done. unfold final. simpl. f_equal.
  unfold step. rewrite Hc. pose proof (Nat.Div0.add_mod j 1 2) as H. rewrite Hj in H. replace (S j) with (j + 1) by lia.
  rewrite H, Hj. simpl. lia.
Qed.
Lemma final_span_space j s w r :
  j mod 2 = 1 -> span space s = (w, r) -> r <> [] -> final j s = final (S j) r.
Proof.
  intros Hj Hs Hr. destruct r as [|c r]; [done|]. pose proof (span_rest _ _ _ _ _ Hs) as Hc.
  apply span_spec in Hs as [-> Hw]. rewrite final_spaces by done. unfold final. simpl. f_equal.
  unfold step, nonspace. rewrite Hc. pose proof (Nat.Div0.add_mod j 1 2) as H. rewrite Hj in H. replace (S j) with (j + 1) by lia.
  rewrite H, Hj. simpl. lia.
Qed.

Lemma span_rest_nonempty {A} (p : A -> bool) s a b : span p s = (a, b) -> b <> [] -> s <> [].
Proof. intros Hs Hb ->. by apply span_nil in Hs as [= _ ->]. Qed.

Lemma words_none s : words s = None -> 4 < final 0 s.
Proof.
  unfold words. destruct (span nonspace s) as [n r1] eqn:E1, (span space r1) as [a r2] eqn:E2,
    (span nonspace r2) as [c r3] eqn:E3, (span space r3) as [b r4] eqn:E4, (span nonspace r4) as [e r5] eqn:E5.
  destruct r5 as [|x r5]; [done|]. intros _. assert (H5 : x :: r5 <> []) by done.
  pose proof (span_rest_nonempty _ _ _ _ E5 H5) as H4. pose proof (span_rest_nonempty _ _ _ _ E4 H4) as H3.
  pose proof (span_rest_nonempty _ _ _ _ E3 H3) as H2. pose proof (span_rest_nonempty _ _ _ _ E2 H2) as H1.
  rewrite (final_span_word 0 _ _ _ eq_refl E1 H1), (final_span_space 1 _ _ _ eq_refl E2 H2),
    (final_span_word 2 _ _ _ eq_refl E3 H3), (final_span_space 3 _ _ _ eq_refl E4 H4),
    (final_span_word 4 _ _ _ eq_refl E5 H5).
  pose proof (final_ge 5 (x :: r5)). lia.
Qed.

Definition operator (c : cstr) : option CmpType :=
  if bool_decide (c = lit "<") then Some LT else if bool_decide (c = lit "<=") then Some LTE
  else if bool_decide (c = lit "=") then Some EQ else if bool_decide (c = lit ">=") then Some GTE
  else if bool_decide (c = lit ">") then Some GT else None.

Lemma set_cmp_type_operator t c :
  set_cmp_type t c (length c) = match operator c with Some o => (o, true) | None => (t, false) end.
Proof.
  unfold set_cmp_type, operator. destruct c as [|x [|y [|z c]]]; simpl; [done| | |].
  - repeat case_bool_decide; simplify_eq; done.
  - repeat case_bool_decide; simplify_eq; simpl; try done; naive_solver.
  - repeat case_bool_decide; simplify_eq; done.
Qed.

(** A dependency is up to three words. One word is a name without version;
    three are a name, an operator of the table and a version; two words, more
    than three, or another operator are refused. The search of the expression
    never divides a word. *)
Theorem reldep_parse_words p s :
  parse p s =
  match words s with
  | None => (p, false)
  | Some (n, [], _) => (mkParser n [] NONE, true)
  | Some (_, _, []) => (p, false)
  | Some (n, c, e) => match operator c with
                      | Some o => (mkParser n e o, true)
                      | None => (mkParser n e (cmp_type p), false)
                      end
  end
  /\ forall n a c b e, cl nonspace n -> cl space a -> a <> [] -> cl nonspace c -> c <> [] -> cl space b -> b <> [] ->
     cl nonspace e -> words (n ++ a ++ c ++ b ++ e) = Some (n, c, e).
Proof.
  split.
  - unfold parse. destruct (words s) as [[[n c] e]|] eqn:E.
    + destruct (words_match s n c e E) as (cs & -> & <- & Hc & He). rewrite Hc, He.
      destruct c as [|x c].
      * assert (e = []) as ->; [|done]. unfold words in E.
        destruct (span nonspace s) as [n' r1], (span space r1) as [a r2] eqn:E2, (span nonspace r2) as [c' r3] eqn:E3,
          (span space r3) as [b r4] eqn:E4, (span nonspace r4) as [e' r5] eqn:E5. destruct r5; [|done]. simplify_eq.
        pose proof (word_after_spaces _ _ _ _ _ E2 E3 eq_refl). subst.
        apply span_nil in E3. simplify_eq. apply span_nil in E4. simplify_eq. apply span_nil in E5. by simplify_eq.
      * destruct e as [|y e]; [done|]. cbn [length Nat.eqb negb andb orb].
        change (S (length c)) with (length (x :: c)). rewrite set_cmp_type_operator.
        by destruct (operator (x :: c)).
    + apply words_none in E. destruct (regex_match RELDEP_REGEX s) as [cs|] eqn:Em; [|done].
      apply regex_match_sound, matches_final in Em. lia.
  - intros n a c b e Hn Ha Hane Hc Hcne Hb Hbne He. unfold words.
    assert (Hsp : forall (w r : cstr), cl space w -> w <> [] -> span nonspace (w ++ r) = ([], w ++ r)).
    { intros w r Hw Hne. destruct Hw as [|x w Hx Hw]; [done|]. simpl. unfold nonspace at 1. by rewrite Hx. }
    assert (Hwd : forall (w r : cstr), cl nonspace w -> w <> [] -> span space (w ++ r) = ([], w ++ r)).
    { intros w r Hw Hne. destruct Hw as [|x w Hx Hw]; [done|]. simpl. unfold nonspace in Hx. by apply negb_true_iff in Hx as ->. }
    rewrite (span_app nonspace n) by auto. rewrite (span_app space a) by auto. rewrite (span_app nonspace c) by auto.
    assert (He' : span space e = ([], e)).
    { destruct e as [|x e]; [done|]. rewrite <-(app_nil_r (x :: e)). by apply Hwd. }
    rewrite (span_app space b) by done.
    pose proof (span_app nonspace e [] He eq_refl) as H. rewrite app_nil_r in H. by rewrite H.
Qed.

Lemma reldep_parse_words_witness :
  cl nonspace (lit "dnf") /\ parse (mkParser [] [] NONE) (lit "dnf  >= 34.66.7-67.4") = (mkParser (lit "dnf") (lit "34.66.7-67.4") GTE, true).
Proof.
  assert (H1 : cl nonspace (lit "dnf")) by (apply (bool_decide_unpack _); vm_compute; exact I).
  split; [exact H1|].
  destruct (reldep_parse_words (mkParser [] [] NONE) (lit "dnf  >= 34.66.7-67.4")) as [-> Hw].
  change (lit "dnf  >= 34.66.7-67.4") with (lit "dnf" ++ lit "  " ++ lit ">=" ++ lit " " ++ lit "34.66.7-67.4").
  rewrite Hw; [reflexivity|exact H1|..]; try discriminate; apply (bool_decide_unpack _); vm_compute; exact I.
Defined.

(** Without spaces an operator belongs to the name. *)
Example no_spaces : parse (mkParser [] [] NONE) (lit "dnf>=3") = (mkParser (lit "dnf>=3") [] NONE, true).
Proof. vm_compute. reflexivity. Qed.
(** The empty text, and spaces alone, are names without characters. *)
Example empty_name : map snd (map (parse (mkParser [] [] NONE)) [[]; lit "  "; lit " dnf"]) = [true; true; false].
Proof. vm_compute. reflexivity. Qed.

(** ** Ids ([reldep.cpp]) and lists of them *)

(** The pool of libsolv: strings and relations are interned. A null name or
    version is [None]; a rich dependency that is wrong is 0. *)
Class Pool := {
  pool : Type;
  pool_str2id : option cstr -> pool -> Z * pool;
  pool_rel2id : Z -> Z -> Z -> pool -> Z * pool;
  pool_parserpmrichdep : cstr -> pool -> Z * pool;
  (** The strings that a glob finds in the pool. *)
  dataiterator : option cstr -> pool -> list cstr;
}.

Section pool.
Context `{Pool}.
Inductive error := CannotParse.

Definition nullable (s : cstr) : option cstr := match s with [] => None | _ => Some s end.
Definition get_name_cstr (p : ReldepParser) : option cstr := nullable (name p).
Definition get_evr_cstr (p : ReldepParser) : option cstr := nullable (evr p).

Definition get_reldep_id (name version : option cstr) (cmp : CmpType) (pl : pool) : Z * pool :=
  let '(id, pl) := pool_str2id name pl in
  match version with
  | None => (id, pl)
  | Some _ => let '(evr_id, pl) := pool_str2id version pl in pool_rel2id id evr_id (cmp_value cmp) pl
  end.
Definition get_reldep_id_str (reldep_str : cstr) (pl : pool) : result error Z * pool :=
  match reldep_str with
  | "("%char :: _ =>
      let '(id, pl) := pool_parserpmrichdep reldep_str pl in
      (if (id =? 0)%Z then Err CannotParse else Ok id, pl)
  | _ =>
      match parse (mkParser [] [] NONE) reldep_str with
      | (_, false) => (Err CannotParse, pl)
      | (p, true) => let '(id, pl) := get_reldep_id (get_name_cstr p) (get_evr_cstr p) (cmp_type p) pl in (Ok id, pl)
      end
  end.

(** [ReldepList]: the queue of ids (see [IdQueue]). *)
Definition add_reldep (reldep_str : cstr) (queue : list Z) (pl : pool) : bool * list Z * pool :=
  match get_reldep_id_str reldep_str pl with
  | (Ok id, pl) => (true, queue ++ [id], pl)
  | (Err _, pl) => (false, queue, pl)
  end.
Fixpoint add_globbed (p : ReldepParser) (strs : list cstr) (queue : list Z) (pl : pool) : list Z * pool :=
  match strs with
  | [] => (queue, pl)
  | s :: strs =>
      let '(id, pl) := get_reldep_id (Some s) (get_evr_cstr p) (cmp_type p) pl in
      add_globbed p strs (queue ++ [id]) pl
  end.
Definition add_reldep_with_glob (reldep_str : cstr) (queue : list Z) (pl : pool) : bool * list Z * pool :=
  match parse (mkParser [] [] NONE) reldep_str with
  | (_, false) => (false, queue, pl)
  | (p, true) => let '(queue, pl) := add_globbed p (dataiterator (get_name_cstr p) pl) queue pl in (true, queue, pl)
  end.
End pool.
End Reldep.

(** ** Module specifications (dnf-4 [nsvcap.cpp]) *)
Module Nsvcap.
Import Regex.
Notation is_empty := Nevra.is_empty.

Definition ASCII_LETTERS : cstr := lit "abcdefghijklmnopqrstuvwxyzABCDEFGHIJKLMNOPQRSTUVWXYZ".
Definition DIGITS : cstr := lit "0123456789".
Definition HEXADECIMAL : cstr := DIGITS ++ lit "abcdef".
Definition MODULE_SPECIAL : cstr := lit "+._-".
Definition GLOB : cstr := lit "][*?!".

Definition name_char : ascii -> bool := one_of (GLOB ++ ASCII_LETTERS ++ DIGITS ++ MODULE_SPECIAL).
Definition version_char : ascii -> bool := one_of (GLOB ++ DIGITS ++ lit "-").
Definition context_char : ascii -> bool := one_of (GLOB ++ HEXADECIMAL ++ lit "-").
Definition MODULE_NAME : re := Group 1 (Many1 name_char).
Definition MODULE_STREAM : re := Group 2 (Many1 name_char).
Definition MODULE_VERSION : re := Group 3 (Many1 version_char).
Definition MODULE_CONTEXT : re := Group 4 (Many1 context_char).
Definition MODULE_ARCH : re := Group 5 (Many1 name_char).
Definition MODULE_PROFILE : re := Group 6 (Many1 name_char).
Definition none (i : nat) : re := Group i Eps.
Notation colon := (literal ":").
Notation slash := (literal "/").

Inductive HyModuleForm :=
| NSVCAP | NSVCA | NSVAP | NSVA | NSAP | NSA | NSVCP | NSVP | NSVC | NSV | NSP | NS | NAP | NA | NP | N.
Definition HY_MODULE_FORMS_MOST_SPEC : list HyModuleForm :=
  [NSVCAP; NSVCA; NSVAP; NSVA; NSAP; NSA; NSVCP; NSVP; NSVC; NSV; NSP; NS; NAP; NA; NP; N].

Definition NSVCAP_FORM_REGEX (form : HyModuleForm) : re :=
  match form with
  | NSVCAP => seq [MODULE_NAME; colon; MODULE_STREAM; colon; MODULE_VERSION; colon; MODULE_CONTEXT; colon; Opt colon; MODULE_ARCH; slash; MODULE_PROFILE]
  | NSVCA => seq [MODULE_NAME; colon; MODULE_STREAM; colon; MODULE_VERSION; colon; MODULE_CONTEXT; colon; Opt colon; MODULE_ARCH; Opt slash; none 6]
  | NSVAP => seq [MODULE_NAME; colon; MODULE_STREAM; colon; MODULE_VERSION; none 4; colon; colon; MODULE_ARCH; slash; MODULE_PROFILE]
  | NSVA => seq [MODULE_NAME; colon; MODULE_STREAM; colon; MODULE_VERSION; none 4; colon; colon; MODULE_ARCH; Opt slash; none 6]
  | NSAP => seq [MODULE_NAME; colon; MODULE_STREAM; none 3; none 4; colon; colon; MODULE_ARCH; slash; MODULE_PROFILE]
  | NSA => seq [MODULE_NAME; colon; MODULE_STREAM; none 3; none 4; colon; colon; MODULE_ARCH; Opt slash; none 6]
  | NSVCP => seq [MODULE_NAME; colon; MODULE_STREAM; colon; MODULE_VERSION; colon; MODULE_CONTEXT; none 5; slash; MODULE_PROFILE]
  | NSVP => seq [MODULE_NAME; colon; MODULE_STREAM; colon; MODULE_VERSION; none 4; none 5; slash; MODULE_PROFILE]
  | NSVC => seq [MODULE_NAME; colon; MODULE_STREAM; colon; MODULE_VERSION; colon; MODULE_CONTEXT; none 5; Opt slash; none 6]
  | NSV => seq [MODULE_NAME; colon; MODULE_STREAM; colon; MODULE_VERSION; none 4; none 5; Opt slash; none 6]
  | NSP => seq [MODULE_NAME; colon; MODULE_STREAM; none 3; none 4; none 5; slash; MODULE_PROFILE]
  | NS => seq [MODULE_NAME; colon; MODULE_STREAM; none 3; none 4; none 5; Opt slash; none 6]
  | NAP => seq [MODULE_NAME; none 2; none 3; none 4; colon; colon; MODULE_ARCH; slash; MODULE_PROFILE]
  | NA => seq [MODULE_NAME; none 2; none 3; none 4; colon; colon; MODULE_ARCH; Opt slash; none 6]
  | NP => seq [MODULE_NAME; none 2; none 3; none 4; none 5; slash; MODULE_PROFILE]
  | N => seq [MODULE_NAME; none 2; none 3; none 4; none 5; Opt slash; none 6]
  end.

Record Nsvcap := mkNsvcap { name : cstr; stream : cstr; version : cstr; context : cstr; arch : cstr; profile : cstr }.

Section posix.
Context (regexec : re -> cstr -> option captures).

(** The object after the call, and what the call returns. *)
Definition parse (n : Nsvcap) (nsvcapStr : cstr) (form : HyModuleForm) : Nsvcap * bool :=
  match regexec (NSVCAP_FORM_REGEX form) nsvcapStr with
  | None => (n, false)
  | Some m =>
      if length (str m 1) =? 0 then (n, false)
      else (mkNsvcap (str m 1) (str m 2) (str m 3) (str m 4) (str m 5) (str m 6), true)
  end.
Definition clear (n : Nsvcap) : Nsvcap := mkNsvcap [] [] [] [] [] [].

(** ** Printing *)

(** The parts that a form has. *)
Definition has_stream (form : HyModuleForm) : bool := match form with NAP | NA | NP | N => false | _ => true end.
Definition has_version (form : HyModuleForm) : bool :=
  match form with NSVCAP | NSVCA | NSVAP | NSVA | NSVCP | NSVP | NSVC | NSV => true | _ => false end.
Definition has_context (form : HyModuleForm) : bool := match form with NSVCAP | NSVCA | NSVCP | NSVC => true | _ => false end.
Definition has_arch (form : HyModuleForm) : bool :=
  match form with NSVCAP | NSVCA | NSVAP | NSVA | NSAP | NSA | NAP | NA => true | _ => false end.
Definition has_profile (form : HyModuleForm) : bool :=
  match form with NSVCAP | NSVAP | NSAP | NSVCP | NSVP | NSP | NAP | NP => true | _ => false end.

Definition part (b : bool) (p : ascii -> bool) (w : cstr) : Prop := if b then w <> [] /\ cl p w else w = [].
Definition valid (form : HyModuleForm) (n : Nsvcap) : Prop :=
  part true name_char (name n) /\ part (has_stream form) name_char (stream n)
  /\ part (has_version form) version_char (version n) /\ part (has_context form) context_char (context n)
  /\ part (has_arch form) name_char (arch n) /\ part (has_profile form) name_char (profile n).

Definition print_part (b : bool) (w : cstr) : cstr := if b then ":"%char :: w else [].
(** [double]: two colons before the architecture where one would do; [last]: a
    slash at the end. *)
Definition print_arch (form : HyModuleForm) (double : bool) (w : cstr) : cstr :=
  if has_arch form then ":"%char :: (if has_context form && negb double then w else ":"%char :: w) else [].
Definition print_profile (form : HyModuleForm) (last : bool) (w : cstr) : cstr :=
  if has_profile form then "/"%char :: w else if last then ["/"%char] else [].
Definition print (form : HyModuleForm) (double last : bool) (n : Nsvcap) : cstr :=
  name n ++ print_part (has_stream form) (stream n) ++ print_part (has_version form) (version n)
  ++ print_part (has_context form) (context n) ++ print_arch form double (arch n) ++ print_profile form last (profile n).

Definition caps (n : Nsvcap) : captures :=
  [(6, profile n); (5, arch n); (4, context n); (3, version n); (2, stream n); (1, name n)].

Lemma matches_opt c s cs s' cs' :
  matches (Opt (literal c)) s cs s' cs' <-> exists b : bool, s = (if b then [c] else []) ++ s' /\ cs' = cs.
Proof.
  cbn [matches]. rewrite (matches_literal c). split.
  - intros [[-> ->]|[[-> ->] _]]; [by exists false|by exists true].
  - intros ([|] & -> & ->); [right|by left]. simpl. split; [done|lia].
Qed.

Ltac parts :=
  repeat match goal with
  | H : matches (seq (_ :: _)) _ _ _ _ |- _ => apply matches_seq_cons in H as (? & ? & ? & H)
  | H : matches (seq []) _ _ _ _ |- _ => destruct H as [? ?]
  | H : matches (literal _) _ _ _ _ |- _ => apply matches_literal in H as [-> ->]
  | H : matches (Opt (literal _)) _ _ _ _ |- _ => apply matches_opt in H as (? & -> & ->)
  | H : matches (Group _ (Many1 _)) _ _ _ _ |- _ => apply matches_group1 in H as (? & -> & ? & ? & ->)
  | H : matches (Group _ Eps) _ _ _ _ |- _ => apply matches_group_eps in H as [? ->]; subst
  end; subst.

Ltac found :=
  eexists (mkNsvcap _ _ _ _ _ _); split; cycle 1; [split; cycle 1; [reflexivity|];
    cbn [print name stream version context arch profile print_part print_arch print_profile has_stream has_version
         has_context has_arch has_profile andb negb app]; rewrite ?app_nil_r; reflexivity
  |unfold valid, part; simpl; split_and!; first [eassumption|reflexivity]].
Ltac build :=
  repeat match goal with
  | |- matches (seq (_ :: _)) _ _ _ _ => apply matches_seq_cons; do 2 eexists; split
  | |- matches (seq []) _ _ _ _ => split; reflexivity
  | |- matches (literal _) _ _ _ _ => apply matches_literal; split; reflexivity
  | |- matches (Opt (literal _)) (?c :: _) _ _ _ =>
      apply matches_opt; first [exists true; split; reflexivity | exists false; split; reflexivity]
  | |- matches (Opt (literal _)) _ _ _ _ => apply matches_opt; exists false; split; reflexivity
  | |- matches (Group _ (Many1 _)) _ _ _ _ => apply matches_group1; eexists; split_and!; [reflexivity|eassumption|eassumption|reflexivity]
  | |- matches (Group _ Eps) _ _ _ _ => apply matches_group_eps; split; reflexivity
  end.

Lemma module_form_matches form s cs :
  matches (NSVCAP_FORM_REGEX form) s [] [] cs -> exists d l n, valid form n /\ s = print form d l n /\ cs = caps n.
Proof.
  intros H. unfold NSVCAP_FORM_REGEX, MODULE_NAME, MODULE_STREAM, MODULE_VERSION, MODULE_CONTEXT, MODULE_ARCH,
    MODULE_PROFILE, none in H.
  destruct form; parts; repeat match goal with b : bool |- _ => destruct b end;
    cbn [app]; rewrite ?app_nil_r;
    first [exists true, true; found|exists true, false; found|exists false, true; found|exists false, false; found].
Qed.

Lemma matches_module_form form d l n : valid form n -> matches (NSVCAP_FORM_REGEX form) (print form d l n) [] [] (caps n).
Proof.
  intros Hv. destruct n as [nn s v c a p]. unfold NSVCAP_FORM_REGEX, MODULE_NAME, MODULE_STREAM, MODULE_VERSION,
    MODULE_CONTEXT, MODULE_ARCH, MODULE_PROFILE, none.
  rewrite <-(app_nil_r (print form d l _)).
  destruct form, d, l; unfold valid, part in Hv; simpl in Hv; destruct_and!; subst;
    cbn [print caps name stream version context arch profile print_part print_arch print_profile has_stream has_version
         has_context has_arch has_profile andb negb app];
    repeat (rewrite <-app_assoc; cbn [app]); build.
Qed.

(** ** The division is unique *)

Definition sep (c : ascii) : bool := one_of (lit ":/") c.
(** Nothing, or a separator, comes next. *)
Definition stop (t : cstr) : Prop := match t with [] => True | c :: _ => sep c = true end.
(** A class without separators. *)
Definition inside (p : ascii -> bool) : Prop := forall c, p c = true -> sep c = false.

Lemma peel p a t a' t' :
  inside p -> cl p a -> cl p a' -> stop t -> stop t' -> a ++ t = a' ++ t' -> a = a' /\ t = t'.
Proof.
  intros Hp Ha Ha' Ht Ht' E.
  assert (Hs : forall w r, cl p w -> stop r -> span (fun c => negb (sep c)) (w ++ r) = (w, r)).
  { intros w r Hw Hr. apply span_app.
    - eapply Forall_impl; [exact Hw|]. intros c Hc. simpl in *. by rewrite (Hp c Hc).
    - destruct r as [|c r]; [done|]. simpl in *. by rewrite Hr. }
  pose proof (Hs a t Ha Ht) as H1. rewrite E, (Hs a' t' Ha' Ht') in H1. by simplify_eq.
Qed.

Lemma peel_part b p w t w' t' :
  inside p -> part b p w -> part b p w' -> stop t -> stop t' ->
  print_part b w ++ t = print_part b w' ++ t' -> w = w' /\ t = t'.
Proof.
  intros Hp Hw Hw' Ht Ht' E. destruct b; simpl in *; [|by subst]. injection E as E. apply (peel p); try done; [apply Hw|apply Hw'].
Qed.

Lemma stop_part b w t : stop t -> stop (print_part b w ++ t).
Proof. by destruct b. Qed.
Lemma stop_profile form l w : stop (print_profile form l w).
Proof. unfold print_profile. by destruct (has_profile form), l. Qed.
Lemma stop_arch form d w t : stop t -> stop (print_arch form d w ++ t).
Proof. unfold print_arch. by destruct (has_arch form). Qed.

Lemma inside_one_of set : ":"%char ∉ set -> "/"%char ∉ set -> inside (one_of set).
Proof.
  intros H1 H2 c Hc. unfold sep, one_of in *. apply bool_decide_eq_true in Hc. apply bool_decide_eq_false. intros Hs.
  set_unfold in Hs. destruct Hs as [->|[->|[]]]; done.
Qed.
Ltac decided := apply (bool_decide_unpack _); vm_compute; exact I.
Lemma inside_name : inside name_char.
Proof. apply inside_one_of; decided. Qed.
Lemma inside_version : inside version_char.
Proof. apply inside_one_of; decided. Qed.
Lemma inside_context : inside context_char.
Proof. apply inside_one_of; decided. Qed.

Lemma colon_not_name w c t : w <> [] -> cl name_char w -> w ++ t <> ":"%char :: c.
Proof.
  intros Hne Hw E. destruct Hw as [|x w Hx _]; [done|]. simpl in E. injection E as -> _. by apply inside_name in Hx.
Qed.

Lemma print_unique form d l n d' l' n' :
  valid form n -> valid form n' -> print form d l n = print form d' l' n' -> n = n'.
Proof.
  destruct n as [nn s v c a p], n' as [nn' s' v' c' a' p'].
  intros ([_ Hn] & Hs & Hv & Hc & Ha & Hp) ([_ Hn'] & Hs' & Hv' & Hc' & Ha' & Hp'). unfold print. simpl in *. intros E.
  apply (peel name_char) in E as [-> E]; auto using inside_name, stop_part, stop_arch, stop_profile.
  apply (peel_part _ name_char) in E as [-> E]; auto using inside_name, stop_part, stop_arch, stop_profile.
  apply (peel_part _ version_char) in E as [-> E]; auto using inside_version, stop_part, stop_arch, stop_profile.
  apply (peel_part _ context_char) in E as [-> E]; auto using inside_context, stop_arch, stop_profile.
  assert (Harch : a = a' /\ print_profile form l p = print_profile form l' p').
  { unfold print_arch in E. destruct (has_arch form) eqn:Hform; [|simpl in *; by subst].
    destruct Ha as [Hane Ha], Ha' as [Hane' Ha'].
    assert (Hstop := stop_profile form). destruct (has_context form); simpl in E; injection E as E.
    - destruct d, d'; simpl in E.
      + injection E as E. apply (peel name_char) in E; auto using inside_name.
      + symmetry in E. by apply colon_not_name in E.
      + by apply colon_not_name in E.
      + apply (peel name_char) in E; auto using inside_name.
    - apply (peel name_char) in E; auto using inside_name. }
  destruct Harch as [-> E']. f_equal. unfold print_profile in E'. destruct (has_profile form); simpl in *; [congruence|by subst].
Qed.

Context `{!Engine regexec}.

(** Parsing a module specification in one of the sixteen forms succeeds
    exactly on the texts that the form prints (with one or two colons before
    the architecture where there is a context, and an optional slash at the
    end where there is no profile), and gives the parts back, whichever match
    the regular expression engine prefers. *)
Theorem nsvcap_parse_print n0 s form :
  (forall n, parse n0 s form = (n, true) <-> valid form n /\ exists d l, s = print form d l n)
  /\ (snd (parse n0 s form) = false -> fst (parse n0 s form) = n0).
Proof.
  unfold parse. destruct (regexec (NSVCAP_FORM_REGEX form) s) as [cs|] eqn:E.
  - apply engine_sound, module_form_matches in E as (d & l & n1 & Hv & -> & ->).
    assert (Hname : (length (str (caps n1) 1) =? 0) = false).
    { destruct Hv as [[Hne _] _]. destruct n1 as [[|x nn] st v c a p]; done. }
    rewrite Hname. split; [|done]. assert (Hn1 : mkNsvcap (str (caps n1) 1) (str (caps n1) 2) (str (caps n1) 3)
      (str (caps n1) 4) (str (caps n1) 5) (str (caps n1) 6) = n1) by by destruct n1.
    rewrite Hn1. intros n. split; [intros [= <-]; eauto|]. intros (Hn & d' & l' & Ep).
    by rewrite (print_unique form d l n1 d' l' n Hv Hn Ep).
  - split; [|done]. intros n. split; [done|]. intros (Hn & d & l & ->).
    destruct (engine_complete _ _ _ (matches_module_form form d l n Hn)) as [x Hx]. congruence.
Qed.
End posix.

Lemma nsvcap_parse_print_witness :
  let n := mkNsvcap (lit "perl") (lit "5.26") [] [] (lit "x86_64") (lit "default") in
  valid NSAP n /\ parse regex_match (clear n) (lit "perl:5.26::x86_64/default") NSAP = (n, true).
Proof.
  intros n. assert (Hv : valid NSAP n).
  { unfold valid, part. split_and!; try done; apply (bool_decide_unpack _); vm_compute; exact I. }
  split; [exact Hv|]. apply (nsvcap_parse_print regex_match (clear n) (lit "perl:5.26::x86_64/default") NSAP).
  split; [exact Hv|]. exists true, false. reflexivity.
Defined.

(** Three colons are divided in one way only. *)
Example context_and_arch :
  map (fun s => fst (parse regex_match (mkNsvcap [] [] [] [] [] []) (lit s) NSVCA)) ["a:b:1:c:d"; "a:b:1:c::d/"]%string
  = [mkNsvcap (lit "a") (lit "b") (lit "1") (lit "c") (lit "d") []; mkNsvcap (lit "a") (lit "b") (lit "1") (lit "c") (lit "d") []].
Proof. vm_compute. reflexivity. Qed.
End Nsvcap.
