(* ===== verification/Packages.v ===== *)
(** * Packages: solvables and their fields ([rpm/solv/package_private.hpp], [rpm/solv_sack_impl.hpp])

    A package is the id of a solvable of libsolv's pool, whose name, architecture
    and version are ids of strings. What libsolv answers about a pool is the class
    [LibsolvPool], with the documented behaviour as [LibsolvPoolLaws]; the pool
    itself is the state of [Reldep.Pool], since interning a dependency changes
    it. The sack caches the list of all packages, as a map and sorted. *)

From S2P Require Import Prelude Numeric Sack Solv Regex Specs.
From stdpp Require Import sorting.
Local Open Scope Z_scope.

(** [Solvable]: ids of strings, the id of its repository, and what it obsoletes
    ([repo->idarraydata + obsoletes] up to the terminating zero). *)
Record Solvable := mkSolvable { s_name : Z; s_arch : Z; s_evr : Z; s_repo : option Z; s_obsoletes : list Z }.

(** The flags of a search, and the keys of the data of a solvable. *)
Inductive SearchFlag :=
  SEARCH_FILES | SEARCH_COMPLETE_FILELIST | SEARCH_STRING | SEARCH_SUBSTRING | SEARCH_GLOB | SEARCH_NOCASE.
Inductive Key :=
| SOLVABLE_FILELIST | SOLVABLE_DESCRIPTION | SOLVABLE_SUMMARY | SOLVABLE_URL
| SOLVABLE_CONFLICTS | SOLVABLE_ENHANCES | SOLVABLE_OBSOLETES | SOLVABLE_RECOMMENDS | SOLVABLE_REQUIRES
| SOLVABLE_SUGGESTS | SOLVABLE_SUPPLEMENTS.
#[global] Instance flag_eq_dec : EqDecision SearchFlag.
Proof. solve_decision. Defined.
#[global] Instance key_eq_dec : EqDecision Key.
Proof. solve_decision. Defined.

Class LibsolvPool `{Reldep.Pool} := {
  nsolvables : Reldep.pool -> Z;
  pool_id2solvable : Reldep.pool -> Z -> Solvable;
  (** The names of the repositories by their ids; 0 and ids of repositories that are gone have none. *)
  repos : Reldep.pool -> list (option cstr);
  pool_id2str : Reldep.pool -> Z -> cstr;
  (** [pool_str2id] and [pool_strn2id] without creating an id: 0 for an unknown string. *)
  pool_find_id : Reldep.pool -> cstr -> Z;
  (** [EVRCMP_COMPARE]. *)
  pool_evrcmp_str : cstr -> cstr -> Z;
  pool_solvable2str : Reldep.pool -> Z -> cstr;
  (** Whether the iterator over the data of a solvable finds anything. *)
  dataiterator_step : Reldep.pool -> Key -> list SearchFlag -> Z -> cstr -> bool;
  (** File lists are completed and the index of what is provided is made. *)
  pool_createwhatprovides : Reldep.pool -> Reldep.pool;
  (** The loop [FOR_PROVIDES]. *)
  provides : Reldep.pool -> Z -> list Z;
  solvable_lookup_idarray : Reldep.pool -> Z -> Key -> list Z;
  pool_match_dep : Reldep.pool -> Z -> Z -> bool;
  pool_match_nevr : Reldep.pool -> Z -> Z -> bool;
  obsoleteusesprovides : Reldep.pool -> bool;
  (** The selection after [selection_make_matchsolvable] with [SELECTION_FILTER | SELECTION_WITH_ALL],
      and the flag it starts from. *)
  selection_make_matchsolvable : Reldep.pool -> Queue -> Z -> Key -> Queue;
  SOLVER_SOLVABLE_ALL : Z;
  (** Texts of a solvable that may be missing. *)
  lookup_sourcename : Reldep.pool -> Z -> option cstr;
  solvable_lookup_sourcepkg : Reldep.pool -> Z -> option cstr;
  solvable_get_location : Reldep.pool -> Z -> option cstr;
}.

Module Packages.
Import QueryCmp Matches.

Inductive error :=
| NotSupportedCmpType
  (** A failing assertion, or a read that is not allowed. *)
| Crash.
#[global] Instance error_eq_dec : EqDecision error.
Proof. solve_decision. Defined.

(** ** Functions of the C library on strings *)

Definition is_glob_pattern (s : cstr) : bool := existsb (one_of (lit "*[?")) (c_str s).
(** [strstr]: a position at which the rest begins with the needle. *)
Fixpoint strstr (s needle : cstr) : bool :=
  starts_with s needle || match s with [] => false | _ :: s => strstr s needle end.
(** [strtol] to the base 10: the value, and whether all of the text was used. *)
Definition strtol (s : cstr) : Z * bool :=
  let '(neg, ds, rest) := Numeric.scan_int s in
  match ds with
  | [] => (0, bool_decide (s = []))
  | _ =>
      let m := Z.of_N (Numeric.value_of 10 Numeric.digit_val ds) in
      (Z.max (- 2 ^ 63) (Z.min (2 ^ 63 - 1) (if neg then - m else m)), bool_decide (rest = []))
  end.

(** ** The parts of a version *)

(** [pool_split_evr]: epoch, version and release, which may be null; [None] when
    it reads behind the text or asserts. The first character is never a separator. *)
Definition pool_split_evr (evr : cstr) : option (option cstr * cstr * option cstr) :=
  match evr with
  | [] => None
  | _ :: s =>
      match find_idx (one_of (lit ":-")) s with
      | None => Some (None, evr, None)
      | Some i =>
          if bool_decide (s !! i = Some "-"%char)
          then Some (None, take (S i) evr, Some (drop (S (S i)) evr))
          else
            match drop (S (S i)) evr with
            | [] => None
            | c :: v =>
                match find_idx (one_of (lit "-")) v with
                | None => None
                | Some j => Some (Some (take (S i) evr), c :: take j v, Some (drop (S j) v))
                end
            end
      end
  end.

Section pool.
Context `{LibsolvPool}.
Implicit Types (pl : Reldep.pool) (p : Z).

Definition get_name pl p : cstr := pool_id2str pl (s_name (pool_id2solvable pl p)).
Definition get_evr pl p : cstr := pool_id2str pl (s_evr (pool_id2solvable pl p)).
Definition get_arch pl p : cstr := pool_id2str pl (s_arch (pool_id2solvable pl p)).
Definition get_nevra pl p : cstr := pool_solvable2str pl p.
Definition split pl p : result error (option cstr * cstr * option cstr) :=
  match pool_split_evr (get_evr pl p) with Some x => Ok x | None => Err Crash end.
Definition BASE_EPOCH : cstr := lit "0".
Definition get_epoch_cstring pl p : result error cstr := let* x := split pl p in Ok (default BASE_EPOCH (fst (fst x))).
Definition get_version pl p : result error cstr := let* x := split pl p in Ok (snd (fst x)).
(** The release may be null. *)
Definition get_release pl p : result error (option cstr) := let* x := split pl p in Ok (snd x).
(** A null pointer that a function of the C library does not take. *)
Definition deref {A} (x : result error (option A)) : result error A :=
  let* o := x in match o with Some s => Ok s | None => Err Crash end.
Definition get_epoch pl p : result error Z :=
  let* x := split pl p in
  match fst (fst x) with
  | None => Ok 0
  | Some e => let '(z, all) := strtol e in if (0 <? z) && all then Ok z else Err Crash
  end.
(** [get_full_nevra]: an epoch is looked for from the second character up to the first dash. *)
Definition present_epoch (evr : cstr) : bool :=
  match evr with
  | [] => false
  | _ :: s => match find_idx (one_of (lit ":-")) s with Some i => bool_decide (s !! i = Some ":"%char) | None => false end
  end.
Definition get_full_nevra pl p : cstr :=
  let name := get_name pl p in
  let evr := get_evr pl p in
  let arch := get_arch pl p in
  name ++ lit "-" ++ (if present_epoch evr then [] else lit "0:") ++ evr ++ (match arch with [] => [] | _ => "."%char :: arch end).

(** Every second entry of a selection, from the second on: the ids behind their flags. *)
Fixpoint selected (out : Queue) : list Z := match out with _ :: id :: out => id :: selected out | _ => [] end.

(** ** The packages of a pool ([solv_sack_impl.hpp]) *)

Definition is_package pl (id : Z) : bool := negb (starts_with (get_name pl id) (lit "patch:")).
(** [FOR_POOL_SOLVABLES]: from 2 on, those that belong to a repository. *)
Definition pool_solvables pl : list Z :=
  List.filter (fun id => bool_decide (is_Some (s_repo (pool_id2solvable pl id)))) (seqZ 2 (nsolvables pl - 2)).
Definition packages pl : list Z := List.filter (is_package pl) (pool_solvables pl).

Definition nevra_solvable_cmp_key (first second : Solvable) : bool :=
  if negb (s_name first =? s_name second) then s_name first <? s_name second
  else if negb (s_arch first =? s_arch second) then s_arch first <? s_arch second
  else s_evr first <? s_evr second.
(** The order that [std::sort] makes of it: the second is not before the first. *)
Definition solvable_le pl (a b : Z) : Prop :=
  nevra_solvable_cmp_key (pool_id2solvable pl b) (pool_id2solvable pl a) = false.
#[global] Instance solvable_le_dec pl : RelDecision (solvable_le pl).
Proof. intros a b. unfold solvable_le. apply _. Defined.

Context `{Libsolv}.

(** [SolvSack::Impl], as far as queries use it; the elements of the sorted list are solvables by their ids. *)
Record Sack := mkSack {
  the_pool : Reldep.pool;
  cached_sorted_solvables : list Z; cached_sorted_solvables_size : Z;
  cached_solvables : Map; cached_solvables_size : Z;
  provides_ready : bool;
}.
Definition new_sack pl : Sack := mkSack pl [] 0 (SolvMap.make 0) 0 false.
Definition set_pool pl (s : Sack) : Sack :=
  mkSack pl (cached_sorted_solvables s) (cached_sorted_solvables_size s) (cached_solvables s) (cached_solvables_size s) (provides_ready s).

(** [cached_solvables_size] is never set: the map is always made anew. *)
Definition get_solvables (s : Sack) : Sack * Map :=
  let n := nsolvables (the_pool s) in
  if n =? cached_solvables_size s then (s, cached_solvables s)
  else
    let m := if Z.shiftl (Z.of_nat (length (cached_solvables s))) 3 <? n then SolvMap.make n else SolvMap.clear (cached_solvables s) in
    let m := fold_left SolvMap.add_unsafe (packages (the_pool s)) m in
    (mkSack (the_pool s) (cached_sorted_solvables s) (cached_sorted_solvables_size s) m (cached_solvables_size s) (provides_ready s), m).

(** A loop over the ids of a map. *)
Definition each (m : Map) : list Z := default [] (MapIterator.iterate m).

Definition get_sorted_solvables (s : Sack) : Sack * list Z :=
  let n := nsolvables (the_pool s) in
  if n =? cached_sorted_solvables_size s then (s, cached_sorted_solvables s)
  else
    let '(s, m) := get_solvables s in
    let l := merge_sort (solvable_le (the_pool s)) (each m) in
    (mkSack (the_pool s) l n (cached_solvables s) (cached_solvables_size s) (provides_ready s), l).

Definition make_provides_ready (s : Sack) : Sack :=
  if provides_ready s then s
  else mkSack (pool_createwhatprovides (the_pool s)) (cached_sorted_solvables s) (cached_sorted_solvables_size s)
         (cached_solvables s) (cached_solvables_size s) true.
End pool.

(** ** [std::lower_bound] *)

Section lower_bound.
Context {A : Type} (less : A -> bool).

(** The binary search; [less x] is whether [x] comes before the value. *)
Fixpoint lower_bound_loop (fuel : nat) (l : list A) (first len : nat) : nat :=
  match fuel with
  | O => first
  | S fuel =>
      match len with
      | O => first
      | _ =>
          let half := Nat.div2 len in
          match l !! (first + half)%nat with
          | Some x => if less x then lower_bound_loop fuel l (S (first + half)) (len - half - 1) else lower_bound_loop fuel l first half
          | None => first
          end
      end
  end.
Definition lower_bound (l : list A) : nat := lower_bound_loop (S (length l)) l 0 (length l).
(** The loop from there on. *)
Fixpoint run_while (p : A -> bool) (l : list A) : list A :=
  match l with [] => [] | x :: l => if p x then x :: run_while p l else [] end.
Definition equal_range (p : A -> bool) (l : list A) : list A := run_while p (drop (lower_bound l) l).

(** On a list in which the smaller elements come first, the search ends at the
    first that is not smaller. *)
Lemma lower_bound_loop_spec fuel l first len a b :
  l = a ++ b -> Forall (fun x => less x = true) a -> Forall (fun x => less x = false) b ->
  (first <= length a)%nat -> (length a <= first + len)%nat -> (first + len <= length l)%nat -> (len < fuel)%nat ->
  lower_bound_loop fuel l first len = length a.
Proof.
  intros -> Ha Hb. rewrite length_app. revert first len. induction fuel as [|fuel IH]; intros first len H1 H2 H3 Hf; [lia|]. simpl.
  destruct len as [|len]; [lia|]. set (half := Nat.div2 (S len)).
  assert (Hh : (half < S len)%nat) by (apply Nat.lt_div2; lia).
  destruct (lookup_lt_is_Some_2 (a ++ b) (first + half)) as [x Hx]; [rewrite length_app; lia|]. rewrite Hx.
  destruct (Nat.lt_ge_cases (first + half) (length a)) as [Hlt|Hge].
  - rewrite lookup_app_l in Hx by done. rewrite (proj1 (Forall_lookup _ _) Ha _ _ Hx). apply IH; lia.
  - rewrite lookup_app_r in Hx by done. rewrite (proj1 (Forall_lookup _ _) Hb _ _ Hx). apply IH; lia.
Qed.

Lemma run_while_app p a b : Forall (fun x => p x = true) a -> Forall (fun x => p x = false) b -> run_while p (a ++ b) = a.
Proof.
  intros Ha Hb. induction Ha as [|x a Hx _ IH]; simpl; [|by rewrite Hx, IH].
  destruct Hb as [|x b Hx _]; simpl; [done|by rewrite Hx].
Qed.

Lemma filter_all (p : A -> bool) l : Forall (fun x => p x = true) l -> List.filter p l = l.
Proof. induction 1 as [|x l Hx _ IH]; simpl; [done|]. by rewrite Hx, IH. Qed.
Lemma filter_none (p : A -> bool) l : Forall (fun x => p x = false) l -> List.filter p l = [].
Proof. induction 1 as [|x l Hx _ IH]; simpl; [done|]. by rewrite Hx, IH. Qed.

(** The search and the loop behind it find what a scan of the whole list finds. *)
Lemma equal_range_filter p (greater : A -> bool) l :
  (forall x, p x = negb (less x) && negb (greater x)) ->
  StronglySorted (fun x y => (less y = true -> less x = true) /\ (greater x = true -> greater y = true)) l ->
  (forall x, less x = true -> greater x = false) ->
  equal_range p l = List.filter p l.
Proof.
  intros Hp Hs Hlg. unfold equal_range.
  assert (Hparts : exists a b c, l = a ++ b ++ c /\ Forall (fun x => less x = true) a
    /\ Forall (fun x => p x = true) b /\ Forall (fun x => greater x = true) c).
  { induction Hs as [|x l Hs IH Hx]; [by exists [], [], []|]. destruct (less x) eqn:El.
    - destruct IH as (a & b & c & -> & Ha & Hb & Hc). exists (x :: a), b, c. split_and!; [done|by constructor|done|done].
    - assert (Hnl : Forall (fun y => less y = false) l).
      { eapply Forall_impl; [exact Hx|]. simpl. intros y [Hy _]. apply not_true_iff_false. intros H. specialize (Hy H). congruence. }
      destruct (greater x) eqn:Eg.
      + exists [], [], (x :: l). split_and!; [done|constructor|constructor|]. constructor; [done|].
        eapply Forall_impl; [exact Hx|]. simpl. intros y [_ Hy]. by apply Hy.
      + destruct IH as (a & b & c & -> & Ha & Hb & Hc). destruct a as [|y a].
        * exists [], (x :: b), c. split_and!; [done|constructor| |done]. constructor; [|done]. by rewrite Hp, El, Eg.
        * exfalso. inversion Ha; subst. inversion Hnl; subst. congruence. }
  destruct Hparts as (a & b & c & -> & Ha & Hb & Hc).
  assert (Hbl : Forall (fun x => less x = false) (b ++ c)).
  { apply Forall_app. split; eapply Forall_impl; [exact Hb| |exact Hc|]; simpl; intros x Hx.
    - rewrite Hp in Hx. by destruct (less x).
    - destruct (less x) eqn:E; [|done]. by rewrite (Hlg x E) in Hx. }
  assert (Hcp : Forall (fun x => p x = false) c).
  { eapply Forall_impl; [exact Hc|]. simpl. intros x Hx. rewrite Hp, Hx. by rewrite andb_false_r. }
  assert (Hlow : lower_bound (a ++ b ++ c) = length a).
  { apply (lower_bound_loop_spec _ _ _ _ a (b ++ c)); [done|done|done| | | |]; rewrite ?length_app; lia. }
  assert (Hap : Forall (fun x => p x = false) a).
  { eapply Forall_impl; [exact Ha|]. simpl. intros x Hx. by rewrite Hp, Hx. }
  rewrite Hlow, drop_app_length, run_while_app by done.
  by rewrite !List.filter_app, (filter_none p a Hap), (filter_all p b Hb), (filter_none p c Hcp), app_nil_r.
Qed.
End lower_bound.

(** ** What is documented of libsolv *)

(** Interning does not change the packages. *)
Definition same_packages `{LibsolvPool} (pl pl' : Reldep.pool) : Prop :=
  nsolvables pl' = nsolvables pl
  /\ forall p, 2 <= p < nsolvables pl -> pool_id2solvable pl' p = pool_id2solvable pl p /\ get_name pl' p = get_name pl p.

Class LibsolvPoolLaws `{LibsolvPool} : Prop := {
  nsolvables_range pl : 2 <= nsolvables pl < 2 ^ 31;
  (** The texts of a solvable are interned: looking one up gives its id, which is not 0. *)
  solvable_known pl p i : p ∈ pool_solvables pl ->
    i = s_name (pool_id2solvable pl p) \/ i = s_arch (pool_id2solvable pl p) \/ i = s_evr (pool_id2solvable pl p) ->
    i <> 0 /\ pool_find_id pl (pool_id2str pl i) = i;
  find_id2str pl s : pool_find_id pl s <> 0 -> pool_id2str pl (pool_find_id pl s) = s;
  provides_range pl id p : p ∈ provides pl id -> 0 < p < nsolvables pl;
  selection_range pl p k id : id ∈ selected (selection_make_matchsolvable pl [SOLVER_SOLVABLE_ALL; 0] p k) -> 0 < id < nsolvables pl;
  str2id_same s pl : same_packages pl (snd (Reldep.pool_str2id s pl));
  rel2id_same a b c pl : same_packages pl (snd (Reldep.pool_rel2id a b c pl));
  richdep_same s pl : same_packages pl (snd (Reldep.pool_parserpmrichdep s pl));
  whatprovides_same pl : same_packages pl (pool_createwhatprovides pl);
}.

Section laws.
Context {HP : Reldep.Pool} {HL : LibsolvPool} {HLL : LibsolvPoolLaws} {HS : Libsolv} {HSL : LibsolvLaws HS}.
Implicit Types (pl : Reldep.pool) (m fr : Map) (p : Z) (s : Sack).

Lemma pool_solvables_in pl p : p ∈ pool_solvables pl <-> 2 <= p < nsolvables pl /\ is_Some (s_repo (pool_id2solvable pl p)).
Proof.
  unfold pool_solvables. rewrite list_elem_of_In, List.filter_In, bool_decide_eq_true, <-list_elem_of_In, elem_of_seqZ.
  pose proof (nsolvables_range pl). split; intros [? ?]; split; (done || lia).
Qed.
Lemma packages_in pl p : p ∈ packages pl <-> p ∈ pool_solvables pl /\ is_package pl p = true.
Proof. unfold packages. by rewrite !list_elem_of_In, List.filter_In. Qed.
Lemma packages_range pl p : p ∈ packages pl -> 2 <= p < nsolvables pl.
Proof. rewrite packages_in, pool_solvables_in. tauto. Qed.

#[global] Instance same_packages_refl : Reflexive same_packages.
Proof. done. Qed.
#[global] Instance same_packages_trans : Transitive same_packages.
Proof.
  intros a b c [H1 H2] [H3 H4]. split; [congruence|]. intros p Hp.
  destruct (H4 p) as [-> ->]; [by rewrite H1|]. by apply H2.
Qed.
Lemma same_packages_in pl pl' p : same_packages pl pl' -> p ∈ packages pl' <-> p ∈ packages pl.
Proof.
  intros [Hn Hs]. rewrite !packages_in, !pool_solvables_in, Hn. split; intros [[Hp Hr] Hi];
    destruct (Hs p Hp) as [E1 E2]; unfold is_package in *; rewrite ?E1, ?E2 in *; done.
Qed.
Lemma same_packages_eq pl pl' : same_packages pl pl' -> packages pl' = packages pl.
Proof.
  intros [Hn Hs]. unfold packages, pool_solvables. rewrite Hn.
  assert (Hseq : Forall (fun p => 2 <= p < nsolvables pl) (seqZ 2 (nsolvables pl - 2))).
  { apply Forall_forall. intros p [? ?]%elem_of_seqZ. lia. }
  induction Hseq as [|p l Hp _ IH]; [done|]. simpl. destruct (Hs p Hp) as [E1 E2]. rewrite E1.
  destruct (bool_decide _); simpl; [|done].
  assert (Ei : is_package pl' p = is_package pl p) by (unfold is_package; by rewrite E2). rewrite Ei. destruct (is_package pl p); by rewrite IH.
Qed.

(** ** Results of filters *)

(** A map that has room for every solvable and holds nothing else. *)
Definition room pl m : Prop := bytes_ok m /\ nsolvables pl <= bits m /\ forall k, bit m k = true -> k < nsolvables pl.
Lemma room_same pl pl' m : same_packages pl pl' -> room pl' m <-> room pl m.
Proof. intros [Hn _]. unfold room. by rewrite Hn. Qed.
Lemma zeros_ok n : bytes_ok (repeat 0 n) /\ forall k, bit (repeat 0 n) k = false.
Proof.
  split; [apply List.Forall_forall; intros b ->%repeat_spec; lia|].
  intros k. unfold bit. destruct (repeat 0 n !! _) as [b|] eqn:E; [|done].
  apply list_elem_of_lookup_2, list_elem_of_In, repeat_spec in E as ->. by rewrite Z.bits_0, andb_false_r.
Qed.
Lemma make_ok n : 0 <= n -> bytes_ok (SolvMap.make n) /\ n <= bits (SolvMap.make n) /\ forall k, bit (SolvMap.make n) k = false.
Proof.
  intros Hn. unfold SolvMap.make. rewrite map_init_spec by done. destruct (zeros_ok (Z.to_nat ((n + 7) / 8))) as [H1 H2].
  split_and!; [done| |done]. unfold bits. rewrite repeat_length, Z2Nat.id by (apply Z.div_pos; lia).
  pose proof (Z.div_mod (n + 7) 8). pose proof (Z.mod_pos_bound (n + 7) 8). lia.
Qed.
Lemma make_room pl : room pl (SolvMap.make (nsolvables pl)).
Proof. pose proof (nsolvables_range pl). destruct (make_ok (nsolvables pl)) as (? & ? & Hb); [lia|]. split_and!; [done..|]. intros k. by rewrite Hb. Qed.
Lemma make_empty pl k : bit (SolvMap.make (nsolvables pl)) k = false.
Proof. pose proof (nsolvables_range pl). by destruct (make_ok (nsolvables pl)) as (_ & _ & ?); [lia|]. Qed.

Lemma add_room pl m p : room pl m -> 0 <= p < nsolvables pl ->
  room pl (SolvMap.add_unsafe m p) /\ forall k, bit (SolvMap.add_unsafe m p) k = (k =? p) || bit m k.
Proof.
  intros (Hm & Hn & Hk) Hp. unfold SolvMap.add_unsafe.
  assert (Hb : forall k, bit (MAPSET m p) k = (k =? p) || bit m k) by (intros k; apply mapset_spec; [done|lia]).
  split; [|done]. destruct (mapset_spec m p 0 Hm) as (B1 & B2 & _); [lia|]. split_and!; [done|by rewrite B2|].
  intros k. rewrite Hb. intros [->%Z.eqb_eq|?%Hk]%orb_true_iff; lia.
Qed.
Lemma add_all_room pl l m : room pl m -> Forall (fun p => 0 <= p < nsolvables pl) l ->
  room pl (fold_left SolvMap.add_unsafe l m)
  /\ forall k, bit (fold_left SolvMap.add_unsafe l m) k = bit m k || bool_decide (k ∈ l).
Proof.
  intros Hm Hl. revert m Hm. induction Hl as [|p l Hp _ IH]; intros m Hm; simpl; [split; [done|]; intros; by rewrite orb_false_r|].
  destruct (add_room pl m p Hm Hp) as [H1 H2]. destruct (IH _ H1) as [H3 H4]. split; [done|]. intros k. rewrite H4, H2.
  destruct (Z.eqb_spec k p) as [->|Hne]; simpl; [by rewrite bool_decide_true, orb_true_r by set_solver|].
  f_equal. apply bool_decide_ext. set_solver.
Qed.

Lemma each_in m : bytes_ok m -> forall p, p ∈ each m <-> bit m p = true.
Proof.
  intros Hm p. unfold each. rewrite MapIterator.iterate_ids by done. simpl. unfold MapIterator.ids.
  rewrite list_elem_of_In, MapIterator.ids_from_in, Z.sub_0_r by lia. split; [tauto|]. intros Hb. split; [|done].
  destruct (Z.lt_ge_cases p 0); [|lia]. by rewrite SolvMap.bit_outside in Hb by lia.
Qed.

(** ** The caches of the sack *)

(** The packages, sorted by the ids of name, architecture and version. *)
Definition sorted_ok pl (l : list Z) : Prop := StronglySorted (solvable_le pl) l /\ forall p, p ∈ l <-> p ∈ packages pl.
Record sack_ok s : Prop := {
  sack_sorted : nsolvables (the_pool s) = cached_sorted_solvables_size s -> sorted_ok (the_pool s) (cached_sorted_solvables s);
  sack_size : cached_solvables_size s = 0;
  sack_bytes : bytes_ok (cached_solvables s);
}.

Lemma new_sack_ok pl : sack_ok (new_sack pl).
Proof.
  pose proof (nsolvables_range pl). split; simpl; [lia|done|]. by destruct (make_ok 0) as [? _].
Qed.
Lemma same_sorted pl pl' l : same_packages pl pl' -> sorted_ok pl l -> sorted_ok pl' l.
Proof.
  intros Hs [H1 H2]. split; [|intros p; by rewrite (same_packages_in _ _ _ Hs)].
  assert (Hr : Forall (fun p => 2 <= p < nsolvables pl) l).
  { apply Forall_forall. intros p Hp. by apply packages_range, H2. }
  clear H2. destruct Hs as [_ Hs]. induction H1 as [|p l H1 IH Hp]; [constructor|]. apply Forall_cons in Hr as [Hpr Hr].
  constructor; [by apply IH|]. rewrite Forall_forall in Hp, Hr |- *. intros p' Hin. specialize (Hp p' Hin). specialize (Hr p' Hin).
  unfold solvable_le in *. by rewrite (proj1 (Hs p Hpr)), (proj1 (Hs p' Hr)).
Qed.
Lemma set_pool_ok pl s : same_packages (the_pool s) pl -> sack_ok s -> sack_ok (set_pool pl s).
Proof.
  intros Hs [H1 H2 H3]. split; simpl; [|done..]. intros Hn. apply (same_sorted (the_pool s)); [done|]. apply H1.
  destruct Hs as [Hs _]. lia.
Qed.
Lemma ready_ok s : sack_ok s -> sack_ok (make_provides_ready s) /\ same_packages (the_pool s) (the_pool (make_provides_ready s)).
Proof.
  intros Hs. unfold make_provides_ready. destruct (provides_ready s); [done|]. split; [|apply whatprovides_same].
  apply (set_pool_ok _ _ (whatprovides_same (the_pool s))) in Hs as [H1 H2 H3]. by split.
Qed.

Lemma get_solvables_spec s : sack_ok s ->
  sack_ok (fst (get_solvables s)) /\ the_pool (fst (get_solvables s)) = the_pool s
  /\ room (the_pool s) (snd (get_solvables s))
  /\ forall k, bit (snd (get_solvables s)) k = bool_decide (k ∈ packages (the_pool s)).
Proof.
  intros [H1 H2 H3]. unfold get_solvables. pose proof (nsolvables_range (the_pool s)) as Hn. rewrite H2.
  rewrite (proj2 (Z.eqb_neq _ _)) by lia. set (m := if _ <? _ then _ else _).
  assert (Hm : room (the_pool s) m /\ forall k, bit m k = false).
  { unfold m. rewrite SolvMap.shiftl_bits. destruct (Z.ltb_spec (bits (cached_solvables s)) (nsolvables (the_pool s))).
    - split; [apply make_room|apply make_empty].
    - unfold SolvMap.clear. rewrite map_empty_spec. destruct (zeros_ok (length (cached_solvables s))) as [Z1 Z2].
      split; [split_and!; [done| |intros k; by rewrite Z2]|done]. unfold bits in *. rewrite repeat_length. lia. }
  destruct Hm as [Hm He]. destruct (add_all_room (the_pool s) (packages (the_pool s)) m Hm) as [H4 H5].
  { apply Forall_forall. intros p Hp%packages_range. lia. }
  simpl. split_and!; [split; [done..|apply H4]|done|done|]. intros k. by rewrite H5, He.
Qed.

#[global] Instance solvable_le_total pl : Total (solvable_le pl).
Proof.
  intros a b. unfold solvable_le, nevra_solvable_cmp_key.
  destruct (pool_id2solvable pl a) as [n1 a1 e1 ? ?], (pool_id2solvable pl b) as [n2 a2 e2 ? ?]. simpl.
  destruct (Z.eqb_spec n1 n2), (Z.eqb_spec n2 n1), (Z.eqb_spec a1 a2), (Z.eqb_spec a2 a1); simpl;
    rewrite !Z.ltb_ge; lia.
Qed.
#[global] Instance solvable_le_transitive pl : Transitive (solvable_le pl).
Proof.
  intros a b c. unfold solvable_le, nevra_solvable_cmp_key.
  destruct (pool_id2solvable pl a) as [n1 a1 e1 ? ?], (pool_id2solvable pl b) as [n2 a2 e2 ? ?], (pool_id2solvable pl c) as [n3 a3 e3 ? ?]. simpl.
  destruct (Z.eqb_spec n2 n1), (Z.eqb_spec n3 n2), (Z.eqb_spec n3 n1); simpl; rewrite ?Z.ltb_ge; try lia;
    destruct (Z.eqb_spec a2 a1), (Z.eqb_spec a3 a2), (Z.eqb_spec a3 a1); simpl; rewrite ?Z.ltb_ge; lia.
Qed.

Lemma get_sorted_spec s : sack_ok s ->
  sack_ok (fst (get_sorted_solvables s)) /\ the_pool (fst (get_sorted_solvables s)) = the_pool s
  /\ sorted_ok (the_pool s) (snd (get_sorted_solvables s)).
Proof.
  intros Hs. unfold get_sorted_solvables. destruct (Z.eqb_spec (nsolvables (the_pool s)) (cached_sorted_solvables_size s)) as [E|E].
  - split_and!; [done|done|by apply Hs].
  - destruct (get_solvables_spec s Hs) as ([H1 H2 H3] & Hp & Hr & Hb). destruct (get_solvables s) as [s' m]. simpl in *.
    assert (Hl : sorted_ok (the_pool s) (merge_sort (solvable_le (the_pool s)) (each m))).
    { split; [apply StronglySorted_merge_sort; apply _|]. intros p.
      rewrite merge_sort_Permutation, each_in by apply Hr. by rewrite Hb, bool_decide_eq_true. }
    rewrite Hp. split_and!; [split; simpl; done|done|done].
Qed.

(** ** The binary searches *)

Lemma sorted_weaken {A : Type} (R R' : A -> A -> Prop) (l : list A) :
  (forall x y, R x y -> R' x y) -> StronglySorted R l -> StronglySorted R' l.
Proof. intros HR. induction 1; constructor; [done|]. eapply Forall_impl; [eassumption|]. simpl. auto. Qed.

(** All three keys: the packages that are equal on it are those that a scan finds. *)
Lemma by_name pl l i : sorted_ok pl l ->
  equal_range (fun f => s_name (pool_id2solvable pl f) <? i) (fun p => s_name (pool_id2solvable pl p) =? i) l
  = List.filter (fun p => s_name (pool_id2solvable pl p) =? i) l.
Proof.
  intros [Hs _]. apply (equal_range_filter _ _ (fun p => i <? s_name (pool_id2solvable pl p))).
  - intros x. lia.
  - eapply sorted_weaken; [|exact Hs]. intros x y. unfold solvable_le, nevra_solvable_cmp_key. intros Hle.
    destruct (Z.eqb_spec (s_name (pool_id2solvable pl y)) (s_name (pool_id2solvable pl x))); simpl in Hle; lia.
  - intros x. lia.
Qed.
End laws.
End Packages.
