(* ===== verification/SolvQuery.v ===== *)
(** * SolvQuery: package queries ([rpm/solv_query.cpp])

    A query is a set of packages, as a map of libsolv, that filters make
    smaller. A filter collects the packages that match one of its patterns, and
    the query keeps those or, with the flag [NOT], the others; an operator that
    a filter does not know throws, and the query stays as it was. *)

From S2P Require Import Prelude Numeric Sack Solv Regex Specs Packages.
From stdpp Require Import sorting.
Local Open Scope Z_scope.

Module SolvQuery.
Import QueryCmp Matches Packages.

Section query.
Context {HP : Reldep.Pool} {HL : LibsolvPool} {HS : Libsolv} {HM : Matching}.
Implicit Types (pl : Reldep.pool) (q fr : Map) (cmp : t) (p : Z).

Definition strcasecmp (a b : cstr) : bool := bool_decide (tolower a = tolower b).
Definition strcasestr (s needle : cstr) : bool := strstr (tolower s) (tolower needle).

(** ** What the filters share *)

(** The flag is taken off; [cmp_not] and what is left. *)
Definition strip_not cmp : bool * t :=
  let cmp_not := (and cmp NOT =? NOT)%N in (cmp_not, if cmp_not then minus cmp NOT else cmp).
Definition has_glob cmp : bool := (and cmp GLOB =? GLOB)%N.
Definition remove_glob_when_unneeded cmp (pattern : cstr) (cmp_glob : bool) : t :=
  if cmp_glob && negb (is_glob_pattern pattern) then or (minus cmp GLOB) EQ else cmp.

(** The candidates that pass the test are added to the result. *)
Fixpoint collect (test : Z -> result error bool) (candidates : list Z) fr : result error Map :=
  match candidates with
  | [] => Ok fr
  | p :: candidates => let* b := test p in collect test candidates (if b then SolvMap.add_unsafe fr p else fr)
  end.
(** The loop over the patterns; each is used with its own operator. *)
Fixpoint each_pattern (step : t -> cstr -> Map -> result error Map) cmp (cmp_glob : bool) (patterns : list cstr) fr : result error Map :=
  match patterns with
  | [] => Ok fr
  | pattern :: patterns =>
      let* fr := step (remove_glob_when_unneeded cmp pattern cmp_glob) (c_str pattern) fr in
      each_pattern step cmp cmp_glob patterns fr
  end.
Definition apply_filter (cmp_not : bool) q fr : Map := if cmp_not then SolvMap.minus_with q fr else SolvMap.and_with q fr.
Definition ifilter_patterns pl (step : t -> cstr -> Map -> result error Map) cmp (patterns : list cstr) q : result error Map :=
  let '(cmp_not, cmp) := strip_not cmp in
  let* fr := each_pattern step cmp (has_glob cmp) patterns (SolvMap.make (nsolvables pl)) in
  Ok (apply_filter cmp_not q fr).

Definition filter_glob_internal (getter : Z -> result error cstr) (c_pattern : cstr) (candidates : list Z) fr (flags : N) : result error Map :=
  collect (fun p => let* s := getter p in Ok (fnmatch flags c_pattern s)) candidates fr.
Definition add_all (l : list Z) fr : Map := fold_left SolvMap.add_unsafe l fr.

(** ** Names, architectures, versions *)

Definition name_compare_lower_id pl (id_name : Z) (first : Z) : bool := s_name (pool_id2solvable pl first) <? id_name.
(** The packages of a name, by binary search. *)
Definition with_name pl (sorted_solvables : list Z) (name_id : Z) : list Z :=
  equal_range (name_compare_lower_id pl name_id) (fun p => s_name (pool_id2solvable pl p) =? name_id) sorted_solvables.

Definition name_step pl (sorted_solvables : list Z) q cmp (c_pattern : cstr) fr : result error Map :=
  if case cmp [EQ] then
    let name_id := pool_find_id pl c_pattern in
    if name_id =? 0 then Ok fr else Ok (add_all (with_name pl sorted_solvables name_id) fr)
  else if case cmp [IEXACT] then collect (fun p => Ok (strcasecmp (get_name pl p) c_pattern)) (each q) fr
  else if case cmp [ICONTAINS] then collect (fun p => Ok (strcasestr (get_name pl p) c_pattern)) (each q) fr
  else if case cmp [IGLOB] then filter_glob_internal (fun p => Ok (get_name pl p)) c_pattern (each q) fr FNM_CASEFOLD
  else if case cmp [CONTAINS] then collect (fun p => Ok (strstr (get_name pl p) c_pattern)) (each q) fr
  else if case cmp [GLOB] then filter_glob_internal (fun p => Ok (get_name pl p)) c_pattern (each q) fr 0%N
  else Err NotSupportedCmpType.
Definition ifilter_name (s : Sack) cmp (patterns : list cstr) q : Sack * result error Map :=
  let '(s, sorted_solvables) := get_sorted_solvables s in
  (s, ifilter_patterns (the_pool s) (name_step (the_pool s) sorted_solvables q) cmp patterns q).

Definition cmp_gt (c : Z) : bool := 0 <? c.
Definition cmp_lt (c : Z) : bool := c <? 0.
Definition cmp_eq (c : Z) : bool := c =? 0.
Definition cmp_gte (c : Z) : bool := 0 <=? c.
Definition cmp_lte (c : Z) : bool := c <=? 0.

Fixpoint evr_loop pl (cmp_fnc : Z -> bool) (patterns : list cstr) q fr : result error Map :=
  match patterns with
  | [] => Ok fr
  | pattern :: patterns =>
      let* fr := collect (fun p => Ok (cmp_fnc (pool_evrcmp_str (get_evr pl p) (c_str pattern)))) (each q) fr in
      evr_loop pl cmp_fnc patterns q fr
  end.
Definition filter_evr_internal pl (cmp_fnc : Z -> bool) (patterns : list cstr) q : result error Map :=
  let* fr := evr_loop pl cmp_fnc patterns q (SolvMap.make (nsolvables pl)) in Ok (SolvMap.and_with q fr).
Definition ifilter_evr pl cmp (patterns : list cstr) q : result error Map :=
  if case cmp [GT] then filter_evr_internal pl cmp_gt patterns q
  else if case cmp [LT] then filter_evr_internal pl cmp_lt patterns q
  else if case cmp [GTE] then filter_evr_internal pl cmp_gte patterns q
  else if case cmp [LTE] then filter_evr_internal pl cmp_lte patterns q
  else if case cmp [EQ] then filter_evr_internal pl cmp_eq patterns q
  else Err NotSupportedCmpType.

Definition arch_step pl q cmp (c_pattern : cstr) fr : result error Map :=
  if case cmp [EQ] then
    let match_arch_id := pool_find_id pl c_pattern in
    if match_arch_id =? 0 then Ok fr
    else collect (fun p => Ok (s_arch (pool_id2solvable pl p) =? match_arch_id)) (each q) fr
  else if case cmp [GLOB] then filter_glob_internal (fun p => Ok (get_arch pl p)) c_pattern (each q) fr 0%N
  else Err NotSupportedCmpType.
Definition ifilter_arch pl cmp (patterns : list cstr) q : result error Map := ifilter_patterns pl (arch_step pl q) cmp patterns q.

(** The function to compare with is not used: every operator tests for equality. *)
Definition filter_version_internal pl (cmp_fnc : Z -> bool) (c_pattern : cstr) (candidates : list Z) fr : result error Map :=
  collect (fun p => let* version := get_version pl p in
                    Ok (cmp_eq (pool_evrcmp_str (version ++ lit "-0") (c_pattern ++ lit "-0")))) candidates fr.
Definition version_step pl q cmp (c_pattern : cstr) fr : result error Map :=
  if case cmp [EQ] then filter_version_internal pl cmp_eq c_pattern (each q) fr
  else if case cmp [GLOB] then filter_glob_internal (get_version pl) c_pattern (each q) fr 0%N
  else if case cmp [GT] then filter_version_internal pl cmp_gt c_pattern (each q) fr
  else if case cmp [LT] then filter_version_internal pl cmp_lt c_pattern (each q) fr
  else if case cmp [GTE] then filter_version_internal pl cmp_gte c_pattern (each q) fr
  else if case cmp [LTE] then filter_version_internal pl cmp_lte c_pattern (each q) fr
  else Err NotSupportedCmpType.
Definition ifilter_version pl cmp (patterns : list cstr) q : result error Map := ifilter_patterns pl (version_step pl q) cmp patterns q.

Definition filter_release_internal pl (cmp_fnc : Z -> bool) (c_pattern : cstr) (candidates : list Z) fr : result error Map :=
  collect (fun p => let* release := get_release pl p in
                    Ok (cmp_eq (pool_evrcmp_str (lit "0-" ++ default [] release) (lit "0-" ++ c_pattern)))) candidates fr.
Definition release_step pl q cmp (c_pattern : cstr) fr : result error Map :=
  if case cmp [EQ] then filter_release_internal pl cmp_eq c_pattern (each q) fr
  else if case cmp [GLOB] then filter_glob_internal (fun p => deref (get_release pl p)) c_pattern (each q) fr 0%N
  else if case cmp [GT] then filter_release_internal pl cmp_gt c_pattern (each q) fr
  else if case cmp [LT] then filter_release_internal pl cmp_lt c_pattern (each q) fr
  else if case cmp [GTE] then filter_release_internal pl cmp_gte c_pattern (each q) fr
  else if case cmp [LTE] then filter_release_internal pl cmp_lte c_pattern (each q) fr
  else Err NotSupportedCmpType.
Definition ifilter_release pl cmp (patterns : list cstr) q : result error Map := ifilter_patterns pl (release_step pl q) cmp patterns q.

(** ** Repositories, source packages, epochs, locations *)

(** The first repository of the name, from the id [i] on. *)
Fixpoint mark_first (name : cstr) (i : nat) (l : list (option cstr)) (ids : list bool) : list bool :=
  match l with
  | [] => ids
  | r :: l => if bool_decide (r = Some name) then <[i := true]> ids else mark_first name (S i) l ids
  end.
Fixpoint mark_all (f : cstr -> bool) (i : nat) (l : list (option cstr)) (ids : list bool) : list bool :=
  match l with
  | [] => ids
  | r :: l => mark_all f (S i) l (match r with Some name => if f name then <[i := true]> ids else ids | None => ids end)
  end.
Fixpoint mark_repos pl cmp (cmp_glob : bool) (patterns : list cstr) (ids : list bool) : result error (list bool) :=
  match patterns with
  | [] => Ok ids
  | pattern :: patterns =>
      let tmp_cmp_type := remove_glob_when_unneeded cmp pattern cmp_glob in
      let* ids :=
        (if case tmp_cmp_type [EQ] then Ok (mark_first (c_str pattern) 1 (drop 1 (repos pl)) ids)
         else if case tmp_cmp_type [GLOB] then Ok (mark_all (fnmatch 0%N (c_str pattern)) 1 (drop 1 (repos pl)) ids)
         else Err NotSupportedCmpType) in
      mark_repos pl cmp cmp_glob patterns ids
  end.
Definition ifilter_reponame pl cmp (patterns : list cstr) q : result error Map :=
  let '(cmp_not, cmp) := strip_not cmp in
  let* repo_ids := mark_repos pl cmp (has_glob cmp) patterns (replicate (length (repos pl)) false) in
  let* fr := collect (fun p => match s_repo (pool_id2solvable pl p) with
                               | None => Ok false
                               | Some r => match repo_ids !! Z.to_nat r with Some b => Ok b | None => Err Crash end
                               end) (each q) (SolvMap.make (nsolvables pl)) in
  Ok (apply_filter cmp_not q fr).

Definition sourcerpm_step pl q cmp (c_pattern : cstr) fr : result error Map :=
  if case cmp [EQ] then
    collect (fun p =>
      let name := default (get_name pl p) (lookup_sourcename pl p) in
      Ok (starts_with c_pattern name && bool_decide (solvable_lookup_sourcepkg pl p = Some c_pattern))) (each q) fr
  else if case cmp [GLOB] then
    collect (fun p => Ok (match solvable_lookup_sourcepkg pl p with Some s => fnmatch 0%N c_pattern s | None => false end)) (each q) fr
  else Err NotSupportedCmpType.
Definition ifilter_sourcerpm pl cmp (patterns : list cstr) q : result error Map :=
  ifilter_patterns pl (sourcerpm_step pl q) cmp patterns q.

Fixpoint epoch_loop pl (f : Z -> Z -> bool) (patterns : list Z) q fr : result error Map :=
  match patterns with
  | [] => Ok fr
  | pattern :: patterns =>
      let* fr := collect (fun p => let* candidate_epoch := get_epoch pl p in Ok (f candidate_epoch pattern)) (each q) fr in
      epoch_loop pl f patterns q fr
  end.
Definition ifilter_epoch_numbers pl cmp (patterns : list Z) q : result error Map :=
  let '(cmp_not, cmp) := strip_not cmp in
  let fr := SolvMap.make (nsolvables pl) in
  let* fr :=
    (if case cmp [EQ] then epoch_loop pl (fun e pattern => e =? pattern) patterns q fr
     else if case cmp [GT] then epoch_loop pl (fun e pattern => pattern <? e) patterns q fr
     else if case cmp [LT] then epoch_loop pl (fun e pattern => e <? pattern) patterns q fr
     else if case cmp [GTE] then epoch_loop pl (fun e pattern => pattern <=? e) patterns q fr
     else if case cmp [LTE] then epoch_loop pl (fun e pattern => e <=? pattern) patterns q fr
     else Err NotSupportedCmpType) in
  Ok (apply_filter cmp_not q fr).
Definition epoch_step pl q cmp (c_pattern : cstr) fr : result error Map :=
  if case cmp [EQ] then collect (fun p => let* e := get_epoch_cstring pl p in Ok (bool_decide (e = c_pattern))) (each q) fr
  else if case cmp [GLOB] then collect (fun p => let* e := get_epoch_cstring pl p in Ok (fnmatch 0%N c_pattern e)) (each q) fr
  else Err NotSupportedCmpType.
Definition ifilter_epoch pl cmp (patterns : list cstr) q : result error Map := ifilter_patterns pl (epoch_step pl q) cmp patterns q.

Fixpoint location_loop pl (patterns : list cstr) q fr : result error Map :=
  match patterns with
  | [] => Ok fr
  | pattern :: patterns =>
      let* fr := collect (fun p => Ok (bool_decide (solvable_get_location pl p = Some (c_str pattern)))) (each q) fr in
      location_loop pl patterns q fr
  end.
Definition ifilter_location pl cmp (patterns : list cstr) q : result error Map :=
  let '(cmp_not, cmp) := strip_not cmp in
  let* fr := (if case cmp [EQ] then location_loop pl patterns q (SolvMap.make (nsolvables pl)) else Err NotSupportedCmpType) in
  Ok (apply_filter cmp_not q fr).

(** ** Searching the data *)

Definition filter_dataiterator pl (keyname : Key) (flags : list SearchFlag) (candidates : list Z) fr (c_pattern : cstr) : result error Map :=
  collect (fun p => Ok (dataiterator_step pl keyname flags p c_pattern)) candidates fr.
Definition search_flags cmp : option (list SearchFlag) :=
  if case cmp [EQ] then Some [SEARCH_FILES; SEARCH_COMPLETE_FILELIST; SEARCH_STRING]
  else if case cmp [IEXACT] then Some [SEARCH_FILES; SEARCH_COMPLETE_FILELIST; SEARCH_NOCASE; SEARCH_STRING]
  else if case cmp [GLOB] then Some [SEARCH_FILES; SEARCH_COMPLETE_FILELIST; SEARCH_GLOB]
  else if case cmp [IGLOB] then Some [SEARCH_FILES; SEARCH_COMPLETE_FILELIST; SEARCH_NOCASE; SEARCH_GLOB]
  else if case cmp [CONTAINS] then Some [SEARCH_FILES; SEARCH_COMPLETE_FILELIST; SEARCH_SUBSTRING]
  else if case cmp [ICONTAINS] then Some [SEARCH_FILES; SEARCH_COMPLETE_FILELIST; SEARCH_NOCASE; SEARCH_SUBSTRING]
  else None.
Definition filter_dataiterator_internal pl (keyname : Key) q cmp (patterns : list cstr) : result error Map :=
  ifilter_patterns pl (fun cmp c_pattern fr =>
    match search_flags cmp with
    | Some flags => filter_dataiterator pl keyname flags (each q) fr c_pattern
    | None => Err NotSupportedCmpType
    end) cmp patterns q.
Definition ifilter_file pl cmp patterns q := filter_dataiterator_internal pl SOLVABLE_FILELIST q cmp patterns.
Definition ifilter_description pl cmp patterns q := filter_dataiterator_internal pl SOLVABLE_DESCRIPTION q cmp patterns.
Definition ifilter_summary pl cmp patterns q := filter_dataiterator_internal pl SOLVABLE_SUMMARY q cmp patterns.
Definition ifilter_url pl cmp patterns q := filter_dataiterator_internal pl SOLVABLE_URL q cmp patterns.

(** ** Nevras *)

(** [NevraID]; the version as an id or as a text. *)
Record NevraID := mkNevraID { n_name : Z; n_arch : Z; n_evr : Z; evr_str : cstr }.

(** The positions of the last dash but one, of the last dash and of the last dot. *)
Record Delims := mkDelims { evr_delim : option nat; release_delim : option nat; arch_delim : option nat }.
Fixpoint find_delims (i : nat) (s : cstr) (d : Delims) : Delims :=
  match s with
  | [] => d
  | c :: s =>
      find_delims (S i) s
        (if bool_decide (c = "-"%char) then mkDelims (release_delim d) (Some i) (arch_delim d)
         else if bool_decide (c = "."%char) then mkDelims (evr_delim d) (release_delim d) (Some i)
         else d)
  end.
(** A character of a text of the C library: the terminator behind the last one, nothing further on. *)
Definition char_at (s : cstr) (i : nat) : option ascii := (s ++ ["000"%char]) !! i.
(** The loop that skips an epoch of zeros; [index] keeps counting when the
    start of the version has moved, so that it may look behind the text. *)
Fixpoint skip_epoch (fuel : nat) (s : cstr) (evr_delim index : nat) : option nat :=
  match fuel with
  | O => None
  | S fuel =>
      match char_at s (evr_delim + index) with
      | None => None
      | Some c =>
          if bool_decide (c = "0"%char) then
            let index := S index in
            match char_at s (evr_delim + index) with
            | None => None
            | Some c => skip_epoch fuel s (if bool_decide (c = ":"%char) then evr_delim + index else evr_delim)%nat index
            end
          else Some evr_delim
      end
  end.
Definition slice (s : cstr) (a b : nat) : cstr := take (b - a) (drop a s).

(** [NevraID::parse]: [None] inside is that it fails, [Err] a read behind the text. *)
Definition parse_nevra_id pl (pattern : cstr) (create_evr_id : bool) : result error (option NevraID) :=
  let s := c_str pattern in
  let d := find_delims 0 s (mkDelims None None None) in
  match evr_delim d, release_delim d with
  | Some (S e as name_len), Some release_delim =>
      match skip_epoch (S (length s)) s name_len 1 with
      | None => Err Crash
      | Some evr_delim =>
          match arch_delim d with
          | None => Ok None
          | Some arch_delim =>
              if (Z.of_nat release_delim - Z.of_nat evr_delim <=? 1) || (arch_delim <=? release_delim + 1)%nat
                 || (arch_delim =? length s - 1)%nat
              then Ok None
              else
                let name := pool_find_id pl (take name_len s) in
                if name =? 0 then Ok None
                else
                  let text := slice s (S evr_delim) arch_delim in
                  let evr := if create_evr_id then pool_find_id pl text else 0 in
                  if create_evr_id && (evr =? 0) then Ok None
                  else
                    let arch := pool_find_id pl (drop (S arch_delim) s) in
                    Ok (if arch =? 0 then None
                        else Some (mkNevraID name arch evr (if create_evr_id then [] else text)))
          end
      end
  | _, _ => Ok None
  end.

Definition nevra_compare_lower_id pl (nevra_id : NevraID) (first : Z) : bool :=
  let f := pool_id2solvable pl first in
  if negb (s_name f =? n_name nevra_id) then s_name f <? n_name nevra_id
  else if negb (s_arch f =? n_arch nevra_id) then s_arch f <? n_arch nevra_id
  else s_evr f <? n_evr nevra_id.
Definition name_arch_compare_lower_id pl (nevra_id : NevraID) (first : Z) : bool :=
  let f := pool_id2solvable pl first in
  if negb (s_name f =? n_name nevra_id) then s_name f <? n_name nevra_id else s_arch f <? n_arch nevra_id.
Definition same_name_arch pl (nevra_id : NevraID) p : bool :=
  (s_name (pool_id2solvable pl p) =? n_name nevra_id) && (s_arch (pool_id2solvable pl p) =? n_arch nevra_id).

Definition filter_nevra_internal pl (cmp_fnc : Z -> bool) (c_pattern : cstr) (sorted_solvables : list Z) fr : result error Map :=
  let* parsed := parse_nevra_id pl c_pattern false in
  match parsed with
  | None => Ok fr
  | Some nevra_id =>
      collect (fun p => Ok (cmp_fnc (pool_evrcmp_str (get_evr pl p) (c_str (evr_str nevra_id)))))
        (equal_range (name_arch_compare_lower_id pl nevra_id) (same_name_arch pl nevra_id) sorted_solvables) fr
  end.
Definition nevra_step pl (sorted_solvables : list Z) q cmp (c_pattern : cstr) fr : result error Map :=
  if case cmp [EQ] then
    let* parsed := parse_nevra_id pl c_pattern true in
    match parsed with
    | None => Ok fr
    | Some nevra_id =>
        Ok (add_all (equal_range (nevra_compare_lower_id pl nevra_id)
              (fun p => same_name_arch pl nevra_id p && (s_evr (pool_id2solvable pl p) =? n_evr nevra_id)) sorted_solvables) fr)
    end
  else if case cmp [GT] then filter_nevra_internal pl cmp_gt c_pattern sorted_solvables fr
  else if case cmp [LT] then filter_nevra_internal pl cmp_lt c_pattern sorted_solvables fr
  else if case cmp [GTE] then filter_nevra_internal pl cmp_gte c_pattern sorted_solvables fr
  else if case cmp [LTE] then filter_nevra_internal pl cmp_lte c_pattern sorted_solvables fr
  else if case cmp [GLOB] then filter_glob_internal (fun p => Ok (get_nevra pl p)) c_pattern (each q) fr 0%N
  else if case cmp [IGLOB] then filter_glob_internal (fun p => Ok (get_nevra pl p)) c_pattern (each q) fr FNM_CASEFOLD
  else if case cmp [IEXACT] then collect (fun p => Ok (strcasecmp (get_nevra pl p) c_pattern)) (each q) fr
  else Err NotSupportedCmpType.
Definition ifilter_nevra (s : Sack) cmp (patterns : list cstr) q : Sack * result error Map :=
  let '(s, sorted_solvables) := get_sorted_solvables s in
  (s, ifilter_patterns (the_pool s) (nevra_step (the_pool s) sorted_solvables q) cmp patterns q).

(** The comparison of one field. *)
Definition is_valid_string cmp (c_pattern candidate : cstr) : result error bool :=
  if case cmp [EQ] then Ok (bool_decide (candidate = c_pattern))
  else if case cmp [IEXACT] then Ok (strcasecmp candidate c_pattern)
  else if case cmp [GLOB] then Ok (fnmatch 0%N c_pattern candidate)
  else if case cmp [IGLOB] then Ok (fnmatch FNM_CASEFOLD c_pattern candidate)
  else Err NotSupportedCmpType.
(** Whether a field is tested, its pattern and its operator. *)
Record FieldTest := mkTest { tested : bool; c_pattern : cstr; cmp_type : t }.
Definition field_test cmp (cmp_glob : bool) (field : cstr) : FieldTest :=
  mkTest (negb (cmp_glob && bool_decide (field = lit "*")) && negb (Nevra.is_empty field)) (c_str field)
    (remove_glob_when_unneeded cmp field cmp_glob).
Definition passes (f : FieldTest) (candidate : result error cstr) (rest : result error bool) : result error bool :=
  if tested f then let* c := candidate in let* ok := is_valid_string (cmp_type f) (c_pattern f) c in if ok : bool then rest else Ok false
  else rest.
Definition is_valid_candidate pl p (src : Z) (epoch version release arch : FieldTest) : result error bool :=
  if negb (src =? 0) && (s_arch (pool_id2solvable pl p) =? src) then Ok false
  else passes arch (Ok (get_arch pl p)) (passes epoch (get_epoch_cstring pl p)
         (passes version (get_version pl p) (passes release (deref (get_release pl p)) (Ok true)))).

(** [filter_nevra] with a parsed specification. *)
Definition filter_nevra (s : Sack) (pattern : Nevra.Nevra) (cmp_glob : bool) cmp q fr (with_src : bool) : Sack * result error Map :=
  let pl := the_pool s in
  let name := Nevra.name pattern in
  let name_cmp_type := remove_glob_when_unneeded cmp name cmp_glob in
  let all_names := cmp_glob && bool_decide (name = lit "*") in
  let src := if with_src then 0 else pool_find_id pl (lit "src") in
  let test := field_test cmp cmp_glob in
  let valid := fun p => is_valid_candidate pl p src (test (Nevra.epoch pattern)) (test (Nevra.version pattern))
                          (test (Nevra.release pattern)) (test (Nevra.arch pattern)) in
  if negb (Nevra.is_empty name) then
    let '(s, sorted_solvables) := get_sorted_solvables s in
    (s, if case name_cmp_type [EQ] then
          let name_id := pool_find_id pl (c_str name) in
          if name_id =? 0 then Ok fr else collect valid (with_name pl sorted_solvables name_id) fr
        else if case name_cmp_type [IEXACT] then
          collect (fun p => if strcasecmp (get_name pl p) (c_str name) then valid p else Ok false) (each q) fr
        else if case name_cmp_type [GLOB; IGLOB] then
          let fnmatch_flags := if (name_cmp_type =? IGLOB)%N then FNM_CASEFOLD else 0%N in
          collect (fun p => if all_names || fnmatch fnmatch_flags (c_str name) (get_name pl p) then valid p else Ok false) (each q) fr
        else Err NotSupportedCmpType)
  else if negb (Nevra.is_empty (Nevra.epoch pattern) && Nevra.is_empty (Nevra.version pattern)
                && Nevra.is_empty (Nevra.release pattern) && Nevra.is_empty (Nevra.arch pattern))
  then (s, collect valid (each q) fr)
  else (s, Ok fr).
Definition ifilter_nevra_object (s : Sack) cmp (pattern : Nevra.Nevra) q : Sack * result error Map :=
  let '(cmp_not, cmp) := strip_not cmp in
  let '(s, r) := filter_nevra s pattern (has_glob cmp) cmp q (SolvMap.make (nsolvables (the_pool s))) true in
  (s, let* fr := r in Ok (apply_filter cmp_not q fr)).

(** ** Dependencies *)

(** Patterns as a list of dependencies: the pool interns what it did not know. *)
Definition str2reldep_internal pl (reldep_list : Queue) cmp (cmp_glob : bool) (pattern : cstr) : Reldep.pool * result error Queue :=
  let tmp_cmp_type := remove_glob_when_unneeded cmp pattern cmp_glob in
  if case tmp_cmp_type [EQ] then let '(_, l, pl) := Reldep.add_reldep pattern reldep_list pl in (pl, Ok l)
  else if case tmp_cmp_type [GLOB] then let '(_, l, pl) := Reldep.add_reldep_with_glob pattern reldep_list pl in (pl, Ok l)
  else (pl, Err NotSupportedCmpType).
Fixpoint str2reldep_list pl (reldep_list : Queue) cmp (patterns : list cstr) : Reldep.pool * result error Queue :=
  match patterns with
  | [] => (pl, Ok reldep_list)
  | pattern :: patterns =>
      match str2reldep_internal pl reldep_list cmp (has_glob cmp) pattern with
      | (pl, Ok l) => str2reldep_list pl l cmp patterns
      | (pl, Err e) => (pl, Err e)
      end
  end.

Definition filter_provides pl cmp (reldep_list : Queue) fr : result error Map :=
  if case cmp [EQ] then Ok (fold_left (fun fr reldep_id => add_all (provides pl reldep_id) fr) reldep_list fr)
  else Err NotSupportedCmpType.
Definition ifilter_provides_list (s : Sack) cmp (reldep_list : Queue) q : Sack * result error Map :=
  let '(cmp_not, cmp) := strip_not cmp in
  let fr := SolvMap.make (nsolvables (the_pool s)) in
  let s := make_provides_ready s in
  (s, let* fr := filter_provides (the_pool s) cmp reldep_list fr in Ok (apply_filter cmp_not q fr)).
Definition ifilter_provides (s : Sack) cmp (patterns : list cstr) q : Sack * result error Map :=
  let '(cmp_not, cmp) := strip_not cmp in
  match str2reldep_list (the_pool s) [] cmp patterns with
  | (pl, Err e) => (set_pool pl s, Err e)
  | (pl, Ok reldep_list) => ifilter_provides_list (set_pool pl s) (if cmp_not then NEQ else EQ) reldep_list q
  end.

(** The operators of the filters on lists and sets: is it negated? *)
Definition eq_or_neq cmp : result error bool :=
  if case cmp [EQ] then Ok false else if case cmp [NEQ] then Ok true else Err NotSupportedCmpType.
Definition filter_reldep_list (s : Sack) (libsolv_key : Key) cmp (reldep_list : Queue) q : Sack * result error Map :=
  match eq_or_neq cmp with
  | Err e => (s, Err e)
  | Ok cmp_not =>
      let fr := SolvMap.make (nsolvables (the_pool s)) in
      let s := make_provides_ready s in
      let pl := the_pool s in
      (s, let* fr := collect (fun p => Ok (existsb (fun reldep_filter_id =>
                                existsb (pool_match_dep pl reldep_filter_id) (solvable_lookup_idarray pl p libsolv_key)) reldep_list))
                       (each q) fr in
          Ok (apply_filter cmp_not q fr))
  end.
Definition filter_reldep (s : Sack) (libsolv_key : Key) cmp (patterns : list cstr) q : Sack * result error Map :=
  let '(cmp_not, cmp) := strip_not cmp in
  match str2reldep_list (the_pool s) [] cmp patterns with
  | (pl, Err e) => (set_pool pl s, Err e)
  | (pl, Ok reldep_list) => filter_reldep_list (set_pool pl s) libsolv_key (if cmp_not then NEQ else EQ) reldep_list q
  end.
Definition filter_reldep_set (s : Sack) (libsolv_key : Key) cmp (package_set q : Map) : Sack * result error Map :=
  match eq_or_neq cmp with
  | Err e => (s, Err e)
  | Ok cmp_not =>
      let s := make_provides_ready s in
      let pl := the_pool s in
      let fr := fold_left (fun fr p =>
                  add_all (selected (selection_make_matchsolvable pl (queue_push2 (queue_empty []) SOLVER_SOLVABLE_ALL 0) p libsolv_key)) fr)
                  (each package_set) (SolvMap.make (nsolvables pl)) in
      (s, Ok (apply_filter cmp_not q fr))
  end.

Definition SYSTEMSOLVABLE : Z := 1.
(** The providers of a dependency that a package obsoletes, up to the first that is in the set and counts. *)
Fixpoint obsoleted_provider pl (target : Map) (r_id : Z) (l : list Z) : result error bool :=
  match l with
  | [] => Ok false
  | r :: l =>
      if negb (SolvMap.contains target r) then obsoleted_provider pl target r_id l
      else if r =? SYSTEMSOLVABLE then Err Crash
      else if negb (obsoleteusesprovides pl) && negb (pool_match_nevr pl r r_id) then obsoleted_provider pl target r_id l
      else Ok true
  end.
(** The loop over what a package obsoletes goes on behind a match. *)
Fixpoint obsoletes_any pl (target : Map) (l : list Z) : result error bool :=
  match l with
  | [] => Ok false
  | r_id :: l =>
      let* b := obsoleted_provider pl target r_id (provides pl r_id) in
      let* rest := obsoletes_any pl target l in
      Ok (b || rest)
  end.
Definition ifilter_obsoletes_set (s : Sack) cmp (package_set q : Map) : Sack * result error Map :=
  match eq_or_neq cmp with
  | Err e => (s, Err e)
  | Ok cmp_not =>
      let fr := SolvMap.make (nsolvables (the_pool s)) in
      let s := make_provides_ready s in
      let pl := the_pool s in
      (s, let* fr := collect (fun p => let so := pool_id2solvable pl p in
                                match s_repo so with None => Ok false | Some _ => obsoletes_any pl package_set (s_obsoletes so) end)
                       (each q) fr in
          Ok (apply_filter cmp_not q fr))
  end.

(** ** Specifications as a user gives them *)

Definition is_file_pattern (pattern : cstr) : bool :=
  bool_decide (pattern !! 0%nat = Some "/"%char)
  || bool_decide (pattern !! 0%nat = Some "*"%char /\ pattern !! 1%nat = Some "/"%char).

Definition no_nevra : Nevra.Nevra := Nevra.mkNevra [] [] [] [] [].
(** What an attempt found in the query: the result, or the next attempt with what was collected. *)
Fixpoint try_forms (s : Sack) (forms : list Nevra.Form) (pkg_spec : cstr) (nevra_obj : Nevra.Nevra) cmp q fr (with_src : bool)
    : Sack * result error (Map + Nevra.Nevra * Map) :=
  match forms with
  | [] => (s, Ok (inl fr))
  | form :: forms =>
      match Nevra.parse nevra_obj pkg_spec form with
      | (nevra_obj, false) => try_forms s forms pkg_spec nevra_obj cmp q fr with_src
      | (nevra_obj, true) =>
          match filter_nevra s nevra_obj true cmp q fr with_src with
          | (s, Err e) => (s, Err e)
          | (s, Ok fr) =>
              let fr := SolvMap.and_with fr q in
              if SolvMap.empty fr then try_forms s forms pkg_spec nevra_obj cmp q fr with_src
              else (s, Ok (inr (nevra_obj, SolvMap.and_with q fr)))
          end
      end
  end.
Definition try_nevra (s : Sack) (forms : list Nevra.Form) (pkg_spec : cstr) cmp q fr (with_src : bool)
    : Sack * result error (Map + Nevra.Nevra * Map) :=
  match try_forms s (match forms with [] => Nevra.PKG_SPEC_FORMS | _ => forms end) pkg_spec no_nevra cmp q fr with_src with
  | (s, Ok (inl fr)) =>
      match forms with
      | [] =>
          let '(s, sorted_solvables) := get_sorted_solvables s in
          (s, let* fr := nevra_step (the_pool s) sorted_solvables q (remove_glob_when_unneeded cmp pkg_spec true) (c_str pkg_spec) fr in
              let fr := SolvMap.and_with fr q in
              Ok (if SolvMap.empty fr then inl fr else inr (no_nevra, SolvMap.and_with q fr)))
      | _ => (s, Ok (inl fr))
      end
  | x => x
  end.
Definition try_provides (s : Sack) (pkg_spec : cstr) q fr : Sack * result error (Map + Nevra.Nevra * Map) :=
  match str2reldep_internal (the_pool s) [] GLOB true pkg_spec with
  | (pl, Err e) => (set_pool pl s, Err e)
  | (pl, Ok reldep_list) =>
      let s := make_provides_ready (set_pool pl s) in
      (s, let* fr := filter_provides (the_pool s) EQ reldep_list fr in
          let fr := SolvMap.and_with fr q in
          Ok (if SolvMap.empty fr then inl fr else inr (no_nevra, SolvMap.and_with q fr)))
  end.
Definition try_files (s : Sack) (pkg_spec : cstr) q fr : Sack * result error (Map + Nevra.Nevra * Map) :=
  (s, let* fr := filter_dataiterator (the_pool s) SOLVABLE_FILELIST [SEARCH_FILES; SEARCH_COMPLETE_FILELIST; SEARCH_GLOB] (each q) fr
                   (c_str pkg_spec) in
      Ok (if SolvMap.empty fr then inl fr else inr (no_nevra, SolvMap.and_with q fr))).

(** The attempts one after the other; the query is emptied if none finds anything. *)
Definition next (x : Sack * result error (Map + Nevra.Nevra * Map)) (cond : bool)
    (k : Sack -> Map -> Sack * result error (Map + Nevra.Nevra * Map)) : Sack * result error (Map + Nevra.Nevra * Map) :=
  match x with (s, Ok (inl fr)) => if cond then k s fr else (s, Ok (inl fr)) | _ => x end.
Definition resolve_pkg_spec (s : Sack) (pkg_spec : cstr) (icase with_nevra with_provides with_filenames with_src : bool)
    (forms : list Nevra.Form) q : Sack * result error (bool * Nevra.Nevra * Map) :=
  let x := (s, Ok (inl (SolvMap.make (nsolvables (the_pool s))))) in
  let x := next x with_nevra (fun s fr => try_nevra s forms pkg_spec (if icase then IGLOB else GLOB) q fr with_src) in
  let x := next x with_provides (fun s fr => try_provides s pkg_spec q fr) in
  let x := next x (with_filenames && is_file_pattern pkg_spec) (fun s fr => try_files s pkg_spec q fr) in
  match x with
  | (s, Ok (inr (nevra, q'))) => (s, Ok (true, nevra, q'))
  | (s, Ok (inl _)) => (s, Ok (false, no_nevra, SolvMap.clear q))
  | (s, Err e) => (s, Err e)
  end.

(** ** Queries *)

Inductive InitFlags := APPLY_EXCLUDES | IGNORE_MODULAR_EXCLUDES | IGNORE_REGULAR_EXCLUDES | IGNORE_EXCLUDES | EMPTY.
(** Excludes are not applied. *)
Definition new_query (s : Sack) (flags : InitFlags) : Sack * Map :=
  let q := SolvMap.make (nsolvables (the_pool s)) in
  match flags with
  | EMPTY => (s, q)
  | _ => let '(s, m) := get_solvables s in (s, SolvMap.or_with q m)
  end.
Definition size q : Z := SolvMap.size q.

(** Each call on a query. *)
Inductive Filter :=
| FName cmp (patterns : list cstr) | FEvr cmp (patterns : list cstr) | FArch cmp (patterns : list cstr)
| FNevra cmp (patterns : list cstr) | FNevraObject cmp (pattern : Nevra.Nevra)
| FVersion cmp (patterns : list cstr) | FRelease cmp (patterns : list cstr) | FReponame cmp (patterns : list cstr)
| FSourcerpm cmp (patterns : list cstr) | FEpochNumbers cmp (patterns : list Z) | FEpoch cmp (patterns : list cstr)
| FFile cmp (patterns : list cstr) | FDescription cmp (patterns : list cstr) | FSummary cmp (patterns : list cstr)
| FUrl cmp (patterns : list cstr) | FLocation cmp (patterns : list cstr)
| FProvidesList cmp (l : Queue) | FProvides cmp (patterns : list cstr)
| FReldep (k : Key) cmp (patterns : list cstr) | FReldepList (k : Key) cmp (l : Queue) | FReldepSet (k : Key) cmp (set : Map)
| FObsoletesSet cmp (set : Map)
| FResolve (pkg_spec : cstr) (icase with_nevra with_provides with_filenames with_src : bool) (forms : list Nevra.Form).
Definition run_filter (f : Filter) (s : Sack) q : Sack * result error Map :=
  let pl := the_pool s in
  match f with
  | FName cmp patterns => ifilter_name s cmp patterns q
  | FEvr cmp patterns => (s, ifilter_evr pl cmp patterns q)
  | FArch cmp patterns => (s, ifilter_arch pl cmp patterns q)
  | FNevra cmp patterns => ifilter_nevra s cmp patterns q
  | FNevraObject cmp pattern => ifilter_nevra_object s cmp pattern q
  | FVersion cmp patterns => (s, ifilter_version pl cmp patterns q)
  | FRelease cmp patterns => (s, ifilter_release pl cmp patterns q)
  | FReponame cmp patterns => (s, ifilter_reponame pl cmp patterns q)
  | FSourcerpm cmp patterns => (s, ifilter_sourcerpm pl cmp patterns q)
  | FEpochNumbers cmp patterns => (s, ifilter_epoch_numbers pl cmp patterns q)
  | FEpoch cmp patterns => (s, ifilter_epoch pl cmp patterns q)
  | FFile cmp patterns => (s, ifilter_file pl cmp patterns q)
  | FDescription cmp patterns => (s, ifilter_description pl cmp patterns q)
  | FSummary cmp patterns => (s, ifilter_summary pl cmp patterns q)
  | FUrl cmp patterns => (s, ifilter_url pl cmp patterns q)
  | FLocation cmp patterns => (s, ifilter_location pl cmp patterns q)
  | FProvidesList cmp l => ifilter_provides_list s cmp l q
  | FProvides cmp patterns => ifilter_provides s cmp patterns q
  | FReldep k cmp patterns => filter_reldep s k cmp patterns q
  | FReldepList k cmp l => filter_reldep_list s k cmp l q
  | FReldepSet k cmp set => filter_reldep_set s k cmp set q
  | FObsoletesSet cmp set => ifilter_obsoletes_set s cmp set q
  | FResolve spec icase n p f src forms =>
      let '(s, r) := resolve_pkg_spec s spec icase n p f src forms q in (s, let* x := r in Ok (snd x))
  end.
(** The sack and the query after a call, also after one that throws. *)
Definition call (f : Filter) (sq : Sack * Map) : Sack * Map :=
  match run_filter f (fst sq) (snd sq) with (s, Ok q) => (s, q) | (s, Err _) => (s, snd sq) end.

(** ** What a filter adds to its result *)

Context {HLL : LibsolvPoolLaws} {HSL : LibsolvLaws HS}.

(** The packages of a query are packages of the pool. *)
Definition query_ok pl q : Prop := room pl q /\ forall p, bit q p = true -> p ∈ packages pl.
Definition in_range pl (l : list Z) : Prop := Forall (fun p => 0 <= p < nsolvables pl) l.
Definition yes (x : result error bool) : bool := match x with Ok b => b | Err _ => false end.

Lemma same_query pl pl' q : same_packages pl pl' -> query_ok pl q -> query_ok pl' q.
Proof. intros Hs [H1 H2]. split; [by apply (room_same pl pl')|]. intros p Hp. by apply (same_packages_in pl), H2. Qed.
Lemma query_back pl pl' q : same_packages pl pl' -> query_ok pl' q -> query_ok pl q.
Proof. intros Hs [H1 H2]. split; [by apply (room_same pl pl')|]. intros p Hp. by apply (same_packages_in pl pl'); [|apply H2]. Qed.
Lemma query_bytes pl q : query_ok pl q -> bytes_ok q.
Proof. by intros [[Hq _] _]. Qed.
Lemma packages_in_range pl l : (forall p, p ∈ l -> p ∈ packages pl) -> in_range pl l.
Proof. intros Hl. apply Forall_forall. intros p Hp%Hl%packages_range. lia. Qed.
Lemma each_packages pl q p : query_ok pl q -> p ∈ each q -> p ∈ packages pl.
Proof. intros [[H1 _] H2] Hp. apply H2. by apply each_in. Qed.
Lemma each_range pl q : query_ok pl q -> in_range pl (each q).
Proof. intros Hq. apply packages_in_range. intros p. by apply each_packages. Qed.
Lemma filter_range (f : Z -> bool) pl l : sorted_ok pl l -> in_range pl (List.filter f l).
Proof. intros [_ Hl]. apply packages_in_range. intros p. rewrite list_elem_of_In, List.filter_In, <-list_elem_of_In, Hl. tauto. Qed.
Lemma run_while_in {A : Type} (f : A -> bool) l x : x ∈ run_while f l -> x ∈ l.
Proof.
  induction l as [|y l IH]; simpl; [done|]. destruct (f y); [|by intros ?%elem_of_nil].
  rewrite !elem_of_cons. intuition.
Qed.
Lemma equal_range_range pl l (less f : Z -> bool) : sorted_ok pl l -> in_range pl (equal_range less f l).
Proof.
  intros [_ Hl]. apply packages_in_range. intros p Hp%run_while_in. apply Hl.
  rewrite <-(take_drop (lower_bound less l) l). apply elem_of_app. by right.
Qed.

Lemma collect_spec pl test l fr : room pl fr -> in_range pl l ->
  match collect test l fr with
  | Ok fr' => room pl fr' /\ (forall k, bit fr' k = bit fr k || bool_decide (k ∈ l) && yes (test k))
  | Err e => exists p, p ∈ l /\ test p = Err e
  end.
Proof.
  intros Hr Hl. revert fr Hr. induction Hl as [|p l Hp _ IH]; intros fr Hr; simpl; [split; [done|]; intros; by rewrite orb_false_r|].
  destruct (test p) as [b|e] eqn:Et; simpl; [|by exists p; split; [left|]].
  set (fr1 := if b then _ else _). assert (H1 : room pl fr1 /\ forall k, bit fr1 k = bit fr k || (k =? p) && b).
  { unfold fr1. destruct b; [|split; [done|]; intros; by rewrite andb_false_r, orb_false_r].
    destruct (add_room pl fr p Hr Hp) as [A1 A2]. split; [done|]. intros k. by rewrite A2, andb_true_r, orb_comm. }
  destruct H1 as [H1 H2]. specialize (IH fr1 H1). destruct (collect test l fr1) as [fr'|e].
  - destruct IH as [I1 I2]. split; [done|]. intros k. rewrite I2, H2. destruct (Z.eqb_spec k p) as [->|Hne]; simpl.
    + rewrite (bool_decide_true (p ∈ p :: l)) by (by left). rewrite Et. simpl. destruct b; simpl; [by rewrite orb_true_r|].
      by rewrite andb_false_r, !orb_false_r.
    + rewrite orb_false_r. do 2 f_equal. apply bool_decide_ext. rewrite elem_of_cons. tauto.
  - destruct IH as (p' & ? & ?). exists p'. split; [by right|done].
Qed.
Lemma collect_room pl test l fr fr' : room pl fr -> in_range pl l -> collect test l fr = Ok fr' -> room pl fr'.
Proof. intros Hr Hl E. pose proof (collect_spec pl test l fr Hr Hl) as Hs. rewrite E in Hs. apply Hs. Qed.
(** A test that cannot fail. *)
Lemma collect_pure pl (f : Z -> bool) l fr : room pl fr -> in_range pl l ->
  exists fr', collect (fun p => Ok (f p)) l fr = Ok fr' /\ room pl fr' /\ forall k, bit fr' k = bit fr k || bool_decide (k ∈ l) && f k.
Proof.
  intros Hr Hl. pose proof (collect_spec pl (fun p => Ok (f p)) l fr Hr Hl) as Hs. destruct (collect _ l fr) as [fr'|e].
  - by exists fr'.
  - by destruct Hs as (p & _ & ?).
Qed.
Lemma add_all_result pl l fr : room pl fr -> in_range pl l -> room pl (add_all l fr) /\ forall k, bit (add_all l fr) k = bit fr k || bool_decide (k ∈ l).
Proof. apply add_all_room. Qed.

(** The result is applied. *)
Lemma apply_spec pl (cmp_not : bool) q fr : query_ok pl q -> room pl fr ->
  query_ok pl (apply_filter cmp_not q fr) /\ forall k, bit (apply_filter cmp_not q fr) k = bit q k && xorb cmp_not (bit fr k).
Proof.
  intros [(H0 & H1 & H3) H2] (Hr & Hn & _). assert (Hb : forall k, bit (apply_filter cmp_not q fr) k = bit q k && xorb cmp_not (bit fr k)).
  { intros k. unfold apply_filter. destruct cmp_not.
    - apply map_subtract_spec; done.
    - rewrite xorb_false_l. apply map_and_spec; [done|done|]. intros Hk%H2%packages_range. lia. }
  assert (Hin : forall k, bit (apply_filter cmp_not q fr) k = true -> bit q k = true) by (intros k; rewrite Hb; by intros [? _]%andb_true_iff).
  split; [|done]. split; [|auto]. split; [|split; [|auto]]; unfold apply_filter; destruct cmp_not.
  - by apply (map_subtract_spec q fr 0).
  - by apply (map_and_spec q fr 0).
  - destruct (map_subtract_spec q fr 0 H0 Hr) as (_ & B2 & _). unfold SolvMap.minus_with. by rewrite B2.
  - destruct (map_and_spec q fr 0 H0 Hr) as (_ & B2 & _). unfold SolvMap.and_with. by rewrite B2.
Qed.
(** What every filter does, whatever it looks for. *)
Definition shrinks pl q (r : result error Map) : Prop :=
  forall q', r = Ok q' -> query_ok pl q' /\ forall k, bit q' k = true -> bit q k = true.
Lemma apply_shrinks pl (cmp_not : bool) q (r : result error Map) : query_ok pl q -> (forall fr, r = Ok fr -> room pl fr) ->
  shrinks pl q (let* fr := r in Ok (apply_filter cmp_not q fr)).
Proof.
  intros Hq Hr q'. destruct r as [fr|e]; simpl; [|done]. intros [= <-].
  destruct (apply_spec pl cmp_not q fr Hq (Hr fr eq_refl)) as [H1 H2]. split; [done|]. intros k. rewrite H2. by intros [? _]%andb_true_iff.
Qed.

(** ** Filters on patterns *)

(** The operator that a pattern is used with. *)
Definition op_of cmp (pattern : cstr) : t := remove_glob_when_unneeded (snd (strip_not cmp)) pattern (has_glob (snd (strip_not cmp))).

Section patterns.
Context (pl : Reldep.pool) (q : Map) (step : t -> cstr -> Map -> result error Map).
(** The operators a filter knows, and what it looks for with them. *)
Context (knows : t -> bool) (looks_for : t -> cstr -> Z -> bool).
Context (step_spec : forall cmp pattern fr, room pl fr ->
  match step cmp pattern fr with
  | Ok fr' => knows cmp = true /\ room pl fr' /\ (forall k, bit q k = true -> bit fr' k = bit fr k || looks_for cmp pattern k)
  | Err e => knows cmp = false /\ e = NotSupportedCmpType
  end).

Lemma each_pattern_spec cmp cmp_glob patterns fr : room pl fr ->
  let op := fun pattern => remove_glob_when_unneeded cmp pattern cmp_glob in
  match each_pattern step cmp cmp_glob patterns fr with
  | Ok fr' => forallb (fun pattern => knows (op pattern)) patterns = true /\ room pl fr'
      /\ (forall k, bit q k = true -> bit fr' k = bit fr k || existsb (fun pattern => looks_for (op pattern) (c_str pattern) k) patterns)
  | Err e => forallb (fun pattern => knows (op pattern)) patterns = false /\ e = NotSupportedCmpType
  end.
Proof.
  intros Hr op. revert fr Hr. induction patterns as [|pattern patterns IH]; intros fr Hr; simpl;
    [split_and!; [done..|]; intros; by rewrite orb_false_r|].
  pose proof (step_spec (op pattern) (c_str pattern) fr Hr) as Hs. change (remove_glob_when_unneeded cmp pattern cmp_glob) with (op pattern).
  destruct (step _ _ fr) as [fr1|e]; simpl; [|destruct Hs as [-> ->]; done]. destruct Hs as (H1 & H2 & H3).
  specialize (IH fr1 H2). destruct (each_pattern step cmp cmp_glob patterns fr1) as [fr'|e].
  - destruct IH as (I1 & I2 & I3). split_and!; [by rewrite I1, andb_true_r|done|]. intros k Hk. rewrite I3, H3 by done. by rewrite orb_assoc.
  - destruct IH as [-> ->]. by rewrite andb_false_r.
Qed.

(** The query keeps those that some pattern looks for, or with [NOT] the others. *)
Lemma ifilter_patterns_spec cmp patterns : query_ok pl q ->
  match ifilter_patterns pl step cmp patterns q with
  | Ok q' => forallb (fun pattern => knows (op_of cmp pattern)) patterns = true /\ query_ok pl q'
      /\ forall k, bit q' k = bit q k && xorb (fst (strip_not cmp)) (existsb (fun pattern => looks_for (op_of cmp pattern) (c_str pattern) k) patterns)
  | Err e => forallb (fun pattern => knows (op_of cmp pattern)) patterns = false /\ e = NotSupportedCmpType
  end.
Proof.
  intros Hq. unfold ifilter_patterns, op_of. destruct (strip_not cmp) as [cmp_not c]. simpl.
  pose proof (each_pattern_spec c (has_glob c) patterns _ (make_room pl)) as Hs. simpl in Hs.
  destruct (each_pattern _ _ _ _ _) as [fr|e]; simpl; [|done]. destruct Hs as (H1 & H2 & H3).
  destruct (apply_spec pl cmp_not q fr Hq H2) as [H4 H5]. split_and!; [done..|]. intros k. rewrite H5.
  destruct (bit q k) eqn:E; [|done]. by rewrite (H3 k E), make_empty.
Qed.
End patterns.

Lemma each_pattern_room pl step cmp cmp_glob patterns fr fr' :
  (forall cmp pattern fr fr', room pl fr -> step cmp pattern fr = Ok fr' -> room pl fr') ->
  room pl fr -> each_pattern step cmp cmp_glob patterns fr = Ok fr' -> room pl fr'.
Proof.
  intros Hs. revert fr. induction patterns as [|pattern patterns IH]; intros fr Hr; simpl; [by intros [= <-]|].
  destruct (step _ _ fr) as [fr1|e] eqn:E; simpl; [|done]. apply IH. by apply Hs in E.
Qed.
Lemma ifilter_patterns_shrinks pl step cmp patterns q :
  (forall cmp pattern fr fr', room pl fr -> step cmp pattern fr = Ok fr' -> room pl fr') ->
  query_ok pl q -> shrinks pl q (ifilter_patterns pl step cmp patterns q).
Proof.
  intros Hs Hq. unfold ifilter_patterns. destruct (strip_not cmp) as [cmp_not c]. apply apply_shrinks; [done|].
  intros fr. apply each_pattern_room; [done|apply make_room].
Qed.
End query.
End SolvQuery.
