(* ===== verification/FullNames.v ===== *)
(** * FullNames: filtering by names, architectures and full names

    What [ifilter_name], [ifilter_arch] and [ifilter_nevra] find, in terms of the
    texts of the packages: the searches go through the ids of the texts in the
    pool and through binary searches over the sorted packages. *)

From S2P Require Import Prelude Numeric Sack Solv Regex Specs Packages SolvQuery.
From stdpp Require Import sorting.
Local Open Scope Z_scope.

Module FullNames.
Import QueryCmp Matches Packages SolvQuery.

Section query.
Context {HP : Reldep.Pool} {HL : LibsolvPool} {HS : Libsolv} {HM : Matching} {HLL : LibsolvPoolLaws} {HSL : LibsolvLaws HS}.
Implicit Types (pl : Reldep.pool) (q fr : Map) (cmp : t) (p : Z).

(** ** Names and architectures *)

(** An interned text is that of a pattern exactly if it has the id that is found for the pattern. *)
Lemma known_text pl p i (s : cstr) : p ∈ packages pl ->
  i = s_name (pool_id2solvable pl p) \/ i = s_arch (pool_id2solvable pl p) \/ i = s_evr (pool_id2solvable pl p) ->
  pool_id2str pl i = s <-> pool_find_id pl s <> 0 /\ i = pool_find_id pl s.
Proof.
  intros Hp%packages_in Hi. destruct (solvable_known pl p i (proj1 Hp) Hi) as [H0 H1]. split.
  - intros <-. by rewrite H1.
  - intros [Hs ->]. by apply find_id2str.
Qed.

(** What the binary search finds. *)
Lemma with_name_in pl sorted i p : sorted_ok pl sorted -> p ∈ with_name pl sorted i <-> p ∈ packages pl /\ s_name (pool_id2solvable pl p) = i.
Proof.
  intros Hs. unfold with_name, name_compare_lower_id. rewrite (by_name pl sorted) by done.
  by rewrite list_elem_of_In, List.filter_In, <-list_elem_of_In, (proj2 Hs), Z.eqb_eq.
Qed.

(** What the operators mean on a text. *)
Definition text_matches cmp (pattern s : cstr) : bool :=
  if case cmp [EQ] then bool_decide (s = pattern)
  else if case cmp [IEXACT] then strcasecmp s pattern
  else if case cmp [ICONTAINS] then strcasestr s pattern
  else if case cmp [IGLOB] then fnmatch FNM_CASEFOLD pattern s
  else if case cmp [CONTAINS] then strstr s pattern
  else if case cmp [GLOB] then fnmatch 0%N pattern s
  else false.
Definition name_operators cmp : bool :=
  case cmp [EQ] || case cmp [IEXACT] || case cmp [ICONTAINS] || case cmp [IGLOB] || case cmp [CONTAINS] || case cmp [GLOB].

Lemma bit_each pl q k : query_ok pl q -> bit q k = true -> bool_decide (k ∈ each q) = true.
Proof. intros Hq Hk. apply bool_decide_true. apply each_in; [by eapply query_bytes|done]. Qed.
(** A loop over the query that looks for [f]. *)
Lemma collect_query pl q (f : Z -> bool) fr : query_ok pl q -> room pl fr ->
  exists fr', collect (fun p => Ok (f p)) (each q) fr = Ok fr' /\ room pl fr' /\ forall k, bit q k = true -> bit fr' k = bit fr k || f k.
Proof.
  intros Hq Hr. destruct (collect_pure pl f (each q) fr Hr (each_range pl q Hq)) as (fr' & E & H1 & H2).
  exists fr'. split_and!; [done..|]. intros k Hk. by rewrite H2, (bit_each pl q k Hq Hk).
Qed.

(** The loop of a branch, from [collect_query]. *)
Ltac found pl q fr Hq Hr :=
  match goal with
  | |- context [collect (fun p => Ok (@?f p)) (each q) fr] =>
      let fr' := fresh in let E := fresh in let H1 := fresh in let H2 := fresh in
      destruct (collect_query pl q f fr Hq Hr) as (fr' & E & H1 & H2); cbv beta in E, H2; rewrite E; split; [done|]; split; [exact H1|exact H2]
  end.

Lemma name_step_spec pl sorted q cmp pattern fr : sorted_ok pl sorted -> query_ok pl q -> room pl fr ->
  match name_step pl sorted q cmp pattern fr with
  | Ok fr' => name_operators cmp = true /\ room pl fr'
      /\ (forall k, bit q k = true -> bit fr' k = bit fr k || text_matches cmp pattern (get_name pl k))
  | Err e => name_operators cmp = false /\ e = NotSupportedCmpType
  end.
Proof.
  intros Hs Hq Hr. unfold name_step, text_matches, name_operators, filter_glob_internal. destruct (case cmp [EQ]); cbn [orb result_bind].
  - assert (Hk : forall k, bit q k = true -> bool_decide (get_name pl k = pattern)
        = negb (pool_find_id pl pattern =? 0) && (s_name (pool_id2solvable pl k) =? pool_find_id pl pattern)).
    { intros k Hk. apply Hq in Hk. apply eq_true_iff_eq. rewrite bool_decide_eq_true, andb_true_iff, negb_true_iff, Z.eqb_neq, Z.eqb_eq.
      by apply (known_text pl k); [|left]. }
    destruct (Z.eqb_spec (pool_find_id pl pattern) 0) as [E0|E0].
    + split_and!; [done..|]. intros k Hbit. by rewrite Hk, orb_false_r.
    + destruct (add_all_result pl (with_name pl sorted (pool_find_id pl pattern)) fr Hr) as [H1 H2]; [by apply equal_range_range|].
      split_and!; [done..|]. intros k Hbit. rewrite H2, Hk by done. f_equal. apply eq_true_iff_eq.
      rewrite bool_decide_eq_true, with_name_in by done. simpl. rewrite Z.eqb_eq. pose proof (proj2 Hq k Hbit). tauto.
  - repeat match goal with
    | |- context [case cmp ?l] => destruct (case cmp l); cbn [orb]; [by found pl q fr Hq Hr|]
    end. done.
Qed.

(** Filtering by name keeps exactly the packages that a pattern looks for -
    with [NOT] exactly the others -, each pattern with its own operator, since a
    pattern without wild cards is compared and not matched. The search for equal
    names goes through the ids of the names and a binary search over the sorted
    packages, and finds what comparing the texts of all packages would. An
    unknown operator throws. *)
Theorem ifilter_name_spec (s : Sack) cmp patterns q : sack_ok s -> query_ok (the_pool s) q ->
  let pl := the_pool s in
  let known := forallb (fun pattern => name_operators (op_of cmp pattern)) patterns in
  match ifilter_name s cmp patterns q with
  | (s', Ok q') => known = true /\ sack_ok s' /\ the_pool s' = pl /\ query_ok pl q'
      /\ forall p, bit q' p = bit q p && xorb (fst (strip_not cmp))
           (existsb (fun pattern => text_matches (op_of cmp pattern) (c_str pattern) (get_name pl p)) patterns)
  | (s', Err e) => known = false /\ e = NotSupportedCmpType /\ sack_ok s' /\ the_pool s' = pl
  end.
Proof.
  intros Hs Hq pl known. unfold ifilter_name. pose proof (get_sorted_spec s Hs) as (H1 & H2 & H3).
  destruct (get_sorted_solvables s) as [s' sorted]. simpl in *. rewrite H2.
  pose proof (ifilter_patterns_spec pl q (name_step pl sorted q) name_operators (fun c pattern p => text_matches c pattern (get_name pl p))
    (fun c pattern fr => name_step_spec pl sorted q c pattern fr H3 Hq) cmp patterns Hq) as Hp. fold pl.
  destruct (ifilter_patterns _ _ _ _ _); intuition.
Qed.

(** ** Nevras *)

Definition arch_operators cmp : bool := case cmp [EQ] || case cmp [GLOB].
Lemma arch_step_spec pl q cmp pattern fr : query_ok pl q -> room pl fr ->
  match arch_step pl q cmp pattern fr with
  | Ok fr' => arch_operators cmp = true /\ room pl fr'
      /\ (forall k, bit q k = true -> bit fr' k = bit fr k || text_matches cmp pattern (get_arch pl k))
  | Err e => arch_operators cmp = false /\ e = NotSupportedCmpType
  end.
Proof.
  intros Hq Hr. unfold arch_step, text_matches, arch_operators, filter_glob_internal. destruct (case cmp [EQ]); cbn [orb result_bind].
  - assert (Hk : forall k, bit q k = true -> bool_decide (get_arch pl k = pattern)
        = negb (pool_find_id pl pattern =? 0) && (s_arch (pool_id2solvable pl k) =? pool_find_id pl pattern)).
    { intros k Hk. apply Hq in Hk. apply eq_true_iff_eq. rewrite bool_decide_eq_true, andb_true_iff, negb_true_iff, Z.eqb_neq, Z.eqb_eq.
      by apply (known_text pl k); [|right; left]. }
    destruct (Z.eqb_spec (pool_find_id pl pattern) 0) as [E0|E0].
    + split_and!; [done..|]. intros k Hbit. by rewrite Hk, orb_false_r.
    + destruct (collect_query pl q (fun p => s_arch (pool_id2solvable pl p) =? pool_find_id pl pattern) fr Hq Hr) as (fr' & -> & H1 & H2).
      split_and!; [done..|]. intros k Hbit. by rewrite H2, Hk.
  - destruct (case cmp [GLOB]) eqn:E; cbn [orb]; [|done]. unfold case in E. simpl in E. rewrite orb_false_r in E. apply N.eqb_eq in E as ->.
    change (case GLOB [IEXACT]) with false. change (case GLOB [ICONTAINS]) with false. change (case GLOB [IGLOB]) with false.
    change (case GLOB [CONTAINS]) with false. change (case GLOB [GLOB]) with true. cbv iota. found pl q fr Hq Hr.
Qed.

Theorem ifilter_arch_spec pl cmp patterns q : query_ok pl q ->
  match ifilter_arch pl cmp patterns q with
  | Ok q' => forallb (fun pattern => arch_operators (op_of cmp pattern)) patterns = true /\ query_ok pl q'
      /\ forall p, bit q' p = bit q p && xorb (fst (strip_not cmp))
           (existsb (fun pattern => text_matches (op_of cmp pattern) (c_str pattern) (get_arch pl p)) patterns)
  | Err e => forallb (fun pattern => arch_operators (op_of cmp pattern)) patterns = false /\ e = NotSupportedCmpType
  end.
Proof.
  intros Hq. apply (ifilter_patterns_spec pl q (arch_step pl q) arch_operators (fun c pattern p => text_matches c pattern (get_arch pl p))); [|done].
  intros c pattern fr. by apply arch_step_spec.
Qed.

(** A full name: name, epoch, version, release and architecture. *)
Record FullName := mkFull { f_name : cstr; f_epoch : option cstr; f_version : cstr; f_release : cstr; f_arch : cstr }.
Definition print_evr (e : option cstr) (v r : cstr) : cstr :=
  match e with None => v | Some e => e ++ ":"%char :: v end ++ "-"%char :: r.
Definition print_full (x : FullName) : cstr :=
  f_name x ++ "-"%char :: print_evr (f_epoch x) (f_version x) (f_release x) ++ "."%char :: f_arch x.
(** The version as libsolv stores it: an epoch of 0 is left out. *)
Definition stored_evr (x : FullName) : cstr :=
  print_evr (if bool_decide (f_epoch x = Some (lit "0")) then None else f_epoch x) (f_version x) (f_release x).
Definition without (set s : cstr) : Prop := Forall (fun c => one_of set c = false) s.
Record full_ok (x : FullName) : Prop := {
  full_text : without ["000"%char] (print_full x);
  full_name : f_name x <> [];
  full_version : f_version x <> [] /\ without (lit "-:") (f_version x);
  full_release : f_release x <> [] /\ without (lit "-") (f_release x);
  full_arch : f_arch x <> [] /\ without (lit "-.") (f_arch x);
  full_epoch : match f_epoch x with
               | None => True
               | Some e => e = lit "0" \/ (without (lit "-") e /\ exists c e', e = c :: e' /\ c <> "0"%char)
               end;
}.

Lemma c_str_id (s : cstr) : without ["000"%char] s -> c_str s = s.
Proof.
  induction 1 as [|c s Hc _ IH]; simpl; [done|]. unfold one_of in Hc. apply bool_decide_eq_false in Hc.
  destruct (N.eqb_spec (code c) 0) as [E|_]; [|by rewrite IH]. exfalso. apply Hc. apply list_elem_of_singleton.
  unfold code in E. by rewrite <-(ascii_N_embedding c), E.
Qed.

(** ** The delimiters *)

Lemma find_delims_app i s s' d : find_delims i (s ++ s') d = find_delims (i + length s) s' (find_delims i s d).
Proof.
  revert i d. induction s as [|c s IH]; intros i d; simpl; [by rewrite Nat.add_0_r|]. rewrite IH. f_equal. lia.
Qed.
Lemma find_delims_dashes i s d : without (lit "-") s ->
  evr_delim (find_delims i s d) = evr_delim d /\ release_delim (find_delims i s d) = release_delim d.
Proof.
  intros Hs. revert i d. induction Hs as [|c s Hc _ IH]; intros i d; simpl; [done|]. apply bool_decide_eq_false in Hc.
  rewrite (bool_decide_false (c = "-"%char)) by (intros ->; apply Hc; by left).
  destruct (bool_decide (c = "."%char)); [|apply IH]. by destruct (IH (S i) (mkDelims (evr_delim d) (release_delim d) (Some i))) as [-> ->].
Qed.
Lemma find_delims_none i s d : without (lit "-.") s -> find_delims i s d = d.
Proof.
  intros Hs. revert i d. induction Hs as [|c s Hc _ IH]; intros i d; simpl; [done|]. apply bool_decide_eq_false in Hc.
  rewrite (bool_decide_false (c = "-"%char)), (bool_decide_false (c = "."%char)) by (intros ->; apply Hc; set_solver). apply IH.
Qed.
Lemma find_delims_full n ev r a : without (lit "-") ev -> without (lit "-") r -> without (lit "-.") a ->
  find_delims 0 (n ++ "-"%char :: ev ++ "-"%char :: r ++ "."%char :: a) (mkDelims None None None)
  = mkDelims (Some (length n)) (Some (length n + S (length ev))%nat) (Some (length n + S (length ev) + S (length r))%nat).
Proof.
  intros He Hr Ha. rewrite find_delims_app. simpl. set (d0 := find_delims 0 n _).
  rewrite find_delims_app. destruct (find_delims_dashes (S (length n)) ev (mkDelims (release_delim d0) (Some (length n)) (arch_delim d0)) He) as [_ E2].
  set (d1 := find_delims (S (length n)) ev _) in *. simpl in E2. simpl.
  rewrite find_delims_app. rewrite E2. set (d2 := mkDelims (Some (length n)) _ _).
  simpl. match goal with |- context [find_delims ?i r d2] => destruct (find_delims_dashes i r d2 Hr) as [E3 E4] end. rewrite E3, E4.
  rewrite find_delims_none by done. unfold d2. simpl. f_equal; f_equal; lia.
Qed.

(** ** The epoch *)

Lemma char_at_app s (c : ascii) s' i : i = length s -> char_at (s ++ c :: s') i = Some c.
Proof. intros ->. unfold char_at. rewrite <-app_assoc. simpl. by rewrite lookup_app_r, Nat.sub_diag by lia. Qed.
Lemma snoc_cons {A : Type} (l : list A) x l' : l ++ x :: l' = (l ++ [x]) ++ l'.
Proof. by rewrite <-app_assoc. Qed.
(** A run of zeros that no colon follows is left alone. *)
Lemma skip_epoch_stays fuel pre zeros (c : ascii) rest e index : Forall (fun x => x = "0"%char) zeros ->
  c <> "0"%char -> c <> ":"%char -> length pre = (e + index)%nat -> (length zeros < fuel)%nat ->
  skip_epoch fuel (pre ++ zeros ++ c :: rest) e index = Some e.
Proof.
  intros Hz H0 H1. revert pre index fuel. induction Hz as [|x zeros -> Hz IH]; intros pre index fuel Hp Hf; (destruct fuel as [|fuel]; [simpl in Hf; lia|]); simpl.
  - rewrite char_at_app by done. by rewrite bool_decide_false.
  - rewrite char_at_app by done. simpl. simpl in Hf.
    assert (Hnext : exists y, char_at (pre ++ "0"%char :: zeros ++ c :: rest) (e + S index) = Some y /\ y <> ":"%char).
    { rewrite (snoc_cons pre "0"%char). destruct zeros as [|z zeros]; [exists c|exists z]; (split; [apply char_at_app; rewrite length_app; simpl; lia|]); [done|].
      inversion Hz; subst. done. }
    destruct Hnext as (y & -> & Hy). rewrite bool_decide_false by done.
    rewrite (snoc_cons pre "0"%char). apply IH; [rewrite length_app; simpl; lia|lia].
Qed.
(** The digits of a version start with zeros or do not. *)
Lemma zero_run (s : cstr) : exists zeros rest, s = zeros ++ rest /\ Forall (fun x => x = "0"%char) zeros
  /\ match rest with [] => True | c :: _ => c <> "0"%char end.
Proof.
  induction s as [|c s (zeros & rest & -> & Hz & Hr)]; [by exists [], []|].
  destruct (decide (c = "0"%char)) as [->|Hc]; [|by exists [], (c :: zeros ++ rest)].
  exists ("0"%char :: zeros), rest. split_and!; [done|by constructor|done].
Qed.

Lemma dash_head (s : cstr) : s <> [] -> without (lit "-:") s -> exists c s', s = c :: s' /\ c <> ":"%char.
Proof.
  intros Hne Hs. destruct Hs as [|c s Hc _]; [done|]. exists c, s. split; [done|]. intros ->. apply bool_decide_eq_false in Hc.
  apply Hc. right. by left.
Qed.
(** A version without colons, up to the dash behind it. *)
Lemma skip_version fuel pre v rest e index : without (lit "-:") v -> length pre = (e + index)%nat -> (length v < fuel)%nat ->
  skip_epoch fuel (pre ++ v ++ "-"%char :: rest) e index = Some e.
Proof.
  intros Hv Hp Hf. destruct (zero_run v) as (zeros & s & -> & Hz & Hs). rewrite length_app in Hf.
  destruct s as [|c s].
  - rewrite app_nil_r. apply skip_epoch_stays; (done || simpl in Hf; lia).
  - rewrite <-app_assoc. simpl. apply skip_epoch_stays; [done|done| |done|lia].
    apply Forall_app in Hv as [_ Hv]. apply Forall_cons in Hv as [Hc _]. apply bool_decide_eq_false in Hc.
    intros ->. apply Hc. right. by left.
Qed.

(** What is left of the text behind the name: the position of the separator in front of the version. *)
Lemma skip_epoch_full n x rest : full_ok x -> rest <> [] ->
  skip_epoch (S (length (n ++ "-"%char :: print_evr (f_epoch x) (f_version x) (f_release x) ++ rest)))
    (n ++ "-"%char :: print_evr (f_epoch x) (f_version x) (f_release x) ++ rest) (length n) 1
  = Some (if bool_decide (f_epoch x = Some (lit "0")) then length n + 2 else length n)%nat.
Proof.
  intros [_ _ [Hv0 Hv] [Hr0 Hr] _ He] Hrest. unfold print_evr. set (v := f_version x) in *. set (r := f_release x) in *.
  destruct (f_epoch x) as [e|].
  - destruct He as [->|[Hd (c & e' & -> & Hc)]].
    + rewrite bool_decide_true by done. change (lit "0") with ["0"%char]. destruct v as [|c v]; [done|].
      set (pre := n ++ ["-"; "0"; ":"; c]%char).
      assert (E : n ++ "-"%char :: ((["0"%char] ++ ":"%char :: c :: v) ++ "-"%char :: r) ++ rest = pre ++ v ++ "-"%char :: r ++ rest).
      { unfold pre. by rewrite <-!app_assoc. }
      rewrite E. cbn [skip_epoch].
      assert (C : forall i (d : ascii), (n ++ ["-"; "0"; ":"; c]%char) !! i = Some d -> char_at (pre ++ v ++ "-"%char :: r ++ rest) i = Some d).
      { intros i d Hi. unfold char_at. rewrite <-app_assoc. by apply lookup_app_l_Some. }
      rewrite (C _ "0"%char) by (rewrite lookup_app_r by lia; by replace (length n + 1 - length n)%nat with 1%nat by lia).
      rewrite bool_decide_true by done.
      rewrite (C _ ":"%char) by (rewrite lookup_app_r by lia; by replace (length n + 2 - length n)%nat with 2%nat by lia).
      rewrite bool_decide_true by done. apply skip_version.
      * by apply Forall_cons in Hv as [_ Hv].
      * unfold pre. rewrite length_app. simpl. lia.
      * rewrite !length_app. simpl. lia.
    + rewrite bool_decide_false by (intros [= ->]; done). rewrite (snoc_cons n). cbn [app skip_epoch].
      rewrite char_at_app by (rewrite length_app; simpl; lia). by rewrite bool_decide_false.
  - rewrite bool_decide_false by done. rewrite <-app_assoc. rewrite (snoc_cons n). apply skip_version; [done|rewrite length_app; simpl; lia|].
    rewrite !length_app. simpl. rewrite ?length_app. simpl. lia.
Qed.

(** ** Parsing, and the exact search *)

Lemma drop_app_S {A : Type} (l : list A) x l' : drop (S (length l)) (l ++ x :: l') = l'.
Proof. rewrite (snoc_cons l). rewrite drop_app_ge; rewrite length_app; simpl; [|lia]. by replace (S (length l) - (length l + 1))%nat with 0%nat by lia. Qed.

Lemma slice_app (s t u : cstr) : slice (s ++ t ++ u) (length s) (length s + length t) = t.
Proof. unfold slice. rewrite drop_app_length, Nat.add_comm, Nat.add_sub. apply take_app_length. Qed.

(** The version with its epoch, as it is written. *)
Definition epoch_version (x : FullName) : cstr := match f_epoch x with None => f_version x | Some e => e ++ ":"%char :: f_version x end.
Lemma print_full_eq x : print_full x = f_name x ++ "-"%char :: epoch_version x ++ "-"%char :: f_release x ++ "."%char :: f_arch x.
Proof. unfold print_full, print_evr. fold (epoch_version x). by rewrite <-!app_assoc. Qed.
Lemma epoch_version_ok x : full_ok x -> without (lit "-") (epoch_version x) /\ (1 <= length (epoch_version x))%nat.
Proof.
  intros Hx. destruct (full_version x Hx) as [Hv0 Hv]. unfold epoch_version. pose proof (full_epoch x Hx) as He. split.
  - assert (Hv' : without (lit "-") (f_version x)).
    { eapply Forall_impl; [exact Hv|]. intros c [Hc _]%bool_decide_eq_false%not_elem_of_cons. apply bool_decide_eq_false. set_solver. }
    destruct (f_epoch x) as [e|]; [|done]. apply Forall_app. split; [|by constructor].
    destruct He as [->|[He _]]; [by constructor|done].
  - destruct (f_epoch x); [rewrite length_app; simpl; lia|]. destruct (f_version x); simpl; [done|lia].
Qed.
(** Where the stored version is in the text. *)
Lemma stored_slice x : full_ok x ->
  let n := length (f_name x) in
  slice (print_full x) (S (if bool_decide (f_epoch x = Some (lit "0")) then n + 2 else n)%nat)
    (n + S (length (epoch_version x)) + S (length (f_release x))) = stored_evr x.
Proof.
  intros Hx n. rewrite print_full_eq. unfold stored_evr, print_evr, epoch_version. case_bool_decide as Hz.
  - rewrite Hz. change (lit "0") with ["0"%char].
    pose proof (slice_app (f_name x ++ lit "-0:") (f_version x ++ "-"%char :: f_release x) ("."%char :: f_arch x)) as Hs.
    rewrite !length_app in Hs. rewrite <-!app_assoc in Hs. simpl in *. etrans; [|exact Hs]. fold n. f_equal; lia.
  - fold (epoch_version x).
    pose proof (slice_app (f_name x ++ ["-"%char]) (epoch_version x ++ "-"%char :: f_release x) ("."%char :: f_arch x)) as Hs.
    rewrite !length_app in Hs. rewrite <-!app_assoc in Hs. simpl in *. etrans; [|exact Hs]. fold n. f_equal; lia.
Qed.

(** The text of a full name is divided into the name, the version as it is
    stored and the architecture, which are looked up one after the other. *)
Lemma parse_print_full pl x create : full_ok x ->
  parse_nevra_id pl (print_full x) create
  = Ok (if pool_find_id pl (f_name x) =? 0 then None
        else if create && (pool_find_id pl (stored_evr x) =? 0) then None
        else if pool_find_id pl (f_arch x) =? 0 then None
        else Some (mkNevraID (pool_find_id pl (f_name x)) (pool_find_id pl (f_arch x))
                     (if create then pool_find_id pl (stored_evr x) else 0) (if create then [] else stored_evr x))).
Proof.
  intros Hx. unfold parse_nevra_id. rewrite (c_str_id _ (full_text x Hx)).
  pose proof (skip_epoch_full (f_name x) x ("."%char :: f_arch x) Hx ltac:(done)) as Hskip. fold (print_full x) in Hskip.
  destruct (full_release x Hx) as [Hr0 Hr], (full_arch x Hx) as [Ha0 Ha], (epoch_version_ok x Hx) as [He He0].
  pose proof (stored_slice x Hx) as Hslice. cbv zeta in Hslice.
  assert (Hd : find_delims 0 (print_full x) (mkDelims None None None) = _) by (rewrite (print_full_eq x); by apply find_delims_full).
  rewrite Hd. cbn [evr_delim release_delim arch_delim].
  pose proof (full_name x Hx) as Hn. destruct (length (f_name x)) as [|m] eqn:El; [by destruct (f_name x)|]. rewrite Hskip. cbv beta iota zeta.
  assert (Hlen : length (print_full x) = (S m + S (length (epoch_version x)) + S (length (f_release x)) + S (length (f_arch x)))%nat).
  { rewrite print_full_eq, !length_app. simpl. rewrite !length_app. simpl. rewrite length_app. simpl. lia. }
  assert (Hr1 : (1 <= length (f_release x))%nat) by (destruct (f_release x); simpl; [done|lia]).
  assert (Ha1 : (1 <= length (f_arch x))%nat) by (destruct (f_arch x); simpl; [done|lia]).
  rewrite Hlen. rewrite (proj2 (Z.leb_gt _ _)), (proj2 (Nat.leb_gt _ _)), (proj2 (Nat.eqb_neq _ _)).
  - cbn [orb]. rewrite Hslice.
    assert (Hname : take (S m) (print_full x) = f_name x) by (rewrite print_full_eq, <-El; apply take_app_length).
    assert (Harch : drop (S (S m + S (length (epoch_version x)) + S (length (f_release x)))) (print_full x) = f_arch x).
    { rewrite print_full_eq. pose proof (drop_app_S (f_name x ++ "-"%char :: epoch_version x ++ "-"%char :: f_release x) "."%char (f_arch x)) as Hdr.
      rewrite <-!app_assoc in Hdr. simpl in Hdr. rewrite <-?app_assoc in Hdr. simpl in Hdr. etrans; [|exact Hdr]. f_equal.
      rewrite !length_app. simpl. rewrite length_app. simpl. lia. }
    rewrite Hname, Harch. destruct (pool_find_id pl (f_name x) =? 0); [done|]. destruct create; simpl; [|by destruct (_ =? 0)].
    destruct (pool_find_id pl (stored_evr x) =? 0); [done|]. by destruct (_ =? 0).
  - lia.
  - lia.
  - case_bool_decide as Hz; [|lia]. unfold epoch_version. rewrite Hz, length_app. simpl.
    destruct (full_version x Hx) as [Hv0 _]. destruct (f_version x); simpl; [done|lia].
Qed.

Lemma stored_text x : full_ok x -> without ["000"%char] (stored_evr x).
Proof.
  intros Hx. pose proof (full_text x Hx) as Ht. rewrite print_full_eq in Ht. unfold epoch_version in Ht.
  apply Forall_app in Ht as [_ Ht]. apply Forall_cons in Ht as [_ Ht]. apply Forall_app in Ht as [He Ht].
  apply Forall_cons in Ht as [_ Ht]. apply Forall_app in Ht as [Hr _].
  unfold stored_evr, print_evr. apply Forall_app. split; [|by constructor].
  case_bool_decide as Hz; [|done]. rewrite Hz in He. apply Forall_app in He as [_ He]. by apply Forall_cons in He as [_ He].
Qed.

Lemma by_nevra pl l id : sorted_ok pl l ->
  forall p, p ∈ equal_range (nevra_compare_lower_id pl id)
              (fun p => same_name_arch pl id p && (s_evr (pool_id2solvable pl p) =? n_evr id)) l
  <-> p ∈ packages pl /\ same_name_arch pl id p = true /\ s_evr (pool_id2solvable pl p) = n_evr id.
Proof.
  intros Hs p. rewrite (equal_range_filter _ _ (fun p => let f := pool_id2solvable pl p in
      if negb (s_name f =? n_name id) then n_name id <? s_name f
      else if negb (s_arch f =? n_arch id) then n_arch id <? s_arch f else n_evr id <? s_evr f)).
  - by rewrite list_elem_of_In, List.filter_In, <-list_elem_of_In, (proj2 Hs), andb_true_iff, Z.eqb_eq.
  - intros x. unfold nevra_compare_lower_id, same_name_arch. cbv zeta.
    destruct (Z.eqb_spec (s_name (pool_id2solvable pl x)) (n_name id)), (Z.eqb_spec (s_arch (pool_id2solvable pl x)) (n_arch id)); simpl; lia.
  - eapply sorted_weaken; [|exact (proj1 Hs)]. intros x y. unfold solvable_le, nevra_solvable_cmp_key, nevra_compare_lower_id. cbv zeta.
    generalize (pool_id2solvable pl x) (pool_id2solvable pl y). intros [n1 a1 e1 ? ?] [n2 a2 e2 ? ?]. simpl.
    destruct (Z.eqb_spec n2 n1), (Z.eqb_spec a2 a1), (Z.eqb_spec n1 (n_name id)), (Z.eqb_spec n2 (n_name id)),
      (Z.eqb_spec a1 (n_arch id)), (Z.eqb_spec a2 (n_arch id)); simpl; lia.
  - intros x. unfold nevra_compare_lower_id. cbv zeta. destruct (negb _); [lia|]. destruct (negb _); lia.
Qed.
Lemma by_name_arch pl l id : sorted_ok pl l ->
  forall p, p ∈ equal_range (name_arch_compare_lower_id pl id) (same_name_arch pl id) l <-> p ∈ packages pl /\ same_name_arch pl id p = true.
Proof.
  intros Hs p. rewrite (equal_range_filter _ _ (fun p => let f := pool_id2solvable pl p in
      if negb (s_name f =? n_name id) then n_name id <? s_name f else n_arch id <? s_arch f)).
  - by rewrite list_elem_of_In, List.filter_In, <-list_elem_of_In, (proj2 Hs).
  - intros x. unfold name_arch_compare_lower_id, same_name_arch. cbv zeta.
    destruct (Z.eqb_spec (s_name (pool_id2solvable pl x)) (n_name id)); simpl; lia.
  - eapply sorted_weaken; [|exact (proj1 Hs)]. intros x y. unfold solvable_le, nevra_solvable_cmp_key, name_arch_compare_lower_id. cbv zeta.
    generalize (pool_id2solvable pl x) (pool_id2solvable pl y). intros [n1 a1 e1 ? ?] [n2 a2 e2 ? ?]. simpl.
    destruct (Z.eqb_spec n2 n1), (Z.eqb_spec a2 a1), (Z.eqb_spec n1 (n_name id)), (Z.eqb_spec n2 (n_name id)); simpl; lia.
  - intros x. unfold name_arch_compare_lower_id. cbv zeta. destruct (negb _); lia.
Qed.

(** What a full name means with each operator: the name and the architecture
    are compared as texts, the version as a text or by its order. *)
Definition version_order cmp : option (Z -> bool) :=
  if case cmp [GT] then Some cmp_gt else if case cmp [LT] then Some cmp_lt
  else if case cmp [GTE] then Some cmp_gte else if case cmp [LTE] then Some cmp_lte else None.
Definition full_matches pl cmp (x : FullName) p : bool :=
  bool_decide (get_name pl p = f_name x /\ get_arch pl p = f_arch x)
  && match version_order cmp with
     | Some f => f (pool_evrcmp_str (get_evr pl p) (stored_evr x))
     | None => bool_decide (get_evr pl p = stored_evr x)
     end.
Definition full_operators cmp : bool := case cmp [EQ] || case cmp [GT] || case cmp [LT] || case cmp [GTE] || case cmp [LTE].

Lemma same_name_arch_text pl id x p : p ∈ packages pl ->
  pool_find_id pl (f_name x) <> 0 -> pool_find_id pl (f_arch x) <> 0 -> n_name id = pool_find_id pl (f_name x) -> n_arch id = pool_find_id pl (f_arch x) ->
  same_name_arch pl id p = bool_decide (get_name pl p = f_name x /\ get_arch pl p = f_arch x).
Proof.
  intros Hp Hn Ha En Ea. unfold same_name_arch. apply eq_true_iff_eq. rewrite andb_true_iff, !Z.eqb_eq, bool_decide_eq_true.
  unfold get_name, get_arch. rewrite (known_text pl p _ (f_name x)), (known_text pl p _ (f_arch x)) by tauto. rewrite En, Ea. tauto.
Qed.
(** A text that is not interned is in no package. *)
Lemma unknown_full pl cmp x p : p ∈ packages pl ->
  pool_find_id pl (f_name x) = 0 \/ pool_find_id pl (f_arch x) = 0 \/ (version_order cmp = None /\ pool_find_id pl (stored_evr x) = 0) ->
  full_matches pl cmp x p = false.
Proof.
  intros Hp H. unfold full_matches. apply andb_false_iff.
  destruct H as [H|[H|[Hv H]]]; [left|left|right; rewrite Hv]; apply bool_decide_eq_false; [intros [E _]|intros [_ E]|intros E];
    apply (known_text pl p) in E; (tauto || done).
Qed.

Lemma nevra_order_step pl sorted q x fr (f : Z -> bool) cmp : sorted_ok pl sorted -> query_ok pl q -> room pl fr -> full_ok x -> version_order cmp = Some f ->
  exists fr', filter_nevra_internal pl f (print_full x) sorted fr = Ok fr' /\ room pl fr'
  /\ forall k, bit q k = true -> bit fr' k = bit fr k || full_matches pl cmp x k.
Proof.
  intros Hs Hq Hr Hx Hv. unfold filter_nevra_internal. rewrite parse_print_full by done. cbn [result_bind andb].
  assert (Hnone : pool_find_id pl (f_name x) = 0 \/ pool_find_id pl (f_arch x) = 0 ->
    exists fr', Ok (E := error) fr = Ok fr' /\ room pl fr' /\ forall k, bit q k = true -> bit fr' k = bit fr k || full_matches pl cmp x k).
  { intros H0. exists fr. split_and!; [done..|]. intros k Hk. rewrite unknown_full, orb_false_r by (apply Hq in Hk; tauto). done. }
  destruct (Z.eqb_spec (pool_find_id pl (f_name x)) 0) as [E1|E1]; [by apply Hnone; left|].
  destruct (Z.eqb_spec (pool_find_id pl (f_arch x)) 0) as [E2|E2]; [by apply Hnone; right|].
  set (id := mkNevraID _ _ _ _).
  assert (Hevr : c_str (evr_str id) = stored_evr x) by (apply c_str_id, stored_text; done). rewrite Hevr.
  destruct (collect_pure pl (fun p => f (pool_evrcmp_str (get_evr pl p) (stored_evr x)))
    (equal_range (name_arch_compare_lower_id pl id) (same_name_arch pl id) sorted) fr Hr) as (fr' & -> & H1 & H2); [by apply equal_range_range|].
  exists fr'. split_and!; [done..|]. intros k Hk. rewrite H2. f_equal. unfold full_matches. rewrite Hv. f_equal.
  rewrite <-(same_name_arch_text pl id x k) by (done || by apply Hq). apply eq_true_iff_eq. rewrite bool_decide_eq_true, by_name_arch by done.
  pose proof (proj2 Hq k Hk). tauto.
Qed.
Lemma nevra_equal_step pl sorted q x fr : sorted_ok pl sorted -> query_ok pl q -> room pl fr -> full_ok x ->
  exists fr', nevra_step pl sorted q EQ (print_full x) fr = Ok fr' /\ room pl fr'
  /\ forall k, bit q k = true -> bit fr' k = bit fr k || full_matches pl EQ x k.
Proof.
  intros Hs Hq Hr Hx. unfold nevra_step. change (case EQ [EQ]) with true. cbv iota. rewrite parse_print_full by done. cbn [result_bind andb].
  assert (Hnone : pool_find_id pl (f_name x) = 0 \/ pool_find_id pl (f_arch x) = 0 \/ (version_order EQ = None /\ pool_find_id pl (stored_evr x) = 0) ->
    exists fr', Ok (E := error) fr = Ok fr' /\ room pl fr' /\ forall k, bit q k = true -> bit fr' k = bit fr k || full_matches pl EQ x k).
  { intros H0. exists fr. split_and!; [done..|]. intros k Hk. rewrite unknown_full, orb_false_r by (apply Hq in Hk; tauto). done. }
  destruct (Z.eqb_spec (pool_find_id pl (f_name x)) 0) as [E1|E1]; [by apply Hnone; left|].
  destruct (Z.eqb_spec (pool_find_id pl (stored_evr x)) 0) as [E3|E3]; [by apply Hnone; right; right|].
  destruct (Z.eqb_spec (pool_find_id pl (f_arch x)) 0) as [E2|E2]; [by apply Hnone; right; left|].
  set (id := mkNevraID _ _ _ _). eexists. split; [done|].
  match goal with |- context [add_all ?l fr] => destruct (add_all_result pl l fr Hr) as [H1 H2]; [by apply equal_range_range|] end.
  split; [done|]. intros k Hk. rewrite H2. f_equal. unfold full_matches. change (version_order EQ) with (@None (Z -> bool)). cbv iota.
  rewrite <-(same_name_arch_text pl id x k) by (done || by apply Hq). apply eq_true_iff_eq.
  rewrite andb_true_iff, !bool_decide_eq_true, by_nevra by done. unfold get_evr. rewrite (known_text pl k _ (stored_evr x)) by (tauto || by apply Hq).
  simpl. pose proof (proj2 Hq k Hk). tauto.
Qed.

Lemma case_one cmp c : case cmp [c] = true -> cmp = c.
Proof. unfold case. simpl. rewrite orb_false_r. apply N.eqb_eq. Qed.
Lemma nevra_step_full pl sorted q cmp x fr : sorted_ok pl sorted -> query_ok pl q -> room pl fr -> full_ok x -> full_operators cmp = true ->
  exists fr', nevra_step pl sorted q cmp (print_full x) fr = Ok fr' /\ room pl fr'
  /\ forall k, bit q k = true -> bit fr' k = bit fr k || full_matches pl cmp x k.
Proof.
  intros Hs Hq Hr Hx. unfold full_operators. rewrite !orb_true_iff.
  intros [[[[H|H]|H]|H]|H]; apply case_one in H as ->; [by apply nevra_equal_step|..].
  - by apply (nevra_order_step pl sorted q x fr cmp_gt GT).
  - by apply (nevra_order_step pl sorted q x fr cmp_lt LT).
  - by apply (nevra_order_step pl sorted q x fr cmp_gte GTE).
  - by apply (nevra_order_step pl sorted q x fr cmp_lte LTE).
Qed.

(** C16. Full names - name-epoch:version-release.arch - are found exactly: the
    text is divided, looked up, and searched for by two or three ids in the
    sorted packages; what is kept are the packages of that name and architecture
    whose version is the same text, an epoch of 0 in the pattern left out, or
    compares as the operator says. *)
Theorem ifilter_nevra_full (s : Sack) cmp xs q : sack_ok s -> query_ok (the_pool s) q -> Forall full_ok xs ->
  full_operators (snd (strip_not cmp)) = true ->
  exists s' q', ifilter_nevra s cmp (map print_full xs) q = (s', Ok q') /\ sack_ok s' /\ query_ok (the_pool s) q'
  /\ forall p, bit q' p = bit q p && xorb (fst (strip_not cmp)) (existsb (fun x => full_matches (the_pool s) (snd (strip_not cmp)) x p) xs).
Proof.
  intros Hs Hq Hxs. unfold ifilter_nevra. pose proof (get_sorted_spec s Hs) as (H1 & H2 & H3).
  destruct (get_sorted_solvables s) as [s' sorted]. simpl in H1, H2, H3. rewrite H2. set (pl := the_pool s) in *.
  unfold ifilter_patterns. destruct (strip_not cmp) as [cmp_not c]. cbn [fst snd]. intros Hc.
  assert (Hg : has_glob c = false).
  { unfold full_operators in Hc. rewrite !orb_true_iff in Hc. destruct Hc as [[[[H|H]|H]|H]|H]; apply case_one in H as ->; done. }
  assert (Hloop : forall fr, room pl fr -> exists fr', each_pattern (nevra_step pl sorted q) c (has_glob c) (map print_full xs) fr = Ok fr'
    /\ room pl fr' /\ forall k, bit q k = true -> bit fr' k = bit fr k || existsb (fun x => full_matches pl c x k) xs).
  { clear Hs. induction Hxs as [|x xs Hx _ IH]; intros fr Hr; simpl; [exists fr; split_and!; [done..|]; intros; by rewrite orb_false_r|].
    assert (Hop : remove_glob_when_unneeded c (print_full x) (has_glob c) = c) by (by rewrite Hg). rewrite Hop, (c_str_id _ (full_text x Hx)).
    destruct (nevra_step_full pl sorted q c x fr H3 Hq Hr Hx Hc) as (fr1 & -> & R1 & B1). simpl.
    destruct (IH fr1 R1) as (fr' & E & R2 & B2). exists fr'. split_and!; [done..|]. intros k Hk. by rewrite B2, B1, orb_assoc by done. }
  destruct (Hloop _ (make_room pl)) as (fr & -> & R & B). simpl. destruct (apply_spec pl cmp_not q fr Hq R) as [A1 A2].
  eexists s', _. split_and!; [done..|]. intros p. rewrite A2. destruct (bit q p) eqn:E; [|done]. by rewrite B, make_empty.
Qed.

End query.
End FullNames.
