(* ===== verification/Queries.v ===== *)
(** * Queries: what holds of every filter, and of specifications as a user gives them

    Whatever filters are called, a query stays a set of packages of the sack and
    only becomes smaller, the caches of the sack stay true, and interning
    dependencies does not change the packages. A specification is resolved by the
    first of several attempts that finds a package. *)

From S2P Require Import Prelude Numeric Sack Solv Regex Specs Packages SolvQuery FullNames.
From stdpp Require Import sorting.
Local Open Scope Z_scope.

Module Queries.
Import QueryCmp Matches Packages SolvQuery FullNames.

Section query.
Context {HP : Reldep.Pool} {HL : LibsolvPool} {HS : Libsolv} {HM : Matching} {HLL : LibsolvPoolLaws} {HSL : LibsolvLaws HS}.
Implicit Types (pl : Reldep.pool) (q fr : Map) (cmp : t) (p : Z) (s : Sack).

(** ** Results keep their room, whatever is added *)

Create HintDb query.
#[local] Hint Resolve make_room each_range add_all_result equal_range_range collect_room : query.

Definition keeps_room pl (f : Map -> result error Map) : Prop := forall fr fr', room pl fr -> f fr = Ok fr' -> room pl fr'.
Lemma room_ok pl : keeps_room pl Ok.
Proof. by intros fr fr' Hr [= <-]. Qed.
Lemma room_err pl e : keeps_room pl (fun _ => Err e).
Proof. done. Qed.
Lemma room_collect pl test l : in_range pl l -> keeps_room pl (collect test l).
Proof. intros Hl fr fr' Hr. by apply collect_room. Qed.
Lemma room_add_all pl l : in_range pl l -> keeps_room pl (fun fr => Ok (add_all l fr)).
Proof. intros Hl fr fr' Hr [= <-]. by apply add_all_result. Qed.
Lemma room_if pl (b : bool) f g : keeps_room pl f -> keeps_room pl g -> keeps_room pl (fun fr => if b then f fr else g fr).
Proof. by destruct b. Qed.
Lemma room_bind {A : Type} pl (m : result error A) (f : A -> Map -> result error Map) :
  (forall x, keeps_room pl (f x)) -> keeps_room pl (fun fr => let* x := m in f x fr).
Proof. intros Hf fr fr' Hr. destruct m as [x|e]; simpl; [by apply Hf|done]. Qed.
Lemma room_seq pl f g : keeps_room pl f -> keeps_room pl g -> keeps_room pl (fun fr => let* fr := f fr in g fr).
Proof. intros Hf Hg fr fr' Hr. destruct (f fr) as [fr1|e] eqn:E; simpl; [|done]. apply Hg. by eapply Hf. Qed.

Ltac keeps :=
  repeat (apply room_if || apply room_ok || apply room_err || (apply room_collect; by eauto with query)
          || (apply room_add_all; by eauto with query)).

Section steps.
Context (pl : Reldep.pool) (sorted : list Z) (q : Map) (Hs : sorted_ok pl sorted) (Hq : query_ok pl q).

Lemma name_keeps cmp pattern : keeps_room pl (name_step pl sorted q cmp pattern).
Proof. unfold name_step, filter_glob_internal. cbv zeta. keeps. Qed.
Lemma arch_keeps cmp pattern : keeps_room pl (arch_step pl q cmp pattern).
Proof. unfold arch_step, filter_glob_internal. cbv zeta. keeps. Qed.
Lemma version_keeps cmp pattern : keeps_room pl (version_step pl q cmp pattern).
Proof. unfold version_step, filter_version_internal, filter_glob_internal. keeps. Qed.
Lemma release_keeps cmp pattern : keeps_room pl (release_step pl q cmp pattern).
Proof. unfold release_step, filter_release_internal, filter_glob_internal. keeps. Qed.
Lemma sourcerpm_keeps cmp pattern : keeps_room pl (sourcerpm_step pl q cmp pattern).
Proof. unfold sourcerpm_step. cbv zeta. keeps. Qed.
Lemma epoch_keeps cmp pattern : keeps_room pl (epoch_step pl q cmp pattern).
Proof. unfold epoch_step. keeps. Qed.
Lemma nevra_keeps cmp pattern : keeps_room pl (nevra_step pl sorted q cmp pattern).
Proof.
  unfold nevra_step, filter_nevra_internal, filter_glob_internal.
  assert (H : forall c, keeps_room pl (fun fr => filter_nevra_internal pl c pattern sorted fr)).
  { intros c. apply room_bind. intros [id|]; keeps. }
  repeat apply room_if; try apply H; keeps. apply room_bind. intros [id|]; keeps.
Qed.
Lemma evr_keeps f patterns : keeps_room pl (evr_loop pl f patterns q).
Proof. induction patterns as [|pattern patterns IH]; simpl; [keeps|]. apply room_seq; [keeps|done]. Qed.
Lemma epochs_keep f patterns : keeps_room pl (epoch_loop pl f patterns q).
Proof. induction patterns as [|pattern patterns IH]; simpl; [keeps|]. apply room_seq; [keeps|done]. Qed.
Lemma location_keeps patterns : keeps_room pl (location_loop pl patterns q).
Proof. induction patterns as [|pattern patterns IH]; simpl; [keeps|]. apply room_seq; [keeps|done]. Qed.
Lemma dataiterator_keeps k flags pattern : keeps_room pl (fun fr => filter_dataiterator pl k flags (each q) fr pattern).
Proof. unfold filter_dataiterator. keeps. Qed.
Lemma data_keeps k cmp pattern :
  keeps_room pl (fun fr => match search_flags cmp with
                           | Some flags => filter_dataiterator pl k flags (each q) fr pattern
                           | None => Err NotSupportedCmpType
                           end).
Proof. destruct (search_flags cmp); [apply dataiterator_keeps|apply room_err]. Qed.
End steps.

Lemma ranges_in_range pl (l : list Z) : (forall p, p ∈ l -> 0 < p < nsolvables pl) -> in_range pl l.
Proof. intros Hl. apply Forall_forall. intros p Hp%Hl. lia. Qed.
Lemma fold_room {A : Type} pl (f : A -> list Z) l fr : (forall x, in_range pl (f x)) -> room pl fr ->
  room pl (fold_left (fun fr x => add_all (f x) fr) l fr).
Proof. intros Hf. revert fr. induction l as [|x l IH]; intros fr Hr; simpl; [done|]. apply IH. by apply add_all_result. Qed.
Lemma provides_keep pl cmp l : keeps_room pl (filter_provides pl cmp l).
Proof.
  apply room_if; [|keeps]. intros fr fr' Hr [= <-]. apply fold_room; [|done]. intros id. apply ranges_in_range.
  intros p. apply provides_range.
Qed.

(** ** Dependencies are interned *)

Lemma same_get_reldep name version c pl : same_packages pl (snd (Reldep.get_reldep_id name version c pl)).
Proof.
  unfold Reldep.get_reldep_id. pose proof (str2id_same name pl) as H1. destruct (Reldep.pool_str2id name pl) as [id pl1]. simpl in H1.
  destruct version as [v|]; [|done]. pose proof (str2id_same (Some v) pl1) as H2. destruct (Reldep.pool_str2id (Some v) pl1) as [evr pl2]. simpl in H2.
  by rewrite H1, H2, <-rel2id_same.
Qed.
Lemma same_get_reldep_str str pl : same_packages pl (snd (Reldep.get_reldep_id_str str pl)).
Proof.
  assert (Hp : same_packages pl (snd (match Reldep.parse (Reldep.mkParser [] [] Reldep.NONE) str with
      | (_, false) => (Err Reldep.CannotParse, pl)
      | (r, true) => let '(id, pl) := Reldep.get_reldep_id (Reldep.get_name_cstr r) (Reldep.get_evr_cstr r) (Reldep.cmp_type r) pl in (Ok id, pl)
      end))).
  { destruct (Reldep.parse _ str) as [r []]; [|done]. pose proof (same_get_reldep (Reldep.get_name_cstr r) (Reldep.get_evr_cstr r) (Reldep.cmp_type r) pl) as H.
    by destruct (Reldep.get_reldep_id _ _ _ pl). }
  unfold Reldep.get_reldep_id_str. pose proof (richdep_same str pl) as Hr. destruct str as [|[[] [] [] [] [] [] [] []] str]; try done.
  by destruct (Reldep.pool_parserpmrichdep _ pl).
Qed.
Lemma same_add_globbed (r : Reldep.ReldepParser) strs l pl : same_packages pl (snd (Reldep.add_globbed r strs l pl)).
Proof.
  revert l pl. induction strs as [|str strs IH]; intros l pl; simpl; [done|].
  pose proof (same_get_reldep (Some str) (Reldep.get_evr_cstr r) (Reldep.cmp_type r) pl) as H. destruct (Reldep.get_reldep_id _ _ _ pl) as [id pl1].
  by rewrite H, <-IH.
Qed.
Lemma same_internal pl l cmp cmp_glob pattern : same_packages pl (fst (str2reldep_internal pl l cmp cmp_glob pattern)).
Proof.
  unfold str2reldep_internal. destruct (case _ [EQ]).
  - unfold Reldep.add_reldep. pose proof (same_get_reldep_str pattern pl) as H. by destruct (Reldep.get_reldep_id_str pattern pl) as [[] pl1].
  - destruct (case _ [GLOB]); [|done]. unfold Reldep.add_reldep_with_glob. destruct (Reldep.parse _ pattern) as [p []]; [|done].
    pose proof (same_add_globbed p (Reldep.dataiterator (Reldep.get_name_cstr p) pl) l pl) as H. by destruct (Reldep.add_globbed _ _ l pl).
Qed.
Lemma same_str2reldep pl l cmp patterns : same_packages pl (fst (str2reldep_list pl l cmp patterns)).
Proof.
  revert pl l. induction patterns as [|pattern patterns IH]; intros pl l; simpl; [done|].
  pose proof (same_internal pl l cmp (has_glob cmp) pattern) as H. destruct (str2reldep_internal _ _ _ _ _) as [pl1 [l1|e]]; [|done].
  by rewrite H, <-IH.
Qed.

(** ** What every call does *)

(** The sack afterwards is one of the same packages, and the query has become smaller. *)
Definition call_ok s q (x : Sack * result error Map) : Prop :=
  sack_ok (fst x) /\ same_packages (the_pool s) (the_pool (fst x)) /\ shrinks (the_pool s) q (snd x).

Lemma shrinks_err pl q e : shrinks pl q (Err e).
Proof. done. Qed.
Lemma same_shrinks pl pl' q r : same_packages pl pl' -> shrinks pl' q r -> shrinks pl q r.
Proof.
  intros Hs Hr q' E. destruct (Hr q' E) as [Hq H]. split; [by apply (query_back pl pl')|done].
Qed.
Lemma call_same s s' q x : same_packages (the_pool s) (the_pool s') -> call_ok s' q x -> call_ok s q x.
Proof. intros Hs (H1 & H2 & H3). split_and!; [done|by rewrite Hs|by eapply same_shrinks]. Qed.
Lemma call_pure s q r : sack_ok s -> shrinks (the_pool s) q r -> call_ok s q (s, r).
Proof. by intros. Qed.
(** A result is collected in the pool as it is then, and applied. *)
Lemma call_collect s s' q (cmp_not : bool) (f : Map -> result error Map) : sack_ok s' -> same_packages (the_pool s) (the_pool s') ->
  query_ok (the_pool s) q -> keeps_room (the_pool s') f ->
  call_ok s q (s', let* fr := f (SolvMap.make (nsolvables (the_pool s))) in Ok (apply_filter cmp_not q fr)).
Proof.
  intros Hs' Hs Hq Hf. split_and!; [done|done|]. apply (same_shrinks _ (the_pool s')); [done|].
  apply apply_shrinks; [by apply (same_query (the_pool s))|]. intros fr. apply Hf. rewrite room_same by exact Hs. apply make_room.
Qed.
Lemma call_bound s q (f : Map -> result error Map) (b : bool) : sack_ok s -> query_ok (the_pool s) q -> keeps_room (the_pool s) f ->
  call_ok s q (s, let* fr := f (SolvMap.make (nsolvables (the_pool s))) in Ok (apply_filter b q fr)).
Proof. intros. by apply call_collect. Qed.

(** A parsed specification: the names come from the sorted packages or from the query. *)
Lemma filter_nevra_ok s nevra (cmp_glob : bool) cmp q (with_src : bool) fr : sack_ok s -> query_ok (the_pool s) q -> room (the_pool s) fr ->
  let x := filter_nevra s nevra cmp_glob cmp q fr with_src in
  sack_ok (fst x) /\ the_pool (fst x) = the_pool s /\ match snd x with Ok fr' => room (the_pool s) fr' | Err _ => True end.
Proof.
  intros Hs Hq Hr. unfold filter_nevra. pose proof (get_sorted_spec s Hs) as (H1 & H2 & H3).
  destruct (get_sorted_solvables s) as [s' sorted]. simpl in H1, H2, H3. cbv zeta.
  assert (Hk : forall f, keeps_room (the_pool s) f -> match f fr with Ok fr' => room (the_pool s) fr' | Err _ => True end).
  { intros f Hf. destruct (f fr) as [fr'|] eqn:E; [|done]. by apply (Hf fr). }
  destruct (negb (Nevra.is_empty (Nevra.name nevra))).
  - split_and!; [done..|]. cbn [snd]. match goal with |- match ?t with _ => _ end => let u := eval pattern fr in t in match u with ?f _ => apply (Hk f) end end.
    keeps.
  - destruct (negb _); (split_and!; [done..|]); [|done]. simpl. apply Hk. keeps.
Qed.

(** ** Attempts *)

(** An attempt fails with nothing collected, or finds a part of the query that is not empty. *)
Definition found pl q (r : result error (Map + Nevra.Nevra * Map)) : Prop :=
  match r with
  | Ok (inl fr) => room pl fr /\ forall p, bit fr p = false
  | Ok (inr (_, q')) => query_ok pl q' /\ (forall p, bit q' p = true -> bit q p = true) /\ exists p, bit q' p = true
  | Err _ => True
  end.
Definition attempt_ok s q (x : Sack * result error (Map + Nevra.Nevra * Map)) : Prop :=
  sack_ok (fst x) /\ same_packages (the_pool s) (the_pool (fst x)) /\ found (the_pool s) q (snd x).

Lemma intersected pl q fr : query_ok pl q -> room pl fr ->
  room pl (SolvMap.and_with fr q) /\ forall p, bit (SolvMap.and_with fr q) p = bit fr p && bit q p.
Proof.
  intros [(Hq & Hnq & _) _] (Hb & Hn & Hk). assert (H : forall p, bit (SolvMap.and_with fr q) p = bit fr p && bit q p).
  { intros p. apply map_and_spec; [done|done|]. intros Hp%Hk. lia. }
  split; [|done]. destruct (map_and_spec fr q 0 Hb Hq) as (B1 & B2 & _). unfold SolvMap.and_with in *.
  split_and!; [done|lia|]. intros p. rewrite H. by intros [?%Hk _]%andb_true_iff.
Qed.
Lemma not_empty (m : Map) : bytes_ok m -> SolvMap.empty m = false -> exists p, bit m p = true.
Proof.
  intros Hm He. destruct (each m) as [|p l] eqn:E.
  - assert (H : SolvMap.empty m = true); [|congruence]. apply (SolvMap.empty_spec m Hm). intros n.
    destruct (bit m n) eqn:Eb; [|done]. apply each_in in Eb; [|done]. rewrite E in Eb. by apply elem_of_nil in Eb.
  - exists p. apply each_in; [done|]. rewrite E. by left.
Qed.
(** What every attempt does with what it collected. *)
Lemma found_spec pl q fr nevra : query_ok pl q -> room pl fr ->
  found pl q (let fr := SolvMap.and_with fr q in Ok (if SolvMap.empty fr then inl fr else inr (nevra, SolvMap.and_with q fr))).
Proof.
  intros Hq Hr. cbv zeta. destruct (intersected pl q fr Hq Hr) as [R1 B1]. destruct (SolvMap.empty _) eqn:E; cbn [found].
  - split; [done|]. apply SolvMap.empty_spec; [apply R1|done].
  - apply not_empty in E as [p Hp]; [|apply R1]. destruct (apply_spec pl false q _ Hq R1) as [A1 A2]. unfold apply_filter in *.
    split_and!; [done| |].
    + intros k. rewrite A2. by intros [? _]%andb_true_iff.
    + exists p. rewrite A2, Hp. rewrite B1 in Hp. by apply andb_true_iff in Hp as [_ ->].
Qed.
Lemma same_found pl pl' q r : same_packages pl pl' -> found pl' q r -> found pl q r.
Proof.
  intros Hs. destruct r as [[fr|[nevra q']]|e]; simpl; [|intros (Hq & H)|done].
  - by rewrite (room_same pl pl') by done.
  - split; [by apply (query_back pl pl')|done].
Qed.

Lemma attempt_next s q x (cond : bool) k : query_ok (the_pool s) q -> attempt_ok s q x ->
  (forall s1 fr, sack_ok s1 -> same_packages (the_pool s) (the_pool s1) -> query_ok (the_pool s1) q -> room (the_pool s1) fr ->
    (forall p, bit fr p = false) -> attempt_ok s1 q (k s1 fr)) ->
  attempt_ok s q (next x cond k).
Proof.
  intros Hq Hx Hk. unfold next. destruct x as [s1 [[fr|[nevra q']]|e]]; [|done..]. destruct cond; [|done].
  destruct Hx as (H1 & H2 & H3 & H4). simpl in H1, H2, H3.
  destruct (Hk s1 fr H1 H2) as (K1 & K2 & K3); [by apply (same_query (the_pool s))|by apply (room_same (the_pool s))|done|].
  split_and!; [done|by rewrite H2|by apply (same_found _ (the_pool s1))].
Qed.

Lemma attempt_same s s' q x : the_pool s' = the_pool s -> attempt_ok s' q x -> attempt_ok s q x.
Proof. unfold attempt_ok. by intros ->. Qed.
Lemma forms_ok s forms spec nevra cmp q (with_src : bool) fr : sack_ok s -> query_ok (the_pool s) q ->
  room (the_pool s) fr -> (forall p, bit fr p = false) -> attempt_ok s q (try_forms s forms spec nevra cmp q fr with_src).
Proof.
  revert s nevra fr. induction forms as [|form forms IH]; intros s nevra fr Hs Hq Hr He; simpl; [done|].
  destruct (Nevra.parse nevra spec form) as [nevra' []]; [|by apply IH].
  pose proof (filter_nevra_ok s nevra' true cmp q with_src fr Hs Hq Hr) as (F1 & F2 & F3).
  destruct (filter_nevra s nevra' true cmp q fr with_src) as [s' [fr'|e]]; simpl in F1, F2, F3; [|split_and!; [done|simpl; by rewrite F2|done]].
  pose proof (found_spec (the_pool s) q fr' nevra' Hq F3) as Hf. cbv zeta in *. destruct (SolvMap.empty _).
  - destruct Hf as [R1 B1]. apply (attempt_same s s'); [done|]. apply IH; rewrite ?F2; done.
  - split_and!; [done|simpl; by rewrite F2|done].
Qed.
Lemma nevra_attempt s forms spec cmp q (with_src : bool) fr : sack_ok s -> query_ok (the_pool s) q ->
  room (the_pool s) fr -> (forall p, bit fr p = false) -> attempt_ok s q (try_nevra s forms spec cmp q fr with_src).
Proof.
  intros Hs Hq Hr He. unfold try_nevra. set (fs := match forms with [] => _ | _ => _ end).
  pose proof (forms_ok s fs spec no_nevra cmp q with_src fr Hs Hq Hr He) as Hf.
  destruct (try_forms _ _ _ _ _ _ _ _) as [s1 [[fr1|[nevra q1]]|e]]; [|done..]. destruct Hf as (F1 & F2 & F3 & F4). simpl in F1, F2, F3, F4.
  destruct forms; [|by split_and!]. pose proof (get_sorted_spec s1 F1) as (S1 & S2 & S3).
  destruct (get_sorted_solvables s1) as [s2 sorted]. simpl in S1, S2, S3. rewrite S2.
  split_and!; [done|simpl; by rewrite F2, <-S2|]. apply (same_found _ (the_pool s1)); [done|]. cbn [snd].
  assert (Hq1 : query_ok (the_pool s1) q) by (by apply (same_query (the_pool s))).
  destruct (nevra_step _ _ _ _ _ fr1) as [fr2|e] eqn:E; [|done]. cbn [result_bind]. apply found_spec; [done|].
  refine (nevra_keeps (the_pool s1) sorted q S3 Hq1 _ _ fr1 fr2 _ E). by apply (room_same (the_pool s)).
Qed.
Lemma provides_attempt s spec q fr : sack_ok s -> query_ok (the_pool s) q -> room (the_pool s) fr -> attempt_ok s q (try_provides s spec q fr).
Proof.
  intros Hs Hq Hr. unfold try_provides. pose proof (same_internal (the_pool s) [] GLOB true spec) as Hp.
  destruct (str2reldep_internal _ _ _ _ _) as [pl [l|e]]; simpl in Hp; [|split_and!; [by apply set_pool_ok|done|done]].
  destruct (ready_ok (set_pool pl s) (set_pool_ok pl s Hp Hs)) as [R1 R2]. simpl in R2. set (s1 := make_provides_ready (set_pool pl s)) in *.
  assert (H1 : same_packages (the_pool s) (the_pool s1)) by (by rewrite Hp).
  split_and!; [done|done|]. apply (same_found _ (the_pool s1)); [done|]. cbn [snd].
  destruct (filter_provides _ _ _ fr) as [fr1|e] eqn:E; [|done]. cbn [result_bind]. apply found_spec; [by apply (same_query (the_pool s))|].
  refine (provides_keep (the_pool s1) EQ l fr fr1 _ E). by apply (room_same (the_pool s)).
Qed.
Lemma files_attempt s spec q fr : sack_ok s -> query_ok (the_pool s) q -> room (the_pool s) fr -> (forall p, bit fr p = false) ->
  attempt_ok s q (try_files s spec q fr).
Proof.
  intros Hs Hq Hr He. split_and!; [done|done|]. simpl. unfold filter_dataiterator.
  destruct (collect_pure (the_pool s) (fun p => dataiterator_step (the_pool s) SOLVABLE_FILELIST [SEARCH_FILES; SEARCH_COMPLETE_FILELIST; SEARCH_GLOB] p (c_str spec))
    (each q) fr Hr (each_range _ q Hq)) as (fr1 & -> & R1 & B1). cbn [result_bind]. destruct (SolvMap.empty fr1) eqn:E; simpl.
  - split; [done|]. apply SolvMap.empty_spec; [apply R1|done].
  - apply not_empty in E as [p Hp]; [|apply R1]. destruct (apply_spec (the_pool s) false q _ Hq R1) as [A1 A2]. unfold apply_filter in *.
    split_and!; [done| |].
    + intros k. rewrite A2. by intros [? _]%andb_true_iff.
    + exists p. rewrite A2, Hp. rewrite B1, He in Hp. simpl in Hp. apply andb_true_iff in Hp as [Hp _]. apply bool_decide_eq_true in Hp.
      apply each_in in Hp; [|apply Hq]. by rewrite Hp.
Qed.

Lemma cleared pl q : query_ok pl q -> room pl (SolvMap.clear q) /\ forall p, bit (SolvMap.clear q) p = false.
Proof.
  intros [(_ & Hn & _) _]. unfold SolvMap.clear. rewrite map_empty_spec. destruct (zeros_ok (length q)) as [Z1 Z2].
  split; [|done]. split_and!; [done|unfold bits in *; by rewrite repeat_length|intros k; by rewrite Z2].
Qed.
(** The three attempts, one after the other. *)
Lemma resolve_ok s spec (icase with_nevra with_provides with_filenames with_src : bool) forms q : sack_ok s -> query_ok (the_pool s) q ->
  let x := resolve_pkg_spec s spec icase with_nevra with_provides with_filenames with_src forms q in
  sack_ok (fst x) /\ same_packages (the_pool s) (the_pool (fst x))
  /\ match snd x with
     | Ok (b, _, q') => query_ok (the_pool s) q' /\ (forall p, bit q' p = true -> bit q p = true)
         /\ (b = true <-> exists p, bit q' p = true)
     | Err _ => True
     end.
Proof.
  intros Hs Hq. unfold resolve_pkg_spec. cbv zeta. set (x3 := next _ (_ && _) _).
  assert (H3 : attempt_ok s q x3).
  { unfold x3. repeat (apply attempt_next; [done| |intros; by auto using nevra_attempt, provides_attempt, files_attempt]).
    split_and!; [done|done|split; [apply make_room|apply make_empty]]. }
  destruct H3 as (A1 & A2 & A3). destruct x3 as [s' [[fr|[nevra q']]|e]]; cbn [fst snd] in *; (split; [done|split; [done|]]); [..|done].
  - destruct (cleared (the_pool s) q Hq) as [Z1 Z2]. split_and!; [split; [done|]; intros p; by rewrite Z2|intros p; by rewrite Z2|].
    split; [done|]. intros [p Hp]. by rewrite Z2 in Hp.
  - destruct A3 as (B1 & B2 & B3). by split_and!.
Qed.

(** A result that starts from the empty one. *)
Ltac from_empty :=
  let fr := fresh in
  intros fr;
  match goal with |- ?t = Ok _ -> room ?pl _ =>
    match t with context [SolvMap.make ?n] =>
      let u := eval pattern (SolvMap.make n) in t in
      match u with ?f _ => refine ((_ : keeps_room pl f) _ _ (make_room pl)) end
    end
  end.

(** Filters that only read the sack. *)
Lemma patterns_ok s q step cmp patterns : (forall cmp pattern, keeps_room (the_pool s) (step cmp pattern)) -> sack_ok s ->
  query_ok (the_pool s) q -> call_ok s q (s, ifilter_patterns (the_pool s) step cmp patterns q).
Proof. intros Hk Hs Hq. apply call_pure; [done|]. apply ifilter_patterns_shrinks; [|done]. intros c pattern. apply Hk. Qed.
Lemma sorted_patterns_ok s q step cmp patterns :
  (forall pl sorted, sorted_ok pl sorted -> query_ok pl q -> forall cmp pattern, keeps_room pl (step pl sorted q cmp pattern)) ->
  sack_ok s -> query_ok (the_pool s) q ->
  call_ok s q (let '(s, sorted) := get_sorted_solvables s in (s, ifilter_patterns (the_pool s) (step (the_pool s) sorted q) cmp patterns q)).
Proof.
  intros Hk Hs Hq. pose proof (get_sorted_spec s Hs) as (H1 & H2 & H3). destruct (get_sorted_solvables s) as [s' sorted]. simpl in H1, H2, H3.
  rewrite <-H2 in H3, Hq. apply (call_same s s'); [by rewrite H2|]. apply patterns_ok; [|done..]. intros c pattern. by apply Hk; [rewrite H2 in *|].
Qed.
Lemma evr_ok s cmp patterns q : sack_ok s -> query_ok (the_pool s) q -> call_ok s q (s, ifilter_evr (the_pool s) cmp patterns q).
Proof.
  intros Hs Hq. apply call_pure; [done|].
  assert (H : forall f, shrinks (the_pool s) q (filter_evr_internal (the_pool s) f patterns q)).
  { intros f. apply (apply_shrinks (the_pool s) false); [done|]. intros fr. apply evr_keeps; [done|apply make_room]. }
  unfold ifilter_evr. repeat match goal with |- context [case cmp ?l] => destruct (case cmp l); [apply H|] end. done.
Qed.
Lemma reponame_ok s cmp patterns q : sack_ok s -> query_ok (the_pool s) q -> call_ok s q (s, ifilter_reponame (the_pool s) cmp patterns q).
Proof.
  intros Hs Hq. unfold ifilter_reponame. destruct (strip_not cmp) as [cmp_not c]. apply call_pure; [done|].
  destruct (mark_repos _ _ _ _ _) as [ids|e]; [|done]. cbn [result_bind]. apply apply_shrinks; [done|]. intros fr.
  apply room_collect; [by apply each_range|apply make_room].
Qed.
Lemma epoch_numbers_ok s cmp patterns q : sack_ok s -> query_ok (the_pool s) q -> call_ok s q (s, ifilter_epoch_numbers (the_pool s) cmp patterns q).
Proof.
  intros Hs Hq. unfold ifilter_epoch_numbers. destruct (strip_not cmp) as [cmp_not c]. apply call_pure; [done|].
  apply apply_shrinks; [done|]. from_empty. repeat apply room_if; try apply epochs_keep; [done..|keeps].
Qed.
Lemma location_ok s cmp patterns q : sack_ok s -> query_ok (the_pool s) q -> call_ok s q (s, ifilter_location (the_pool s) cmp patterns q).
Proof.
  intros Hs Hq. unfold ifilter_location. destruct (strip_not cmp) as [cmp_not c]. apply call_pure; [done|].
  apply apply_shrinks; [done|]. from_empty. apply room_if; [by apply location_keeps|keeps].
Qed.

(** Filters on dependencies, which make the index of what is provided. *)
Lemma call_err s s' q e : sack_ok s' -> same_packages (the_pool s) (the_pool s') -> call_ok s q (s', Err e).
Proof. by intros. Qed.
Lemma provides_list_ok s cmp l q : sack_ok s -> query_ok (the_pool s) q -> call_ok s q (ifilter_provides_list s cmp l q).
Proof.
  intros Hs Hq. unfold ifilter_provides_list. destruct (strip_not cmp) as [cmp_not c]. destruct (ready_ok s Hs) as [R1 R2].
  apply call_collect; [done..|]. apply provides_keep.
Qed.
Lemma reldep_list_ok s k cmp l q : sack_ok s -> query_ok (the_pool s) q -> call_ok s q (filter_reldep_list s k cmp l q).
Proof.
  intros Hs Hq. unfold filter_reldep_list. destruct (eq_or_neq cmp) as [cmp_not|e]; [|by apply call_err]. destruct (ready_ok s Hs) as [R1 R2].
  apply (call_collect s _ q cmp_not (collect _ _)); [done..|]. apply room_collect. apply each_range. by apply (same_query (the_pool s)).
Qed.
Lemma obsoletes_ok s cmp set q : sack_ok s -> query_ok (the_pool s) q -> call_ok s q (ifilter_obsoletes_set s cmp set q).
Proof.
  intros Hs Hq. unfold ifilter_obsoletes_set. destruct (eq_or_neq cmp) as [cmp_not|e]; [|by apply call_err]. destruct (ready_ok s Hs) as [R1 R2].
  apply (call_collect s _ q cmp_not (collect _ _)); [done..|]. apply room_collect. apply each_range. by apply (same_query (the_pool s)).
Qed.
Lemma reldep_set_ok s k cmp set q : sack_ok s -> query_ok (the_pool s) q -> call_ok s q (filter_reldep_set s k cmp set q).
Proof.
  intros Hs Hq. unfold filter_reldep_set. destruct (eq_or_neq cmp) as [cmp_not|e]; [|by apply call_err]. destruct (ready_ok s Hs) as [R1 R2].
  set (s' := make_provides_ready s) in *. split_and!; [done..|]. apply (same_shrinks _ (the_pool s')); [done|].
  refine (apply_shrinks (the_pool s') cmp_not q (Ok _) _ _); [by apply (same_query (the_pool s))|]. intros fr [= <-].
  apply fold_room; [|apply make_room]. intros p. apply ranges_in_range. intros id.
  rewrite queue_push2_spec, queue_empty_spec. apply selection_range.
Qed.
(** Patterns are interned first. *)
Lemma interned_ok s q cmp patterns (k : Sack -> Queue -> Sack * result error Map) : sack_ok s -> query_ok (the_pool s) q ->
  (forall s' l, sack_ok s' -> query_ok (the_pool s') q -> call_ok s' q (k s' l)) ->
  call_ok s q match str2reldep_list (the_pool s) [] cmp patterns with
              | (pl, Err e) => (set_pool pl s, Err e)
              | (pl, Ok l) => k (set_pool pl s) l
              end.
Proof.
  intros Hs Hq Hk. pose proof (same_str2reldep (the_pool s) [] cmp patterns) as Hp. destruct (str2reldep_list _ _ _ _) as [pl [l|e]]; simpl in Hp.
  - apply (call_same s (set_pool pl s)); [done|]. apply Hk; [by apply set_pool_ok|]. by apply (same_query (the_pool s)).
  - apply call_err; [by apply set_pool_ok|done].
Qed.

Lemma run_filter_ok f s q : sack_ok s -> query_ok (the_pool s) q -> call_ok s q (run_filter f s q).
Proof.
  intros Hs Hq. destruct f; cbn [run_filter].
  all: try (apply patterns_ok; [|done..]; intros;
    first [by apply arch_keeps|by apply version_keeps|by apply release_keeps|by apply sourcerpm_keeps|by apply epoch_keeps|by apply data_keeps]).
  all: try first [by apply evr_ok|by apply reponame_ok|by apply epoch_numbers_ok|by apply location_ok|by apply provides_list_ok
                 |by apply reldep_list_ok|by apply reldep_set_ok|by apply obsoletes_ok].
  - apply (sorted_patterns_ok s q name_step); [|done..]. intros. by apply name_keeps.
  - apply (sorted_patterns_ok s q nevra_step); [|done..]. intros. by apply nevra_keeps.
  - unfold ifilter_nevra_object. destruct (strip_not cmp) as [cmp_not c].
    pose proof (filter_nevra_ok s pattern (has_glob c) c q true _ Hs Hq (make_room (the_pool s))) as (F1 & F2 & F3).
    destruct (filter_nevra _ _ _ _ _ _ _) as [s' r]. simpl in F1, F2, F3. split_and!; [done|simpl; by rewrite F2|].
    apply apply_shrinks; [done|]. intros fr ->. done.
  - unfold ifilter_provides. destruct (strip_not cmp) as [cmp_not c].
    apply (interned_ok s q c patterns (fun s' l => ifilter_provides_list s' (if cmp_not then NEQ else EQ) l q)); [done..|]. intros. by apply provides_list_ok.
  - unfold filter_reldep. destruct (strip_not cmp) as [cmp_not c].
    apply (interned_ok s q c patterns (fun s' l => filter_reldep_list s' k (if cmp_not then NEQ else EQ) l q)); [done..|]. intros. by apply reldep_list_ok.
  - pose proof (resolve_ok s pkg_spec icase with_nevra with_provides with_filenames with_src forms q Hs Hq) as (R1 & R2 & R3). cbv zeta in *.
    destruct (resolve_pkg_spec _ _ _ _ _ _ _ _ _) as [s' r]. cbn [fst snd] in *. split_and!; [done|done|]. cbn [snd].
    destruct r as [[[b nevra] q']|e]; [|done]. intros q1 [= <-]. by destruct R3 as (? & ? & _).
Qed.

(** C18. Whatever filters are called on a query, whether they succeed or throw:
    the query stays a set of packages of the sack and never grows, the lists that
    the sack has cached stay those of the sorted packages, and the pool, in
    which dependencies are interned and the index of what is provided is made,
    keeps its packages. *)
Theorem queries_shrink fs s q : sack_ok s -> query_ok (the_pool s) q ->
  let '(s', q') := fold_left (fun sq f => call f sq) fs (s, q) in
  sack_ok s' /\ same_packages (the_pool s) (the_pool s') /\ query_ok (the_pool s') q' /\ forall p, bit q' p = true -> bit q p = true.
Proof.
  revert s q. induction fs as [|f fs IH]; intros s q Hs Hq; cbn [fold_left]; [done|].
  assert (Hc : let '(s1, q1) := call f (s, q) in sack_ok s1 /\ same_packages (the_pool s) (the_pool s1) /\ query_ok (the_pool s1) q1
    /\ forall p, bit q1 p = true -> bit q p = true).
  { unfold call. cbn [fst snd]. destruct (run_filter_ok f s q Hs Hq) as (C1 & C2 & C3). destruct (run_filter f s q) as [s1 [q1|e]]; cbn [fst snd] in *.
    - destruct (C3 q1 eq_refl) as [Q1 Q2]. split_and!; [done|done|by apply (same_query (the_pool s))|done].
    - split_and!; [done|done|by apply (same_query (the_pool s))|done]. }
  destruct (call f (s, q)) as [s1 q1]. destruct Hc as (C1 & C2 & C3 & C4). specialize (IH s1 q1 C1 C3).
  destruct (fold_left _ fs (s1, q1)) as [s' q']. destruct IH as (I1 & I2 & I3 & I4). split_and!; [done|by rewrite C2|done|auto].
Qed.

(** ** Specifications as a user gives them *)

(** What a specification means with [GLOB] or [IGLOB]: an empty field and a star
    say nothing, a field without wild cards is compared, another is matched. *)
Definition field_matches cmp (field candidate : cstr) : bool :=
  bool_decide (field = lit "*") || Nevra.is_empty field || text_matches (remove_glob_when_unneeded cmp field true) (c_str field) candidate.
Definition parts pl p : cstr * cstr * cstr :=
  match split pl p with Ok (e, v, r) => (default BASE_EPOCH e, v, default [] r) | Err _ => ([], [], []) end.
Definition candidate_matches pl cmp (with_src : bool) (n : Nevra.Nevra) p : bool :=
  let '(e, v, r) := parts pl p in
  (with_src || negb (bool_decide (get_arch pl p = lit "src")))
  && (field_matches cmp (Nevra.arch n) (get_arch pl p) && (field_matches cmp (Nevra.epoch n) e
      && (field_matches cmp (Nevra.version n) v && field_matches cmp (Nevra.release n) r))).
Definition nevra_matches pl cmp (with_src : bool) (n : Nevra.Nevra) p : bool :=
  field_matches cmp (Nevra.name n) (get_name pl p) && candidate_matches pl cmp with_src n p.
(** The versions of all packages have a release and can be divided. *)
Definition versions_ok pl : Prop := forall p, p ∈ packages pl -> exists e v r, split pl p = Ok (e, v, Some r).
Definition glob_of (icase : bool) : t := if icase then IGLOB else GLOB.

(** The operators left for a field. *)
Lemma field_operator icase field :
  remove_glob_when_unneeded (glob_of icase) field true = if is_glob_pattern field then glob_of icase else if icase then IEXACT else EQ.
Proof. unfold remove_glob_when_unneeded. by destruct icase, (is_glob_pattern field). Qed.
Lemma is_valid_text icase field c candidate :
  is_valid_string (remove_glob_when_unneeded (glob_of icase) field true) c candidate
  = Ok (text_matches (remove_glob_when_unneeded (glob_of icase) field true) c candidate).
Proof. rewrite field_operator. by destruct icase, (is_glob_pattern field). Qed.
Lemma passes_field icase field candidate rest (r : bool) : rest = Ok r ->
  passes (field_test (glob_of icase) true field) (Ok candidate) rest = Ok (field_matches (glob_of icase) field candidate && r).
Proof.
  intros ->. unfold passes, field_test, field_matches. cbn [tested c_pattern cmp_type andb]. cbn [result_bind]. rewrite is_valid_text.
  destruct (bool_decide (field = lit "*")), (Nevra.is_empty field); try done. cbn [negb andb orb result_bind].
  by destruct (text_matches _ _ _).
Qed.

Lemma src_arch pl p : p ∈ packages pl ->
  negb (pool_find_id pl (lit "src") =? 0) && (s_arch (pool_id2solvable pl p) =? pool_find_id pl (lit "src")) = bool_decide (get_arch pl p = lit "src").
Proof.
  intros Hp. apply eq_true_iff_eq. rewrite andb_true_iff, negb_true_iff, Z.eqb_neq, Z.eqb_eq, bool_decide_eq_true. symmetry.
  by apply (known_text pl p); [|right; left].
Qed.

Lemma valid_candidate pl icase (with_src : bool) n p : p ∈ packages pl -> versions_ok pl ->
  let test := field_test (glob_of icase) true in
  is_valid_candidate pl p (if with_src then 0 else pool_find_id pl (lit "src"))
    (test (Nevra.epoch n)) (test (Nevra.version n)) (test (Nevra.release n)) (test (Nevra.arch n))
  = Ok (candidate_matches pl (glob_of icase) with_src n p).
Proof.
  intros Hp Hv test. destruct (Hv p Hp) as (e & v & r & E). unfold is_valid_candidate, candidate_matches, parts. rewrite E.
  assert (Hsrc : negb ((if with_src then 0 else pool_find_id pl (lit "src")) =? 0)
      && (s_arch (pool_id2solvable pl p) =? (if with_src then 0 else pool_find_id pl (lit "src")))
      = negb (with_src || negb (bool_decide (get_arch pl p = lit "src")))).
  { destruct with_src; [done|]. by rewrite src_arch, negb_orb, negb_involutive. }
  rewrite Hsrc. destruct (with_src || _); [|done]. cbn [negb andb].
  unfold get_epoch_cstring, get_version, get_release, deref. rewrite E. cbn [result_bind fst snd].
  rewrite <-(andb_true_r (field_matches (glob_of icase) (Nevra.release n) _)). by repeat (apply passes_field).
Qed.

(** A loop whose test does not fail. *)
Lemma collect_total pl test (f : Z -> bool) l fr : room pl fr -> in_range pl l -> (forall p, p ∈ l -> test p = Ok (f p)) ->
  exists fr', collect test l fr = Ok fr' /\ room pl fr' /\ forall k, bit fr' k = bit fr k || bool_decide (k ∈ l) && f k.
Proof.
  intros Hr Hl Ht. pose proof (collect_spec pl test l fr Hr Hl) as Hs. destruct (collect test l fr) as [fr'|e].
  - exists fr'. destruct Hs as [H1 H2]. split_and!; [done..|]. intros k. rewrite H2. f_equal.
    case_bool_decide as Hk; [|done]. by rewrite (Ht k Hk).
  - destruct Hs as (p & Hp & E). by rewrite (Ht p Hp) in E.
Qed.
Lemma collect_valid pl q icase (with_src : bool) n l fr (test : Z -> bool) :
  query_ok pl q -> versions_ok pl -> room pl fr -> in_range pl l -> (forall p, p ∈ l -> p ∈ packages pl) ->
  (forall k, bit q k = true -> bool_decide (k ∈ l) && test k = field_matches (glob_of icase) (Nevra.name n) (get_name pl k)) ->
  exists fr', collect (fun p => if test p then is_valid_candidate pl p (if with_src then 0 else pool_find_id pl (lit "src"))
      (field_test (glob_of icase) true (Nevra.epoch n)) (field_test (glob_of icase) true (Nevra.version n))
      (field_test (glob_of icase) true (Nevra.release n)) (field_test (glob_of icase) true (Nevra.arch n)) else Ok false) l fr = Ok fr'
  /\ room pl fr' /\ forall k, bit q k = true -> bit fr' k = bit fr k || nevra_matches pl (glob_of icase) with_src n k.
Proof.
  intros Hq Hv Hr Hl Hp Ht.
  destruct (collect_total pl (fun p => if test p then is_valid_candidate pl p (if with_src then 0 else pool_find_id pl (lit "src"))
      (field_test (glob_of icase) true (Nevra.epoch n)) (field_test (glob_of icase) true (Nevra.version n))
      (field_test (glob_of icase) true (Nevra.release n)) (field_test (glob_of icase) true (Nevra.arch n)) else Ok false)
    (fun p => test p && candidate_matches pl (glob_of icase) with_src n p) l fr Hr Hl) as (fr' & E & R & B).
  { intros p Hin. destruct (test p); [|done]. apply valid_candidate; auto. }
  exists fr'. split_and!; [done..|]. intros k Hk. unfold nevra_matches. by rewrite B, <-(Ht k Hk), andb_assoc.
Qed.

(** What is collected for a parsed specification. *)
Lemma filter_nevra_matches s icase n q (with_src : bool) fr : sack_ok s -> query_ok (the_pool s) q -> versions_ok (the_pool s) ->
  Nevra.name n <> [] -> room (the_pool s) fr ->
  exists s' fr', filter_nevra s n true (glob_of icase) q fr with_src = (s', Ok fr') /\ sack_ok s' /\ the_pool s' = the_pool s
  /\ room (the_pool s) fr' /\ forall k, bit q k = true -> bit fr' k = bit fr k || nevra_matches (the_pool s) (glob_of icase) with_src n k.
Proof.
  intros Hs Hq Hv Hn Hr. pose proof (get_sorted_spec s Hs) as (H1 & H2 & H3). unfold filter_nevra.
  destruct (get_sorted_solvables s) as [s' sorted]. simpl in H1, H2, H3. cbv zeta. set (pl := the_pool s) in *.
  assert (He : Nevra.is_empty (Nevra.name n) = false) by (by destruct (Nevra.name n)). rewrite He. cbn [negb].
  assert (Hfr : forall r, (exists fr', r = Ok fr' /\ room pl fr' /\ forall k, bit q k = true -> bit fr' k = bit fr k || nevra_matches pl (glob_of icase) with_src n k) ->
    exists s1 fr', (s', r) = (s1, Ok (E := error) fr') /\ sack_ok s1 /\ the_pool s1 = pl /\ room pl fr'
    /\ forall k, bit q k = true -> bit fr' k = bit fr k || nevra_matches pl (glob_of icase) with_src n k).
  { intros r (fr' & -> & R & B). by exists s', fr'. }
  apply Hfr. clear Hfr. pose proof (field_operator icase (Nevra.name n)) as Hop. cbn [andb].
  assert (Hf : forall k, field_matches (glob_of icase) (Nevra.name n) (get_name pl k)
    = bool_decide (Nevra.name n = lit "*") || text_matches (remove_glob_when_unneeded (glob_of icase) (Nevra.name n) true) (c_str (Nevra.name n)) (get_name pl k)).
  { intros k. unfold field_matches. by rewrite He, orb_false_r. }
  assert (Hstar : is_glob_pattern (Nevra.name n) = false -> bool_decide (Nevra.name n = lit "*") = false).
  { intros E. apply bool_decide_eq_false. intros E2. by rewrite E2 in E. }
  rewrite Hop in *. destruct (is_glob_pattern (Nevra.name n)) eqn:Eg; [|specialize (Hstar eq_refl); rewrite Hstar in Hf; destruct icase].
  - assert (Hcase : case (glob_of icase) [EQ] = false /\ case (glob_of icase) [IEXACT] = false /\ case (glob_of icase) [GLOB; IGLOB] = true)
      by by destruct icase.
    destruct Hcase as (-> & -> & ->). cbv iota.
    apply (collect_valid pl q icase with_src n (each q) fr
      (fun p => bool_decide (Nevra.name n = lit "*") || fnmatch (if (glob_of icase =? IGLOB)%N then FNM_CASEFOLD else 0%N) (c_str (Nevra.name n)) (get_name pl p)));
      [done..|by apply each_range|intros p; by apply each_packages|].
    intros k Hk. rewrite (bit_each pl q k Hq Hk), Hf. by destruct icase.
  - change (case IEXACT [EQ]) with false. change (case IEXACT [IEXACT]) with true. cbv iota.
    apply (collect_valid pl q true with_src n (each q) fr (fun p => strcasecmp (get_name pl p) (c_str (Nevra.name n))));
      [done..|by apply each_range|intros p; by apply each_packages|].
    intros k Hk. by rewrite (bit_each pl q k Hq Hk), Hf.
  - change (case EQ [EQ]) with true. cbv iota. set (c := c_str (Nevra.name n)) in *.
    assert (Hname : forall k, bit q k = true -> field_matches GLOB (Nevra.name n) (get_name pl k) = negb (pool_find_id pl c =? 0) && (s_name (pool_id2solvable pl k) =? pool_find_id pl c)).
    { intros k Hk. rewrite Hf. cbn [orb]. change (text_matches EQ c (get_name pl k)) with (bool_decide (get_name pl k = c)). apply eq_true_iff_eq.
      rewrite bool_decide_eq_true, andb_true_iff, negb_true_iff, Z.eqb_neq, Z.eqb_eq. apply (known_text pl k); [by apply Hq|by left]. }
    destruct (Z.eqb_spec (pool_find_id pl c) 0) as [E0|E0].
    + exists fr. split_and!; [done..|]. intros k Hk. unfold nevra_matches. change (glob_of false) with GLOB. by rewrite Hname, orb_false_r.
    + apply (collect_valid pl q false with_src n (with_name pl sorted (pool_find_id pl c)) fr (fun _ => true)); [done..| | |].
      * by apply equal_range_range.
      * intros p. rewrite with_name_in by done. tauto.
      * intros k Hk. rewrite andb_true_r. change (glob_of false) with GLOB. rewrite Hname by done. apply eq_true_iff_eq.
        rewrite bool_decide_eq_true, with_name_in by done. simpl. rewrite Z.eqb_eq. pose proof (proj2 Hq k Hk). tauto.
Qed.

(** How a form reads a specification. *)
Definition reading (spec : cstr) (form : Nevra.Form) : option Nevra.Nevra :=
  match Nevra.parse no_nevra spec form with (n, true) => Some n | _ => None end.
(** The form reads it, and what it reads is in the query. *)
Definition form_hits pl cmp (with_src : bool) q (spec : cstr) (form : Nevra.Form) : bool :=
  match reading spec form with Some n => existsb (nevra_matches pl cmp with_src n) (each q) | None => false end.

Lemma parse_reading nevra spec form :
  match reading spec form with
  | Some n => Nevra.parse nevra spec form = (n, true) /\ Nevra.name n <> []
  | None => snd (Nevra.parse nevra spec form) = false
  end.
Proof.
  unfold reading, Nevra.parse. destruct (Regex.regex_match _ spec) as [cs|] eqn:E; [|done]. split; [done|].
  apply Regex.regex_match_sound, Nevra.form_matches in E as (n & Hv & _ & ->). rewrite Nevra.str_caps by done. by destruct Hv as [[? _] _].
Qed.
Lemma hits_in pl cmp (with_src : bool) q n : bytes_ok q ->
  existsb (nevra_matches pl cmp with_src n) (each q) = true <-> exists p, bit q p = true /\ nevra_matches pl cmp with_src n p = true.
Proof.
  intros Hq. rewrite existsb_exists. split; intros (p & Hp & Hm); exists p; (split; [|done]); apply list_elem_of_In, (each_in q Hq) in Hp || apply list_elem_of_In, (each_in q Hq); done.
Qed.

(** The forms are tried in turn, up to the first that hits. *)
Lemma forms_spec s forms spec nevra icase q (with_src : bool) fr : sack_ok s -> query_ok (the_pool s) q -> versions_ok (the_pool s) ->
  room (the_pool s) fr -> (forall p, bit fr p = false) ->
  let pl := the_pool s in
  exists s', sack_ok s' /\ the_pool s' = pl /\
  match List.find (form_hits pl (glob_of icase) with_src q spec) forms with
  | Some form => exists n q', reading spec form = Some n
      /\ try_forms s forms spec nevra (glob_of icase) q fr with_src = (s', Ok (inr (n, q')))
      /\ query_ok pl q' /\ forall p, bit q' p = bit q p && nevra_matches pl (glob_of icase) with_src n p
  | None => exists fr', try_forms s forms spec nevra (glob_of icase) q fr with_src = (s', Ok (inl fr')) /\ room pl fr' /\ forall p, bit fr' p = false
  end.
Proof.
  cbv zeta. revert s nevra fr. induction forms as [|form forms IH]; intros s nevra fr Hs Hq Hv Hr He.
  { exists s. split_and!; [done..|]. simpl. by exists fr. }
  cbn [List.find try_forms]. unfold form_hits at 1. pose proof (parse_reading nevra spec form) as Hp.
  destruct (reading spec form) as [n|] eqn:En; [destruct Hp as [-> Hn]|]; cycle 1.
  { destruct (Nevra.parse nevra spec form) as [nevra' b]. simpl in Hp. subst b. by apply IH. }
  destruct (filter_nevra_matches s icase n q with_src fr Hs Hq Hv Hn Hr) as (s1 & fr1 & -> & S1 & S2 & R1 & B1).
  destruct (intersected (the_pool s) q fr1 Hq R1) as [R2 B2].
  assert (Hb : forall p, bit (SolvMap.and_with fr1 q) p = bit q p && nevra_matches (the_pool s) (glob_of icase) with_src n p).
  { intros p. rewrite B2. destruct (bit q p) eqn:E; [|apply andb_false_r]. by rewrite B1, He, andb_true_r by done. }
  pose proof (hits_in (the_pool s) (glob_of icase) with_src q n (query_bytes _ _ Hq)) as Hh. destruct (existsb _ (each q)) eqn:Eh.
  - destruct (proj1 Hh eq_refl) as (p & Hbit & Hm). destruct (SolvMap.empty _) eqn:Ee.
    + apply (SolvMap.empty_spec _ (proj1 R2)) with (n := p) in Ee. by rewrite Hb, Hbit, Hm in Ee.
    + exists s1. split_and!; [done..|]. exists n, (SolvMap.and_with q (SolvMap.and_with fr1 q)).
      destruct (apply_spec (the_pool s) false q _ Hq R2) as [A1 A2]. unfold apply_filter in *. split_and!; [done..|].
      intros k. rewrite A2, Hb, xorb_false_l. by destruct (bit q k).
  - assert (Ez : forall p, bit (SolvMap.and_with fr1 q) p = false).
    { intros p. rewrite Hb. apply not_true_iff_false. intros [H1 H2]%andb_true_iff. by discriminate (proj2 Hh (ex_intro _ p (conj H1 H2))). }
    rewrite (proj2 (SolvMap.empty_spec _ (proj1 R2)) Ez). rewrite <-S2 in *. by apply IH.
Qed.

(** C17. A specification means what its first form means that finds anything: the
    forms are tried in their order, a form that does not read the text or whose
    reading fits no package of the query is passed over, and the query is left
    with exactly the packages that fit the reading of the form that is found. If
    there is none, and no other attempt is asked for, the query is emptied and
    the caller is told. The binary search by name, the tests of the fields as ids
    and the cutting of the results come to the same as comparing every package
    of the query with the reading. *)
Theorem resolve_pkg_spec_forms s spec (icase with_provides with_filenames with_src : bool) forms q :
  sack_ok s -> query_ok (the_pool s) q -> versions_ok (the_pool s) ->
  let pl := the_pool s in
  let tried := match forms with [] => Nevra.PKG_SPEC_FORMS | _ => forms end in
  match List.find (form_hits pl (glob_of icase) with_src q spec) tried with
  | Some form => exists s' n q', reading spec form = Some n
      /\ resolve_pkg_spec s spec icase true with_provides with_filenames with_src forms q = (s', Ok (true, n, q'))
      /\ sack_ok s' /\ the_pool s' = pl /\ query_ok pl q'
      /\ forall p, bit q' p = bit q p && nevra_matches pl (glob_of icase) with_src n p
  | None => forms <> [] -> with_provides = false -> with_filenames && is_file_pattern spec = false ->
      exists s' q', resolve_pkg_spec s spec icase true with_provides with_filenames with_src forms q = (s', Ok (false, no_nevra, q'))
      /\ sack_ok s' /\ the_pool s' = pl /\ forall p, bit q' p = false
  end.
Proof.
  intros Hs Hq Hv pl tried. unfold resolve_pkg_spec, try_nevra. cbv zeta. cbn [next]. fold tried.
  destruct (forms_spec s tried spec no_nevra icase q with_src _ Hs Hq Hv (make_room pl) (make_empty pl)) as (s' & S1 & S2 & Hf).
  fold pl in S2, Hf |- *. unfold glob_of in *. destruct (List.find _ tried) as [form|].
  - destruct Hf as (n & q' & Hn & -> & Q & B). cbn [next]. exists s', n, q'. by split_and!.
  - destruct Hf as (fr' & -> & R & B). intros Hne -> ->. destruct forms; [done|]. cbn [next]. exists s', (SolvMap.clear q).
    split_and!; [done..|]. unfold SolvMap.clear. rewrite map_empty_spec. apply zeros_ok.
Qed.

(** A new query holds every package, or none; the excludes of the sack are not
    applied, whatever the flags say of them. *)
Theorem new_query_spec s flags : sack_ok s ->
  let '(s', q) := new_query s flags in
  sack_ok s' /\ the_pool s' = the_pool s /\ query_ok (the_pool s) q
  /\ forall p, bit q p = negb (match flags with EMPTY => true | _ => false end) && bool_decide (p ∈ packages (the_pool s)).
Proof.
  intros Hs. destruct (make_room (the_pool s)) as [M1 _]. pose proof (make_empty (the_pool s)) as M2.
  pose proof (get_solvables_spec s Hs) as (G1 & G2 & G3 & G4). unfold new_query. destruct (get_solvables s) as [s1 m]. simpl in *.
  assert (Hall : query_ok (the_pool s) (SolvMap.or_with (SolvMap.make (nsolvables (the_pool s))) m)
    /\ forall p, bit (SolvMap.or_with (SolvMap.make (nsolvables (the_pool s))) m) p = bool_decide (p ∈ packages (the_pool s))).
  { assert (Hb : forall p, bit (SolvMap.or_with (SolvMap.make (nsolvables (the_pool s))) m) p = bool_decide (p ∈ packages (the_pool s))).
    { intros p. rewrite <-G4, <-(orb_false_l (bit m p)), <-(M2 p). apply map_or_spec; [done|apply G3]. }
    split; [|done]. assert (Hin : forall p, bit (SolvMap.or_with (SolvMap.make (nsolvables (the_pool s))) m) p = true -> p ∈ packages (the_pool s)).
    { intros p. rewrite Hb. apply bool_decide_eq_true. }
    split; [|done]. destruct (map_or_spec _ m 0 M1 (proj1 G3)) as (B1 & B2 & _), G3 as (_ & G3 & _).
    split_and!; [done|unfold SolvMap.or_with; rewrite B2; lia|]. intros k Hk%Hin%packages_range. lia. }
  destruct flags; simpl; (split; [done|split; [done|]]); [apply Hall..|]. split; [|done]. split; [apply make_room|]. intros p. by rewrite M2.
Qed.
End query.
End Queries.
