(* ===== verification/QueryExamples.v ===== *)
(** * QueryExamples: a small pool, and queries on it

    Four packages of two repositories as in the tests of queries, with a plain
    order of versions; the laws asked of libsolv hold of it. *)

From S2P Require Import Prelude Numeric Sack Solv Regex Specs Packages SolvQuery FullNames Queries.
Local Open Scope Z_scope.

Module QueryExamples.
Import QueryCmp Matches Packages SolvQuery FullNames Queries.
#[local] Existing Instance SolvExamples.libsolv.
#[local] Existing Instance SolvExamples.libsolv_laws.

(** Patterns with stars and question marks. *)
Fixpoint glob (p : cstr) : cstr -> bool :=
  match p with
  | [] => fun s => bool_decide (s = [])
  | c :: p =>
      if bool_decide (c = "*"%char) then fix star s := glob p s || match s with [] => false | _ :: s => star s end
      else fun s => match s with
                    | [] => false
                    | x :: s => (bool_decide (c = "?"%char) || bool_decide (c = x)) && glob p s
                    end
  end.
Definition shell : Matching := {|
  FNM_CASEFOLD := 16; FNM_EXTMATCH := 32;
  fnmatch flags p s := if N.testbit flags 4 then glob (lower p) (lower s) else glob p s;
  regex_compile _ p := Some (fun s => bool_decide (s = p));
  tolower_char := to_lower;
|}.
#[local] Existing Instance shell.

(** The texts of the pool, by their ids; the state of the pool is what was added to them. *)
Definition base : list cstr :=
  map lit ["<NULL>"; "walrus"; "penguin"; "patch:x"; "noarch"; "x86_64"; "src"; "2-5"; "2-6"; "1:4-1"; "0:4-1"]%string.
Definition text (pl : list cstr) (i : Z) : cstr := nth (Z.to_nat i) (base ++ pl) [].
Definition find_id (pl : list cstr) (s : cstr) : Z :=
  match find_idx (fun x => bool_decide (x = s)) (drop 1 (base ++ pl)) with Some i => Z.of_nat (S i) | None => 0 end.
Definition str2id (s : option cstr) (pl : list cstr) : Z * list cstr :=
  match s with
  | None => (0, pl)
  | Some s => if find_id pl s =? 0 then (Z.of_nat (length (base ++ pl)), pl ++ [s]) else (find_id pl s, pl)
  end.
Definition reldep_pool : Reldep.Pool := {|
  Reldep.pool := list cstr;
  Reldep.pool_str2id := str2id;
  Reldep.pool_rel2id a b c pl := (1000 + a, pl);
  Reldep.pool_parserpmrichdep _ pl := (0, pl);
  Reldep.dataiterator s pl := List.filter (glob (default [] s)) (base ++ pl);
|}.
#[local] Existing Instance reldep_pool.

(** 2 and 3 are two versions of walrus, 4 is penguin, 5 a patch, 6 a source package. *)
Definition solvable (p : Z) : Solvable :=
  match p with
  | 2 => mkSolvable 1 4 8 (Some 1) []
  | 3 => mkSolvable 1 4 7 (Some 2) []
  | 4 => mkSolvable 2 5 9 (Some 2) [1]
  | 5 => mkSolvable 3 4 7 (Some 2) []
  | 6 => mkSolvable 2 6 10 (Some 2) []
  | _ => mkSolvable 0 0 0 None []
  end.
Fixpoint text_cmp (a b : cstr) : Z :=
  match a, b with
  | [], [] => 0 | [], _ => -1 | _, [] => 1
  | x :: a, y :: b => if (code x <? code y)%N then -1 else if (code y <? code x)%N then 1 else text_cmp a b
  end.
Definition small : LibsolvPool := {|
  nsolvables _ := 7;
  pool_id2solvable _ := solvable;
  repos _ := [None; Some (lit "main"); Some (lit "updates")];
  pool_id2str := text;
  pool_find_id := find_id;
  pool_evrcmp_str := text_cmp;
  pool_solvable2str pl p :=
    text pl (s_name (solvable p)) ++ lit "-" ++ text pl (s_evr (solvable p)) ++ lit "." ++ text pl (s_arch (solvable p));
  dataiterator_step _ k _ p pattern := match k with SOLVABLE_FILELIST => (p =? 4) && glob pattern (lit "/usr/bin/penguin") | _ => false end;
  pool_createwhatprovides pl := pl;
  provides _ id := if id =? 1 then [2; 3] else if id =? 2 then [4; 6] else [];
  solvable_lookup_idarray _ p _ := if p =? 4 then [1] else [];
  pool_match_dep _ := Z.eqb;
  pool_match_nevr _ p id := s_name (solvable p) =? id;
  obsoleteusesprovides _ := false;
  selection_make_matchsolvable _ out p _ := if p =? 2 then [1; 4] else [];
  SOLVER_SOLVABLE_ALL := 6;
  lookup_sourcename _ _ := None;
  solvable_lookup_sourcepkg _ p := if p =? 4 then Some (lit "penguin-4-1.src.rpm") else None;
  solvable_get_location _ _ := None;
|}.
#[local] Existing Instance small.

Lemma text_app (pl : list cstr) i l : 0 <= i < 11 -> text (pl ++ l) i = text pl i.
Proof.
  intros Hi. unfold text. assert (H : (Z.to_nat i < length base)%nat) by (unfold base; rewrite length_map; simpl; lia).
  by rewrite app_assoc, app_nth1 by (rewrite length_app; lia).
Qed.
(** Only texts are added. *)
Lemma small_same (pl l : list cstr) : same_packages pl (pl ++ l).
Proof.
  split; [done|]. intros p Hp. simpl in Hp. split; [done|]. apply text_app.
  assert (Hs : p = 2 \/ p = 3 \/ p = 4 \/ p = 5 \/ p = 6) by lia. by destruct Hs as [->|[->|[->|[->| ->]]]].
Qed.
Lemma str2id_small s (pl : list cstr) : same_packages pl (snd (str2id s pl)).
Proof. destruct s as [s|]; simpl; [|done]. destruct (find_id pl s =? 0); [apply small_same|done]. Qed.
Lemma pool_solvables_small (pl : list cstr) p : p ∈ pool_solvables pl -> p = 2 \/ p = 3 \/ p = 4 \/ p = 5 \/ p = 6.
Proof.
  unfold pool_solvables. rewrite list_elem_of_In, List.filter_In, <-list_elem_of_In, elem_of_seqZ. simpl. intros [? _]. lia.
Qed.
#[local] Instance small_laws : LibsolvPoolLaws.
Proof.
  split; intros; simpl in *; try done; try lia.
  - apply pool_solvables_small in H as Hp. destruct Hp as [->|[->|[->|[->| ->]]]]; destruct H0 as [->|[->| ->]]; split; (discriminate || vm_compute; reflexivity).
  - unfold find_id, text in *. destruct (find_idx _ _) as [i|] eqn:E; [|done]. apply find_idx_Some in E as (c & Hc & Hb & _).
    apply bool_decide_eq_true in Hb as ->. rewrite Nat2Z.id. rewrite lookup_drop in Hc. by apply nth_lookup_Some.
  - destruct (id =? 1); [|destruct (id =? 2)]; rewrite ?elem_of_cons, ?elem_of_nil in H; lia.
  - destruct (p =? 2); simpl in H; rewrite ?elem_of_cons, ?elem_of_nil in H; lia.
  - apply str2id_small.
Defined.

Definition s0 : Sack := new_sack ([] : list cstr).
Definition q0 : Map := snd (new_query s0 IGNORE_EXCLUDES).
(** The packages that a call leaves; [None] when it throws. *)
Definition left_by (f : Filter) : option (list Z) := match run_filter f s0 q0 with (_, Ok q) => Some (each q) | _ => None end.

(** The patch is not a package. *)
Example all_packages : each q0 = [2; 3; 4; 6].
Proof. vm_compute. reflexivity. Qed.
Example names :
  map left_by [FName EQ [lit "walrus"]; FName (or NOT GLOB) [lit "w*"]; FName GLOB [lit "penguin"; lit "*rus"]; FName GT [lit "walrus"]]
  = [Some [2; 3]; Some [4; 6]; Some [2; 3; 4; 6]; None].
Proof. vm_compute. reflexivity. Qed.
Example full_names :
  map left_by [FNevra EQ [lit "walrus-0:2-6.noarch"]; FNevra LT [lit "walrus-2-6.noarch"]; FNevra EQ [lit "penguin-1:4-1.x86_64"]]
  = [Some [2]; Some [3]; Some [4]].
Proof. vm_compute. reflexivity. Qed.
Example dependencies :
  map left_by [FProvides EQ [lit "walrus"]; FReldep SOLVABLE_REQUIRES EQ [lit "walrus"]; FFile GLOB [lit "/usr/*"]; FReponame EQ [lit "updates"]]
  = [Some [2; 3]; Some [4]; Some [4]; Some [3; 4; 6]].
Proof. vm_compute. reflexivity. Qed.
Example specifications :
  map left_by [FResolve (lit "penguin*") false true false false true []; FResolve (lit "penguin*") false true false false false [];
               FResolve (lit "/usr/bin/*") false true true true true []; FResolve (lit "PENGUIN-4") true true true true true []]
  = [Some [4; 6]; Some [4]; Some [4]; Some [4; 6]].
Proof. vm_compute. reflexivity. Qed.

(** The version of both penguins is 4, which is more than 3: the filters on
    versions and releases compare for equality, whatever the operator. *)
Example version_operator_ignored :
  map left_by [FVersion GT [lit "3"]; FVersion GT [lit "4"]; FVersion EQ [lit "4"]; FRelease LT [lit "6"]; FRelease LT [lit "1"]]
  = [Some []; Some [4; 6]; Some [4; 6]; Some [2]; Some [4; 6]].
Proof. vm_compute. reflexivity. Qed.
(** An epoch of 0 that is written in a version fails an assertion. *)
Example epoch_zero_crashes : get_epoch ([] : list cstr) 6 = Err Crash /\ get_epoch ([] : list cstr) 4 = Ok 1 /\ get_epoch ([] : list cstr) 2 = Ok 0.
Proof. vm_compute. split_and!; reflexivity. Qed.
(** Six zeros in front of a short version: the loop looks behind the text. *)
Example reads_behind : parse_nevra_id ([] : list cstr) (lit "w-000000:-1") true = Err Crash.
Proof. vm_compute. reflexivity. Qed.
(** The list of all packages is made anew by each call. *)
Example cache_not_used : let '(s, _) := get_solvables s0 in cached_solvables_size s = 0 /\ cached_solvables s = [92].
Proof. vm_compute. split; reflexivity. Qed.

Lemma s0_ok : sack_ok s0.
Proof. apply new_sack_ok. Qed.
Lemma q0_ok : query_ok (the_pool s0) q0.
Proof.
  pose proof (new_query_spec s0 IGNORE_EXCLUDES s0_ok) as H. unfold q0. destruct (new_query s0 IGNORE_EXCLUDES) as [s' q].
  by destruct H as (_ & _ & H & _).
Qed.

Lemma ifilter_name_spec_witness :
  sack_ok s0 /\ query_ok (the_pool s0) q0
  /\ exists s', ifilter_name s0 (or NOT GLOB) [lit "w*"; lit "penguim"] q0 = (s', Ok [80]) /\ sack_ok s' /\ the_pool s' = []
  /\ query_ok (the_pool s0) [80].
Proof.
  split; [exact s0_ok|]. split; [exact q0_ok|].
  pose proof (ifilter_name_spec s0 (or NOT GLOB) [lit "w*"; lit "penguim"] q0 s0_ok q0_ok) as H. cbv zeta in H.
  assert (E : snd (ifilter_name s0 (or NOT GLOB) [lit "w*"; lit "penguim"] q0) = Ok [80]) by (vm_compute; reflexivity).
  destruct (ifilter_name _ _ _ _) as [s' r]. cbn [snd] in E. subst r. destruct H as (_ & H1 & H2 & H3 & _).
  exists s'. exact (conj eq_refl (conj H1 (conj H2 H3))).
Defined.

Definition walrus : FullName := mkFull (lit "walrus") (Some (lit "0")) (lit "2") (lit "6") (lit "noarch").
Lemma walrus_ok : full_ok walrus.
Proof. split; [|done|..]; simpl; split_and?; try (apply (bool_decide_unpack _); vm_compute; exact I). by left. Qed.
Lemma ifilter_nevra_full_witness :
  sack_ok s0 /\ query_ok (the_pool s0) q0 /\ Forall full_ok [walrus] /\ print_full walrus = lit "walrus-0:2-6.noarch"
  /\ exists s' q', ifilter_nevra s0 (or NOT GTE) (map print_full [walrus]) q0 = (s', Ok q') /\ bit q' 2 = false /\ bit q' 3 = true.
Proof.
  assert (Hx : Forall full_ok [walrus]) by (constructor; [exact walrus_ok|constructor]).
  split; [exact s0_ok|]. split; [exact q0_ok|]. split; [exact Hx|]. split; [reflexivity|].
  destruct (ifilter_nevra_full s0 (or NOT GTE) [walrus] q0 s0_ok q0_ok Hx eq_refl) as (s' & q' & E & _ & _ & B).
  exists s', q'. split; [exact E|]. split; rewrite B; vm_compute; reflexivity.
Defined.

Lemma queries_shrink_witness :
  sack_ok s0 /\ query_ok (the_pool s0) q0
  /\ let '(s', q') := fold_left (fun sq f => call f sq) [FProvides GLOB [lit "w*us"]; FName GT [lit "walrus"]; FNevra LT [lit "walrus-2-6.noarch"]] (s0, q0) in
     sack_ok s' /\ same_packages (the_pool s0) (the_pool s') /\ (bit q' 3 = true -> bit q0 3 = true).
Proof.
  split; [exact s0_ok|]. split; [exact q0_ok|].
  pose proof (queries_shrink [FProvides GLOB [lit "w*us"]; FName GT [lit "walrus"]; FNevra LT [lit "walrus-2-6.noarch"]] s0 q0 s0_ok q0_ok) as H.
  destruct (fold_left _ _ _) as [s' q']. destruct H as (H1 & H2 & _ & H4). exact (conj H1 (conj H2 (H4 3))).
Defined.

Lemma small_versions : versions_ok (the_pool s0).
Proof.
  intros p Hp. change (packages (the_pool s0)) with [2; 3; 4; 6] in Hp. rewrite !elem_of_cons, elem_of_nil in Hp.
  destruct Hp as [->|[->|[->|[->|[]]]]]; do 3 eexists; vm_compute; reflexivity.
Qed.
Lemma resolve_pkg_spec_forms_witness :
  sack_ok s0 /\ query_ok (the_pool s0) q0 /\ versions_ok (the_pool s0)
  /\ exists s' n q', resolve_pkg_spec s0 (lit "WAL*-2") true true true true true [] q0 = (s', Ok (true, n, q'))
     /\ bit q' 2 = true /\ bit q' 3 = true /\ bit q' 4 = false.
Proof.
  split; [exact s0_ok|]. split; [exact q0_ok|]. split; [exact small_versions|].
  pose proof (resolve_pkg_spec_forms s0 (lit "WAL*-2") true true true true [] q0 s0_ok q0_ok small_versions) as H. cbv zeta iota in H.
  assert (E : List.find (form_hits (the_pool s0) (glob_of true) true q0 (lit "WAL*-2")) Nevra.PKG_SPEC_FORMS = Some Nevra.NEV) by (vm_compute; reflexivity).
  rewrite E in H. destruct H as (s' & n & q' & Hn & Hr & _ & _ & _ & B). vm_compute in Hn. injection Hn as <-.
  exists s', (Nevra.mkNevra (lit "WAL*") [] (lit "2") [] []), q'. split; [exact Hr|]. split_and!; rewrite B; vm_compute; reflexivity.
Defined.
End QueryExamples.
