(* ===== verification/DnfSack.v ===== *)
(** * DnfSack: what is excluded from the packages of a sack (dnf-4 [dnf-sack.cpp])

    Packages are excluded one by one, with their repository or by modules, or
    everything but some is. Which packages are left to consider is computed when
    it is needed and kept in the pool until something changes. *)

From S2P Require Import Prelude Sack Solv Regex Specs Packages.
Local Open Scope Z_scope.

(** More of libsolv's maps. *)
Class LibsolvGrow := {
  map_setall : Map -> Map;
  map_grow : Map -> Z -> Map;
}.
Class LibsolvGrowLaws `(LibsolvGrow) : Prop := {
  map_setall_spec m k : bytes_ok m ->
    bytes_ok (map_setall m) /\ bits (map_setall m) = bits m /\ bit (map_setall m) k = bool_decide (0 <= k < bits m);
  map_grow_spec m n k : bytes_ok m ->
    bytes_ok (map_grow m n) /\ Z.max (bits m) n <= bits (map_grow m n) /\ bit (map_grow m n) k = bit m k;
}.
(** [dnf_sack_make_provides_ready]: the pool and the flag afterwards. *)
Class ProvidesReady `{Reldep.Pool} := make_ready : Reldep.pool -> bool -> Reldep.pool * bool.
Class ProvidesReadyLaws `{ProvidesReady} `{!LibsolvPool} : Prop :=
  make_ready_same pl b : Packages.same_packages pl (fst (make_ready pl b)) /\ repos (fst (make_ready pl b)) = repos pl.

Module DnfSack.
Import Packages.

(** [Query::ExcludeFlags]. *)
Record ExcludeFlags := mkFlags { ignore_modular : bool; ignore_regular : bool }.
Definition APPLY_EXCLUDES : ExcludeFlags := mkFlags false false.
Definition IGNORE_MODULAR_EXCLUDES : ExcludeFlags := mkFlags true false.
Definition IGNORE_REGULAR_EXCLUDES : ExcludeFlags := mkFlags false true.
Definition IGNORE_EXCLUDES : ExcludeFlags := mkFlags true true.

(** A repository that does not exist; a write outside of a map, or a failing assertion. *)
Inductive error := NoSuchRepo | Crash.
#[global] Instance error_eq_dec : EqDecision error.
Proof. solve_decision. Defined.

Section sack.
Context {HP : Reldep.Pool} {HL : LibsolvPool} {HS : Libsolv} {HG : LibsolvGrow} {HR : ProvidesReady}.
Implicit Types (pl : Reldep.pool) (m : Map) (p r : Z).

(** [DnfSackPrivate], with what the pool keeps of considered packages and the
    flags of the repositories by their ids. *)
Record DnfSack := mkSack {
  pool : Reldep.pool;
  pkg_excludes : option Map; pkg_includes : option Map;
  repo_excludes : option Map;
  module_excludes : option Map; module_includes : option Map;
  pkg_solvables : option Map; pool_nsolvables : Z;
  considered : option Map; considered_uptodate : bool;
  provides_ready : bool;
  use_includes : gmap Z bool; disabled : gmap Z bool;
}.
Implicit Types (s : DnfSack).
Definition init pl : DnfSack := mkSack pl None None None None None None 0 None true false ∅ ∅.

Definition set_pool pl b s : DnfSack :=
  mkSack pl (pkg_excludes s) (pkg_includes s) (repo_excludes s) (module_excludes s) (module_includes s) (pkg_solvables s)
    (pool_nsolvables s) (considered s) (considered_uptodate s) b (use_includes s) (disabled s).
Definition make_provides_ready s : DnfSack := let '(pl, b) := make_ready (pool s) (provides_ready s) in set_pool pl b s.
Definition set_considered c (b : bool) s : DnfSack :=
  mkSack (pool s) (pkg_excludes s) (pkg_includes s) (repo_excludes s) (module_excludes s) (module_includes s) (pkg_solvables s)
    (pool_nsolvables s) c b (provides_ready s) (use_includes s) (disabled s).
Definition not_uptodate s : DnfSack := set_considered (considered s) false s.

(** The maps that a caller names by a pointer. *)
Inductive Which := PkgExcludes | PkgIncludes | ModuleExcludes.
Definition get (w : Which) s : option Map :=
  match w with PkgExcludes => pkg_excludes s | PkgIncludes => pkg_includes s | ModuleExcludes => module_excludes s end.
Definition put (w : Which) (m : option Map) s : DnfSack :=
  mkSack (pool s) (match w with PkgExcludes => m | _ => pkg_excludes s end) (match w with PkgIncludes => m | _ => pkg_includes s end)
    (repo_excludes s) (match w with ModuleExcludes => m | _ => module_excludes s end) (module_includes s) (pkg_solvables s)
    (pool_nsolvables s) (considered s) (considered_uptodate s) (provides_ready s) (use_includes s) (disabled s).

(** ** Repositories and their solvables *)

Definition repo_ids pl : list Z :=
  List.filter (fun r => match repos pl !! Z.to_nat r with Some (Some _) => true | _ => false end) (seqZ 1 (Z.of_nat (length (repos pl)) - 1)).
Definition repo_solvables pl r : list Z :=
  List.filter (fun p => bool_decide (s_repo (pool_id2solvable pl p) = Some r)) (seqZ 2 (nsolvables pl - 2)).
Definition repo_by_name s (name : cstr) : option Z :=
  List.find (fun r => bool_decide (repos (pool s) !! Z.to_nat r = Some (Some name))) (repo_ids (pool s)).
Definition getUseIncludes s r : bool := default false (use_includes s !! r).
Definition setUseIncludes r (b : bool) s : DnfSack :=
  mkSack (pool s) (pkg_excludes s) (pkg_includes s) (repo_excludes s) (module_excludes s) (module_includes s) (pkg_solvables s)
    (pool_nsolvables s) (considered s) (considered_uptodate s) (provides_ready s) (<[r := b]> (use_includes s)) (disabled s).

(** ** Excluding and including *)

Definition dnf_sack_add_excludes_or_includes (dest : Which) (pkgset : Map) s : DnfSack :=
  let destmap := default (map_init (nsolvables (pool s))) (get dest s) in
  not_uptodate (put dest (Some (map_or destmap pkgset)) s).
Definition dnf_sack_remove_excludes_or_includes (from : Which) (pkgset : Map) s : DnfSack :=
  match get from s with
  | None => s
  | Some m => not_uptodate (put from (Some (map_subtract m pkgset)) s)
  end.
Definition dnf_sack_set_excludes_or_includes (dest : Which) (pkgset : option Map) s : DnfSack :=
  match get dest s, pkgset with
  | None, None => s
  | _, _ => not_uptodate (put dest pkgset s)
  end.
(** This does not count as a change of what is considered. *)
Definition dnf_sack_set_module_includes (pset : option Map) s : DnfSack :=
  match pset with
  | None => s
  | Some m =>
      mkSack (pool s) (pkg_excludes s) (pkg_includes s) (repo_excludes s) (module_excludes s) (Some m) (pkg_solvables s)
        (pool_nsolvables s) (considered s) (considered_uptodate s) (provides_ready s) (use_includes s) (disabled s)
  end.
Definition dnf_sack_reset_excludes := dnf_sack_set_excludes_or_includes PkgExcludes None.
Definition dnf_sack_reset_module_excludes := dnf_sack_set_excludes_or_includes ModuleExcludes None.
Definition dnf_sack_reset_includes := dnf_sack_set_excludes_or_includes PkgIncludes None.

Definition set_use_includes_one (enabled : bool) s r : DnfSack :=
  if Bool.eqb (getUseIncludes s r) enabled then s else not_uptodate (setUseIncludes r enabled s).
Definition dnf_sack_set_use_includes (reponame : option cstr) (enabled : bool) s : DnfSack * bool :=
  match reponame with
  | Some name => match repo_by_name s name with None => (s, false) | Some r => (set_use_includes_one enabled s r, true) end
  | None => (fold_left (set_use_includes_one enabled) (repo_ids (pool s)) s, true)
  end.
Definition dnf_sack_get_use_includes (reponame : cstr) s : option bool := getUseIncludes s <$> repo_by_name s reponame.

(** [MAPSET] and [MAPCLR] for each solvable; they do not look at the size of the map. *)
Fixpoint write_each (f : Map -> Z -> Map) (l : list Z) m : result error Map :=
  match l with
  | [] => Ok m
  | p :: l => if bool_decide (0 <= p < bits m) then write_each f l (f m p) else Err Crash
  end.
Definition dnf_sack_repo_enabled (reponame : cstr) (enabled : bool) s : DnfSack * result error unit :=
  match repo_by_name s reponame with
  | None => (s, Err NoSuchRepo)
  | Some r =>
      let excl := default (map_init (nsolvables (pool s))) (repo_excludes s) in
      let with_excl := fun m (uptodate : bool) =>
        mkSack (pool s) (pkg_excludes s) (pkg_includes s) (Some m) (module_excludes s) (module_includes s) (pkg_solvables s)
          (pool_nsolvables s) (considered s) uptodate false (use_includes s) (<[r := negb enabled]> (disabled s)) in
      match write_each (if enabled then MAPCLR else MAPSET) (repo_solvables (pool s) r) excl with
      | Ok m => (with_excl m false, Ok tt)
      | Err e => (with_excl excl (considered_uptodate s), Err e)
      end
  end.

(** ** What is considered *)

Definition subtract_opt m (o : option Map) : Map := match o with Some e => map_subtract m e | None => m end.
Definition add_repos_without_includes s m : Map :=
  fold_left (fun m r => if getUseIncludes s r then m else fold_left MAPSET (repo_solvables (pool s) r) m) (repo_ids (pool s)) m.
(** The sack and the map afterwards; [None] is the null pointer. *)
Definition dnf_sack_recompute_considered_map (c : option Map) (flags : ExcludeFlags) s : DnfSack * option Map :=
  let n := nsolvables (pool s) in
  let m := match c with
           | None =>
               if (ignore_regular flags || negb (bool_decide (is_Some (repo_excludes s) \/ is_Some (pkg_excludes s) \/ is_Some (pkg_includes s))))
                  && (ignore_modular flags || negb (bool_decide (is_Some (module_excludes s))))
               then None else Some (map_init n)
           | Some m => Some (map_grow m n)
           end in
  match m with
  | None => (s, None)
  | Some m =>
      let m := map_setall m in
      let s := make_provides_ready s in
      let m := if negb (ignore_modular flags) then subtract_opt m (module_excludes s) else m in
      if ignore_regular flags then (s, Some m)
      else
        let m := subtract_opt (subtract_opt m (repo_excludes s)) (pkg_excludes s) in
        match pkg_includes s with
        | None => (s, Some m)
        | Some includes =>
            let includes := map_grow includes (nsolvables (pool s)) in
            let s := put PkgIncludes (Some includes) s in
            (s, Some (map_and m (add_repos_without_includes s includes)))
        end
  end.
Definition dnf_sack_recompute_considered s : DnfSack :=
  if considered_uptodate s then s
  else let '(s, c) := dnf_sack_recompute_considered_map (considered s) APPLY_EXCLUDES s in set_considered c true s.
Definition dnf_sack_set_considered_to_update s : DnfSack := not_uptodate s.
Definition dnf_sack_set_provides_not_ready s : DnfSack := set_pool (pool s) false s.

(** ** The packages of the sack *)

Definition dnf_sack_count s : Z := Z.of_nat (length (packages (pool s))).
Definition dnf_sack_last_solvable s : Z := nsolvables (pool s) - 1.
Definition dnf_sack_set_pkg_solvables (m : Map) (n : Z) s : DnfSack :=
  mkSack (pool s) (pkg_excludes s) (pkg_includes s) (repo_excludes s) (module_excludes s) (module_includes s) (Some m)
    n (considered s) (considered_uptodate s) (provides_ready s) (use_includes s) (disabled s).

(** [Query::Impl::initResult]: the packages to start with, for the flags of a
    query and the map it keeps of considered packages. *)
Definition initResult (flags : ExcludeFlags) (considered_cached : option Map) s : DnfSack * Map * option Map :=
  let n := nsolvables (pool s) in
  let '(s, result) :=
    match pkg_solvables s with
    | Some m => if negb (pool_nsolvables s =? 0) && (pool_nsolvables s =? n) then (s, m)
                else let m := fold_left MAPSET (packages (pool s)) (map_init n) in (dnf_sack_set_pkg_solvables m n s, m)
    | None => let m := fold_left MAPSET (packages (pool s)) (map_init n) in (dnf_sack_set_pkg_solvables m n s, m)
    end in
  if negb (ignore_modular flags) && negb (ignore_regular flags) then
    let s := dnf_sack_recompute_considered s in
    (s, match considered s with Some c => map_and result c | None => result end, considered_cached)
  else
    let '(s, c) := dnf_sack_recompute_considered_map considered_cached flags s in
    (s, match c with Some c => map_and result c | None => result end, c).

(** ** What should be considered *)

Definition in_map (o : option Map) p : bool := match o with Some m => bit m p | None => false end.
Definition repo_without_includes s p : bool :=
  match s_repo (pool_id2solvable (pool s) p) with
  | Some r => bool_decide (r ∈ repo_ids (pool s)) && negb (getUseIncludes s r)
  | None => false
  end.
(** Not excluded, by itself, with its repository or by a module; and if there
    are includes, included or of a repository that does not use them. *)
Definition should_consider s (flags : ExcludeFlags) p : bool :=
  (ignore_modular flags || negb (in_map (module_excludes s) p))
  && (ignore_regular flags
      || (negb (in_map (repo_excludes s) p) && negb (in_map (pkg_excludes s) p)
          && match pkg_includes s with Some i => bit i p || repo_without_includes s p | None => true end)).

Context {HLL : LibsolvPoolLaws} {HSL : LibsolvLaws HS} {HGL : LibsolvGrowLaws HG} {HRL : ProvidesReadyLaws}.

Definition opt_ok (o : option Map) : Prop := match o with Some m => bytes_ok m | None => True end.
(** What a map of considered packages says of each solvable; without a map everything is considered. *)
Definition says s (flags : ExcludeFlags) (c : option Map) : Prop :=
  match c with
  | Some m => nsolvables (pool s) <= bits m /\ forall p, 2 <= p < nsolvables (pool s) -> bit m p = should_consider s flags p
  | None => forall p, 2 <= p < nsolvables (pool s) -> should_consider s flags p = true
  end.
(** A map that is looked at has room for every solvable. *)
Definition opt_room s (c : option Map) : Prop := match c with Some m => nsolvables (pool s) <= bits m | None => True end.
Lemma says_room s flags c : says s flags c -> opt_room s c.
Proof. destruct c; [by intros [H _]|done]. Qed.
(** The maps are maps, and what is kept is what would be computed. *)
Record coherent s : Prop := {
  ok_maps : forall w, opt_ok (get w s);
  ok_repos : opt_ok (repo_excludes s);
  ok_considered : opt_ok (considered s);
  ok_uptodate : considered_uptodate s = true -> says s APPLY_EXCLUDES (considered s);
  ok_number : 0 <= pool_nsolvables s <= nsolvables (pool s);
  ok_solvables : forall m, pkg_solvables s = Some m -> bytes_ok m
    /\ (pool_nsolvables s = nsolvables (pool s) -> bits m = bits (map_init (nsolvables (pool s))) /\ forall p, bit m p = bool_decide (p ∈ packages (pool s)));
}.

Lemma init_coherent pl : coherent (init pl).
Proof.
  pose proof (nsolvables_range pl). split; try done; simpl; [by intros []|lia].
Qed.

(** ** Steps that change nothing that counts *)

Lemma ready_pool s : same_packages (pool s) (pool (make_provides_ready s)) /\ repos (pool (make_provides_ready s)) = repos (pool s).
Proof. unfold make_provides_ready. pose proof (make_ready_same (pool s) (provides_ready s)) as H. by destruct (make_ready (pool s) (provides_ready s)). Qed.
(** Two states that agree on everything that [should_consider] looks at. *)
Record alike s s' : Prop := {
  alike_pool : same_packages (pool s) (pool s');
  alike_repos : repos (pool s') = repos (pool s);
  alike_modules : forall p, in_map (module_excludes s') p = in_map (module_excludes s) p;
  alike_repo_excludes : forall p, in_map (repo_excludes s') p = in_map (repo_excludes s) p;
  alike_excludes : forall p, in_map (pkg_excludes s') p = in_map (pkg_excludes s) p;
  alike_includes : match pkg_includes s, pkg_includes s' with
                   | Some i, Some i' => forall p, bit i' p = bit i p
                   | None, None => True
                   | _, _ => False
                   end;
  alike_uses : use_includes s' = use_includes s;
}.
Lemma alike_refl s : alike s s.
Proof. split; try done. by destruct (pkg_includes s). Qed.
Lemma alike_trans s1 s2 s3 : alike s1 s2 -> alike s2 s3 -> alike s1 s3.
Proof.
  intros [A1 A2 A3 A4 A5 A6 A7] [B1 B2 B3 B4 B5 B6 B7]. split; try congruence; [by rewrite A1|].
  destruct (pkg_includes s1), (pkg_includes s2), (pkg_includes s3); (done || intros p; by rewrite B6).
Qed.
Lemma alike_should s s' flags p : alike s s' -> 2 <= p < nsolvables (pool s) -> should_consider s' flags p = should_consider s flags p.
Proof.
  intros [A1 A2 A3 A4 A5 A6 A7] Hp. unfold should_consider, repo_without_includes, repo_ids, getUseIncludes.
  destruct A1 as [_ A1]. rewrite A2, A3, A4, A5, A7, (proj1 (A1 p Hp)).
  destruct (pkg_includes s), (pkg_includes s'); try done. by rewrite A6.
Qed.
Lemma alike_says s s' flags c : alike s s' -> says s flags c -> says s' flags c.
Proof.
  intros Ha. pose proof (alike_pool s s' Ha) as [Hn _]. unfold says. rewrite Hn. destruct c as [m|].
  - intros [H1 H2]. split; [done|]. intros p Hp. rewrite (alike_should s s'); auto.
  - intros H p Hp. rewrite (alike_should s s'); auto.
Qed.
Lemma ready_alike s : alike s (make_provides_ready s).
Proof.
  destruct (ready_pool s) as [H1 H2]. split; [done|done|..]; unfold make_provides_ready; destruct (make_ready _ _); simpl; try done.
  by destruct (pkg_includes s).
Qed.
Lemma ready_coherent s : coherent s -> coherent (make_provides_ready s).
Proof.
  intros [C1 C2 C3 C4 C5 C6]. pose proof (ready_alike s) as Ha. pose proof (alike_says s _ APPLY_EXCLUDES (considered s) Ha) as Hs.
  destruct (alike_pool _ _ Ha) as [Hn _]. pose proof (same_packages_eq _ _ (alike_pool _ _ Ha)) as Hp.
  unfold make_provides_ready in *. destruct (make_ready _ _) as [pl b]. simpl in Hn, Hp, Hs. split; try done; simpl in *.
  - auto.
  - lia.
  - intros m E. rewrite Hn, Hp. by apply C6.
Qed.
Lemma grow_alike s i n : bytes_ok i -> pkg_includes s = Some i -> alike s (put PkgIncludes (Some (map_grow i n)) s).
Proof. intros Hi E. split; try done. simpl. rewrite E. intros p. by apply map_grow_spec. Qed.
Lemma grow_coherent s i n : pkg_includes s = Some i -> coherent s -> coherent (put PkgIncludes (Some (map_grow i n)) s).
Proof.
  intros E [C1 C2 C3 C4 C5 C6]. pose proof (C1 PkgIncludes) as Hi. simpl in Hi. rewrite E in Hi. simpl in Hi.
  pose proof (alike_says s _ APPLY_EXCLUDES (considered s) (grow_alike s i n Hi E)) as Hs. split; try done.
  - intros []; simpl; [apply (C1 PkgExcludes)|by apply (map_grow_spec i n 0)|apply (C1 ModuleExcludes)].
  - auto.
Qed.

(** ** Recomputing *)

Lemma repo_ids_in pl r : r ∈ repo_ids pl -> 1 <= r < Z.of_nat (length (repos pl)).
Proof. unfold repo_ids. rewrite list_elem_of_In, List.filter_In, <-list_elem_of_In, elem_of_seqZ. lia. Qed.
Lemma repo_solvables_in pl r p : p ∈ repo_solvables pl r <-> 2 <= p < nsolvables pl /\ s_repo (pool_id2solvable pl p) = Some r.
Proof.
  unfold repo_solvables. rewrite list_elem_of_In, List.filter_In, bool_decide_eq_true, <-list_elem_of_In, elem_of_seqZ.
  pose proof (nsolvables_range pl). split; intros [? ?]; split; (done || lia).
Qed.
(** Setting many bits of a map that has room for them. *)
Lemma set_each l m : bytes_ok m -> Forall (fun p => 0 <= p < bits m) l ->
  bytes_ok (fold_left MAPSET l m) /\ bits (fold_left MAPSET l m) = bits m /\ forall k, bit (fold_left MAPSET l m) k = bit m k || bool_decide (k ∈ l).
Proof.
  intros Hm Hl. revert m Hm Hl. induction l as [|p l IH]; intros m Hm Hl; simpl; [split_and!; [done..|]; intros; by rewrite orb_false_r|].
  apply Forall_cons in Hl as [Hp Hl]. destruct (mapset_spec m p 0 Hm Hp) as (B1 & B2 & _).
  destruct (IH (MAPSET m p) B1) as (I1 & I2 & I3); [by rewrite B2|]. split_and!; [done|lia|]. intros k. rewrite I3.
  destruct (mapset_spec m p k Hm Hp) as (_ & _ & ->). destruct (Z.eqb_spec k p) as [->|Hne]; simpl; [by rewrite bool_decide_true, orb_true_r by set_solver|].
  f_equal. apply bool_decide_ext. set_solver.
Qed.
Lemma add_repos_spec s m : bytes_ok m -> nsolvables (pool s) <= bits m ->
  bytes_ok (add_repos_without_includes s m) /\ bits (add_repos_without_includes s m) = bits m
  /\ forall p, 2 <= p < nsolvables (pool s) -> bit (add_repos_without_includes s m) p = bit m p || repo_without_includes s p.
Proof.
  intros Hm Hn. unfold add_repos_without_includes.
  set (step := fun m r => if getUseIncludes s r then m else fold_left MAPSET (repo_solvables (pool s) r) m).
  assert (H : forall l m, bytes_ok m -> nsolvables (pool s) <= bits m ->
    bytes_ok (fold_left step l m) /\ bits (fold_left step l m) = bits m /\ forall p, 2 <= p < nsolvables (pool s) -> bit (fold_left step l m) p
    = bit m p || match s_repo (pool_id2solvable (pool s) p) with Some r => bool_decide (r ∈ l) && negb (getUseIncludes s r) | None => false end).
  { clear m Hm Hn. intros l. induction l as [|r l IH]; intros m Hm Hn; simpl.
    - split_and!; [done..|]. intros p Hp. destruct (s_repo _); by rewrite orb_false_r.
    - assert (Hs : bytes_ok (step m r) /\ bits (step m r) = bits m /\ forall p, 2 <= p < nsolvables (pool s) -> bit (step m r) p
        = bit m p || bool_decide (s_repo (pool_id2solvable (pool s) p) = Some r) && negb (getUseIncludes s r)).
      { unfold step. destruct (getUseIncludes s r); [split_and!; [done..|]; intros; by rewrite andb_false_r, orb_false_r|].
        destruct (set_each (repo_solvables (pool s) r) m Hm) as (S1 & S2 & S3).
        { apply Forall_forall. intros p [Hp _]%repo_solvables_in. lia. }
        split_and!; [done..|]. intros p Hp. rewrite S3, andb_true_r. f_equal. apply bool_decide_ext. rewrite repo_solvables_in. tauto. }
      destruct Hs as (S1 & S2 & S3). destruct (IH (step m r) S1) as (I1 & I2 & I3); [by rewrite S2|]. split_and!; [done|lia|].
      intros p Hp. rewrite I3, S3 by done. rewrite <-orb_assoc. f_equal. destruct (s_repo (pool_id2solvable (pool s) p)) as [r'|]; [|by rewrite bool_decide_false].
      destruct (decide (r' = r)) as [->|Hne].
      + rewrite (bool_decide_true (Some r = Some r)), (bool_decide_true (r ∈ r :: l)) by set_solver. simpl.
        destruct (bool_decide (r ∈ l)); destruct (getUseIncludes s r); done.
      + rewrite (bool_decide_false (Some r' = Some r)) by congruence. simpl. f_equal. apply bool_decide_ext. set_solver. }
  by apply H.
Qed.
Lemma subtract_spec m o : bytes_ok m -> opt_ok o ->
  bytes_ok (subtract_opt m o) /\ bits (subtract_opt m o) = bits m /\ forall k, bit (subtract_opt m o) k = bit m k && negb (in_map o k).
Proof.
  intros Hm Ho. destruct o as [e|]; simpl; [|split_and!; [done..|]; intros; by rewrite andb_true_r].
  destruct (map_subtract_spec m e 0 Hm Ho) as (B1 & B2 & _). split_and!; [done..|]. intros k. by apply map_subtract_spec.
Qed.
Lemma setall_spec m : bytes_ok m -> bytes_ok (map_setall m) /\ bits (map_setall m) = bits m /\ forall k, 0 <= k < bits m -> bit (map_setall m) k = true.
Proof.
  intros Hm. destruct (map_setall_spec m 0 Hm) as (B1 & B2 & _). split_and!; [done..|]. intros k Hk.
  destruct (map_setall_spec m k Hm) as (_ & _ & ->). by apply bool_decide_true.
Qed.
(** Without anything that excludes, nothing is excluded. *)
Lemma nothing_excluded s flags p :
  ignore_regular flags || negb (bool_decide (is_Some (repo_excludes s) \/ is_Some (pkg_excludes s) \/ is_Some (pkg_includes s))) = true ->
  ignore_modular flags || negb (bool_decide (is_Some (module_excludes s))) = true -> should_consider s flags p = true.
Proof.
  intros Hr Hm. unfold should_consider. apply andb_true_iff. split.
  - destruct (ignore_modular flags); [done|]. simpl in *. destruct (module_excludes s); [|done]. by rewrite bool_decide_true in Hm.
  - destruct (ignore_regular flags); [done|]. simpl in *. apply negb_true_iff, bool_decide_eq_false in Hr.
    destruct (repo_excludes s), (pkg_excludes s), (pkg_includes s); try done; exfalso; apply Hr; eauto.
Qed.
(** The part that follows when there is a map: everything, less the excludes. *)
Lemma start_spec (c : option Map) n m : (c = None -> 0 <= n) -> opt_ok c ->
  m = match c with Some m => map_grow m n | None => map_init n end ->
  bytes_ok (map_setall m) /\ n <= bits (map_setall m) /\ forall k, 0 <= k < n -> bit (map_setall m) k = true.
Proof.
  intros Hn Hc ->. destruct c as [m|].
  - destruct (map_grow_spec m n 0 Hc) as (B1 & B2 & _), (setall_spec _ B1) as (S1 & S2 & S3).
    split_and!; [done|lia|]. intros k Hk. apply S3. lia.
  - destruct (make_ok n) as (B1 & B2 & _); [auto|]. unfold SolvMap.make in *. destruct (setall_spec _ B1) as (S1 & S2 & S3).
    split_and!; [done|lia|]. intros k Hk. apply S3. lia.
Qed.

Lemma recompute_spec flags c s : coherent s -> opt_ok c ->
  let '(s', c') := dnf_sack_recompute_considered_map c flags s in
  coherent s' /\ alike s s' /\ considered s' = considered s /\ considered_uptodate s' = considered_uptodate s /\ opt_ok c' /\ says s' flags c'.
Proof.
  intros Hs Hc. unfold dnf_sack_recompute_considered_map. set (n := nsolvables (pool s)).
  set (start := match c with None => if (_ && _)%bool then None else Some (map_init n) | Some m => Some (map_grow m n) end).
  destruct start as [m0|] eqn:Estart; cycle 1.
  { split_and!; [done|apply alike_refl|done..|]. unfold start in Estart. destruct c; [done|]. destruct (_ && _) eqn:E; [|done].
    apply andb_true_iff in E as [E1 E2]. intros p _. by apply nothing_excluded. }
  assert (Hm0 : m0 = match c with Some m => map_grow m n | None => map_init n end).
  { unfold start in Estart. destruct c; [by injection Estart as <-|]. destruct (_ && _); [done|]. by injection Estart as <-. }
  clear Estart start. pose proof (nsolvables_range (pool s)) as Hn.
  destruct (start_spec c n m0 ltac:(unfold n; lia) Hc Hm0) as (B1 & B2 & B3). clear Hm0.
  pose proof (ready_coherent s Hs) as Hs1. pose proof (ready_alike s) as Ha. pose proof (alike_pool _ _ Ha) as [Hsame _].
  assert (Hkeep : considered (make_provides_ready s) = considered s /\ considered_uptodate (make_provides_ready s) = considered_uptodate s).
  { unfold make_provides_ready. by destruct (make_ready _ _). }
  set (s1 := make_provides_ready s) in *. fold n in Hsame. destruct Hkeep as [K1 K2].
  set (m1 := if negb (ignore_modular flags) then _ else _).
  assert (H1 : bytes_ok m1 /\ bits m1 = bits (map_setall m0) /\ forall p, 2 <= p < n -> bit m1 p = ignore_modular flags || negb (in_map (module_excludes s1) p)).
  { unfold m1. destruct (ignore_modular flags); simpl; [split_and!; [done..|]; intros; apply B3; lia|].
    destruct (subtract_spec (map_setall m0) (module_excludes s1) B1 (ok_maps s1 Hs1 ModuleExcludes)) as (S1 & S2 & S3).
    split_and!; [done..|]. intros p Hp. by rewrite S3, B3 by lia. }
  destruct H1 as (M1 & M2 & M3). destruct (ignore_regular flags) eqn:Er.
  { split_and!; [done..|]. split; [lia|]. intros p Hp. rewrite M3 by lia. unfold should_consider. by rewrite Er, andb_true_r. }
  destruct (subtract_spec m1 (repo_excludes s1) M1 (ok_repos s1 Hs1)) as (R1 & R2 & R3).
  destruct (subtract_spec _ (pkg_excludes s1) R1 (ok_maps s1 Hs1 PkgExcludes)) as (E1 & E2 & E3).
  set (m2 := subtract_opt (subtract_opt _ _) _) in *.
  destruct (pkg_includes s1) as [i|] eqn:Ei; cycle 1.
  { split_and!; [done..|]. split; [lia|]. intros p Hp. rewrite E3, R3, M3 by lia. unfold should_consider. rewrite Er, Ei. simpl. by rewrite andb_true_r, andb_assoc. }
  pose proof (ok_maps s1 Hs1 PkgIncludes) as Hi. simpl in Hi. rewrite Ei in Hi. simpl in Hi.
  destruct (map_grow_spec i (nsolvables (pool s1)) 0 Hi) as (G1 & G2 & _).
  pose proof (grow_alike s1 i (nsolvables (pool s1)) Hi Ei) as Ha2. pose proof (grow_coherent s1 i (nsolvables (pool s1)) Ei Hs1) as Hs2.
  set (g := map_grow i (nsolvables (pool s1))) in *. set (s2 := put PkgIncludes (Some g) s1) in *.
  destruct (add_repos_spec s2 g G1) as (A1 & A2 & A3); [simpl; lia|].
  destruct (map_and_spec m2 (add_repos_without_includes s2 g) 0 E1 A1) as (N1 & N2 & _).
  split_and!; [done|by eapply alike_trans|done|done|done|]. split; [simpl; lia|]. intros p Hp. simpl in Hp.
  destruct (map_and_spec m2 (add_repos_without_includes s2 g) p E1 A1) as (_ & _ & N3). rewrite N3 by lia.
  rewrite A3, E3, R3, M3 by (simpl; lia). unfold should_consider. rewrite Er. simpl. by rewrite <-!andb_assoc.
Qed.

(** ** Every step *)

(** A change that makes what is kept out of date. *)
Lemma changed_coherent s s' : coherent s -> considered_uptodate s' = false -> (forall w, opt_ok (get w s')) -> opt_ok (repo_excludes s') ->
  considered s' = considered s -> pool_nsolvables s' = pool_nsolvables s -> pkg_solvables s' = pkg_solvables s -> pool s' = pool s -> coherent s'.
Proof.
  intros [C1 C2 C3 C4 C5 C6] H1 H2 H3 H4 H5 H6 H7. split.
  - done.
  - done.
  - by rewrite H4.
  - by rewrite H1.
  - by rewrite H5, H7.
  - by rewrite H5, H6, H7.
Qed.
Lemma put_ok w o s w' : coherent s -> opt_ok o -> opt_ok (get w' (put w o s)).
Proof. intros Hs Ho. pose proof (ok_maps s Hs) as H. destruct w', w; try done; (apply (H PkgExcludes) || apply (H PkgIncludes) || apply (H ModuleExcludes)). Qed.
Lemma put_coherent w o s : coherent s -> opt_ok o -> coherent (not_uptodate (put w o s)).
Proof.
  intros Hs Ho. apply (changed_coherent s _ Hs); [done| |apply (ok_repos s Hs)|done..].
  intros w'. pose proof (put_ok w o s w' Hs Ho) as H. by destruct w'.
Qed.
Lemma add_coherent w m s : coherent s -> bytes_ok m -> coherent (dnf_sack_add_excludes_or_includes w m s).
Proof.
  intros Hs Hm. apply put_coherent; [done|]. simpl. pose proof (ok_maps s Hs w) as Hw. pose proof (nsolvables_range (pool s)).
  assert (H1 : bytes_ok (default (map_init (nsolvables (pool s))) (get w s))).
  { destruct (get w s); [done|]. by destruct (make_ok (nsolvables (pool s))) as [? _]; [lia|]. }
  by apply (map_or_spec _ _ 0 H1).
Qed.
Lemma remove_coherent w m s : coherent s -> bytes_ok m -> coherent (dnf_sack_remove_excludes_or_includes w m s).
Proof.
  intros Hs Hm. unfold dnf_sack_remove_excludes_or_includes. pose proof (ok_maps s Hs w) as Hw. destruct (get w s) as [e|]; [|done].
  apply put_coherent; [done|]. by apply (map_subtract_spec _ _ 0 Hw).
Qed.
Lemma set_coherent w o s : coherent s -> opt_ok o -> coherent (dnf_sack_set_excludes_or_includes w o s).
Proof. intros Hs Ho. unfold dnf_sack_set_excludes_or_includes. destruct (get w s), o; try done; by apply put_coherent. Qed.
Lemma uses_coherent b s r : coherent s -> coherent (set_use_includes_one b s r).
Proof.
  intros Hs. unfold set_use_includes_one. destruct (Bool.eqb _ _); [done|]. apply (changed_coherent s _ Hs); [done| |apply (ok_repos s Hs)|done..].
  intros w. pose proof (ok_maps s Hs w). by destruct w.
Qed.
Lemma write_each_ok (f : Map -> Z -> Map) l m m' : (forall m p, bytes_ok m -> 0 <= p < bits m -> bytes_ok (f m p)) -> bytes_ok m ->
  write_each f l m = Ok m' -> bytes_ok m'.
Proof.
  intros Hf. revert m. induction l as [|p l IH]; intros m Hm; simpl; [by intros [= <-]|]. case_bool_decide; [|done]. apply IH. auto.
Qed.
Lemma enabled_coherent name b s s' : coherent s -> dnf_sack_repo_enabled name b s = (s', Ok tt) -> coherent s'.
Proof.
  intros Hs. unfold dnf_sack_repo_enabled. destruct (repo_by_name s name) as [r|]; [|done].
  destruct (write_each _ _ _) as [m|e] eqn:E; [|done]. intros [= <-]. pose proof (nsolvables_range (pool s)).
  apply (changed_coherent s _ Hs); [done|intros w; pose proof (ok_maps s Hs w); by destruct w| |done..]. simpl.
  refine (write_each_ok _ _ _ _ _ _ E).
  - intros m0 p Hm0 Hp. destruct b; [by apply (mapclr_spec m0 p 0)|by apply (mapset_spec m0 p 0)].
  - pose proof (ok_repos s Hs). destruct (repo_excludes s); [done|]. by destruct (make_ok (nsolvables (pool s))) as [? _]; [lia|].
Qed.
Lemma load_coherent pl b s : coherent s -> nsolvables (pool s) < nsolvables pl -> coherent (not_uptodate (set_pool pl b s)).
Proof. intros [C1 C2 C3 C4 C5 C6] Hn. split; try done; simpl; [lia|]. intros m E. split; [by apply (C6 m E)|lia]. Qed.
Lemma recomputed s : coherent s ->
  let s' := dnf_sack_recompute_considered s in coherent s' /\ alike s s' /\ says s' APPLY_EXCLUDES (considered s').
Proof.
  intros Hs. unfold dnf_sack_recompute_considered. destruct (considered_uptodate s) eqn:E; [split_and!; [done|apply alike_refl|by apply ok_uptodate]|].
  pose proof (recompute_spec APPLY_EXCLUDES (considered s) s Hs (ok_considered s Hs)) as H.
  destruct (dnf_sack_recompute_considered_map _ _ _) as [s' c]. destruct H as ([C1 C2 C3 C4 C5 C6] & H2 & H3 & H4 & H5 & H6).
  split_and!; [by split|destruct H2; by split|done].
Qed.
Lemma solvables_coherent s m : coherent s -> bytes_ok m -> bits m = bits (map_init (nsolvables (pool s))) -> (forall p, bit m p = bool_decide (p ∈ packages (pool s))) ->
  coherent (dnf_sack_set_pkg_solvables m (nsolvables (pool s)) s).
Proof.
  intros [C1 C2 C3 C4 C5 C6] Hm Hn Hb. pose proof (nsolvables_range (pool s)). split; try done; simpl; [lia|]. by intros m' [= <-].
Qed.
(** All packages, from the cache or not. *)
Lemma start_packages s : coherent s ->
  let '(s', m) := match pkg_solvables s with
    | Some m => if negb (pool_nsolvables s =? 0) && (pool_nsolvables s =? nsolvables (pool s)) then (s, m)
                else let m := fold_left MAPSET (packages (pool s)) (map_init (nsolvables (pool s))) in (dnf_sack_set_pkg_solvables m (nsolvables (pool s)) s, m)
    | None => let m := fold_left MAPSET (packages (pool s)) (map_init (nsolvables (pool s))) in (dnf_sack_set_pkg_solvables m (nsolvables (pool s)) s, m)
    end in
  coherent s' /\ alike s s' /\ bytes_ok m /\ bits m = bits (map_init (nsolvables (pool s))) /\ forall p, bit m p = bool_decide (p ∈ packages (pool s)).
Proof.
  intros Hs. pose proof (nsolvables_range (pool s)) as Hn. destruct (make_ok (nsolvables (pool s))) as (B1 & B2 & B3); [lia|]. unfold SolvMap.make in *.
  destruct (set_each (packages (pool s)) _ B1) as (S1 & S2 & S3); [apply Forall_forall; intros p Hp%packages_range; lia|].
  set (m := fold_left MAPSET _ _) in *. assert (Hm : forall p, bit m p = bool_decide (p ∈ packages (pool s))) by (intros p; by rewrite S3, B3).
  assert (Hnew : coherent (dnf_sack_set_pkg_solvables m (nsolvables (pool s)) s) /\ alike s (dnf_sack_set_pkg_solvables m (nsolvables (pool s)) s)
    /\ bytes_ok m /\ bits m = bits (map_init (nsolvables (pool s))) /\ forall p, bit m p = bool_decide (p ∈ packages (pool s))).
  { split_and!; [apply solvables_coherent; (done || lia)|destruct (alike_refl s); by split|done|lia|done]. }
  destruct (pkg_solvables s) as [c|] eqn:Ec; [|done]. destruct (_ && _) eqn:E; [|done]. apply andb_true_iff in E as [_ E%Z.eqb_eq].
  destruct (ok_solvables s Hs c Ec) as [H1 H2]. destruct (H2 E) as [H3 H4]. split_and!; [done|apply alike_refl|done..].
Qed.

(** ** Runs *)

(** A repository loaded: more solvables, or none and nothing else. *)
Definition loaded pl s : Prop :=
  nsolvables (pool s) < nsolvables pl \/ nsolvables pl = nsolvables (pool s) /\ packages pl = packages (pool s).
Inductive step : DnfSack -> DnfSack -> Prop :=
  | step_add w m s : bytes_ok m -> step s (dnf_sack_add_excludes_or_includes w m s)
  | step_remove w m s : bytes_ok m -> step s (dnf_sack_remove_excludes_or_includes w m s)
  | step_set w o s : opt_ok o -> step s (dnf_sack_set_excludes_or_includes w o s)
  | step_module_includes o s : step s (dnf_sack_set_module_includes o s)
  | step_use name b s : step s (fst (dnf_sack_set_use_includes name b s))
  | step_enabled name b s s' : dnf_sack_repo_enabled name b s = (s', Ok tt) -> step s s'
  | step_load pl b s : loaded pl s -> step s (dnf_sack_set_considered_to_update (set_pool pl b s))
  | step_provides s : step s (dnf_sack_set_provides_not_ready s)
  | step_ready s : step s (make_provides_ready s)
  | step_mark s : step s (dnf_sack_set_considered_to_update s)
  | step_recompute s : step s (dnf_sack_recompute_considered s)
  | step_query flags c s : opt_ok c -> step s (initResult flags c s).1.1.

Lemma loaded_coherent pl b s : coherent s -> loaded pl s -> coherent (dnf_sack_set_considered_to_update (set_pool pl b s)).
Proof.
  intros Hs [H|[H1 H2]]; [by apply load_coherent|]. destruct Hs as [C1 C2 C3 C4 C5 C6]. split; try done; simpl; [lia|].
  intros m E. rewrite H1, H2. by apply C6.
Qed.
Lemma all_uses_coherent b l s : coherent s -> coherent (fold_left (set_use_includes_one b) l s).
Proof. revert s. induction l as [|r l IH]; intros s Hs; [done|]. by apply IH, uses_coherent. Qed.

(** The result of a query starts as the packages that its flags consider. *)
Lemma init_result flags c s : coherent s -> opt_ok c ->
  let '(s', m, c') := initResult flags c s in
  coherent s' /\ alike s s' /\ opt_ok c' /\ opt_room s' (if ignore_modular flags || ignore_regular flags then c' else considered s')
  /\ bytes_ok m /\ bits m = bits (map_init (nsolvables (pool s)))
  /\ forall p, bit m p = bool_decide (p ∈ packages (pool s)) && should_consider s flags p.
Proof.
  intros Hs Hc. unfold initResult. pose proof (start_packages s Hs) as H. cbv zeta in H |- *. set (all := match pkg_solvables s with Some _ => _ | None => _ end) in *.
  destruct all as [s1 m]. destruct H as (C1 & A1 & M1 & M2 & M3).
  assert (Hand : forall s2 c2, alike s1 s2 -> opt_ok c2 -> says s2 flags c2 ->
    let m' := match c2 with Some c => map_and m c | None => m end in
    bytes_ok m' /\ bits m' = bits (map_init (nsolvables (pool s)))
    /\ forall p, bit m' p = bool_decide (p ∈ packages (pool s)) && should_consider s flags p).
  { intros s2 c2 A2 Hc2 Hsay. assert (A : alike s s2) by by eapply alike_trans.
    pose proof (proj1 (alike_pool _ _ A)) as Hn. destruct c2 as [k|]; simpl in *.
    - destruct (map_and_spec m k 0 M1 Hc2) as (N1 & N2 & _). split_and!; [done|by rewrite N2|]. intros p.
      destruct Hsay as [B1 B2]. destruct (map_and_spec m k p M1 Hc2) as (_ & _ & N). rewrite M3 in N.
      case_bool_decide as Hp; [|by apply N]. pose proof (packages_range _ _ Hp) as Hr.
      rewrite N, B2, (alike_should s s2); [done|done|lia|lia|lia].
    - split_and!; [done..|]. intros p. rewrite M3. case_bool_decide as Hp; [|done]. pose proof (packages_range _ _ Hp).
      by rewrite <-(alike_should s s2), Hsay by (done || lia). }
  destruct (negb (ignore_modular flags) && negb (ignore_regular flags)) eqn:Ef.
  - assert (flags = APPLY_EXCLUDES) as -> by (destruct flags as [[] []]; done).
    destruct (recomputed s1 C1) as (C2 & A2 & S2). refine (conj C2 (conj (alike_trans _ _ _ A1 A2) (conj Hc (conj (says_room _ _ _ S2) _)))).
    by apply (Hand (dnf_sack_recompute_considered s1) _ A2 (ok_considered _ C2)).
  - pose proof (recompute_spec flags c s1 C1 Hc) as H. destruct (dnf_sack_recompute_considered_map c flags s1) as [s2 c2].
    destruct H as (C2 & A2 & _ & _ & Hc2 & S2). replace (ignore_modular flags || ignore_regular flags) with true by (destruct (ignore_modular flags), (ignore_regular flags); done).
    refine (conj C2 (conj (alike_trans _ _ _ A1 A2) (conj Hc2 (conj (says_room _ _ _ S2) _)))). by apply (Hand s2).
Qed.

Lemma step_coherent s s' : step s s' -> coherent s -> coherent s'.
Proof.
  intros [w m s0 H|w m s0 H|w o s0 H|o s0|name b s0|name b s0 s1 H|pl b s0 H|s0|s0|s0|s0|flags c s0 H] Hs.
  - by apply add_coherent.
  - by apply remove_coherent.
  - by apply set_coherent.
  - destruct o; [|done]. by destruct Hs as [C1 C2 C3 C4 C5 C6]; split; [intros []; [apply (C1 PkgExcludes)|apply (C1 PkgIncludes)|apply (C1 ModuleExcludes)]|..].
  - unfold dnf_sack_set_use_includes. destruct name as [name|]; [|by apply all_uses_coherent].
    destruct (repo_by_name s0 name); [by apply uses_coherent|done].
  - by eapply enabled_coherent.
  - by apply loaded_coherent.
  - destruct Hs as [C1 C2 C3 C4 C5 C6]. by split.
  - by apply ready_coherent.
  - destruct Hs as [C1 C2 C3 C4 C5 C6]. by split.
  - by apply recomputed.
  - pose proof (init_result flags c s0 Hs H) as Hq. destruct (initResult flags c s0) as [[s1 m] c1]. apply Hq.
Qed.
Lemma run_coherent s s' : rtc step s s' -> coherent s -> coherent s'.
Proof. induction 1 as [|s s1 s' H _ IH]; [done|]. intros Hs. by eapply IH, step_coherent. Qed.

(** C19. However packages were excluded and included, repositories loaded, enabled
    and disabled and queries made before, a query starts with just the packages
    that are considered by its flags now: a kept map of considered packages or
    of all packages is never out of date. *)
Theorem query_starts_considered pl s flags c : rtc step (init pl) s -> opt_ok c ->
  let '(_, m, _) := initResult flags c s in
  forall p, bit m p = bool_decide (p ∈ packages (pool s)) && should_consider s flags p.
Proof.
  intros Hr Hc. pose proof (init_result flags c s (run_coherent _ _ Hr (init_coherent pl)) Hc) as H.
  destruct (initResult flags c s) as [[s1 m] c1]. apply H.
Qed.


(** ** What a change does *)

Lemma write_each_spec (v : bool) l m m' : bytes_ok m -> write_each (if v then MAPCLR else MAPSET) l m = Ok m' ->
  forall k, bit m' k = if bool_decide (k ∈ l) then negb v else bit m k.
Proof.
  revert m. induction l as [|p l IH]; intros m Hm; simpl; [by intros [= <-]|]. case_bool_decide as Hp; [|done]. intros E k.
  assert (H1 : bytes_ok ((if v then MAPCLR else MAPSET) m p) /\ bit ((if v then MAPCLR else MAPSET) m p) k = if k =? p then negb v else bit m k).
  { destruct v; [destruct (mapclr_spec m p k Hm Hp) as (B1 & _ & B2)|destruct (mapset_spec m p k Hm Hp) as (B1 & _ & B2)]; split; try done; rewrite B2; by destruct (k =? p). }
  destruct H1 as [B1 B2]. rewrite (IH _ B1 E k), B2. destruct (Z.eqb_spec k p) as [->|Hne].
  - rewrite (bool_decide_true (p ∈ p :: l)) by set_solver. by case_bool_decide.
  - rewrite (bool_decide_ext (k ∈ p :: l) (k ∈ l)) by set_solver. done.
Qed.
Lemma write_each_crash (v : bool) l m e : bytes_ok m -> (forall p, p ∈ l -> 0 <= p) -> write_each (if v then MAPCLR else MAPSET) l m = Err e ->
  e = Crash /\ exists p, p ∈ l /\ bits m <= p.
Proof.
  revert m. induction l as [|p l IH]; intros m Hm Hl; simpl; [done|]. case_bool_decide as Hp.
  - intros E. assert (H1 : bytes_ok ((if v then MAPCLR else MAPSET) m p) /\ bits ((if v then MAPCLR else MAPSET) m p) = bits m).
    { destruct v; [destruct (mapclr_spec m p 0 Hm Hp) as (B1 & B2 & _)|destruct (mapset_spec m p 0 Hm Hp) as (B1 & B2 & _)]; done. }
    destruct H1 as [B1 B2]. destruct (IH _ B1) as (He & q & Hq1 & Hq2); [set_solver|done|]. split; [done|]. exists q. rewrite B2 in Hq2. set_solver.
  - intros [= <-]. split; [done|]. exists p. assert (0 <= p) by (apply Hl; set_solver). split; [set_solver|lia].
Qed.
(** As if no repository were disabled. *)
Definition without_repo_excludes s : DnfSack :=
  mkSack (pool s) (pkg_excludes s) (pkg_includes s) None (module_excludes s) (module_includes s) (pkg_solvables s)
    (pool_nsolvables s) (considered s) (considered_uptodate s) (provides_ready s) (use_includes s) (disabled s).

(** [dnf_sack_repo_enabled] excludes all packages of the repository or stops
    excluding them, does not touch those of others, remembers the state, and
    makes the sack compute again what is considered; an unknown repository is an
    error that changes nothing. *)
Theorem repo_enabled_spec name b s : coherent s ->
  let '(s', res) := dnf_sack_repo_enabled name b s in
  match res with
  | Ok _ => exists r, repo_by_name s name = Some r /\ disabled s' !! r = Some (negb b)
      /\ considered_uptodate s' = false /\ provides_ready s' = false
      /\ forall p, 2 <= p < nsolvables (pool s) -> forall flags, should_consider s' flags p =
           (if bool_decide (s_repo (pool_id2solvable (pool s) p) = Some r)
            then should_consider (without_repo_excludes s) flags p && (b || ignore_regular flags)
            else should_consider s flags p)
  | Err NoSuchRepo => repo_by_name s name = None /\ s' = s
  | Err Crash => exists m r p, repo_excludes s = Some m /\ repo_by_name s name = Some r /\ p ∈ repo_solvables (pool s) r /\ bits m <= p
  end.
Proof.
  intros Hs. unfold dnf_sack_repo_enabled. destruct (repo_by_name s name) as [r|] eqn:Er; [|done].
  pose proof (nsolvables_range (pool s)) as Hn. pose proof (ok_repos s Hs) as Hr.
  set (excl := default _ _). assert (Hx : bytes_ok excl).
  { unfold excl. destruct (repo_excludes s); [done|]. by destruct (make_ok (nsolvables (pool s))) as [? _]; [lia|]. }
  assert (Hb : forall k, bit excl k = in_map (repo_excludes s) k).
  { intros k. unfold excl. destruct (repo_excludes s); [done|]. destruct (make_ok (nsolvables (pool s))) as (_ & _ & B3); [lia|]. apply B3. }
  destruct (write_each _ _ excl) as [m|e] eqn:E.
  - exists r. split_and!; [done|by apply lookup_insert_eq|done..|]. intros p Hp flags.
    pose proof (write_each_spec b _ excl m Hx E p) as Hm. rewrite Hb in Hm.
    unfold should_consider, repo_without_includes, getUseIncludes. simpl. rewrite Hm.
    rewrite (bool_decide_ext (p ∈ repo_solvables (pool s) r) (s_repo (pool_id2solvable (pool s) p) = Some r)) by (rewrite repo_solvables_in; tauto).
    destruct (decide (s_repo (pool_id2solvable (pool s) p) = Some r)) as [D|D];
      [rewrite !(bool_decide_true _ D)|by rewrite !(bool_decide_false _ D)].
    destruct (ignore_regular flags), b; simpl; by rewrite ?andb_true_r, ?andb_false_r, ?orb_true_r.
  - destruct (write_each_crash b (repo_solvables (pool s) r) excl e Hx) as (-> & p & Hp1 & Hp2); [intros p [? _]%repo_solvables_in; lia|done|].
    unfold excl in Hp2. destruct (repo_excludes s) as [m|]; [by exists m, r, p|].
    exfalso. apply repo_solvables_in in Hp1 as [Hp1 _]. destruct (make_ok (nsolvables (pool s))) as (_ & B2 & _); [lia|]. unfold SolvMap.make in B2. simpl in Hp2. lia.
Qed.
End sack.
End DnfSack.
