(* ===== verification/DnfSackExamples.v ===== *)
(** * DnfSackExamples: excludes in a small pool that can grow *)

From S2P Require Import Prelude Sack Solv Regex Specs Packages QueryExamples DnfSack.
Local Open Scope Z_scope.

Module DnfSackExamples.
Import Packages DnfSack.
#[local] Existing Instance SolvExamples.libsolv.
#[local] Existing Instance SolvExamples.libsolv_laws.

(** [true] once the second repository has been loaded a second time, with thirteen more packages. *)
Definition reldep_pool : Reldep.Pool := {|
  Reldep.pool := bool;
  Reldep.pool_str2id _ pl := (0, pl);
  Reldep.pool_rel2id a b c pl := (1000 + a, pl);
  Reldep.pool_parserpmrichdep _ pl := (0, pl);
  Reldep.dataiterator _ _ := [];
|}.
#[local] Existing Instance reldep_pool.
Notation small := QueryExamples.small (only parsing).
Notation texts := ([] : list cstr) (only parsing).
Definition solvable (more : bool) (p : Z) : Solvable :=
  if more && (7 <=? p) && (p <? 20) then mkSolvable 2 5 9 (Some 2) [] else QueryExamples.solvable p.
Definition growing : LibsolvPool := {|
  nsolvables more := if (more : bool) then 20 else 7;
  pool_id2solvable more := solvable more;
  repos _ := [None; Some (lit "main"); Some (lit "updates")];
  pool_id2str _ := QueryExamples.text texts;
  pool_find_id _ := QueryExamples.find_id texts;
  pool_evrcmp_str := QueryExamples.text_cmp;
  pool_solvable2str _ _ := [];
  dataiterator_step _ _ _ _ _ := false;
  pool_createwhatprovides pl := pl;
  provides _ _ := [];
  solvable_lookup_idarray _ _ _ := [];
  pool_match_dep _ := Z.eqb;
  pool_match_nevr _ _ _ := false;
  obsoleteusesprovides _ := false;
  selection_make_matchsolvable _ _ _ _ := [];
  SOLVER_SOLVABLE_ALL := 6;
  lookup_sourcename _ _ := None;
  solvable_lookup_sourcepkg _ _ := None;
  solvable_get_location _ _ := None;
|}.
#[local] Existing Instance growing.
#[local] Instance growing_laws : LibsolvPoolLaws.
Proof.
  split; try (intros pl; change bool in pl); intros; simpl in *; try done.
  - destruct pl; lia.
  - assert (Hs : exists q, i ∈ [s_name (QueryExamples.solvable q); s_arch (QueryExamples.solvable q); s_evr (QueryExamples.solvable q)]
      /\ (q = 2 \/ q = 3 \/ q = 4 \/ q = 5 \/ q = 6)); cycle 1.
    { destruct Hs as (q & Hi & Hq). rewrite !elem_of_cons, elem_of_nil in Hi.
      destruct Hq as [->|[->|[->|[->| ->]]]]; destruct Hi as [->|[->|[->|[]]]]; split; (discriminate || vm_compute; reflexivity). }
    unfold pool_solvables in H. rewrite list_elem_of_In, List.filter_In, <-list_elem_of_In, elem_of_seqZ in H. simpl in H. destruct H as [Hp _].
    unfold solvable in H0. destruct (pl && (7 <=? p) && (p <? 20)) eqn:E.
    + exists 4. split; [|lia]. simpl in *. set_solver.
    + exists p. split; [set_solver|]. destruct pl; simpl in *; lia.
  - unfold QueryExamples.find_id, QueryExamples.text in *. destruct (find_idx _ _) as [i|] eqn:E; [|done]. apply find_idx_Some in E as (c & Hc & Hb & _).
    apply bool_decide_eq_true in Hb as ->. rewrite Nat2Z.id. rewrite lookup_drop in Hc. by apply nth_lookup_Some.
  - by apply elem_of_nil in H.
  - by apply elem_of_nil in H.
Defined.

Definition grow : LibsolvGrow := {|
  map_setall m := repeat 255 (length m);
  map_grow m n := m ++ repeat 0 (Z.to_nat ((n + 7) / 8) - length m);
|}.
#[local] Existing Instance grow.
Lemma repeat_bytes (v : Z) n : 0 <= v < 256 -> bytes_ok (repeat v n).
Proof. intros Hv. apply Forall_forall. intros x Hx. rewrite list_elem_of_In in Hx. by apply repeat_spec in Hx as ->. Qed.
#[local] Instance grow_laws : LibsolvGrowLaws grow.
Proof.
  split.
  - intros m k Hm. split_and!; [by apply repeat_bytes|unfold bits; simpl; by rewrite repeat_length|].
    pose proof (Z.div_mod k 8 ltac:(lia)) as Hk. pose proof (Z.mod_pos_bound k 8 ltac:(lia)) as Hk8.
    unfold bit, bits. simpl. destruct (repeat 255 (length m) !! Z.to_nat (k / 8)) as [b|] eqn:E.
    + pose proof (lookup_lt_Some _ _ _ E) as Hl. rewrite repeat_length in Hl. apply list_elem_of_lookup_2 in E. rewrite list_elem_of_In in E. apply repeat_spec in E as ->.
      replace (Z.testbit 255 (k mod 8)) with true by (change 255 with (Z.ones 8); rewrite Z.ones_spec_low; [done|apply Z.mod_pos_bound; lia]).
      rewrite andb_true_r. apply eq_true_iff_eq. rewrite bool_decide_eq_true, Z.leb_le. lia.
    + apply lookup_ge_None in E. rewrite repeat_length in E. symmetry. apply bool_decide_eq_false. lia.
  - intros m n k Hm. simpl. split_and!.
    + apply Forall_app. split; [done|by apply repeat_bytes].
    + pose proof (Z.div_mod (n + 7) 8 ltac:(lia)). pose proof (Z.mod_pos_bound (n + 7) 8 ltac:(lia)).
      unfold bits. rewrite length_app, repeat_length. lia.
    + unfold bit. destruct (decide (Z.to_nat (k / 8) < length m)%nat) as [H|H].
      * by rewrite lookup_app_l by done.
      * rewrite lookup_app_r by lia. rewrite (lookup_ge_None_2 m) by lia. destruct (repeat 0 _ !! _) as [b|] eqn:E; [|done].
        apply list_elem_of_lookup_2 in E. rewrite list_elem_of_In in E. apply repeat_spec in E as ->. by rewrite Z.bits_0, andb_false_r.
Qed.
Definition ready : ProvidesReady := fun pl _ => (pl, true).
#[local] Existing Instance ready.
#[local] Instance ready_laws : ProvidesReadyLaws.
Proof. intros pl b. by split. Qed.

Definition s0 : DnfSack := init false.
Definition each (m : Map) : list Z := List.filter (bit m) (seqZ 0 (bits m)).
Definition query (flags : ExcludeFlags) (s : DnfSack) : list Z := each (initResult flags None s).1.2.

Example everything : query APPLY_EXCLUDES s0 = [2; 3; 4; 6].
Proof. vm_compute. reflexivity. Qed.
Definition s1 : DnfSack := dnf_sack_add_excludes_or_includes PkgExcludes [4] s0.
Definition s2 : DnfSack := dnf_sack_add_excludes_or_includes ModuleExcludes [8] s1.
(** Package 2 is excluded, and 3 by its module. *)
Example excluded : map (fun f => query f s2) [APPLY_EXCLUDES; IGNORE_MODULAR_EXCLUDES; IGNORE_REGULAR_EXCLUDES; IGNORE_EXCLUDES]
  = [[4; 6]; [3; 4; 6]; [2; 4; 6]; [2; 3; 4; 6]].
Proof. vm_compute. reflexivity. Qed.
(** Only package 6 is included, in the one repository that uses includes. *)
Definition s3 : DnfSack := fst (dnf_sack_set_use_includes (Some (lit "updates")) true (dnf_sack_add_excludes_or_includes PkgIncludes [64] s0)).
Example included : query APPLY_EXCLUDES s3 = [2; 6].
Proof. vm_compute. reflexivity. Qed.
Example disabled_repo : (fun r => query APPLY_EXCLUDES (fst r)) (dnf_sack_repo_enabled (lit "updates") false s0) = [2].
Proof. vm_compute. reflexivity. Qed.

(** The map of the packages of disabled repositories is made when one is
    disabled first. After more packages are loaded it is not grown, and disabling
    the same repository again writes behind its end. *)
Example writes_behind :
  let s := fst (dnf_sack_repo_enabled (lit "updates") true s0) in
  snd (dnf_sack_repo_enabled (lit "updates") false (dnf_sack_set_considered_to_update (set_pool true false s))) = Err Crash.
Proof. vm_compute. reflexivity. Qed.
(** A sack whose pool has grown without the mark: a failed [dnf_sack_load_repo]
    leaves the loaded packages behind, and what is considered is not computed again. *)
Example failed_load :
  let s := dnf_sack_recompute_considered s3 in
  (query APPLY_EXCLUDES (set_pool true false s), query APPLY_EXCLUDES (dnf_sack_set_considered_to_update (set_pool true false s)))
  = ([2; 6; 8; 9; 10; 11; 12; 13; 14; 15; 16; 17; 18; 19], [2; 6]).
Proof. vm_compute. reflexivity. Qed.

Lemma s1_run : rtc step s0 s1.
Proof. eapply rtc_l; [|apply rtc_refl]. apply (step_add PkgExcludes [4]). constructor; [lia|constructor]. Qed.
Lemma query_starts_considered_witness :
  rtc step s0 s1 /\ opt_ok None
  /\ let '(_, m, _) := initResult APPLY_EXCLUDES None s1 in bit m 2 = false /\ bit m 4 = true.
Proof.
  split; [exact s1_run|]. split; [exact I|].
  pose proof (query_starts_considered _ s1 APPLY_EXCLUDES None s1_run I) as H. destruct (initResult _ _ _) as [[s' m] c].
  split; rewrite H; vm_compute; reflexivity.
Defined.
Lemma repo_enabled_spec_witness :
  coherent s1 /\ let '(s', _) := dnf_sack_repo_enabled (lit "updates") false s1 in
  should_consider s' APPLY_EXCLUDES 4 = false /\ considered_uptodate s' = false.
Proof.
  pose proof (run_coherent s0 s1 s1_run (init_coherent _)) as Hs.
  split; [exact Hs|].
  pose proof (repo_enabled_spec (lit "updates") false s1 Hs) as H.
  assert (E : snd (dnf_sack_repo_enabled (lit "updates") false s1) = Ok tt) by (vm_compute; reflexivity).
  assert (Er : repo_by_name s1 (lit "updates") = Some 2) by (vm_compute; reflexivity).
  destruct (dnf_sack_repo_enabled _ _ _) as [s' r]. cbn [snd] in E. subst r. destruct H as (r & Hr & _ & Hu & _ & H).
  rewrite Er in Hr. injection Hr as <-. split; [|exact Hu]. rewrite H; [vm_compute; reflexivity|vm_compute; split; [discriminate|reflexivity]].
Defined.
End DnfSackExamples.
