(* ===== verification/DnfQuery.v ===== *)
(** * DnfQuery: queries of packages in dnf-4 ([sack/query.cpp], [sack/advisory.cpp], parts of [hy-iutil.cpp])

    A query collects filters and applies them when its result is needed. The
    filters that are declared but not defined in the repository, and the class of
    package sets, are the classes [MissingFilters] and [PackageSets]. *)

From S2P Require Import Prelude Sack Solv Regex Specs Packages DnfSack.
From stdpp Require Import sorting.
Local Open Scope Z_scope.

(** What else libsolv knows of a pool: the repository of installed packages,
    priorities, the order of versions by their ids, and sorting with a comparison
    of ids. *)
Class LibsolvUpdates `{LibsolvPool} := {
  installed : Reldep.pool -> option Z;
  priority : Reldep.pool -> Z -> Z;
  ARCH_NOARCH : Z;
  pool_evrcmp : Reldep.pool -> Z -> Z -> Z;
  solv_sort : (Z -> Z -> Z) -> list Z -> list Z;
  solvable_buildtime : Reldep.pool -> Z -> Z;
  (** The names of the dependencies that a package provides. *)
  provide_names : Reldep.pool -> Z -> list cstr;
}.
Class LibsolvUpdatesLaws `{LibsolvUpdates} : Prop := {
  name_positive pl p : p ∈ Packages.packages pl -> 0 < s_name (pool_id2solvable pl p);
  evrcmp_total pl a b : pool_evrcmp pl a b <= 0 \/ pool_evrcmp pl b a <= 0;
  evrcmp_trans pl a b c : pool_evrcmp pl a b <= 0 -> pool_evrcmp pl b c <= 0 -> pool_evrcmp pl a c <= 0;
  evrcmp_sign pl a b : pool_evrcmp pl a b < 0 <-> 0 < pool_evrcmp pl b a;
  solv_sort_spec cmp l : (forall a b, cmp a b <= 0 \/ cmp b a <= 0) -> (forall a b c, cmp a b <= 0 -> cmp b c <= 0 -> cmp a c <= 0) ->
    Permutation (solv_sort cmp l) l /\ StronglySorted (fun a b => cmp a b <= 0) (solv_sort cmp l);
}.

(** What the metadata says of an advisory: the texts of its solvable, its
    references with types, its packages (name, version, architecture, file), and the
    ids of name and stream of its modules. *)
Record AdvisoryData := mkAdvisory {
  adv_name : cstr; adv_category : option cstr; adv_severity : option cstr;
  adv_references : list (option cstr * option cstr);
  adv_packages : list (Z * Z * Z * option cstr);
  adv_modules : list (Z * Z);
}.
Class Advisories `{Reldep.Pool} := {
  (** The solvables with an update collection, in the order of the iterator. *)
  advisories : Reldep.pool -> list Z;
  advisory_data : Reldep.pool -> Z -> AdvisoryData;
}.

(** [PackageSet]: the loop over [next], indexing, and the operators. *)
Class PackageSets := {
  pset_ids : Map -> list Z;
  pset_at : Map -> Z -> Z;
  pset_add : Map -> Map -> Map;
  pset_and : Map -> Map -> Map;
  pset_sub : Map -> Map -> Map;
}.
Class PackageSetsLaws `(PackageSets) : Prop := {
  pset_ids_spec m p : bytes_ok m -> p ∈ pset_ids m <-> bit m p = true;
  pset_ids_nodup m : NoDup (pset_ids m);
  pset_add_spec m o k : bytes_ok m -> bytes_ok o -> bits o = bits m ->
    bytes_ok (pset_add m o) /\ bits (pset_add m o) = bits m /\ bit (pset_add m o) k = bit m k || bit o k;
  pset_and_spec m o k : bytes_ok m -> bytes_ok o -> bits o = bits m ->
    bytes_ok (pset_and m o) /\ bits (pset_and m o) = bits m /\ bit (pset_and m o) k = bit m k && bit o k;
  pset_sub_spec m o k : bytes_ok m -> bytes_ok o -> bits o = bits m ->
    bytes_ok (pset_sub m o) /\ bits (pset_sub m o) = bits m /\ bit (pset_sub m o) k = bit m k && negb (bit o k);
}.

Module DnfQuery.
Import QueryCmp Matches Packages DnfSack.

(** ** Keys, operators and what goes together *)

Inductive Keyname :=
| HY_PKG | HY_PKG_ALL | HY_PKG_ARCH | HY_PKG_CONFLICTS | HY_PKG_DESCRIPTION | HY_PKG_EPOCH | HY_PKG_EVR | HY_PKG_FILE | HY_PKG_NAME
| HY_PKG_NEVRA | HY_PKG_OBSOLETES | HY_PKG_PROVIDES | HY_PKG_RELEASE | HY_PKG_REPONAME | HY_PKG_REQUIRES | HY_PKG_SOURCERPM
| HY_PKG_SUMMARY | HY_PKG_URL | HY_PKG_VERSION | HY_PKG_LOCATION | HY_PKG_ENHANCES | HY_PKG_RECOMMENDS | HY_PKG_SUGGESTS
| HY_PKG_SUPPLEMENTS | HY_PKG_ADVISORY | HY_PKG_ADVISORY_BUG | HY_PKG_ADVISORY_CVE | HY_PKG_ADVISORY_SEVERITY
| HY_PKG_ADVISORY_TYPE | HY_PKG_DOWNGRADABLE | HY_PKG_DOWNGRADES | HY_PKG_EMPTY | HY_PKG_LATEST_PER_ARCH | HY_PKG_LATEST
| HY_PKG_UPGRADABLE | HY_PKG_UPGRADES | HY_PKG_NEVRA_STRICT | HY_PKG_UPGRADES_BY_PRIORITY | HY_PKG_OBSOLETES_BY_PRIORITY.
#[global] Instance keyname_eq_dec : EqDecision Keyname.
Proof. solve_decision. Defined.

(** The comparison types are bits. *)
Definition HY_ICASE : Z := 1.
Definition HY_NOT : Z := 2.
Definition HY_EQ : Z := 256.
Definition HY_LT : Z := 512.
Definition HY_GT : Z := 1024.
Definition HY_SUBSTR : Z := 2048.
Definition HY_GLOB : Z := 4096.
Definition HY_NEQ : Z := Z.lor HY_EQ HY_NOT.
Definition has (cmp_type flag : Z) : bool := negb (Z.land cmp_type flag =? 0).

Definition match_type_num (key : Keyname) : bool :=
  match key with
  | HY_PKG_EMPTY | HY_PKG_EPOCH | HY_PKG_LATEST | HY_PKG_LATEST_PER_ARCH | HY_PKG_UPGRADABLE | HY_PKG_UPGRADES
  | HY_PKG_UPGRADES_BY_PRIORITY | HY_PKG_DOWNGRADABLE | HY_PKG_DOWNGRADES => true
  | _ => false
  end.
Definition match_type_pkg (key : Keyname) : bool :=
  match key with HY_PKG | HY_PKG_OBSOLETES | HY_PKG_OBSOLETES_BY_PRIORITY => true | _ => false end.
Definition match_type_reldep (key : Keyname) : bool :=
  match key with
  | HY_PKG_CONFLICTS | HY_PKG_ENHANCES | HY_PKG_OBSOLETES | HY_PKG_PROVIDES | HY_PKG_RECOMMENDS | HY_PKG_REQUIRES
  | HY_PKG_SUGGESTS | HY_PKG_SUPPLEMENTS => true
  | _ => false
  end.
Definition match_type_str (key : Keyname) : bool :=
  match key with
  | HY_PKG_ADVISORY | HY_PKG_ADVISORY_BUG | HY_PKG_ADVISORY_CVE | HY_PKG_ADVISORY_SEVERITY | HY_PKG_ADVISORY_TYPE | HY_PKG_ARCH
  | HY_PKG_DESCRIPTION | HY_PKG_ENHANCES | HY_PKG_EVR | HY_PKG_FILE | HY_PKG_LOCATION | HY_PKG_NAME | HY_PKG_NEVRA
  | HY_PKG_NEVRA_STRICT | HY_PKG_PROVIDES | HY_PKG_RECOMMENDS | HY_PKG_RELEASE | HY_PKG_REPONAME | HY_PKG_REQUIRES
  | HY_PKG_SOURCERPM | HY_PKG_SUGGESTS | HY_PKG_SUMMARY | HY_PKG_SUPPLEMENTS | HY_PKG_OBSOLETES | HY_PKG_CONFLICTS
  | HY_PKG_URL | HY_PKG_VERSION => true
  | _ => false
  end.
Definition valid_filter_str (key : Keyname) (cmp_type : Z) : bool :=
  if negb (match_type_str key) then false
  else
    let cmp_type := Z.ldiff cmp_type HY_NOT in
    match key with
    | HY_PKG_LOCATION | HY_PKG_SOURCERPM | HY_PKG_NEVRA_STRICT => cmp_type =? HY_EQ
    | HY_PKG_ARCH => has cmp_type HY_EQ || has cmp_type HY_GLOB
    | HY_PKG_NAME => has cmp_type HY_EQ || has cmp_type HY_GLOB || has cmp_type HY_SUBSTR
    | _ => true
    end.
Definition valid_filter_num (key : Keyname) (cmp_type : Z) : bool :=
  if negb (match_type_num key) then false
  else
    let cmp_type := Z.ldiff cmp_type HY_NOT in
    if has cmp_type (Z.lor HY_ICASE (Z.lor HY_SUBSTR HY_GLOB)) then false
    else match key with HY_PKG => cmp_type =? HY_EQ | _ => true end.
Definition valid_filter_pkg (key : Keyname) (cmp_type : Z) : bool :=
  if negb (match_type_pkg key) && negb (match_type_reldep key) then false else (cmp_type =? HY_EQ) || (cmp_type =? HY_NEQ).
Definition valid_filter_reldep (key : Keyname) : bool := match_type_reldep key.

(** ** Filters and queries *)

(** A null string, or a failing assertion or an access outside of a map. *)
Inductive failure := NullMatch | Crash.
#[global] Instance failure_eq_dec : EqDecision failure.
Proof. solve_decision. Defined.

(** The matches of a filter, by their type. *)
Inductive Match := MNum (l : list Z) | MPkg (pset : Map) | MReldep (l : list Z) | MStr (l : list cstr).
Record Filter := mkFilter { keyname : Keyname; cmpType : Z; matches : Match }.

(** One slash at the end of a file name is dropped. *)
Definition copyFilterChar (match_ : option cstr) (key : Keyname) : result failure cstr :=
  match match_ with
  | None => Err NullMatch
  | Some s =>
      let s := c_str s in
      let len := length s in
      if bool_decide (key = HY_PKG_FILE) && (1 <? Z.of_nat len) && bool_decide (s !! (len - 1)%nat = Some "/"%char)
      then Ok (take (len - 1) s) else Ok s
  end.
Fixpoint copyFilterChars (l : list cstr) (key : Keyname) : result failure (list cstr) :=
  match l with
  | [] => Ok []
  | s :: l => let* s := copyFilterChar (Some s) key in let* l := copyFilterChars l key in Ok (s :: l)
  end.

Record Query := mkQuery {
  applied : bool;
  flags : ExcludeFlags;
  result_map : option Map;
  filters : list Filter;
  considered_cached : option Map;
}.
Implicit Types (q : Query) (f : Filter) (key : Keyname).
Definition new_query (fl : ExcludeFlags) : Query := mkQuery false fl None [] None.
(** The copy constructor: the map of considered packages is not copied. *)
Definition copy_query q : Query := mkQuery (applied q) (flags q) (result_map q) (filters q) None.
(** The assignment keeps the map of the target. *)
Definition assign_query (target q : Query) : Query := mkQuery (applied q) (flags q) (result_map q) (filters q) (considered_cached target).
Definition clear q : Query := mkQuery false (flags q) None [] (considered_cached q).
Definition set_applied (b : bool) q : Query := mkQuery b (flags q) (result_map q) (filters q) (considered_cached q).
Definition set_result (m : Map) q : Query := mkQuery (applied q) (flags q) (Some m) (filters q) (considered_cached q).
Definition push_filter f q : Query := mkQuery (applied q) (flags q) (result_map q) (filters q ++ [f]) (considered_cached q).

Inductive ret := Done | DNF_ERROR_BAD_QUERY.
#[global] Instance ret_eq_dec : EqDecision ret.
Proof. solve_decision. Defined.

Definition addFilter_num key (cmp_type : Z) (nums : list Z) q : Query * ret :=
  if negb (valid_filter_num key cmp_type) then (q, DNF_ERROR_BAD_QUERY)
  else (push_filter (mkFilter key cmp_type (MNum nums)) (set_applied false q), Done).
Definition addFilter_pset key (cmp_type : Z) (pset : Map) q : Query * ret :=
  if negb (valid_filter_pkg key cmp_type) then (q, DNF_ERROR_BAD_QUERY)
  else (push_filter (mkFilter key cmp_type (MPkg pset)) (set_applied false q), Done).
Definition addFilter_reldep key (reldep : Z) q : Query * ret :=
  if negb (valid_filter_reldep key) then (q, DNF_ERROR_BAD_QUERY)
  else (push_filter (mkFilter key HY_EQ (MReldep [reldep])) (set_applied false q), Done).
Definition addFilter_reldeps key (reldeplist : list Z) q : Query * ret :=
  if negb (valid_filter_reldep key) then (q, DNF_ERROR_BAD_QUERY)
  else
    (push_filter (match reldeplist with [] => mkFilter HY_PKG_EMPTY HY_EQ (MNum [1]) | _ => mkFilter key HY_EQ (MReldep reldeplist) end)
       (set_applied false q), Done).

Section query.
Context {HP : Reldep.Pool} {HL : LibsolvPool} {HS : Libsolv} {HG : LibsolvGrow} {HR : ProvidesReady}.
Context {HU : LibsolvUpdates} {HA : Advisories} {HQ : PackageSets}.
Implicit Types (pl : Reldep.pool) (m res : Map) (p : Z) (s : DnfSack).

(** [Dependency] and [DependencyContainer]: parsing interns in the pool of the sack. *)
Class Dependencies := {
  new_dependency : option cstr -> DnfSack -> DnfSack * option Z;
  addReldep : cstr -> list Z -> DnfSack -> DnfSack * list Z;
  addReldepWithGlob : cstr -> list Z -> DnfSack -> DnfSack * (list Z * bool);
}.
(** The filters without a definition: the sack, the result so far, and the map to fill. *)
Class MissingFilters := {
  missing_filter : ExcludeFlags -> Filter -> Map -> Map -> DnfSack -> DnfSack * Map;
  filterNevraStrict : Z -> list cstr -> Map -> DnfSack -> DnfSack * Map;
  (** [getModuleContainer]: which streams of modules are enabled. *)
  module_container : DnfSack -> option (cstr -> cstr -> bool);
}.
Context {HD : Dependencies} {HM : MissingFilters}.

(** Setting and testing a bit of a map without looking at its size. *)
Definition set_at p m : result failure Map := if bool_decide (0 <= p < bits m) then Ok (MAPSET m p) else Err Crash.
Definition test_at p m : result failure bool := if bool_decide (0 <= p < bits m) then Ok (MAPTST m p) else Err Crash.
Definition set_if (b : bool) p m : result failure Map := if b then set_at p m else Ok m.
Fixpoint each_package (body : Z -> Map -> result failure Map) (l : list Z) m : result failure Map :=
  match l with [] => Ok m | p :: l => let* m := body p m in each_package body l m end.

Definition name_of pl p : Z := s_name (pool_id2solvable pl p).
Definition arch_of pl p : Z := s_arch (pool_id2solvable pl p).
Definition evr_of pl p : Z := s_evr (pool_id2solvable pl p).
Definition priority_of pl p : Z := match s_repo (pool_id2solvable pl p) with Some r => priority pl r | None => 0 end.
Definition is_installed pl p : bool := bool_decide (s_repo (pool_id2solvable pl p) = installed pl).

(** ** What a package upgrades or downgrades ([hy-iutil.cpp]) *)

(** The loop over the providers of the name: [counts] are the packages to
    compare with, [blocks] those that end it, [better] the ones to prefer. *)
Fixpoint updown_loop (counts : Z -> bool) (blocks : Z -> bool) (better : Z -> Z -> bool) (l : list Z) (best : Z) : Z :=
  match l with
  | [] => best
  | p :: l =>
      if negb (counts p) then updown_loop counts blocks better l best
      else if blocks p then 0
      else if (best =? 0) || better p best then updown_loop counts blocks better l p
      else updown_loop counts blocks better l best
  end.
Definition upgrade_counts pl p u : bool :=
  is_installed pl u && (name_of pl u =? name_of pl p)
  && ((arch_of pl u =? arch_of pl p) || (arch_of pl u =? ARCH_NOARCH) || (arch_of pl p =? ARCH_NOARCH)).
Definition what_upgrades pl p : Z :=
  updown_loop (upgrade_counts pl p) (fun u => 0 <=? pool_evrcmp pl (evr_of pl u) (evr_of pl p))
    (fun u best => 0 <? pool_evrcmp pl (evr_of pl u) (evr_of pl best)) (provides pl (name_of pl p)) 0.
Definition downgrade_counts pl p u : bool :=
  is_installed pl u && (name_of pl u =? name_of pl p) && (arch_of pl u =? arch_of pl p).
Definition what_downgrades pl p : Z :=
  updown_loop (downgrade_counts pl p) (fun u => pool_evrcmp pl (evr_of pl u) (evr_of pl p) <=? 0)
    (fun u best => pool_evrcmp pl (evr_of pl u) (evr_of pl best) <? 0) (provides pl (name_of pl p)) 0.

(** ** Packages of the same name *)

Definition filter_latest_sortcmp pl (a b : Z) : Z :=
  let r := name_of pl a - name_of pl b in
  if negb (r =? 0) then r
  else let r := pool_evrcmp pl (evr_of pl b) (evr_of pl a) in if negb (r =? 0) then r else a - b.
Definition filter_latest_sortcmp_byarch pl (a b : Z) : Z :=
  let r := name_of pl a - name_of pl b in
  if negb (r =? 0) then r
  else
    let r := arch_of pl a - arch_of pl b in
    if negb (r =? 0) then r
    else let r := pool_evrcmp pl (evr_of pl b) (evr_of pl a) in if negb (r =? 0) then r else a - b.

(** The loop that cuts a sorted queue into blocks: [highest] and [start_block]
    are set together. [last] is called for the last block, [add] for the others. *)
Fixpoint block_loop (starts : Z -> Z -> bool) (add last : nat -> nat -> Map -> result failure Map)
    (l : list Z) (i : nat) (block : option (Z * nat)) m : result failure Map :=
  match l with
  | [] => match block with Some (_, start_block) => last start_block i m | None => Ok m end
  | considered :: l =>
      match block with
      | None => block_loop starts add last l (S i) (Some (considered, i)) m
      | Some (highest, start_block) =>
          if starts highest considered
          then let* m := add start_block i m in block_loop starts add last l (S i) (Some (considered, i)) m
          else block_loop starts add last l (S i) block m
      end
  end.

Fixpoint add_latest_loop pl (latest : Z) (l : list Z) (id_previous_evr version_counter : Z) m : result failure Map :=
  match l with
  | [] => Ok m
  | id_element :: l =>
      let id_current_evr := evr_of pl id_element in
      let version_counter := if id_previous_evr =? id_current_evr then version_counter else version_counter + 1 in
      if 0 <? latest then
        if negb (version_counter <? latest) then Ok m
        else let* m := set_at id_element m in add_latest_loop pl latest l id_current_evr version_counter m
      else if version_counter <? - latest then add_latest_loop pl latest l id_current_evr version_counter m
      else let* m := set_at id_element m in add_latest_loop pl latest l id_current_evr version_counter m
  end.
Definition block_of (samename : list Z) (start_block stop_block : nat) : list Z := take (stop_block - start_block) (drop start_block samename).
Definition add_latest_to_map pl (samename : list Z) (latest : Z) (start_block stop_block : nat) m : result failure Map :=
  match block_of samename start_block stop_block with
  | [] => Ok m
  | (p :: _) as l => add_latest_loop pl latest l (evr_of pl p) 0 m
  end.
Definition latest_starts pl key (highest considered : Z) : bool :=
  negb (name_of pl highest =? name_of pl considered)
  || bool_decide (key = HY_PKG_LATEST_PER_ARCH) && negb (arch_of pl highest =? arch_of pl considered).
Definition latest_step pl key res (latest : Z) m : result failure Map :=
  if latest =? 0 then Ok m
  else
    let samename := solv_sort (if bool_decide (key = HY_PKG_LATEST_PER_ARCH) then filter_latest_sortcmp_byarch pl else filter_latest_sortcmp pl)
                      (pset_ids res) in
    block_loop (latest_starts pl key) (add_latest_to_map pl samename latest) (add_latest_to_map pl samename latest) samename 0 None m.
(** The numbers that a filter matches. *)
Definition nums f : list Z := match matches f with MNum l => l | _ => [] end.
Definition strs f : list cstr := match matches f with MStr l => l | _ => [] end.
Definition filterLatest pl f res m : result failure Map := each_package (latest_step pl (keyname f) res) (nums f) m.

Definition same_evr_other_arch pl (a b : Z) : bool := (evr_of pl a =? evr_of pl b) && negb (arch_of pl a =? arch_of pl b).
Fixpoint add_duplicates_loop pl (l : list Z) m : result failure Map :=
  match l with
  | [] => Ok m
  | id_first :: l =>
      let* m := each_package (fun id_second m =>
                  if same_evr_other_arch pl id_first id_second then Ok m else let* m := set_at id_first m in set_at id_second m) l m in
      add_duplicates_loop pl l m
  end.
Definition add_duplicates_to_map pl (samename : list Z) (start_block stop_block : nat) m : result failure Map :=
  add_duplicates_loop pl (block_of samename start_block stop_block) m.

(** ** Filters *)

Definition filterPkg f m : result failure Map := match matches f with MPkg pset => Ok pset | _ => Err Crash end.

(** One dependency that a candidate obsoletes: whether a package of the target provides it and counts. *)
Fixpoint obsoletes_one pl (obsprovides : bool) (r_id : Z) (l : list Z) (target : Map) : result failure bool :=
  match l with
  | [] => Ok false
  | r :: l =>
      let* t := test_at r target in
      if negb t then obsoletes_one pl obsprovides r_id l target
      else if r =? 1 then Err Crash
      else if negb obsprovides && negb (pool_match_nevr pl r r_id) then obsoletes_one pl obsprovides r_id l target
      else Ok true
  end.
Definition obsoletesByPriority pl (candidate : Z) (target : Map) m : result failure Map :=
  match s_repo (pool_id2solvable pl candidate) with
  | None => Ok m
  | Some _ =>
      each_package (fun r_id m => let* b := obsoletes_one pl (obsoleteusesprovides pl) r_id (provides pl r_id) target in set_if b candidate m)
        (s_obsoletes (pool_id2solvable pl candidate)) m
  end.
Definition NamePrioritySolvableKey pl (first second : Z) : bool :=
  if negb (name_of pl first =? name_of pl second) then name_of pl first <? name_of pl second
  else priority_of pl second <? priority_of pl first.
(** The order that [std::sort] makes of it. *)
Definition name_priority_le pl (a b : Z) : Prop := NamePrioritySolvableKey pl b a = false.
#[global] Instance name_priority_le_dec pl : RelDecision (name_priority_le pl).
Proof. intros a b. unfold name_priority_le. apply _. Defined.
Fixpoint obsoletes_priority_loop pl (target : Map) (l : list Z) (name prio : Z) m : result failure Map :=
  match l with
  | [] => Ok m
  | candidate :: l =>
      let* m := if is_installed pl candidate then obsoletesByPriority pl candidate target m else Ok m in
      if negb (name =? name_of pl candidate) then
        let* m := obsoletesByPriority pl candidate target m in
        obsoletes_priority_loop pl target l (name_of pl candidate) (priority_of pl candidate) m
      else if prio =? priority_of pl candidate then
        let* m := obsoletesByPriority pl candidate target m in obsoletes_priority_loop pl target l name prio m
      else obsoletes_priority_loop pl target l name prio m
  end.
Definition filterObsoletesByPriority s f res m : result failure (DnfSack * Map) :=
  match matches f with
  | MPkg target =>
      let s := make_provides_ready s in
      let* m := obsoletes_priority_loop (pool s) target (merge_sort (name_priority_le (pool s)) (pset_ids res)) 0 0 m in
      Ok (s, m)
  | _ => Err Crash
  end.

Definition filterLocation pl f res m : result failure Map :=
  (fix each_match (l : list cstr) m :=
     match l with
     | [] => Ok m
     | match_ :: l =>
         let* m := each_package (fun p m => set_if (match solvable_get_location pl p with Some loc => bool_decide (match_ = loc) | None => false end) p m)
                     (pset_ids res) m in
         each_match l m
     end) (strs f) m.

(** Each number that is not 0 runs the filter. *)
Definition each_num (body : Map -> result failure Map) f m : result failure Map :=
  each_package (fun n m => if n =? 0 then Ok m else body m) (nums f) m.
Definition filterUpdown s f res m : result failure (DnfSack * Map) :=
  let s := make_provides_ready s in
  let pl := pool s in
  match installed pl with
  | None => Ok (s, m)
  | Some _ =>
      let* m := each_num (each_package (fun p m =>
                  if is_installed pl p then Ok m
                  else set_if (0 <? (if bool_decide (keyname f = HY_PKG_DOWNGRADES) then what_downgrades pl p else what_upgrades pl p)) p m)
                  (pset_ids res)) f m in
      Ok (s, m)
  end.
Fixpoint updown_priority_loop pl (l : list Z) (name prio : Z) m : result failure Map :=
  match l with
  | [] => Ok m
  | candidate :: l =>
      if negb (name =? name_of pl candidate) then
        let* m := set_if (0 <? what_upgrades pl candidate) candidate m in
        updown_priority_loop pl l (name_of pl candidate) (priority_of pl candidate) m
      else if prio =? priority_of pl candidate then
        let* m := set_if (0 <? what_upgrades pl candidate) candidate m in updown_priority_loop pl l name prio m
      else updown_priority_loop pl l name prio m
  end.
Definition filterUpdownByPriority s f res m : result failure (DnfSack * Map) :=
  let s := make_provides_ready s in
  let pl := pool s in
  match installed pl with
  | None => Ok (s, m)
  | Some _ =>
      let* m := each_num (fun m =>
                  updown_priority_loop pl
                    (merge_sort (name_priority_le pl) (List.filter (fun p => negb (is_installed pl p)) (pset_ids res))) 0 0 m) f m in
      Ok (s, m)
  end.
(** The packages that can be upgraded or downgraded, by one that is considered. *)
Definition filterUpdownAble s q f res m : result failure (DnfSack * Map) :=
  let s := make_provides_ready s in
  let pl := pool s in
  match installed pl with
  | None => Ok (s, m)
  | Some _ =>
      let allowed := if negb (ignore_modular (flags q)) && negb (ignore_regular (flags q)) then considered s else considered_cached q in
      let* m := each_num (each_package (fun p m =>
                  let* ok := match allowed with Some c => test_at p c | None => Ok true end in
                  if negb ok then Ok m
                  else if is_installed pl p then Ok m
                  else
                    let what := if bool_decide (keyname f = HY_PKG_DOWNGRADABLE) then what_downgrades pl p else what_upgrades pl p in
                    if what =? 0 then Ok m
                    else let* b := test_at what res in set_if b what m)
                  (packages pl)) f m in
      Ok (s, m)
  end.

(** ** Advisories ([sack/advisory.cpp], [isAdvisoryApplicable] of [utils/utils.cpp]) *)

Fixpoint match_reference (refs : list (option cstr * option cstr)) (type what : cstr) : result failure bool :=
  match refs with
  | [] => Ok false
  | (None, _) :: _ => Err Crash
  | (Some t, id) :: refs =>
      if bool_decide (t = type) then
        match id with
        | None => Err Crash
        | Some i => if bool_decide (i = what) then Ok true else match_reference refs type what
        end
      else match_reference refs type what
  end.
Definition matchBugOrCVE (a : AdvisoryData) (what : cstr) (matchBug : bool) : result failure bool :=
  match_reference (adv_references a) (if matchBug then lit "bugzilla" else lit "cve") what.
(** The name without the prefix of advisories, which it must have. *)
Definition advisory_name (a : AdvisoryData) : result failure cstr :=
  if starts_with (adv_name a) (lit "patch:") then Ok (drop 6 (adv_name a)) else Err Crash.
Inductive AdvisoryKind := KIND_UNKNOWN | KIND_SECURITY | KIND_BUGFIX | KIND_ENHANCEMENT | KIND_NEWPACKAGE.
#[global] Instance kind_eq_dec : EqDecision AdvisoryKind.
Proof. solve_decision. Defined.
Definition str2dnf_advisory_kind (str : option cstr) : AdvisoryKind :=
  match str with
  | None => KIND_UNKNOWN
  | Some t =>
      if bool_decide (t = lit "bugfix") then KIND_BUGFIX
      else if bool_decide (t = lit "enhancement") then KIND_ENHANCEMENT
      else if bool_decide (t = lit "security") then KIND_SECURITY
      else if bool_decide (t = lit "newpackage") then KIND_NEWPACKAGE
      else KIND_UNKNOWN
  end.
Definition getKind (a : AdvisoryData) : AdvisoryKind := str2dnf_advisory_kind (adv_category a).
Definition matchName (a : AdvisoryData) (name : cstr) : result failure bool := let* n := advisory_name a in Ok (bool_decide (n = name)).
Definition matchBug (a : AdvisoryData) (bug : cstr) : result failure bool := matchBugOrCVE a bug true.
Definition matchCVE (a : AdvisoryData) (cve : cstr) : result failure bool := matchBugOrCVE a cve false.
Definition matchKind (a : AdvisoryData) (kind : cstr) : bool := bool_decide (adv_category a = Some kind).
Definition matchSeverity (a : AdvisoryData) (severity : cstr) : bool := bool_decide (adv_severity a = Some severity).

Record AdvisoryPkg := mkAdvisoryPkg { ap_advisory : Z; ap_name : Z; ap_evr : Z; ap_arch : Z; ap_filename : option cstr }.
Definition nevraEQ (a b : AdvisoryPkg) : bool := (ap_name b =? ap_name a) && (ap_evr b =? ap_evr a) && (ap_arch b =? ap_arch a).
Definition nevraEQ_solvable pl (a : AdvisoryPkg) p : bool := (name_of pl p =? ap_name a) && (evr_of pl p =? ap_evr a) && (arch_of pl p =? ap_arch a).
Definition getPackages pl (advisory : Z) (withFilenames : bool) : list AdvisoryPkg :=
  map (fun x => let '(name, evr, arch, file) := x in mkAdvisoryPkg advisory name evr arch (if withFilenames then file else None))
    (adv_packages (advisory_data pl advisory)).
Definition isAdvisoryApplicable s (advisory : Z) : bool :=
  match module_container s with
  | None => true
  | Some isEnabled =>
      match adv_modules (advisory_data (pool s) advisory) with
      | [] => true
      | l => existsb (fun '(name, stream) => isEnabled (pool_id2str (pool s) name) (pool_id2str (pool s) stream)) l
      end
  end.

Definition advisoryPkgSort (first second : AdvisoryPkg) : bool :=
  if negb (ap_name first =? ap_name second) then ap_name first <? ap_name second
  else if negb (ap_arch first =? ap_arch second) then ap_arch first <? ap_arch second
  else ap_evr first <? ap_evr second.
Definition advisory_le (a b : AdvisoryPkg) : Prop := advisoryPkgSort b a = false.
#[global] Instance advisory_le_dec : RelDecision advisory_le.
Proof. intros a b. unfold advisory_le. apply _. Defined.
Definition advisoryPkgCompareSolvable pl p (first : AdvisoryPkg) : bool :=
  if negb (ap_name first =? name_of pl p) then ap_name first <? name_of pl p
  else if negb (ap_arch first =? arch_of pl p) then ap_arch first <? arch_of pl p
  else ap_evr first <? evr_of pl p.
Definition advisoryPkgCompareSolvableNameArch pl p (first : AdvisoryPkg) : bool :=
  if negb (ap_name first =? name_of pl p) then ap_name first <? name_of pl p else ap_arch first <? arch_of pl p.

Definition advisory_test key (a : AdvisoryData) (match_ : cstr) : result failure bool :=
  match key with
  | HY_PKG_ADVISORY => matchName a match_
  | HY_PKG_ADVISORY_BUG => matchBug a match_
  | HY_PKG_ADVISORY_CVE => matchCVE a match_
  | HY_PKG_ADVISORY_TYPE => Ok (matchKind a match_)
  | HY_PKG_ADVISORY_SEVERITY => Ok (matchSeverity a match_)
  | _ => Ok false
  end.
Fixpoint any_match key (a : AdvisoryData) (l : list cstr) : result failure bool :=
  match l with
  | [] => Ok false
  | match_ :: l => let* eq := advisory_test key a match_ in if (eq : bool) then Ok true else any_match key a l
  end.
Fixpoint advisory_pkgs s key (l : list cstr) (advs : list Z) : result failure (list AdvisoryPkg) :=
  match advs with
  | [] => Ok []
  | a :: advs =>
      let* b := any_match key (advisory_data (pool s) a) l in
      let* pkgs := advisory_pkgs s key l advs in
      Ok ((if b && isAdvisoryApplicable s a then getPackages (pool s) a false else []) ++ pkgs)
  end.
Definition cmp_selected (cmp_type cmp : Z) : bool :=
  (0 <? cmp) && has cmp_type HY_GT || (cmp <? 0) && has cmp_type HY_LT || (cmp =? 0) && has cmp_type HY_EQ.
Definition same_name_arch pl p (a : AdvisoryPkg) : bool := (ap_name a =? name_of pl p) && (ap_arch a =? arch_of pl p).
Definition advisory_hit pl (cmp_type : Z) (pkgs : list AdvisoryPkg) p : bool :=
  if cmp_type =? HY_EQ then
    match pkgs !! lower_bound (advisoryPkgCompareSolvable pl p) pkgs with
    | Some low => nevraEQ_solvable pl low p
    | None => false
    end
  else existsb (fun a => cmp_selected cmp_type (pool_evrcmp pl (evr_of pl p) (ap_evr a)))
         (equal_range (advisoryPkgCompareSolvableNameArch pl p) (same_name_arch pl p) pkgs).
Definition filterAdvisory s f res m : result failure Map :=
  let* pkgs := advisory_pkgs s (keyname f) (strs f) (advisories (pool s)) in
  let pkgs := merge_sort advisory_le pkgs in
  match pkgs with
  | [] => Ok m
  | _ => each_package (fun p m => set_if (advisory_hit (pool s) (cmpType f) pkgs p) p m) (pset_ids res) m
  end.

(** ** Applying *)

Definition in_sack s (r : result failure Map) : result failure (DnfSack * Map) := let* m := r in Ok (s, m).
Definition run_filter s q f res m : result failure (DnfSack * Map) :=
  match keyname f with
  | HY_PKG => in_sack s (filterPkg f m)
  | HY_PKG_ALL | HY_PKG_EMPTY => Ok (s, m)
  | HY_PKG_OBSOLETES => match matches f with MReldep _ | MPkg _ => Ok (missing_filter (flags q) f res m s) | _ => Err Crash end
  | HY_PKG_OBSOLETES_BY_PRIORITY => filterObsoletesByPriority s f res m
  | HY_PKG_PROVIDES => match matches f with MReldep _ => Ok (missing_filter (flags q) f res m s) | _ => Err Crash end
  | HY_PKG_LOCATION => in_sack s (filterLocation (pool s) f res m)
  | HY_PKG_ADVISORY | HY_PKG_ADVISORY_BUG | HY_PKG_ADVISORY_CVE | HY_PKG_ADVISORY_SEVERITY | HY_PKG_ADVISORY_TYPE =>
      in_sack s (filterAdvisory s f res m)
  | HY_PKG_LATEST | HY_PKG_LATEST_PER_ARCH => in_sack s (filterLatest (pool s) f res m)
  | HY_PKG_DOWNGRADABLE | HY_PKG_UPGRADABLE => filterUpdownAble s q f res m
  | HY_PKG_DOWNGRADES | HY_PKG_UPGRADES => filterUpdown s f res m
  | HY_PKG_UPGRADES_BY_PRIORITY => filterUpdownByPriority s f res m
  | _ => Ok (missing_filter (flags q) f res m s)
  end.
Fixpoint apply_filters s q (l : list Filter) m res : result failure (DnfSack * Map) :=
  match l with
  | [] => Ok (s, res)
  | f :: l =>
      let* sm := run_filter s q f res (map_empty m) in
      let '(s, m) := sm in
      apply_filters s q l m (if has (cmpType f) HY_NOT then map_subtract res m else map_and res m)
  end.
Definition apply s q : result failure (DnfSack * Query) :=
  if applied q then Ok (s, q)
  else
    let '(s, res, cached) := match result_map q with
                             | Some m => (s, m, considered_cached q)
                             | None => initResult (flags q) (considered_cached q) s
                             end in
    let q := mkQuery false (flags q) (Some res) (filters q) cached in
    let m := map_init (nsolvables (pool s)) in
    if negb (length m =? length res)%nat then Err Crash
    else
      let* sr := apply_filters s q (filters q) m res in
      let '(s, res) := sr in
      Ok (s, mkQuery true (flags q) (Some res) [] cached).

(** ** Filters by texts *)

Definition is_reldep_key := match_type_reldep.
Definition without_glob (cmp_type : Z) : Z := Z.lor (Z.ldiff cmp_type HY_GLOB) HY_EQ.
Definition refused {A B : Type} (x : A) (y : B) : A * B * result failure ret := (x, y, Ok DNF_ERROR_BAD_QUERY).
Definition done {A : Type} (s : A) (qr : Query * ret) : A * Query * result failure ret := let '(q, r) := qr in (s, q, Ok r).
Definition nevra_strict s q (cmp_type : Z) (l : list cstr) : DnfSack * Query * result failure ret :=
  if negb (has cmp_type HY_EQ) then refused s q
  else
    match apply s q with
    | Err e => (s, q, Err e)
    | Ok (s, q) =>
        match result_map q with
        | Some res => let '(s, res) := filterNevraStrict cmp_type l res s in (s, set_result res q, Ok Done)
        | None => (s, q, Err Crash)
        end
    end.
Definition addFilter_str key (cmp_type : Z) (match_ : option cstr) s q : DnfSack * Query * result failure ret :=
  if bool_decide (key = HY_PKG_NEVRA_STRICT) then nevra_strict s q cmp_type (match match_ with Some t => [t] | None => [] end)
  else if has cmp_type HY_GLOB && bool_decide (match_ = None) then (s, q, Err Crash)
  else
    let cmp_type := if has cmp_type HY_GLOB && negb (is_glob_pattern (default [] match_)) then without_glob cmp_type else cmp_type in
    if negb (valid_filter_str key cmp_type) then refused s q
    else
      let q := set_applied false q in
      if is_reldep_key key then
        if cmp_type =? HY_GLOB then
          let '(s, (l, b)) := addReldepWithGlob (default [] match_) [] s in
          if (b : bool) then done s (addFilter_reldeps key l q) else done s (addFilter_num HY_PKG_EMPTY HY_EQ [1] q)
        else
          match new_dependency match_ s with
          | (s, Some reldep) => done s (addFilter_reldep key reldep q)
          | (s, None) => done s (addFilter_num HY_PKG_EMPTY HY_EQ [1] q)
          end
      else
        match copyFilterChar match_ key with
        | Ok t => (s, push_filter (mkFilter key cmp_type (MStr [t])) q, Ok Done)
        | Err e => (s, q, Err e)
        end.
Fixpoint add_reldeps (glob : bool) (l : list cstr) (reldeps : list Z) s : DnfSack * list Z :=
  match l with
  | [] => (s, reldeps)
  | t :: l =>
      let '(s, reldeps) := if glob then let '(s, (reldeps, _)) := addReldepWithGlob t reldeps s in (s, reldeps) else addReldep t reldeps s in
      add_reldeps glob l reldeps s
  end.
Definition addFilter_strs key (cmp_type : Z) (l : list cstr) s q : DnfSack * Query * result failure ret :=
  if bool_decide (key = HY_PKG_NEVRA_STRICT) then nevra_strict s q cmp_type l
  else
    let cmp_type := if has cmp_type HY_GLOB && negb (existsb is_glob_pattern l) then without_glob cmp_type else cmp_type in
    if negb (valid_filter_str key cmp_type) then refused s q
    else
      let q := set_applied false q in
      if is_reldep_key key then
        let '(s, reldeps) := add_reldeps (cmp_type =? HY_GLOB) l [] s in done s (addFilter_reldeps key reldeps q)
      else
        match copyFilterChars l key with
        | Ok l => (s, push_filter (mkFilter key cmp_type (MStr l)) q, Ok Done)
        | Err e => (s, q, Err e)
        end.

(** ** Results and operations on whole queries *)

(** What a caller gets of the result once it is there; the result cannot be missing then. *)
Definition with_result {A : Type} s q (k : DnfSack -> Query -> Map -> A) : result failure A :=
  let* sq := apply s q in
  let '(s, q) := sq in
  match result_map q with Some res => Ok (k s q res) | None => Err Crash end.
Definition run_set s q : result failure (DnfSack * Query * list Z) := with_result s q (fun s q res => (s, q, pset_ids res)).
Definition size s q : result failure (DnfSack * Query * Z) := with_result s q (fun s q res => (s, q, Z.of_nat (length (pset_ids res)))).
Definition query_empty s q : result failure (DnfSack * Query * bool) := with_result s q (fun s q res => (s, q, bool_decide (pset_ids res = []))).
Definition getIndexItem (index : Z) s q : result failure (DnfSack * Query * Z) := with_result s q (fun s q res => (s, q, pset_at res index)).
Definition combine_results (op : Map -> Map -> Map) s q other : result failure (DnfSack * Query * Query) :=
  let* x := with_result s q (fun s q res => (s, q, res)) in
  let '(s, q, res) := x in
  with_result s other (fun s other res' => (s, set_result (op res res') q, other)).
Definition queryUnion := combine_results pset_add.
Definition queryIntersection := combine_results pset_and.
Definition queryDifference := combine_results pset_sub.

Definition HY_SYSTEM_REPO_NAME : cstr := lit "@System".
(** [addFilter] with the name of a repository, which cannot fail. *)
Definition of_repo (cmp_type : Z) s q : DnfSack * Query := let '(s, q, _) := addFilter_str HY_PKG_REPONAME cmp_type (Some HY_SYSTEM_REPO_NAME) s q in (s, q).

Definition NameArchSolvableComparator pl (first second : Z) : bool :=
  if negb (name_of pl first =? name_of pl second) then name_of pl first <? name_of pl second else arch_of pl first <? arch_of pl second.
Definition name_arch_le pl (a b : Z) : Prop := NameArchSolvableComparator pl b a = false.
#[global] Instance name_arch_le_dec pl : RelDecision (name_arch_le pl).
Proof. intros a b. unfold name_arch_le. apply _. Defined.
Definition has_available pl (namesArch : list Z) p : bool :=
  match namesArch !! lower_bound (fun x => NameArchSolvableComparator pl x p) namesArch with
  | Some low => (name_of pl low =? name_of pl p) && (arch_of pl low =? arch_of pl p)
  | None => false
  end.
Definition filterExtras s q : result failure (DnfSack * Query) :=
  let* x := with_result s q (fun s q res => (s, q, res)) in
  let '(s, q, res) := x in
  let '(s, query_installed) := of_repo HY_EQ s (copy_query q) in
  let* x := run_set s query_installed in
  let '(s, _, ids_installed) := x in
  let res := map_empty res in
  match ids_installed with
  | [] => Ok (s, set_result res q)
  | _ =>
      let '(s, query_available) := of_repo HY_NEQ s (new_query IGNORE_REGULAR_EXCLUDES) in
      let* x := run_set s query_available in
      let '(s, _, ids_available) := x in
      let pl := pool s in
      let namesArch := merge_sort (name_arch_le pl) ids_available in
      let* res := each_package (fun p m => set_if (negb (has_available pl namesArch p)) p m) ids_installed res in
      Ok (s, set_result res q)
  end.

Definition filterRecent (recent_limit : Z) s q : result failure (DnfSack * Query) :=
  with_result s q (fun s q res =>
    (s, set_result (fold_left (fun m p => if solvable_buildtime (pool s) p <=? recent_limit then MAPCLR m p else m) (pset_ids res) res) q)).

(** [MAPTST] of every id from 1 on. *)
Fixpoint tested (l : list Z) m : result failure (list Z) :=
  match l with
  | [] => Ok []
  | p :: l => let* b := test_at p m in let* l := tested l m in Ok (if b then p :: l else l)
  end.
Definition to_queue pl res : result failure (list Z) := tested (seqZ 1 (nsolvables pl - 1)) res.
Definition hy_query_to_name_ordered_queue s q : result failure (DnfSack * Query * list Z) :=
  let* x := with_result s q (fun s q res => (s, q, res)) in
  let '(s, q, res) := x in
  let* l := to_queue (pool s) res in
  Ok (s, q, solv_sort (filter_latest_sortcmp (pool s)) l).
Definition hy_query_to_name_arch_ordered_queue s q : result failure (DnfSack * Query * list Z) :=
  let* x := with_result s q (fun s q res => (s, q, res)) in
  let '(s, q, res) := x in
  let* l := to_queue (pool s) res in
  Ok (s, q, solv_sort (filter_latest_sortcmp_byarch (pool s)) l).

Definition filterDuplicated s q : result failure (DnfSack * Query) :=
  let '(s, q) := of_repo HY_EQ s q in
  let* x := hy_query_to_name_ordered_queue s q in
  let '(s, q, samename) := x in
  match result_map q with
  | None => Err Crash
  | Some res =>
      let pl := pool s in
      let* res := block_loop (fun highest considered => negb (name_of pl highest =? name_of pl considered))
                    (fun start_block i m => if (start_block =? i - 1)%nat then Ok m else add_duplicates_to_map pl samename start_block i m)
                    (add_duplicates_to_map pl samename) samename 0 None (map_empty res) in
      Ok (s, set_result res q)
  end.

Definition getAdvisoryPkgs (cmp_type : Z) s q : result failure (DnfSack * Query * list AdvisoryPkg) :=
  with_result s q (fun s q res =>
    let pl := pool s in
    let pkgs := merge_sort advisory_le
                  (flat_map (fun a => if isAdvisoryApplicable s a then getPackages pl a true else []) (advisories pl)) in
    (s, q, flat_map (fun p => List.filter (fun a => cmp_selected cmp_type (pool_evrcmp pl (ap_evr a) (evr_of pl p)))
                       (equal_range (advisoryPkgCompareSolvableNameArch pl p) (same_name_arch pl p) pkgs)) (pset_ids res))).

(** The text in the parentheses of a provide of the given name. *)
Definition provide_string (pattern name : cstr) : option cstr :=
  let n := length pattern in
  let len := length name in
  if (n + 2 <? len)%nat && starts_with name pattern && bool_decide (name !! n = Some "("%char) && bool_decide (name !! (len - 1)%nat = Some ")"%char)
  then Some (take (len - n - 2) (drop (S n) name)) else None.
Definition getStringsFromProvide (pattern : cstr) s q : result failure (DnfSack * Query * gset cstr) :=
  with_result s q (fun s q res =>
    (s, q, list_to_set (flat_map (fun p => flat_map (fun name => match provide_string pattern name with Some t => [t] | None => [] end)
                                   (provide_names (pool s) p)) (pset_ids res)))).
End query.
End DnfQuery.
