(* ===== verification/DnfLatest.v ===== *)
(** * DnfLatest: the latest packages, duplicates, upgrades (theorems on [DnfQuery])

    A sorted queue is cut into blocks of packages of the same name; in a block the
    versions are counted. What comes out is stated without order and blocks. *)

From S2P Require Import Prelude Sack Solv Regex Specs Packages DnfSack DnfQuery.
From stdpp Require Import sorting.
Local Open Scope Z_scope.

Module DnfLatest.
Import QueryCmp Matches Packages DnfSack DnfQuery.

(** ** Blocks of a list *)

Section blocks.
Context {K : Type} `{EqDecision K} (key : Z -> K).
Definition same_key (x y : Z) : bool := bool_decide (key x = key y).

Fixpoint blocks_from (highest : Z) (cur l : list Z) : list (list Z) :=
  match l with
  | [] => [cur]
  | x :: l => if negb (same_key highest x) then cur :: blocks_from x [x] l else blocks_from highest (cur ++ [x]) l
  end.
(** Equal keys are next to each other. *)
Definition convex (l : list Z) : Prop := forall a x b y c z d, l = a ++ x :: b ++ y :: c ++ z :: d -> key x = key z -> key x = key y.
Lemma sorted_convex (R : Z -> Z -> Prop) l : StronglySorted R l ->
  (forall x y z, R x y -> R y z -> key x = key z -> key x = key y) -> convex l.
Proof.
  intros Hs HR a x b y c z d -> E. apply StronglySorted_app in Hs as (_ & _ & Hs). apply StronglySorted_inv in Hs as [Hs Hx].
  apply StronglySorted_app in Hs as (_ & _ & Hs). apply StronglySorted_inv in Hs as [_ Hy].
  rewrite Forall_forall in Hx, Hy. apply (HR x y z); [apply Hx|apply Hy|done]; set_solver.
Qed.
Lemma filter_key_none x l : (forall y, y ∈ l -> key y <> key x) -> List.filter (same_key x) l = [].
Proof.
  intros H. apply filter_none, Forall_forall. intros y Hy. apply bool_decide_eq_false. intros E. by apply (H y).
Qed.
Lemma filter_key_all x l : (forall y, y ∈ l -> key y = key x) -> List.filter (same_key x) l = l.
Proof. intros H. apply filter_all, Forall_forall. intros y Hy. apply bool_decide_eq_true. by rewrite (H y). Qed.
(** The blocks are the classes of the key. *)
Lemma blocks_from_spec highest cur l b : convex (cur ++ l) -> highest ∈ cur -> (forall y, y ∈ cur -> key y = key highest) ->
  b ∈ blocks_from highest cur l <-> exists x, x ∈ cur ++ l /\ b = List.filter (same_key x) (cur ++ l).
Proof.
  revert highest cur. induction l as [|x l IH]; intros h cur Hc Hh Hk; simpl.
  - rewrite app_nil_r, list_elem_of_singleton. split.
    + intros ->. exists h. split; [done|]. symmetry. by apply filter_key_all.
    + intros (x & Hx & ->). apply filter_key_all. intros y Hy. by rewrite (Hk y), (Hk x).
  - unfold same_key at 1. case_bool_decide as E; simpl.
    + assert (Ea : (cur ++ [x]) ++ l = cur ++ x :: l) by by rewrite <-app_assoc.
      rewrite IH; [by rewrite Ea|by rewrite Ea|apply elem_of_app; by left|].
      intros y [Hy|Hy%list_elem_of_singleton]%elem_of_app; [by apply Hk|by subst y].
    + assert (Hno : forall y, y ∈ x :: l -> key y <> key h).
      { intros y Hy Ey. apply elem_of_cons in Hy as [->|Hy]; [done|]. apply list_elem_of_split in Hh as (a & b1 & ->).
        apply list_elem_of_split in Hy as (c & d & ->). apply E.
        apply (Hc a h b1 x c y d); [by rewrite <-app_assoc|done]. }
      rewrite elem_of_cons, (IH x [x]); [|intros a x0 b0 y c z d El Ez; apply (Hc (cur ++ a) x0 b0 y c z d); [simpl in El; by rewrite El, <-app_assoc|done]|by apply list_elem_of_singleton|by intros y ->%list_elem_of_singleton].
      simpl. split.
      * intros [->|(y & Hy & ->)].
        -- exists h. split; [set_solver|]. rewrite List.filter_app, (filter_key_all h cur), filter_key_none, app_nil_r; done.
        -- exists y. split; [set_solver|]. rewrite List.filter_app, (filter_key_none y cur); [done|].
           intros z Hz Ez. apply (Hno y Hy). by rewrite <-Ez, Hk.
      * intros (y & Hy & ->). apply elem_of_app in Hy as [Hy|Hy].
        -- left. rewrite List.filter_app, (filter_key_all y cur), filter_key_none, app_nil_r; [done| |].
           ++ intros z Hz Ez. apply (Hno z Hz). by rewrite Ez, Hk.
           ++ intros z Hz. by rewrite (Hk z), (Hk y).
        -- right. exists y. split; [done|]. rewrite List.filter_app, (filter_key_none y cur); [done|].
           intros z Hz Ez. apply (Hno y Hy). by rewrite <-Ez, Hk.
Qed.
End blocks.

Section latest.
Context {HP : Reldep.Pool} {HL : LibsolvPool} {HS : Libsolv} {HU : LibsolvUpdates} {HQ : PackageSets}.
Context {HSL : LibsolvLaws HS} {HUL : LibsolvUpdatesLaws} {HQL : PackageSetsLaws HQ}.
Implicit Types (pl : Reldep.pool) (m res : Map) (p : Z).

(** ** Setting bits *)

(** A call that adds just the bits [f] to a map. *)
Definition adds (r : result failure Map) m (f : Z -> bool) : Prop :=
  exists m', r = Ok m' /\ bytes_ok m' /\ bits m' = bits m /\ forall k, bit m' k = bit m k || f k.
Lemma adds_none m : bytes_ok m -> adds (Ok m) m (fun _ => false).
Proof. intros Hm. exists m. split_and!; try done. intros k. by rewrite orb_false_r. Qed.
Lemma adds_ext r m f g : (forall k, f k = g k) -> adds r m f -> adds r m g.
Proof. intros E (m' & H1 & H2 & H3 & H4). exists m'. split_and!; try done. intros k. by rewrite H4, E. Qed.
Lemma adds_bind r (k : Map -> result failure Map) m f g :
  adds r m f -> (forall m', bytes_ok m' -> bits m' = bits m -> adds (k m') m' g) -> adds (result_bind r k) m (fun x => f x || g x).
Proof.
  intros (m1 & -> & B1 & B2 & B3) Hk. destruct (Hk m1 B1 B2) as (m2 & E & C1 & C2 & C3).
  exists m2. split_and!; [done|done|congruence|]. intros x. by rewrite C3, B3, orb_assoc.
Qed.
Lemma set_at_adds p m : bytes_ok m -> 0 <= p < bits m -> adds (set_at p m) m (fun k => bool_decide (k = p)).
Proof.
  intros Hm Hp. unfold set_at. rewrite bool_decide_true by done. destruct (mapset_spec m p 0 Hm Hp) as (B1 & B2 & _).
  exists (MAPSET m p). split_and!; try done. intros k. destruct (mapset_spec m p k Hm Hp) as (_ & _ & ->).
  rewrite orb_comm. f_equal. destruct (Z.eqb_spec k p); symmetry; [by apply bool_decide_eq_true|by apply bool_decide_eq_false].
Qed.
Lemma set_if_adds (b : bool) p m : bytes_ok m -> 0 <= p < bits m -> adds (set_if b p m) m (fun k => b && bool_decide (k = p)).
Proof. intros Hm Hp. destruct b; [by apply set_at_adds|by apply adds_none]. Qed.
Lemma each_adds (body : Z -> Map -> result failure Map) (f : Z -> Z -> bool) l m :
  (forall p m', p ∈ l -> bytes_ok m' -> bits m' = bits m -> adds (body p m') m' (f p)) -> bytes_ok m ->
  adds (each_package body l m) m (fun k => existsb (fun p => f p k) l).
Proof.
  revert m. induction l as [|p l IH]; intros m Hb Hm; simpl; [by apply adds_none|].
  apply adds_bind; [apply Hb; (done || by left)|]. intros m1 H1 H2. apply IH; [|done]. intros q m2 Hq H3 H4. apply Hb; [by right|done|congruence].
Qed.
(** A loop that sets each element that passes a test. *)
Lemma each_set (f : Z -> bool) l m : bytes_ok m -> (forall p, p ∈ l -> 0 <= p < bits m) ->
  adds (each_package (fun p m => set_if (f p) p m) l m) m (fun k => bool_decide (k ∈ l) && f k).
Proof.
  intros Hm Hl. eapply adds_ext; [|apply (each_adds _ (fun p k => f p && bool_decide (k = p))); [|done]].
  - intros k. simpl. apply eq_true_iff_eq. rewrite existsb_exists, andb_true_iff, bool_decide_eq_true.
    setoid_rewrite andb_true_iff. setoid_rewrite bool_decide_eq_true. setoid_rewrite <-list_elem_of_In. naive_solver.
  - intros p m' Hp Hm' E. apply set_if_adds; [done|]. rewrite E. by apply Hl.
Qed.

(** ** The loop over blocks *)

Definition one_key {K : Type} (key : Z -> K) (l : list Z) : Prop := forall x y, x ∈ l -> y ∈ l -> key x = key y.
Lemma block_loop_adds {K : Type} `{EqDecision K} (key : Z -> K) (sel : list Z -> Z -> bool) samename add last pre h cur l m :
  samename = pre ++ cur ++ l -> h ∈ cur -> one_key key cur -> bytes_ok m ->
  (forall start stop m', one_key key (block_of samename start stop) -> bytes_ok m' -> bits m' = bits m -> adds (add start stop m') m' (sel (block_of samename start stop))) ->
  (forall start stop m', one_key key (block_of samename start stop) -> bytes_ok m' -> bits m' = bits m -> adds (last start stop m') m' (sel (block_of samename start stop))) ->
  adds (block_loop (fun a b => negb (same_key key a b)) add last l (length pre + length cur) (Some (h, length pre)) m) m
    (fun k => existsb (fun b => sel b k) (blocks_from key h cur l)).
Proof.
  revert pre h cur m. induction l as [|x l IH]; intros pre h cur m Hs Hh Hk Hm Ha Hl; simpl.
  - assert (Eb : block_of samename (length pre) (length pre + length cur) = cur).
    { subst samename. unfold block_of. rewrite app_nil_r, drop_app_length. by rewrite take_ge by lia. }
    eapply adds_ext; [|apply Hl; [by rewrite Eb|done|done]]. intros k. simpl. by rewrite orb_false_r, Eb.
  - destruct (negb (same_key key h x)) eqn:E.
    + assert (Eb : block_of samename (length pre) (length pre + length cur) = cur).
      { subst samename. unfold block_of. rewrite drop_app_length. replace (length pre + length cur - length pre)%nat with (length cur) by lia. by rewrite take_app_length. }
      simpl. apply adds_bind.
      * eapply adds_ext; [|apply Ha; [by rewrite Eb|done|done]]. intros k. simpl. by rewrite Eb.
      * intros m1 H1 H2. specialize (IH (pre ++ cur) x [x] m1). rewrite length_app in IH. simpl in IH.
        replace (S (length pre + length cur))%nat with (length pre + length cur + 1)%nat by lia.
        apply IH; [by rewrite <-app_assoc|by apply list_elem_of_singleton| |done|..]; [|intros; rewrite H2 in *; auto..].
        by intros ? ? ->%list_elem_of_singleton ->%list_elem_of_singleton.
    + specialize (IH pre h (cur ++ [x]) m). rewrite length_app in IH. simpl in IH.
      replace (S (length pre + length cur))%nat with (length pre + (length cur + 1))%nat by lia.
      apply IH; [by rewrite <-app_assoc|apply elem_of_app; by left| |done|done|done].
      apply negb_false_iff, bool_decide_eq_true in E.
      intros a b [Ha'| ->%list_elem_of_singleton]%elem_of_app [Hb'| ->%list_elem_of_singleton]%elem_of_app; [by apply Hk|rewrite <-E; by apply Hk|rewrite <-E; by apply Hk|done].
Qed.
Lemma block_loop_ext (f g : Z -> Z -> bool) add last l i block m : (forall a b, f a b = g a b) ->
  block_loop f add last l i block m = block_loop g add last l i block m.
Proof.
  intros E. revert i block m. induction l as [|x l IH]; intros i block m; simpl; [done|]. destruct block as [[h start]|]; [|apply IH].
  rewrite E. destruct (g h x); [|apply IH]. unfold result_bind. destruct (add start i m); [apply IH|done].
Qed.
Lemma blocks_add {K : Type} `{EqDecision K} (key : Z -> K) (starts : Z -> Z -> bool) (sel : list Z -> Z -> bool) samename add last m :
  (forall a b, starts a b = negb (same_key key a b)) ->
  convex key samename -> bytes_ok m ->
  (forall start stop m', one_key key (block_of samename start stop) -> bytes_ok m' -> bits m' = bits m -> adds (add start stop m') m' (sel (block_of samename start stop))) ->
  (forall start stop m', one_key key (block_of samename start stop) -> bytes_ok m' -> bits m' = bits m -> adds (last start stop m') m' (sel (block_of samename start stop))) ->
  (forall b k, sel b k = true -> k ∈ b) ->
  adds (block_loop starts add last samename 0 None m) m
    (fun k => bool_decide (k ∈ samename) && sel (List.filter (same_key key k) samename) k).
Proof.
  intros Hst Hc Hm Ha Hl Hsel. rewrite (block_loop_ext _ _ _ _ _ _ _ _ Hst). destruct samename as [|x l]; [by apply adds_none|].
  pose proof (block_loop_adds key sel (x :: l) add last [] x [x] l m eq_refl ltac:(by apply list_elem_of_singleton) ltac:(by intros ? ? ->%list_elem_of_singleton ->%list_elem_of_singleton) Hm Ha Hl) as H. simpl in H.
  eapply adds_ext; [|exact H]. intros k. apply eq_true_iff_eq. rewrite existsb_exists, andb_true_iff, bool_decide_eq_true. split.
  - intros (b & Hb & Hk). apply list_elem_of_In, (blocks_from_spec key) in Hb as (y & Hy & ->); [|done|by apply list_elem_of_singleton|by intros ? ->%list_elem_of_singleton].
    pose proof (Hsel _ _ Hk) as Hin. rewrite list_elem_of_In, List.filter_In, <-list_elem_of_In in Hin. destruct Hin as [Hin E].
    apply bool_decide_eq_true in E. split; [done|]. rewrite <-Hk. f_equal. unfold same_key. by rewrite E.
  - intros [Hk Hs]. exists (List.filter (same_key key k) (x :: l)). split; [|done].
    apply list_elem_of_In, (blocks_from_spec key); [done|by apply list_elem_of_singleton|by intros ? ->%list_elem_of_singleton|]. by exists k.
Qed.

(** ** The order of a queue *)

Section order.
Variable pl : Reldep.pool.
(** Later versions first. *)
Definition later_first (a b : Z) : Prop := pool_evrcmp pl (evr_of pl b) (evr_of pl a) <= 0.
Lemma evrcmp_antisym a b : pool_evrcmp pl a b <= 0 -> pool_evrcmp pl b a <= 0 -> pool_evrcmp pl a b = 0.
Proof. intros H1 H2. pose proof (evrcmp_sign pl a b). lia. Qed.
Lemma evrcmp_refl a : pool_evrcmp pl a a = 0.
Proof. pose proof (evrcmp_sign pl a a). destruct (evrcmp_total pl a a); lia. Qed.
Lemma evrcmp_zero a b : pool_evrcmp pl a b = 0 -> pool_evrcmp pl b a = 0.
Proof. intros H. pose proof (evrcmp_sign pl a b). pose proof (evrcmp_sign pl b a). lia. Qed.

(** The comparison of ids of one key. *)
Definition version_cmp (a b : Z) : Z := let r := pool_evrcmp pl (evr_of pl b) (evr_of pl a) in if negb (r =? 0) then r else a - b.
Lemma version_cmp_le a b : version_cmp a b <= 0 <->
  pool_evrcmp pl (evr_of pl b) (evr_of pl a) < 0 \/ pool_evrcmp pl (evr_of pl b) (evr_of pl a) = 0 /\ a <= b.
Proof. unfold version_cmp. destruct (Z.eqb_spec (pool_evrcmp pl (evr_of pl b) (evr_of pl a)) 0); simpl; lia. Qed.
Lemma version_cmp_total a b : version_cmp a b <= 0 \/ version_cmp b a <= 0.
Proof.
  rewrite !version_cmp_le. pose proof (evrcmp_sign pl (evr_of pl a) (evr_of pl b)). pose proof (evrcmp_sign pl (evr_of pl b) (evr_of pl a)). lia.
Qed.
Lemma version_cmp_trans a b c : version_cmp a b <= 0 -> version_cmp b c <= 0 -> version_cmp a c <= 0.
Proof.
  rewrite !version_cmp_le. set (A := evr_of pl a). set (B := evr_of pl b). set (C := evr_of pl c). intros H1 H2.
  assert (H3 : pool_evrcmp pl C A <= 0) by (apply (evrcmp_trans pl C B A); lia).
  destruct (Z.eq_dec (pool_evrcmp pl C A) 0) as [E|]; [|lia]. right. split; [done|]. apply evrcmp_zero in E.
  assert (H4 : pool_evrcmp pl A B <= 0) by (apply (evrcmp_trans pl A C B); lia).
  assert (H5 : pool_evrcmp pl B C <= 0) by (apply (evrcmp_trans pl B A C); lia).
  pose proof (evrcmp_sign pl B A). pose proof (evrcmp_sign pl C B). lia.
Qed.
(** Ids first compared by a number. *)
Definition then_cmp (f : Z -> Z) (cmp : Z -> Z -> Z) (a b : Z) : Z := let r := f a - f b in if negb (r =? 0) then r else cmp a b.
Lemma then_cmp_le f cmp a b : then_cmp f cmp a b <= 0 <-> f a < f b \/ f a = f b /\ cmp a b <= 0.
Proof. unfold then_cmp. destruct (Z.eqb_spec (f a - f b) 0); simpl; lia. Qed.
Lemma then_cmp_total f cmp : (forall a b, cmp a b <= 0 \/ cmp b a <= 0) -> forall a b, then_cmp f cmp a b <= 0 \/ then_cmp f cmp b a <= 0.
Proof. intros H a b. rewrite !then_cmp_le. destruct (H a b); lia. Qed.
Lemma then_cmp_trans f cmp : (forall a b c, cmp a b <= 0 -> cmp b c <= 0 -> cmp a c <= 0) ->
  forall a b c, then_cmp f cmp a b <= 0 -> then_cmp f cmp b c <= 0 -> then_cmp f cmp a c <= 0.
Proof.
  intros H a b c. rewrite !then_cmp_le. intros [H1|[H1 H2]] [H3|[H3 H4]]; [lia..|]. right. split; [congruence|by eapply H].
Qed.

(** The key of a block, and the comparison that puts blocks together. *)
Definition block_key (key : Keyname) (p : Z) : Z * option Z := (name_of pl p, if bool_decide (key = HY_PKG_LATEST_PER_ARCH) then Some (arch_of pl p) else None).
Definition latest_cmp (key : Keyname) : Z -> Z -> Z :=
  if bool_decide (key = HY_PKG_LATEST_PER_ARCH) then filter_latest_sortcmp_byarch pl else filter_latest_sortcmp pl.
Lemma latest_cmp_then key a b : latest_cmp key a b =
  then_cmp (name_of pl) (if bool_decide (key = HY_PKG_LATEST_PER_ARCH) then then_cmp (arch_of pl) version_cmp else version_cmp) a b.
Proof. unfold latest_cmp. by case_bool_decide. Qed.
Lemma sorted_queue key l : let l' := solv_sort (latest_cmp key) l in
  Permutation l' l /\ StronglySorted (fun a b => latest_cmp key a b <= 0) l'.
Proof.
  apply solv_sort_spec; intros a b; setoid_rewrite latest_cmp_then.
  - apply then_cmp_total. intros x y. case_bool_decide; [apply then_cmp_total|]; apply version_cmp_total.
  - apply then_cmp_trans. intros x y z. case_bool_decide; [apply then_cmp_trans|]; apply version_cmp_trans.
Qed.
Lemma latest_cmp_key key a b : latest_cmp key a b <= 0 -> block_key key a = block_key key b -> later_first a b.
Proof.
  unfold block_key, later_first. rewrite latest_cmp_then, then_cmp_le. case_bool_decide; intros [H1|[H1 H2]] [= E1]; try lia.
  - apply then_cmp_le in H2 as [H2|[_ H2]]; [congruence || lia|]. apply version_cmp_le in H2. lia.
  - apply version_cmp_le in H2. lia.
Qed.
Lemma queue_convex key l : convex (block_key key) (solv_sort (latest_cmp key) l).
Proof.
  destruct (sorted_queue key l) as [_ Hs]. apply (sorted_convex _ _ _ Hs). intros x y z. rewrite !latest_cmp_then, !then_cmp_le.
  unfold block_key. case_bool_decide; intros Hxy Hyz; [intros [= E1 E2]|intros [= E1]].
  - destruct Hxy as [|[En Hxy]]; [lia|]. destruct Hyz as [|[En' Hyz]]; [lia|]. apply then_cmp_le in Hxy, Hyz. f_equal; [done|f_equal; lia].
  - f_equal. lia.
Qed.
Lemma starts_key key a b : latest_starts pl key a b = negb (same_key (block_key key) a b).
Proof.
  unfold latest_starts, same_key, block_key. apply eq_true_iff_eq.
  case_bool_decide; simpl; rewrite ?orb_false_r, ?orb_true_iff, !negb_true_iff, bool_decide_eq_false, !Z.eqb_neq.
  - split; [intros [H1|H1] [= E1 E2]; done|]. intros Hne. destruct (Z.eq_dec (name_of pl a) (name_of pl b)); [right|by left]. congruence.
  - split; [intros H1 [= E1]; done|]. congruence.
Qed.

(** ** Counting versions *)

(** The later versions among some packages. *)
Definition later_versions (l : list Z) (p : Z) : gset Z :=
  list_to_set (map (evr_of pl) (List.filter (fun q => 0 <? pool_evrcmp pl (evr_of pl q) (evr_of pl p)) l)).
Definition latest_test (latest : Z) (l : list Z) (p : Z) : bool :=
  let n := Z.of_nat (base.size (later_versions l p)) in if 0 <? latest then n <? latest else - latest <=? n.
Lemma later_versions_in l p e : e ∈ later_versions l p <-> exists q, q ∈ l /\ evr_of pl q = e /\ 0 < pool_evrcmp pl (evr_of pl q) (evr_of pl p).
Proof.
  unfold later_versions. rewrite elem_of_list_to_set, list_elem_of_In, in_map_iff. setoid_rewrite List.filter_In. setoid_rewrite Z.ltb_lt.
  setoid_rewrite <-list_elem_of_In. naive_solver.
Qed.
Definition evrs (l : list Z) : gset Z := list_to_set (map (evr_of pl) l).
Lemma evrs_in l e : e ∈ evrs l <-> exists q, q ∈ l /\ evr_of pl q = e.
Proof. unfold evrs. rewrite elem_of_list_to_set, list_elem_of_In, in_map_iff. setoid_rewrite <-list_elem_of_In. naive_solver. Qed.

(** In a block: the versions before an element that are not its own are the later ones. *)
Definition one_text (l : list Z) : Prop :=
  forall a b, a ∈ l -> b ∈ l -> pool_evrcmp pl (evr_of pl a) (evr_of pl b) = 0 -> evr_of pl a = evr_of pl b.
Lemma later_before pre x l : StronglySorted later_first (pre ++ x :: l) -> one_text (pre ++ x :: l) ->
  later_versions (pre ++ x :: l) x = evrs pre ∖ {[evr_of pl x]}.
Proof.
  intros Hs Ht. apply StronglySorted_app in Hs as (Hpx & _ & Hs). apply StronglySorted_inv in Hs as [_ Hx]. rewrite Forall_forall in Hx.
  apply set_eq. intros e. rewrite later_versions_in, elem_of_difference, evrs_in, elem_of_singleton. split.
  - intros (q & Hq & <- & Hc). apply elem_of_app in Hq as [Hq|[->|Hq]%elem_of_cons].
    + split; [by exists q|]. intros E. rewrite E, evrcmp_refl in Hc. lia.
    + rewrite evrcmp_refl in Hc. lia.
    + specialize (Hx q Hq). unfold later_first in Hx. lia.
  - intros [(q & Hq & <-) Hne]. exists q. split_and!; [set_solver|done|].
    assert (H1 : later_first q x) by (apply Hpx; [done|by left]). unfold later_first in H1.
    destruct (Z.lt_ge_cases 0 (pool_evrcmp pl (evr_of pl q) (evr_of pl x))) as [|H2]; [done|]. exfalso. apply Hne.
    apply Ht; [set_solver|set_solver|]. by apply evrcmp_antisym.
Qed.
Lemma later_mono l x y : later_first x y -> later_versions l x ⊆ later_versions l y.
Proof.
  intros Hxy e. rewrite !later_versions_in. intros (q & Hq & E & Hc). exists q. split_and!; [done|done|]. unfold later_first in Hxy.
  destruct (Z.lt_ge_cases 0 (pool_evrcmp pl (evr_of pl q) (evr_of pl y))) as [|H2]; [done|].
  pose proof (evrcmp_trans pl _ _ _ H2 Hxy). lia.
Qed.
Lemma evrs_snoc pre x : evrs (pre ++ [x]) = evrs pre ∪ {[evr_of pl x]}.
Proof. unfold evrs. rewrite map_app, list_to_set_app_L. simpl. set_solver. Qed.

Lemma size_add (E : gset Z) (x : Z) : base.size (E ∪ {[x]}) = S (base.size (E ∖ {[x]})).
Proof.
  replace (E ∪ {[x]}) with ({[x]} ∪ E ∖ {[x]}); [rewrite size_union by set_solver; by rewrite size_singleton|].
  apply set_eq. intros e. rewrite !elem_of_union, elem_of_difference, elem_of_singleton. destruct (decide (e = x)); naive_solver.
Qed.
Lemma add_latest_loop_adds latest pre y l counter m :
  let b := pre ++ [y] ++ l in
  StronglySorted later_first b -> one_text b -> counter = Z.of_nat (base.size (evrs (pre ++ [y]))) - 1 ->
  bytes_ok m -> (forall p, p ∈ l -> 0 <= p < bits m) ->
  adds (add_latest_loop pl latest l (evr_of pl y) counter m) m (fun k => bool_decide (k ∈ l) && latest_test latest b k).
Proof.
  revert pre y counter m. induction l as [|x l IH]; intros pre y counter m b Hs Ht -> Hm Hl; cbn [add_latest_loop]; [by apply adds_none|].
  assert (Hb : b = (pre ++ [y]) ++ x :: l) by (unfold b; by rewrite <-app_assoc).
  assert (Hc : (if evr_of pl y =? evr_of pl x then Z.of_nat (base.size (evrs (pre ++ [y]))) - 1 else Z.of_nat (base.size (evrs (pre ++ [y]))) - 1 + 1)
    = Z.of_nat (base.size (later_versions b x))).
  { rewrite Hb, later_before by by rewrite <-Hb. destruct (Z.eqb_spec (evr_of pl y) (evr_of pl x)) as [E|E].
    - rewrite size_difference, size_singleton; [|intros ? ->%elem_of_singleton; apply evrs_in; exists y; set_solver].
      assert (base.size (evrs (pre ++ [y])) <> 0%nat); [|lia]. apply size_non_empty_iff. intros H.
      assert (evr_of pl y ∈ evrs (pre ++ [y])) by (apply evrs_in; exists y; set_solver). set_solver.
    - rewrite difference_disjoint_L; [lia|]. apply disjoint_singleton_r. rewrite evrs_in. intros (q & Hq & Eq).
      apply E. rewrite Hb in Hs, Ht. apply Ht; [set_solver|set_solver|].
      pose proof Hs as Hs'. apply StronglySorted_app in Hs as (H1 & H2 & _). apply evrcmp_antisym.
      + apply elem_of_app in Hq as [Hq|Hq%list_elem_of_singleton]; [|subst q; by rewrite Eq, evrcmp_refl].
        apply StronglySorted_app in H2 as (H2 & _ & _). rewrite <-Eq. apply (H2 q y Hq). by left.
      + apply (H1 y x); set_solver. }
  assert (Hnew : Z.of_nat (base.size (later_versions b x)) = Z.of_nat (base.size (evrs ((pre ++ [y]) ++ [x]))) - 1).
  { rewrite Hb, later_before by by rewrite <-Hb. rewrite (evrs_snoc (pre ++ [y])). rewrite size_add. lia. }
  assert (Hrest : forall m', bytes_ok m' -> bits m' = bits m ->
    adds (add_latest_loop pl latest l (evr_of pl x) (Z.of_nat (base.size (later_versions b x))) m') m' (fun k => bool_decide (k ∈ l) && latest_test latest b k)).
  { intros m' H1 H2. assert (Hb2 : b = (pre ++ [y]) ++ [x] ++ l) by (by rewrite Hb). rewrite Hb2 in Hs, Ht |- *. rewrite <-Hb2 at 1.
    apply IH; [done|done|done|done|]. intros p Hp. rewrite H2. apply Hl. by right. }
  assert (Hx : 0 <= x < bits m) by (apply Hl; by left).
  cbv zeta. rewrite Hc.
  assert (Hset : adds (let* m := set_at x m in add_latest_loop pl latest l (evr_of pl x) (Z.of_nat (base.size (later_versions b x))) m) m
    (fun k => bool_decide (k = x) || bool_decide (k ∈ l) && latest_test latest b k)).
  { apply adds_bind; [by apply set_at_adds|]. intros m' H1 H2. by apply Hrest. }
  assert (Hcons : forall k, bool_decide (k ∈ x :: l) = bool_decide (k = x) || bool_decide (k ∈ l)).
  { intros k. apply eq_true_iff_eq. rewrite orb_true_iff, !bool_decide_eq_true. set_solver. }
  assert (Htake : latest_test latest b x = true -> forall k, bool_decide (k = x) || bool_decide (k ∈ l) && latest_test latest b k
    = bool_decide (k ∈ x :: l) && latest_test latest b k).
  { intros Hx1 k. rewrite Hcons. destruct (decide (k = x)) as [->|Hne]; [by rewrite Hx1, bool_decide_true|by rewrite (bool_decide_false (k = x))]. }
  unfold latest_test at 1 in Htake. destruct (Z.ltb_spec 0 latest) as [Hpos|Hneg].
  - destruct (Z.ltb_spec (Z.of_nat (base.size (later_versions b x))) latest) as [H1|H1]; simpl.
    + eapply adds_ext; [|exact Hset]. by apply Htake.
    + eapply adds_ext; [|by apply adds_none]. intros k. simpl. symmetry. apply andb_false_iff.
      destruct (decide (k ∈ x :: l)) as [Hk|Hk]; [right|left; by apply bool_decide_eq_false].
      unfold latest_test. rewrite (proj2 (Z.ltb_lt 0 latest) Hpos). apply Z.ltb_ge.
      assert (Hle : later_versions b x ⊆ later_versions b k).
      { apply elem_of_cons in Hk as [->|Hk]; [done|]. apply later_mono. rewrite Hb in Hs. apply StronglySorted_app in Hs as (_ & _ & Hs).
        apply StronglySorted_inv in Hs as [_ Hs]. rewrite Forall_forall in Hs. by apply Hs. }
      apply subseteq_size in Hle. lia.
  - destruct (Z.ltb_spec (Z.of_nat (base.size (later_versions b x))) (- latest)) as [H1|H1].
    + eapply adds_ext; [|by apply Hrest]. intros k. simpl. rewrite Hcons. destruct (decide (k = x)) as [->|Hne]; [rewrite (bool_decide_true (x = x)) by done|by rewrite (bool_decide_false (k = x)) by done]. simpl.
      unfold latest_test. rewrite (proj2 (Z.ltb_ge 0 latest) Hneg). rewrite (proj2 (Z.leb_gt _ _) H1). by rewrite andb_false_r.
    + eapply adds_ext; [|exact Hset]. apply Htake. by apply Z.leb_le.
Qed.

Lemma evrs_one p : base.size (evrs [p]) = 1%nat.
Proof.
  replace (evrs [p]) with ({[evr_of pl p]} : gset Z); [apply size_singleton|].
  apply set_eq. intros e. rewrite evrs_in, elem_of_singleton. setoid_rewrite list_elem_of_singleton. naive_solver.
Qed.
Lemma block_sublist (l : list Z) i j : exists a c, l = a ++ block_of l i j ++ c.
Proof. exists (take i l), (drop (j - i) (drop i l)). unfold block_of. by rewrite take_drop, take_drop. Qed.
(** A piece of a sorted queue with one key has the later versions first. *)
Lemma block_sorted key l i j : let l' := solv_sort (latest_cmp key) l in
  one_key (block_key key) (block_of l' i j) -> StronglySorted later_first (block_of l' i j).
Proof.
  intros l' Hk. destruct (sorted_queue key l) as [_ Hs]. destruct (block_sublist l' i j) as (a & c & E). fold l' in Hs. rewrite E in Hs.
  apply StronglySorted_app in Hs as (_ & _ & Hs). apply StronglySorted_app in Hs as (_ & Hs & _). revert Hs Hk.
  generalize (block_of l' i j). intros b Hb. induction Hb as [|x b Hb IH Hx]; intros Hk; constructor.
  - apply IH. intros y z Hy Hz. apply Hk; by right.
  - rewrite Forall_forall in Hx |- *. intros y Hy. apply (latest_cmp_key key); [by apply Hx|]. apply Hk; [by left|by right].
Qed.
Lemma later_versions_ext l l' p : (forall q, q ∈ l <-> q ∈ l') -> later_versions l p = later_versions l' p.
Proof. intros H. apply set_eq. intros e. rewrite !later_versions_in. by setoid_rewrite H. Qed.
(** The packages with the key of a package. *)
Definition same_block key (l : list Z) (p : Z) : list Z := List.filter (same_key (block_key key) p) l.

Lemma latest_step_adds key res latest m : bytes_ok res -> bytes_ok m -> (forall p, bit res p = true -> 0 <= p < bits m) ->
  (forall p q, bit res p = true -> bit res q = true -> pool_evrcmp pl (evr_of pl p) (evr_of pl q) = 0 -> evr_of pl p = evr_of pl q) ->
  adds (latest_step pl key res latest m) m
    (fun k => bit res k && (negb (latest =? 0) && latest_test latest (same_block key (pset_ids res) k) k)).
Proof.
  intros Hr Hm Hin Ht. unfold latest_step. destruct (Z.eqb_spec latest 0) as [|Hl0]; simpl.
  { eapply adds_ext; [|by apply adds_none]. intros k. simpl. by rewrite andb_false_r. }
  change (if bool_decide (key = HY_PKG_LATEST_PER_ARCH) then filter_latest_sortcmp_byarch pl else filter_latest_sortcmp pl) with (latest_cmp key).
  set (l' := solv_sort (latest_cmp key) (pset_ids res)). destruct (sorted_queue key (pset_ids res)) as [Hperm _]. fold l' in Hperm.
  assert (Hl' : forall p, p ∈ l' <-> bit res p = true).
  { intros p. rewrite <-pset_ids_spec by done. by rewrite Hperm. }
  set (sel := fun (b : list Z) k => bool_decide (k ∈ b) && latest_test latest b k).
  assert (Hadd : forall start stop m', one_key (block_key key) (block_of l' start stop) -> bytes_ok m' -> bits m' = bits m ->
    adds (add_latest_to_map pl l' latest start stop m') m' (sel (block_of l' start stop))).
  { intros start stop m' Hk H1 H2. unfold add_latest_to_map.
    pose proof (block_sorted key (pset_ids res) start stop Hk) as Hs. fold l' in Hs.
    assert (Hsub : forall p, p ∈ block_of l' start stop -> bit res p = true).
    { intros p Hp. apply Hl'. destruct (block_sublist l' start stop) as (a & c & ->). set_solver. }
    destruct (block_of l' start stop) as [|p b] eqn:Eb; [by apply adds_none|].
    assert (Hone : one_text (p :: b)) by (intros x y Hx Hy; apply Ht; by apply Hsub).
    cbn [add_latest_loop]. cbv zeta. rewrite Z.eqb_refl.
    assert (Hrest : forall m2, bytes_ok m2 -> bits m2 = bits m' -> adds (add_latest_loop pl latest b (evr_of pl p) 0 m2) m2 (fun k => bool_decide (k ∈ b) && latest_test latest (p :: b) k)).
    { intros m2 H3 H4. apply (add_latest_loop_adds latest [] p b 0 m2); [done|done| |done|].
      - cbn [app]. by rewrite evrs_one.
      - intros q Hq. rewrite H4, H2. apply Hin, Hsub. by right. }
    assert (H0 : later_versions (p :: b) p = ∅).
    { pose proof (later_before [] p b Hs Hone) as H. simpl in H. rewrite H. apply set_eq. intros e. rewrite elem_of_difference, evrs_in. set_solver. }
    assert (Hp : 0 <= p < bits m') by (rewrite H2; apply Hin, Hsub; by left).
    unfold sel. destruct (Z.ltb_spec 0 latest) as [Hpos|Hneg].
    - simpl. eapply adds_ext; [|apply adds_bind; [by apply set_at_adds|by intros m2 H3 H4; apply Hrest]].
      intros k. simpl. unfold latest_test. rewrite (proj2 (Z.ltb_lt 0 latest)) by done. destruct (decide (k = p)) as [->|Hne].
      + rewrite (bool_decide_true (p = p)), (bool_decide_true (p ∈ p :: b)) by (done || by left). rewrite H0, size_empty. simpl. symmetry. by apply Z.ltb_lt.
      + rewrite (bool_decide_false (k = p)) by done. simpl. f_equal. apply bool_decide_ext. set_solver.
    - rewrite (proj2 (Z.ltb_lt 0 (- latest))) by lia. eapply adds_ext; [|by apply Hrest]. intros k. simpl.
      unfold latest_test. rewrite (proj2 (Z.ltb_ge 0 latest)) by done. destruct (decide (k = p)) as [->|Hne].
      + rewrite H0, size_empty. change (Z.of_nat 0) with 0. rewrite (proj2 (Z.leb_gt (- latest) 0)) by lia. by rewrite !andb_false_r.
      + f_equal. apply bool_decide_ext. set_solver. }
  eapply adds_ext; [|apply (blocks_add (block_key key) _ sel l' _ _ m); [apply starts_key|apply queue_convex|done|exact Hadd|exact Hadd|]].
  - intros k. simpl. rewrite (bool_decide_ext (k ∈ l') (bit res k = true)) by apply Hl'.
    destruct (bit res k) eqn:Ek; simpl; [|done]. unfold sel.
    rewrite bool_decide_true; [|rewrite list_elem_of_In, List.filter_In, <-list_elem_of_In; split; [by apply Hl'|by apply bool_decide_eq_true]].
    simpl. unfold latest_test. rewrite (later_versions_ext (List.filter _ l') (same_block key (pset_ids res) k)); [done|].
    intros q. unfold same_block. by rewrite !list_elem_of_In, !List.filter_In, <-!list_elem_of_In, Hl', pset_ids_spec.
  - intros b k [Hk _]%andb_true_iff. by apply bool_decide_eq_true in Hk.
Qed.

(** C21. [filterLatest] with a positive number [n] keeps, of the packages of each name
    (for [HY_PKG_LATEST_PER_ARCH] of each name and architecture), those with
    fewer than [n] later versions among them; with a negative one it keeps those
    with at least [- n] later versions, and with 0 none. The cutting of the sorted
    queue and the counting of changes compute that whenever versions that
    compare as equal are written alike. *)
Theorem latest_spec f res m : bytes_ok res -> bytes_ok m -> (forall p, bit res p = true -> 0 <= p < bits m) ->
  (forall p q, bit res p = true -> bit res q = true -> pool_evrcmp pl (evr_of pl p) (evr_of pl q) = 0 -> evr_of pl p = evr_of pl q) ->
  exists m', filterLatest pl f res m = Ok m' /\ bytes_ok m' /\ bits m' = bits m /\ forall k, bit m' k
    = bit m k || existsb (fun n => bit res k && (negb (n =? 0) && latest_test n (same_block (keyname f) (pset_ids res) k) k)) (nums f).
Proof.
  intros Hr Hm Hin Ht. apply (each_adds (latest_step pl (keyname f) res)
    (fun n k => bit res k && (negb (n =? 0) && latest_test n (same_block (keyname f) (pset_ids res) k) k))); [|done].
  intros n m' _ H1 H2. apply latest_step_adds; [done|done|by rewrite H2|done].
Qed.

(** ** Upgrades and downgrades *)

Lemma updown_loop_spec (counts blocks : Z -> bool) (better : Z -> Z -> bool) l best :
  (forall a b, better a b = true -> better b a = false) ->
  (forall a b c, better a b = false -> better b c = false -> better a c = false) -> (forall p, p ∈ l -> p <> 0) ->
  let u := updown_loop counts blocks better l best in
  let cands := List.filter counts l in
  if u =? 0 then best = 0 /\ cands = [] \/ exists v, v ∈ cands /\ blocks v = true
  else (u = best \/ u ∈ cands) /\ (best <> 0 -> better best u = false) /\ forall v, v ∈ cands -> blocks v = false /\ better v u = false.
Proof.
  intros Ha Ht. assert (Hr : forall a, better a a = false) by (intros a; destruct (better a a) eqn:E; [by rewrite (Ha a a E) in E|done]).
  revert best. induction l as [|p l IH]; intros best Hl; simpl.
  - destruct (Z.eqb_spec best 0); [by left|]. split_and!; [by left|done|]. by intros v ?%elem_of_nil.
  - assert (Hl' : forall q, q ∈ l -> q <> 0) by (intros q Hq; apply Hl; by right). destruct (counts p); simpl; [|by apply IH].
    destruct (blocks p) eqn:Eb; simpl; [right; exists p; split; [by left|done]|].
    assert (Hp : p <> 0) by (apply Hl; by left).
    destruct ((best =? 0) || better p best) eqn:E.
    + specialize (IH p Hl'). simpl in IH. destruct (_ =? 0).
      * destruct IH as [[? _]|(v & Hv & ?)]; [done|]. right. exists v. split; [by right|done].
      * destruct IH as (H1 & H2 & H3). split_and!.
        -- right. destruct H1 as [->|H1]; [by left|by right].
        -- intros Hb. apply orb_true_iff in E as [E%Z.eqb_eq|E]; [done|]. apply (Ht best p); [by apply Ha|by apply H2].
        -- intros v [->|Hv]%elem_of_cons; [split; [done|by apply H2]|by apply H3].
    + apply orb_false_iff in E as [Eb0%Z.eqb_neq Ebetter]. specialize (IH best Hl'). simpl in IH. destruct (_ =? 0).
      * destruct IH as [[? _]|(v & Hv & ?)]; [done|]. right. exists v. split; [by right|done].
      * destruct IH as (H1 & H2 & H3). split_and!; [destruct H1 as [H1|H1]; [by left|right; by right]|done|].
        intros v [->|Hv]%elem_of_cons; [split; [done|]|by apply H3]. apply (Ht p best); [done|by apply H2].
Qed.

(** The installed packages that a package is compared with. *)
Definition upgraded_by (p : Z) : list Z := List.filter (upgrade_counts pl p) (provides pl (name_of pl p)).
Definition downgraded_by (p : Z) : list Z := List.filter (downgrade_counts pl p) (provides pl (name_of pl p)).
(** [what_upgrades] answers 0 just when no installed package of the name and a
    fitting architecture is there or one of them has at least the version; else
    it answers one of those with the highest version, and all are lower than the
    package. [what_downgrades] is the same with the order and the same
    architecture turned around. *)
Lemma what_updates_spec p : (forall q, q ∈ provides pl (name_of pl p) -> q <> 0) ->
  (if what_upgrades pl p =? 0 then upgraded_by p = [] \/ exists v, v ∈ upgraded_by p /\ 0 <= pool_evrcmp pl (evr_of pl v) (evr_of pl p)
   else what_upgrades pl p ∈ upgraded_by p /\ forall v, v ∈ upgraded_by p ->
     pool_evrcmp pl (evr_of pl v) (evr_of pl p) < 0 /\ pool_evrcmp pl (evr_of pl v) (evr_of pl (what_upgrades pl p)) <= 0)
  /\ (if what_downgrades pl p =? 0 then downgraded_by p = [] \/ exists v, v ∈ downgraded_by p /\ pool_evrcmp pl (evr_of pl v) (evr_of pl p) <= 0
      else what_downgrades pl p ∈ downgraded_by p /\ forall v, v ∈ downgraded_by p ->
        0 < pool_evrcmp pl (evr_of pl v) (evr_of pl p) /\ 0 <= pool_evrcmp pl (evr_of pl v) (evr_of pl (what_downgrades pl p))).
Proof.
  intros Hp. split.
  - pose proof (updown_loop_spec (upgrade_counts pl p) (fun u => 0 <=? pool_evrcmp pl (evr_of pl u) (evr_of pl p))
      (fun u best => 0 <? pool_evrcmp pl (evr_of pl u) (evr_of pl best)) (provides pl (name_of pl p)) 0) as H.
    cbv zeta beta in H.
    specialize (H ltac:(intros a b; rewrite Z.ltb_lt, Z.ltb_ge; pose proof (evrcmp_sign pl (evr_of pl b) (evr_of pl a)); lia)
      ltac:(intros a b c; rewrite !Z.ltb_ge; apply evrcmp_trans) Hp). unfold what_upgrades, upgraded_by.
    destruct (Z.eqb_spec (updown_loop (upgrade_counts pl p) (fun u => 0 <=? pool_evrcmp pl (evr_of pl u) (evr_of pl p))
      (fun u best => 0 <? pool_evrcmp pl (evr_of pl u) (evr_of pl best)) (provides pl (name_of pl p)) 0) 0) as [E|E].
    + destruct H as [[_ H]|(v & Hv & H)]; [by left|]. right. exists v. split; [done|by apply Z.leb_le].
    + destruct H as ([H|H] & _ & H3); [done|]. split; [done|]. intros v Hv. destruct (H3 v Hv) as [Hb1 Hb2].
      by apply Z.leb_gt in Hb1; apply Z.ltb_ge in Hb2.
  - pose proof (updown_loop_spec (downgrade_counts pl p) (fun u => pool_evrcmp pl (evr_of pl u) (evr_of pl p) <=? 0)
      (fun u best => pool_evrcmp pl (evr_of pl u) (evr_of pl best) <? 0) (provides pl (name_of pl p)) 0) as H.
    cbv zeta beta in H.
    assert (H2 : forall a b c, 0 <= pool_evrcmp pl a b -> 0 <= pool_evrcmp pl b c -> 0 <= pool_evrcmp pl a c).
    { assert (Hge : forall x y, 0 <= pool_evrcmp pl x y <-> pool_evrcmp pl y x <= 0).
      { intros x y. pose proof (evrcmp_sign pl x y). pose proof (evrcmp_sign pl y x). lia. }
      intros a b c. rewrite !Hge. intros Hab Hbc. exact (evrcmp_trans pl _ _ _ Hbc Hab). }
    specialize (H ltac:(intros a b; rewrite Z.ltb_lt, Z.ltb_ge; pose proof (evrcmp_sign pl (evr_of pl a) (evr_of pl b)); lia)
      ltac:(intros a b c; rewrite !Z.ltb_ge; apply H2) Hp). unfold what_downgrades, downgraded_by.
    destruct (Z.eqb_spec (updown_loop (downgrade_counts pl p) (fun u => pool_evrcmp pl (evr_of pl u) (evr_of pl p) <=? 0)
      (fun u best => pool_evrcmp pl (evr_of pl u) (evr_of pl best) <? 0) (provides pl (name_of pl p)) 0) 0) as [E|E].
    + destruct H as [[_ H]|(v & Hv & H)]; [by left|]. right. exists v. split; [done|by apply Z.leb_le].
    + destruct H as ([H|H] & _ & H3); [done|]. split; [done|]. intros v Hv. destruct (H3 v Hv) as [Hb1 Hb2].
      by apply Z.leb_gt in Hb1; apply Z.ltb_ge in Hb2.
Qed.

(** ** Upgrades from the repositories of the highest priority *)

Lemma name_priority_le_iff a b : name_priority_le pl a b <->
  name_of pl a < name_of pl b \/ name_of pl a = name_of pl b /\ priority_of pl b <= priority_of pl a.
Proof.
  unfold name_priority_le, NamePrioritySolvableKey. destruct (Z.eqb_spec (name_of pl b) (name_of pl a)) as [E|E]; simpl.
  - rewrite Z.ltb_ge. lia.
  - rewrite Z.ltb_ge. lia.
Qed.
#[local] Instance name_priority_total : Total (name_priority_le pl).
Proof. intros a b. rewrite !name_priority_le_iff. lia. Qed.
#[local] Instance name_priority_trans : Transitive (name_priority_le pl).
Proof. intros a b c. rewrite !name_priority_le_iff. lia. Qed.
(** No package of the name has a higher priority. *)
Definition best_priority (l : list Z) (p : Z) : bool :=
  forallb (fun q => negb (name_of pl q =? name_of pl p) || (priority_of pl q <=? priority_of pl p)) l.
#[local] Arguments best_priority : simpl never.
Lemma best_cons l x k : best_priority (x :: l) k = (negb (name_of pl x =? name_of pl k) || (priority_of pl x <=? priority_of pl k)) && best_priority l k.
Proof. done. Qed.
Lemma updown_priority_adds l name prio m : StronglySorted (name_priority_le pl) l ->
  (forall q, q ∈ l -> name < name_of pl q \/ name = name_of pl q /\ priority_of pl q <= prio) ->
  bytes_ok m -> (forall p, p ∈ l -> 0 <= p < bits m) ->
  adds (updown_priority_loop pl l name prio m) m
    (fun k => bool_decide (k ∈ l) && ((0 <? what_upgrades pl k) && (if name =? name_of pl k then prio =? priority_of pl k else best_priority l k))).
Proof.
  revert name prio m. induction l as [|x l IH]; intros name prio m Hs Hq Hm Hl; [by apply adds_none|]. cbn [updown_priority_loop].
  apply StronglySorted_inv in Hs as [Hs Hx]. rewrite Forall_forall in Hx.
  assert (Hcons : forall k, bool_decide (k ∈ x :: l) = bool_decide (k = x) || bool_decide (k ∈ l)).
  { intros k. apply eq_true_iff_eq. rewrite orb_true_iff, !bool_decide_eq_true. set_solver. }
  assert (Hlx : 0 <= x < bits m) by (apply Hl; by left).
  assert (Hll : forall m', bits m' = bits m -> forall p, p ∈ l -> 0 <= p < bits m') by (intros m' -> p Hp; apply Hl; by right).
  assert (Hbest : forall k, k ∈ x :: l -> name_of pl x = name_of pl k -> best_priority (x :: l) k = (priority_of pl x =? priority_of pl k)).
  { intros k Hk En. apply eq_true_iff_eq. rewrite Z.eqb_eq. unfold best_priority. rewrite forallb_forall. setoid_rewrite orb_true_iff.
    setoid_rewrite negb_true_iff. setoid_rewrite Z.eqb_neq. setoid_rewrite Z.leb_le. setoid_rewrite <-list_elem_of_In.
    assert (Hkx : priority_of pl k <= priority_of pl x).
    { apply elem_of_cons in Hk as [->|Hk]; [done|]. specialize (Hx k Hk). apply name_priority_le_iff in Hx. lia. }
    split; [intros H; specialize (H x ltac:(by left)); lia|]. intros E q [->|Hq']%elem_of_cons; [lia|].
    specialize (Hx q Hq'). apply name_priority_le_iff in Hx. lia. }
  assert (Hskip : forall k, name_of pl x <> name_of pl k -> best_priority (x :: l) k = best_priority l k).
  { intros k Hne. rewrite best_cons. by rewrite (proj2 (Z.eqb_neq _ _) Hne). }
  destruct (Z.eqb_spec name (name_of pl x)) as [E|E]; simpl.
  - assert (Hq' : forall q, q ∈ l -> name < name_of pl q \/ name = name_of pl q /\ priority_of pl q <= prio) by (intros q Hq'; apply Hq; by right).
    destruct (Z.eqb_spec prio (priority_of pl x)) as [Ep|Ep].
    + eapply adds_ext; [|apply adds_bind; [by apply set_if_adds|intros m' H1 H2; apply IH; auto]].
      intros k. simpl. rewrite Hcons. destruct (decide (k = x)) as [->|Hne].
      * rewrite (bool_decide_true (x = x)) by done. rewrite (proj2 (Z.eqb_eq name _) E), (proj2 (Z.eqb_eq prio _) Ep). simpl. rewrite !andb_true_r.
        by destruct (0 <? what_upgrades pl x), (bool_decide (x ∈ l)).
      * rewrite (bool_decide_false (k = x)) by done. rewrite andb_false_r. simpl. destruct (Z.eqb_spec name (name_of pl k)); [done|].
        by rewrite Hskip by congruence.
    + eapply adds_ext; [|apply IH; auto]. intros k. simpl. rewrite Hcons. destruct (decide (k = x)) as [->|Hne].
      * rewrite (proj2 (Z.eqb_eq name _) E), (proj2 (Z.eqb_neq prio _) Ep). by rewrite !andb_false_r.
      * rewrite (bool_decide_false (k = x)) by done. simpl. destruct (Z.eqb_spec name (name_of pl k)); [done|]. by rewrite Hskip by congruence.
  - assert (Hq' : forall q, q ∈ l -> name_of pl x < name_of pl q \/ name_of pl x = name_of pl q /\ priority_of pl q <= priority_of pl x).
    { intros q Hq'. specialize (Hx q Hq'). by apply name_priority_le_iff. }
    assert (Hnew : forall k, k ∈ x :: l -> (name =? name_of pl k) = false).
    { intros k Hk. apply Z.eqb_neq. assert (name < name_of pl x) by (specialize (Hq x ltac:(by left)); lia).
      apply elem_of_cons in Hk as [->|Hk]; [lia|]. specialize (Hq' k Hk). lia. }
    eapply adds_ext; [|apply adds_bind; [by apply set_if_adds|intros m' H1 H2; apply IH; auto]].
    intros k. simpl. rewrite Hcons. destruct (decide (k ∈ x :: l)) as [Hk|Hk]; cycle 1.
    { rewrite (bool_decide_false (k = x)), (bool_decide_false (k ∈ l)) by set_solver. by rewrite andb_false_r. }
    rewrite (Hnew k Hk). destruct (decide (k = x)) as [->|Hne].
    + rewrite (bool_decide_true (x = x)) by done. rewrite Z.eqb_refl, Hbest, Z.eqb_refl by done. simpl. rewrite !andb_true_r.
      by destruct (0 <? what_upgrades pl x), (bool_decide (x ∈ l)).
    + rewrite (bool_decide_false (k = x)) by done. rewrite andb_false_r. simpl. f_equal. f_equal.
      destruct (Z.eqb_spec (name_of pl x) (name_of pl k)) as [En|En]; [by rewrite Hbest|by rewrite Hskip].
Qed.

(** The packages of the highest priority among those that are not installed, by names. *)
Definition candidates res : list Z := List.filter (fun p => negb (is_installed pl p)) (pset_ids res).
Lemma by_priority_adds res m : bytes_ok res -> bytes_ok m -> (forall p, bit res p = true -> 0 <= p < bits m /\ 0 < name_of pl p) ->
  adds (updown_priority_loop pl (merge_sort (name_priority_le pl) (candidates res)) 0 0 m) m
    (fun k => bit res k && negb (is_installed pl k) && (0 <? what_upgrades pl k) && best_priority (candidates res) k).
Proof.
  intros Hr Hm Hin. set (l := merge_sort (name_priority_le pl) (candidates res)).
  assert (Hl : forall p, p ∈ l <-> p ∈ candidates res) by (intros p; unfold l; by rewrite merge_sort_Permutation).
  assert (Hc : forall p, p ∈ candidates res <-> bit res p = true /\ is_installed pl p = false).
  { intros p. unfold candidates. rewrite list_elem_of_In, List.filter_In, <-list_elem_of_In, pset_ids_spec, negb_true_iff by done. done. }
  eapply adds_ext; [|apply updown_priority_adds; [apply StronglySorted_merge_sort; apply _| |done|]].
  - intros k. cbv beta. destruct (bit res k) eqn:Ek; cbn [andb]; cycle 1.
    { rewrite bool_decide_false; [done|]. rewrite Hl, Hc. by intros [? _]; congruence. }
    destruct (is_installed pl k) eqn:Ei; cbn [andb negb]; [rewrite bool_decide_false; [done|]; rewrite Hl, Hc; by intros [_ ?]; congruence|].
    rewrite bool_decide_true by (by rewrite Hl, Hc). cbn [andb]. f_equal.
    rewrite (proj2 (Z.eqb_neq 0 (name_of pl k))) by (destruct (Hin k Ek); lia).
    unfold best_priority. apply eq_true_iff_eq. rewrite !forallb_forall. setoid_rewrite <-list_elem_of_In. by setoid_rewrite Hl.
  - intros q Hq%Hl%Hc. left. apply Hin. by destruct Hq.
  - intros q Hq%Hl%Hc. apply Hin. by destruct Hq.
Qed.

(** ** Duplicates *)

Lemma same_evr_sym a b : same_evr_other_arch pl a b = same_evr_other_arch pl b a.
Proof. unfold same_evr_other_arch. by rewrite (Z.eqb_sym (evr_of pl a)), (Z.eqb_sym (arch_of pl a)). Qed.
(** Another element that is not the same version for another architecture. *)
Definition has_duplicate (l : list Z) (k : Z) : bool := existsb (fun q => negb (q =? k) && negb (same_evr_other_arch pl k q)) l.
Lemma has_duplicate_iff l k : has_duplicate l k = true <-> exists q, q ∈ l /\ q <> k /\ same_evr_other_arch pl k q = false.
Proof.
  unfold has_duplicate. rewrite existsb_exists. setoid_rewrite andb_true_iff. setoid_rewrite negb_true_iff. setoid_rewrite Z.eqb_neq.
  setoid_rewrite <-list_elem_of_In. naive_solver.
Qed.
Lemma add_duplicates_adds l m : NoDup l -> bytes_ok m -> (forall p, p ∈ l -> 0 <= p < bits m) ->
  adds (add_duplicates_loop pl l m) m (fun k => bool_decide (k ∈ l) && has_duplicate l k).
Proof.
  revert m. induction l as [|x l IH]; intros m Hd Hm Hl; [by apply adds_none|]. cbn [add_duplicates_loop].
  apply NoDup_cons in Hd as [Hx Hd].
  assert (Hlx : forall m', bits m' = bits m -> 0 <= x < bits m') by (intros m' ->; apply Hl; by left).
  assert (Hll : forall p m', p ∈ l -> bits m' = bits m -> 0 <= p < bits m') by (intros p m' Hp ->; apply Hl; by right).
  eapply adds_ext; [|apply (adds_bind _ _ _ (fun k => existsb (fun y => negb (same_evr_other_arch pl x y) && (bool_decide (k = x) || bool_decide (k = y))) l)
                              (fun k => bool_decide (k ∈ l) && has_duplicate l k))].
  - intros k. cbv beta. apply eq_true_iff_eq. rewrite orb_true_iff, !andb_true_iff, !bool_decide_eq_true, !has_duplicate_iff, existsb_exists.
    setoid_rewrite andb_true_iff. setoid_rewrite negb_true_iff. setoid_rewrite orb_true_iff. setoid_rewrite bool_decide_eq_true. setoid_rewrite <-list_elem_of_In. split.
    + intros [(y & Hy & Hs & [->| ->])|(Hk & q & Hq & Hne & Hs)].
      * split; [by left|]. exists y. split; [by right|]. split; [by intros ->|done].
      * split; [by right|]. exists x. split; [by left|]. split; [by intros ->|by rewrite same_evr_sym].
      * split; [by right|]. exists q. split; [by right|done].
    + intros (Hk & q & Hq & Hne & Hs). apply elem_of_cons in Hk as [->|Hk], Hq as [->|Hq]; [done| | |].
      * left. exists q. split_and!; [done|done|by left].
      * left. exists k. split_and!; [done|by rewrite same_evr_sym|by right].
      * right. split; [done|]. by exists q.
  - apply (each_adds _ (fun y k => negb (same_evr_other_arch pl x y) && (bool_decide (k = x) || bool_decide (k = y)))); [|done].
    intros y m' Hy H1 H2. destruct (same_evr_other_arch pl x y); simpl; [by apply adds_none|].
    apply adds_bind; [apply set_at_adds; auto|]. intros m2 H3 H4. apply set_at_adds; [done|]. rewrite H4. auto.
  - intros m' H1 H2. apply IH; [done|done|]. intros p Hp. auto.
Qed.
(** The loop of [filterDuplicated] over the queue. *)
Lemma duplicates_adds (ids : list Z) m : NoDup ids -> bytes_ok m -> (forall p, p ∈ ids -> 0 <= p < bits m) ->
  let samename := solv_sort (filter_latest_sortcmp pl) ids in
  adds (block_loop (fun highest considered => negb (name_of pl highest =? name_of pl considered))
          (fun start_block i m => if (start_block =? i - 1)%nat then Ok m else add_duplicates_to_map pl samename start_block i m)
          (add_duplicates_to_map pl samename) samename 0 None m) m
    (fun k => bool_decide (k ∈ ids) && has_duplicate (List.filter (fun q => name_of pl k =? name_of pl q) ids) k).
Proof.
  intros Hd Hm Hl samename. destruct (sorted_queue HY_PKG_LATEST ids) as [Hperm _]. change (solv_sort (latest_cmp HY_PKG_LATEST) ids) with samename in Hperm.
  set (sel := fun (b : list Z) k => bool_decide (k ∈ b) && has_duplicate b k).
  assert (Hadd : forall start stop m', bytes_ok m' -> bits m' = bits m -> adds (add_duplicates_to_map pl samename start stop m') m' (sel (block_of samename start stop))).
  { intros start stop m' H1 H2. destruct (block_sublist samename start stop) as (a & c & E). apply add_duplicates_adds; [|done|].
    - assert (Hds : NoDup samename) by by rewrite Hperm. rewrite E in Hds. apply NoDup_app in Hds as (_ & _ & Hds). by apply NoDup_app in Hds as (Hds & _).
    - intros p Hp. rewrite H2. apply Hl. rewrite <-Hperm, E. set_solver. }
  eapply adds_ext; [|apply (blocks_add (block_key HY_PKG_LATEST) _ sel)].
  - intros k. simpl. rewrite (bool_decide_ext (k ∈ samename) (k ∈ ids)) by by rewrite Hperm. case_bool_decide as Hk; [|done]. simpl. unfold sel.
    assert (Hkey : forall q, same_key (block_key HY_PKG_LATEST) k q = (name_of pl k =? name_of pl q)).
    { intros q. unfold same_key, block_key. apply eq_true_iff_eq. rewrite bool_decide_eq_true, Z.eqb_eq. simpl. split; [by intros [=]|by intros ->]. }
    rewrite bool_decide_true; [|rewrite list_elem_of_In, List.filter_In, <-list_elem_of_In, Hperm; split; [done|rewrite Hkey; by apply Z.eqb_eq]].
    simpl. apply eq_true_iff_eq. rewrite !has_duplicate_iff. setoid_rewrite list_elem_of_In. setoid_rewrite List.filter_In. setoid_rewrite <-list_elem_of_In.
    setoid_rewrite Hkey. setoid_rewrite Hperm. done.
  - intros x y. pose proof (starts_key HY_PKG_LATEST x y) as H. unfold latest_starts in H. simpl in H. by rewrite orb_false_r in H.
  - apply queue_convex.
  - done.
  - intros start stop m' _ H1 H2. destruct (Nat.eqb_spec start (stop - 1)) as [E|E]; [|by apply Hadd].
    eapply adds_ext; [|by apply adds_none]. intros k. simpl. unfold sel. symmetry. apply andb_false_iff.
    destruct (block_of samename start stop) as [|x [|y b]] eqn:Eb; [by left|..].
    + destruct (decide (k = x)) as [->|Hne]; [right|left; apply bool_decide_eq_false; set_solver].
      unfold has_duplicate. simpl. by rewrite Z.eqb_refl.
    + exfalso. apply (f_equal length) in Eb. unfold block_of in Eb. rewrite length_take in Eb. simpl in Eb. lia.
  - intros start stop m' _ H1 H2. by apply Hadd.
  - intros b k [Hk _]%andb_true_iff. by apply bool_decide_eq_true in Hk.
Qed.
End order.
End latest.
End DnfLatest.
