(* ===== verification/DnfApply.v ===== *)
(** * DnfApply: what queries give, and that they do not crash (theorems on [DnfQuery]) *)

From S2P Require Import Prelude Sack Solv Regex Specs Packages DnfSack DnfQuery DnfLatest.
From stdpp Require Import sorting.
Local Open Scope Z_scope.

Module DnfApply.
Import QueryCmp Matches Packages DnfSack DnfQuery DnfLatest.

(** A binary search for an element of a class finds one if there is any. *)
Lemma found_at {A : Type} (less p greater : A -> bool) l : (forall x, p x = negb (less x) && negb (greater x)) ->
  StronglySorted (fun x y => (less y = true -> less x = true) /\ (greater x = true -> greater y = true)) l ->
  (forall x, less x = true -> greater x = false) ->
  match l !! lower_bound less l with Some x => p x | None => false end = existsb p l.
Proof.
  intros H1 H2 H3. pose proof (equal_range_filter less p greater l H1 H2 H3) as H. unfold equal_range in H.
  assert (Hf : existsb p l = match List.filter p l with [] => false | _ => true end).
  { clear. induction l as [|x l IH]; simpl; [done|]. destruct (p x); [done|by rewrite IH]. }
  rewrite Hf, <-H. clear. set (n := lower_bound less l). clearbody n.
  destruct (l !! n) as [x|] eqn:E.
  - rewrite (drop_S l x n E). simpl. by destruct (p x).
  - apply lookup_ge_None in E. by rewrite drop_ge.
Qed.

Section apply.
Context {HP : Reldep.Pool} {HL : LibsolvPool} {HS : Libsolv} {HG : LibsolvGrow} {HR : ProvidesReady}.
Context {HU : LibsolvUpdates} {HA : Advisories} {HQ : PackageSets} {HD : Dependencies} {HM : MissingFilters}.
Implicit Types (pl : Reldep.pool) (m res : Map) (p : Z) (s : DnfSack) (q : Query) (f : Filter).

(** A map for the solvables of a pool, and one of packages. *)
Definition map_ok pl m : Prop := bytes_ok m /\ bits m = bits (map_init (nsolvables pl)).
Definition result_ok pl res : Prop := map_ok pl res /\ forall p, bit res p = true -> p ∈ packages pl.
(** What a filter may do to the sack. *)
Definition steady s s' : Prop := coherent s' /\ alike s s' /\ considered s' = considered s.
(** The name of the repository of a package. *)
Definition repo_name pl p : option cstr := match s_repo (pool_id2solvable pl p) with Some r => default None (repos pl !! Z.to_nat r) | None => None end.
Definition in_repos pl (names : list cstr) p : bool := match repo_name pl p with Some n => bool_decide (n ∈ names) | None => false end.

(** What is asked of the classes: they do not change packages and excludes, and
    fill the map they get; [HY_PKG_REPONAME] with [HY_EQ] or [HY_NEQ] is the filter by names of repositories. *)
Class MissingFiltersLaws : Prop := {
  missing_filter_ok fl f res m s : coherent s -> result_ok (pool s) res -> map_ok (pool s) m ->
    steady s (fst (missing_filter fl f res m s)) /\ map_ok (pool s) (snd (missing_filter fl f res m s));
  nevra_strict_ok cmp l res s : coherent s -> result_ok (pool s) res ->
    steady s (fst (filterNevraStrict cmp l res s)) /\ map_ok (pool s) (snd (filterNevraStrict cmp l res s))
    /\ forall p, bit (snd (filterNevraStrict cmp l res s)) p = true -> bit res p = true;
  reponame_spec fl f res m s names k : keyname f = HY_PKG_REPONAME -> cmpType f = HY_EQ \/ cmpType f = HY_NEQ -> matches f = MStr names -> result_ok (pool s) res -> map_ok (pool s) m ->
    bit (snd (missing_filter fl f res m s)) k = bit m k || bit res k && in_repos (pool s) names k;
}.
Class DependenciesLaws : Prop := {
  dependency_steady t s : coherent s -> steady s (fst (new_dependency t s));
  reldep_steady t l s : coherent s -> steady s (fst (addReldep t l s));
  reldep_glob_steady t l s : coherent s -> steady s (fst (addReldepWithGlob t l s));
}.
(** Advisories have the prefix in their names, and references with types and ids. *)
Class AdvisoriesLaws : Prop := advisory_complete pl a : a ∈ advisories pl ->
  starts_with (adv_name (advisory_data pl a)) (lit "patch:") = true
  /\ Forall (fun r => is_Some (fst r) /\ is_Some (snd r)) (adv_references (advisory_data pl a)).

Context {HLL : LibsolvPoolLaws} {HSL : LibsolvLaws HS} {HGL : LibsolvGrowLaws HG} {HRL : ProvidesReadyLaws}.
Context {HUL : LibsolvUpdatesLaws} {HAL : AdvisoriesLaws} {HQL : PackageSetsLaws HQ} {HDL : DependenciesLaws} {HML : MissingFiltersLaws}.

Lemma still_steady s : coherent s -> steady s s.
Proof. intros Hs. split; [done|]. split; [apply alike_refl|done]. Qed.
Lemma steadily s1 s2 s3 : steady s1 s2 -> steady s2 s3 -> steady s1 s3.
Proof. intros (A1 & A2 & A3) (B1 & B2 & B3). split; [done|]. split; [by eapply alike_trans|congruence]. Qed.
Lemma ready_steady s : coherent s -> steady s (make_provides_ready s).
Proof.
  intros Hs. split; [by apply ready_coherent|]. split; [apply ready_alike|]. unfold make_provides_ready. by destruct (make_ready _ _).
Qed.
Lemma alike_n s s' : alike s s' -> nsolvables (pool s') = nsolvables (pool s) /\ packages (pool s') = packages (pool s).
Proof. intros Ha. split; [apply (alike_pool _ _ Ha)|apply same_packages_eq, (alike_pool _ _ Ha)]. Qed.
Lemma alike_map s s' m : alike s s' -> map_ok (pool s') m <-> map_ok (pool s) m.
Proof. intros [Hn _]%alike_n. unfold map_ok. by rewrite Hn. Qed.
Lemma alike_result s s' m : alike s s' -> result_ok (pool s') m <-> result_ok (pool s) m.
Proof. intros Ha. unfold result_ok. rewrite (alike_map s s') by done. by destruct (alike_n s s' Ha) as [_ ->]. Qed.
Lemma map_room pl m : map_ok pl m -> nsolvables pl <= bits m.
Proof. intros [_ ->]. pose proof (nsolvables_range pl). by destruct (make_ok (nsolvables pl)) as (_ & Hn & _); [lia|]. Qed.
Lemma result_range pl res p : result_ok pl res -> bit res p = true -> 2 <= p < nsolvables pl.
Proof. intros [_ H] Hp. by apply packages_range, H. Qed.
Lemma result_in pl res m p : result_ok pl res -> map_ok pl m -> bit res p = true -> 0 <= p < bits m.
Proof. intros Hr Hm Hp. pose proof (result_range pl res p Hr Hp). pose proof (map_room pl m Hm). lia. Qed.
Lemma empty_ok pl m : map_ok pl m -> map_ok pl (map_empty m) /\ forall k, bit (map_empty m) k = false.
Proof.
  intros [H1 H2]. rewrite map_empty_spec. destruct (zeros_ok (length m)) as [Z1 Z2]. split; [split; [done|]|done].
  rewrite <-H2. unfold bits. by rewrite repeat_length.
Qed.
Lemma init_ok pl : map_ok pl (map_init (nsolvables pl)).
Proof. pose proof (nsolvables_range pl). split; [|done]. by destruct (make_ok (nsolvables pl)) as (H1 & _); [lia|]. Qed.
Lemma adds_ok pl r m g : map_ok pl m -> adds r m g -> exists m', r = Ok m' /\ map_ok pl m'.
Proof. intros [H1 H2] (m' & E & B1 & B2 & _). exists m'. split; [done|]. split; [done|congruence]. Qed.

(** ** No filter crashes *)

(** A call that gives a map of the same size. *)
Definition fills (r : result failure Map) m : Prop := exists m', r = Ok m' /\ bytes_ok m' /\ bits m' = bits m.
Lemma adds_fills r m g : adds r m g -> fills r m.
Proof. intros (m' & H1 & H2 & H3 & _). by exists m'. Qed.
Lemma fills_none m : bytes_ok m -> fills (Ok m) m.
Proof. by exists m. Qed.
Lemma fills_bind r (k : Map -> result failure Map) m : fills r m -> (forall m', bytes_ok m' -> bits m' = bits m -> fills (k m') m') -> fills (result_bind r k) m.
Proof.
  intros (m1 & -> & B1 & B2) Hk. destruct (Hk m1 B1 B2) as (m2 & E & C1 & C2). exists m2. split_and!; [done|done|congruence].
Qed.
Lemma each_fills (body : Z -> Map -> result failure Map) l m :
  (forall p m', p ∈ l -> bytes_ok m' -> bits m' = bits m -> fills (body p m') m') -> bytes_ok m -> fills (each_package body l m) m.
Proof.
  revert m. induction l as [|p l IH]; intros m Hb Hm; simpl; [by apply fills_none|].
  apply fills_bind; [apply Hb; (done || by left)|]. intros m1 H1 H2. apply IH; [|done]. intros q m2 Hq H3 H4. apply Hb; [by right|done|congruence].
Qed.
Lemma set_if_fills (b : bool) p m : bytes_ok m -> 0 <= p < bits m -> fills (set_if b p m) m.
Proof. intros Hm Hp. eapply adds_fills, set_if_adds; done. Qed.
Lemma test_in p m : bytes_ok m -> 0 <= p < bits m -> test_at p m = Ok (bit m p).
Proof. intros Hm Hp. unfold test_at. rewrite bool_decide_true by done. by rewrite maptst_spec. Qed.
Lemma fills_ok pl r m : map_ok pl m -> fills r m -> exists m', r = Ok m' /\ map_ok pl m'.
Proof. intros [H1 H2] (m' & E & B1 & B2). exists m'. split; [done|]. split; [done|congruence]. Qed.

Lemma block_loop_fills starts add last l i block m :
  (forall start stop m', bytes_ok m' -> bits m' = bits m -> fills (add start stop m') m') ->
  (forall start stop m', bytes_ok m' -> bits m' = bits m -> fills (last start stop m') m') ->
  bytes_ok m -> fills (block_loop starts add last l i block m) m.
Proof.
  revert i block m. induction l as [|x l IH]; intros i block m Ha Hl Hm; simpl.
  - destruct block as [[h start]|]; [by apply Hl|by apply fills_none].
  - destruct block as [[h start]|]; [|by apply IH]. destruct (starts h x); [|by apply IH].
    apply fills_bind; [by apply Ha|]. intros m1 H1 H2. apply IH; [..|done]; intros; rewrite H2 in *; auto.
Qed.
Lemma add_latest_loop_fills pl latest l prev counter m : bytes_ok m -> (forall p, p ∈ l -> 0 <= p < bits m) ->
  fills (add_latest_loop pl latest l prev counter m) m.
Proof.
  revert prev counter m. induction l as [|x l IH]; intros prev counter m Hm Hl; cbn [add_latest_loop]; [by apply fills_none|]. cbv zeta.
  assert (Hx : 0 <= x < bits m) by (apply Hl; by left).
  assert (Hrest : forall c m', bytes_ok m' -> bits m' = bits m -> fills (add_latest_loop pl latest l (evr_of pl x) c m') m').
  { intros c m' H1 H2. apply IH; [done|]. intros p Hp. rewrite H2. apply Hl. by right. }
  set (c := if prev =? evr_of pl x then counter else counter + 1).
  assert (Hset : fills (let* m := set_at x m in add_latest_loop pl latest l (evr_of pl x) c m) m).
  { apply fills_bind; [eapply adds_fills; by apply set_at_adds|]. intros m' H1 H2. by apply Hrest. }
  destruct (0 <? latest); [destruct (negb _); [by apply fills_none|done]|]. destruct (c <? - latest); [by apply Hrest|done].
Qed.
Lemma filterLatest_fills pl f res m : result_ok pl res -> map_ok pl m -> fills (filterLatest pl f res m) m.
Proof.
  intros Hr Hm. apply each_fills; [|by apply Hm]. intros n m' _ H1 H2. unfold latest_step. destruct (n =? 0); [by apply fills_none|].
  change (if bool_decide (keyname f = HY_PKG_LATEST_PER_ARCH) then filter_latest_sortcmp_byarch pl else filter_latest_sortcmp pl) with (latest_cmp pl (keyname f)).
  set (l := solv_sort _ _). assert (Hl : forall p, p ∈ l -> 0 <= p < bits m).
  { intros p Hp. apply (result_in pl res); [done|done|]. apply pset_ids_spec; [apply Hr|]. by rewrite <-(proj1 (sorted_queue pl (keyname f) (pset_ids res))). }
  assert (Hadd : forall start stop m2, bytes_ok m2 -> bits m2 = bits m' -> fills (add_latest_to_map pl l n start stop m2) m2).
  { intros start stop m2 H3 H4. unfold add_latest_to_map. destruct (block_sublist l start stop) as (a & c & E).
    destruct (block_of l start stop) as [|p b] eqn:Eb; [by apply fills_none|]. apply add_latest_loop_fills; [done|].
    intros q Hq. rewrite H4, H2. apply Hl. rewrite E. set_solver. }
  by apply block_loop_fills.
Qed.
Lemma filterLocation_fills pl f res m : result_ok pl res -> map_ok pl m -> fills (filterLocation pl f res m) m.
Proof.
  intros Hr [Hm Hb]. unfold filterLocation. revert Hm Hb. revert m. induction (strs f) as [|t l IH]; intros m Hm Hb; [by apply fills_none|].
  apply fills_bind; [|intros m' H1 H2; apply IH; [done|congruence]].
  apply each_fills; [|done]. intros p m' Hp H1 H2. apply set_if_fills; [done|]. rewrite H2.
  apply (result_in pl res m); [done|done|]. by apply pset_ids_spec in Hp; [|apply Hr].
Qed.
Lemma obsoletes_one_ok pl b r_id l target : result_ok pl target -> (forall r, r ∈ l -> 0 < r < nsolvables pl) ->
  exists c, obsoletes_one pl b r_id l target = Ok c.
Proof.
  intros Ht. induction l as [|r l IH]; intros Hl; simpl; [by eexists|]. assert (Hr : 0 < r < nsolvables pl) by (apply Hl; by left).
  pose proof (map_room pl target (proj1 Ht)). rewrite test_in; [|apply Ht|lia]. simpl.
  assert (IH' : exists c, obsoletes_one pl b r_id l target = Ok c) by (apply IH; intros q Hq; apply Hl; by right).
  destruct (bit target r) eqn:E; simpl; [|done]. pose proof (result_range pl target r Ht E). destruct (Z.eqb_spec r 1); [lia|].
  destruct (_ && _); [done|by eexists].
Qed.
Lemma obsoletesByPriority_fills pl p target m : result_ok pl target -> bytes_ok m -> 0 <= p < bits m ->
  fills (obsoletesByPriority pl p target m) m.
Proof.
  intros Ht Hm Hp. unfold obsoletesByPriority. destruct (s_repo _); [|by apply fills_none]. apply each_fills; [|done].
  intros r_id m' _ H1 H2. destruct (obsoletes_one_ok pl (obsoleteusesprovides pl) r_id (provides pl r_id) target Ht) as [c ->]; [intros r; apply provides_range|].
  simpl. apply set_if_fills; [done|]. by rewrite H2.
Qed.
Lemma obsoletes_priority_fills pl target l name prio m : result_ok pl target -> bytes_ok m -> (forall p, p ∈ l -> 0 <= p < bits m) ->
  fills (obsoletes_priority_loop pl target l name prio m) m.
Proof.
  intros Ht. revert name prio m. induction l as [|x l IH]; intros name prio m Hm Hl; cbn [obsoletes_priority_loop]; [by apply fills_none|].
  assert (Hx : forall m', bits m' = bits m -> 0 <= x < bits m') by (intros m' ->; apply Hl; by left).
  assert (Hll : forall m' p, bits m' = bits m -> p ∈ l -> 0 <= p < bits m') by (intros m' p -> Hp; apply Hl; by right).
  apply fills_bind; [destruct (is_installed pl x); [by apply obsoletesByPriority_fills, Hx|by apply fills_none]|]. intros m1 H1 H2.
  destruct (negb _); [|destruct (_ =? _)].
  - apply fills_bind; [by apply obsoletesByPriority_fills, Hx|]. intros m2 H3 H4. apply IH; [done|]. intros p Hp. apply Hll; [congruence|done].
  - apply fills_bind; [by apply obsoletesByPriority_fills, Hx|]. intros m2 H3 H4. apply IH; [done|]. intros p Hp. apply Hll; [congruence|done].
  - apply IH; [done|]. intros p Hp. by apply Hll.
Qed.
Lemma each_num_fills body f m : bytes_ok m -> (forall m', bytes_ok m' -> bits m' = bits m -> fills (body m') m') -> fills (each_num body f m) m.
Proof. intros Hm Hb. apply each_fills; [|done]. intros n m' _ H1 H2. destruct (n =? 0); [by apply fills_none|by apply Hb]. Qed.
Lemma in_result pl res m m' p : result_ok pl res -> map_ok pl m -> bits m' = bits m -> p ∈ pset_ids res -> 0 <= p < bits m'.
Proof. intros Hr Hm -> Hp. apply (result_in pl res m); [done|done|]. by apply pset_ids_spec in Hp; [|apply Hr]. Qed.

(** The result of a filter that first makes the provides ready. *)
Definition filtered s s' m (r : result failure (DnfSack * Map)) : Prop := steady s s' /\ exists m', r = Ok (s', m') /\ map_ok (pool s) m'.
Lemma fills_filtered s s' m r : steady s s' -> map_ok (pool s) m -> fills r m -> filtered s s' m (let* m := r in Ok (s', m)).
Proof. intros Hs Hm Hr. destruct (fills_ok _ _ _ Hm Hr) as (m' & -> & Hm'). split; [done|]. by exists m'. Qed.
Lemma filtered_same s s' m : steady s s' -> map_ok (pool s) m -> filtered s s' m (Ok (s', m)).
Proof. intros Hs Hm. split; [done|]. by exists m. Qed.

(** The map that says which packages may upgrade others. *)
Definition allowed s q : option Map := if negb (ignore_modular (flags q)) && negb (ignore_regular (flags q)) then considered s else considered_cached q.
Section ready.
Variables (s : DnfSack) (q : Query) (f : Filter) (res m : Map).
Hypotheses (Hs : coherent s) (Hr : result_ok (pool s) res) (Hm : map_ok (pool s) m).
Let s' := make_provides_ready s.
Let Hst : steady s s' := ready_steady s Hs.
Lemma ready_result : result_ok (pool s') res.
Proof. by apply (alike_result s s'); [apply Hst|]. Qed.

Lemma filterObsoletesByPriority_ok target : matches f = MPkg target -> result_ok (pool s) target -> filtered s s' m (filterObsoletesByPriority s f res m).
Proof.
  intros E Ht. unfold filterObsoletesByPriority. rewrite E. apply fills_filtered; [done|done|]. apply obsoletes_priority_fills; [|apply Hm|].
  - by apply (alike_result s s'); [apply Hst|].
  - intros p Hp. rewrite merge_sort_Permutation in Hp. by apply (in_result (pool s) res m).
Qed.
Lemma filterUpdown_ok : filtered s s' m (filterUpdown s f res m).
Proof.
  unfold filterUpdown. fold s'. destruct (installed (pool s')); [|by apply filtered_same]. apply fills_filtered; [done|done|].
  apply each_num_fills; [apply Hm|]. intros m1 H1 H2. apply each_fills; [|done]. intros p m2 Hp H3 H4.
  destruct (is_installed _ _); [by apply fills_none|]. apply set_if_fills; [done|]. apply (in_result (pool s) res m); [done|done|congruence|done].
Qed.
Lemma updown_priority_fills l name prio m1 : bytes_ok m1 -> (forall p, p ∈ l -> 0 <= p < bits m1) -> fills (updown_priority_loop (pool s') l name prio m1) m1.
Proof.
  revert name prio m1. induction l as [|x l IH]; intros name prio m1 H1 Hl; cbn [updown_priority_loop]; [by apply fills_none|].
  assert (Hx : 0 <= x < bits m1) by (apply Hl; by left). assert (Hll : forall p, p ∈ l -> 0 <= p < bits m1) by (intros p Hp; apply Hl; by right).
  destruct (negb _); [|destruct (_ =? _); [|by apply IH]]; (apply fills_bind; [by apply set_if_fills|intros m2 H3 H4; apply IH; [done|by rewrite H4]]).
Qed.
Lemma filterUpdownByPriority_ok : filtered s s' m (filterUpdownByPriority s f res m).
Proof.
  unfold filterUpdownByPriority. fold s'. destruct (installed (pool s')); [|by apply filtered_same]. apply fills_filtered; [done|done|].
  apply each_num_fills; [apply Hm|]. intros m1 H1 H2. apply updown_priority_fills; [done|]. intros p Hp.
  rewrite merge_sort_Permutation, list_elem_of_In, List.filter_In, <-list_elem_of_In in Hp. apply (in_result (pool s) res m); [done|done|done|apply Hp].
Qed.
Lemma updates_range p : let u := if bool_decide (keyname f = HY_PKG_DOWNGRADABLE) then what_downgrades (pool s') p else what_upgrades (pool s') p in
  u <> 0 -> 0 < u < nsolvables (pool s').
Proof.
  intros u Hu. assert (Hp : forall v, v ∈ provides (pool s') (name_of (pool s') p) -> v <> 0) by (intros v Hv%provides_range; lia).
  destruct (what_updates_spec (pool s') p Hp) as [H1 H2]. subst u. case_bool_decide.
  - rewrite (proj2 (Z.eqb_neq _ _) Hu) in H2. destruct H2 as [H2 _]. apply list_elem_of_In, List.filter_In in H2 as [H2 _].
    apply list_elem_of_In in H2. by apply provides_range in H2.
  - rewrite (proj2 (Z.eqb_neq _ _) Hu) in H1. destruct H1 as [H1 _]. apply list_elem_of_In, List.filter_In in H1 as [H1 _].
    apply list_elem_of_In in H1. by apply provides_range in H1.
Qed.
Lemma filterUpdownAble_ok : opt_ok (allowed s q) -> opt_room s (allowed s q) -> filtered s s' m (filterUpdownAble s q f res m).
Proof.
  intros Ha1 Ha2. unfold filterUpdownAble. fold s'. destruct (installed (pool s')); [|by apply filtered_same].
  apply fills_filtered; [done|done|]. destruct Hst as (_ & Hal & Hc). destruct (alike_n _ _ Hal) as [Hn Hp]. rewrite Hc, Hp. fold (allowed s q).
  apply each_num_fills; [apply Hm|]. intros m1 H1 H2. apply each_fills; [|done]. intros p m2 Hin H3 H4. apply packages_range in Hin.
  assert (Hok : exists b, (match allowed s q with Some c => test_at p c | None => Ok true end) = Ok b).
  { destruct (allowed s q) as [c|]; [|by eexists]. simpl in Ha1, Ha2. rewrite test_in by (done || lia). by eexists. }
  destruct Hok as [b ->]. simpl. destruct (negb b); [by apply fills_none|]. destruct (is_installed _ _); [by apply fills_none|].
  pose proof (updates_range p) as Hu. cbv zeta in Hu. set (u := if bool_decide _ then _ else _) in *. destruct (Z.eqb_spec u 0) as [|Hne]; [by apply fills_none|].
  specialize (Hu Hne). pose proof (map_room _ _ (proj1 Hr)). pose proof (map_room _ _ Hm).
  rewrite test_in; [|apply Hr|lia]. simpl. apply set_if_fills; [done|]. rewrite H4, H2. lia.
Qed.
End ready.

(** ** Advisories *)

(** Whether an advisory is one that a filter asks for. *)
Definition advisory_asked (key : Keyname) (a : AdvisoryData) (t : cstr) : bool :=
  match key with
  | HY_PKG_ADVISORY => bool_decide (adv_name a = lit "patch:" ++ t)
  | HY_PKG_ADVISORY_BUG => bool_decide ((Some (lit "bugzilla"), Some t) ∈ adv_references a)
  | HY_PKG_ADVISORY_CVE => bool_decide ((Some (lit "cve"), Some t) ∈ adv_references a)
  | HY_PKG_ADVISORY_TYPE => matchKind a t
  | HY_PKG_ADVISORY_SEVERITY => matchSeverity a t
  | _ => false
  end.
Lemma match_reference_ok refs type what : Forall (fun r => is_Some (fst r) /\ is_Some (snd r)) refs ->
  match_reference refs type what = Ok (bool_decide ((Some type, Some what) ∈ refs)).
Proof.
  induction 1 as [|[t i] refs [[t' Ht] [i' Hi]] _ IH]; simpl; [done|]. simpl in Ht, Hi. subst t i. rewrite IH.
  assert (Hc : bool_decide ((Some type, Some what) ∈ (Some t', Some i') :: refs)
    = bool_decide (type = t') && bool_decide (what = i') || bool_decide ((Some type, Some what) ∈ refs)).
  { apply eq_true_iff_eq. rewrite orb_true_iff, andb_true_iff, !bool_decide_eq_true, elem_of_cons. naive_solver. }
  rewrite Hc. destruct (decide (t' = type)) as [->|Hne].
  - rewrite (bool_decide_true (type = type)) by done. destruct (decide (i' = what)) as [->|Hne].
    + by rewrite (bool_decide_true (what = what)) by done.
    + by rewrite (bool_decide_false (i' = what)), (bool_decide_false (what = i')) by congruence.
  - by rewrite (bool_decide_false (t' = type)), (bool_decide_false (type = t')) by congruence.
Qed.
Lemma advisory_test_ok key pl a t : a ∈ advisories pl -> advisory_test key (advisory_data pl a) t = Ok (advisory_asked key (advisory_data pl a) t).
Proof.
  intros [Hn Hrefs]%advisory_complete. destruct key; simpl; try done.
  - unfold matchName, advisory_name. rewrite Hn. simpl. f_equal. apply bool_decide_ext. apply starts_with_spec in Hn as [rest ->].
    change (drop 6 (lit "patch:" ++ rest)) with rest. split; [by intros ->|]. intros E. cbn in E. by injection E.
  - by apply match_reference_ok.
  - by apply match_reference_ok.
Qed.
Lemma any_match_ok key pl a l : a ∈ advisories pl -> any_match key (advisory_data pl a) l = Ok (existsb (advisory_asked key (advisory_data pl a)) l).
Proof.
  intros Ha. induction l as [|t l IH]; simpl; [done|]. rewrite advisory_test_ok by done. simpl. by destruct (advisory_asked _ _ t).
Qed.
(** The packages of the advisories that are asked for and apply. *)
Definition asked_packages s key (l : list cstr) : list AdvisoryPkg :=
  flat_map (fun a => if existsb (advisory_asked key (advisory_data (pool s) a)) l && isAdvisoryApplicable s a then getPackages (pool s) a false else [])
    (advisories (pool s)).
Lemma advisory_pkgs_ok s key l : advisory_pkgs s key l (advisories (pool s)) = Ok (asked_packages s key l).
Proof.
  unfold asked_packages. assert (H : forall a, a ∈ advisories (pool s) -> a ∈ advisories (pool s)) by done. revert H.
  generalize (advisories (pool s)) at 1 3 4. intros advs H. induction advs as [|a advs IH]; simpl; [done|].
  rewrite any_match_ok by (apply H; by left). simpl. rewrite IH by (intros b Hb; apply H; by right). done.
Qed.

Lemma advisory_le_iff a b : advisory_le a b <->
  ap_name a < ap_name b \/ ap_name a = ap_name b /\ (ap_arch a < ap_arch b \/ ap_arch a = ap_arch b /\ ap_evr a <= ap_evr b).
Proof.
  unfold advisory_le, advisoryPkgSort. destruct (Z.eqb_spec (ap_name b) (ap_name a)); simpl; [destruct (Z.eqb_spec (ap_arch b) (ap_arch a)); simpl|];
    rewrite Z.ltb_ge; lia.
Qed.
#[local] Instance advisory_total : Total advisory_le.
Proof. intros a b. rewrite !advisory_le_iff. lia. Qed.
#[local] Instance advisory_trans : Transitive advisory_le.
Proof. intros a b c. rewrite !advisory_le_iff. lia. Qed.
Lemma advisories_sorted l : StronglySorted advisory_le (merge_sort advisory_le l).
Proof. apply StronglySorted_merge_sort; apply _. Qed.
(** The package that an advisory lists, or another version of it that the operator selects. *)
Definition advisory_selects pl (cmp_type : Z) p (a : AdvisoryPkg) : bool :=
  if cmp_type =? HY_EQ then nevraEQ_solvable pl a p
  else same_name_arch pl p a && cmp_selected cmp_type (pool_evrcmp pl (evr_of pl p) (ap_evr a)).
Definition solvable_before pl p (a : AdvisoryPkg) : bool :=
  if negb (name_of pl p =? ap_name a) then name_of pl p <? ap_name a
  else if negb (arch_of pl p =? ap_arch a) then arch_of pl p <? ap_arch a else evr_of pl p <? ap_evr a.
Definition solvable_before_name_arch pl p (a : AdvisoryPkg) : bool :=
  if negb (name_of pl p =? ap_name a) then name_of pl p <? ap_name a else arch_of pl p <? ap_arch a.
Ltac eqb_cases := repeat match goal with |- context [?x =? ?y] => destruct (Z.eqb_spec x y) end; simpl; rewrite ?Z.ltb_lt, ?Z.ltb_ge; try done; try lia.
Lemma advisory_hit_spec pl cmp_type l p : advisory_hit pl cmp_type (merge_sort advisory_le l) p = existsb (advisory_selects pl cmp_type p) l.
Proof.
  set (l' := merge_sort advisory_le l). assert (Hp : forall P : AdvisoryPkg -> bool, existsb P l' = existsb P l).
  { intros P. apply eq_true_iff_eq. rewrite !existsb_exists. setoid_rewrite <-list_elem_of_In. unfold l'. by setoid_rewrite merge_sort_Permutation. }
  rewrite <-Hp. unfold advisory_hit, advisory_selects. destruct (cmp_type =? HY_EQ).
  - apply (found_at _ (fun a => nevraEQ_solvable pl a p) (solvable_before pl p)).
    + intros a. unfold nevraEQ_solvable, advisoryPkgCompareSolvable, solvable_before. apply eq_true_iff_eq.
      rewrite !andb_true_iff, !negb_true_iff, !Z.eqb_eq. eqb_cases.
    + eapply sorted_weaken; [|apply advisories_sorted]. intros a b Hab%advisory_le_iff. unfold advisoryPkgCompareSolvable, solvable_before. eqb_cases.
    + intros a. unfold advisoryPkgCompareSolvable, solvable_before. eqb_cases.
  - cbv iota. rewrite (equal_range_filter _ _ (solvable_before_name_arch pl p)).
    + apply eq_true_iff_eq. rewrite !existsb_exists. setoid_rewrite List.filter_In. setoid_rewrite andb_true_iff.
      unfold same_name_arch. setoid_rewrite andb_true_iff.
      split; [intros (a & [H1 H2] & H3)|intros (a & H1 & H2 & H3)]; exists a; tauto.
    + intros a. unfold same_name_arch, advisoryPkgCompareSolvableNameArch, solvable_before_name_arch. apply eq_true_iff_eq.
      rewrite !andb_true_iff, !negb_true_iff, !Z.eqb_eq. eqb_cases.
    + eapply sorted_weaken; [|apply advisories_sorted]. intros a b Hab%advisory_le_iff.
      unfold advisoryPkgCompareSolvableNameArch, solvable_before_name_arch. eqb_cases.
    + intros a. unfold advisoryPkgCompareSolvableNameArch, solvable_before_name_arch. eqb_cases.
Qed.

(** Any pool in which the result has room. *)
Lemma filterAdvisory_adds s f res m : result_ok (pool s) res -> map_ok (pool s) m ->
  adds (filterAdvisory s f res m) m
    (fun k => bit res k && existsb (advisory_selects (pool s) (cmpType f) k) (asked_packages s (keyname f) (strs f))).
Proof.
  intros Hr Hm. unfold filterAdvisory. rewrite advisory_pkgs_ok. cbn [result_bind]. cbv zeta. set (l := asked_packages _ _ _).
  assert (Hset : adds (each_package (fun p m => set_if (advisory_hit (pool s) (cmpType f) (merge_sort advisory_le l) p) p m) (pset_ids res) m) m
    (fun k => bit res k && existsb (advisory_selects (pool s) (cmpType f) k) l)).
  { eapply adds_ext; [|apply each_set; [apply Hm|intros p Hp; by apply (in_result (pool s) res m)]]. intros k. simpl. rewrite advisory_hit_spec. f_equal.
    rewrite (bool_decide_ext _ (bit res k = true)); [by destruct (bit res k)|]. by apply pset_ids_spec, Hr. }
  destruct (merge_sort advisory_le l) as [|a l'] eqn:E; [|done].
  eapply adds_ext; [|apply adds_none, Hm]. intros k. simpl. symmetry. apply andb_false_iff. right.
  pose proof (advisory_hit_spec (pool s) (cmpType f) l k) as H. rewrite E in H. rewrite <-H. unfold advisory_hit. by destruct (_ =? _).
Qed.

(** ** Filters of a query *)

(** The matches have the type that the key needs. Package sets for
    [HY_PKG_PROVIDES] are accepted by [addFilter], but fail an assertion later. *)
Definition typed f : bool :=
  match matches f with
  | MNum _ => match_type_num (keyname f)
  | MPkg _ => match_type_pkg (keyname f) || match_type_reldep (keyname f) && negb (bool_decide (keyname f = HY_PKG_PROVIDES))
  | MReldep _ => match_type_reldep (keyname f)
  | MStr _ => match_type_str (keyname f) && negb (match_type_reldep (keyname f)) && negb (bool_decide (keyname f = HY_PKG_NEVRA_STRICT))
  end.
Definition filter_ok pl f : Prop := typed f = true /\ match matches f with MPkg pset => result_ok pl pset | _ => True end.
Lemma filter_runs_ok s q f res m : coherent s -> result_ok (pool s) res -> map_ok (pool s) m -> filter_ok (pool s) f ->
  opt_ok (allowed s q) -> opt_room s (allowed s q) -> exists s', filtered s s' m (run_filter s q f res m).
Proof.
  intros Hs Hr Hm [Ht Hp] Ha1 Ha2.
  assert (Hmiss : exists s', filtered s s' m (Ok (missing_filter (flags q) f res m s))).
  { destruct (missing_filter_ok (flags q) f res m s Hs Hr Hm) as [H1 H2]. destruct (missing_filter _ _ _ _ _) as [s' m']. exists s'. split; [done|]. by exists m'. }
  assert (Hsame : forall r, fills r m -> exists s', filtered s s' m (in_sack s r)).
  { intros r H. exists s. apply fills_filtered; [by apply still_steady|done|done]. }
  assert (Hadv : exists s', filtered s s' m (in_sack s (filterAdvisory s f res m))) by (eapply Hsame, adds_fills; by apply filterAdvisory_adds).
  assert (Hlat : exists s', filtered s s' m (in_sack s (filterLatest (pool s) f res m))) by (apply Hsame; by apply (filterLatest_fills (pool s))).
  assert (Hud : exists s', filtered s s' m (filterUpdown s f res m)) by (eexists; by apply filterUpdown_ok).
  assert (Huda : exists s', filtered s s' m (filterUpdownAble s q f res m)) by (eexists; by apply filterUpdownAble_ok).
  assert (Hnone : exists s', filtered s s' m (Ok (s, m))) by (exists s; apply filtered_same; [by apply still_steady|done]).
  unfold typed in Ht. unfold run_filter. destruct (keyname f) eqn:Ek; try done; try exact Hmiss.
  - destruct (matches f) as [|pset| |] eqn:E; try done. apply Hsame. exists pset. unfold filterPkg. rewrite E. split; [done|].
    destruct Hp as [[H1 H2] _], Hm as [_ H3]. split; [done|congruence].
  - by destruct (matches f).
  - by destruct (matches f).
  - apply Hsame. by apply (filterLocation_fills (pool s)).
  - eexists. by apply filterUpdownByPriority_ok.
  - destruct (matches f) as [|pset| |] eqn:E; try done. eexists. by apply (filterObsoletesByPriority_ok s f res m Hs Hr Hm pset).
Qed.
Lemma filter_ok_alike s s' f : alike s s' -> filter_ok (pool s) f -> filter_ok (pool s') f.
Proof. intros Ha [H1 H2]. split; [done|]. destruct (matches f); try done. by apply (alike_result s s'). Qed.
(** Keeping or dropping the packages of a map. *)
Lemma narrowed_ok pl (b : bool) m res : result_ok pl res -> map_ok pl m ->
  let res' := if b then map_subtract res m else map_and res m in
  result_ok pl res' /\ forall k, bit res' k = bit res k && (if b then negb (bit m k) else bit m k).
Proof.
  intros [[H1 H2] H3] [H4 H5]. assert (Hbits : forall k, bit (if b then map_subtract res m else map_and res m) k = bit res k && (if b then negb (bit m k) else bit m k)).
  { intros k. destruct b; [by apply map_subtract_spec|]. apply map_and_spec; [done|done|]. intros Hk%H3%packages_range.
    pose proof (map_room pl m (conj H4 H5)). lia. }
  split; [|done]. split; [|intros k; rewrite Hbits; intros [Hk _]%andb_true_iff; by apply H3].
  destruct b; [destruct (map_subtract_spec res m 0 H1 H4) as (B1 & B2 & _)|destruct (map_and_spec res m 0 H1 H4) as (B1 & B2 & _)]; (split; [done|congruence]).
Qed.
Lemma allowed_steady s s' q : steady s s' -> opt_ok (allowed s q) -> opt_room s (allowed s q) -> allowed s' q = allowed s q /\ opt_room s' (allowed s' q).
Proof.
  intros (_ & Ha & Hc) _ H. assert (E : allowed s' q = allowed s q) by (unfold allowed; by rewrite Hc). split; [done|]. rewrite E.
  destruct (alike_n _ _ Ha) as [Hn _]. unfold opt_room in *. by rewrite Hn.
Qed.
Lemma apply_filters_ok s q l m res : coherent s -> result_ok (pool s) res -> map_ok (pool s) m -> Forall (filter_ok (pool s)) l ->
  opt_ok (allowed s q) -> opt_room s (allowed s q) ->
  exists s' res', apply_filters s q l m res = Ok (s', res') /\ steady s s' /\ result_ok (pool s) res' /\ forall k, bit res' k = true -> bit res k = true.
Proof.
  revert s m res. induction l as [|f l IH]; intros s m res Hs Hr Hm Hl Ha1 Ha2; simpl.
  - exists s, res. exact (conj eq_refl (conj (still_steady s Hs) (conj Hr (fun k H => H)))).
  - apply Forall_cons in Hl as [Hf Hl]. destruct (filter_runs_ok s q f res (map_empty m)) as (s1 & Hst & m1 & E & Hm1); [done|done|by apply empty_ok|done|done|done|].
    rewrite E. simpl. destruct (narrowed_ok (pool s) (has (cmpType f) HY_NOT) m1 res Hr Hm1) as [Hr1 Hb1]. set (res1 := if has _ _ then _ else _) in *.
    pose proof Hst as (Hs1 & Hal & _). destruct (allowed_steady s s1 q Hst Ha1 Ha2) as [Ea Ha3].
    destruct (IH s1 m1 res1) as (s2 & res2 & E2 & Hst2 & Hr2 & Hb2); [done|by apply (alike_result s s1)|by apply (alike_map s s1)| |by rewrite Ea|done|].
    { eapply Forall_impl; [exact Hl|]. intros g. by apply filter_ok_alike. }
    exists s2, res2. split; [done|]. split; [by eapply steadily|]. split; [by apply (alike_result s s1)|].
    intros k Hk%Hb2. rewrite Hb1 in Hk. by apply andb_true_iff in Hk as [Hk _].
Qed.

(** ** Applying a query *)

Record query_good s q : Prop := {
  good_result : match result_map q with Some res => result_ok (pool s) res /\ opt_room s (allowed s q) | None => applied q = false end;
  good_cached : opt_ok (considered_cached q);
  good_filters : Forall (filter_ok (pool s)) (filters q);
  good_done : applied q = true -> filters q = [];
}.
(** What a query starts from: its result, or what its flags consider. *)
Definition start s q p : bool :=
  match result_map q with Some res => bit res p | None => bool_decide (p ∈ packages (pool s)) && should_consider s (flags q) p end.
Lemma new_good s fl : query_good s (new_query fl).
Proof. split; [done|done|constructor|done]. Qed.
Lemma allowed_ok s q : coherent s -> query_good s q -> opt_ok (allowed s q).
Proof. intros Hs Hq. unfold allowed. destruct (_ && _); [by apply ok_considered|apply Hq]. Qed.

(** The state in which the filters run. *)
Lemma started s q : coherent s -> query_good s q -> applied q = false ->
  exists s1 res cached, (match result_map q with Some m => (s, m, considered_cached q) | None => initResult (flags q) (considered_cached q) s end) = (s1, res, cached)
    /\ coherent s1 /\ alike s s1 /\ result_ok (pool s1) res /\ (forall k, bit res k = start s q k)
    /\ query_good s1 (mkQuery false (flags q) (Some res) (filters q) cached).
Proof.
  intros Hs [G1 G2 G3 G5] _. unfold start. destruct (result_map q) as [res|] eqn:E.
  - exists s, res, (considered_cached q). destruct G1 as [G1 G4].
    refine (conj eq_refl (conj Hs (conj (alike_refl s) (conj G1 (conj (fun k => eq_refl) _))))). by split.
  - pose proof (init_result (flags q) (considered_cached q) s Hs G2) as H. destruct (initResult _ _ _) as [[s1 m] cached].
    destruct H as (H1 & H2 & H3 & H4 & H5 & H6 & H7). exists s1, m, cached.
    assert (Hm : result_ok (pool s1) m).
    { apply (alike_result s s1); [done|]. split; [done|]. intros k. rewrite H7. by intros [Hk%bool_decide_eq_true _]%andb_true_iff. }
    refine (conj eq_refl (conj H1 (conj H2 (conj Hm (conj H7 _))))). split; simpl; [|done| |done].
    + split; [done|]. unfold allowed. simpl. by destruct (ignore_modular (flags q)), (ignore_regular (flags q)).
    + eapply Forall_impl; [exact G3|]. intros f. by apply filter_ok_alike.
Qed.

(** Applying a query that was put together with [addFilter] always ends with a
    result: no assertion fails and no map is written outside of its bounds, the
    filters only take packages away, and they are done with afterwards. *)
Lemma apply_ok s q : coherent s -> query_good s q ->
  exists s' q' res', apply s q = Ok (s', q') /\ result_map q' = Some res' /\ coherent s' /\ alike s s' /\ query_good s' q'
    /\ applied q' = true /\ filters q' = [] /\ result_ok (pool s') res' /\ forall k, bit res' k = true -> start s q k = true.
Proof.
  intros Hs Hq. unfold apply. destruct (applied q) eqn:Ea.
  - destruct Hq as [G1 G2 G3 G5]. destruct (result_map q) as [res|] eqn:E; [|congruence]. exists s, q, res. unfold start. rewrite ?E.
    refine (conj eq_refl (conj eq_refl (conj Hs (conj (alike_refl s) (conj _ (conj Ea (conj (G5 Ea) (conj _ _)))))))); [|by apply G1|done].
    split; [by rewrite E|done|done|done].
  - destruct (started s q Hs Hq Ea) as (s1 & res & cached & E & Hs1 & Hal & Hr & Hbit & Hq1). rewrite E.
    assert (El : (length (map_init (nsolvables (pool s1))) =? length res)%nat = true).
    { apply Nat.eqb_eq. destruct Hr as [[_ Hr] _]. unfold bits in Hr. lia. }
    rewrite El. cbn [negb]. set (q1 := mkQuery false (flags q) (Some res) (filters q) cached) in *.
    destruct (apply_filters_ok s1 q1 (filters q1) (map_init (nsolvables (pool s1))) res) as (s2 & res2 & E2 & Hst & Hr2 & Hb2);
      [done|done|apply init_ok|apply Hq1|by apply allowed_ok|apply (good_result s1 q1 Hq1)|].
    rewrite E2. cbn [result_bind]. exists s2. eexists. exists res2. split; [reflexivity|]. destruct Hst as (Hs2 & Hal2 & Hc).
    split; [done|]. split; [done|]. split; [by eapply alike_trans|].
    assert (Hr3 : result_ok (pool s2) res2) by by apply (alike_result s1 s2).
    split; [|split; [done|split; [done|split; [done|intros k Hk%Hb2; by rewrite <-Hbit]]]].
    destruct (allowed_steady s1 s2 q1) as [Ea2 Ha2]; [done|by apply allowed_ok|apply (good_result s1 q1 Hq1)|].
    split; simpl; [split; [done|exact Ha2]|apply (good_cached s1 q1 Hq1)|constructor|done].
Qed.

(** ** Building queries *)

Lemma push_good s q f : query_good s q -> filter_ok (pool s) f -> query_good s (push_filter f (set_applied false q)).
Proof.
  intros [G1 G2 G3 G5] Hf. split; simpl; [|done|apply Forall_app; by split; [|constructor]|done].
  unfold allowed in *. simpl. by destruct (result_map q).
Qed.
Lemma unapplied_good s q : query_good s q -> query_good s (set_applied false q).
Proof. intros [G1 G2 G3 G5]. split; simpl; [|done|done|done]. unfold allowed in *. simpl. by destruct (result_map q). Qed.
Lemma good_steady s s' q : steady s s' -> coherent s -> query_good s q -> query_good s' q.
Proof.
  intros Hst Hs Hq. pose proof (allowed_ok s q Hs Hq) as Ha. destruct Hq as [G1 G2 G3 G5]. pose proof Hst as (_ & Hal & _). split; [|done| |done].
  - destruct (result_map q); [|done]. destruct G1 as [G1 G4]. split; [by apply (alike_result s s')|by apply (allowed_steady s s' q)].
  - eapply Forall_impl; [exact G3|]. intros f. by apply filter_ok_alike.
Qed.
Lemma typed_ok pl f : typed f = true -> (forall pset, matches f <> MPkg pset) -> filter_ok pl f.
Proof. intros H1 H2. split; [done|]. destruct (matches f) as [|pset| |]; try done. by destruct (H2 pset). Qed.

Lemma num_good s q key cmp l : query_good s q -> query_good s (fst (addFilter_num key cmp l q)).
Proof.
  intros Hq. unfold addFilter_num, valid_filter_num. destruct (match_type_num key) eqn:E; [|done]. simpl.
  destruct (has _ _); [done|]. destruct (match key with HY_PKG => _ | _ => true end); [|done]. apply push_good; [done|]. by apply typed_ok.
Qed.
Lemma pset_good s q key cmp pset : query_good s q -> result_ok (pool s) pset -> key <> HY_PKG_PROVIDES -> query_good s (fst (addFilter_pset key cmp pset q)).
Proof.
  intros Hq Hp Hk. unfold addFilter_pset, valid_filter_pkg. destruct (negb (match_type_pkg key) && negb (match_type_reldep key)) eqn:E; [done|].
  destruct (_ || _); [|done]. apply push_good; [done|]. split; [|done]. unfold typed. simpl. rewrite bool_decide_false by done.
  by destruct (match_type_pkg key), (match_type_reldep key).
Qed.
Lemma reldep_good s q key r : query_good s q -> query_good s (fst (addFilter_reldep key r q)).
Proof.
  intros Hq. unfold addFilter_reldep, valid_filter_reldep. destruct (match_type_reldep key) eqn:E; [|done]. apply push_good; [done|]. by apply typed_ok.
Qed.
Lemma reldeps_good s q key l : query_good s q -> query_good s (fst (addFilter_reldeps key l q)).
Proof.
  intros Hq. unfold addFilter_reldeps, valid_filter_reldep. destruct (match_type_reldep key) eqn:E; [|done]. apply push_good; [done|].
  by destruct l; apply typed_ok.
Qed.
(** A call that ends normally, with the sack and the query in order. *)
Definition ends_well s (r : DnfSack * Query * result failure ret) : Prop :=
  exists x, snd r = Ok x /\ coherent (fst (fst r)) /\ alike s (fst (fst r)) /\ query_good (fst (fst r)) (snd (fst r)).
Lemma done_well s s' (qr : Query * ret) : steady s s' -> query_good s' (fst qr) -> ends_well s (done s' qr).
Proof. intros (H1 & H2 & _) H3. destruct qr as [q r]. by exists r. Qed.
Lemma refused_well s q : coherent s -> query_good s q -> ends_well s (refused s q).
Proof. intros Hs Hq. exists DNF_ERROR_BAD_QUERY. simpl. split; [done|]. split; [done|]. split; [apply alike_refl|done]. Qed.
Lemma nevra_strict_well s q cmp l : coherent s -> query_good s q -> ends_well s (nevra_strict s q cmp l).
Proof.
  intros Hs Hq. unfold nevra_strict. destruct (has cmp HY_EQ); [|by apply refused_well]. cbn [negb].
  destruct (apply_ok s q Hs Hq) as (s1 & q1 & res & E & Eq & Hs1 & Hal & Hq1 & _ & _ & Hr & _). rewrite E, Eq.
  destruct (nevra_strict_ok cmp l res s1 Hs1 Hr) as (Hst & Hm & Hsub). destruct (filterNevraStrict cmp l res s1) as [s2 res2]. simpl in Hst, Hm, Hsub.
  pose proof Hst as (Hs2 & Hal2 & _). exists Done. simpl. split; [done|]. split; [done|]. split; [by eapply alike_trans|].
  pose proof (good_steady s1 s2 q1 Hst Hs1 Hq1) as [G1 G2 G3 G5]. split; simpl; [|done|done|done]. rewrite Eq in G1. destruct G1 as [_ G1]. split; [|exact G1].
  apply (alike_result s1 s2); [done|]. split; [done|]. intros p Hp%Hsub. by apply Hr.
Qed.
Lemma copied_chars l key : exists l', copyFilterChars l key = Ok l'.
Proof.
  induction l as [|t l [l' IH]]; simpl; [by eexists|]. assert (Ht : exists t', copyFilterChar (Some t) key = Ok t') by (simpl; destruct (_ && _); by eexists).
  destruct Ht as [t' Et]. simpl in Et. rewrite Et, IH. by eexists.
Qed.
Lemma text_typed key cmp l pl : valid_filter_str key cmp = true -> match_type_reldep key = false -> key <> HY_PKG_NEVRA_STRICT ->
  filter_ok pl (mkFilter key cmp (MStr l)).
Proof.
  intros Hv Hr Hn. apply typed_ok; [|done]. unfold typed. simpl. rewrite Hr, bool_decide_false by done. unfold valid_filter_str in Hv.
  by destruct (match_type_str key).
Qed.
Lemma str_well s q key cmp t : coherent s -> query_good s q -> ends_well s (addFilter_str key cmp (Some t) s q).
Proof.
  intros Hs Hq. unfold addFilter_str. case_bool_decide as Hk; [by apply nevra_strict_well|].
  rewrite (bool_decide_false (Some t = None)), andb_false_r by done. set (cmp' := if _ && _ then _ else _).
  destruct (valid_filter_str key cmp') eqn:Hv; [|by apply refused_well]. cbn [negb]. pose proof (unapplied_good s q Hq) as Hq'.
  destruct (is_reldep_key key) eqn:Er.
  - destruct (cmp' =? HY_GLOB).
    + pose proof (reldep_glob_steady (default [] (Some t)) [] s Hs) as Hst. destruct (addReldepWithGlob _ _ _) as [s1 [l b]]. simpl in Hst.
      pose proof (good_steady _ _ _ Hst Hs Hq'). destruct b; (apply done_well; [done|]); [by apply reldeps_good|by apply num_good].
    + pose proof (dependency_steady (Some t) s Hs) as Hst. destruct (new_dependency _ _) as [s1 [r|]]; simpl in Hst;
        pose proof (good_steady _ _ _ Hst Hs Hq'); (apply done_well; [done|]); [by apply reldep_good|by apply num_good].
  - destruct (copyFilterChar (Some t) key) as [t'|e] eqn:E; [|simpl in E; by destruct (_ && _) in E]. exists Done. simpl.
    split; [done|]. split; [done|]. split; [apply alike_refl|]. apply (push_good s q); [done|]. by apply text_typed.
Qed.
Lemma add_reldeps_steady glob l r s : coherent s -> steady s (fst (add_reldeps glob l r s)).
Proof.
  revert r s. induction l as [|t l IH]; intros r s Hs; simpl; [by apply still_steady|].
  assert (H : forall s1 r1, steady s s1 -> steady s (fst (add_reldeps glob l r1 s1))).
  { intros s1 r1 H. eapply steadily; [exact H|]. apply IH, H. }
  destruct glob.
  - pose proof (reldep_glob_steady t r s Hs) as Hst. destruct (addReldepWithGlob _ _ _) as [s1 [l1 b]]. by apply H.
  - pose proof (reldep_steady t r s Hs) as Hst. destruct (addReldep _ _ _) as [s1 l1]. by apply H.
Qed.
Lemma strs_well s q key cmp l : coherent s -> query_good s q -> ends_well s (addFilter_strs key cmp l s q).
Proof.
  intros Hs Hq. unfold addFilter_strs. case_bool_decide as Hk; [by apply nevra_strict_well|]. set (cmp' := if _ && _ then _ else _).
  destruct (valid_filter_str key cmp') eqn:Hv; [|by apply refused_well]. cbn [negb]. pose proof (unapplied_good s q Hq) as Hq'.
  destruct (is_reldep_key key) eqn:Er.
  - pose proof (add_reldeps_steady (cmp' =? HY_GLOB) l [] s Hs) as Hst. destruct (add_reldeps _ _ _ _) as [s1 r]. simpl in Hst.
    apply done_well; [done|]. by apply reldeps_good, (good_steady s s1).
  - destruct (copied_chars l key) as [l' ->]. exists Done. simpl. split; [done|]. split; [done|]. split; [apply alike_refl|].
    apply (push_good s q); [done|]. by apply text_typed.
Qed.

Inductive call :=
| CNum (key : Keyname) (cmp : Z) (nums : list Z) | CPset (key : Keyname) (cmp : Z) (pset : Map)
| CReldep (key : Keyname) (reldep : Z) | CReldeps (key : Keyname) (reldeps : list Z)
| CStr (key : Keyname) (cmp : Z) (t : option cstr) | CStrs (key : Keyname) (cmp : Z) (l : list cstr)
| CApply | CClear.
#[global] Instance call_eq_dec : EqDecision call.
Proof. solve_decision. Defined.
Definition exec_call (c : call) s q : DnfSack * Query * result failure ret :=
  match c with
  | CNum key cmp l => done s (addFilter_num key cmp l q)
  | CPset key cmp pset => done s (addFilter_pset key cmp pset q)
  | CReldep key r => done s (addFilter_reldep key r q)
  | CReldeps key l => done s (addFilter_reldeps key l q)
  | CStr key cmp t => addFilter_str key cmp t s q
  | CStrs key cmp l => addFilter_strs key cmp l s q
  | CApply => match apply s q with Ok (s, q) => (s, q, Ok Done) | Err e => (s, q, Err e) end
  | CClear => (s, clear q, Ok Done)
  end.
Fixpoint run_calls (l : list call) s q : result failure (DnfSack * Query) :=
  match l with
  | [] => Ok (s, q)
  | c :: l => match exec_call c s q with (s, q, Ok _) => run_calls l s q | (_, _, Err e) => Err e end
  end.
(** ** Filters now or later *)

Lemma run_filter_query s q q' f res m : flags q = flags q' -> considered_cached q = considered_cached q' -> run_filter s q f res m = run_filter s q' f res m.
Proof. intros E1 E2. unfold run_filter, filterUpdownAble. by rewrite E1, E2. Qed.
Lemma apply_filters_query s q q' l m res : flags q = flags q' -> considered_cached q = considered_cached q' -> apply_filters s q l m res = apply_filters s q' l m res.
Proof.
  intros E1 E2. revert s m res. induction l as [|f l IH]; intros s m res; simpl; [done|]. rewrite (run_filter_query s q q') by done.
  unfold result_bind. destruct (run_filter s q' f res (map_empty m)) as [[s1 m1]|]; [apply IH|done].
Qed.
Lemma apply_filters_length s q l m m' res : length m = length m' -> apply_filters s q l m res = apply_filters s q l m' res.
Proof. intros E. destruct l as [|f l]; simpl; [done|]. by rewrite !map_empty_spec, E. Qed.
Lemma map_ok_length pl m m' : map_ok pl m -> map_ok pl m' -> length m = length m'.
Proof. intros [_ H1] [_ H2]. unfold bits in *. lia. Qed.
Lemma apply_filters_app s q l1 l2 m res : coherent s -> result_ok (pool s) res -> map_ok (pool s) m -> Forall (filter_ok (pool s)) l1 ->
  opt_ok (allowed s q) -> opt_room s (allowed s q) ->
  apply_filters s q (l1 ++ l2) m res = let* sr := apply_filters s q l1 m res in apply_filters (fst sr) q l2 m (snd sr).
Proof.
  revert s m res. induction l1 as [|f l1 IH]; intros s m res Hs Hr Hm Hl Ha1 Ha2; simpl; [done|]. apply Forall_cons in Hl as [Hf Hl].
  destruct (filter_runs_ok s q f res (map_empty m)) as (s1 & Hst & m1 & E & Hm1); [done|done|by apply empty_ok|done|done|done|].
  rewrite E. simpl. destruct (narrowed_ok (pool s) (has (cmpType f) HY_NOT) m1 res Hr Hm1) as [Hr1 _]. set (res1 := if has _ _ then _ else _) in *.
  pose proof Hst as (Hs1 & Hal & _). destruct (allowed_steady s s1 q Hst Ha1 Ha2) as [Ea Ha3].
  rewrite IH; [|done|by apply (alike_result s s1)|by apply (alike_map s s1)| |by rewrite Ea|done].
  - unfold result_bind. destruct (apply_filters s1 q l1 m1 res1) as [[s2 res2]|]; [|done]. apply apply_filters_length. by apply (map_ok_length (pool s)).
  - eapply Forall_impl; [exact Hl|]. intros g. by apply filter_ok_alike.
Qed.
Definition add_filters (l : list Filter) q : Query := mkQuery false (flags q) (result_map q) (filters q ++ l) (considered_cached q).
(** Filters that are collected and applied at the end give what applying the
    query in between gives: with the result of the first filters the others
    start, and the sack ends in the same state. *)
Theorem apply_in_parts s q l : coherent s -> query_good s q -> applied q = false -> Forall (filter_ok (pool s)) l ->
  apply s (add_filters l q) = let* sq := apply s q in apply (fst sq) (add_filters l (snd sq)).
Proof.
  intros Hs Hq Ea Hl. destruct (started s q Hs Hq Ea) as (s1 & res & cached & E & Hs1 & Hal & Hr & _ & Hq1).
  unfold apply at 1 2. rewrite Ea. cbn [add_filters applied result_map flags considered_cached filters]. rewrite E.
  assert (El : (length (map_init (nsolvables (pool s1))) =? length res)%nat = true).
  { apply Nat.eqb_eq, (map_ok_length (pool s1)); [apply init_ok|apply Hr]. }
  rewrite El. cbn [negb]. set (q1 := mkQuery false (flags q) (Some res) (filters q) cached) in *.
  rewrite (apply_filters_query s1 _ q1) by done.
  rewrite apply_filters_app; [|done|done|apply init_ok|apply Hq1|by apply allowed_ok|apply (good_result s1 q1 Hq1)].
  destruct (apply_filters_ok s1 q1 (filters q) (map_init (nsolvables (pool s1))) res) as (s2 & res2 & E2 & Hst & Hr2 & Hb2);
    [done|done|apply init_ok|apply Hq1|by apply allowed_ok|apply (good_result s1 q1 Hq1)|].
  rewrite E2. cbn [result_bind fst snd add_filters]. unfold apply. cbn [add_filters applied result_map flags considered_cached filters app].
  destruct Hst as (_ & Hal2 & _). destruct (alike_n _ _ Hal2) as [Hn _]. rewrite Hn.
  assert (El2 : (length (map_init (nsolvables (pool s1))) =? length res2)%nat = true).
  { apply Nat.eqb_eq, (map_ok_length (pool s1)); [apply init_ok|apply Hr2]. }
  rewrite El2. cbn [negb]. f_equal. by apply apply_filters_query.
Qed.

(** ** Sequences of calls *)

(** Texts are there, and package sets are of packages of the sack. *)
Definition call_fine s (c : call) : Prop :=
  match c with
  | CPset _ _ pset => result_ok (pool s) pset
  | CStr _ _ t => is_Some t
  | _ => True
  end.
(** A package set that is accepted for [HY_PKG_PROVIDES]: its filter aborts. *)
Definition arms (c : call) : bool := match c with CPset key cmp _ => bool_decide (key = HY_PKG_PROVIDES) && valid_filter_pkg key cmp | _ => false end.
(** The calls that apply the filters. *)
Definition applies (c : call) : bool :=
  match c with
  | CApply => true
  | CStr key cmp _ | CStrs key cmp _ => bool_decide (key = HY_PKG_NEVRA_STRICT) && has cmp HY_EQ
  | _ => false
  end.
Definition armed_after (armed : bool) (c : call) : bool := match c with CClear => false | _ => armed || arms c end.
(** A call applies such a filter. *)
Fixpoint aborts (armed : bool) (l : list call) : bool :=
  match l with [] => false | c :: l => armed && applies c || aborts (armed_after armed c) l end.

Lemma exec_call_well c s q : coherent s -> query_good s q -> call_fine s c -> arms c = false -> ends_well s (exec_call c s q).
Proof.
  intros Hs Hq Hc Ha. pose proof (still_steady s Hs) as Hst. destruct c as [key cmp l|key cmp pset|key r|key l|key cmp t|key cmp l| |]; simpl in Hc; cbn [exec_call].
  - apply done_well; [done|by apply num_good].
  - apply done_well; [done|]. simpl in Ha. destruct (decide (key = HY_PKG_PROVIDES)) as [->|Hk]; [|by apply pset_good].
    rewrite bool_decide_true in Ha by done. cbn [andb] in Ha. unfold addFilter_pset. by rewrite Ha.
  - apply done_well; [done|by apply reldep_good].
  - apply done_well; [done|by apply reldeps_good].
  - destruct Hc as [t' ->]. by apply str_well.
  - by apply strs_well.
  - destruct (apply_ok s q Hs Hq) as (s1 & q1 & res & E & _ & H1 & H2 & H3 & _). rewrite E. by exists Done.
  - exists Done. simpl. split; [done|]. split; [done|]. split; [apply alike_refl|]. split; [done|apply Hq|constructor|done].
Qed.
(** Other calls only add filters. *)
Definition collected s q (r : DnfSack * Query * result failure ret) : Prop :=
  exists s' b l x, r = (s', mkQuery b (flags q) (result_map q) (filters q ++ l) (considered_cached q), Ok x) /\ steady s s' /\ (applied q = false -> b = false).
Lemma nothing_collected s q x : coherent s -> collected s q (s, q, Ok x).
Proof. intros Hs. exists s, (applied q), [], x. rewrite app_nil_r. split; [by destruct q|]. split; [by apply still_steady|done]. Qed.
Lemma collected_filter s s' q f x : steady s s' -> collected s q (s', push_filter f (set_applied false q), Ok x).
Proof. intros H. by exists s', false, [f], x. Qed.
Lemma num_collected s s' q q' key cmp l : steady s s' -> q' = q \/ q' = set_applied false q -> collected s q (done s' (addFilter_num key cmp l q')).
Proof.
  intros H Hq. unfold addFilter_num. destruct (negb _); [|by destruct Hq as [-> | ->]; exact (collected_filter s s' q _ _ H)].
  destruct Hq as [-> | ->]; [exists s', (applied q)|exists s', false]; exists [], DNF_ERROR_BAD_QUERY; rewrite app_nil_r; (split; [by destruct q|done]).
Qed.
Lemma reldeps_collected s s' q q' key l : steady s s' -> q' = q \/ q' = set_applied false q -> collected s q (done s' (addFilter_reldeps key l q')).
Proof.
  intros H Hq. unfold addFilter_reldeps. destruct (negb _); [|by destruct Hq as [-> | ->]; exact (collected_filter s s' q _ _ H)].
  destruct Hq as [-> | ->]; [exists s', (applied q)|exists s', false]; exists [], DNF_ERROR_BAD_QUERY; rewrite app_nil_r; (split; [by destruct q|done]).
Qed.
Lemma reldep_collected s s' q q' key r : steady s s' -> q' = q \/ q' = set_applied false q -> collected s q (done s' (addFilter_reldep key r q')).
Proof.
  intros H Hq. unfold addFilter_reldep. destruct (negb _); [|by destruct Hq as [-> | ->]; exact (collected_filter s s' q _ _ H)].
  destruct Hq as [-> | ->]; [exists s', (applied q)|exists s', false]; exists [], DNF_ERROR_BAD_QUERY; rewrite app_nil_r; (split; [by destruct q|done]).
Qed.
Lemma strict_collected s q cmp l : coherent s -> has cmp HY_EQ = false -> collected s q (nevra_strict s q cmp l).
Proof. intros Hs E. unfold nevra_strict. rewrite E. by apply nothing_collected. Qed.
Lemma str_collected s q key cmp t : coherent s -> bool_decide (key = HY_PKG_NEVRA_STRICT) && has cmp HY_EQ = false -> collected s q (addFilter_str key cmp (Some t) s q).
Proof.
  intros Hs Hn. unfold addFilter_str. case_bool_decide as Hk; [by apply strict_collected|].
  rewrite (bool_decide_false (Some t = None)), andb_false_r by done. set (cmp' := if _ && _ then _ else _).
  destruct (valid_filter_str key cmp'); [|by apply nothing_collected]. cbn [negb]. destruct (is_reldep_key key).
  - destruct (cmp' =? HY_GLOB).
    + pose proof (reldep_glob_steady (default [] (Some t)) [] s Hs) as Hst. destruct (addReldepWithGlob _ _ _) as [s1 [l b]]. simpl in Hst.
      destruct b; [apply reldeps_collected|apply num_collected]; auto.
    + pose proof (dependency_steady (Some t) s Hs) as Hst. destruct (new_dependency _ _) as [s1 [r|]]; simpl in Hst; [apply reldep_collected|apply num_collected]; auto.
  - destruct (copyFilterChar (Some t) key) as [t'|e] eqn:E; [|simpl in E; by destruct (_ && _) in E]. by apply collected_filter, still_steady.
Qed.
Lemma strs_collected s q key cmp l : coherent s -> bool_decide (key = HY_PKG_NEVRA_STRICT) && has cmp HY_EQ = false -> collected s q (addFilter_strs key cmp l s q).
Proof.
  intros Hs Hn. unfold addFilter_strs. case_bool_decide as Hk; [by apply strict_collected|]. set (cmp' := if _ && _ then _ else _).
  destruct (valid_filter_str key cmp'); [|by apply nothing_collected]. cbn [negb]. destruct (is_reldep_key key).
  - pose proof (add_reldeps_steady (cmp' =? HY_GLOB) l [] s Hs) as Hst. destruct (add_reldeps _ _ _ _) as [s1 r]. apply reldeps_collected; auto.
  - destruct (copied_chars l key) as [l' ->]. by apply collected_filter, still_steady.
Qed.
Lemma exec_call_collected c s q : coherent s -> call_fine s c -> applies c = false -> c <> CClear -> collected s q (exec_call c s q).
Proof.
  intros Hs Hc Ha Hcl. pose proof (still_steady s Hs) as Hst. destruct c as [key cmp l|key cmp pset|key r|key l|key cmp t|key cmp l| |]; simpl in Hc, Ha; try done; cbn [exec_call].
  - apply num_collected; auto.
  - unfold addFilter_pset. destruct (negb _); [by apply nothing_collected|by apply collected_filter].
  - apply reldep_collected; auto.
  - apply reldeps_collected; auto.
  - destruct Hc as [t' ->]. by apply str_collected.
  - by apply strs_collected.
Qed.

(** A query with a filter that aborts: those in front of the first one are in order. *)
Definition with_filters (l : list Filter) q : Query := mkQuery (applied q) (flags q) (result_map q) l (considered_cached q).
Definition armed s q : Prop := applied q = false /\ exists l bad rest pset, filters q = l ++ bad :: rest /\ query_good s (with_filters l q)
  /\ keyname bad = HY_PKG_PROVIDES /\ matches bad = MPkg pset.
Lemma armed_apply s q : coherent s -> armed s q -> apply s q = Err Crash.
Proof.
  intros Hs (Ea & l & bad & rest & pset & Ef & Hq & Hk & Hm). destruct (started s (with_filters l q) Hs Hq Ea) as (s1 & res & cached & E & Hs1 & _ & Hr & _ & Hq1).
  unfold apply. cbn [with_filters result_map flags considered_cached filters] in E, Hq1. rewrite Ea, E.
  assert (El : (length (map_init (nsolvables (pool s1))) =? length res)%nat = true).
  { apply Nat.eqb_eq, (map_ok_length (pool s1)); [apply init_ok|apply Hr]. }
  rewrite El. cbn [negb filters]. set (q1 := mkQuery false (flags q) (Some res) l cached) in *. rewrite Ef, (apply_filters_query s1 _ q1) by done.
  rewrite apply_filters_app; [|done|done|apply init_ok|apply Hq1|by apply allowed_ok|apply (good_result s1 q1 Hq1)].
  destruct (apply_filters_ok s1 q1 l (map_init (nsolvables (pool s1))) res) as (s2 & res2 & -> & _);
    [done|done|apply init_ok|apply Hq1|by apply allowed_ok|apply (good_result s1 q1 Hq1)|].
  cbn [result_bind fst snd apply_filters]. unfold run_filter. by rewrite Hk, Hm.
Qed.
Lemma armed_exec c s q : coherent s -> armed s q -> call_fine s c ->
  if applies c then snd (exec_call c s q) = Err Crash
  else exists x, snd (exec_call c s q) = Ok x /\ coherent (fst (fst (exec_call c s q))) /\ alike s (fst (fst (exec_call c s q)))
    /\ match c with CClear => query_good | _ => armed end (fst (fst (exec_call c s q))) (snd (fst (exec_call c s q))).
Proof.
  intros Hs Hq Hc. destruct (applies c) eqn:Ea.
  - destruct c as [| | | |key cmp t|key cmp l| |]; try done; cbn [exec_call]; [| |by rewrite (armed_apply s q)];
      apply andb_true_iff in Ea as [Hk He]; unfold addFilter_str, addFilter_strs; rewrite Hk; unfold nevra_strict; rewrite He; cbn [negb]; by rewrite (armed_apply s q).
  - destruct (decide (c = CClear)) as [->|Hn].
    + exists Done. split; [done|]. split; [done|]. split; [apply alike_refl|]. destruct Hq as (_ & l & bad & rest & pset & _ & Hq & _). split; [done|exact (good_cached _ _ Hq)|constructor|done].
    + destruct (exec_call_collected c s q Hs Hc Ea Hn) as (s' & b & more & x & -> & Hst & Hb). exists x. pose proof Hst as (Hs' & Hal & _). split; [done|]. split; [done|]. split; [done|].
      assert (H : armed s' (mkQuery b (flags q) (result_map q) (filters q ++ more) (considered_cached q))); [|by destruct c].
      destruct Hq as (Eb & l & bad & rest & pset & Ef & Hq & Hk & Hm). split; [by apply Hb|]. exists l, bad, (rest ++ more), pset. cbn [filters]. rewrite Ef, <-app_assoc.
      split; [done|]. split; [|done]. apply (good_steady s s' _ Hst Hs) in Hq. unfold with_filters in *. cbn [applied flags result_map considered_cached] in *. by rewrite Eb in Hq; rewrite (Hb Eb).
Qed.
Definition in_order (b : bool) : DnfSack -> Query -> Prop := if b then armed else query_good.
Lemma exec_call_exact b c s q : coherent s -> in_order b s q -> call_fine s c ->
  if b && applies c then snd (exec_call c s q) = Err Crash
  else exists x, snd (exec_call c s q) = Ok x /\ coherent (fst (fst (exec_call c s q))) /\ alike s (fst (fst (exec_call c s q)))
    /\ in_order (armed_after b c) (fst (fst (exec_call c s q))) (snd (fst (exec_call c s q))).
Proof.
  intros Hs Hq Hc. destruct b; cbn [andb in_order] in *.
  - pose proof (armed_exec c s q Hs Hq Hc) as H. destruct (applies c); [done|]. destruct H as (x & H1 & H2 & H3 & H4). exists x. split; [done|]. split; [done|]. split; [done|]. by destruct c.
  - destruct (arms c) eqn:Ea.
    + destruct c as [|key cmp pset| | | | | |]; try done. pose proof Ea as [->%bool_decide_eq_true Hv]%andb_true_iff. cbn [exec_call armed_after orb]. rewrite Ea. unfold addFilter_pset. rewrite Hv.
      exists Done. split; [done|]. split; [done|]. split; [apply alike_refl|]. split; [done|]. exists (filters q), (mkFilter HY_PKG_PROVIDES cmp (MPkg pset)), [], pset.
      split; [done|]. split; [|done]. exact (unapplied_good s q Hq).
    + destruct (exec_call_well c s q Hs Hq Hc Ea) as (x & H1 & H2 & H3 & H4). exists x. split; [done|]. split; [done|]. split; [done|].
      assert (E : armed_after false c = false) by (destruct c; done). by rewrite E.
Qed.
Lemma run_calls_exact b l s q : coherent s -> in_order b s q -> Forall (call_fine s) l ->
  if aborts b l then run_calls l s q = Err Crash
  else exists s' q', run_calls l s q = Ok (s', q') /\ coherent s' /\ alike s s' /\ in_order (fold_left armed_after l b) s' q'.
Proof.
  revert b s q. induction l as [|c l IH]; intros b s q Hs Hq Hl; cbn [aborts run_calls fold_left].
  { exists s, q. split; [done|]. split; [done|]. split; [apply alike_refl|done]. }
  apply Forall_cons in Hl as [Hc Hl]. pose proof (exec_call_exact b c s q Hs Hq Hc) as H. destruct (exec_call c s q) as [[s1 q1] r]. cbn [fst snd] in H.
  destruct (b && applies c); [by subst r|]. destruct H as (x & -> & Hs1 & Hal & Hq1). cbn [orb]. specialize (IH (armed_after b c) s1 q1 Hs1 Hq1).
  assert (Hl1 : Forall (call_fine s1) l) by (eapply Forall_impl; [exact Hl|]; intros [] H; simpl in *; try done; by apply (alike_result s s1)).
  specialize (IH Hl1). destruct (aborts (armed_after b c) l); [done|]. destruct IH as (s2 & q2 & E & Hs2 & Hal2 & Hq2).
  exists s2, q2. split; [done|]. split; [done|]. split; [by eapply alike_trans|done].
Qed.

(** ** Extras and duplicates *)

Lemma in_repos_alike s s' names p : alike s s' -> 2 <= p < nsolvables (pool s) -> in_repos (pool s') names p = in_repos (pool s) names p.
Proof. intros Ha Hp. unfold in_repos, repo_name. destruct (alike_pool _ _ Ha) as [_ H]. by rewrite (proj1 (H p Hp)), (alike_repos _ _ Ha). Qed.
Definition repo_filter (cmp : Z) (names : list cstr) : Filter := mkFilter HY_PKG_REPONAME cmp (MStr names).
Lemma of_repo_eq s q : of_repo HY_EQ s q = (s, push_filter (repo_filter HY_EQ [HY_SYSTEM_REPO_NAME]) (set_applied false q)).
Proof. reflexivity. Qed.
Lemma of_repo_neq s q : of_repo HY_NEQ s q = (s, push_filter (repo_filter HY_NEQ [HY_SYSTEM_REPO_NAME]) (set_applied false q)).
Proof. reflexivity. Qed.
(** A query whose only filter is one by repositories. *)
Lemma apply_repo s q cmp names : cmp = HY_EQ \/ cmp = HY_NEQ -> coherent s -> query_good s q -> applied q = false -> filters q = [repo_filter cmp names] ->
  exists s' res' cached, apply s q = Ok (s', mkQuery true (flags q) (Some res') [] cached) /\ coherent s' /\ alike s s' /\ result_ok (pool s') res'
    /\ forall k, bit res' k = start s q k && (if has cmp HY_NOT then negb (in_repos (pool s) names k) else in_repos (pool s) names k).
Proof.
  intros Hcmp Hs Hq Ea Ef. destruct (started s q Hs Hq Ea) as (s1 & res & cached & E & Hs1 & Hal & Hr & Hbit & Hq1).
  unfold apply. rewrite Ea, E, Ef. cbn [filters].
  assert (El : (length (map_init (nsolvables (pool s1))) =? length res)%nat = true).
  { apply Nat.eqb_eq, (map_ok_length (pool s1)); [apply init_ok|apply Hr]. }
  rewrite El. cbn [negb apply_filters]. set (q1 := mkQuery _ _ _ _ _) at 1. set (f := repo_filter cmp names).
  destruct (empty_ok (pool s1) _ (init_ok (pool s1))) as [He Hz]. set (m := map_empty (map_init (nsolvables (pool s1)))) in *.
  destruct (missing_filter_ok (flags q1) f res m s1 Hs1 Hr He) as [Hst Hm].
  pose proof (reponame_spec (flags q1) f res m s1 names) as Hspec.
  change (run_filter s1 q1 f res m) with (Ok (missing_filter (flags q1) f res m s1) : result failure (DnfSack * Map)).
  destruct (missing_filter (flags q1) f res m s1) as [s2 m2]. cbn [fst snd] in *. cbn [result_bind cmpType f repo_filter].
  destruct (narrowed_ok (pool s1) (has cmp HY_NOT) m2 res Hr Hm) as [Hr2 Hb2]. destruct Hst as (Hs2 & Hal2 & _).
  exists s2. eexists. exists cached. split; [reflexivity|]. split; [done|]. split; [by eapply alike_trans|]. split; [by apply (alike_result s1 s2)|].
  intros k. rewrite Hb2, Hbit. destruct (start s q k) eqn:Ek; [|done]. cbn [andb]. rewrite Hspec by done. rewrite Hz, Hbit, Ek. cbn [orb andb].
  rewrite <-Hbit in Ek. pose proof (result_range _ _ _ Hr Ek) as Hk. destruct (alike_n _ _ Hal) as [Hn _]. rewrite Hn in Hk.
  by rewrite (in_repos_alike s s1).
Qed.

#[local] Instance name_arch_total pl : Total (name_arch_le pl).
Proof. intros a b. unfold name_arch_le, NameArchSolvableComparator. eqb_cases. Qed.
Lemma name_arch_le_iff pl a b : name_arch_le pl a b <-> name_of pl a < name_of pl b \/ name_of pl a = name_of pl b /\ arch_of pl a <= arch_of pl b.
Proof. unfold name_arch_le, NameArchSolvableComparator. eqb_cases. Qed.
#[local] Instance name_arch_trans pl : Transitive (name_arch_le pl).
Proof. intros a b c. rewrite !name_arch_le_iff. lia. Qed.
Definition same_name_and_arch pl (p a : Z) : bool := (name_of pl a =? name_of pl p) && (arch_of pl a =? arch_of pl p).
Lemma has_available_spec pl l p : has_available pl (merge_sort (name_arch_le pl) l) p = existsb (same_name_and_arch pl p) l.
Proof.
  set (l' := merge_sort _ l). assert (Hp : existsb (same_name_and_arch pl p) l' = existsb (same_name_and_arch pl p) l).
  { apply eq_true_iff_eq. rewrite !existsb_exists. setoid_rewrite <-list_elem_of_In. unfold l'. by setoid_rewrite merge_sort_Permutation. }
  rewrite <-Hp. unfold has_available. apply (found_at _ (same_name_and_arch pl p) (fun x => NameArchSolvableComparator pl p x)).
  - intros a. unfold same_name_and_arch, NameArchSolvableComparator. apply eq_true_iff_eq. rewrite !andb_true_iff, !negb_true_iff, !Z.eqb_eq. eqb_cases.
  - eapply sorted_weaken; [|apply StronglySorted_merge_sort; apply _]. intros a b Hab%name_arch_le_iff. unfold NameArchSolvableComparator. eqb_cases.
  - intros a. unfold NameArchSolvableComparator. eqb_cases.
Qed.
(** A package that is not installed and not excluded by modules, of the name and architecture. *)
Definition available s (p a : Z) : Prop :=
  a ∈ packages (pool s) /\ should_consider s IGNORE_REGULAR_EXCLUDES a = true /\ in_repos (pool s) [HY_SYSTEM_REPO_NAME] a = false
  /\ name_of (pool s) a = name_of (pool s) p /\ arch_of (pool s) a = arch_of (pool s) p.

Lemma alike_available s s' p a : alike s s' -> p ∈ packages (pool s) -> available s' p a <-> available s p a.
Proof.
  intros Ha Hp%packages_range. unfold available. destruct (alike_n _ _ Ha) as [_ ->]. destruct (alike_pool _ _ Ha) as [_ Hsame].
  split; intros (H1 & H2 & H3 & H4 & H5); pose proof (packages_range _ _ H1) as Hr; revert H2 H3 H4 H5;
    rewrite (in_repos_alike s s'), (alike_should s s') by done; unfold name_of, arch_of; rewrite (proj1 (Hsame p Hp)), (proj1 (Hsame a Hr)); tauto.
Qed.
Lemma ids_in res p : bytes_ok res -> p ∈ pset_ids res <-> bit res p = true.
Proof. by apply pset_ids_spec. Qed.

(** C22. [filterExtras] keeps just the installed packages of the query for which no
    package of the same name and architecture is available from another
    repository: packages that are excluded count as available, those that
    modules exclude do not, as the header promises. *)
Theorem extras_spec s q : coherent s -> query_good s q ->
  exists s1 q1 res s' res', apply s q = Ok (s1, q1) /\ result_map q1 = Some res /\ filterExtras s q = Ok (s', set_result res' q1) /\ coherent s' /\ alike s s'
    /\ forall k, bit res' k = true <-> bit res k = true /\ in_repos (pool s) [HY_SYSTEM_REPO_NAME] k = true /\ ~ exists a, available s k a.
Proof.
  intros Hs Hq. destruct (apply_ok s q Hs Hq) as (s1 & q1 & res & E & Eq & Hs1 & Hal & Hq1 & _ & Hf1 & Hr & _).
  exists s1, q1, res. unfold filterExtras, with_result. rewrite E. cbn [result_bind]. rewrite Eq. cbn [result_bind]. rewrite of_repo_eq.
  set (qi := push_filter _ _).
  assert (Hqi : query_good s1 qi).
  { apply push_good; [|by apply typed_ok]. destruct Hq1 as [G1 G2 G3 G5]. split; simpl; [|done|done|done].
    rewrite Eq in G1 |- *. destruct G1 as [G1 G4]. split; [done|]. unfold allowed in *. simpl. by destruct (_ && _). }
  destruct (apply_repo s1 qi HY_EQ [HY_SYSTEM_REPO_NAME] (or_introl eq_refl) Hs1 Hqi) as (s2 & ri & ci & E2 & Hs2 & Hal2 & Hri & Hbi); [done|by simpl; rewrite Hf1|].
  unfold run_set, with_result. rewrite E2. cbn [result_bind result_map].
  destruct (empty_ok (pool s1) res (proj1 Hr)) as [He Hz].
  assert (Hal12 : alike s s2) by by eapply alike_trans.
  assert (Hbi' : forall k, bit ri k = bit res k && in_repos (pool s) [HY_SYSTEM_REPO_NAME] k).
  { intros k. rewrite Hbi. unfold start. cbn [qi push_filter set_applied copy_query result_map]. rewrite Eq. destruct (bit res k) eqn:Ek; [|done]. simpl.
    apply in_repos_alike; [done|]. destruct (alike_n _ _ Hal) as [<- _]. by apply (result_range (pool s1) res). }
  destruct (pset_ids ri) as [|id0 ids0] eqn:Eids.
  { exists s2, (map_empty res). split; [done|]. split; [done|]. split; [done|]. split; [done|]. split; [done|]. intros k. rewrite Hz. split; [done|].
    intros (H1 & H2 & _). exfalso. assert (H3 : k ∈ pset_ids ri) by (apply ids_in; [apply Hri|by rewrite Hbi', H1, H2]). rewrite Eids in H3. by apply elem_of_nil in H3. }
  rewrite <-Eids. clear Eids id0 ids0. rewrite of_repo_neq. set (qa := push_filter _ _).
  assert (Hqa : query_good s2 qa) by (apply push_good; [apply new_good|by apply typed_ok]).
  destruct (apply_repo s2 qa HY_NEQ [HY_SYSTEM_REPO_NAME] (or_intror eq_refl) Hs2 Hqa) as (s3 & ra & ca & E3 & Hs3 & Hal3 & Hra & Hba); [done|done|].
  rewrite E3. cbn [result_bind result_map].
  assert (Hset : adds (each_package (fun p m => set_if (negb (has_available (pool s3) (merge_sort (name_arch_le (pool s3)) (pset_ids ra)) p)) p m) (pset_ids ri) (map_empty res)) (map_empty res)
    (fun k => bool_decide (k ∈ pset_ids ri) && negb (existsb (same_name_and_arch (pool s3) k) (pset_ids ra)))).
  { eapply adds_ext; [|apply each_set; [apply He|]].
    - intros k. simpl. by rewrite has_available_spec.
    - intros p Hp. apply (in_result (pool s2) ri (map_empty res)); [done|by apply (alike_map s1 s2)|done|done]. }
  destruct Hset as (res' & -> & Hb1 & Hb2 & Hb3). cbn [result_bind]. assert (Hal13 : alike s s3) by by eapply alike_trans.
  exists s3, res'. split; [done|]. split; [done|]. split; [done|]. split; [done|]. split; [done|]. intros k. rewrite Hb3, Hz. simpl.
  rewrite andb_true_iff, bool_decide_eq_true, (ids_in ri), Hbi', andb_true_iff, negb_true_iff by apply Hri.
  destruct (bit res k) eqn:Ek; [|intuition done]. assert (Hk : k ∈ packages (pool s)) by (destruct (alike_n _ _ Hal) as [_ <-]; by apply Hr).
  pose proof (packages_range _ _ Hk) as Hkr.
  assert (Hba' : forall a, bit ra a = true <-> a ∈ packages (pool s) /\ should_consider s IGNORE_REGULAR_EXCLUDES a = true
    /\ in_repos (pool s) [HY_SYSTEM_REPO_NAME] a = false).
  { intros a. rewrite Hba. unfold start. cbn [qa push_filter set_applied new_query result_map flags].
    change (has HY_NEQ HY_NOT) with true. rewrite !andb_true_iff, bool_decide_eq_true, negb_true_iff. destruct (alike_n _ _ Hal12) as [_ ->].
    split; intros H; [destruct H as [[H1 H2] H3]|destruct H as (H1 & H2 & H3)]; pose proof (packages_range _ _ H1);
      revert H2 H3; rewrite (in_repos_alike s s2), (alike_should s s2) by done; intros H2 H3; tauto. }
  assert (Hex : existsb (same_name_and_arch (pool s3) k) (pset_ids ra) = true <-> exists a, available s k a).
  { destruct (alike_pool _ _ Hal13) as [_ Hsame]. rewrite existsb_exists. setoid_rewrite <-list_elem_of_In. unfold available, same_name_and_arch, name_of, arch_of.
    rewrite (proj1 (Hsame k Hkr)).
    split; intros (a & Ha); exists a.
    - destruct Ha as [Ha He']. rewrite (ids_in ra), Hba' in Ha by apply Hra. destruct Ha as (H1 & H2 & H3).
      rewrite (proj1 (Hsame a (packages_range _ _ H1))) in He'. apply andb_true_iff in He' as [H4%Z.eqb_eq H5%Z.eqb_eq]. done.
    - rewrite (ids_in ra), Hba' by apply Hra. destruct Ha as (H1 & H2 & H3 & H4 & H5). rewrite (proj1 (Hsame a (packages_range _ _ H1))).
      split; [done|]. by apply andb_true_iff; split; apply Z.eqb_eq. }
  rewrite <-Hex, not_true_iff_false. tauto.
Qed.

(** Another installed package of the name that is not the same version for another architecture. *)
Definition duplicate pl res (p : Z) : Prop :=
  exists a, bit res a = true /\ a <> p /\ name_of pl a = name_of pl p /\ ~ (evr_of pl a = evr_of pl p /\ arch_of pl a <> arch_of pl p).
Lemma tested_ok l m : bytes_ok m -> (forall p, p ∈ l -> 0 <= p < bits m) -> tested l m = Ok (List.filter (bit m) l).
Proof.
  intros Hm. induction l as [|p l IH]; intros Hl; simpl; [done|]. rewrite test_in by (done || apply Hl; by left). simpl.
  rewrite IH by (intros q Hq; apply Hl; by right). simpl. by destruct (bit m p).
Qed.
(** [filterDuplicated] keeps just the installed packages of the query that have
    another one of their name there, unless that is the same version for another
    architecture. *)
Theorem duplicated_spec s q : coherent s -> query_good s q ->
  exists s' q' res res' pl, apply s (snd (of_repo HY_EQ s q)) = Ok (s', q') /\ result_map q' = Some res /\ filterDuplicated s q = Ok (s', set_result res' q')
    /\ pl = pool s' /\ coherent s' /\ forall k, bit res' k = true <-> bit res k = true /\ duplicate pl res k.
Proof.
  intros Hs Hq. unfold filterDuplicated. rewrite of_repo_eq. cbn [snd]. set (qi := push_filter _ _).
  assert (Hqi : query_good s qi) by (apply push_good; [done|by apply typed_ok]).
  destruct (apply_ok s qi Hs Hqi) as (s1 & q1 & res & E & Eq & Hs1 & Hal & Hq1 & _ & _ & Hr & _). exists s1, q1, res.
  unfold hy_query_to_name_ordered_queue, with_result. rewrite E. cbn [result_bind]. rewrite Eq. cbn [result_bind].
  pose proof (nsolvables_range (pool s1)) as Hn. pose proof (map_room _ _ (proj1 Hr)) as Hroom. unfold to_queue.
  rewrite tested_ok; [|apply Hr|intros p Hp%elem_of_seqZ; lia]. cbn [result_bind]. rewrite Eq. set (ids := List.filter (bit res) (seqZ 1 (nsolvables (pool s1) - 1))).
  assert (Hids : forall p, p ∈ ids <-> bit res p = true).
  { intros p. unfold ids. rewrite list_elem_of_In, List.filter_In, <-list_elem_of_In, elem_of_seqZ. split; [tauto|]. intros Hp.
    pose proof (result_range _ _ _ Hr Hp). split; [lia|done]. }
  destruct (empty_ok (pool s1) res (proj1 Hr)) as [He Hz].
  destruct (duplicates_adds (pool s1) ids (map_empty res)) as (res' & -> & Hb1 & Hb2 & Hb3).
  - apply NoDup_ListNoDup, List.NoDup_filter, NoDup_ListNoDup, NoDup_seqZ.
  - apply He.
  - intros p Hp%Hids. by apply (result_in (pool s1) res).
  - cbn [result_bind]. exists res', (pool s1). split; [done|]. split; [done|]. split; [done|]. split; [done|]. split; [done|].
    intros k. rewrite Hb3, Hz. simpl. rewrite andb_true_iff, bool_decide_eq_true, Hids, has_duplicate_iff. apply Morphisms_Prop.and_iff_morphism; [done|].
    unfold duplicate. setoid_rewrite list_elem_of_In. setoid_rewrite List.filter_In. setoid_rewrite <-list_elem_of_In. setoid_rewrite Hids. setoid_rewrite Z.eqb_eq.
    unfold same_evr_other_arch. setoid_rewrite andb_false_iff. setoid_rewrite negb_false_iff. setoid_rewrite Z.eqb_neq. setoid_rewrite Z.eqb_eq.
    split; intros (a & Ha); exists a; (destruct (decide (evr_of (pool s1) a = evr_of (pool s1) k)), (decide (arch_of (pool s1) a = arch_of (pool s1) k)); intuition congruence).
Qed.

(** ** Filters in general terms *)

(** [filterUpdownByPriority] selects the packages of the result that upgrade
    something, are not installed, and are from a repository with the highest
    priority of those that offer the name: the loop over the sorted candidates
    remembers only one name and one priority. *)
Theorem by_priority_spec s f res m : coherent s -> result_ok (pool s) res -> map_ok (pool s) m ->
  let s' := make_provides_ready s in
  let pl := pool s' in
  exists m', filterUpdownByPriority s f res m = Ok (s', m') /\ coherent s' /\ map_ok pl m' /\ forall k, bit m' k
    = bit m k || bool_decide (is_Some (installed pl)) && existsb (fun n => negb (n =? 0)) (nums f)
        && (bit res k && negb (is_installed pl k) && (0 <? what_upgrades pl k) && best_priority pl (candidates pl res) k).
Proof.
  intros Hs Hr Hm s' pl. destruct (ready_steady s Hs) as (Hs' & Hal & _). fold s' in Hs', Hal.
  assert (Hm' : map_ok pl m) by by apply (alike_map s s'). assert (Hr' : result_ok pl res) by by apply (alike_result s s').
  unfold filterUpdownByPriority. fold s'. fold pl. destruct (installed pl) as [r|]; cycle 1.
  { exists m. split; [done|]. split; [done|]. split; [done|]. intros k. by rewrite bool_decide_false, orb_false_r by by intros []. }
  assert (Hset : adds (each_num (fun m => updown_priority_loop pl (merge_sort (name_priority_le pl) (candidates pl res)) 0 0 m) f m) m
    (fun k => existsb (fun n => negb (n =? 0) && (bit res k && negb (is_installed pl k) && (0 <? what_upgrades pl k) && best_priority pl (candidates pl res) k)) (nums f))).
  { apply (each_adds _ (fun n k => negb (n =? 0) && (bit res k && negb (is_installed pl k) && (0 <? what_upgrades pl k) && best_priority pl (candidates pl res) k))); [|apply Hm'].
    intros n m1 _ H1 H2. destruct (n =? 0); simpl; [by apply adds_none|]. apply by_priority_adds; [apply Hr'|done|]. intros p Hp.
    split; [rewrite H2; by apply (result_in pl res)|]. apply name_positive. by apply Hr'. }
  destruct Hset as (m' & E & B1 & B2 & B3). exists m'. unfold candidates in E. rewrite E. split; [done|]. split; [done|].
  split; [split; [done|rewrite B2; apply Hm']|]. intros k. rewrite B3, bool_decide_true by done. f_equal. simpl.
  generalize (bit res k && negb (is_installed pl k) && (0 <? what_upgrades pl k) && best_priority pl (candidates pl res) k). intros b. clear.
  induction (nums f) as [|n l IH]; simpl; [done|]. rewrite IH. by destruct (n =? 0), b; simpl; rewrite ?andb_false_r, ?andb_true_r.
Qed.

(** C23. [filterAdvisory] selects the packages of the result that an advisory lists
    which is one of those asked for and applies to the enabled modules: with
    [HY_EQ] exactly the listed version, with other operators a version of the
    same name and architecture that compares to the listed one as the operator
    says. The sorted vector and the binary searches find every one. *)
Theorem advisory_spec s f res m : result_ok (pool s) res -> map_ok (pool s) m ->
  exists m', filterAdvisory s f res m = Ok m' /\ map_ok (pool s) m' /\ forall k, bit m' k = true <->
    bit m k = true \/ bit res k = true /\ exists a t name evr arch file,
      a ∈ advisories (pool s) /\ t ∈ strs f /\ advisory_asked (keyname f) (advisory_data (pool s) a) t = true /\ isAdvisoryApplicable s a = true
      /\ (name, evr, arch, file) ∈ adv_packages (advisory_data (pool s) a) /\ name = name_of (pool s) k /\ arch = arch_of (pool s) k
      /\ (if cmpType f =? HY_EQ then evr = evr_of (pool s) k else cmp_selected (cmpType f) (pool_evrcmp (pool s) (evr_of (pool s) k) evr) = true).
Proof.
  intros Hr Hm. destruct (filterAdvisory_adds s f res m Hr Hm) as (m' & E & B1 & B2 & B3). exists m'. split; [done|].
  split; [split; [done|rewrite B2; apply Hm]|]. intros k. rewrite B3, orb_true_iff, andb_true_iff, existsb_exists.
  apply Morphisms_Prop.or_iff_morphism; [done|]. apply Morphisms_Prop.and_iff_morphism; [done|]. unfold asked_packages. setoid_rewrite in_flat_map. split.
  - intros (x & (a & Ha & Hx) & Hsel). destruct (existsb _ (strs f) && _) eqn:Eb; [|done]. apply andb_true_iff in Eb as [Et Eap].
    apply existsb_exists in Et as (t & Ht & Et). unfold getPackages in Hx. apply in_map_iff in Hx as ([[[name evr] arch] file] & <- & Hx).
    exists a, t, name, evr, arch, file. rewrite !list_elem_of_In. unfold advisory_selects in Hsel. destruct (_ =? HY_EQ).
    + apply andb_true_iff in Hsel as [[H1%Z.eqb_eq H2%Z.eqb_eq]%andb_true_iff H3%Z.eqb_eq]. done.
    + apply andb_true_iff in Hsel as [[H1%Z.eqb_eq H2%Z.eqb_eq]%andb_true_iff H3]. done.
  - intros (a & t & name & evr & arch & file & Ha & Ht & Et & Eap & Hx & -> & -> & Hv). apply list_elem_of_In in Ha. apply list_elem_of_In in Ht. apply list_elem_of_In in Hx.
    exists (mkAdvisoryPkg a (name_of (pool s) k) evr (arch_of (pool s) k) None). split.
    + exists a. split; [done|]. rewrite (proj2 (existsb_exists _ _)) by by exists t. rewrite Eap. simpl. apply in_map_iff. by exists (name_of (pool s) k, evr, arch_of (pool s) k, file).
    + unfold advisory_selects, nevraEQ_solvable, same_name_arch. simpl. destruct (_ =? HY_EQ).
      * by rewrite Hv, !Z.eqb_refl.
      * by rewrite Hv, !Z.eqb_refl.
Qed.

Lemma provide_string_iff pattern name t : provide_string pattern name = Some t <-> t <> [] /\ name = pattern ++ "("%char :: t ++ [")"%char].
Proof.
  unfold provide_string. split.
  - destruct (_ && _ && _ && _) eqn:E; [|done]. intros [= <-].
    rewrite !andb_true_iff, Nat.ltb_lt, !bool_decide_eq_true in E. destruct E as [[[Hlen [rest ->]%starts_with_spec] Hopen] Hclose].
    rewrite length_app in *. rewrite lookup_app_r, Nat.sub_diag in Hopen by done. destruct rest as [|c rest]; [done|]. injection Hopen as ->.
    simpl in *. rewrite lookup_app_r in Hclose by lia.
    replace (length pattern + S (length rest) - 1 - length pattern)%nat with (length rest) in Hclose by lia.
    destruct rest as [|x rest' _] using rev_ind; [simpl in Hlen; lia|]. rewrite length_app in *. simpl in *.
    replace (length rest' + 1)%nat with (S (length rest')) in Hclose by lia. simpl in Hclose. rewrite lookup_app_r, Nat.sub_diag in Hclose by done. injection Hclose as ->.
    assert (Et : take (length pattern + S (length rest' + 1) - length pattern - 2) (drop (S (length pattern)) (pattern ++ "("%char :: rest' ++ [")"%char])) = rest').
    { rewrite drop_app_ge by lia. replace (S (length pattern) - length pattern)%nat with 1%nat by lia. simpl.
      apply take_app_length'. lia. }
    rewrite Et. split; [|done]. intros ->. simpl in Hlen. lia.
  - intros [Ht ->]. set (name := pattern ++ "("%char :: t ++ [")"%char]). assert (Hl : length name = (length pattern + length t + 2)%nat).
    { unfold name. rewrite length_app. simpl. rewrite length_app. simpl. lia. }
    assert (Hpos : (0 < length t)%nat) by (destruct t; [done|simpl; lia]). rewrite Hl.
    rewrite (proj2 (Nat.ltb_lt _ _)) by lia. rewrite (proj2 (starts_with_spec name pattern)) by (by eexists).
    rewrite bool_decide_true; [|unfold name; rewrite lookup_app_r, Nat.sub_diag by done; done].
    rewrite bool_decide_true; [|unfold name; rewrite lookup_app_r by lia; replace (length pattern + length t + 2 - 1 - length pattern)%nat with (S (length t)) by lia;
      simpl; by rewrite lookup_app_r, Nat.sub_diag]. simpl. f_equal. unfold name. rewrite drop_app_ge by lia.
    replace (S (length pattern) - length pattern)%nat with 1%nat by lia. simpl.
    apply take_app_length'. lia.
Qed.
(** [getStringsFromProvide] returns just the nonempty texts [t] for which a package
    of the query provides the pattern followed by [t] in parentheses. *)
Theorem provide_strings_spec pattern s q : coherent s -> query_good s q ->
  exists s' q' res texts, apply s q = Ok (s', q') /\ result_map q' = Some res /\ getStringsFromProvide pattern s q = Ok (s', q', texts)
    /\ forall t, t ∈ texts <-> t <> [] /\ exists p, bit res p = true /\ pattern ++ "("%char :: t ++ [")"%char] ∈ provide_names (pool s') p.
Proof.
  intros Hs Hq. destruct (apply_ok s q Hs Hq) as (s1 & q1 & res & E & Eq & _ & _ & _ & _ & _ & Hr & _).
  unfold getStringsFromProvide, with_result. rewrite E. cbn [result_bind]. rewrite Eq. exists s1, q1, res. eexists. do 3 (split; [done|]).
  intros t. rewrite elem_of_list_to_set, list_elem_of_In, in_flat_map. setoid_rewrite in_flat_map.
  split.
  - intros (p & Hp & name & Hname & Ht). apply list_elem_of_In, ids_in in Hp; [|apply Hr]. apply list_elem_of_In in Hname. destruct (provide_string pattern name) as [t'|] eqn:E2; [|done].
    destruct Ht as [->|[]]. apply provide_string_iff in E2 as [H1 ->]. split; [done|]. by exists p.
  - intros (Ht & p & Hp & Hname). exists p. split; [apply list_elem_of_In, ids_in; [apply Hr|done]|]. eexists. split; [apply list_elem_of_In; exact Hname|].
    rewrite (proj2 (provide_string_iff pattern _ t)) by done. by left.
Qed.
End apply.
End DnfApply.
