(* ===== verification/DnfQueryExamples.v ===== *)
(** * DnfQueryExamples: queries of dnf-4 on a small pool

    Installed packages, two repositories with priorities and an advisory; the laws
    asked of the classes hold of it. *)

From S2P Require Import Prelude Sack Solv Regex Specs Packages DnfSack DnfSackExamples DnfQuery DnfLatest DnfApply.
From stdpp Require Import sorting.
Local Open Scope Z_scope.

Module DnfQueryExamples.
Import QueryCmp Matches Packages DnfSack DnfQuery DnfLatest DnfApply.
#[local] Existing Instance SolvExamples.libsolv.
#[local] Existing Instance SolvExamples.libsolv_laws.
#[local] Existing Instance DnfSackExamples.grow.
#[local] Existing Instance DnfSackExamples.grow_laws.

Definition texts : list cstr :=
  map lit ["<NULL>"; "walrus"; "penguin"; "patch:x"; "noarch"; "x86_64"; "src"; "2-5"; "2-6"; "4-1"; "0:2-6"; "tool"]%string.
Definition text (i : Z) : cstr := nth (Z.to_nat i) texts [].
Definition find_id (s : cstr) : Z := match find_idx (fun x => bool_decide (x = s)) (drop 1 texts) with Some i => Z.of_nat (S i) | None => 0 end.
Definition reldep_pool : Reldep.Pool := {|
  Reldep.pool := unit;
  Reldep.pool_str2id _ pl := (0, pl);
  Reldep.pool_rel2id a b c pl := (1000 + a, pl);
  Reldep.pool_parserpmrichdep _ pl := (0, pl);
  Reldep.dataiterator _ _ := [];
|}.
#[local] Existing Instance reldep_pool.

(** walrus is installed twice (2 and 7) and available from both repositories (3
    and 4), penguin is installed for no architecture (5) and available for
    another (8 and 9); 6 is an advisory. The versions of tool (10 to 12) are one
    version, written in two ways. *)
Definition solvable (p : Z) : Solvable :=
  match p with
  | 2 => mkSolvable 1 5 7 (Some 1) []
  | 3 => mkSolvable 1 5 8 (Some 2) []
  | 4 => mkSolvable 1 5 9 (Some 3) []
  | 5 => mkSolvable 2 4 7 (Some 1) []
  | 6 => mkSolvable 3 4 7 (Some 3) []
  | 7 => mkSolvable 1 5 8 (Some 1) []
  | 8 => mkSolvable 2 5 8 (Some 3) [1]
  | 9 => mkSolvable 2 5 9 (Some 2) []
  | 10 => mkSolvable 11 5 8 (Some 3) []
  | 11 => mkSolvable 11 5 10 (Some 3) []
  | 12 => mkSolvable 11 5 8 (Some 3) []
  | _ => mkSolvable 0 0 0 None []
  end.
Definition small : LibsolvPool := {|
  nsolvables _ := 13;
  pool_id2solvable _ := solvable;
  repos _ := [None; Some (lit "@System"); Some (lit "fedora"); Some (lit "updates")];
  pool_id2str _ := text;
  pool_find_id _ := find_id;
  pool_evrcmp_str _ _ := 0;
  pool_solvable2str _ _ := [];
  dataiterator_step _ _ _ _ _ := false;
  pool_createwhatprovides pl := pl;
  provides _ id := if id =? 1 then [2; 3; 4; 7] else if id =? 2 then [5; 8; 9] else if id =? 11 then [10; 11; 12] else [];
  solvable_lookup_idarray _ _ _ := [];
  pool_match_dep _ := Z.eqb;
  pool_match_nevr _ p id := s_name (solvable p) =? id;
  obsoleteusesprovides _ := false;
  selection_make_matchsolvable _ _ _ _ := [];
  SOLVER_SOLVABLE_ALL := 6;
  lookup_sourcename _ _ := None;
  solvable_lookup_sourcepkg _ _ := None;
  solvable_get_location _ _ := None;
|}.
#[local] Existing Instance small.
Lemma known p : 2 <= p < 13 -> p = 2 \/ p = 3 \/ p = 4 \/ p = 5 \/ p = 6 \/ p = 7 \/ p = 8 \/ p = 9 \/ p = 10 \/ p = 11 \/ p = 12.
Proof. lia. Qed.
Lemma solvables_known (pl : Reldep.pool) p : p ∈ pool_solvables pl -> 2 <= p < 13.
Proof. unfold pool_solvables. rewrite list_elem_of_In, List.filter_In, <-list_elem_of_In, elem_of_seqZ. simpl. lia. Qed.
#[local] Instance small_laws : LibsolvPoolLaws.
Proof.
  split; intros; simpl in *; try done; try lia.
  - apply solvables_known, known in H. destruct H as [->|[->|[->|[->|[->|[->|[->|[->|[->|[->| ->]]]]]]]]]];
      destruct H0 as [->|[->| ->]]; split; (discriminate || vm_compute; reflexivity).
  - unfold find_id, text in *. destruct (find_idx _ _) as [i|] eqn:E; [|done]. apply find_idx_Some in E as (c & Hc & Hb & _).
    apply bool_decide_eq_true in Hb as ->. rewrite Nat2Z.id. rewrite lookup_drop in Hc. by apply nth_lookup_Some.
  - destruct (id =? 1); [|destruct (id =? 2); [|destruct (id =? 11)]]; rewrite ?elem_of_cons, ?elem_of_nil in H; lia.
  - by apply elem_of_nil in H.
Defined.

(** Sorting by insertion, with a comparison that is an order on the elements. *)
Fixpoint insert_by (cmp : Z -> Z -> Z) (x : Z) (l : list Z) : list Z :=
  match l with [] => [x] | y :: l' => if cmp x y <=? 0 then x :: l else y :: insert_by cmp x l' end.
Definition sort_by (cmp : Z -> Z -> Z) (l : list Z) : list Z := foldr (insert_by cmp) [] l.
Lemma insert_by_permutation cmp x l : Permutation (insert_by cmp x l) (x :: l).
Proof. induction l as [|y l IH]; simpl; [done|]. destruct (_ <=? _); [done|]. rewrite IH. apply perm_swap. Qed.
Lemma sort_by_permutation cmp l : Permutation (sort_by cmp l) l.
Proof. induction l as [|x l IH]; simpl; [done|]. by rewrite insert_by_permutation, IH. Qed.
(** [apart] says which elements have to be compared. *)
Lemma sort_by_sorted (apart : Z -> Z -> Prop) cmp l : (forall a b, apart a b -> apart b a) -> ForallOrdPairs apart l ->
  (forall a b, a ∈ l -> b ∈ l -> apart a b -> cmp a b <= 0 \/ cmp b a <= 0) ->
  (forall a b c, a ∈ l -> b ∈ l -> c ∈ l -> apart a b -> apart b c -> apart a c -> cmp a b <= 0 -> cmp b c <= 0 -> cmp a c <= 0) ->
  StronglySorted (fun a b => cmp a b <= 0) (sort_by cmp l) /\ ForallOrdPairs apart (sort_by cmp l).
Proof.
  intros Hsym Hl. induction Hl as [|x l Hx Hl IH]; intros Htot Htr; simpl; [split; constructor|].
  destruct IH as [IH1 IH2]; [intros a b Ha Hb; apply Htot; by right|intros a b c Ha Hb Hc; apply Htr; by right|].
  assert (Hsub : forall y, y ∈ sort_by cmp l -> y ∈ x :: l /\ apart x y).
  { intros y Hy. rewrite (sort_by_permutation cmp l) in Hy. split; [by right|]. rewrite Forall_forall in Hx. by apply Hx. }
  assert (Hxin : x ∈ x :: l) by by left. revert IH1 IH2 Hsub. generalize (sort_by cmp l). clear Hx Hl. intros k. induction k as [|y k IHk]; intros H1 H2 Hk; simpl; [split; repeat constructor|].
  destruct (Hk y ltac:(by left)) as [Hy Hxy]. apply StronglySorted_inv in H1 as [H1 H3]. inversion H2 as [|? ? H4 H5]; subst. rewrite Forall_forall in H3, H4.
  assert (Hk' : forall z, z ∈ k -> z ∈ x :: l /\ apart x z) by (intros z Hz; apply Hk; by right).
  destruct (Z.leb_spec (cmp x y) 0).
  - split; (constructor; [try (by constructor; [|apply Forall_forall])|try (by constructor; [apply Forall_forall|])]); constructor; try done;
      apply Forall_forall; intros z Hz; destruct (Hk' z Hz); [apply (Htr x y z)|]; auto.
  - destruct (IHk H1 H5 Hk') as [I1 I2]. assert (Hyx : cmp y x <= 0) by (destruct (Htot x y Hxin Hy Hxy); lia).
    split; constructor; try done; apply Forall_forall; intros z Hz; rewrite insert_by_permutation in Hz; apply elem_of_cons in Hz as [->|Hz]; auto.
Qed.
(** 8 and 10 are the same version. *)
Definition rank (e : Z) : Z := if e =? 10 then 8 else e.
Definition updates : LibsolvUpdates := {|
  installed _ := Some 1;
  priority _ r := if r =? 2 then 10 else if r =? 3 then 5 else 0;
  ARCH_NOARCH := 4;
  pool_evrcmp _ a b := rank a - rank b;
  solv_sort := sort_by;
  solvable_buildtime _ p := p;
  provide_names _ p := if p =? 4 then [lit "base-platform(platform:f26)"; lit "base-platform()"; lit "walrus"] else [];
|}.
#[local] Existing Instance updates.
#[local] Instance updates_laws : LibsolvUpdatesLaws.
Proof.
  split; simpl.
  - intros pl p [Hp _]%packages_in. apply solvables_known, known in Hp. by destruct Hp as [->|[->|[->|[->|[->|[->|[->|[->|[->|[->| ->]]]]]]]]]].
  - intros. lia.
  - intros. lia.
  - intros. lia.
  - intros cmp l H1 H2. split; [apply sort_by_permutation|]. apply (sort_by_sorted (fun _ _ => True)); eauto.
    clear. induction l as [|x l IH]; constructor; [|done]. by apply Forall_forall.
Defined.
Definition an_advisory : AdvisoryData :=
  mkAdvisory (lit "patch:x") (Some (lit "security")) None [(Some (lit "bugzilla"), Some (lit "42"))] [(1, 9, 5, None)] [].
Definition the_advisories : Advisories := {| advisories _ := [6]; advisory_data _ _ := an_advisory |}.
#[local] Existing Instance the_advisories.
#[local] Instance the_advisories_laws : AdvisoriesLaws.
Proof. intros pl a _. split; [reflexivity|]. constructor; [simpl; split; by eexists|constructor]. Qed.
Definition sets : PackageSets := {|
  pset_ids m := List.filter (bit m) (seqZ 0 (bits m));
  pset_at m i := nth (Z.to_nat i) (List.filter (bit m) (seqZ 0 (bits m))) (-1);
  pset_add := map_or; pset_and := map_and; pset_sub := map_subtract;
|}.
#[local] Existing Instance sets.
#[local] Instance sets_laws : PackageSetsLaws sets.
Proof.
  split; cbn [pset_ids pset_add pset_and pset_sub sets].
  - intros m p Hm. rewrite list_elem_of_In, List.filter_In, <-list_elem_of_In, elem_of_seqZ. split; [tauto|]. intros Hp. split; [|done].
    destruct (Z.lt_ge_cases p 0); [by rewrite SolvMap.bit_outside in Hp by lia|]. destruct (Z.lt_ge_cases p (bits m)); [lia|by rewrite SolvMap.bit_outside in Hp by lia].
  - intros m. apply NoDup_ListNoDup, List.NoDup_filter, NoDup_ListNoDup, NoDup_seqZ.
  - intros m o k Hm Ho E. destruct (map_or_spec m o k Hm Ho) as (H1 & H2 & H3). split; [done|]. split; [by rewrite H2, E, Z.max_id|done].
  - intros m o k Hm Ho E. destruct (map_and_spec m o k Hm Ho) as (H1 & H2 & H3). split; [done|]. split; [done|]. apply H3.
    intros Hk. rewrite E. destruct (Z.lt_ge_cases k (bits m)); [done|by rewrite SolvMap.bit_outside in Hk by lia].
  - intros m o k Hm Ho E. by apply map_subtract_spec.
Qed.
Definition ready : ProvidesReady := fun pl _ => (pl, true).
#[local] Existing Instance ready.
#[local] Instance ready_laws : ProvidesReadyLaws.
Proof. intros pl b. by split. Qed.
Definition dependencies : Dependencies := {| new_dependency _ s := (s, Some 1); addReldep _ l s := (s, l ++ [1]); addReldepWithGlob _ l s := (s, (l, false)) |}.
#[local] Existing Instance dependencies.
#[local] Instance dependencies_laws : DependenciesLaws.
Proof. split; intros; by apply still_steady. Qed.
Definition the_filters : MissingFilters := {|
  missing_filter _ f res m s :=
    (s, match keyname f, matches f with
        | HY_PKG_REPONAME, MStr names => fold_left MAPSET (List.filter (in_repos (pool s) names) (List.filter (fun p => 2 <=? p) (pset_ids res))) m
        | _, _ => m
        end);
  filterNevraStrict _ _ res s := (s, res);
  module_container _ := None;
|}.
#[local] Existing Instance the_filters.
#[local] Instance the_filters_laws : MissingFiltersLaws.
Proof.
  assert (Hset : forall s res m names, result_ok (pool s) res -> map_ok (pool s) m ->
    let m' := fold_left MAPSET (List.filter (in_repos (pool s) names) (List.filter (fun p => 2 <=? p) (pset_ids res))) m in
    bytes_ok m' /\ bits m' = bits m /\ forall k, bit m' k = bit m k || bit res k && in_repos (pool s) names k).
  { intros s res m names Hr Hm m'. destruct (set_each (List.filter (in_repos (pool s) names) (List.filter (fun p => 2 <=? p) (pset_ids res))) m (proj1 Hm)) as (H1 & H2 & H3).
    - apply Forall_forall. intros p Hp. rewrite !list_elem_of_In, !List.filter_In, <-list_elem_of_In in Hp. destruct Hp as [[Hp _] _].
      by apply (in_result (pool s) res m m).
    - split; [done|]. split; [done|]. intros k. rewrite H3. f_equal. apply eq_true_iff_eq.
      rewrite bool_decide_eq_true, list_elem_of_In, !List.filter_In, <-list_elem_of_In, pset_ids_spec, andb_true_iff, Z.leb_le by apply Hr.
      split; [tauto|]. intros [Hk Hn]. pose proof (result_range _ _ _ Hr Hk). split; [split; [done|lia]|done]. }
  split.
  - intros fl f res m s Hs Hr Hm. split; [by apply still_steady|]. cbn [missing_filter the_filters snd].
    destruct (keyname f); try done. destruct (matches f) as [| | |names]; try done. destruct (Hset s res m names Hr Hm) as (H1 & H2 & _).
    split; [done|]. rewrite H2. apply Hm.
  - intros cmp l res s Hs Hr. split; [by apply still_steady|]. by split; [apply Hr|].
  - intros fl f res m s names k Hk _ Hn Hr Hm. cbn [missing_filter the_filters snd]. rewrite Hk, Hn. by apply Hset.
Qed.

(** ** Queries *)

Definition s0 : DnfSack := init tt.
Lemma s0_coherent : coherent s0.
Proof. apply init_coherent. Qed.
Definition q0 : Query := new_query APPLY_EXCLUDES.
Lemma q0_good : query_good s0 q0.
Proof. split; [reflexivity|exact I|constructor|discriminate]. Qed.
Definition ids (m : Map) : list Z := pset_ids m.
Definition answer (r : result failure (DnfSack * Query)) : result failure (list Z) :=
  let* sq := r in match result_map (snd sq) with Some m => Ok (ids m) | None => Err Crash end.
Definition after (l : list call) : result failure (list Z) := answer (run_calls (l ++ [CApply]) s0 q0).

Example whole : after [] = Ok [2; 3; 4; 5; 7; 8; 9; 10; 11; 12].
Proof. vm_compute. reflexivity. Qed.
Example latest_one : after [CNum HY_PKG_LATEST_PER_ARCH HY_EQ [1]] = Ok [4; 5; 9; 10].
Proof. vm_compute. reflexivity. Qed.
(** 3 is not an upgrade, since 7 is installed, but hides 4 from the repository of the lower priority. *)
Example upgrades : (after [CNum HY_PKG_UPGRADES HY_EQ [1]], after [CNum HY_PKG_UPGRADES_BY_PRIORITY HY_EQ [1]]) = (Ok [4; 8; 9], Ok [9]).
Proof. vm_compute. reflexivity. Qed.
Example security : after [CStr HY_PKG_ADVISORY_TYPE HY_EQ (Some (lit "security"))] = Ok [4].
Proof. vm_compute. reflexivity. Qed.
Example bug : (after [CStr HY_PKG_ADVISORY_BUG HY_LT (Some (lit "42"))], after [CStr HY_PKG_ADVISORY_BUG HY_EQ (Some (lit "43"))]) = (Ok [2; 3; 7], Ok []).
Proof. vm_compute. reflexivity. Qed.
Example of_system : after [CStr HY_PKG_REPONAME HY_NEQ (Some (lit "@System"))] = Ok [3; 4; 8; 9; 10; 11; 12].
Proof. vm_compute. reflexivity. Qed.
Example extras : answer (filterExtras s0 q0) = Ok [5].
Proof. vm_compute. reflexivity. Qed.
Example duplicated : answer (filterDuplicated s0 q0) = Ok [2; 7].
Proof. vm_compute. reflexivity. Qed.

(** ** Witnesses *)

Lemma package_known p : p ∈ packages (pool s0) -> 2 <= p < 13.
Proof. intros [Hp _]%packages_in. by eapply solvables_known. Qed.

Definition the_calls : list call :=
  [CStr HY_PKG_REPONAME HY_NEQ (Some (lit "@System")); CStr HY_PKG_NAME HY_GT (Some []); CNum HY_PKG_LATEST HY_EQ [1]; CApply; CStrs HY_PKG_PROVIDES HY_EQ []; CApply].
(** A package set for provides is accepted, and aborts unless the query is cleared. *)
Definition bad_calls : list call := [CPset HY_PKG_PROVIDES HY_EQ [0; 0]; CNum HY_PKG_LATEST HY_EQ [1]].
Example aborting : (aborts false (bad_calls ++ [CApply]), run_calls (bad_calls ++ [CApply]) s0 q0) = (true, Err Crash).
Proof. vm_compute. reflexivity. Qed.
Example cleared_in_time : aborts false (bad_calls ++ [CClear; CApply]) = false.
Proof. vm_compute. reflexivity. Qed.
Definition available_only : Filter := mkFilter HY_PKG_REPONAME HY_NEQ (MStr [lit "@System"]).
Definition newest : Filter := mkFilter HY_PKG_LATEST HY_EQ (MNum [1]).
Lemma apply_in_parts_witness :
  coherent s0 /\ query_good s0 q0 /\ applied q0 = false /\ Forall (filter_ok (pool s0)) [available_only; newest]
  /\ apply s0 (add_filters [available_only; newest] q0) = let* sq := apply s0 q0 in apply (fst sq) (add_filters [available_only; newest] (snd sq)).
Proof.
  assert (Hl : Forall (filter_ok (pool s0)) [available_only; newest]) by (rewrite !Forall_cons, Forall_nil; repeat split).
  split; [exact s0_coherent|]. split; [exact q0_good|]. split; [reflexivity|]. split; [exact Hl|].
  exact (apply_in_parts s0 q0 _ s0_coherent q0_good eq_refl Hl).
Defined.
Lemma extras_spec_witness : coherent s0 /\ query_good s0 q0 /\ exists s' q' res', filterExtras s0 q0 = Ok (s', set_result res' q') /\ bit res' 5 = true /\ bit res' 2 = false.
Proof.
  split; [exact s0_coherent|]. split; [exact q0_good|].
  destruct (extras_spec s0 q0 s0_coherent q0_good) as (s1 & q1 & res & s' & res' & E1 & Eq & E & _ & _ & H).
  exists s', q1, res'. split; [exact E|].
  assert (Er : (let* sq := apply s0 q0 in Ok (result_map (snd sq))) = Ok (Some [188; 31])) by (vm_compute; reflexivity).
  rewrite E1 in Er. cbn [result_bind snd] in Er. rewrite Eq in Er. injection Er as ->. split.
  - apply H. split; [vm_compute; reflexivity|]. split; [vm_compute; reflexivity|].
    intros (a & Ha & _ & Hsys & Hn & Har). apply package_known, known in Ha.
    destruct Ha as [->|[->|[->|[->|[->|[->|[->|[->|[->|[->| ->]]]]]]]]]]; vm_compute in Hsys, Hn, Har; discriminate.
  - apply not_true_is_false. intros H2. apply H in H2 as (_ & _ & H2). apply H2. exists 3. unfold available. 
    split; [apply packages_in; split; [apply pool_solvables_in; split; [simpl; lia|by eexists]|reflexivity]|].
    repeat split; vm_compute; reflexivity.
Defined.

Lemma whole_apply : exists s' q', apply s0 q0 = Ok (s', q') /\ result_map q' = Some [188; 31] /\ provide_names (pool s') 4 = provide_names (pool s0) 4.
Proof. eexists _, _. split; [vm_compute; reflexivity|]. split; vm_compute; reflexivity. Qed.
Definition all_packages : Map := [188; 31].
(** The whole pool without the packages whose versions are written in two ways. *)
Definition plain_packages : Map := [188; 3].
Definition bytes_small (m : Map) : bool := forallb (fun b => (0 <=? b) && (b <? 256)) m.
Lemma bytes_small_ok m : bytes_small m = true -> bytes_ok m.
Proof. unfold bytes_small. rewrite forallb_forall. intros H. apply Forall_forall. intros b Hb. apply list_elem_of_In, H, andb_true_iff in Hb. rewrite Z.leb_le, Z.ltb_lt in Hb. lia. Qed.
Lemma all_ok : result_ok (pool s0) all_packages.
Proof.
  split; [split; [by apply bytes_small_ok|vm_compute; reflexivity]|]. intros p Hp. apply (pset_ids_spec _ p) in Hp; [|by apply bytes_small_ok].
  assert (E : pset_ids all_packages = [2; 3; 4; 5; 7; 8; 9; 10; 11; 12]) by (vm_compute; reflexivity).
  assert (Ep : packages (pool s0) = [2; 3; 4; 5; 7; 8; 9; 10; 11; 12]) by (vm_compute; reflexivity).
  by rewrite Ep, <-E.
Qed.
Lemma empty_map_ok : map_ok (pool s0) [0; 0].
Proof. split; [by apply bytes_small_ok|vm_compute; reflexivity]. Qed.

Lemma plain_versions p q : bit plain_packages p = true -> bit plain_packages q = true ->
  pool_evrcmp (pool s0) (evr_of (pool s0) p) (evr_of (pool s0) q) = 0 -> evr_of (pool s0) p = evr_of (pool s0) q.
Proof.
  assert (H : forall p, bit plain_packages p = true -> In (evr_of (pool s0) p) [7; 8; 9]).
  { intros r Hr. apply (pset_ids_spec _ r) in Hr; [|by apply bytes_small_ok].
    assert (E : pset_ids plain_packages = [2; 3; 4; 5; 7; 8; 9]) by (vm_compute; reflexivity).
    rewrite E, !elem_of_cons, elem_of_nil in Hr. destruct Hr as [->|[->|[->|[->|[->|[->|[->|[]]]]]]]]; vm_compute; tauto. }
  intros Hp%H Hq%H. simpl in Hp, Hq. simpl. unfold rank. destruct Hp as [<-|[<-|[<-|[]]]], Hq as [<-|[<-|[<-|[]]]]; simpl; lia.
Qed.
Lemma latest_spec_witness : bytes_ok plain_packages /\ bytes_ok [0; 0] /\ (forall p, bit plain_packages p = true -> 0 <= p < bits [0; 0])
  /\ (forall p q, bit plain_packages p = true -> bit plain_packages q = true ->
        pool_evrcmp (pool s0) (evr_of (pool s0) p) (evr_of (pool s0) q) = 0 -> evr_of (pool s0) p = evr_of (pool s0) q)
  /\ exists m, filterLatest (pool s0) (mkFilter HY_PKG_LATEST HY_EQ (MNum [-1])) plain_packages [0; 0] = Ok m
       /\ bit m 2 = true /\ bit m 5 = true /\ bit m 4 = false.
Proof.
  assert (H1 : bytes_ok plain_packages) by by apply bytes_small_ok. assert (H2 : bytes_ok [0; 0]) by by apply bytes_small_ok.
  assert (H3 : forall p, bit plain_packages p = true -> 0 <= p < bits [0; 0]).
  { intros p Hp. change (bits [0; 0]) with (bits plain_packages). destruct (Z.lt_ge_cases p 0); [by rewrite SolvMap.bit_outside in Hp by lia|].
    destruct (Z.lt_ge_cases p (bits plain_packages)); [lia|by rewrite SolvMap.bit_outside in Hp by lia]. }
  split; [exact H1|]. split; [exact H2|]. split; [exact H3|]. split; [exact plain_versions|].
  destruct (latest_spec (pool s0) (mkFilter HY_PKG_LATEST HY_EQ (MNum [-1])) plain_packages [0; 0] H1 H2 H3 plain_versions) as (m & E & _ & _ & H).
  exists m. split; [exact E|]. rewrite !H. repeat split; vm_compute; reflexivity.
Defined.

Definition security_filter : Filter := mkFilter HY_PKG_ADVISORY_TYPE HY_EQ (MStr [lit "security"]).
Lemma advisory_spec_witness : result_ok (pool s0) all_packages /\ map_ok (pool s0) [0; 0]
  /\ exists m, filterAdvisory s0 security_filter all_packages [0; 0] = Ok m /\ bit m 4 = true.
Proof.
  split; [exact all_ok|]. split; [exact empty_map_ok|].
  destruct (advisory_spec s0 security_filter all_packages [0; 0] all_ok empty_map_ok) as (m & E & _ & H). exists m. split; [exact E|]. apply H.
  right. split; [reflexivity|]. exists 6, (lit "security"), 1, 9, 5, None.
  split; [by left|]. split; [by left|]. split; [vm_compute; reflexivity|]. split; [reflexivity|]. split; [by left|]. repeat split.
Defined.
Definition by_priority : Filter := mkFilter HY_PKG_UPGRADES_BY_PRIORITY HY_EQ (MNum [1]).
Lemma by_priority_spec_witness : coherent s0 /\ result_ok (pool s0) all_packages /\ map_ok (pool s0) [0; 0]
  /\ exists m s', filterUpdownByPriority s0 by_priority all_packages [0; 0] = Ok (s', m) /\ bit m 9 = true /\ bit m 4 = false.
Proof.
  split; [exact s0_coherent|]. split; [exact all_ok|]. split; [exact empty_map_ok|].
  pose proof (by_priority_spec s0 by_priority all_packages [0; 0] s0_coherent all_ok empty_map_ok) as H. cbv zeta in H.
  destruct H as (m & E & _ & _ & H). exists m, (make_provides_ready s0). split; [exact E|]. rewrite !H. split; vm_compute; reflexivity.
Defined.
Lemma duplicated_spec_witness : coherent s0 /\ query_good s0 q0 /\ exists s' q' res, filterDuplicated s0 q0 = Ok (s', set_result res q') /\ bit res 2 = true /\ bit res 5 = false.
Proof.
  split; [exact s0_coherent|]. split; [exact q0_good|].
  destruct (duplicated_spec s0 q0 s0_coherent q0_good) as (s' & q' & res & res' & pl & E1 & Eq & E & -> & _ & H). exists s', q', res'. split; [exact E|].
  assert (Er : (let* sq := apply s0 (snd (of_repo HY_EQ s0 q0)) in Ok (result_map (snd sq))) = Ok (Some [164; 0])) by (vm_compute; reflexivity).
  rewrite E1 in Er. cbn [result_bind snd] in Er. rewrite Eq in Er. injection Er as ->. split.
  - apply H. split; [reflexivity|]. exists 7. split; [reflexivity|]. split; [discriminate|]. split; [reflexivity|]. intros [He _]. discriminate He.
  - apply not_true_is_false. intros H5. apply H in H5 as (_ & a & Ha & Hne & Hn & _).
    apply (pset_ids_spec _ a) in Ha; [|by apply bytes_small_ok].
    assert (Ei : pset_ids [164; 0] = [2; 5; 7]) by (vm_compute; reflexivity). rewrite Ei, !elem_of_cons, elem_of_nil in Ha.
    destruct Ha as [->|[->|[->|[]]]]; [discriminate Hn|by apply Hne|discriminate Hn].
Defined.
Lemma provide_strings_spec_witness : coherent s0 /\ query_good s0 q0
  /\ exists s' q' texts, getStringsFromProvide (lit "base-platform") s0 q0 = Ok (s', q', texts) /\ lit "platform:f26" ∈ texts.
Proof.
  split; [exact s0_coherent|]. split; [exact q0_good|].
  destruct (provide_strings_spec (lit "base-platform") s0 q0 s0_coherent q0_good) as (s' & q' & res & texts & E1 & Eq & E & H).
  exists s', q', texts. split; [exact E|]. apply H. split; [discriminate|]. exists 4.
  assert (Er : (let* sq := apply s0 q0 in Ok (result_map (snd sq))) = Ok (Some all_packages)) by (vm_compute; reflexivity).
  rewrite E1 in Er. cbn [result_bind snd] in Er. rewrite Eq in Er. injection Er as ->. split; [reflexivity|]. by left.
Defined.

(** ** What the code does in corners *)

(** A package set is accepted for [HY_PKG_PROVIDES], but then an assertion fails. *)
Example provides_of_a_set : after [CPset HY_PKG_PROVIDES HY_EQ [4; 0]] = Err Crash.
Proof. vm_compute. reflexivity. Qed.
(** An operator that negates is lost for dependencies: the filter asks for equality. *)
Example negated_dependency : filters (snd (fst (addFilter_str HY_PKG_REQUIRES HY_NEQ (Some (lit "x")) s0 q0))) = [mkFilter HY_PKG_REQUIRES HY_EQ (MReldep [1])].
Proof. vm_compute. reflexivity. Qed.
(** [filterPkg] replaces the map by the package set, whatever its size: with one
    of a smaller pool the later packages stay, and the next filter writes behind the end of the map. *)
Example small_set : (after [CPset HY_PKG HY_EQ [16]], after [CPset HY_PKG HY_EQ [16]; CNum HY_PKG_LATEST HY_EQ [1]]) = (Ok [4; 8; 9; 10; 11; 12], Err Crash).
Proof. vm_compute. reflexivity. Qed.
(** Two texts of one version count as two versions: of three packages of the same version one is the latest. *)
Example latest_counts_texts : after [CStr HY_PKG_REPONAME HY_EQ (Some (lit "updates")); CNum HY_PKG_LATEST HY_EQ [1]] = Ok [4; 8; 10].
Proof. vm_compute. reflexivity. Qed.
(** The copy of a query does not have the map of what it considers, so that what
    upgrades packages is looked for among excluded packages also. *)
Definition without_4 : DnfSack := dnf_sack_add_excludes_or_includes PkgExcludes [16] s0.
Definition started : result failure (DnfSack * Query) := apply without_4 (new_query IGNORE_MODULAR_EXCLUDES).
Example copy_differs :
  let upgradable q := push_filter (mkFilter HY_PKG_UPGRADABLE HY_EQ (MNum [1])) (set_applied false q) in
  answer (let* sq := started in apply (fst sq) (upgradable (snd sq))) <> answer (let* sq := started in apply (fst sq) (upgradable (copy_query (snd sq)))).
Proof. vm_compute. discriminate. Qed.
End DnfQueryExamples.
