(* ===== verification/DnfJobs.v ===== *)
(** * DnfJobs: selectors and the jobs of a goal ([sack/selector.cpp], first half of [goal/Goal.cpp])

    A selector says which packages a request is about: one target, and filters
    that narrow it. A goal translates selectors and packages into jobs of the
    solver. A queue of jobs is a list of pairs. *)

From S2P Require Import Prelude Sack Solv Regex Specs Packages DnfSack DnfQuery.
Local Open Scope Z_scope.

Abbreviation Job := (list (Z * Z)).

(** The flags of libsolv's jobs, and what it answers when jobs are made. *)
Class SolverJobs `{Reldep.Pool} := {
  SOLVER_SELECTMASK : Z; SOLVER_SOLVABLE : Z; SOLVER_SOLVABLE_NAME : Z; SOLVER_SOLVABLE_PROVIDES : Z;
  SOLVER_SOLVABLE_ONE_OF : Z; SOLVER_SOLVABLE_REPO : Z;
  SOLVER_SETEV : Z; SOLVER_SETEVR : Z; SOLVER_SETARCH : Z; SOLVER_SETREPO : Z;
  SOLVER_INSTALL : Z; SOLVER_ERASE : Z; SOLVER_UPDATE : Z; SOLVER_DISTUPGRADE : Z; SOLVER_MULTIVERSION : Z; SOLVER_VERIFY : Z;
  SOLVER_USERINSTALLED : Z; SOLVER_ALLOWUNINSTALL : Z;
  SOLVER_WEAK : Z; SOLVER_CLEANDEPS : Z; SOLVER_FORCEBEST : Z; SOLVER_TARGETED : Z;
  (** Keys of the data of a package. *)
  SOLVABLE_NAME : Z; SOLVABLE_PROVIDES : Z;
  REL_ARCH : Z; REL_EQ : Z; ARCH_SRC : Z; ARCH_NOSRC : Z;
  SELECTION_GLOB : Z; SELECTION_NOCASE : Z; SELECTION_FILELIST : Z;
  (** The architectures of the pool are not restricted, or the id is one of them. *)
  known_arch : Reldep.pool -> Z -> bool;
  pool_queuetowhatprovides : Reldep.pool -> list Z -> Z * Reldep.pool;
  (** The iterator over names, or over what is provided, with a glob: the
      solvable and the id of what was found; what the iterator points to after its end. *)
  names_glob : Reldep.pool -> cstr -> list (Z * Z);
  provides_glob : Reldep.pool -> cstr -> list (Z * Z);
  provides_glob_end : Reldep.pool -> cstr -> option Z;
  selection_make : Reldep.pool -> Job -> cstr -> Z -> Z * Job * Reldep.pool;
  selection_filter : Reldep.pool -> Job -> Job -> Job * Reldep.pool;
}.

Module DnfJobs.
Import QueryCmp Matches Packages DnfSack DnfQuery.

(** ** Selectors *)

Definition valid_setting (keyname : Keyname) (cmp_type : Z) : bool :=
  match keyname with
  | HY_PKG_ARCH | HY_PKG_EVR | HY_PKG_REPONAME | HY_PKG_VERSION => cmp_type =? HY_EQ
  | HY_PKG_PROVIDES | HY_PKG_NAME => (cmp_type =? HY_EQ) || (cmp_type =? HY_GLOB)
  | HY_PKG_FILE => true
  | _ => false
  end.
Record Selector := mkSelector {
  filterArch : option Filter; filterEvr : option Filter; filterFile : option Filter; filterName : option Filter;
  pkgs : Z;
  filterProvides : option Filter; filterReponame : option Filter;
}.
Implicit Types (sl : Selector) (f : Filter) (job : Job).
Definition new_selector : Selector := mkSelector None None None None 0 None None.
Definition set_arch o sl : Selector := mkSelector o (filterEvr sl) (filterFile sl) (filterName sl) (pkgs sl) (filterProvides sl) (filterReponame sl).
Definition set_evr o sl : Selector := mkSelector (filterArch sl) o (filterFile sl) (filterName sl) (pkgs sl) (filterProvides sl) (filterReponame sl).
Definition set_file o sl : Selector := mkSelector (filterArch sl) (filterEvr sl) o (filterName sl) (pkgs sl) (filterProvides sl) (filterReponame sl).
Definition set_name o sl : Selector := mkSelector (filterArch sl) (filterEvr sl) (filterFile sl) o (pkgs sl) (filterProvides sl) (filterReponame sl).
Definition set_pkgs id sl : Selector := mkSelector (filterArch sl) (filterEvr sl) (filterFile sl) (filterName sl) id (filterProvides sl) (filterReponame sl).
Definition set_provides o sl : Selector := mkSelector (filterArch sl) (filterEvr sl) (filterFile sl) (filterName sl) (pkgs sl) o (filterReponame sl).
Definition set_reponame o sl : Selector := mkSelector (filterArch sl) (filterEvr sl) (filterFile sl) (filterName sl) (pkgs sl) (filterProvides sl) o.
(** What the pointers and the id are tested for. *)
Definition there {A : Type} (o : option A) : bool := match o with Some _ => true | None => false end.

Inductive selected := Selected | BAD_SELECTOR.
#[global] Instance selected_eq_dec : EqDecision selected.
Proof. solve_decision. Defined.

Section jobs.
Context {HP : Reldep.Pool} {HL : LibsolvPool} {HS : Libsolv} {HG : LibsolvGrow} {HR : ProvidesReady}.
Context {HU : LibsolvUpdates} {HA : Advisories} {HQ : PackageSets} {HD : Dependencies} {HM : MissingFilters} {HJ : SolverJobs}.
Implicit Types (pl : Reldep.pool) (s : DnfSack).

(** A call of libsolv that may add to the pool. *)
Definition on_pool {A : Type} (call : Reldep.pool -> A * Reldep.pool) s : A * DnfSack :=
  let '(a, pl) := call (pool s) in (a, set_pool pl (provides_ready s) s).

Definition selector_set_pset (pset : Map) s sl : DnfSack * Selector * selected :=
  if there (filterName sl) || there (filterProvides sl) || there (filterFile sl) then (s, sl, BAD_SELECTOR)
  else
    let s := make_provides_ready (dnf_sack_recompute_considered s) in
    let '(id, s) := on_pool (fun pl => pool_queuetowhatprovides pl (pset_ids pset)) s in
    (s, set_pkgs id sl, Selected).

(** The new filter is made before the old one is dropped: a null text leaves the selector. *)
Definition put_filter (put : option Filter -> Selector -> Selector) key (cmp_type : Z) (match_ : option cstr) s sl : DnfSack * Selector * result failure selected :=
  match copyFilterChar match_ key with
  | Ok t => (s, put (Some (mkFilter key cmp_type (MStr [t]))) sl, Ok Selected)
  | Err e => (s, sl, Err e)
  end.
Definition selector_set (key : Keyname) (cmp_type : Z) (match_ : option cstr) s sl : DnfSack * Selector * result failure selected :=
  if negb (valid_setting key cmp_type) then (s, sl, Ok BAD_SELECTOR)
  else
    match key with
    | HY_PKG_ARCH => put_filter set_arch key cmp_type match_ s sl
    | HY_PKG_EVR | HY_PKG_VERSION => put_filter set_evr key cmp_type match_ s sl
    | HY_PKG_NAME =>
        if there (filterProvides sl) || there (filterFile sl) || negb (pkgs sl =? 0) then (s, sl, Ok BAD_SELECTOR)
        else put_filter set_name key cmp_type match_ s sl
    | HY_PKG_PROVIDES =>
        if there (filterName sl) || there (filterFile sl) || negb (pkgs sl =? 0) then (s, sl, Ok BAD_SELECTOR)
        else if negb (cmp_type =? HY_GLOB) then
          match new_dependency match_ s with
          | (s, Some reldep) => (s, set_provides (Some (mkFilter key cmp_type (MReldep [reldep]))) sl, Ok Selected)
          | (s, None) => (s, set_provides None sl, Ok BAD_SELECTOR)
          end
        else put_filter set_provides key cmp_type match_ s sl
    | HY_PKG_REPONAME => put_filter set_reponame key cmp_type match_ s sl
    | HY_PKG_FILE =>
        if there (filterName sl) || there (filterProvides sl) || negb (pkgs sl =? 0) then (s, sl, Ok BAD_SELECTOR)
        else put_filter set_file key cmp_type match_ s sl
    | _ => (s, sl, Ok BAD_SELECTOR)
    end.

(** ** From selectors to jobs *)

(** What stops the translation: the codes, of which the first is no error, and failing assertions. *)
Inductive stop := NO_MATCH | MULTIPLE_MATCH_OBJECTS | INCORECT_COMPARISON_TYPE | Failed.
Definition Step (A : Type) : Type := DnfSack -> DnfSack * result stop A.
Definition ret_step {A : Type} (a : A) : Step A := fun s => (s, Ok a).
Definition stop_at {A : Type} (e : stop) : Step A := fun s => (s, Err e).
Definition bind_step {A B : Type} (m : Step A) (k : A -> Step B) : Step B := fun s => let '(s, r) := m s in match r with Ok a => k a s | Err e => (s, Err e) end.
Definition ask_pool {A : Type} (call : Reldep.pool -> A) : Step A := fun s => (s, Ok (call (pool s))).
Definition call_pool {A : Type} (call : Reldep.pool -> A * Reldep.pool) : Step A := fun s => let '(a, s) := on_pool call s in (s, Ok a).
Definition lift {A : Type} (r : result stop A) : Step A := fun s => (s, r).
#[local] Notation "'let!' x := m 'in' k" := (bind_step m (fun x => k)) (at level 10, x name, k at level 200).

Definition jobHas job (what id : Z) : bool := existsb (fun '(w, i) => (w =? what) && (i =? id)) job.
Definition matches_size f : nat :=
  match matches f with MNum l => length l | MPkg _ => 1 | MReldep l => length l | MStr l => length l end.
(** The first match as a text, or as an id. *)
Definition first_str f : result stop cstr := match matches f with MStr (t :: _) => Ok t | _ => Err Failed end.
Definition first_reldep f : result stop Z := match matches f with MReldep (r :: _) => Ok r | _ => Err Failed end.

Definition str2archid pl (arch : cstr) : Z :=
  match arch with
  | [] => 0
  | _ =>
      let id := pool_find_id pl arch in
      if (id =? ARCH_SRC) || (id =? ARCH_NOSRC) || (id =? ARCH_NOARCH) then id else if negb (known_arch pl id) then 0 else id
  end.
(** Each job must be about a name; it gets a flag and a relation. *)
Fixpoint relate (flag rel id : Z) job : Step Job :=
  match job with
  | [] => ret_step []
  | (what, dep) :: job =>
      if negb (Z.land what SOLVER_SELECTMASK =? SOLVER_SOLVABLE_NAME) then stop_at Failed
      else
        let! dep := call_pool (Reldep.pool_rel2id dep id rel) in
        let! job := relate flag rel id job in
        ret_step ((Z.lor what flag, dep) :: job)
  end.
Definition filterArchToJob (o : option Filter) job : Step Job :=
  match o with
  | None => ret_step job
  | Some f =>
      if negb (cmpType f =? HY_EQ) then stop_at INCORECT_COMPARISON_TYPE
      else if negb (matches_size f =? 1)%nat then stop_at MULTIPLE_MATCH_OBJECTS
      else
        let! arch := lift (first_str f) in
        let! archid := ask_pool (fun pl => str2archid pl arch) in
        if archid =? 0 then stop_at NO_MATCH else relate SOLVER_SETARCH REL_ARCH archid job
  end.
Definition filterEvrToJob (o : option Filter) job : Step Job :=
  match o with
  | None => ret_step job
  | Some f =>
      if negb (cmpType f =? HY_EQ) then stop_at INCORECT_COMPARISON_TYPE
      else if negb (matches_size f =? 1)%nat then stop_at MULTIPLE_MATCH_OBJECTS
      else
        let! text := lift (first_str f) in
        let! evr := call_pool (Reldep.pool_str2id (Some text)) in
        relate (if bool_decide (keyname f = HY_PKG_VERSION) then SOLVER_SETEV else SOLVER_SETEVR) REL_EQ evr job
  end.
Definition filterFileToJob (o : option Filter) job : Step Job :=
  match o with
  | None => ret_step job
  | Some f =>
      if negb (matches_size f =? 1)%nat then stop_at MULTIPLE_MATCH_OBJECTS
      else
        let! file := lift (first_str f) in
        let flags := if has (cmpType f) HY_GLOB then Z.lor SELECTION_GLOB SELECTION_NOCASE else 0 in
        let! found := call_pool (fun pl => let '(n, job, pl) := selection_make pl job file (Z.lor flags SELECTION_FILELIST) in (n, job, pl)) in
        if fst found =? 0 then stop_at NO_MATCH else ret_step (snd found)
  end.
Definition filterPkgToJob (what : Z) job : Step Job :=
  ret_step (if what =? 0 then job else job ++ [(Z.lor SOLVER_SOLVABLE_ONE_OF (Z.lor SOLVER_SETARCH SOLVER_SETEVR), what)]).
(** The loop over the names that a glob finds. *)
Definition add_names pl (found : list (Z * Z)) job : Job :=
  fold_left (fun job '(solvid, id) =>
    if negb (is_package pl solvid) then job
    else if jobHas job SOLVABLE_NAME id then job else job ++ [(SOLVER_SOLVABLE_NAME, id)]) found job.
Definition filterNameToJob (o : option Filter) job : Step Job :=
  match o with
  | None => ret_step job
  | Some f =>
      if negb (matches_size f =? 1)%nat then stop_at MULTIPLE_MATCH_OBJECTS
      else
        let! name := lift (first_str f) in
        if cmpType f =? HY_EQ then
          let! id := ask_pool (fun pl => pool_find_id pl name) in
          ret_step (if id =? 0 then job else job ++ [(SOLVER_SOLVABLE_NAME, id)])
        else if cmpType f =? HY_GLOB then
          ask_pool (fun pl => add_names pl (names_glob pl name) job)
        else stop_at INCORECT_COMPARISON_TYPE
  end.
(** The first package that a glob finds, or where the iterator ends. *)
Definition first_provide pl (name : cstr) : option Z :=
  match List.find (fun x => is_package pl (fst x)) (provides_glob pl name) with
  | Some x => Some (snd x)
  | None => provides_glob_end pl name
  end.
Definition filterProvidesToJob (o : option Filter) job : Step Job :=
  match o with
  | None => ret_step job
  | Some f =>
      if negb (matches_size f =? 1)%nat then stop_at MULTIPLE_MATCH_OBJECTS
      else if cmpType f =? HY_EQ then
        let! id := lift (first_reldep f) in ret_step (job ++ [(SOLVER_SOLVABLE_PROVIDES, id)])
      else if cmpType f =? HY_GLOB then
        let! name := lift (first_str f) in
        let! idp := ask_pool (fun pl => first_provide pl name) in
        match idp with
        | None => stop_at Failed
        | Some id => ret_step (if jobHas job SOLVABLE_PROVIDES id then job else job ++ [(SOLVER_SOLVABLE_PROVIDES, id)])
        end
      else stop_at INCORECT_COMPARISON_TYPE
  end.
Definition repo_jobs pl (name : cstr) : Job :=
  map (fun r => (Z.lor SOLVER_SOLVABLE_REPO SOLVER_SETREPO, r)) (List.filter (fun r => bool_decide (repos pl !! Z.to_nat r = Some (Some name))) (repo_ids pl)).
Definition filterReponameToJob (o : option Filter) job : Step Job :=
  match o with
  | None => ret_step job
  | Some f =>
      if negb (cmpType f =? HY_EQ) then stop_at INCORECT_COMPARISON_TYPE
      else if negb (matches_size f =? 1)%nat then stop_at MULTIPLE_MATCH_OBJECTS
      else
        let! name := lift (first_str f) in
        call_pool (fun pl => selection_filter pl job (repo_jobs pl name))
  end.

(** The errors of a goal with [DNF_ERROR_BAD_SELECTOR], and failing assertions. *)
Inductive goal_error := NoTarget | IllFormed (code : stop) | Crashed.
Definition any_opt_filter sl : bool := there (filterArch sl) || there (filterEvr sl) || there (filterReponame sl).
Definition any_req_filter sl : bool := there (filterName sl) || there (filterProvides sl) || there (filterFile sl) || negb (pkgs sl =? 0).
Definition job_sltr sl : Step Job :=
  let! job := filterPkgToJob (pkgs sl) [] in
  let! job := filterNameToJob (filterName sl) job in
  let! job := filterFileToJob (filterFile sl) job in
  let! job := filterProvidesToJob (filterProvides sl) job in
  let! job := filterArchToJob (filterArch sl) job in
  let! job := filterEvrToJob (filterEvr sl) job in
  filterReponameToJob (filterReponame sl) job.
Definition sltrToJob sl job (solver_action : Z) s : DnfSack * result goal_error Job :=
  if negb (any_req_filter sl) then (s, if any_opt_filter sl then Err NoTarget else Ok job)
  else
    let s := make_provides_ready (dnf_sack_recompute_considered s) in
    match job_sltr sl s with
    | (s, Ok l) => (s, Ok (job ++ map (fun '(what, id) => (Z.lor what solver_action, id)) l))
    | (s, Err NO_MATCH) => (s, Ok job)
    | (s, Err Failed) => (s, Err Crashed)
    | (s, Err code) => (s, Err (IllFormed code))
    end.
Definition packageToJob (package : Z) job (solver_action : Z) s : DnfSack * Job :=
  let s := make_provides_ready (dnf_sack_recompute_considered s) in
  let '(what, s) := on_pool (fun pl => pool_queuetowhatprovides pl [package]) s in
  (s, job ++ [(Z.lor (Z.lor SOLVER_SOLVABLE_ONE_OF (Z.lor SOLVER_SETARCH SOLVER_SETEVR)) solver_action, what)]).

(** ** Goals and requests *)

Definition HY_CLEAN_DEPS : Z := 2.
Definition DNF_NONE : Z := 0.
Definition DNF_ERASE : Z := 1.
Definition DNF_DISTUPGRADE : Z := 2.
Definition DNF_INSTALL : Z := 16.
Definition DNF_UPGRADE : Z := 32.
Definition DNF_UPGRADE_ALL : Z := 64.
Definition DNF_ALLOW_UNINSTALL : Z := 1024.
Definition DNF_FORCE_BEST : Z := 2048.
Definition DNF_VERIFY : Z := 4096.
Definition DNF_IGNORE_WEAK_DEPS : Z := 8192.
Definition DNF_ALLOW_DOWNGRADE : Z := 16384.
Definition DNF_IGNORE_WEAK : Z := 32768.

(** What a goal holds besides solver and transaction. *)
Record Staging := mkStaging { staging : Job; actions : Z }.
Implicit Types (g : Staging).
Definition new_staging : Staging := mkStaging [] DNF_NONE.
Definition add_actions (a : Z) g : Staging := mkStaging (staging g) (Z.lor (actions g) a).
Definition set_staging job g : Staging := mkStaging job (actions g).
Definition queue_push2_staging (what id : Z) g : Staging := set_staging (staging g ++ [(what, id)]) g.

(** A request with a selector: the actions are noted before the selector may be refused. *)
Definition request_sltr (a : Z) sl (solver_action : Z) s g : DnfSack * Staging * result goal_error unit :=
  let g := add_actions a g in
  match sltrToJob sl (staging g) solver_action s with
  | (s, Ok job) => (s, set_staging job g, Ok tt)
  | (s, Err e) => (s, g, Err e)
  end.
Definition request_package (a : Z) (pkg : Z) (solver_action : Z) s g : DnfSack * Staging * result goal_error unit :=
  let g := add_actions a g in
  let '(s, job) := packageToJob pkg (staging g) solver_action s in
  (s, set_staging job g, Ok tt).
Definition erase_flags2libsolv (flags : Z) : Z := if has flags HY_CLEAN_DEPS then SOLVER_CLEANDEPS else 0.

Definition DISTUPGRADE_ACTIONS : Z := Z.lor DNF_DISTUPGRADE DNF_ALLOW_DOWNGRADE.
Definition distupgrade_all s g : DnfSack * Staging * result goal_error unit :=
  let g := add_actions DISTUPGRADE_ACTIONS g in
  let '(s, query) := of_repo HY_NEQ s (new_query APPLY_EXCLUDES) in
  match with_result s query (fun s _ res => (s, res)) with
  | Err _ => (s, g, Err Crashed)
  | Ok (s, res) =>
      let '(s, sl, _) := selector_set_pset res s new_selector in
      match sltrToJob sl (staging g) SOLVER_DISTUPGRADE s with
      | (s, Ok job) => (s, set_staging job g, Ok tt)
      | (s, Err e) => (s, g, Err e)
      end
  end.
Definition distupgrade_package pkg := request_package DISTUPGRADE_ACTIONS pkg SOLVER_DISTUPGRADE.
Definition distupgrade_sltr sl := request_sltr DISTUPGRADE_ACTIONS sl SOLVER_DISTUPGRADE.
Definition erase_package (pkg flags : Z) s g : DnfSack * Staging * result goal_error unit :=
  let additional := erase_flags2libsolv flags in
  (s, queue_push2_staging (Z.lor (Z.lor SOLVER_SOLVABLE SOLVER_ERASE) additional) pkg (add_actions DNF_ERASE g), Ok tt).
Definition erase_sltr sl (flags : Z) := request_sltr DNF_ERASE sl (Z.lor SOLVER_ERASE (erase_flags2libsolv flags)).
Definition install_action (optional : bool) : Z := if optional then Z.lor SOLVER_INSTALL SOLVER_WEAK else SOLVER_INSTALL.
Definition INSTALL_ACTIONS : Z := Z.lor DNF_INSTALL DNF_ALLOW_DOWNGRADE.
Definition install_package pkg (optional : bool) := request_package INSTALL_ACTIONS pkg (install_action optional).
Definition install_sltr sl (optional : bool) := request_sltr INSTALL_ACTIONS sl (install_action optional).
Definition upgrade_all s g : DnfSack * Staging * result goal_error unit :=
  (s, queue_push2_staging (Z.lor SOLVER_UPDATE SOLVER_SOLVABLE_ALL) 0 (add_actions DNF_UPGRADE_ALL g), Ok tt).
Definition upgrade_package pkg := request_package DNF_UPGRADE pkg SOLVER_UPDATE.
Definition upgrade_sltr sl := request_sltr DNF_UPGRADE sl (if pkgs sl =? 0 then SOLVER_UPDATE else Z.lor SOLVER_UPDATE SOLVER_TARGETED).
Definition user_installed_package pkg s g : DnfSack * Staging * result goal_error unit :=
  (s, queue_push2_staging (Z.lor SOLVER_SOLVABLE SOLVER_USERINSTALLED) pkg g, Ok tt).
Definition user_installed_pset (pset : Map) s g : DnfSack * Staging * result goal_error unit :=
  (s, fold_left (fun g id => queue_push2_staging (Z.lor SOLVER_SOLVABLE SOLVER_USERINSTALLED) id g) (pset_ids pset) g, Ok tt).
Definition hasActions (action : Z) g : bool := has (actions g) action.
Definition jobLength g : Z := Z.of_nat (length (staging g)).

(** The requests a caller can make. *)
Inductive request :=
| DistupgradeAll | DistupgradePackage (pkg : Z) | DistupgradeSelector (sl : Selector)
| ErasePackage (pkg flags0 : Z) | EraseSelector (sl : Selector) (flags0 : Z)
| InstallPackage (pkg : Z) (optional : bool) | InstallSelector (sl : Selector) (optional : bool)
| UpgradeAll | UpgradePackage (pkg : Z) | UpgradeSelector (sl : Selector)
| UserInstalledPackage (pkg : Z) | UserInstalledSet (pset : Map).
Definition make_request (r : request) : DnfSack -> Staging -> DnfSack * Staging * result goal_error unit :=
  match r with
  | DistupgradeAll => distupgrade_all
  | DistupgradePackage pkg => distupgrade_package pkg
  | DistupgradeSelector sl => distupgrade_sltr sl
  | ErasePackage pkg flags => erase_package pkg flags
  | EraseSelector sl flags => erase_sltr sl flags
  | InstallPackage pkg optional => install_package pkg optional
  | InstallSelector sl optional => install_sltr sl optional
  | UpgradeAll => upgrade_all
  | UpgradePackage pkg => upgrade_package pkg
  | UpgradeSelector sl => upgrade_sltr sl
  | UserInstalledPackage pkg => user_installed_package pkg
  | UserInstalledSet pset => user_installed_pset pset
  end.
End jobs.
End DnfJobs.
