(* ===== verification/DnfRequests.v ===== *)
(** * DnfRequests: what selectors and requests do (theorems on [DnfJobs]) *)

From S2P Require Import Prelude Sack Solv Regex Specs Packages DnfSack DnfQuery DnfLatest DnfApply DnfJobs.
Local Open Scope Z_scope.

Module DnfRequests.
Import QueryCmp Matches Packages DnfSack DnfQuery DnfLatest DnfApply DnfJobs.

Section requests.
Context {HP : Reldep.Pool} {HL : LibsolvPool} {HS : Libsolv} {HG : LibsolvGrow} {HR : ProvidesReady}.
Context {HU : LibsolvUpdates} {HA : Advisories} {HQ : PackageSets} {HD : Dependencies} {HM : MissingFilters} {HJ : SolverJobs}.
Implicit Types (pl : Reldep.pool) (s : DnfSack) (sl : Selector) (f : Filter) (job : Job) (g : Staging).

(** The flags of a job are bits beside the kind of selection; the id of a list of
    packages is not 0. *)
Class SolverJobsLaws : Prop := {
  mask_name : Z.land SOLVER_SOLVABLE_NAME SOLVER_SELECTMASK = SOLVER_SOLVABLE_NAME;
  mask_provides : Z.land SOLVER_SOLVABLE_PROVIDES SOLVER_SELECTMASK <> SOLVER_SOLVABLE_NAME;
  mask_one_of : Z.land SOLVER_SOLVABLE_ONE_OF SOLVER_SELECTMASK <> SOLVER_SOLVABLE_NAME;
  mask_flags flag : flag = SOLVER_SETARCH \/ flag = SOLVER_SETEV \/ flag = SOLVER_SETEVR -> Z.land flag SOLVER_SELECTMASK = 0;
  whatprovides_id pl l : fst (pool_queuetowhatprovides pl l) <> 0;
  whatprovides_like pl l : same_packages pl (snd (pool_queuetowhatprovides pl l)) /\ repos (snd (pool_queuetowhatprovides pl l)) = repos pl;
}.

(** ** Selectors *)

Definition texts_only (allowed : Z -> bool) (o : option Filter) : Prop :=
  match o with Some f => allowed (cmpType f) = true /\ exists t, matches f = MStr [t] | None => True end.
Definition provides_only (o : option Filter) : Prop :=
  match o with
  | Some f => cmpType f = HY_EQ /\ (exists r, matches f = MReldep [r]) \/ cmpType f = HY_GLOB /\ exists t, matches f = MStr [t]
  | None => True
  end.
Definition targets sl : nat :=
  (Nat.b2n (there (filterName sl)) + Nat.b2n (there (filterProvides sl)) + Nat.b2n (there (filterFile sl)) + Nat.b2n (negb (pkgs sl =? 0)%Z))%nat.
Definition is_eq (c : Z) : bool := c =? HY_EQ.
Definition is_eq_or_glob (c : Z) : bool := (c =? HY_EQ) || (c =? HY_GLOB).
Record selector_good sl : Prop := {
  good_arch : texts_only is_eq (filterArch sl);
  good_evr : texts_only is_eq (filterEvr sl);
  good_reponame : texts_only is_eq (filterReponame sl);
  good_name : texts_only is_eq_or_glob (filterName sl);
  good_file : texts_only (fun _ => true) (filterFile sl);
  good_provides : provides_only (filterProvides sl);
  good_targets : (targets sl <= 1)%nat;
}.
Inductive setting := SetPackages (pset : Map) | SetFilter (key : Keyname) (cmp_type : Z) (match_ : option cstr).
(** Calls that fail with a null text go on with the selector as it is. *)
Definition set_one (c : setting) (x : DnfSack * Selector) : DnfSack * Selector :=
  let '(s, sl) := x in
  match c with
  | SetPackages pset => fst (selector_set_pset pset s sl)
  | SetFilter key cmp_type match_ => fst (selector_set key cmp_type match_ s sl)
  end.
Definition set_each (l : list setting) (x : DnfSack * Selector) : DnfSack * Selector := fold_left (fun x c => set_one c x) l x.

Lemma put_filter_cases put key cmp m s sl (P : Selector -> Prop) :
  P sl -> (forall t, P (put (Some (mkFilter key cmp (MStr [t]))) sl)) -> P (snd (fst (put_filter put key cmp m s sl))).
Proof. intros H1 H2. unfold put_filter. destruct (copyFilterChar m key); simpl; auto. Qed.
Lemma set_one_good c s sl : selector_good sl -> selector_good (snd (set_one c (s, sl))).
Proof.
  intros Hg. pose proof Hg as [G1 G2 G3 G4 G5 G6 G7]. destruct c as [pset|key cmp m]; simpl.
  - unfold selector_set_pset. destruct (_ || _) eqn:E; [done|]. destruct (on_pool _ _) as [id s']. simpl. split; simpl; try done.
    apply orb_false_iff in E as [[E1 E2]%orb_false_iff E3]. unfold targets. simpl. rewrite E1, E2, E3. destruct (id =? 0); simpl; lia.
  - unfold selector_set. destruct (valid_setting key cmp) eqn:E; simpl; [|done].
    destruct key; try discriminate E; simpl in E.
    + apply put_filter_cases; [done|]. intros t. split; simpl; try done. split; [done|by exists t].
    + apply put_filter_cases; [done|]. intros t. split; simpl; try done. split; [done|by exists t].
    + destruct (_ || negb (pkgs sl =? 0)) eqn:Eo; [done|]. apply put_filter_cases; [done|]. intros t. split; simpl; try done; [split; [done|by exists t]|].
      apply orb_false_iff in Eo as [[E1 E2]%orb_false_iff E3]. unfold targets. simpl. rewrite E1, E2, E3. simpl. lia.
    + destruct (_ || negb (pkgs sl =? 0)) eqn:Eo; [done|]. apply put_filter_cases; [done|]. intros t. split; simpl; try done; [split; [done|by exists t]|].
      apply orb_false_iff in Eo as [[E1 E2]%orb_false_iff E3]. unfold targets. simpl. rewrite E1, E2, E3. simpl. lia.
    + destruct (_ || negb (pkgs sl =? 0)) eqn:Eo; [done|]. apply orb_false_iff in Eo as [[E1 E2]%orb_false_iff E3].
      destruct (cmp =? HY_GLOB) eqn:Ec; simpl.
      * apply put_filter_cases; [done|]. intros t. apply Z.eqb_eq in Ec. split; simpl; try done; [right; split; [done|by exists t]|].
        unfold targets. simpl. rewrite E1, E2, E3. simpl. lia.
      * destruct (new_dependency m s) as [s' [r|]]; simpl.
        -- rewrite orb_false_r in E. apply Z.eqb_eq in E. split; simpl; try done; [left; split; [done|by exists r]|].
           unfold targets. simpl. rewrite E1, E2, E3. simpl. lia.
        -- split; simpl; try done. unfold targets. simpl. rewrite E1, E2, E3. simpl. lia.
    + apply put_filter_cases; [done|]. intros t. split; simpl; try done. split; [done|by exists t].
    + apply put_filter_cases; [done|]. intros t. split; simpl; try done. split; [done|by exists t].
Qed.
Lemma new_selector_good : selector_good new_selector.
Proof. split; simpl; (done || unfold targets; simpl; lia). Qed.
(** Whatever a selector is given, by name, provide, file, set of packages,
    architecture, version and repository, in any order and with any operators: it
    never has more than one target, and the types and operators of its filters are
    those the translation into jobs expects. *)
Theorem selector_one_target l s : selector_good (snd (set_each l (s, new_selector))).
Proof.
  assert (H : forall x, selector_good (snd x) -> selector_good (snd (set_each l x))); [|by apply (H (s, new_selector)), new_selector_good].
  induction l as [|c l IH]; intros [s' sl] Hg; simpl; [done|]. apply IH. by apply (set_one_good c s' sl).
Qed.

(** ** Translation *)

Context {HJL : SolverJobsLaws}.
Definition named job : Prop := Forall (fun x => Z.land (fst x) SOLVER_SELECTMASK = SOLVER_SOLVABLE_NAME) job.
(** Each job with a flag more, about the relation of what it was about. *)
Definition related (flag rel id : Z) : Job -> Job -> Prop :=
  Forall2 (fun x y => fst y = Z.lor (fst x) flag /\ exists pl, snd y = fst (Reldep.pool_rel2id (snd x) id rel pl)).
Lemma related_named flag rel id l l' : Z.land flag SOLVER_SELECTMASK = 0 -> named l -> related flag rel id l l' -> named l'.
Proof.
  intros Hf Hl Hr. induction Hr as [|x y l l' [E _] _ IH]; [constructor|]. apply Forall_cons in Hl as [Hx Hl]. constructor; [|by apply IH].
  by rewrite E, Z.land_lor_distr_l, Hx, Hf, Z.lor_0_r.
Qed.
Lemma relate_stops flag rel id l s s' e : relate flag rel id l s = (s', Err e) -> e = Failed /\ ~ named l.
Proof.
  revert s. induction l as [|[w d] l IH]; intros s; simpl; [done|]. destruct (negb _) eqn:E.
  - intros [= <- <-]. split; [done|]. intros [Hw _]%Forall_cons. simpl in Hw. by rewrite Hw, Z.eqb_refl in E.
  - unfold bind_step, call_pool. destruct (on_pool _ _) as [d' s1]. destruct (relate flag rel id l s1) as [s2 [l'|e']] eqn:E2; [done|].
    intros [= <- <-]. destruct (IH _ E2) as [H1 H2]. split; [done|]. by intros [_ Hn]%Forall_cons.
Qed.
(** What a filter for the architecture or the version does to jobs. *)
Definition narrows (o : option Filter) (l : Job) (r : result stop Job) : Prop :=
  match o, r with
  | None, _ => r = Ok l
  | Some _, Ok l' => named l' /\ named l /\ exists flag rel id, Z.land flag SOLVER_SELECTMASK = 0 /\ related flag rel id l l'
  | Some _, Err NO_MATCH => True
  | Some _, Err Failed => ~ named l
  | Some _, Err _ => False
  end.
Lemma relate_ok flag rel id l s s' l' : relate flag rel id l s = (s', Ok l') -> named l /\ related flag rel id l l'.
Proof.
  revert s l'. induction l as [|[w d] l IH]; intros s l'; simpl; [intros [= <- <-]; split; constructor|].
  destruct (negb _) eqn:Ew; [done|]. unfold bind_step, call_pool, on_pool. destruct (Reldep.pool_rel2id d id rel (pool s)) as [d' pl] eqn:E1.
  destruct (relate flag rel id l _) as [s2 [l2|]] eqn:E2; [|done]. intros [= <- <-]. destruct (IH _ _ E2) as [H1 H2].
  split; constructor; [by apply negb_false_iff, Z.eqb_eq in Ew|done| |done]. split; [done|]. exists (pool s). simpl. by rewrite E1.
Qed.
Lemma relate_narrows f flag rel id l s : Z.land flag SOLVER_SELECTMASK = 0 -> narrows (Some f) l (snd (relate flag rel id l s)).
Proof.
  intros Hf. destruct (relate flag rel id l s) as [s' [l'|e]] eqn:E; simpl; [|by destruct (relate_stops _ _ _ _ _ _ _ E) as [-> ?]].
  apply relate_ok in E as [H1 H2]. split; [by eapply related_named|]. split; [done|]. by exists flag, rel, id.
Qed.
Lemma arch_narrows o l s : texts_only is_eq o -> narrows o l (snd (filterArchToJob o l s)).
Proof.
  destruct o as [f|]; [|done]. intros [Hc (t & Ht)]. unfold filterArchToJob, is_eq in *. rewrite Hc. unfold matches_size, first_str. rewrite Ht. cbn [length negb Nat.eqb].
  unfold bind_step, lift, ask_pool. destruct (str2archid (pool s) t =? 0); [done|]. apply relate_narrows, mask_flags. by left.
Qed.
Lemma evr_narrows o l s : texts_only is_eq o -> narrows o l (snd (filterEvrToJob o l s)).
Proof.
  destruct o as [f|]; [|done]. intros [Hc (t & Ht)]. unfold filterEvrToJob, is_eq in *. rewrite Hc. unfold matches_size, first_str. rewrite Ht. cbn [length negb Nat.eqb].
  unfold bind_step, lift, call_pool. destruct (on_pool _ s) as [evr s1]. apply relate_narrows, mask_flags. case_bool_decide; auto.
Qed.
Lemma reponame_job_ok o l s : texts_only is_eq o -> exists s' l', filterReponameToJob o l s = (s', Ok l') /\ (o = None -> l' = l).
Proof.
  destruct o as [f|]; [|by exists s, l]. intros [Hc (t & Ht)]. unfold filterReponameToJob, is_eq in *. rewrite Hc. unfold matches_size, first_str. rewrite Ht. cbn [length negb Nat.eqb].
  unfold bind_step, lift, call_pool. destruct (on_pool _ s) as [l' s']. by exists s', l'.
Qed.
(** The names that the name filter selects, once each when the key of names is the kind of the jobs. *)
Definition selects_name pl f (id : Z) : Prop :=
  exists t, matches f = MStr [t] /\ (if cmpType f =? HY_EQ then id = pool_find_id pl t /\ id <> 0
                                     else exists p, (p, id) ∈ names_glob pl t /\ is_package pl p = true).
Lemma job_has job what id : jobHas job what id = true <-> (what, id) ∈ job.
Proof.
  unfold jobHas. rewrite existsb_exists. setoid_rewrite <-list_elem_of_In. split.
  - intros ([w i] & Hin & [->%Z.eqb_eq ->%Z.eqb_eq]%andb_true_iff). done.
  - intros Hin. exists (what, id). by rewrite !Z.eqb_refl.
Qed.
Definition names_only job : Prop := Forall (fun x => fst x = SOLVER_SOLVABLE_NAME) job.
Lemma names_named l : names_only l -> named l.
Proof. intros H. eapply Forall_impl; [exact H|]. intros x ->. apply mask_name. Qed.
Lemma add_names_spec pl found l : names_only l -> let l' := add_names pl found l in
  names_only l' /\ (NoDup l -> SOLVABLE_NAME = SOLVER_SOLVABLE_NAME -> NoDup l')
  /\ forall x, x ∈ l' <-> x ∈ l \/ fst x = SOLVER_SOLVABLE_NAME /\ exists p, (p, snd x) ∈ found /\ is_package pl p = true.
Proof.
  revert l. induction found as [|[p id] found IH]; intros l Hl; simpl.
  - split; [done|]. split; [done|]. intros x. split; [by left|]. intros [?|(_ & p & Hp & _)]; [done|by apply elem_of_nil in Hp].
  - assert (Hgo : forall l', names_only l' -> (forall x, x ∈ l' <-> x ∈ l \/ x = (SOLVER_SOLVABLE_NAME, id) /\ is_package pl p = true) -> (NoDup l -> SOLVABLE_NAME = SOLVER_SOLVABLE_NAME -> NoDup l') ->
      let l2 := add_names pl found l' in names_only l2 /\ (NoDup l -> SOLVABLE_NAME = SOLVER_SOLVABLE_NAME -> NoDup l2)
      /\ forall x, x ∈ l2 <-> x ∈ l \/ fst x = SOLVER_SOLVABLE_NAME /\ exists p0, (p0, snd x) ∈ (p, id) :: found /\ is_package pl p0 = true).
    { intros l' Hl' Hin Hnd. destruct (IH l' Hl') as (H1 & H2 & H3). split; [done|]. split; [auto|]. intros [w i]. rewrite H3, Hin. simpl. setoid_rewrite elem_of_cons. naive_solver. }
    destruct (is_package pl p) eqn:Ep; simpl; [|apply Hgo; [done|intros x; intuition done|done]].
    destruct (jobHas l SOLVABLE_NAME id) eqn:Eh.
    + apply job_has in Eh. pose proof (proj1 (Forall_forall _ _) Hl _ Eh) as E. simpl in E. rewrite E in Eh.
      apply Hgo; [done| |done]. intros x. split; [by left|]. by intros [?|[-> _]].
    + apply Hgo.
      * apply Forall_app. split; [done|]. by constructor.
      * intros x. rewrite elem_of_app, list_elem_of_singleton. intuition done.
      * intros Hd E. apply NoDup_app. split; [done|]. split; [|apply NoDup_singleton]. intros x Hx ->%list_elem_of_singleton.
        rewrite <-E in Hx. apply job_has in Hx. congruence.
Qed.
Lemma name_jobs f s : texts_only is_eq_or_glob (Some f) -> exists l, filterNameToJob (Some f) [] s = (s, Ok l)
  /\ names_only l /\ (SOLVABLE_NAME = SOLVER_SOLVABLE_NAME -> NoDup l) /\ forall x, x ∈ l <-> fst x = SOLVER_SOLVABLE_NAME /\ selects_name (pool s) f (snd x).
Proof.
  intros [Hc (t & Ht)]. unfold filterNameToJob, is_eq_or_glob in *. unfold matches_size, first_str. rewrite Ht. cbn [length negb Nat.eqb].
  assert (Hsel : forall id, selects_name (pool s) f id <-> if cmpType f =? HY_EQ then id = pool_find_id (pool s) t /\ id <> 0
                                     else exists p, (p, id) ∈ names_glob (pool s) t /\ is_package (pool s) p = true).
  { intros id. unfold selects_name. rewrite Ht. split; [intros (t' & [= <-] & H); done|by exists t]. }
  unfold bind_step, lift, ask_pool, ret_step. destruct (cmpType f =? HY_EQ).
  - destruct (Z.eqb_spec (pool_find_id (pool s) t) 0) as [E|E].
    + exists []. split; [done|]. split; [constructor|]. split; [constructor|]. intros x. rewrite Hsel, elem_of_nil. naive_solver congruence.
    + exists [(SOLVER_SOLVABLE_NAME, pool_find_id (pool s) t)]. split; [done|]. split; [by constructor|]. split; [intros _; apply NoDup_singleton|].
      intros [w i]. rewrite Hsel, list_elem_of_singleton. simpl. naive_solver.
  - destruct (cmpType f =? HY_GLOB); [|done]. eexists. split; [done|].
    destruct (add_names_spec (pool s) (names_glob (pool s) t) []) as (H1 & H2 & H3); [constructor|]. split; [done|]. split; [intros E; apply H2; [constructor|done]|].
    intros x. rewrite H3, Hsel, elem_of_nil. naive_solver.
Qed.

Definition with_action (action : Z) (x : Z * Z) : Z * Z := (Z.lor (fst x) action, snd x).
Lemma sltr_unfold sl job action s : any_req_filter sl = true ->
  sltrToJob sl job action s = match job_sltr sl (make_provides_ready (dnf_sack_recompute_considered s)) with
                              | (s, Ok l) => (s, Ok (job ++ map (with_action action) l))
                              | (s, Err NO_MATCH) => (s, Ok job)
                              | (s, Err Failed) => (s, Err Crashed)
                              | (s, Err code) => (s, Err (IllFormed code))
                              end.
Proof.
  intros E. unfold sltrToJob. rewrite E. simpl. destruct (job_sltr sl _) as [s' [l|[]]]; try done. do 3 f_equal.
  apply map_ext. by intros [w i].
Qed.
(** How the jobs for the targets are narrowed. *)
Definition narrowed sl : Job -> Step Job := fun job =>
  bind_step (filterArchToJob (filterArch sl) job) (fun job => bind_step (filterEvrToJob (filterEvr sl) job) (filterReponameToJob (filterReponame sl))).
Lemma narrowed_spec sl l s : selector_good sl ->
  match snd (narrowed sl l s) with
  | Ok l' => (exists l1 l2, (exists r1, narrows (filterArch sl) l r1 /\ r1 = Ok l1) /\ (exists r2, narrows (filterEvr sl) l1 r2 /\ r2 = Ok l2) /\ (filterReponame sl = None -> l' = l2))
  | Err NO_MATCH => there (filterArch sl) = true
  | Err Failed => ~ named l /\ there (filterArch sl) || there (filterEvr sl) = true
  | Err _ => False
  end.
Proof.
  intros [G1 G2 G3 G4 G5 G6 G7]. unfold narrowed, bind_step. pose proof (arch_narrows (filterArch sl) l s G1) as HA1.
  destruct (filterArchToJob (filterArch sl) l s) as [s1 [l1|e]]; simpl in HA1 |- *.
  - pose proof (evr_narrows (filterEvr sl) l1 s1 G2) as HE. destruct (filterEvrToJob (filterEvr sl) l1 s1) as [s2 [l2|e]] eqn:E2; simpl in HE |- *.
    + destruct (reponame_job_ok (filterReponame sl) l2 s2 G3) as (s3 & l3 & -> & H3). simpl. exists l1, l2. split; [by exists (Ok l1)|]. split; [by exists (Ok l2)|done].
    + destruct (filterEvr sl) as [f|] eqn:Ef; [|done]. destruct e; try done.
      * exfalso. unfold filterEvrToJob in E2. destruct G2 as [Hc (t & Ht)]. unfold is_eq, matches_size, first_str in *. rewrite Hc, Ht in E2. cbn [length negb Nat.eqb] in E2.
        unfold bind_step, lift, call_pool in E2. destruct (on_pool _ s1) as [evr s1']. by destruct (relate_stops _ _ _ _ _ _ _ E2).
      * split; [|by rewrite orb_true_r]. intros Hn. apply HE. destruct (filterArch sl); simpl in HA1; [|by injection HA1 as <-].
        by destruct HA1.
  - destruct (filterArch sl); [|done]. destruct e; try done.
Qed.

Lemma one_target sl : selector_good sl ->
  match filterName sl with
  | Some _ => filterProvides sl = None /\ filterFile sl = None /\ pkgs sl = 0
  | None => match filterProvides sl with
            | Some _ => filterFile sl = None /\ pkgs sl = 0
            | None => match filterFile sl with Some _ => pkgs sl = 0 | None => True end
            end
  end.
Proof.
  intros [_ _ _ _ _ _ G]. unfold targets in G. destruct (filterName sl), (filterProvides sl), (filterFile sl); simpl in G; try lia;
    destruct (Z.eqb_spec (pkgs sl) 0); simpl in G; try lia; done.
Qed.
Lemma req_of sl : any_req_filter sl = there (filterName sl) || there (filterProvides sl) || there (filterFile sl) || negb (pkgs sl =? 0).
Proof. done. Qed.

(** A selector with a name makes jobs for exactly the names it matches, each
    restricted to its architecture and version, and nothing when the pool does not
    know the architecture; with a glob every name gets one job. It never fails. *)
Theorem name_selector_spec sl f job action s : selector_good sl -> filterName sl = Some f ->
  let pl := pool (make_provides_ready (dnf_sack_recompute_considered s)) in
  exists s' job', sltrToJob sl job action s = (s', Ok job')
  /\ (job' = job /\ there (filterArch sl) = true
      \/ exists l0 l1 l2 l3, (forall x, x ∈ l0 <-> fst x = SOLVER_SOLVABLE_NAME /\ selects_name pl f (snd x)) /\ (SOLVABLE_NAME = SOLVER_SOLVABLE_NAME -> NoDup l0)
           /\ narrows (filterArch sl) l0 (Ok l1) /\ narrows (filterEvr sl) l1 (Ok l2) /\ (filterReponame sl = None -> l3 = l2)
           /\ job' = job ++ map (with_action action) l3).
Proof.
  intros Hg Ef pl. pose proof (one_target sl Hg) as Ho. rewrite Ef in Ho. destruct Ho as (Ep & Efi & Ek).
  rewrite sltr_unfold by by rewrite req_of, Ef. set (s0 := make_provides_ready _) in *.
  pose proof (good_name _ Hg) as Hn. rewrite Ef in Hn. destruct (name_jobs f s0 Hn) as (l0 & E0 & H1 & H2 & H3).
  assert (Ej : job_sltr sl s0 = narrowed sl l0 s0).
  { unfold job_sltr, filterPkgToJob. rewrite Ek, Ef, Efi, Ep. cbn [Z.eqb]. unfold ret_step at 1, bind_step at 1 2. by rewrite E0. }
  rewrite Ej. pose proof (narrowed_spec sl l0 s0 Hg) as Hsp. destruct (narrowed sl l0 s0) as [s' [l'|[]]]; simpl in Hsp.
  - destruct Hsp as (l1 & l2 & (r1 & Hr1 & ->) & (r2 & Hr2 & ->) & Hr3). exists s', (job ++ map (with_action action) l'). split; [done|]. right. exists l0, l1, l2, l'. done.
  - exists s', job. split; [done|]. by left.
  - done.
  - done.
  - exfalso. apply Hsp. by apply names_named.
Qed.

(** The first half of the translation: the jobs for the target. *)
Definition job_targets sl : Step Job :=
  bind_step (filterPkgToJob (pkgs sl) []) (fun job => bind_step (filterNameToJob (filterName sl) job) (fun job =>
    bind_step (filterFileToJob (filterFile sl) job) (filterProvidesToJob (filterProvides sl)))).
Lemma job_sltr_split sl s : job_sltr sl s = bind_step (job_targets sl) (narrowed sl) s.
Proof.
  unfold job_sltr, job_targets, narrowed, bind_step. destruct (filterPkgToJob _ _ s) as [s1 [l1|]]; [|done].
  destruct (filterNameToJob _ _ s1) as [s2 [l2|]]; [|done]. destruct (filterFileToJob _ _ s2) as [s3 [l3|]]; [|done]. by destruct (filterProvidesToJob _ _ s3) as [s4 [l4|]].
Qed.
Lemma targets_spec sl s : selector_good sl -> any_req_filter sl = true ->
  match snd (job_targets sl s) with
  | Ok l => (there (filterName sl) = true -> named l)
            /\ (pkgs sl <> 0 \/ (exists f, filterProvides sl = Some f /\ cmpType f = HY_EQ) -> ~ named l)
  | Err NO_MATCH => there (filterFile sl) = true
  | Err Failed => exists f, filterProvides sl = Some f /\ cmpType f = HY_GLOB
  | Err _ => False
  end.
Proof.
  intros Hg Hr. pose proof (one_target sl Hg) as Ho. rewrite req_of in Hr. pose proof Hg as [_ _ _ G4 G5 G6 _]. unfold job_targets, bind_step, filterPkgToJob, ret_step.
  destruct (filterName sl) as [f|].
  - destruct Ho as (-> & -> & ->). destruct (name_jobs f s G4) as (l & E & H & _). cbn [Z.eqb]. rewrite E. simpl. split; [intros _; by apply names_named|].
    by intros [?|(f' & ? & _)].
  - destruct (filterProvides sl) as [f|] eqn:Ep.
    + destruct Ho as [-> ->]. simpl. destruct G6 as [[Hc (r & Hm)]|[Hc (t & Hm)]]; unfold filterProvidesToJob, matches_size, first_reldep, first_str; rewrite Hm; cbn [length negb Nat.eqb]; rewrite Hc;
        unfold bind_step, lift, ask_pool, ret_step; simpl.
      * split; [done|]. intros _ [Hn _]%Forall_cons. by apply mask_provides.
      * destruct (first_provide (pool s) t) as [id|]; simpl; [|by exists f].
        split; [done|]. intros [?|(f' & [= <-] & Hc')]; [done|]. by rewrite Hc in Hc'.
    + destruct (filterFile sl) as [f|].
      * rewrite Ho. simpl. destruct G5 as [_ (t & Hm)]. unfold filterFileToJob, matches_size, first_str. rewrite Hm. cbn [length negb Nat.eqb].
        unfold bind_step, lift, call_pool. destruct (on_pool _ s) as [[n l] s']. simpl. destruct (n =? 0); simpl; [done|]. split; [done|]. by intros [?|(f' & ? & _)].
      * simpl in Hr. destruct (Z.eqb_spec (pkgs sl) 0) as [|Hk]; [done|]. simpl. split; [done|]. intros _ [Hn _]%Forall_cons. simpl in Hn.
        apply mask_one_of. rewrite !Z.land_lor_distr_l, (mask_flags SOLVER_SETARCH), (mask_flags SOLVER_SETEVR), !Z.lor_0_r in Hn by auto. exact Hn.
Qed.
(** When a translation fails. *)
Lemma selector_failures sl job action s : selector_good sl ->
  match snd (sltrToJob sl job action s) with
  | Ok job' => exists l, job' = job ++ map (with_action action) l
  | Err NoTarget => any_req_filter sl = false /\ any_opt_filter sl = true
  | Err (IllFormed _) => False
  | Err Crashed => any_req_filter sl = true /\ filterName sl = None
      /\ (there (filterArch sl) || there (filterEvr sl) = true \/ exists f, filterProvides sl = Some f /\ cmpType f = HY_GLOB)
  end
  /\ (pkgs sl <> 0 \/ (exists f, filterProvides sl = Some f /\ cmpType f = HY_EQ) -> there (filterEvr sl) = true -> filterArch sl = None ->
      snd (sltrToJob sl job action s) = Err Crashed).
Proof.
  intros Hg. destruct (any_req_filter sl) eqn:Er; cycle 1.
  { unfold sltrToJob. rewrite Er. simpl. split.
    - destruct (any_opt_filter sl) eqn:Eo; simpl; [done|by exists []; rewrite app_nil_r].
    - rewrite req_of in Er. apply orb_false_iff in Er as [[[_ E1]%orb_false_iff _]%orb_false_iff E2]. apply negb_false_iff, Z.eqb_eq in E2.
      intros [?|(f & Ef & _)]; [done|]. by rewrite Ef in E1. }
  rewrite sltr_unfold, job_sltr_split by done. set (s0 := make_provides_ready _). unfold bind_step. pose proof (targets_spec sl s0 Hg Er) as Ht.
  assert (Hother : pkgs sl <> 0 \/ (exists f, filterProvides sl = Some f /\ cmpType f = HY_EQ) -> there (filterFile sl) = false /\ ~ exists f, filterProvides sl = Some f /\ cmpType f = HY_GLOB).
  { pose proof (one_target sl Hg) as Ho. intros [Hk|(f & Ef & Hc)].
    - destruct (filterName sl); [by destruct Ho as (_ & _ & ?)|]. destruct (filterProvides sl); [by destruct Ho|]. destruct (filterFile sl); [done|]. split; [done|]. by intros (f & ? & _).
    - rewrite Ef in Ho |- *. destruct (filterName sl); [by destruct Ho|]. destruct Ho as [-> _]. split; [done|]. intros (f' & [= <-] & Hc'). by rewrite Hc in Hc'. }
  destruct (job_targets sl s0) as [s1 [l|e]]; simpl in Ht.
  - destruct Ht as [H1 H2]. pose proof (narrowed_spec sl l s1 Hg) as Hsp. destruct (narrowed sl l s1) as [s2 [l'|e]]; simpl in Hsp |- *.
    + split; [by exists l'|]. intros Hk He Ea. exfalso. destruct Hsp as (l1 & l2 & (r1 & Hr1 & ->) & (r2 & Hr2 & ->) & _). rewrite Ea in Hr1. injection Hr1 as ->.
      destruct (filterEvr sl) as [f|]; [|done]. destruct Hr2 as (_ & Hn & _). by apply (H2 Hk).
    + destruct e; simpl; try done.
      * split; [exists []; by rewrite app_nil_r|]. intros _ _ Ea. by rewrite Ea in Hsp.
      * destruct Hsp as [Hn Hx]. split; [|done]. split; [done|]. split; [|by left]. destruct (filterName sl); [|done]. by destruct (Hn (H1 eq_refl)).
  - destruct e; simpl; try done.
    + split; [exists []; by rewrite app_nil_r|]. intros Hk _ _. destruct (Hother Hk) as [E _]. by rewrite E in Ht.
    + split; [|done]. split; [done|]. split; [|by right]. pose proof (one_target sl Hg) as Ho. destruct Ht as (f & Ef & _). rewrite Ef in Ho. by destruct (filterName sl); [destruct Ho|].
Qed.

(** *** The translation, target by target *)

(** Each job with a flag more and about the relation of what it was about; the relations
    are made in the pool one after the other. *)
Inductive related_in (flag rel id : Z) : Reldep.pool -> Job -> Job -> Reldep.pool -> Prop :=
  | related_none pl : related_in flag rel id pl [] [] pl
  | related_more pl what dep dep' pl1 l l' pl2 : Reldep.pool_rel2id dep id rel pl = (dep', pl1) -> related_in flag rel id pl1 l l' pl2 ->
      related_in flag rel id pl ((what, dep) :: l) ((Z.lor what flag, dep') :: l') pl2.
(** Only jobs about names can be restricted. *)
Definition restricted pl (flag rel id : Z) l (r : result stop Job) pl' : Prop :=
  named l /\ (exists l', r = Ok l' /\ related_in flag rel id pl l l' pl') \/ ~ named l /\ r = Err Failed.
Definition target_result pl sl (r : result stop Job) pl' : Prop :=
  match filterName sl, filterProvides sl, filterFile sl with
  | Some f, _, _ => pl' = pl /\ exists l, r = Ok l /\ (SOLVABLE_NAME = SOLVER_SOLVABLE_NAME -> NoDup l)
      /\ forall x, x ∈ l <-> fst x = SOLVER_SOLVABLE_NAME /\ selects_name pl f (snd x)
  | None, Some f, _ => pl' = pl
      /\ ((exists id, cmpType f = HY_EQ /\ matches f = MReldep [id] /\ r = Ok [(SOLVER_SOLVABLE_PROVIDES, id)])
         \/ exists t, cmpType f = HY_GLOB /\ matches f = MStr [t] /\ r = match first_provide pl t with Some id => Ok [(SOLVER_SOLVABLE_PROVIDES, id)] | None => Err Failed end)
  | None, None, Some f => exists t n l, matches f = MStr [t]
      /\ selection_make pl [] t (Z.lor (if has (cmpType f) HY_GLOB then Z.lor SELECTION_GLOB SELECTION_NOCASE else 0) SELECTION_FILELIST) = (n, l, pl')
      /\ r = if n =? 0 then Err NO_MATCH else Ok l
  | None, None, None => pl' = pl /\ r = Ok [(Z.lor SOLVER_SOLVABLE_ONE_OF (Z.lor SOLVER_SETARCH SOLVER_SETEVR), pkgs sl)]
  end.
Definition arch_result pl (o : option Filter) l (r : result stop Job) pl' : Prop :=
  match o with
  | None => r = Ok l /\ pl' = pl
  | Some f => exists t, matches f = MStr [t] /\ if str2archid pl t =? 0 then r = Err NO_MATCH else restricted pl SOLVER_SETARCH REL_ARCH (str2archid pl t) l r pl'
  end.
Definition evr_result pl (o : option Filter) l (r : result stop Job) pl' : Prop :=
  match o with
  | None => r = Ok l /\ pl' = pl
  | Some f => exists t id pl1, matches f = MStr [t] /\ Reldep.pool_str2id (Some t) pl = (id, pl1)
      /\ restricted pl1 (if bool_decide (keyname f = HY_PKG_VERSION) then SOLVER_SETEV else SOLVER_SETEVR) REL_EQ id l r pl'
  end.
Definition repo_result pl (o : option Filter) l (r : result stop Job) : Prop :=
  match o with None => r = Ok l | Some f => exists t, matches f = MStr [t] /\ r = Ok (fst (selection_filter pl l (repo_jobs pl t))) end.
Definition on_success (r : result stop Job) (k : Job -> Prop) (last : result stop Job) : Prop := match r with Ok l => k l | Err e => last = Err e end.
(** The jobs for the target, with its architecture, its version, and its repository. *)
Definition translation pl sl (r : result stop Job) : Prop :=
  exists r0 pl0, target_result pl sl r0 pl0 /\ on_success r0 (fun l0 =>
  exists r1 pl1, arch_result pl0 (filterArch sl) l0 r1 pl1 /\ on_success r1 (fun l1 =>
  exists r2 pl2, evr_result pl1 (filterEvr sl) l1 r2 pl2 /\ on_success r2 (fun l2 => repo_result pl2 (filterReponame sl) l2 r) r) r) r.

Lemma relate_restricted flag rel id l s : let '(s', r) := relate flag rel id l s in restricted (pool s) flag rel id l r (pool s').
Proof.
  revert s. induction l as [|[w d] l IH]; intros s; simpl; [left; split; [constructor|]; exists []; split; [done|constructor]|].
  destruct (Z.eqb_spec (Z.land w SOLVER_SELECTMASK) SOLVER_SOLVABLE_NAME) as [Hw|Hw]; cbn [negb].
  2: { right. split; [|done]. by intros [? _]%Forall_cons. }
  unfold bind_step, call_pool, on_pool. destruct (Reldep.pool_rel2id d id rel (pool s)) as [d' pl1] eqn:Ed. specialize (IH (set_pool pl1 (provides_ready s) s)).
  destruct (relate flag rel id l _) as [s2 r]. cbn [pool set_pool] in IH. destruct IH as [(Hn & l' & -> & Hr)|[Hn ->]].
  - left. split; [by constructor|]. eexists. split; [reflexivity|]. by eapply related_more.
  - right. split; [|done]. by intros [_ ?]%Forall_cons.
Qed.
Lemma arch_translated o l s : texts_only is_eq o -> let '(s', r) := filterArchToJob o l s in arch_result (pool s) o l r (pool s').
Proof.
  destruct o as [f|]; [|done]. intros [Hc (t & Ht)]. unfold filterArchToJob, arch_result, is_eq in *. rewrite Hc. unfold matches_size, first_str. rewrite Ht. cbn [length negb Nat.eqb].
  unfold bind_step, lift, ask_pool. destruct (str2archid (pool s) t =? 0) eqn:E; [exists t; by rewrite E|].
  pose proof (relate_restricted SOLVER_SETARCH REL_ARCH (str2archid (pool s) t) l s) as H. destruct (relate _ _ _ l s) as [s' r]. exists t. by rewrite E.
Qed.
Lemma evr_translated o l s : texts_only is_eq o -> let '(s', r) := filterEvrToJob o l s in evr_result (pool s) o l r (pool s').
Proof.
  destruct o as [f|]; [|done]. intros [Hc (t & Ht)]. unfold filterEvrToJob, evr_result, is_eq in *. rewrite Hc. unfold matches_size, first_str. rewrite Ht. cbn [length negb Nat.eqb].
  unfold bind_step, lift, call_pool, on_pool. destruct (Reldep.pool_str2id (Some t) (pool s)) as [id pl1] eqn:E.
  pose proof (relate_restricted (if bool_decide (keyname f = HY_PKG_VERSION) then SOLVER_SETEV else SOLVER_SETEVR) REL_EQ id l (set_pool pl1 (provides_ready s) s)) as H.
  destruct (relate _ _ _ l _) as [s' r]. by exists t, id, pl1.
Qed.
Lemma repo_translated o l s : texts_only is_eq o -> repo_result (pool s) o l (snd (filterReponameToJob o l s)).
Proof.
  destruct o as [f|]; [|done]. intros [Hc (t & Ht)]. unfold filterReponameToJob, repo_result, is_eq in *. rewrite Hc. unfold matches_size, first_str. rewrite Ht. cbn [length negb Nat.eqb].
  unfold bind_step, lift, call_pool, on_pool. exists t. split; [done|]. by destruct (selection_filter _ _ _).
Qed.
Lemma target_translated sl s : selector_good sl -> any_req_filter sl = true -> let '(s', r) := job_targets sl s in target_result (pool s) sl r (pool s').
Proof.
  intros Hg Hr. pose proof (one_target sl Hg) as Ho. rewrite req_of in Hr. pose proof Hg as [_ _ _ G4 G5 G6 _]. unfold job_targets, target_result, bind_step, filterPkgToJob, ret_step.
  destruct (filterName sl) as [f|].
  - destruct Ho as (-> & -> & ->). destruct (name_jobs f s G4) as (l & E & _ & H). cbn [Z.eqb]. rewrite E. simpl. split; [done|]. exists l. split; [done|exact H].
  - destruct (filterProvides sl) as [f|] eqn:Ep.
    + destruct Ho as [-> ->]. simpl. destruct G6 as [[Hc (r & Hm)]|[Hc (t & Hm)]]; unfold filterProvidesToJob, matches_size, first_reldep, first_str; rewrite Hm; cbn [length negb Nat.eqb]; rewrite Hc;
        unfold bind_step, lift, ask_pool, ret_step; simpl; [split; [done|]; left; by exists r|].
      destruct (first_provide (pool s) t) as [id|] eqn:Ef; (split; [done|]; right; exists t; by rewrite Ef).
    + destruct (filterFile sl) as [f|].
      * rewrite Ho. simpl. destruct G5 as [_ (t & Hm)]. unfold filterFileToJob, matches_size, first_str. rewrite Hm. cbn [length negb Nat.eqb].
        unfold bind_step, lift, call_pool, on_pool. destruct (selection_make (pool s) [] t _) as [[n l] pl'] eqn:E. simpl. destruct (n =? 0) eqn:En; (exists t, n, l; split; [done|]; split; [exact E|]; by rewrite En).
      * simpl in Hr. by destruct (pkgs sl =? 0).
Qed.
Lemma narrowing_translated sl l s : selector_good sl ->
  exists r1 pl1, arch_result (pool s) (filterArch sl) l r1 pl1 /\ on_success r1 (fun l1 =>
  exists r2 pl2, evr_result pl1 (filterEvr sl) l1 r2 pl2 /\ on_success r2 (fun l2 => repo_result pl2 (filterReponame sl) l2 (snd (narrowed sl l s))) (snd (narrowed sl l s))) (snd (narrowed sl l s)).
Proof.
  intros [G1 G2 G3 _ _ _ _]. unfold narrowed, bind_step. pose proof (arch_translated (filterArch sl) l s G1) as H1. destruct (filterArchToJob _ l s) as [s1 r1]. exists r1, (pool s1). split; [done|].
  destruct r1 as [l1|]; [|done]. cbn [on_success]. pose proof (evr_translated (filterEvr sl) l1 s1 G2) as H2. destruct (filterEvrToJob _ l1 s1) as [s2 r2]. exists r2, (pool s2). split; [done|].
  destruct r2 as [l2|]; [|done]. by apply repo_translated.
Qed.
Lemma sltr_translated sl s : selector_good sl -> any_req_filter sl = true -> translation (pool s) sl (snd (job_sltr sl s)).
Proof.
  intros Hg Hr. rewrite job_sltr_split. unfold bind_step. pose proof (target_translated sl s Hg Hr) as H. destruct (job_targets sl s) as [s1 r0]. exists r0, (pool s1). split; [done|].
  destruct r0 as [l|]; [|done]. by apply narrowing_translated.
Qed.
(** C26. What a selector becomes, for every selector that calls can make (those of
    [selector_one_target]). Without a target it is
    refused just when an architecture, a version or a repository is given, and asks for nothing else.
    With a name there is a job for each name of a package that it matches, with a
    provide one for it (with a glob: for the first that matches), with a file those that
    libsolv selects, and with packages one for their set. An architecture and a version restrict
    the jobs to a relation, which needs jobs about names: with other jobs
    it fails with an assertion, as a glob of provides does that ends at nothing; a
    repository filters them. Each job that is added carries the action. A file
    or an architecture that is unknown adds no jobs. The two errors for filters of the
    wrong form never happen, a selector with a name never fails, and a version always fails that narrows packages
    or a provide. *)
Theorem selectors_translate sl job action s : selector_good sl ->
  (if any_req_filter sl then
     exists r, translation (pool (make_provides_ready (dnf_sack_recompute_considered s))) sl r
       /\ match r with
          | Ok l => snd (sltrToJob sl job action s) = Ok (job ++ map (with_action action) l)
          | Err NO_MATCH => snd (sltrToJob sl job action s) = Ok job
          | Err Failed => snd (sltrToJob sl job action s) = Err Crashed /\ filterName sl = None
          | Err _ => False
          end
   else snd (sltrToJob sl job action s) = if any_opt_filter sl then Err NoTarget else Ok job)
  /\ (pkgs sl <> 0 \/ (exists f, filterProvides sl = Some f /\ cmpType f = HY_EQ) -> there (filterEvr sl) = true -> filterArch sl = None ->
      snd (sltrToJob sl job action s) = Err Crashed).
Proof.
  intros Hg. destruct (selector_failures sl job action s Hg) as [H1 H2]. split; [|exact H2]. clear H2. destruct (any_req_filter sl) eqn:Er.
  2: { unfold sltrToJob. rewrite Er. by destruct (any_opt_filter sl). }
  rewrite sltr_unfold in H1 |- * by done. set (s0 := make_provides_ready _) in *. pose proof (sltr_translated sl s0 Hg Er) as Ht. destruct (job_sltr sl s0) as [s1 r]. cbn [snd] in *.
  exists r. split; [done|]. destruct r as [l|[]]; simpl in *; try done. split; [done|apply H1].
Qed.

(** ** Requests *)

Definition request_action (r : request) : Z :=
  match r with
  | DistupgradeAll | DistupgradePackage _ | DistupgradeSelector _ => SOLVER_DISTUPGRADE
  | ErasePackage _ _ | EraseSelector _ _ => SOLVER_ERASE
  | InstallPackage _ _ | InstallSelector _ _ => SOLVER_INSTALL
  | UpgradeAll | UpgradePackage _ | UpgradeSelector _ => SOLVER_UPDATE
  | UserInstalledPackage _ | UserInstalledSet _ => SOLVER_USERINSTALLED
  end.
Definition request_actions (r : request) : Z :=
  match r with
  | DistupgradeAll | DistupgradePackage _ | DistupgradeSelector _ => DISTUPGRADE_ACTIONS
  | ErasePackage _ _ | EraseSelector _ _ => DNF_ERASE
  | InstallPackage _ _ | InstallSelector _ _ => INSTALL_ACTIONS
  | UpgradeAll => DNF_UPGRADE_ALL
  | UpgradePackage _ | UpgradeSelector _ => DNF_UPGRADE
  | UserInstalledPackage _ | UserInstalledSet _ => 0
  end.
(** All bits of an action are set in every job. *)
Definition carries (action : Z) job : Prop := Forall (fun x => Z.land (fst x) action = action) job.
Lemma carries_lor a b : Z.land (Z.lor a b) b = b.
Proof. apply Z.bits_inj. intros i. rewrite Z.land_spec, Z.lor_spec. by destruct (Z.testbit a i), (Z.testbit b i). Qed.
Lemma carries_more a b x : Z.land x (Z.lor a b) = Z.lor a b -> Z.land x a = a.
Proof.
  intros H. apply Z.bits_inj. intros i. apply (f_equal (fun z => Z.testbit z i)) in H. rewrite Z.land_spec, Z.lor_spec in H. rewrite Z.land_spec.
  by destruct (Z.testbit a i), (Z.testbit b i), (Z.testbit x i).
Qed.
Lemma with_action_carries a l : carries a (map (with_action a) l).
Proof. apply Forall_forall. intros x Hx. apply list_elem_of_In, in_map_iff in Hx as ([w i] & <- & _). apply carries_lor. Qed.
Lemma carries_weaken a b l : carries (Z.lor a b) l -> carries a l.
Proof. intros H. eapply Forall_impl; [exact H|]. intros x. apply carries_more. Qed.
Lemma sltr_appends sl job action s : exists l, carries action l /\
  match snd (sltrToJob sl job action s) with Ok job' => job' = job ++ l | Err _ => True end.
Proof.
  destruct (any_req_filter sl) eqn:E; cycle 1.
  { exists []. split; [constructor|]. unfold sltrToJob. rewrite E. simpl. destruct (any_opt_filter sl); simpl; [done|by rewrite app_nil_r]. }
  rewrite sltr_unfold by done. destruct (job_sltr sl _) as [s' [l|e]]; [by exists (map (with_action action) l); split; [apply with_action_carries|]|].
  exists []. split; [constructor|]. destruct e; simpl; (done || by rewrite app_nil_r).
Qed.
(** What a call does to the staging: it appends jobs that carry the action, or fails and appends none. *)
Definition appends (action actions' : Z) g (x : DnfSack * Staging * result goal_error unit) : Prop :=
  exists l, staging (snd (fst x)) = staging g ++ l /\ carries action l /\ actions (snd (fst x)) = Z.lor (actions g) actions' /\ (snd x <> Ok tt -> l = []).
Lemma request_sltr_appends a sl action s g : appends action a g (request_sltr a sl action s g).
Proof.
  unfold request_sltr. destruct (sltr_appends sl (staging (add_actions a g)) action s) as (l & Hl & H).
  destruct (sltrToJob _ _ _ _) as [s' [job|e]]; simpl in H; [exists l; subst job|exists []]; simpl; split_and!; try done; by rewrite ?app_nil_r || constructor.
Qed.
Lemma request_package_appends a pkg action s g : appends action a g (request_package a pkg action s g).
Proof.
  unfold request_package, packageToJob. destruct (on_pool _ _) as [what s']. eexists [_]. simpl. split_and!; try done. constructor; [|constructor]. apply carries_lor.
Qed.
Lemma appends_weaken a b c g x : appends (Z.lor a b) c g x -> appends a c g x.
Proof. intros (l & H1 & H2 & H3). exists l. split; [done|]. split; [by eapply carries_weaken|done]. Qed.
(** Every request only adds jobs behind those of earlier requests, the jobs
    carry the bits of its action, the actions of the goal are noted even when the
    selector is refused, and a refused request adds no job. *)
Theorem request_appends r s g : appends (request_action r) (request_actions r) g (make_request r s g).
Proof.
  destruct r; simpl.
  - unfold distupgrade_all. destruct (of_repo _ _ _) as [s1 q]. destruct (with_result _ _ _) as [[s2 res]|]; [|exists []; simpl; split_and!; try done; by rewrite ?app_nil_r || constructor].
    destruct (selector_set_pset _ _ _) as [[s3 sl] b]. cbn [add_actions staging].
    destruct (sltr_appends sl (staging g) SOLVER_DISTUPGRADE s3) as (l & Hl & H).
    destruct (sltrToJob _ _ _ _) as [s' [job|e]]; simpl in H; [exists l; subst job|exists []]; simpl; split_and!; try done; by rewrite ?app_nil_r || constructor.
  - apply request_package_appends.
  - apply request_sltr_appends.
  - eexists [_]. simpl. split_and!; try done. constructor; [|constructor]. simpl. apply (carries_more _ (erase_flags2libsolv flags0)).
    rewrite <-Z.lor_assoc. apply carries_lor.
  - eapply appends_weaken, request_sltr_appends.
  - destruct optional; [eapply appends_weaken|]; apply request_package_appends.
  - destruct optional; [eapply appends_weaken|]; apply request_sltr_appends.
  - eexists [_]. simpl. split_and!; try done. constructor; [|constructor]. simpl. rewrite Z.lor_comm. apply carries_lor.
  - apply request_package_appends.
  - unfold upgrade_sltr. destruct (pkgs sl =? 0); [|eapply appends_weaken]; apply request_sltr_appends.
  - eexists [_]. simpl. split_and!; try done; [|by rewrite Z.lor_0_r]. constructor; [|constructor]. apply carries_lor.
  - exists (map (fun id => (Z.lor SOLVER_SOLVABLE SOLVER_USERINSTALLED, id)) (pset_ids pset)). simpl.
    assert (H : forall l g, fold_left (fun g id => queue_push2_staging (Z.lor SOLVER_SOLVABLE SOLVER_USERINSTALLED) id g) l g
      = mkStaging (staging g ++ map (fun id => (Z.lor SOLVER_SOLVABLE SOLVER_USERINSTALLED, id)) l) (actions g)).
    { clear. induction l as [|id l IH]; intros g; simpl; [by rewrite app_nil_r; destruct g|]. rewrite IH. simpl. by rewrite <-app_assoc. }
    rewrite H. simpl. split_and!; try done; [|by rewrite Z.lor_0_r]. apply Forall_forall. intros x Hx. apply list_elem_of_In, in_map_iff in Hx as (id & <- & _). apply carries_lor.
Qed.

(** ** Requests and queries *)

Context {HLL : LibsolvPoolLaws} {HSL : LibsolvLaws HS} {HGL : LibsolvGrowLaws HG} {HRL : ProvidesReadyLaws}.
Context {HUL : LibsolvUpdatesLaws} {HAL : AdvisoriesLaws} {HQL : PackageSetsLaws HQ} {HDL : DependenciesLaws} {HML : MissingFiltersLaws}.
(** A goal that upgrades the whole distribution asks for just the packages of
    the sack that are considered and not installed: query, selector and
    translation together add one job about the list of exactly these. *)
Theorem distupgrade_all_spec s g : coherent s ->
  exists s' pl ids, make_request DistupgradeAll s g
    = (s', mkStaging (staging g ++ [(Z.lor (Z.lor SOLVER_SOLVABLE_ONE_OF (Z.lor SOLVER_SETARCH SOLVER_SETEVR)) SOLVER_DISTUPGRADE, fst (pool_queuetowhatprovides pl ids))])
             (Z.lor (actions g) DISTUPGRADE_ACTIONS), Ok tt)
  /\ NoDup ids /\ forall p, p ∈ ids <-> p ∈ packages (pool s) /\ should_consider s APPLY_EXCLUDES p = true /\ in_repos (pool s) [HY_SYSTEM_REPO_NAME] p = false.
Proof.
  intros Hs. simpl. unfold distupgrade_all. rewrite of_repo_neq. set (q := push_filter _ _).
  assert (Hq : query_good s q) by (apply push_good; [apply new_good|by apply typed_ok]).
  destruct (apply_repo s q HY_NEQ [HY_SYSTEM_REPO_NAME] (or_intror eq_refl) Hs Hq) as (s1 & res & c & E & Hs1 & _ & Hr & Hb); [done|done|].
  unfold with_result. rewrite E. cbn [result_bind result_map].
  unfold selector_set_pset. cbn [new_selector filterName filterProvides filterFile there orb].
  set (s2 := make_provides_ready _). unfold on_pool. pose proof (whatprovides_id (pool s2) (pset_ids res)) as Hid.
  destruct (pool_queuetowhatprovides (pool s2) (pset_ids res)) as [id pl] eqn:Eid. simpl in Hid.
  rewrite sltr_unfold by (rewrite req_of; simpl; by apply Z.eqb_neq in Hid as ->).
  set (s3 := make_provides_ready _). unfold job_sltr, bind_step, filterPkgToJob, ret_step. cbn [pkgs set_pkgs].
  rewrite (proj2 (Z.eqb_neq _ _) Hid). cbn.
  eexists _, (pool s2), (pset_ids res). rewrite Eid. split; [reflexivity|]. split; [apply pset_ids_nodup|].
  intros p. rewrite (ids_in res) by apply Hr. rewrite Hb. unfold start. cbn [q push_filter set_applied new_query result_map flags].
  change (has HY_NEQ HY_NOT) with true. rewrite !andb_true_iff, bool_decide_eq_true, negb_true_iff. tauto.
Qed.
End requests.
End DnfRequests.
