(* ===== verification/DnfGoal.v ===== *)
(** * DnfGoal: solving a goal ([goal/Goal.cpp])

    The jobs of a goal are completed and given to the solver; installonly packages
    are limited, protected packages may not be removed, and problems are described.
    The solver and its transactions are the class [Solving]. Tests and settings of ids in sets of
    packages are operations of the class [PackageSetEdits] that always answer: accesses outside of
    a set are not modelled, and the laws speak only of ids inside. *)

From S2P Require Import Prelude Sack Solv Regex Specs Packages DnfSack DnfQuery DnfJobs.
Local Open Scope Z_scope.

(** The kinds of rules that the program distinguishes. *)
Inductive SolverRuleinfo :=
| RULE_DISTUPGRADE | RULE_INFARCH | RULE_UPDATE | RULE_JOB | RULE_JOB_UNSUPPORTED | RULE_JOB_NOTHING_PROVIDES_DEP
| RULE_JOB_UNKNOWN_PACKAGE | RULE_JOB_PROVIDED_BY_SYSTEM | RULE_PKG | RULE_BEST | RULE_PKG_NOT_INSTALLABLE
| RULE_PKG_NOTHING_PROVIDES_DEP | RULE_PKG_SAME_NAME | RULE_PKG_CONFLICTS | RULE_PKG_OBSOLETES
| RULE_PKG_INSTALLED_OBSOLETES | RULE_PKG_IMPLICIT_OBSOLETES | RULE_PKG_REQUIRES | RULE_PKG_SELF_CONFLICT | RULE_YUMOBS
| RULE_OTHER.
Inductive SolverFlag := ALLOW_VENDORCHANGE | KEEP_ORPHANS | BEST_OBEY_POLICY | YUM_OBSOLETES | IGNORE_RECOMMENDED | ALLOW_DOWNGRADE.
Inductive SolverReason := REASON_UNIT_RULE | REASON_RESOLVE_JOB | REASON_CLEANDEPS_ERASE | REASON_WEAKDEP | REASON_OTHER.
Class Solving `{Reldep.Pool} := {
  Solver : Type; Transaction : Type;
  solver_create : Reldep.pool -> Solver;
  solver_set_flag : Solver -> SolverFlag -> bool -> Solver;
  (** It sees the pool with what is considered; the number of problems. *)
  solver_solve : Reldep.pool -> option Map -> Solver -> Job -> Z * Solver;
  solver_problem_count : Solver -> Z;
  solver_get_decisionlevel : Solver -> Z -> Z;
  solver_describe_decision : Solver -> Z -> SolverReason * Z;
  (** Whether a rule comes from a job, or is one for best packages. *)
  rule_of_job : Solver -> Z -> bool;
  solver_get_cleandeps : Solver -> list Z;
  solver_get_unneeded : Solver -> list Z;
  solver_get_recommendations : Solver -> list Z;
  solver_findallproblemrules : Solver -> Z -> list Z;
  solver_ruleinfo : Solver -> Z -> SolverRuleinfo * (Z * Z * Z);
  solver_allruleinfos : Solver -> Z -> list (SolverRuleinfo * (Z * Z * Z));
  solver_problemruleinfo2str : Solver -> SolverRuleinfo -> Z -> Z -> Z -> cstr;
  solver_create_transaction : Solver -> Transaction;
  steps : Transaction -> list Z;
  transaction_type : Transaction -> Z -> Z -> Z;
  transaction_all_obs_pkgs : Transaction -> Z -> list Z;
  SOLVER_TRANSACTION_ERASE : Z; SOLVER_TRANSACTION_INSTALL : Z; SOLVER_TRANSACTION_OBSOLETES : Z; SOLVER_TRANSACTION_OBSOLETED : Z;
  SOLVER_TRANSACTION_REINSTALL : Z; SOLVER_TRANSACTION_UPGRADE : Z; SOLVER_TRANSACTION_DOWNGRADE : Z;
  SOLVER_TRANSACTION_SHOW_OBSOLETES : Z; SOLVER_TRANSACTION_CHANGE_IS_REINSTALL : Z; SOLVER_TRANSACTION_SHOW_ACTIVE : Z; SOLVER_TRANSACTION_SHOW_ALL : Z;
  pool_solvid2str : Reldep.pool -> Z -> cstr;
  pool_dep2str : Reldep.pool -> Z -> cstr;
  pool_disabled_solvable : Reldep.pool -> option Map -> Z -> bool;
  (** The architecture of a solvable is restricted and not one of the pool's. *)
  wrong_arch : Reldep.pool -> Z -> bool;
  (** [uname]. *)
  uname_release : option cstr;
}.
(** [PackageSet]: a new one for the pool of a sack, and single packages in it. *)
Class PackageSetEdits `{Reldep.Pool} := {
  pset_new : Reldep.pool -> Map;
  pset_set : Map -> Z -> Map;
  pset_remove : Map -> Z -> Map;
  pset_has : Map -> Z -> bool;
}.

Module DnfGoal.
Import QueryCmp Matches Packages DnfSack DnfQuery DnfJobs.

Section goal.
Context {HP : Reldep.Pool} {HL : LibsolvPool} {HS : Libsolv} {HG : LibsolvGrow} {HR : ProvidesReady}.
Context {HU : LibsolvUpdates} {HA : Advisories} {HQ : PackageSets} {HD : Dependencies} {HM : MissingFilters} {HJ : SolverJobs}.
Context {HV : Solving} {HE : PackageSetEdits}.
Implicit Types (pl : Reldep.pool) (s : DnfSack) (job : Job) (p : Z).

(** ** The sack's settings for installonly packages *)

Record Installonly := mkInstallonly { installonly : list Z; installonly_limit : Z; running_kernel_id : Z; running_kernel_fn : bool }.
Implicit Types (io : Installonly).
Definition new_installonly : Installonly := mkInstallonly [] 0 (-1) true.
Definition dnf_sack_set_installonly_limit (limit : Z) io : Installonly := mkInstallonly (installonly io) limit (running_kernel_id io) (running_kernel_fn io).
Definition queue_pushunique (l : list Z) (id : Z) : list Z := if bool_decide (id ∈ l) then l else l ++ [id].
Fixpoint push_names (names : list cstr) (l : list Z) s : DnfSack * list Z :=
  match names with
  | [] => (s, l)
  | name :: names => let '(id, s) := on_pool (Reldep.pool_str2id (Some name)) s in push_names names (queue_pushunique l id) s
  end.
Definition dnf_sack_set_installonly (names : option (list cstr)) s io : DnfSack * Installonly :=
  let '(s, l) := push_names (default [] names) [] s in
  (s, mkInstallonly l (installonly_limit io) (running_kernel_id io) (running_kernel_fn io)).

(** The first installed package with the file of the kernel. *)
Definition running_kernel s : result failure (DnfSack * Z) :=
  match uname_release with
  | None => Ok (s, -1)
  | Some release =>
      let fn := lit "/boot/vmlinuz-" ++ release in
      let q := new_query IGNORE_EXCLUDES in
      let s := make_provides_ready s in
      match addFilter_str HY_PKG_FILE HY_EQ (Some fn) s q with
      | (_, _, Err e) => Err e
      | (s, q, Ok _) =>
          let '(s, q) := of_repo HY_EQ s q in
          let* x := run_set s q in
          let '(s, _, ids) := x in
          Ok (s, match ids with p :: _ => p | [] => -1 end)
      end
  end.
Definition dnf_sack_running_kernel s io : result failure (DnfSack * Installonly * Z) :=
  if 0 <=? running_kernel_id io then Ok (s, io, running_kernel_id io)
  else if running_kernel_fn io then
    let* x := running_kernel s in
    let '(s, id) := x in
    Ok (s, mkInstallonly (installonly io) (installonly_limit io) id true, id)
  else Ok (s, io, running_kernel_id io).

(** ** Goals *)

Record Goal := mkGoal {
  staged : Staging;
  solv : option Solver; trans : option Transaction;
  protectedPkgs : option Map; removalOfProtected : option Map;
}.
Implicit Types (g : Goal).
Definition new_goal : Goal := mkGoal new_staging None None None None.
(** The copy has no solver and no transaction. *)
Definition copy_goal g : Goal := mkGoal (staged g) None None (protectedPkgs g) (removalOfProtected g).
Definition set_protected (m : option Map) g : Goal := mkGoal (staged g) (solv g) (trans g) m (removalOfProtected g).
Definition set_removal (m : option Map) g : Goal := mkGoal (staged g) (solv g) (trans g) (protectedPkgs g) m.
Definition set_solver (solver : option Solver) (t : option Transaction) g : Goal := mkGoal (staged g) solver t (protectedPkgs g) (removalOfProtected g).
Definition note_actions (a : Z) g : Goal := mkGoal (add_actions a (staged g)) (solv g) (trans g) (protectedPkgs g) (removalOfProtected g).
Definition addProtected (pset : Map) g : Goal :=
  set_protected (Some (match protectedPkgs g with None => pset | Some m => map_or m pset end)) g.
Definition setProtected (pset : Map) g : Goal := set_protected (Some pset) g.

(** ** The jobs for the solver *)

Fixpoint allow_loop s (prot : Map) (l : list Z) job : result failure Job :=
  match l with
  | [] => Ok job
  | id :: l =>
      if is_installed (pool s) id && negb (pset_has prot id) then
        let* b := match considered s with None => Ok true | Some c => test_at id c end in
        allow_loop s prot l (if (b : bool) then job ++ [(Z.lor SOLVER_ALLOWUNINSTALL SOLVER_SOLVABLE, id)] else job)
      else allow_loop s prot l job
  end.
Definition allowUninstallAllButProtected job (flags : Z) s io g : result failure (DnfSack * Installonly * Goal * Job) :=
  let prot := match protectedPkgs g with None => pset_new (pool s) | Some m => map_grow m (nsolvables (pool s)) end in
  let* x := dnf_sack_running_kernel s io in
  let '(s, io, kernel) := x in
  let prot := if 0 <? kernel then pset_set prot kernel else prot in
  let* job := if has flags DNF_ALLOW_UNINSTALL then allow_loop s prot (seqZ 1 (nsolvables (pool s) - 1)) job else Ok job in
  Ok (s, io, set_protected (Some prot) g, job).
Definition constructJob (flags : Z) s io g : result failure (DnfSack * Installonly * Goal * Job) :=
  let job := staging (staged g) in
  let job := if has flags DNF_FORCE_BEST then map (fun '(what, id) => (Z.lor what SOLVER_FORCEBEST, id)) job else job in
  let job := job ++ map (fun id => (Z.lor SOLVER_MULTIVERSION SOLVER_SOLVABLE_PROVIDES, id)) (installonly io) in
  let* x := allowUninstallAllButProtected job flags s io g in
  let '(s, io, g, job) := x in
  Ok (s, io, g, if has flags DNF_VERIFY then job ++ [(Z.lor SOLVER_VERIFY SOLVER_SOLVABLE_ALL, 0)] else job).

(** ** The limit for installonly packages *)

Definition can_depend_on pl (a b : Z) : bool :=
  existsb (fun req_dep => existsb (fun p => p =? b) (provides pl req_dep)) (solvable_lookup_idarray pl a SOLVABLE_REQUIRES).
Definition sort_packages pl (kernel a b : Z) : Z :=
  let name_diff := name_of pl a - name_of pl b in
  if negb (name_diff =? 0) then name_diff
  else if negb (is_installed pl a) then 1
  else if negb (is_installed pl b) then -1
  else if (0 <=? kernel) && ((a =? kernel) || can_depend_on pl a kernel) then 1
  else if (0 <=? kernel) && ((b =? kernel) || can_depend_on pl b kernel) then -1
  else if (0 <=? kernel) && (evr_of pl a =? evr_of pl kernel) then 1
  else if (0 <=? kernel) && (evr_of pl b =? evr_of pl kernel) then -1
  else pool_evrcmp pl (evr_of pl a) (evr_of pl b).
(** Popping from the end; the queue is given from its end. *)
Fixpoint pop_name pl (name : Z) (l out : list Z) : list Z * list Z :=
  match l with
  | p :: l' => if name_of pl p =? name then pop_name pl name l' (out ++ [p]) else (out, l)
  | [] => (out, [])
  end.
Definition same_name_subqueue pl (el : Z) (l : list Z) : list Z * list Z := pop_name pl (name_of pl el) l [el].
Fixpoint keep_or_erase (limit : Z) (j : Z) (same_names : list Z) : Job :=
  match same_names with
  | [] => []
  | id :: same_names => (Z.lor (if j <? limit then SOLVER_INSTALL else SOLVER_ERASE) SOLVER_SOLVABLE, id) :: keep_or_erase limit (j + 1) same_names
  end.
(** The loop over the sorted queue; each round takes at least one element. *)
Fixpoint limit_names pl (limit : Z) (fuel : nat) (l : list Z) : Job :=
  match fuel, l with
  | S fuel, el :: l =>
      let '(same_names, l) := same_name_subqueue pl el l in
      (if Z.of_nat (length same_names) <=? limit then [] else keep_or_erase limit 0 same_names) ++ limit_names pl limit fuel l
  | _, _ => []
  end.
Definition decided pl (solver : Solver) (dep : Z) : list Z :=
  List.filter (fun p => is_package pl p && (0 <? solver_get_decisionlevel solver p)) (provides pl dep).
Definition limit_queue pl (limit kernel : Z) (q : list Z) : Job := limit_names pl limit (length q) (rev (solv_sort (sort_packages pl kernel) q)).
Fixpoint limit_each (solver : Solver) (onlies : list Z) s io job : result failure (DnfSack * Installonly * Job) :=
  match onlies with
  | [] => Ok (s, io, job)
  | dep :: onlies =>
      let q := decided (pool s) solver dep in
      if (Z.of_nat (length q) <=? installonly_limit io) || forallb (is_installed (pool s)) q then limit_each solver onlies s io job
      else
        let* x := dnf_sack_running_kernel s io in
        let '(s, io, kernel) := x in
        limit_each solver onlies s io (job ++ limit_queue (pool s) (installonly_limit io) kernel q)
  end.
(** The jobs, and whether there are new ones. *)
Definition limitInstallonlyPackages (solver : Solver) job s io : result failure (DnfSack * Installonly * Job * bool) :=
  if installonly_limit io =? 0 then Ok (s, io, job, false)
  else
    let* x := limit_each solver (installonly io) s io job in
    let '(s, io, job') := x in
    Ok (s, io, job', (length job <? length job')%nat).

(** ** Solving *)

Definition initSolver pl : Solver :=
  fold_left (fun solver f => solver_set_flag solver f true) [ALLOW_VENDORCHANGE; KEEP_ORPHANS; BEST_OBEY_POLICY; YUM_OBSOLETES] (solver_create pl).

Inductive list_error := NoSolver | RemovalOfProtected | NoSolution.
Definition nonempty (m : Map) : bool := negb (bool_decide (pset_ids m = [])).
Definition common_mode : Z := Z.lor SOLVER_TRANSACTION_SHOW_OBSOLETES SOLVER_TRANSACTION_CHANGE_IS_REINSTALL.
Definition list_mode (type_filter1 : Z) : Z :=
  if type_filter1 =? SOLVER_TRANSACTION_OBSOLETED then common_mode
  else Z.lor common_mode (Z.lor SOLVER_TRANSACTION_SHOW_ACTIVE SOLVER_TRANSACTION_SHOW_ALL).
Definition listed (t : Transaction) (type_filter1 type_filter2 p : Z) : bool :=
  let type := transaction_type t p (list_mode type_filter1) in
  (type =? type_filter1) || negb (type_filter2 =? 0) && (type =? type_filter2).
Definition listResults (type_filter1 type_filter2 : Z) s g : result list_error Map :=
  match trans g with
  | None =>
      match solv g with
      | None => Err NoSolver
      | Some _ => match removalOfProtected g with Some m => Err (if nonempty m then RemovalOfProtected else NoSolution) | None => Err NoSolution end
      end
  | Some t => Ok (fold_left (fun plist p => if listed t type_filter1 type_filter2 p then pset_set plist p else plist) (steps t) (pset_new (pool s)))
  end.
Definition listErasures := listResults SOLVER_TRANSACTION_ERASE 0.
Definition listInstalls := listResults SOLVER_TRANSACTION_INSTALL SOLVER_TRANSACTION_OBSOLETES.
Definition listObsoleted := listResults SOLVER_TRANSACTION_OBSOLETED 0.
Definition listReinstalls := listResults SOLVER_TRANSACTION_REINSTALL 0.
Definition listUpgrades := listResults SOLVER_TRANSACTION_UPGRADE 0.
Definition listDowngrades := listResults SOLVER_TRANSACTION_DOWNGRADE 0.
Definition queue2pset (l : list Z) (m : Map) : Map := fold_left pset_set l m.
Definition listUnneeded s (solver : Solver) : Map := queue2pset (solver_get_unneeded solver) (pset_new (pool s)).
Definition listSuggested s (solver : Solver) : Map := queue2pset (solver_get_recommendations solver) (pset_new (pool s)).
Definition listObsoletedByPackage pkg s g : result failure Map :=
  match trans g with Some t => Ok (queue2pset (transaction_all_obs_pkgs t pkg) (pset_new (pool s))) | None => Err Crash end.

(** The packages that are removed and protected are kept for the error messages. *)
Definition protectedInRemovals s g : result failure (Goal * bool) :=
  match protectedPkgs g with
  | None => Ok (g, false)
  | Some prot =>
      if negb (nonempty prot) then Ok (g, false)
      else
        match listErasures s g, listObsoleted s g with
        | Ok pkgRemoveList, Ok pkgObsoleteList =>
            let removal := map_or pkgRemoveList pkgObsoleteList in
            let '(removal, ret) := fold_left (fun '(m, ret) id => if pset_has prot id then (m, true) else (pset_remove m id, ret)) (pset_ids removal) (removal, false) in
            Ok (set_removal (Some removal) g, ret)
        | _, _ => Err Crash
        end
  end.
(** The answer is whether it failed. *)
Definition solve job (flags : Z) s io g : result failure (DnfSack * Installonly * Goal * bool) :=
  let s := make_provides_ready (dnf_sack_recompute_considered s) in
  let solver := initSolver (pool s) in
  let job := if has flags DNF_IGNORE_WEAK then map (fun '(what, id) => (Z.ldiff what SOLVER_WEAK, id)) job else job in
  let solver := if has flags DNF_IGNORE_WEAK_DEPS then solver_set_flag solver IGNORE_RECOMMENDED true else solver in
  let solver := if has (actions (staged g)) DNF_ALLOW_DOWNGRADE then solver_set_flag solver ALLOW_DOWNGRADE true else solver in
  let '(n, solver) := solver_solve (pool s) (considered s) solver job in
  let g := set_solver (Some solver) None g in
  if negb (n =? 0) then Ok (s, io, g, true)
  else
    let* x := limitInstallonlyPackages solver job s io in
    let '(s, io, job, reresolve) := x in
    let* x := if (reresolve : bool) then
                let* x := allowUninstallAllButProtected job DNF_ALLOW_UNINSTALL s io g in
                let '(s, io, g, job) := x in
                let '(n, solver) := solver_solve (pool s) (considered s) solver job in
                Ok (s, io, set_solver (Some solver) None g, solver, n)
              else Ok (s, io, g, solver, 0) in
    let '(s, io, g, solver, n) := x in
    if negb (n =? 0) then Ok (s, io, g, true)
    else
      let g := set_solver (Some solver) (Some (solver_create_transaction solver)) g in
      let* x := protectedInRemovals s g in
      let '(g, ret) := x in
      Ok (s, io, g, ret).
Definition run (flags : Z) s io g : result failure (DnfSack * Installonly * Goal * bool) :=
  let* x := constructJob flags s io g in
  let '(s, io, g, job) := x in
  solve job flags s io (note_actions flags g).

(** ** Problems *)

Definition countProblems g : result failure Z :=
  match solv g with
  | None => Err Crash
  | Some solver =>
      let protectedSize := match removalOfProtected g with Some m => Z.of_nat (length (pset_ids m)) | None => 0 end in
      Ok (solver_problem_count solver + Z.min 1 protectedSize)
  end.
(** The rules of a problem; none for the problem that the solver does not know. *)
Definition problem_rules (solver : Solver) (i : Z) : list Z := if solver_problem_count solver <=? i then [] else solver_findallproblemrules solver (i + 1).
Definition conflictPkgs (solver : Solver) (i : Z) : list Z :=
  flat_map (fun rid =>
    let '(type, (source, target, _)) := solver_ruleinfo solver rid in
    match type with
    | RULE_PKG_CONFLICTS | RULE_PKG_SAME_NAME => [source; target]
    | RULE_PKG_SELF_CONFLICT => [source]
    | _ => []
    end) (problem_rules solver i).
Definition brokenDependencyPkgs (solver : Solver) (i : Z) : list Z :=
  flat_map (fun rid =>
    let '(type, (source, _, _)) := solver_ruleinfo solver rid in
    match type with RULE_PKG_NOTHING_PROVIDES_DEP | RULE_PKG_REQUIRES => [source] | _ => [] end) (problem_rules solver i).

Inductive DnfPackageState := PACKAGE_STATE_ALL | PACKAGE_STATE_AVAILABLE | PACKAGE_STATE_INSTALLED.
#[global] Instance package_state_eq_dec : EqDecision DnfPackageState.
Proof. solve_decision. Defined.
Definition dnf_package_same pl (a b : Z) : bool :=
  bool_decide (pool_id2str pl (name_of pl a) = pool_id2str pl (name_of pl b))
  && (pool_evrcmp_str (pool_id2str pl (evr_of pl a)) (pool_id2str pl (evr_of pl b)) =? 0)
  && bool_decide (pool_id2str pl (arch_of pl a) = pool_id2str pl (arch_of pl b)).
Definition remove_pkgs_with_same_nevra_from_pset s (pset remove_musters : Map) : Map :=
  fold_left (fun final_pset id1 => if existsb (dnf_package_same (pool s) id1) (pset_ids remove_musters) then final_pset else pset_set final_pset id1)
    (pset_ids pset) (pset_new (pool s)).
(** One id of a problem, for the two sets of packages. *)
Definition sort_out pl (pkg_type : DnfPackageState) (x : Map * Map) (id : Z) : Map * Map :=
  let '(pset, temporary_pset) := x in
  if bool_decide (pkg_type = PACKAGE_STATE_AVAILABLE) && is_installed pl id then (pset, pset_set temporary_pset id)
  else if bool_decide (pkg_type = PACKAGE_STATE_INSTALLED) && negb (is_installed pl id) then (pset, temporary_pset)
  else (pset_set pset id, temporary_pset).
Definition list_problem_pkgs (of_problem : Solver -> Z -> list Z) (pkg_type : DnfPackageState) s g : result failure Map :=
  let* n := countProblems g in
  match solv g with
  | None => Err Crash
  | Some solver =>
      let '(pset, temporary_pset) :=
        fold_left (fun x i => fold_left (sort_out (pool s) pkg_type) (of_problem solver i) x) (seqZ 0 n) (pset_new (pool s), pset_new (pool s)) in
      Ok (if nonempty temporary_pset then remove_pkgs_with_same_nevra_from_pset s pset temporary_pset else pset)
  end.
Definition listConflictPkgs := list_problem_pkgs conflictPkgs.
Definition brokenDependencyAllPkgs := list_problem_pkgs brokenDependencyPkgs.

(** The reason why a package is in the transaction. *)
Inductive HyReason := HY_REASON_DEP | HY_REASON_USER | HY_REASON_CLEAN | HY_REASON_WEAKDEP.
#[global] Instance hy_reason_eq_dec : EqDecision HyReason.
Proof. solve_decision. Defined.
Definition getReason (pkgID : Z) g : HyReason :=
  match solv g with
  | None => HY_REASON_USER
  | Some solver =>
      let '(reason, info) := solver_describe_decision solver pkgID in
      match reason with
      | REASON_UNIT_RULE | REASON_RESOLVE_JOB =>
          if rule_of_job solver info then HY_REASON_USER
          else if existsb (fun id => id =? pkgID) (solver_get_cleandeps solver) then HY_REASON_CLEAN else HY_REASON_DEP
      | REASON_CLEANDEPS_ERASE => HY_REASON_CLEAN
      | REASON_WEAKDEP => HY_REASON_WEAKDEP
      | REASON_OTHER => if existsb (fun id => id =? pkgID) (solver_get_cleandeps solver) then HY_REASON_CLEAN else HY_REASON_DEP
      end
  end.

(** ** Messages *)

(** [tfm::format] with [%s] only. *)
Fixpoint format (fmt : cstr) (args : list cstr) : cstr :=
  match fmt with
  | [] => []
  | c :: fmt' =>
      match fmt', args with
      | c' :: fmt'', a :: args' => if bool_decide (c = "%"%char) && bool_decide (c' = "s"%char) then a ++ format fmt'' args' else c :: format fmt' args
      | _, _ => c :: format fmt' args
      end
  end.
Definition noun (pkgs_ : bool) : cstr := if pkgs_ then lit "package" else lit "module".
(** The dictionaries of packages and of modules, put to use: without translations. *)
Definition libdnf_problemruleinfo2str (pkgs_ : bool) (modularExclude : option Map) s (solver : Solver) (type : SolverRuleinfo) (source target dep : Z) : cstr :=
  let pl := pool s in
  let src := pool_solvid2str pl source in
  let tgt := pool_solvid2str pl target in
  let dp := pool_dep2str pl dep in
  let word := noun pkgs_ in
  match type with
  | RULE_DISTUPGRADE => src ++ lit " does not belong to a distupgrade repository"
  | RULE_INFARCH => src ++ lit " has inferior architecture"
  | RULE_UPDATE => lit "problem with installed " ++ word ++ lit " " ++ src
  | RULE_JOB => lit "conflicting requests"
  | RULE_JOB_UNSUPPORTED => lit "unsupported request"
  | RULE_JOB_NOTHING_PROVIDES_DEP => lit "nothing provides requested " ++ dp
  | RULE_JOB_UNKNOWN_PACKAGE => format (word ++ lit " %s does not exist") [dp]
  | RULE_JOB_PROVIDED_BY_SYSTEM => dp ++ lit " is provided by the system"
  | RULE_PKG => lit "some dependency problem"
  | RULE_BEST => if 0 <? source then lit "cannot install the best update candidate for " ++ word ++ lit " " ++ src else lit "cannot install the best candidate for the job"
  | RULE_PKG_NOT_INSTALLABLE =>
      if pool_disabled_solvable pl (considered s) source then
        if match modularExclude with Some m => pset_has m source | None => false end
        then format (word ++ (if pkgs_ then lit " %s is filtered out by modular filtering" else lit " %s is disabled")) [src]
        else format (word ++ (if pkgs_ then lit " %s is filtered out by exclude filtering" else lit " %s is disabled")) [src]
      else if wrong_arch pl source then format (word ++ lit " %s does not have a compatible architecture") [src]
      else format (word ++ lit " %s is not installable") [src]
  | RULE_PKG_NOTHING_PROVIDES_DEP => format (if pkgs_ then lit "nothing provides %s needed by %s" else lit "nothing provides %s needed by module %s") [dp; src]
  | RULE_PKG_SAME_NAME => format (if pkgs_ then lit "cannot install both %s and %s" else lit "cannot install both modules %s and %s") [src; tgt]
  | RULE_PKG_CONFLICTS => format (word ++ lit " %s conflicts with %s provided by %s") [src; dp; tgt]
  | RULE_PKG_OBSOLETES => format (word ++ lit " %s obsoletes %s provided by %s") [src; dp; tgt]
  | RULE_PKG_INSTALLED_OBSOLETES => format (lit "installed " ++ word ++ lit " %s obsoletes %s provided by %s") [src; dp; tgt]
  | RULE_PKG_IMPLICIT_OBSOLETES => format (word ++ lit " %s implicitly obsoletes %s provided by %s") [src; dp; tgt]
  | RULE_PKG_REQUIRES => format (word ++ lit " %s requires %s, but none of the providers can be installed") [src; dp]
  | RULE_PKG_SELF_CONFLICT => format (word ++ lit " %s conflicts with %s provided by itself") [src; dp]
  | RULE_YUMOBS => format (lit "both " ++ word ++ lit " %s and %s obsolete %s") [src; tgt; dp]
  | RULE_OTHER => solver_problemruleinfo2str solver type source target dep
  end.

Definition protected_message : cstr := lit "The operation would result in removing the following protected packages: ".
Definition join_names (names : list cstr) : cstr :=
  match names with [] => [] | n :: l => protected_message ++ fold_left (fun a b => a ++ lit ", " ++ b) l n end.
Definition package_name pl (id : Z) : cstr := pool_id2str pl (name_of pl id).
Definition describeProtectedRemoval s g : result failure cstr :=
  if match removalOfProtected g with Some m => nonempty m | None => false end
  then Ok (join_names (map (package_name (pool s)) (match removalOfProtected g with Some m => pset_ids m | None => [] end)))
  else
    let* pset := brokenDependencyAllPkgs PACKAGE_STATE_INSTALLED s g in
    match pset_ids pset, protectedPkgs g with
    | _ :: _, None => Err Crash
    | ids, prot => Ok (join_names (map (package_name (pool s)) (List.filter (fun id => match prot with Some m => pset_has m id | None => false end) ids)))
    end.
Definition push_unique (l : list cstr) (x : cstr) : list cstr := if bool_decide (x ∈ l) then l else l ++ [x].
Definition describeProblemRules (i : Z) (pkgs_ : bool) s g : result failure (list cstr) :=
  let* n := countProblems g in
  if n <=? i then Ok []
  else
    let* problem := describeProtectedRemoval s g in
    match problem with
    | _ :: _ => Ok [problem]
    | [] =>
        match solv g with
        | None => Err Crash
        | Some solver =>
            Ok (fold_left (fun output rid =>
                  fold_left (fun output '(type, (source, target, dep)) =>
                    push_unique output (libdnf_problemruleinfo2str pkgs_ (module_excludes s) s solver type source target dep))
                    (solver_allruleinfos solver rid) output)
                (problem_rules solver i) [])
        end
    end.
(** Whether a saved list of the same length has all the elements. *)
Definition known_problem (output : list (list cstr)) (problemList : list cstr) : bool :=
  existsb (fun saved => (length problemList =? length saved)%nat && forallb (fun problem => bool_decide (problem ∈ saved)) problemList) output.
Fixpoint describe_each (pkgs_ : bool) (l : list Z) (output : list (list cstr)) s g : result failure (list (list cstr)) :=
  match l with
  | [] => Ok output
  | i :: l =>
      let* problemList := describeProblemRules i pkgs_ s g in
      describe_each pkgs_ l (match problemList with
                             | [] => output
                             | _ => if known_problem output problemList then output else output ++ [problemList]
                             end) s g
  end.
Definition describeAllProblemRules (pkgs_ : bool) s g : result failure (list (list cstr)) :=
  let* n := countProblems g in
  describe_each pkgs_ (seqZ 0 n) [] s g.
End goal.
End DnfGoal.
