(* ===== verification/DnfSolved.v ===== *)
(** * DnfSolved: what solving a goal gives (theorems on [DnfGoal]) *)

From S2P Require Import Prelude Sack Solv Regex Specs Packages DnfSack DnfQuery DnfLatest DnfApply DnfJobs DnfRequests DnfGoal.
From stdpp Require Import sorting.
Local Open Scope Z_scope.

Module DnfSolved.
Import QueryCmp Matches Packages DnfSack DnfQuery DnfLatest DnfApply DnfJobs DnfRequests DnfGoal.

Section solved.
Context {HP : Reldep.Pool} {HL : LibsolvPool} {HS : Libsolv} {HG : LibsolvGrow} {HR : ProvidesReady}.
Context {HU : LibsolvUpdates} {HA : Advisories} {HQ : PackageSets} {HD : Dependencies} {HM : MissingFilters} {HJ : SolverJobs}.
Context {HV : Solving} {HE : PackageSetEdits}.
Implicit Types (pl : Reldep.pool) (s : DnfSack) (job : Job) (p : Z) (g : Goal) (io : Installonly) (m : Map).

Class PackageSetEditsLaws : Prop := {
  pset_new_spec pl : map_ok pl (pset_new pl) /\ forall k, bit (pset_new pl) k = false;
  pset_set_spec m p k : bytes_ok m -> 0 <= p < bits m -> bytes_ok (pset_set m p) /\ bits (pset_set m p) = bits m /\ bit (pset_set m p) k = bit m k || bool_decide (k = p);
  pset_remove_spec m p k : bytes_ok m -> 0 <= p < bits m ->
    bytes_ok (pset_remove m p) /\ bits (pset_remove m p) = bits m /\ bit (pset_remove m p) k = bit m k && negb (bool_decide (k = p));
  pset_has_spec m p : bytes_ok m -> 0 <= p < bits m -> pset_has m p = bit m p;
}.
(** A transaction is about solvables of the pool, rules too; a name is provided by
    each package once; sorting needs an order on the elements of the list only. *)
Class SolvingLaws : Prop := {
  steps_range pl c solver job p : p ∈ steps (solver_create_transaction (snd (solver_solve pl c solver job))) -> 0 < p < nsolvables pl;
  ruleinfo_range pl c solver job rid type p q dep : solver_ruleinfo (snd (solver_solve pl c solver job)) rid = (type, (p, q, dep)) ->
    type = RULE_PKG_CONFLICTS \/ type = RULE_PKG_SAME_NAME \/ type = RULE_PKG_SELF_CONFLICT \/ type = RULE_PKG_NOTHING_PROVIDES_DEP \/ type = RULE_PKG_REQUIRES ->
    0 < p < nsolvables pl /\ (type = RULE_PKG_CONFLICTS \/ type = RULE_PKG_SAME_NAME -> 0 < q < nsolvables pl);
  provides_nodup pl id : NoDup (provides pl id);
  solv_sort_on cmp (l : list Z) : NoDup l -> (forall a b, a ∈ l -> b ∈ l -> a <> b -> cmp a b <= 0 \/ cmp b a <= 0) ->
    (forall a b c, a ∈ l -> b ∈ l -> c ∈ l -> a <> b -> b <> c -> a <> c -> cmp a b <= 0 -> cmp b c <= 0 -> cmp a c <= 0) ->
    Permutation (solv_sort cmp l) l /\ StronglySorted (fun a b => cmp a b <= 0) (solv_sort cmp l);
}.
Context {HLL : LibsolvPoolLaws} {HSL : LibsolvLaws HS} {HGL : LibsolvGrowLaws HG} {HRL : ProvidesReadyLaws}.
Context {HUL : LibsolvUpdatesLaws} {HAL : AdvisoriesLaws} {HQL : PackageSetsLaws HQ} {HDL : DependenciesLaws} {HML : MissingFiltersLaws}.
Context {HJL : SolverJobsLaws} {HVL : SolvingLaws} {HEL : PackageSetEditsLaws}.

(** ** Sets of packages *)

Lemma fold_set (f : Z -> bool) l m : bytes_ok m -> (forall p, p ∈ l -> 0 <= p < bits m) ->
  let m' := fold_left (fun m p => if f p then pset_set m p else m) l m in
  bytes_ok m' /\ bits m' = bits m /\ forall k, bit m' k = bit m k || bool_decide (k ∈ l) && f k.
Proof.
  revert m. induction l as [|p l IH]; intros m Hm Hl; simpl.
  - split; [done|]. split; [done|]. intros k. by rewrite orb_false_r.
  - assert (Hp : 0 <= p < bits m) by (apply Hl; by left). set (m1 := if f p then pset_set m p else m).
    assert (H1 : bytes_ok m1 /\ bits m1 = bits m /\ forall k, bit m1 k = bit m k || f p && bool_decide (k = p)).
    { unfold m1. destruct (f p); [|split; [done|]; split; [done|]; intros k; by rewrite orb_false_r].
      split; [by apply (pset_set_spec m p 0)|]. split; [by apply (pset_set_spec m p 0)|]. intros k. by apply pset_set_spec. }
    destruct H1 as (B1 & B2 & B3). destruct (IH m1 B1) as (C1 & C2 & C3); [intros q Hq; rewrite B2; apply Hl; by right|].
    split; [done|]. split; [congruence|]. intros k. rewrite C3, B3. apply eq_true_iff_eq.
    rewrite !orb_true_iff, !andb_true_iff, !bool_decide_eq_true, elem_of_cons. naive_solver.
Qed.
Lemma listed_spec t1 t2 s t : (forall p, p ∈ steps t -> 0 < p < nsolvables (pool s)) ->
  let m := fold_left (fun plist p => if listed t t1 t2 p then pset_set plist p else plist) (steps t) (pset_new (pool s)) in
  map_ok (pool s) m /\ forall k, bit m k = bool_decide (k ∈ steps t) && listed t t1 t2 k.
Proof.
  intros Ht m. destruct (pset_new_spec (pool s)) as [[N1 N2] N3]. pose proof (map_room _ _ (conj N1 N2)) as Hroom.
  destruct (fold_set (listed t t1 t2) (steps t) (pset_new (pool s)) N1) as (H1 & H2 & H3); [intros p Hp%Ht; lia|].
  split; [split; [done|by rewrite <-N2]|]. intros k. unfold m. by rewrite H3, N3.
Qed.
Lemma nonempty_spec m : bytes_ok m -> nonempty m = true <-> exists p, bit m p = true.
Proof.
  intros Hm. unfold nonempty. rewrite negb_true_iff, bool_decide_eq_false. split.
  - intros Hn. destruct (pset_ids m) as [|p l] eqn:E; [done|]. exists p. apply (pset_ids_spec _ p Hm). rewrite E. by left.
  - intros (p & Hp) E. apply (pset_ids_spec _ p Hm) in Hp. rewrite E in Hp. by apply elem_of_nil in Hp.
Qed.

(** ** Protected packages *)

Lemma removal_loop prot l m b : bytes_ok prot -> bytes_ok m -> NoDup l -> (forall p, p ∈ l -> 0 <= p < bits m /\ p < bits prot) ->
  let '(m', b') := fold_left (fun '(m, ret) id => if pset_has prot id then (m, true) else (pset_remove m id, ret)) l (m, b) in
  bytes_ok m' /\ bits m' = bits m /\ (forall k, bit m' k = bit m k && (negb (bool_decide (k ∈ l)) || bit prot k))
  /\ b' = b || existsb (bit prot) l.
Proof.
  intros Hp. revert m b. induction l as [|p l IH]; intros m b Hm Hd Hl; simpl.
  - split; [done|]. split; [done|]. split; [intros k; by rewrite andb_true_r|]. by rewrite orb_false_r.
  - apply NoDup_cons in Hd as [Hnp Hd]. destruct (Hl p) as [H1 H2]; [by left|]. rewrite pset_has_spec by (done || lia).
    destruct (bit prot p) eqn:E.
    + specialize (IH m true Hm Hd). destruct (fold_left _ l (m, true)) as [m' b']. destruct IH as (B1 & B2 & B3 & B4); [intros q Hq; apply Hl; by right|].
      split; [done|]. split; [done|]. split; [|by rewrite B4, orb_true_r]. intros k. rewrite B3. f_equal. destruct (decide (k = p)) as [->|Hne]; [by rewrite E, !orb_true_r|].
      f_equal. f_equal. apply bool_decide_ext. set_solver.
    + destruct (pset_remove_spec m p 0 Hm H1) as (R1 & R2 & _). specialize (IH (pset_remove m p) b R1 Hd).
      destruct (fold_left _ l _) as [m' b']. destruct IH as (B1 & B2 & B3 & B4); [intros q Hq; rewrite R2; apply Hl; by right|].
      split; [done|]. split; [congruence|]. split; [|done]. intros k. rewrite B3. destruct (pset_remove_spec m p k Hm H1) as (_ & _ & ->).
      destruct (decide (k = p)) as [->|Hne].
      * rewrite (bool_decide_true (p = p)), (bool_decide_true (p ∈ p :: l)), E by (done || by left). by rewrite !andb_false_r.
      * rewrite (bool_decide_false (k = p)) by done. rewrite andb_true_r. f_equal. f_equal. f_equal. apply bool_decide_ext. set_solver.
Qed.

(** ** The running kernel *)

Lemma pset_new_ok pl : map_ok pl (pset_new pl).
Proof. apply pset_new_spec. Qed.
Lemma unfiltered_considered c s : coherent s -> opt_ok c -> considered (fst (fst (initResult IGNORE_EXCLUDES c s))) = considered s.
Proof.
  intros Hs Hc. unfold initResult. pose proof (start_packages s Hs) as H. cbv zeta in H |- *.
  set (all := match pkg_solvables s with Some _ => _ | None => _ end) in *.
  assert (E : considered (fst all) = considered s) by (unfold all; destruct (pkg_solvables s); [destruct (_ && _)|]; reflexivity).
  destruct all as [s1 m]. destruct H as (C1 & _). cbn [ignore_modular ignore_regular IGNORE_EXCLUDES negb andb].
  pose proof (recompute_spec IGNORE_EXCLUDES c s1 C1 Hc) as H. destruct (dnf_sack_recompute_considered_map _ _ _) as [s2 c2].
  destruct H as (_ & _ & H & _). simpl in E |- *. congruence.
Qed.
(** A query that ignores all excludes leaves what is considered alone. *)
Lemma unfiltered_apply s q : coherent s -> query_good s q -> flags q = IGNORE_EXCLUDES -> result_map q = None ->
  exists s' q' res, apply s q = Ok (s', q') /\ result_map q' = Some res /\ steady s s' /\ result_ok (pool s') res.
Proof.
  intros Hs Hq Hf Hm. destruct (apply_ok s q Hs Hq) as (s' & q' & res & E & Er & Hs' & Hal & _ & _ & _ & Hr & _).
  exists s', q', res. split; [done|]. split; [done|]. split; [|done]. split; [done|]. split; [done|].
  assert (Ea : applied q = false) by (destruct Hq as [G _ _ _]; by rewrite Hm in G). unfold apply in E. rewrite Ea in E.
  destruct (started s q Hs Hq Ea) as (s1 & res1 & cached & E1 & Hs1 & _ & Hr1 & _ & Hq1).
  assert (Hc : considered s1 = considered s).
  { rewrite Hm, Hf in E1. pose proof (unfiltered_considered (considered_cached q) s Hs (good_cached s q Hq)) as H. by rewrite E1 in H. }
  rewrite E1 in E. set (q1 := mkQuery false (flags q) (Some res1) (filters q) cached) in *.
  destruct (apply_filters_ok s1 q1 (filters q1) (map_init (nsolvables (pool s1))) res1) as (s2 & res2 & E2 & Hst & _);
    [done|done|apply init_ok|apply Hq1|by apply allowed_ok|apply (good_result s1 q1 Hq1)|].
  destruct (negb _); [done|]. change (filters q) with (filters q1) in E. rewrite E2 in E. simpl in E. injection E as <- _.
  destruct Hst as (_ & _ & ->). done.
Qed.
Lemma kernel_steady s : coherent s -> exists s' id, running_kernel s = Ok (s', id) /\ steady s s' /\ -1 <= id < nsolvables (pool s).
Proof.
  intros Hs. pose proof (nsolvables_range (pool s)) as Hn. unfold running_kernel. destruct uname_release as [release|].
  2: { exists s, (-1). split; [done|]. split; [by apply still_steady|lia]. }
  set (fn := lit "/boot/vmlinuz-" ++ release). pose proof (ready_steady s Hs) as Hst. set (s1 := make_provides_ready s) in *. pose proof Hst as (Hs1 & Hal1 & _).
  assert (E : exists f, addFilter_str HY_PKG_FILE HY_EQ (Some fn) s1 (new_query IGNORE_EXCLUDES) = (s1, push_filter f (set_applied false (new_query IGNORE_EXCLUDES)), Ok Done))
    by (unfold addFilter_str, copyFilterChar; simpl; destruct (_ && _); eexists; reflexivity).
  destruct E as [f E]. pose proof (str_well s1 (new_query IGNORE_EXCLUDES) HY_PKG_FILE HY_EQ fn Hs1 (new_good s1 _)) as (x & _ & _ & _ & Hq1).
  cbv zeta. rewrite E in Hq1 |- *. cbn [fst snd] in Hq1. set (q1 := push_filter f _) in *. rewrite of_repo_eq.
  pose proof (push_good s1 q1 (repo_filter HY_EQ [HY_SYSTEM_REPO_NAME]) Hq1 (text_typed HY_PKG_REPONAME HY_EQ _ _ eq_refl eq_refl ltac:(done))) as Hq2.
  set (q2 := push_filter _ (set_applied false q1)) in *.
  destruct (unfiltered_apply s1 q2 Hs1 Hq2 eq_refl eq_refl) as (s2 & q3 & res & E2 & Er & Hst2 & Hr). unfold run_set, with_result. rewrite E2. simpl. rewrite Er. simpl.
  eexists _, _. split; [reflexivity|]. split; [by eapply steadily|]. destruct (pset_ids res) as [|p l] eqn:El; [lia|].
  assert (Hp : bit res p = true) by (apply (pset_ids_spec _ p (proj1 (proj1 Hr))); rewrite El; by left).
  apply (result_range _ _ _ Hr) in Hp. destruct Hst2 as (_ & Hal2 & _), (alike_n _ _ Hal1), (alike_n _ _ Hal2). lia.
Qed.
Lemma io_kernel_steady s io : coherent s -> running_kernel_id io < nsolvables (pool s) ->
  exists s' io' id, dnf_sack_running_kernel s io = Ok (s', io', id) /\ steady s s' /\ id < nsolvables (pool s) /\ running_kernel_id io' < nsolvables (pool s)
    /\ installonly io' = installonly io /\ installonly_limit io' = installonly_limit io.
Proof.
  intros Hs Hio. unfold dnf_sack_running_kernel. pose proof (still_steady s Hs). destruct (0 <=? running_kernel_id io); [by eexists _, _, _|].
  destruct (running_kernel_fn io); [|by eexists _, _, _]. destruct (kernel_steady s Hs) as (s' & id & -> & H1 & H2).
  simpl. eexists _, _, _. split; [reflexivity|]. split; [done|]. simpl. split; [lia|]. split; [lia|done].
Qed.

(** The answer is remembered, and one that was found is not asked for again. *)
Lemma kernel_remembered s io s' io' id : dnf_sack_running_kernel s io = Ok (s', io', id) -> running_kernel_id io' = id /\ (0 <= running_kernel_id io -> id = running_kernel_id io).
Proof.
  unfold dnf_sack_running_kernel. destruct (Z.leb_spec 0 (running_kernel_id io)); [by intros [= _ <- <-]|]. destruct (running_kernel_fn io).
  - destruct (running_kernel s) as [[s1 id1]|]; [|done]. intros [= _ <- <-]. split; [done|lia].
  - intros [= _ <- <-]. split; [done|lia].
Qed.

(** ** The jobs for the solver *)

(** The packages that may be uninstalled when a goal allows it. *)
Definition may_go s (prot : Map) (id : Z) : bool :=
  is_installed (pool s) id && negb (bit prot id) && match considered s with Some c => bit c id | None => true end.
Lemma allow_loop_spec s prot l job : bytes_ok prot -> nsolvables (pool s) <= bits prot -> opt_ok (considered s) -> opt_room s (considered s) ->
  (forall id, id ∈ l -> 0 < id < nsolvables (pool s)) ->
  allow_loop s prot l job = Ok (job ++ map (fun id => (Z.lor SOLVER_ALLOWUNINSTALL SOLVER_SOLVABLE, id)) (List.filter (may_go s prot) l)).
Proof.
  intros Hp Hr Hc Hroom. revert job. induction l as [|id l IH]; intros job Hl; [simpl; by rewrite app_nil_r|].
  assert (Hid : 0 < id < nsolvables (pool s)) by (apply Hl; by left).
  assert (IH' : forall job, allow_loop s prot l job = Ok (job ++ map (fun id => (Z.lor SOLVER_ALLOWUNINSTALL SOLVER_SOLVABLE, id)) (List.filter (may_go s prot) l)))
    by (intros job'; apply IH; intros k Hk; apply Hl; by right).
  simpl. rewrite pset_has_spec by (done || lia). unfold may_go at 1. destruct (is_installed (pool s) id && negb (bit prot id)) eqn:E; [|apply IH'].
  assert (Ht : match considered s with None => Ok true | Some c => test_at id c end = Ok (match considered s with Some c => bit c id | None => true end) :> result failure bool).
  { destruct (considered s) as [c|]; [|done]. simpl in Hc, Hroom. by rewrite test_in by (done || lia). }
  rewrite Ht. simpl. destruct (match considered s with Some c => bit c id | None => true end); rewrite IH'; [|done]. by rewrite <-app_assoc.
Qed.
(** What is protected, and where the kernel is added. *)
Lemma allow_ok job flags s io g : coherent s -> (has flags DNF_ALLOW_UNINSTALL = true -> opt_room s (considered s)) -> opt_ok (protectedPkgs g) -> running_kernel_id io < nsolvables (pool s) ->
  exists s' io' kernel prot, dnf_sack_running_kernel s io = Ok (s', io', kernel)
    /\ allowUninstallAllButProtected job flags s io g = Ok (s', io', set_protected (Some prot) g,
         job ++ (if has flags DNF_ALLOW_UNINSTALL
                 then map (fun id => (Z.lor SOLVER_ALLOWUNINSTALL SOLVER_SOLVABLE, id)) (List.filter (may_go s' prot) (seqZ 1 (nsolvables (pool s') - 1))) else []))
    /\ steady s s' /\ running_kernel_id io' < nsolvables (pool s) /\ installonly io' = installonly io
    /\ bytes_ok prot /\ nsolvables (pool s) <= bits prot
    /\ forall k, bit prot k = in_map (protectedPkgs g) k || (0 <? kernel) && (k =? kernel).
Proof.
  intros Hs Hroom Hp Hio. destruct (io_kernel_steady s io Hs Hio) as (s' & io' & kernel & E & Hst & Hk & Hk' & Honly & _).
  exists s', io', kernel. unfold allowUninstallAllButProtected. rewrite E. cbn [result_bind].
  set (p0 := match protectedPkgs g with None => pset_new (pool s) | Some m => map_grow m (nsolvables (pool s)) end).
  assert (H0 : bytes_ok p0 /\ nsolvables (pool s) <= bits p0 /\ forall k, bit p0 k = in_map (protectedPkgs g) k).
  { unfold p0. destruct (protectedPkgs g) as [m|]; simpl in Hp |- *.
    - split; [by apply (map_grow_spec m _ 0)|]. split; [destruct (map_grow_spec m (nsolvables (pool s)) 0 Hp) as (_ & H & _); lia|]. intros k. by apply map_grow_spec.
    - split; [apply pset_new_ok|]. split; [apply map_room, pset_new_ok|]. apply pset_new_spec. }
  destruct H0 as (A1 & A2 & A3). clearbody p0. set (prot := if 0 <? kernel then pset_set p0 kernel else p0).
  assert (H1 : bytes_ok prot /\ bits prot = bits p0 /\ forall k, bit prot k = in_map (protectedPkgs g) k || (0 <? kernel) && (k =? kernel)).
  { unfold prot. destruct (Z.ltb_spec 0 kernel) as [Hpos|]; simpl.
    - split; [apply (pset_set_spec p0 kernel 0); (done || lia)|]. split; [apply (pset_set_spec p0 kernel 0); (done || lia)|]. intros k.
      destruct (pset_set_spec p0 kernel k) as (_ & _ & ->); [done|lia|]. rewrite A3. f_equal. apply eq_true_iff_eq. by rewrite bool_decide_eq_true, Z.eqb_eq.
    - split; [done|]. split; [done|]. intros k. by rewrite A3, orb_false_r. }
  destruct H1 as (B1 & B2 & B3). clearbody prot. exists prot. split; [done|]. pose proof Hst as (Hs' & Hal & Hc). destruct (alike_n _ _ Hal) as [Hn _].
  split; [|split; [done|split; [done|split; [done|split; [done|split; [by rewrite B2|done]]]]]]. destruct (has flags DNF_ALLOW_UNINSTALL); [specialize (Hroom eq_refl)|simpl; by rewrite app_nil_r].
  rewrite allow_loop_spec; [done|done|rewrite B2, Hn; lia|by apply ok_considered| |].
  - rewrite Hc. unfold opt_room in *. by rewrite Hn.
  - intros id Hid%elem_of_seqZ. lia.
Qed.
(** The jobs for the solver are, in this order: the staged ones, with the flag
    for best packages if that is forced; a job for each name of installonly
    packages; with [DNF_ALLOW_UNINSTALL] one for each installed package that
    is considered and not protected; and the one to verify. The running kernel
    becomes protected, and no other package. *)
Theorem construct_job_spec flags s io g : coherent s -> (has flags DNF_ALLOW_UNINSTALL = true -> opt_room s (considered s)) -> opt_ok (protectedPkgs g) -> running_kernel_id io < nsolvables (pool s) ->
  exists s' io' kernel prot, dnf_sack_running_kernel s io = Ok (s', io', kernel)
    /\ constructJob flags s io g = Ok (s', io', set_protected (Some prot) g,
         (if has flags DNF_FORCE_BEST then map (fun '(what, id) => (Z.lor what SOLVER_FORCEBEST, id)) (staging (staged g)) else staging (staged g))
         ++ map (fun id => (Z.lor SOLVER_MULTIVERSION SOLVER_SOLVABLE_PROVIDES, id)) (installonly io)
         ++ (if has flags DNF_ALLOW_UNINSTALL
             then map (fun id => (Z.lor SOLVER_ALLOWUNINSTALL SOLVER_SOLVABLE, id)) (List.filter (may_go s' prot) (seqZ 1 (nsolvables (pool s') - 1))) else [])
         ++ (if has flags DNF_VERIFY then [(Z.lor SOLVER_VERIFY SOLVER_SOLVABLE_ALL, 0)] else []))
    /\ coherent s' /\ alike s s' /\ considered s' = considered s
    /\ forall k, bit prot k = in_map (protectedPkgs g) k || (0 <? kernel) && (k =? kernel).
Proof.
  intros Hs Hroom Hp Hio. unfold constructJob. set (job := (if has flags DNF_FORCE_BEST then _ else _) ++ _).
  destruct (allow_ok job flags s io g Hs Hroom Hp Hio) as (s' & io' & kernel & prot & E & Ea & (H1 & H2 & H3) & _ & _ & _ & _ & Hprot).
  exists s', io', kernel, prot. split; [done|]. rewrite Ea. cbn [result_bind]. split; [|done]. unfold job.
  destruct (has flags DNF_VERIFY); by rewrite <-!app_assoc, ?app_nil_r.
Qed.

(** ** Protected packages in the result *)

Lemma protected_removals s g t prot : trans g = Some t -> (forall p, p ∈ steps t -> 0 < p < nsolvables (pool s)) ->
  protectedPkgs g = Some prot -> bytes_ok prot -> nsolvables (pool s) <= bits prot ->
  exists e o g' failed, listErasures s g = Ok e /\ listObsoleted s g = Ok o /\ protectedInRemovals s g = Ok (g', failed)
    /\ trans g' = Some t /\ protectedPkgs g' = Some prot
    /\ if (failed : bool) then (exists p, bit prot p = true /\ (bit e p || bit o p) = true) /\ exists m, removalOfProtected g' = Some m /\ forall k, bit m k = bit prot k && (bit e k || bit o k)
       else forall p, bit prot p = true -> bit e p = false /\ bit o p = false.
Proof.
  intros Et Ht Ep Hp Hroom. unfold listErasures, listObsoleted, listResults, protectedInRemovals, listErasures, listObsoleted, listResults. rewrite Et, Ep.
  pose proof (listed_spec SOLVER_TRANSACTION_ERASE 0 s t Ht) as He. pose proof (listed_spec SOLVER_TRANSACTION_OBSOLETED 0 s t Ht) as Ho. cbv zeta in He, Ho.
  set (e := fold_left _ (steps t) (pset_new (pool s))) in He |- * at 1. set (o := fold_left _ (steps t) (pset_new (pool s))) in Ho |- * at 1.
  exists e, o. destruct (nonempty prot) eqn:En; cbn [negb].
  2: { exists g, false. split; [done|]. split; [done|]. split; [done|]. split; [done|]. split; [done|]. intros p Hpp. exfalso.
       enough (nonempty prot = true) by congruence. apply nonempty_spec; [done|by exists p]. }
  destruct He as [[He1 He2] He3], Ho as [[Ho1 Ho2] Ho3]. pose proof (map_room (pool s) e (conj He1 He2)) as Hroom_e.
  fold e o. set (removal := map_or e o). destruct (map_or_spec e o 0 He1 Ho1) as (R1 & R2 & _). fold removal in R1, R2.
  assert (R3 : forall k, bit removal k = bit e k || bit o k) by (intros k; by apply map_or_spec).
  assert (Rr : forall k, bit removal k = true -> 0 < k < nsolvables (pool s)).
  { intros k. rewrite R3, He3, Ho3. intros H. apply Ht. destruct (bool_decide (k ∈ steps t)) eqn:Ek; [by apply bool_decide_eq_true in Ek|done]. }
  pose proof (removal_loop prot (pset_ids removal) removal false Hp R1 (pset_ids_nodup _)) as Hl.
  destruct (fold_left _ (pset_ids removal) (removal, false)) as [m b].
  destruct Hl as (L1 & L2 & L3 & L4); [intros p Hpi%(pset_ids_spec _ p R1)%Rr; lia|].
  exists (set_removal (Some m) g), b. split; [done|]. split; [done|]. split; [done|]. split; [done|]. split; [done|]. simpl in L4. subst b.
  destruct (existsb (bit prot) (pset_ids removal)) eqn:Ex.
  - apply existsb_exists in Ex as (p & Hpi & Hpp). apply list_elem_of_In, (pset_ids_spec _ p R1) in Hpi. rewrite R3 in Hpi. split; [by exists p|].
    exists m. split; [done|]. intros k. rewrite L3, <-R3. destruct (bit removal k) eqn:Ek; [|by rewrite andb_false_r].
    rewrite bool_decide_true by by apply (pset_ids_spec _ k R1). by rewrite andb_true_r.
  - intros p Hpp. destruct (bit removal p) eqn:Er.
    + exfalso. enough (existsb (bit prot) (pset_ids removal) = true) by congruence. apply existsb_exists. exists p.
      split; [by apply list_elem_of_In, (pset_ids_spec _ p R1)|done].
    + rewrite R3 in Er. by apply orb_false_iff in Er.
Qed.

(** A sack after a step of solving. *)
Definition onward s s' : Prop := coherent s' /\ alike s s' /\ opt_room s' (considered s').
Lemma steady_onward s1 s2 s3 : onward s1 s2 -> steady s2 s3 -> onward s1 s3.
Proof.
  intros (A1 & A2 & A3) (B1 & B2 & B3). split; [done|]. split; [by eapply alike_trans|]. rewrite B3. unfold opt_room in *.
  by destruct (alike_n _ _ B2) as [-> _].
Qed.
(** A kernel that was found is remembered. *)
Definition remembers (io io' : Installonly) : Prop := 0 <= running_kernel_id io -> running_kernel_id io' = running_kernel_id io.
Lemma limit_each_steady solver onlies s io job : coherent s -> running_kernel_id io < nsolvables (pool s) ->
  exists s' io' job', limit_each solver onlies s io job = Ok (s', io', job') /\ steady s s' /\ running_kernel_id io' < nsolvables (pool s) /\ remembers io io'.
Proof.
  revert s io job. induction onlies as [|dep onlies IH]; intros s io job Hs Hio; cbn [limit_each].
  - exists s, io, job. split; [done|]. split; [by apply still_steady|done].
  - cbv zeta. destruct (_ || _); [by apply IH|]. destruct (io_kernel_steady s io Hs Hio) as (s1 & io1 & id & E1 & Hst & _ & H1 & _). rewrite E1. cbn [result_bind].
    apply kernel_remembered in E1 as [K1 K2]. pose proof Hst as (Hs1 & Hal & _). destruct (alike_n _ _ Hal) as [Hn _].
    destruct (IH s1 io1 (job ++ limit_queue (pool s1) (installonly_limit io1) id (decided (pool s) solver dep)) Hs1) as (s2 & io2 & job2 & E & Hst2 & H2 & H3); [lia|].
    exists s2, io2, job2. split; [done|]. split; [by eapply steadily|]. split; [lia|]. intros H. rewrite H3; rewrite K1, K2; done.
Qed.
Lemma limit_steady solver job s io : coherent s -> running_kernel_id io < nsolvables (pool s) ->
  exists s' io' job' b, limitInstallonlyPackages solver job s io = Ok (s', io', job', b) /\ steady s s' /\ running_kernel_id io' < nsolvables (pool s) /\ remembers io io'.
Proof.
  intros Hs Hio. unfold limitInstallonlyPackages. destruct (_ =? 0); [by exists s, io, job, false; split; [done|]; split; [apply still_steady|]|].
  destruct (limit_each_steady solver (installonly io) s io job Hs Hio) as (s' & io' & job' & -> & H1 & H2 & H3). simpl. by eexists _, _, _, _.
Qed.

(** What a run is worth: without a transaction it failed; with one it failed if
    and only if one of the packages to [keep] would go. *)
Definition verdict s g (keep : Z -> bool) (failed : bool) : Prop :=
  match trans g with
  | None => failed = true
  | Some _ => exists e o prot, listErasures s g = Ok e /\ listObsoleted s g = Ok o /\ protectedPkgs g = Some prot
      /\ (forall k, bit prot k = keep k)
      /\ if failed then (exists p, keep p = true /\ (bit e p || bit o p) = true) /\ exists m, removalOfProtected g = Some m /\ forall k, bit m k = keep k && (bit e k || bit o k)
         else forall p, keep p = true -> bit e p = false /\ bit o p = false
  end.
Lemma verdict_ext s g keep keep' failed : (forall k, keep k = keep' k) -> verdict s g keep failed -> verdict s g keep' failed.
Proof.
  unfold verdict. destruct (trans g); [|done]. intros H (e & o & prot & H1 & H2 & H3 & H4 & H5). exists e, o, prot. split; [done|]. split; [done|]. split; [done|].
  split; [intros k; by rewrite H4|]. destruct failed.
  - destruct H5 as [(p & Hp) (m & Em & Hm)]. split; [exists p; by rewrite <-H|]. exists m. split; [done|]. intros k. by rewrite Hm, H.
  - intros p Hp. apply H5. by rewrite H.
Qed.
(** A package that is a kernel; an answer below one is none. *)
Definition is_kernel (kernel k : Z) : bool := (0 <? kernel) && (k =? kernel).
Lemma listed_same s g g' t1 t2 t : trans g = Some t -> trans g' = Some t -> listResults t1 t2 s g' = listResults t1 t2 s g.
Proof. intros E E'. unfold listResults. by rewrite E, E'. Qed.
Lemma judged s g prot job c solver : protectedPkgs g = Some prot -> bytes_ok prot -> nsolvables (pool s) <= bits prot ->
  let g := set_solver (Some (snd (solver_solve (pool s) c solver job))) (Some (solver_create_transaction (snd (solver_solve (pool s) c solver job)))) g in
  exists g' failed, protectedInRemovals s g = Ok (g', failed) /\ verdict s g' (bit prot) failed.
Proof.
  intros Ep Hp Hroom. cbv zeta. set (solver' := snd _). set (g1 := set_solver _ _ g).
  destruct (protected_removals s g1 (solver_create_transaction solver') prot) as (e & o & g' & failed & H1 & H2 & H3 & H4 & H5 & H6); [done| |done|done|done|].
  { intros p. apply steps_range. }
  exists g', failed. split; [done|]. unfold verdict. rewrite H4. exists e, o, prot.
  split; [unfold listErasures in *; by rewrite <-H1; eapply listed_same|]. split; [unfold listObsoleted in *; by rewrite <-H2; eapply listed_same|]. done.
Qed.
Lemma removals_keep s g g' b : protectedInRemovals s g = Ok (g', b) -> solv g' = solv g /\ trans g' = trans g /\ protectedPkgs g' = protectedPkgs g.
Proof.
  unfold protectedInRemovals. destruct (protectedPkgs g) as [prot|] eqn:Ep; [|by intros [= <- <-]]. destruct (negb (nonempty prot)); [by intros [= <- <-]|].
  destruct (listErasures s g), (listObsoleted s g); try done. destruct (fold_left _ _ _) as [m ret]. by intros [= <- <-].
Qed.
(** The solver of a goal solved for what the sack considers, and there is a transaction,
    that of the solver, just when there were no problems. *)
Definition solved s g : Prop := exists pl solver job, nsolvables pl = nsolvables (pool s)
  /\ let answer := solver_solve pl (considered s) solver job in
     solv g = Some (snd answer) /\ trans g = if fst answer =? 0 then Some (solver_create_transaction (snd answer)) else None.
Definition outcome s io g : Prop :=
  says s APPLY_EXCLUDES (considered s) /\ running_kernel_id io < nsolvables (pool s) /\ solved s g /\ exists prot, protectedPkgs g = Some prot /\ bytes_ok prot.
Lemma outcome_of s io g pl c solver job n solver' : solver_solve pl c solver job = (n, solver') -> considered s = c -> says s APPLY_EXCLUDES (considered s) ->
  running_kernel_id io < nsolvables (pool s) -> nsolvables pl = nsolvables (pool s) -> (exists prot, protectedPkgs g = Some prot /\ bytes_ok prot) -> solv g = Some solver' ->
  trans g = (if n =? 0 then Some (solver_create_transaction solver') else None) -> outcome s io g.
Proof.
  intros E Hc Hsay Hio Hn Hp Es Et. split; [done|]. split; [done|]. split; [|done]. exists pl, solver, job. by rewrite Hc, E.
Qed.
Lemma steady_says s s' : steady s s' -> says s APPLY_EXCLUDES (considered s) -> says s' APPLY_EXCLUDES (considered s').
Proof. intros (_ & Ha & ->). by apply alike_says. Qed.

(** The kernel of the second solving: one that was found before, or the answer at that time. *)
Definition kernel_later s (kernel later : Z) : Prop :=
  later = kernel \/ kernel < 0 /\ exists s1 io1 s2 io2, onward s s1 /\ dnf_sack_running_kernel s1 io1 = Ok (s2, io2, later).
Lemma later_kernel s io s1 io1 s2 io2 later : onward s s1 -> remembers io io1 -> dnf_sack_running_kernel s1 io1 = Ok (s2, io2, later) -> kernel_later s (running_kernel_id io) later.
Proof.
  intros Hs Hrem Ek. destruct (kernel_remembered _ _ _ _ _ Ek) as [_ K]. destruct (Z.leb_spec 0 (running_kernel_id io)) as [Hk|Hk].
  - left. rewrite <-(Hrem Hk). apply K. by rewrite Hrem.
  - right. split; [done|]. by exists s1, io1, s2, io2.
Qed.
Lemma solve_verdict job flags s io g prot : coherent s -> running_kernel_id io < nsolvables (pool s) ->
  protectedPkgs g = Some prot -> bytes_ok prot -> nsolvables (pool s) <= bits prot ->
  exists s' io' g' failed, solve job flags s io g = Ok (s', io', g', failed) /\ onward s s' /\ outcome s' io' g'
    /\ (verdict s' g' (bit prot) failed
        \/ exists later, kernel_later s (running_kernel_id io) later /\ verdict s' g' (fun k => bit prot k || is_kernel later k) failed).
Proof.
  intros Hs Hio Ep Hp Hroom. unfold solve. destruct (recomputed s Hs) as (R1 & R2 & R3). pose proof (ready_steady _ R1) as Hst.
  assert (H1 : onward s (make_provides_ready (dnf_sack_recompute_considered s))).
  { apply (steady_onward s (dnf_sack_recompute_considered s)); [|done]. split; [done|]. split; [done|]. by eapply says_room. }
  pose proof (steady_says _ _ Hst R3) as W1. clear R1 R2 R3 Hst. set (s1 := make_provides_ready (dnf_sack_recompute_considered s)) in *. cbv zeta.
  set (job1 := if has flags DNF_IGNORE_WEAK then _ else job). set (solver1 := if has (actions (staged g)) DNF_ALLOW_DOWNGRADE then _ else _).
  destruct (solver_solve (pool s1) (considered s1) solver1 job1) as [n solver2] eqn:E1. set (g1 := set_solver (Some solver2) None g).
  pose proof H1 as (Hs1 & Hal1 & _). destruct (alike_n _ _ Hal1) as [Hn1 _].
  destruct (n =? 0) eqn:En; cbn [negb]; cycle 1.
  { exists s1, io, g1, true. split; [done|]. split; [done|]. split; [|by left]. eapply outcome_of; [exact E1|done|done|lia|done|by exists prot|done|by rewrite En]. }
  destruct (limit_steady solver2 job1 s1 io Hs1) as (s2 & io2 & job2 & reresolve & E2 & Hst2 & Hio2 & Hrem); [lia|]. rewrite E2. cbn [result_bind].
  pose proof (steady_onward _ _ _ H1 Hst2) as H2. pose proof H2 as (Hs2 & Hal2 & Hroom2). destruct (alike_n _ _ Hal2) as [Hn2 _]. pose proof (steady_says _ _ Hst2 W1) as W2.
  destruct reresolve.
  - destruct (allow_ok job2 DNF_ALLOW_UNINSTALL s2 io2 g1 Hs2) as (s3 & io3 & kernel & prot3 & Ek & E3 & Hst3 & Hio3 & _ & P1 & P2 & P3); [done|by cbn; rewrite Ep|lia|].
    pose proof (later_kernel s io s2 io2 s3 io3 kernel H2 Hrem Ek) as Hl.
    rewrite E3. cbn [result_bind]. pose proof (steady_onward _ _ _ H2 Hst3) as H3. set (job3 := job2 ++ _). pose proof (steady_says _ _ Hst3 W2) as W3.
    destruct (solver_solve (pool s3) (considered s3) solver2 job3) as [n3 solver3] eqn:E4. cbn [result_bind]. pose proof Hst3 as (_ & Hal3 & _). destruct (alike_n _ _ Hal3) as [Hn3 _].
    destruct (n3 =? 0) eqn:En3; cbn [negb]; cycle 1.
    { eexists s3, io3, _, true. split; [done|]. split; [done|]. split; [|by left]. eapply outcome_of; [exact E4|done|done|lia|done|by exists prot3|done|by rewrite En3]. }
    pose proof (judged s3 (set_solver (Some solver3) None (set_protected (Some prot3) g1)) prot3 job3 (considered s3) solver2 eq_refl P1) as Hj.
    rewrite E4 in Hj. destruct Hj as (g' & failed & Ej & Hv); [lia|]. cbn [snd] in Ej. rewrite Ej. exists s3, io3, g', failed. split; [done|]. split; [done|].
    destruct (removals_keep _ _ _ _ Ej) as (K1 & K2 & K3).
    split; [eapply outcome_of; [exact E4|done|done|lia|done|by exists prot3; rewrite K3|by rewrite K1|by rewrite K2, En3]|]. right. exists kernel. split; [done|].
    eapply verdict_ext, Hv. intros k. rewrite P3. cbn. by rewrite Ep.
  - cbn [result_bind negb Z.eqb]. destruct (protected_removals s2 (set_solver (Some solver2) (Some (solver_create_transaction solver2)) g1) (solver_create_transaction solver2) prot)
      as (e & o & g' & failed & V1 & V2 & V3 & V4 & V5 & V6); [done| |done|done|lia|].
    { intros p. pose proof (steps_range (pool s1) (considered s1) solver1 job1 p) as H. rewrite E1 in H. simpl in H. intros Hp'%H. lia. }
    rewrite V3. cbn [result_bind]. exists s2, io2, g', failed. split; [done|]. split; [done|]. destruct (removals_keep _ _ _ _ V3) as (K1 & K2 & K3).
    split; [eapply outcome_of; [exact E1|by destruct Hst2 as (_ & _ & ->)|done|lia|lia|by exists prot; rewrite K3|by rewrite K1|by rewrite K2, En]|]. left.
    unfold verdict. rewrite V4. exists e, o, prot. split; [unfold listErasures in *; by rewrite <-V1; eapply listed_same|].
    split; [unfold listObsoleted in *; by rewrite <-V2; eapply listed_same|]. done.
Qed.
(** What is kept: packages that were protected and the running kernel. If no kernel was
    found at first, a second solving asks again. *)
Definition kept_by (old : option Map) (kernel later : Z) : Z -> bool := fun k => in_map old k || is_kernel kernel k || is_kernel later k.
Lemma run_verdict flags s io g : coherent s -> (has flags DNF_ALLOW_UNINSTALL = true -> opt_room s (considered s)) -> opt_ok (protectedPkgs g) -> running_kernel_id io < nsolvables (pool s) ->
  exists s' io' g' failed, run flags s io g = Ok (s', io', g', failed) /\ onward s s' /\ outcome s' io' g'
    /\ exists s1 io1 kernel later, dnf_sack_running_kernel s io = Ok (s1, io1, kernel) /\ kernel_later s kernel later /\ verdict s' g' (kept_by (protectedPkgs g) kernel later) failed.
Proof.
  intros Hs Hroom Hp Hio. unfold run, constructJob. set (job := (if has flags DNF_FORCE_BEST then _ else _) ++ _).
  destruct (allow_ok job flags s io g Hs Hroom Hp Hio) as (s1 & io1 & kernel & prot & E & Ea & Hst & H1 & _ & P1 & P2 & P3). rewrite Ea. cbn [result_bind].
  pose proof Hst as (Hs1 & Hal & _). destruct (alike_n _ _ Hal) as [Hn _]. destruct (kernel_remembered _ _ _ _ _ E) as [Ek _].
  match goal with |- context [solve ?j flags s1 io1 ?g1] => destruct (solve_verdict j flags s1 io1 g1 prot Hs1) as (s' & io' & g' & failed & E' & (H2 & H3 & H4) & Ho & Hv);
    [lia|reflexivity|done|lia|] end.
  rewrite E'. exists s', io', g', failed. split; [done|]. split; [split; [done|split; [by eapply alike_trans|done]]|]. split; [done|]. exists s1, io1, kernel.
  destruct Hv as [Hv|(later & Hl & Hv)].
  - exists kernel. split; [done|]. split; [by left|]. eapply verdict_ext, Hv. intros k. unfold kept_by. rewrite P3. fold (is_kernel kernel k). by destruct (in_map _ k), (is_kernel kernel k).
  - exists later. split; [done|]. split; [|eapply verdict_ext, Hv; intros k; unfold kept_by; by rewrite P3]. rewrite Ek in Hl.
    destruct Hl as [->|(Hk & s2 & io2 & s3 & io3 & Hon & El)]; [by left|]. right. split; [done|]. exists s2, io2, s3, io3. split; [|done].
    destruct Hon as (O1 & O2 & O3). split; [done|]. split; [by eapply alike_trans|done].
Qed.

(** ** The limit for installonly packages *)

Lemma filtered_permutation (f : Z -> bool) l l' : Permutation l l' -> Permutation (List.filter f l) (List.filter f l').
Proof.
  induction 1 as [|x l l' _ IH|x y l|l1 l2 l3 _ IH1 _ IH2]; simpl; [done|by destruct (f x); [constructor|]| |by etrans].
  destruct (f x), (f y); (done || apply perm_swap).
Qed.

Section limit.
Variables (pl : Reldep.pool) (kernel : Z).
Abbreviation cmp := (sort_packages pl kernel).
(** New packages, what belongs to the running kernel, what has its version, and others. *)
Definition rank (p : Z) : Z :=
  if negb (is_installed pl p) then 3
  else if (0 <=? kernel) && ((p =? kernel) || can_depend_on pl p kernel) then 2
  else if (0 <=? kernel) && (evr_of pl p =? evr_of pl kernel) then 1 else 0.
(** [a] is not to be preferred to [b]. *)
Definition not_better (a b : Z) : Prop := rank a < rank b \/ rank a = rank b /\ (rank a = 0 -> pool_evrcmp pl (evr_of pl a) (evr_of pl b) <= 0).
Lemma cmp_rank a b : cmp a b =
  if negb (name_of pl a =? name_of pl b) then name_of pl a - name_of pl b
  else if rank a =? 3 then 1 else if rank b =? 3 then -1
  else if rank a =? 2 then 1 else if rank b =? 2 then -1
  else if rank a =? 1 then 1 else if rank b =? 1 then -1
  else pool_evrcmp pl (evr_of pl a) (evr_of pl b).
Proof.
  unfold sort_packages, rank. destruct (Z.eqb_spec (name_of pl a - name_of pl b) 0), (Z.eqb_spec (name_of pl a) (name_of pl b)); simpl; try lia; try done.
  destruct (is_installed pl a), (is_installed pl b); cbn [negb]; try done;
    destruct ((0 <=? kernel) && ((a =? kernel) || can_depend_on pl a kernel)), ((0 <=? kernel) && ((b =? kernel) || can_depend_on pl b kernel)); try done;
    destruct ((0 <=? kernel) && (evr_of pl a =? evr_of pl kernel)), ((0 <=? kernel) && (evr_of pl b =? evr_of pl kernel)); done.
Qed.
Lemma rank_cases p : rank p = 0 \/ rank p = 1 \/ rank p = 2 \/ rank p = 3.
Proof. unfold rank. destruct (negb _); [auto|]. destruct (_ && _); [auto|]. destruct (_ && _); auto. Qed.
(** The order is one on packages of which no two have a name and a rank above the lowest in common. *)
Definition singular (l : list Z) : Prop :=
  forall a b, a ∈ l -> b ∈ l -> name_of pl a = name_of pl b -> rank a = rank b -> rank a <> 0 -> a = b.
Lemma cmp_le l a b : singular l -> a ∈ l -> b ∈ l -> a <> b ->
  cmp a b <= 0 <-> name_of pl a < name_of pl b \/ name_of pl a = name_of pl b /\ not_better a b.
Proof.
  intros Hl Ha Hb Hne. specialize (Hl a b Ha Hb). rewrite cmp_rank. unfold not_better. destruct (Z.eqb_spec (name_of pl a) (name_of pl b)) as [En|]; cbn [negb]; [|lia].
  specialize (Hl En). destruct (rank_cases a) as [E|[E|[E|E]]], (rank_cases b) as [E'|[E'|[E'|E']]]; rewrite E, E' in *; simpl;
    try (split; intros; lia); try (exfalso; apply Hne, Hl; lia).
Qed.
Lemma better_trans a b c : not_better a b -> not_better b c -> not_better a c.
Proof.
  unfold not_better. intros [H1|[H1 H2]] [H3|[H3 H4]]; [lia|lia|lia|]. right. split; [lia|]. intros H.
  apply (evrcmp_trans pl _ (evr_of pl b)); [apply H2; lia|apply H4; lia].
Qed.
Lemma better_total a b : not_better a b \/ not_better b a.
Proof. unfold not_better. destruct (evrcmp_total pl (evr_of pl a) (evr_of pl b)); lia. Qed.
Lemma queue_sorted q : NoDup q -> singular q ->
  let l := rev (solv_sort cmp q) in
  Permutation l q /\ StronglySorted (fun a b => name_of pl b <= name_of pl a /\ (name_of pl a = name_of pl b -> not_better b a)) l.
Proof.
  intros Hd Hs l. destruct (solv_sort_on cmp q Hd) as [H1 H2].
  - intros a b Ha Hb Hne. rewrite (cmp_le q a b), (cmp_le q b a) by (done || by apply not_eq_sym). destruct (better_total a b), (Z.lt_trichotomy (name_of pl a) (name_of pl b)) as [?|[?|?]]; auto.
  - intros a b c Ha Hb Hc H1 H2 H3. rewrite (cmp_le q a b), (cmp_le q b c), (cmp_le q a c) by done. intros [K1|[K1 K2]] [K3|[K3 K4]]; [lia|lia|lia|].
    right. split; [congruence|by eapply better_trans].
  - assert (Hp : Permutation l q) by (unfold l; by rewrite <-Permutation_rev). split; [done|]. unfold l.
    assert (Hsub : forall x, x ∈ solv_sort cmp q -> x ∈ q) by (intros x; by rewrite H1).
    assert (Hnd : NoDup (solv_sort cmp q)) by by rewrite H1. clear l Hp H1. induction H2 as [|a l Hl IH Ha]; simpl; [constructor|].
    apply NoDup_cons in Hnd as [Hn Hnd]. apply StronglySorted_app_2; [intros b c Hb Hc|apply IH; [|done]|repeat constructor].
    2: { intros x Hx. apply Hsub. by right. }
    apply list_elem_of_singleton in Hc as ->. rewrite list_elem_of_In, <-in_rev, <-list_elem_of_In in Hb. rewrite Forall_forall in Ha. specialize (Ha b Hb).
    rewrite (cmp_le q) in Ha; [|done|apply Hsub; by left|apply Hsub; by right|by intros ->]. intuition lia.
Qed.

(** The jobs for the packages of a name. *)
Definition of_name (n : Z) : Z -> bool := fun p => name_of pl p =? n.
Definition jobs_of (n : Z) (job : Job) : Job := List.filter (fun j => of_name n (snd j)) job.
Definition install (p : Z) : Z * Z := (Z.lor SOLVER_INSTALL SOLVER_SOLVABLE, p).
Definition erase (p : Z) : Z * Z := (Z.lor SOLVER_ERASE SOLVER_SOLVABLE, p).
Lemma pop_name_spec n l out : StronglySorted (fun a b => name_of pl b <= name_of pl a) l -> (forall p, p ∈ l -> name_of pl p <= n) ->
  pop_name pl n l out = (out ++ List.filter (of_name n) l, List.filter (fun p => negb (of_name n p)) l).
Proof.
  intros Hs. revert out. induction Hs as [|p l Hs IH Hp]; intros out Hn; simpl; [by rewrite app_nil_r|].
  change (name_of pl p =? n) with (of_name n p). destruct (of_name n p) eqn:E; cbn [negb].
  - rewrite IH by (intros r Hr; apply Hn; by right). by rewrite <-app_assoc.
  - assert (Hl : forall r, r ∈ l -> of_name n r = false).
    { intros r Hr. apply Z.eqb_neq. apply Z.eqb_neq in E. rewrite Forall_forall in Hp. specialize (Hp r Hr). specialize (Hn p ltac:(by left)). lia. }
    rewrite (filter_none (of_name n)), filter_all, app_nil_r by (apply Forall_forall; intros r Hr; by rewrite Hl). done.
Qed.
Lemma keep_or_erase_spec limit l j : keep_or_erase limit j l = map install (take (Z.to_nat (limit - j)) l) ++ map erase (drop (Z.to_nat (limit - j)) l).
Proof.
  revert j. induction l as [|p l IH]; intros j; simpl; [by rewrite take_nil, drop_nil|]. destruct (Z.ltb_spec j limit).
  - replace (Z.to_nat (limit - j)) with (S (Z.to_nat (limit - (j + 1)))) by lia. simpl. by rewrite IH.
  - replace (Z.to_nat (limit - j)) with 0%nat by lia. simpl. rewrite IH. by replace (Z.to_nat (limit - (j + 1))) with 0%nat by lia.
Qed.
Definition kept (limit : Z) (group : list Z) : Job :=
  if Z.of_nat (length group) <=? limit then [] else map install (take (Z.to_nat limit) group) ++ map erase (drop (Z.to_nat limit) group).
Lemma kept_nil limit : kept limit [] = [].
Proof. unfold kept. rewrite take_nil, drop_nil. by destruct (_ <=? _). Qed.
Lemma jobs_of_app n j1 j2 : jobs_of n (j1 ++ j2) = jobs_of n j1 ++ jobs_of n j2.
Proof. apply List.filter_app. Qed.
Lemma jobs_of_kept n limit group (b : bool) : (forall p, p ∈ group -> of_name n p = b) -> jobs_of n (kept limit group) = if b then kept limit group else [].
Proof.
  intros H. assert (Hj : forall (f : Z -> Z * Z) l, (forall p, snd (f p) = p) -> (forall p, p ∈ l -> of_name n p = b) ->
    jobs_of n (map f l) = if b then map f l else []).
  { intros f l Hf. induction l as [|p l IH]; intros Hl; simpl; [by destruct b|]. rewrite Hf, Hl by (by left). rewrite IH by (intros; apply Hl; by right). by destruct b. }
  unfold kept. destruct (_ <=? _); [by destruct b|]. rewrite jobs_of_app, !Hj; [by destruct b|done| |done|]; intros p Hp; apply H.
  - eapply subseteq_drop; exact Hp.
  - eapply subseteq_take; exact Hp.
Qed.
Lemma limit_names_spec limit n fuel l : (length l <= fuel)%nat -> StronglySorted (fun a b => name_of pl b <= name_of pl a) l ->
  jobs_of n (limit_names pl limit fuel l) = kept limit (List.filter (of_name n) l).
Proof.
  revert l. induction fuel as [|fuel IH]; intros l Hf Hs; [by destruct l; [rewrite kept_nil|simpl in Hf; lia]|].
  destruct l as [|el l]; [by rewrite kept_nil|]. cbn [limit_names]. unfold same_name_subqueue.
  apply StronglySorted_inv in Hs as [Hs Hel]. rewrite Forall_forall in Hel. rewrite pop_name_spec by done.
  set (group := [el] ++ _). set (rest := List.filter (fun p => negb _) l).
  assert (Hk : (if Z.of_nat (length group) <=? limit then [] else keep_or_erase limit 0 group) = kept limit group)
    by (unfold kept; destruct (_ <=? _); [done|]; by rewrite keep_or_erase_spec, Z.sub_0_r).
  rewrite Hk, jobs_of_app, IH.
  - assert (Hg : forall p, p ∈ group -> name_of pl p = name_of pl el).
    { unfold group. simpl. intros p [->|Hp]%elem_of_cons; [done|]. apply list_elem_of_In, List.filter_In in Hp as [_ Hp]. by apply Z.eqb_eq. }
    simpl. destruct (Z.eqb_spec (name_of pl el) n) as [E|Hne].
    + rewrite (jobs_of_kept n limit group true) by (intros p Hp; apply Z.eqb_eq; rewrite Hg; done).
      unfold of_name at 2. rewrite (proj2 (Z.eqb_eq _ _) E). assert (Er : List.filter (of_name n) rest = []).
      { apply filter_none, Forall_forall. intros p Hp. unfold rest in Hp. apply list_elem_of_In, List.filter_In in Hp as [_ Hp]. rewrite E in Hp. by apply negb_true_iff. }
      rewrite Er. rewrite kept_nil, app_nil_r. unfold group. by rewrite E.
    + rewrite (jobs_of_kept n limit group false) by (intros p Hp; apply Z.eqb_neq; rewrite Hg; done).
      unfold of_name at 2. rewrite (proj2 (Z.eqb_neq _ _) Hne). simpl. f_equal. unfold rest. clear -Hne. induction l as [|p l IH]; simpl; [done|].
      destruct (of_name (name_of pl el) p) eqn:E; cbn [negb].
      * apply Z.eqb_eq in E. assert (E2 : of_name n p = false) by (apply Z.eqb_neq; congruence). by rewrite E2.
      * simpl. by rewrite IH.
  - unfold rest. pose proof (List.filter_length (of_name (name_of pl el)) l). simpl in Hf. lia.
  - unfold rest. clear -Hs. induction Hs as [|p l Hs IH Hp]; simpl; [constructor|]. destruct (negb _); [|done]. constructor; [done|].
    rewrite Forall_forall in Hp |- *. intros q Hq. apply Hp. by apply list_elem_of_In, List.filter_In in Hq as [Hq%list_elem_of_In _].
Qed.
(** The groups in their order; what is kept is at the front. *)
Lemma limit_groups limit q n : 0 <= limit -> NoDup q -> singular q ->
  exists (g : list Z), Permutation g (List.filter (of_name n) q) /\ jobs_of n (limit_queue pl limit kernel q) = kept limit g
    /\ StronglySorted (fun a b => not_better b a) g.
Proof.
  intros Hlim Hd Hs. destruct (queue_sorted q Hd Hs) as [H1 H2]. set (l := rev (solv_sort cmp q)) in *. cbv zeta in H1, H2.
  exists (List.filter (of_name n) l). split; [by apply filtered_permutation|]. split.
  - unfold limit_queue. fold l. rewrite limit_names_spec; [done|by rewrite H1|]. clear -H2. induction H2 as [|p l Hl IH Hp]; constructor; [done|].
    eapply Forall_impl; [exact Hp|]. by intros a [H _].
  - clear -H2. induction H2 as [|p l Hl IH Hp]; simpl; [constructor|]. destruct (of_name n p) eqn:E; [|done]. constructor; [done|].
    rewrite Forall_forall in Hp |- *. intros r Hr. apply list_elem_of_In, List.filter_In in Hr as [Hr Er]. apply list_elem_of_In in Hr.
    apply (Hp r Hr). apply Z.eqb_eq in E, Er. congruence.
Qed.
(** C25. For each name of packages that may be installed together, and that the
    solver has decided for: if there are more than the limit, exactly as many as
    the limit get a job to be installed and the others one to be erased, and no
    other is better than one that is kept. New packages are the best, then come the
    running kernel with what may depend on it, packages of its version, and the
    others by version. This is so where the comparison is an order ([singular]): of
    the packages of a name at most one is new, at most one is the running kernel or
    may depend on it, and at most one other has its version. Two new packages
    come each after the other ([DnfGoalExamples.not_an_order]), and the
    order of the queue then depends on the sorting routine. *)
Theorem limit_spec limit q n : 0 <= limit -> NoDup q -> singular q ->
  let group := List.filter (of_name n) q in
  exists best others, Permutation group (best ++ others)
    /\ jobs_of n (limit_queue pl limit kernel q) = (if Z.of_nat (length group) <=? limit then [] else map install best ++ map erase others)
    /\ Z.of_nat (length best) = Z.min limit (Z.of_nat (length group))
    /\ forall a b, a ∈ best -> b ∈ others -> not_better b a.
Proof.
  intros Hlim Hd Hs group. destruct (limit_groups limit q n Hlim Hd Hs) as (g & Hg & Hj & Hb). fold group in Hg.
  exists (take (Z.to_nat limit) g), (drop (Z.to_nat limit) g). rewrite (take_drop (Z.to_nat limit) g). split; [by symmetry|]. rewrite <-(Permutation_length Hg).
  split; [done|]. split; [rewrite length_take; lia|]. intros a b Ha Hb'. rewrite <-(take_drop (Z.to_nat limit) g) in Hb.
  exact (StronglySorted_app_1_elem_of _ _ _ a b Hb Ha Hb').
Qed.
(** With a limit of two or more the running kernel is never erased by the
    limit, however many kernels there are. *)
Theorem kernel_kept limit q : 2 <= limit -> NoDup q -> singular q -> 0 <= kernel -> is_installed pl kernel = true ->
  fst (erase kernel) <> fst (install kernel) -> erase kernel ∉ limit_queue pl limit kernel q.
Proof.
  intros Hlim Hd Hs Hk Hi Hne Hin. destruct (limit_groups limit q (name_of pl kernel) ltac:(lia) Hd Hs) as (g & Hg & Hj & Hb).
  assert (Hin' : erase kernel ∈ kept limit g).
  { rewrite <-Hj. apply list_elem_of_In, List.filter_In. split; [by apply list_elem_of_In|]. by apply Z.eqb_eq. }
  clear Hin Hj. unfold kept in Hin'. destruct (_ <=? _); [by apply elem_of_nil in Hin'|]. apply elem_of_app in Hin' as [(p & E & _)%list_elem_of_fmap|(p & E & Hp)%list_elem_of_fmap].
  { by apply Hne; rewrite E. }
  injection E as <-. assert (Er : rank kernel = 2).
  { unfold rank. rewrite Hi, Z.eqb_refl. by rewrite (proj2 (Z.leb_le _ _) Hk). }
  destruct (take (Z.to_nat limit) g) as [|a [|b rest]] eqn:Et.
  1,2: apply (f_equal length) in Et; rewrite length_take in Et; simpl in Et; apply list_elem_of_lookup in Hp as [i Hp]; apply lookup_lt_Some in Hp; rewrite length_drop in Hp; lia.
  rewrite <-(take_drop (Z.to_nat limit) g), Et in Hb. assert (Hnd : NoDup g) by (rewrite Hg; by apply NoDup_ListNoDup, List.NoDup_filter, NoDup_ListNoDup).
  rewrite <-(take_drop (Z.to_nat limit) g), Et in Hnd. assert (Hq : forall x, x ∈ [a; b] ++ [kernel] -> x ∈ q /\ name_of pl x = name_of pl kernel).
  { intros x Hx. assert (Hxg : x ∈ g) by (rewrite <-(take_drop (Z.to_nat limit) g), Et; set_solver). rewrite Hg in Hxg.
    apply list_elem_of_In, List.filter_In in Hxg as [Hx1 Hx2]. split; [by apply list_elem_of_In|by apply Z.eqb_eq]. }
  pose proof (StronglySorted_app_1_elem_of _ _ _ a kernel Hb ltac:(set_solver) Hp) as Ha. pose proof (StronglySorted_app_1_elem_of _ _ _ b kernel Hb ltac:(set_solver) Hp) as Hb'.
  destruct (Hq a ltac:(set_solver)) as [A1 A2], (Hq b ltac:(set_solver)) as [B1 B2], (Hq kernel ltac:(set_solver)) as [K1 _].
  simpl in Hnd. apply NoDup_cons in Hnd as [N1 Hnd]. apply NoDup_cons in Hnd as [N2 _].
  assert (Hak : a <> kernel) by (intros ->; apply N1; set_solver). assert (Hbk : b <> kernel) by (intros ->; apply N2; set_solver).
  assert (Hab : a <> b) by (intros ->; apply N1; set_solver). unfold not_better in Ha, Hb'. rewrite Er in Ha, Hb'.
  destruct (rank_cases a) as [Ea|[Ea|[Ea|Ea]]], (rank_cases b) as [Eb|[Eb|[Eb|Eb]]]; try lia.
  all: first [by apply Hak, Hs; [..|congruence|congruence|lia]|by apply Hbk, Hs; [..|congruence|congruence|lia]|by apply Hab, Hs; [..|congruence|congruence|lia]].
Qed.
End limit.

(** ** Problems *)

Lemma push_unique_nodup l x : NoDup l -> NoDup (push_unique l x).
Proof.
  intros Hl. unfold push_unique. case_bool_decide as Hx; [done|]. apply NoDup_app. split; [done|]. split; [|apply NoDup_singleton].
  by intros y Hy ->%list_elem_of_singleton.
Qed.
Lemma push_each_nodup {A} (f : A -> cstr) l out : NoDup out -> NoDup (fold_left (fun out x => push_unique out (f x)) l out).
Proof. revert out. induction l as [|x l IH]; intros out Ho; simpl; [done|]. by apply IH, push_unique_nodup. Qed.
(** What a problem says: the one message on protected packages, or different messages. *)
Lemma describe_nodup i b s g l : describeProblemRules i b s g = Ok l -> NoDup l.
Proof.
  unfold describeProblemRules. destruct (countProblems g) as [n|]; [|done]. cbn [result_bind]. destruct (n <=? i); [by injection 1 as <-; constructor|].
  destruct (describeProtectedRemoval s g) as [[|c p]|]; [..|done]; cbn [result_bind]; [|injection 1 as <-; apply NoDup_singleton].
  destruct (solv g) as [solver|]; [|done]. injection 1 as <-. generalize (NoDup_nil_2 (A := cstr)). generalize (@nil cstr). generalize (problem_rules solver i).
  intros rids out Ho. revert out Ho. induction rids as [|rid rids IH]; intros out Ho; cbn [fold_left]; [done|]. apply IH. generalize (solver_allruleinfos solver rid).
  intros infos. revert out Ho. induction infos as [|(type & (source & target) & dep) infos IH']; intros out Ho; cbn [fold_left]; [done|]. by apply IH', push_unique_nodup.
Qed.
Lemma known_permutation (out : list (list cstr)) l : NoDup l -> known_problem out l = true -> exists l', l' ∈ out /\ Permutation l l'.
Proof.
  intros Hl. unfold known_problem. rewrite existsb_exists. intros (l' & Hin & [Hlen%Nat.eqb_eq Hall]%andb_true_iff). exists l'. split; [by apply list_elem_of_In|].
  apply NoDup_Permutation_bis; [by apply NoDup_ListNoDup|lia|]. intros x Hx. rewrite forallb_forall in Hall. specialize (Hall x Hx).
  apply bool_decide_eq_true in Hall. by apply list_elem_of_In.
Qed.
Lemma permutation_known (out : list (list cstr)) l l' : l' ∈ out -> Permutation l l' -> known_problem out l = true.
Proof.
  intros Hin Hp. unfold known_problem. apply existsb_exists. exists l'. split; [by apply list_elem_of_In|]. rewrite (Permutation_length Hp), Nat.eqb_refl. simpl.
  apply forallb_forall. intros x Hx. apply bool_decide_eq_true. rewrite <-Hp. by apply list_elem_of_In.
Qed.
(** No description is another one in a different order. *)
Definition told_apart : list (list cstr) -> Prop := ForallOrdPairs (fun l l' => ~ Permutation l l').
Lemma told_apart_snoc out l : told_apart out -> (forall l', l' ∈ out -> ~ Permutation l' l) -> told_apart (out ++ [l]).
Proof.
  unfold told_apart. intros Ho. induction Ho as [|a out Ha Ho IH]; intros Hl; simpl; [repeat constructor|]. constructor; [|apply IH; intros; apply Hl; by right].
  apply Forall_app. split; [done|]. constructor; [|constructor]. apply Hl. by left.
Qed.
Lemma describe_each_spec b l out s g : (forall i, i ∈ l -> exists msgs, describeProblemRules i b s g = Ok msgs) -> told_apart out ->
  exists out', describe_each b l out s g = Ok (out ++ out') /\ told_apart (out ++ out')
    /\ (forall msgs, msgs ∈ out' -> exists i, i ∈ l /\ describeProblemRules i b s g = Ok msgs)
    /\ forall i msgs, i ∈ l -> describeProblemRules i b s g = Ok msgs -> msgs <> [] -> exists msgs', msgs' ∈ out ++ out' /\ Permutation msgs msgs'.
Proof.
  revert out. induction l as [|i l IH]; intros out Hl Ho; cbn [describe_each].
  - exists []. rewrite app_nil_r. split; [done|]. split; [done|]. split; [by intros msgs Hp%elem_of_nil|by intros i msgs Hi%elem_of_nil].
  - destruct (Hl i ltac:(by left)) as [msgs E]. rewrite E. cbn [result_bind].
    assert (Hl' : forall j, j ∈ l -> exists msgs, describeProblemRules j b s g = Ok msgs) by (intros j Hj; apply Hl; by right).
    assert (Hskip : msgs = [] \/ (exists msgs', msgs' ∈ out /\ Permutation msgs msgs') -> exists out', describe_each b l out s g = Ok (out ++ out') /\ told_apart (out ++ out')
      /\ (forall msgs, msgs ∈ out' -> exists j, j ∈ i :: l /\ describeProblemRules j b s g = Ok msgs)
      /\ forall j other, j ∈ i :: l -> describeProblemRules j b s g = Ok other -> other <> [] -> exists msgs', msgs' ∈ out ++ out' /\ Permutation other msgs').
    { intros Hp. destruct (IH out Hl' Ho) as (out' & H1 & H2 & H3 & H4). exists out'. split; [done|]. split; [done|]. split.
      - intros other Hq. destruct (H3 other Hq) as (j & Hj & Ej). exists j. split; [by right|done].
      - intros j other [->|Hj]%elem_of_cons Ej Hne; [|by apply (H4 j)]. assert (other = msgs) as -> by congruence. destruct Hp as [->|(msgs' & Hp' & Hpp)]; [done|].
        exists msgs'. split; [apply elem_of_app; by left|done]. }
    destruct msgs as [|c msgs0] eqn:Ep; [apply Hskip; by left|]. rewrite <-Ep in *. pose proof (describe_nodup i b s g msgs E) as Hnd.
    destruct (known_problem out msgs) eqn:Ek; [apply Hskip; right; by apply known_permutation|]. clear Hskip.
    destruct (IH (out ++ [msgs]) Hl') as (out' & H1 & H2 & H3 & H4).
    { apply told_apart_snoc; [done|]. intros l' Hl1 Hp. enough (known_problem out msgs = true) by congruence. apply (permutation_known out msgs l'); [done|by symmetry]. }
    rewrite <-app_assoc in H1, H2. exists (msgs :: out'). split; [done|]. split; [done|]. split.
    + intros other [->|Hq]%elem_of_cons; [exists i; split; [by left|done]|]. destruct (H3 other Hq) as (j & Hj & Ej). exists j. split; [by right|done].
    + intros j other [->|Hj]%elem_of_cons Ej Hne.
      * exists msgs. split; [apply elem_of_app; right; by left|]. by assert (other = msgs) as -> by congruence.
      * destruct (H4 j other Hj Ej Hne) as (msgs' & Hp' & Hpp). exists msgs'. split; [by rewrite <-app_assoc in Hp'|done].
Qed.
Lemma describe_total i b s g solver prot : solv g = Some solver -> protectedPkgs g = Some prot -> exists msgs, describeProblemRules i b s g = Ok msgs.
Proof.
  intros Es Ep. unfold describeProblemRules, describeProtectedRemoval, brokenDependencyAllPkgs, list_problem_pkgs, countProblems. rewrite Es. cbn [result_bind].
  destruct (_ <=? i); [by eexists|]. destruct (match removalOfProtected g with Some m => nonempty m | None => false end); cbn [result_bind].
  - destruct (join_names _); by eexists.
  - destruct (fold_left _ (seqZ 0 _) _) as [m1 m2]. cbn [result_bind]. rewrite Ep. destruct (pset_ids _); cbn [result_bind]; destruct (join_names _); by eexists.
Qed.
(** C27. After a run the problems can be described, and without a crash: no two
    of the descriptions have the same messages, in whatever order, each is the
    one of a problem, and each problem with messages is there. *)
Theorem describe_all_spec b s g solver prot : solv g = Some solver -> protectedPkgs g = Some prot ->
  exists out n, describeAllProblemRules b s g = Ok out /\ countProblems g = Ok n /\ told_apart out
    /\ (forall msgs, msgs ∈ out -> exists i, 0 <= i < n /\ describeProblemRules i b s g = Ok msgs)
    /\ forall i msgs, 0 <= i < n -> describeProblemRules i b s g = Ok msgs -> msgs <> [] -> exists msgs', msgs' ∈ out /\ Permutation msgs msgs'.
Proof.
  intros Es Ep. unfold describeAllProblemRules. assert (En : exists n, countProblems g = Ok n) by (unfold countProblems; rewrite Es; by eexists).
  destruct En as [n En]. rewrite En. cbn [result_bind].
  destruct (describe_each_spec b (seqZ 0 n) [] s g) as (out & H1 & H2 & H3 & H4); [intros i _; by apply (describe_total i b s g solver prot)|constructor|].
  exists out, n. split; [done|]. split; [done|]. split; [done|]. split.
  - intros msgs Hp. destruct (H3 msgs Hp) as (i & Hi%elem_of_seqZ & Ei). exists i. split; [lia|done].
  - intros i msgs Hi. apply H4. apply elem_of_seqZ. lia.
Qed.

(** The ids of all problems. *)
Definition involved (of_problem : Solver -> Z -> list Z) solver n : list Z := flat_map (of_problem solver) (seqZ 0 n).
Definition wanted pl (type : DnfPackageState) (k : Z) : bool :=
  match type with PACKAGE_STATE_ALL => true | PACKAGE_STATE_AVAILABLE => negb (is_installed pl k) | PACKAGE_STATE_INSTALLED => is_installed pl k end.
Lemma sort_out_spec pl type l m1 m2 : bytes_ok m1 -> bytes_ok m2 -> (forall k, k ∈ l -> 0 <= k < bits m1 /\ k < bits m2) ->
  let '(m1', m2') := fold_left (sort_out pl type) l (m1, m2) in
  bytes_ok m1' /\ bits m1' = bits m1 /\ (forall k, bit m1' k = bit m1 k || bool_decide (k ∈ l) && wanted pl type k)
  /\ bytes_ok m2' /\ bits m2' = bits m2 /\ (forall k, bit m2' k = bit m2 k || bool_decide (k ∈ l) && bool_decide (type = PACKAGE_STATE_AVAILABLE) && is_installed pl k).
Proof.
  intros H1 H2 Hl.
  assert (E : fold_left (sort_out pl type) l (m1, m2) = (fold_left (fun m p => if wanted pl type p then pset_set m p else m) l m1,
    fold_left (fun m p => if bool_decide (type = PACKAGE_STATE_AVAILABLE) && is_installed pl p then pset_set m p else m) l m2)).
  { clear. revert m1 m2. induction l as [|k l IH]; intros m1 m2; cbn [fold_left]; [done|]. rewrite <-IH. f_equal. unfold sort_out, wanted.
    destruct type; simpl; by destruct (is_installed pl k). }
  rewrite E. destruct (fold_set (wanted pl type) l m1 H1) as (A1 & A2 & A3); [intros p Hp%Hl; lia|].
  destruct (fold_set (fun p => bool_decide (type = PACKAGE_STATE_AVAILABLE) && is_installed pl p) l m2 H2) as (B1 & B2 & B3); [intros p Hp%Hl; lia|].
  split; [done|]. split; [done|]. split; [done|]. split; [done|]. split; [done|]. intros k. by rewrite B3, andb_assoc.
Qed.
Lemma same_nevra_spec s m r : map_ok (pool s) m -> bytes_ok r -> (forall k, bit m k = true -> 0 <= k < nsolvables (pool s)) ->
  map_ok (pool s) (remove_pkgs_with_same_nevra_from_pset s m r)
  /\ forall k, bit (remove_pkgs_with_same_nevra_from_pset s m r) k = bit m k && negb (existsb (dnf_package_same (pool s) k) (pset_ids r)).
Proof.
  intros Hm Hr Hk. unfold remove_pkgs_with_same_nevra_from_pset. destruct (pset_new_spec (pool s)) as [Hn Hb]. pose proof (map_room _ _ Hn).
  set (f := fun id1 => negb (existsb (dnf_package_same (pool s) id1) (pset_ids r))).
  assert (E : forall l m0, fold_left (fun final_pset id1 => if existsb (dnf_package_same (pool s) id1) (pset_ids r) then final_pset else pset_set final_pset id1) l m0
    = fold_left (fun m p => if f p then pset_set m p else m) l m0).
  { unfold f. induction l as [|x l IH]; intros m0; cbn [fold_left]; [done|]. rewrite IH. by destruct (existsb _ _). }
  rewrite E. destruct (fold_set f (pset_ids m) (pset_new (pool s)) (proj1 Hn)) as (F1 & F2 & F3).
  { intros p Hp%(pset_ids_spec m p (proj1 Hm))%Hk. lia. }
  split; [split; [done|by rewrite F2; apply Hn]|]. intros k. rewrite F3, Hb. simpl. f_equal. apply eq_true_iff_eq. rewrite bool_decide_eq_true. apply pset_ids_spec, Hm.
Qed.
Lemma problem_pkgs_spec of_problem type s g solver : solv g = Some solver -> (forall i k, k ∈ of_problem solver i -> 0 < k < nsolvables (pool s)) ->
  exists n m, countProblems g = Ok n /\ list_problem_pkgs of_problem type s g = Ok m /\ map_ok (pool s) m
    /\ forall k, bit m k = bool_decide (k ∈ involved of_problem solver n) && wanted (pool s) type k
         && negb (bool_decide (type = PACKAGE_STATE_AVAILABLE)
                  && existsb (fun k' => is_installed (pool s) k' && dnf_package_same (pool s) k k') (involved of_problem solver n)).
Proof.
  intros Es Hr. unfold list_problem_pkgs. assert (En : exists n, countProblems g = Ok n) by (unfold countProblems; rewrite Es; by eexists).
  destruct En as [n En]. rewrite En, Es. cbn [result_bind]. exists n. set (l := involved of_problem solver n).
  assert (E : forall x, fold_left (fun x i => fold_left (sort_out (pool s) type) (of_problem solver i) x) (seqZ 0 n) x = fold_left (sort_out (pool s) type) l x).
  { unfold l, involved. generalize (seqZ 0 n). induction l0 as [|i l0 IH]; intros x; cbn [fold_left flat_map]; [done|]. by rewrite fold_left_app, IH. }
  rewrite E. clear E. assert (Hl : forall k, k ∈ l -> 0 < k < nsolvables (pool s)).
  { intros k Hk. apply list_elem_of_In, in_flat_map in Hk as (i & _ & Hk). apply list_elem_of_In in Hk. by apply (Hr i). }
  destruct (pset_new_spec (pool s)) as [Hn Hb]. pose proof (map_room _ _ Hn).
  pose proof (sort_out_spec (pool s) type l (pset_new (pool s)) (pset_new (pool s)) (proj1 Hn) (proj1 Hn)) as H0.
  destruct (fold_left _ l _) as [m1 m2]. destruct H0 as (A1 & A2 & A3 & B1 & B2 & B3); [intros k Hk%Hl; lia|].
  assert (A4 : forall k, bit m1 k = bool_decide (k ∈ l) && wanted (pool s) type k) by (intros k; by rewrite A3, Hb).
  assert (B4 : forall k, bit m2 k = bool_decide (k ∈ l) && bool_decide (type = PACKAGE_STATE_AVAILABLE) && is_installed (pool s) k) by (intros k; by rewrite B3, Hb).
  assert (Hex : forall k, existsb (dnf_package_same (pool s) k) (pset_ids m2) = bool_decide (type = PACKAGE_STATE_AVAILABLE)
    && existsb (fun k' => is_installed (pool s) k' && dnf_package_same (pool s) k k') l).
  { intros k. generalize (dnf_package_same (pool s) k). intros same. apply eq_true_iff_eq. rewrite andb_true_iff, !existsb_exists. setoid_rewrite <-list_elem_of_In. setoid_rewrite (pset_ids_spec m2 _ B1).
    setoid_rewrite B4. setoid_rewrite andb_true_iff. setoid_rewrite andb_true_iff. split.
    - intros (x & ((Hx%bool_decide_eq_true & Ht) & Hi) & Hd). split; [done|]. by exists x.
    - intros (Ht & x & Hx & Hi & Hd). exists x. split; [|done]. split; [|done]. split; [by apply bool_decide_eq_true|done]. }
  assert (M1 : map_ok (pool s) m1) by (split; [done|rewrite A2; apply Hn]).
  eexists. split; [done|]. split; [reflexivity|]. destruct (nonempty m2) eqn:Em.
  - destruct (same_nevra_spec s m1 m2 M1 B1) as [S1 S2]; [|split; [done|]; intros k; by rewrite S2, A4, Hex].
    intros x. rewrite A4. intros [Hx%bool_decide_eq_true%Hl _]%andb_true_iff. lia.
  - split; [done|]. intros k. rewrite <-Hex. assert (Ee : pset_ids m2 = []) by (unfold nonempty in Em; by apply negb_false_iff, bool_decide_eq_true in Em).
    rewrite Ee, A4. simpl. by rewrite andb_true_r.
Qed.
Lemma problem_range of_problem s pl c solver job : of_problem = conflictPkgs \/ of_problem = brokenDependencyPkgs ->
  nsolvables pl = nsolvables (pool s) -> forall i k, k ∈ of_problem (snd (solver_solve pl c solver job)) i -> 0 < k < nsolvables (pool s).
Proof.
  intros Hof Hn i k Hk. rewrite <-Hn. destruct Hof as [-> | ->].
  - unfold conflictPkgs in Hk. apply list_elem_of_In, in_flat_map in Hk as (rid & _ & Hk). apply list_elem_of_In in Hk.
    destruct (solver_ruleinfo _ rid) as (t & (p & q) & dep) eqn:E0. pose proof (ruleinfo_range _ _ _ _ _ _ _ _ _ E0) as E.
    destruct t; try (by apply elem_of_nil in Hk); (lapply E; [intros [E1 E2]|by auto 6]);
      repeat (apply elem_of_cons in Hk as [->|Hk]; [by auto|]); by apply elem_of_nil in Hk.
  - unfold brokenDependencyPkgs in Hk. apply list_elem_of_In, in_flat_map in Hk as (rid & _ & Hk). apply list_elem_of_In in Hk.
    destruct (solver_ruleinfo _ rid) as (t & (p & q) & dep) eqn:E0. pose proof (ruleinfo_range _ _ _ _ _ _ _ _ _ E0) as E.
    destruct t; try (by apply elem_of_nil in Hk); (lapply E; [intros [E1 E2]|by auto 6]);
      repeat (apply elem_of_cons in Hk as [->|Hk]; [by auto|]); by apply elem_of_nil in Hk.
Qed.
(** The packages of conflicts, and those with broken dependencies, over all
    problems: all of them, the installed ones, or the available ones; of these
    none is given that has name, version and architecture of an installed
    one of the problems. *)
Theorem problem_packages_spec of_problem type s g pl c solver job : of_problem = conflictPkgs \/ of_problem = brokenDependencyPkgs ->
  nsolvables pl = nsolvables (pool s) -> solv g = Some (snd (solver_solve pl c solver job)) ->
  exists n m, countProblems g = Ok n /\ list_problem_pkgs of_problem type s g = Ok m
    /\ let l := involved of_problem (snd (solver_solve pl c solver job)) n in
       forall k, bit m k = bool_decide (k ∈ l) && wanted (pool s) type k
         && negb (bool_decide (type = PACKAGE_STATE_AVAILABLE) && existsb (fun k' => is_installed (pool s) k' && dnf_package_same (pool s) k k') l).
Proof.
  intros Hof Hn Es. destruct (problem_pkgs_spec of_problem type s g _ Es (problem_range of_problem s pl c solver job Hof Hn)) as (n & m & H1 & H2 & _ & H3). by exists n, m.
Qed.
End solved.
End DnfSolved.
