(* ===== verification/DnfGoalExamples.v ===== *)
(** * DnfGoalExamples: goals of dnf-4 on the small pool of [DnfQueryExamples]

    The constants of libsolv, and a solver that does what its jobs say. *)

From S2P Require Import Prelude Sack Solv Regex Specs Packages DnfSack DnfSackExamples DnfQuery DnfLatest DnfApply DnfQueryExamples DnfJobs DnfRequests DnfGoal DnfSolved.
From stdpp Require Import sorting.
Local Open Scope Z_scope.

Module DnfGoalExamples.
Import QueryCmp Matches Packages DnfSack DnfQuery DnfLatest DnfApply DnfQueryExamples DnfJobs DnfRequests DnfGoal DnfSolved.
#[local] Existing Instance SolvExamples.libsolv.
#[local] Existing Instance SolvExamples.libsolv_laws.
#[local] Existing Instance DnfSackExamples.grow.
#[local] Existing Instance DnfSackExamples.grow_laws.
#[local] Existing Instance reldep_pool.
#[local] Existing Instance small.
#[local] Existing Instance small_laws.
#[local] Existing Instance updates.
#[local] Existing Instance updates_laws.
#[local] Existing Instance the_advisories.
#[local] Existing Instance the_advisories_laws.
#[local] Existing Instance sets.
#[local] Existing Instance sets_laws.
#[local] Existing Instance ready.
#[local] Existing Instance ready_laws.
#[local] Existing Instance dependencies.
#[local] Existing Instance dependencies_laws.
#[local] Existing Instance the_filters.
#[local] Existing Instance the_filters_laws.

(** The globs find walrus twice and penguin; nothing else is found. *)
Definition jobs : SolverJobs := {|
  SOLVER_SELECTMASK := 255; SOLVER_SOLVABLE := 1; SOLVER_SOLVABLE_NAME := 2; SOLVER_SOLVABLE_PROVIDES := 3;
  SOLVER_SOLVABLE_ONE_OF := 4; SOLVER_SOLVABLE_REPO := 5;
  SOLVER_SETEV := 0x1000000; SOLVER_SETEVR := 0x2000000; SOLVER_SETARCH := 0x4000000; SOLVER_SETREPO := 0x10000000;
  SOLVER_INSTALL := 256; SOLVER_ERASE := 512; SOLVER_UPDATE := 768; SOLVER_DISTUPGRADE := 1792; SOLVER_MULTIVERSION := 1280; SOLVER_VERIFY := 2048;
  SOLVER_USERINSTALLED := 2560; SOLVER_ALLOWUNINSTALL := 2816;
  SOLVER_WEAK := 0x10000; SOLVER_CLEANDEPS := 0x40000; SOLVER_FORCEBEST := 0x100000; SOLVER_TARGETED := 0x200000;
  SOLVABLE_NAME := 2; SOLVABLE_PROVIDES := 6;
  REL_ARCH := 20; REL_EQ := 2; ARCH_SRC := 6; ARCH_NOSRC := 13;
  SELECTION_GLOB := 8; SELECTION_NOCASE := 32; SELECTION_FILELIST := 4;
  known_arch _ id := id =? 5;
  pool_queuetowhatprovides pl l := (100 + Z.of_nat (length l), pl);
  names_glob _ name := if bool_decide (name = lit "*") then [(2, 1); (3, 1); (6, 3); (5, 2)] else [];
  provides_glob _ name := if bool_decide (name = lit "*") then [(2, 1); (5, 2)] else [];
  provides_glob_end _ _ := None;
  selection_make pl job _ _ := (0, job, pl);
  selection_filter pl job _ := (job, pl);
|}.
#[local] Existing Instance jobs.
#[local] Instance jobs_laws : SolverJobsLaws.
Proof.
  split; cbn; try done.
  - intros flag [->|[->| ->]]; reflexivity.
  - intros pl l. lia.
Qed.
(** It has seen its jobs; installed packages and new ones are decided for, but for 4.
    With a job to verify there are two problems, which are one. *)
Definition verifies (solver : Job) : bool := bool_decide ((2054, 0) ∈ solver).
Definition solving : Solving := {|
  Solver := Job; Transaction := Job;
  solver_create _ := [];
  solver_set_flag solver _ _ := solver;
  solver_solve _ _ _ job := (if bool_decide ((2054, 0) ∈ job) then 2 else 0, job);
  solver_problem_count solver := if verifies solver then 2 else 0;
  solver_get_decisionlevel _ p := if p =? 4 then 0 else 1;
  solver_describe_decision _ _ := (REASON_RESOLVE_JOB, 1);
  rule_of_job _ _ := true;
  solver_get_cleandeps _ := [];
  solver_get_unneeded _ := [];
  solver_get_recommendations _ := [];
  solver_findallproblemrules _ i := if i =? 1 then [1; 2] else [2; 1];
  solver_ruleinfo _ rid := (if rid =? 1 then RULE_PKG_CONFLICTS else RULE_PKG_REQUIRES, (3, 7, 1));
  solver_allruleinfos _ rid := [(if rid =? 1 then RULE_PKG_CONFLICTS else RULE_PKG_REQUIRES, (3, 7, 1))];
  solver_problemruleinfo2str _ _ _ _ _ := [];
  solver_create_transaction solver := solver;
  steps t := List.filter (fun p => (0 <? p) && (p <? 13)) (map snd (List.filter (fun j => (fst j =? 257) || (fst j =? 513)) t));
  transaction_type t p _ := if bool_decide ((513, p) ∈ t) then 32 else 48;
  transaction_all_obs_pkgs _ _ := [];
  SOLVER_TRANSACTION_ERASE := 32; SOLVER_TRANSACTION_INSTALL := 48; SOLVER_TRANSACTION_OBSOLETES := 53; SOLVER_TRANSACTION_OBSOLETED := 20;
  SOLVER_TRANSACTION_REINSTALL := 49; SOLVER_TRANSACTION_UPGRADE := 51; SOLVER_TRANSACTION_DOWNGRADE := 50;
  SOLVER_TRANSACTION_SHOW_OBSOLETES := 4; SOLVER_TRANSACTION_CHANGE_IS_REINSTALL := 32; SOLVER_TRANSACTION_SHOW_ACTIVE := 1; SOLVER_TRANSACTION_SHOW_ALL := 2;
  pool_solvid2str _ p := text (s_name (solvable p));
  pool_dep2str _ := text;
  pool_disabled_solvable _ _ _ := false;
  wrong_arch _ _ := false;
  uname_release := Some (lit "5");
|}.
#[local] Existing Instance solving.
Definition edits : PackageSetEdits := {| pset_new pl := map_init (nsolvables pl); pset_set := MAPSET; pset_remove := MAPCLR; pset_has := MAPTST |}.
#[local] Existing Instance edits.
#[local] Instance edits_laws : PackageSetEditsLaws.
Proof.
  split; cbn [pset_new pset_set pset_remove pset_has edits].
  - intros pl. split; [apply init_ok|]. by apply (make_ok 13).
  - intros m p k Hm Hp. destruct (mapset_spec m p k Hm Hp) as (H1 & H2 & ->). split; [done|]. split; [done|]. rewrite orb_comm. f_equal.
    apply eq_true_iff_eq. by rewrite Z.eqb_eq, bool_decide_eq_true.
  - intros m p k Hm Hp. destruct (mapclr_spec m p k Hm Hp) as (H1 & H2 & ->). split; [done|]. split; [done|]. rewrite andb_comm. f_equal. f_equal.
    apply eq_true_iff_eq. by rewrite Z.eqb_eq, bool_decide_eq_true.
  - intros m p. apply maptst_spec.
Qed.
#[local] Instance solving_laws : SolvingLaws.
Proof.
  split.
  - intros pl c solver job p Hp. cbn in Hp. apply list_elem_of_In, List.filter_In in Hp as [_ Hp]. apply andb_true_iff in Hp as [H1%Z.ltb_lt H2%Z.ltb_lt]. simpl. lia.
  - intros pl c solver job rid type p q dep E _. cbn in E. injection E as _ <- <- _. simpl. lia.
  - intros pl id. cbn. destruct (id =? 1); [|destruct (id =? 2); [|destruct (id =? 11)]]; repeat (apply NoDup_cons; split; [set_solver by lia|]); constructor.
  - intros cmp l Hl H1 H2. cbn [solv_sort updates]. split; [apply sort_by_permutation|]. apply (sort_by_sorted (fun a b => a <> b)); [by intros a b H E; apply H| |done|done].
    induction Hl as [|x l Hx Hl IH]; constructor.
    + apply Forall_forall. intros y Hy ->. done.
    + apply IH; [intros a b Ha Hb; apply H1; by right|intros a b c Ha Hb Hc; apply H2; by right].
Qed.

(** ** Selectors and requests *)

Definition by_name (key : Keyname) (cmp : Z) (t : string) : setting := SetFilter key cmp (Some (lit t)).
Definition select (l : list setting) : Selector := snd (set_each l (s0, new_selector)).
Definition outcome (l : list setting) : result goal_error Job := snd (sltrToJob (select l) [] SOLVER_INSTALL s0).
Definition walrus_arch : list setting := [by_name HY_PKG_NAME HY_EQ "walrus"; by_name HY_PKG_ARCH HY_EQ "x86_64"].
Example install_walrus : outcome walrus_arch = Ok [(0x4000102, 1001)].
Proof. vm_compute. reflexivity. Qed.
Example install_all : outcome [by_name HY_PKG_NAME HY_GLOB "*"] = Ok [(258, 1); (258, 2)].
Proof. vm_compute. reflexivity. Qed.
(** An architecture that is not known gives no job, and no error. *)
Example unknown_arch : outcome [by_name HY_PKG_NAME HY_EQ "walrus"; by_name HY_PKG_ARCH HY_EQ "vax"] = Ok [].
Proof. vm_compute. reflexivity. Qed.
(** Packages, or what is provided, with a version: the assertion in the loop over the jobs fails. *)
Example provides_version : outcome [by_name HY_PKG_PROVIDES HY_EQ "walrus"; by_name HY_PKG_VERSION HY_EQ "2"] = Err Crashed.
Proof. vm_compute. reflexivity. Qed.
Example packages_version : outcome [SetPackages [8; 0]; by_name HY_PKG_VERSION HY_EQ "2"] = Err Crashed.
Proof. vm_compute. reflexivity. Qed.
(** A glob that matches nothing that is provided, and one that matches two things. *)
Example provides_nothing : (outcome [by_name HY_PKG_PROVIDES HY_GLOB "x*"], outcome [by_name HY_PKG_PROVIDES HY_GLOB "*"]) = (Err Crashed, Ok [(259, 1)]).
Proof. vm_compute. reflexivity. Qed.
(** The requests that are refused leave their actions. *)
Example refused_request : let '(_, g, r) := install_sltr (select [by_name HY_PKG_ARCH HY_EQ "noarch"]) false s0 new_staging in (g, r) = (mkStaging [] 16400, Err NoTarget).
Proof. vm_compute. reflexivity. Qed.

Lemma walrus_good : selector_good (select walrus_arch).
Proof.
  split; try exact I; try (split; [reflexivity|by eexists]). vm_compute. repeat constructor.
Qed.
Lemma name_selector_spec_witness : selector_good (select walrus_arch) /\ exists s' job', sltrToJob (select walrus_arch) [] SOLVER_INSTALL s0 = (s', Ok job').
Proof.
  split; [exact walrus_good|]. destruct (name_selector_spec (select walrus_arch) (mkFilter HY_PKG_NAME HY_EQ (MStr [lit "walrus"])) [] SOLVER_INSTALL s0 walrus_good eq_refl) as (s' & job' & E & _).
  exists s', job'. exact E.
Defined.
Lemma selectors_translate_witness : selector_good (select walrus_arch)
  /\ exists r, translation (pool (make_provides_ready (dnf_sack_recompute_considered s0))) (select walrus_arch) r
     /\ exists l, r = Ok l /\ Ok [(258, 2); (0x4000102, 1001)] = Ok ([(258, 2)] ++ map (with_action SOLVER_INSTALL) l) :> result goal_error Job.
Proof.
  split; [exact walrus_good|]. pose proof (selectors_translate (select walrus_arch) [(258, 2)] SOLVER_INSTALL s0 walrus_good) as [H _].
  assert (E : snd (sltrToJob (select walrus_arch) [(258, 2)] SOLVER_INSTALL s0) = Ok [(258, 2); (0x4000102, 1001)]) by (vm_compute; reflexivity).
  rewrite E in H. change (any_req_filter (select walrus_arch)) with true in H. destruct H as (r & Ht & H). exists r. split; [exact Ht|].
  destruct r as [l|[]]; [exists l; split; [reflexivity|exact H]|discriminate H|destruct H|destruct H|destruct H as [H _]; discriminate H].
Defined.
Lemma distupgrade_all_spec_witness : coherent s0 /\ exists s' pl ids, make_request DistupgradeAll s0 new_staging
    = (s', mkStaging [(0x6000704, fst (pool_queuetowhatprovides pl ids))] 16386, Ok tt) /\ 4 ∈ ids.
Proof.
  split; [exact s0_coherent|]. destruct (distupgrade_all_spec s0 new_staging s0_coherent) as (s' & pl & ids & E & _ & H). exists s', pl, ids. split; [exact E|].
  apply H. split; [|split; [vm_compute; reflexivity|vm_compute; reflexivity]]. refine (proj1 (bool_decide_eq_true (4 ∈ packages (pool s0))) _). vm_compute. reflexivity.
Defined.

(** ** Goals *)

Definition kernel_io : Installonly := mkInstallonly [1] 2 7 true.
Definition goal_of (job : Job) : Goal := mkGoal (mkStaging job DNF_ERASE) None None (Some [32; 0]) None.
Definition result_of (flags : Z) (job : Job) : result failure (bool * option (list Z) * result list_error (list Z) * list Z) :=
  let* x := run flags s0 kernel_io (goal_of job) in
  let '(s, io, g, failed) := x in
  Ok (failed, pset_ids <$> removalOfProtected g, match listErasures s g with Ok m => Ok (pset_ids m) | Err e => Err e end,
      match protectedPkgs g with Some m => pset_ids m | None => [] end).
(** penguin (5) is protected, and so is walrus 7, which is the kernel. The limit lets walrus 2 go. *)
Example limited : result_of 0 [] = Ok (false, Some [], Ok [2], [5; 7]).
Proof. vm_compute. reflexivity. Qed.
Example erase_protected : result_of 0 [(513, 2); (513, 5); (513, 7)] = Ok (true, Some [5; 7], Ok [2; 5; 7], [5; 7]).
Proof. vm_compute. reflexivity. Qed.
(** A run that the solver fails leaves the protected packages of the run before: they are reported again. *)
Definition twice : result failure (bool * bool * result failure (list cstr)) :=
  let* x := run 0 s0 kernel_io (goal_of [(513, 5)]) in
  let '(s, io, g, failed1) := x in
  let* x := run DNF_VERIFY s io g in
  let '(s, io, g, failed2) := x in
  Ok (failed1, failed2, describeProblemRules 0 true s g).
Example stale_removal : twice = Ok (true, true, Ok [protected_message ++ lit "penguin"]).
Proof. vm_compute. reflexivity. Qed.
(** The two problems are one; a copy of the goal has no solver to ask. *)
Definition problem_run : result failure (result failure (list (list cstr)) * result failure Z) :=
  let* x := run DNF_VERIFY s0 kernel_io (goal_of []) in
  let '(s, io, g, _) := x in
  Ok (describeAllProblemRules true s (set_protected (Some []) g), countProblems (copy_goal g)).
Example one_problem : problem_run
  = Ok (Ok [[lit "package walrus conflicts with walrus provided by walrus"; lit "package walrus requires walrus, but none of the providers can be installed"]], Err Crash).
Proof. vm_compute. reflexivity. Qed.
(** The jobs to allow uninstalling are made before what is considered is computed: 2 is excluded. *)
Definition excluding : DnfSack := dnf_sack_add_excludes_or_includes PkgExcludes [4; 0] (dnf_sack_recompute_considered s0).
Definition uninstall_jobs (s : DnfSack) : result failure (list Z) :=
  let* x := constructJob DNF_ALLOW_UNINSTALL s kernel_io (goal_of []) in
  Ok (map snd (List.filter (fun j => fst j =? 2817) (snd x))).
Example stale_considered : (uninstall_jobs excluding, uninstall_jobs (dnf_sack_recompute_considered excluding), should_consider excluding APPLY_EXCLUDES 2) = (Ok [2], Ok [], false).
Proof. vm_compute. reflexivity. Qed.
(** Of two new packages with a name each comes after the other. *)
Example not_an_order : (sort_packages tt 7 10 11, sort_packages tt 7 11 10) = (1, 1).
Proof. reflexivity. Qed.

(** ** Witnesses *)

Lemma construct_job_spec_witness : coherent s0 /\ exists s' io' kernel prot job, dnf_sack_running_kernel s0 kernel_io = Ok (s', io', kernel)
  /\ constructJob 0 s0 kernel_io (goal_of [(513, 5)]) = Ok (s', io', set_protected (Some prot) (goal_of [(513, 5)]), job) /\ bit prot 5 = true.
Proof.
  split; [exact s0_coherent|]. destruct (construct_job_spec 0 s0 kernel_io (goal_of [(513, 5)]) s0_coherent (fun _ => I)) as (s' & io' & kernel & prot & E & Ej & _ & _ & _ & H).
  - constructor; [|constructor; [|constructor]]; split; reflexivity || discriminate.
  - reflexivity.
  - exists s', io', kernel, prot. eexists. split; [exact E|]. split; [exact Ej|]. rewrite H. vm_compute. reflexivity.
Defined.
Definition pl0 : Reldep.pool := tt.
Lemma three_walruses : NoDup [2; 3; 7] /\ singular pl0 7 [2; 3; 7].
Proof.
  split; [repeat (apply NoDup_cons; split; [set_solver by lia|]); constructor|]. intros a b Ha Hb _ Hr Hn.
  rewrite !elem_of_cons, elem_of_nil in Ha, Hb. destruct Ha as [->|[->|[->|[]]]], Hb as [->|[->|[->|[]]]]; vm_compute in Hr, Hn |- *; congruence.
Qed.
Lemma limit_spec_witness : 0 <= 2 /\ NoDup [2; 3; 7] /\ singular pl0 7 [2; 3; 7]
  /\ exists best others, Permutation [2; 3; 7] (best ++ others) /\ jobs_of pl0 1 (limit_queue pl0 2 7 [2; 3; 7]) = map install best ++ map erase others
       /\ Z.of_nat (length best) = 2.
Proof.
  destruct three_walruses as [H1 H2]. split; [lia|]. split; [exact H1|]. split; [exact H2|].
  destruct (limit_spec pl0 7 2 [2; 3; 7] 1 ltac:(lia) H1 H2) as (best & others & P & E & L & _). exists best, others. split; [exact P|]. split; [exact E|exact L].
Defined.
Lemma kernel_kept_witness : 2 <= 2 /\ NoDup [2; 3; 7] /\ singular pl0 7 [2; 3; 7] /\ 0 <= 7 /\ is_installed pl0 7 = true
  /\ erase 7 ∉ limit_queue pl0 2 7 [2; 3; 7].
Proof.
  destruct three_walruses as [H1 H2]. split; [lia|]. split; [exact H1|]. split; [exact H2|]. split; [lia|]. split; [reflexivity|].
  apply (kernel_kept pl0 7 2 [2; 3; 7]); [lia|exact H1|exact H2|lia|reflexivity|discriminate].
Defined.
Definition failed_goal : Goal := mkGoal (mkStaging [] DNF_NONE) (Some [(2054, 0)]) None (Some [0; 0]) None.
Lemma describe_all_spec_witness : solv failed_goal = Some [(2054, 0)] /\ protectedPkgs failed_goal = Some [0; 0]
  /\ exists out, describeAllProblemRules true s0 failed_goal = Ok out /\ told_apart out.
Proof.
  split; [reflexivity|]. split; [reflexivity|]. destruct (describe_all_spec true s0 failed_goal [(2054, 0)] [0; 0] eq_refl eq_refl) as (out & n & E & _ & H & _).
  exists out. split; [exact E|exact H].
Defined.
(** The versions of this pool are all the same: 3 is available, but 7 is the same package. *)
Example same_as_installed : (let* m := listConflictPkgs PACKAGE_STATE_ALL s0 failed_goal in Ok (ids m), let* m := listConflictPkgs PACKAGE_STATE_AVAILABLE s0 failed_goal in Ok (ids m))
  = (Ok [3; 7], Ok []).
Proof. vm_compute. reflexivity. Qed.
Lemma problem_packages_spec_witness : exists m, brokenDependencyAllPkgs PACKAGE_STATE_AVAILABLE s0 failed_goal = Ok m /\ bit m 3 = true /\ bit m 7 = false.
Proof.
  destruct (problem_packages_spec brokenDependencyPkgs PACKAGE_STATE_AVAILABLE s0 failed_goal pl0 None [] [(2054, 0)] (or_intror eq_refl) eq_refl eq_refl) as (n & m & En & E & H).
  exists m. split; [exact E|]. injection En as <-. rewrite !H. split; vm_compute; reflexivity.
Defined.
End DnfGoalExamples.
