(* ===== verification/Modules.v ===== *)
(** * Modules: the states of modules (dnf-4 [module/ModulePackageContainer.cpp])

    The persistor keeps for every module the file [<name>.module] as a parsed
    configuration file, and beside it the state that the program works with;
    [save] writes the differences back, [rollback] drops them. Which modules
    are active is decided by libsolv and is not modelled.

    The configuration parser that dnf-4 uses is not among its files (it is an
    older version of [conf/config_parser.cpp] with other method names): the
    persistor is proved against the class [KeyFile], and [ConfigParser] is an
    instance of it. The list options are those of [Options]. *)

From S2P Require Import Prelude OrderMap ConfigParser Options Sets.
From stdpp Require Import sorting.

(** ** What the persistor asks of a configuration file *)

Class KeyFile (P : Type) := {
  kf_new : P;
  kf_add_section : cstr -> P -> P;
  kf_has_option : cstr -> cstr -> P -> bool;
  (** [None] is the exception for a section or an option that is not there. *)
  kf_get : cstr -> cstr -> P -> option cstr;
  kf_set : cstr -> cstr -> cstr -> P -> option P;
  kf_remove : cstr -> cstr -> P -> P;
  kf_write : P -> cstr;
}.
Class KeyFileLaws (P : Type) `{KeyFile P} := {
  (** There is such a section. *)
  kf_section : cstr -> P -> Prop;
  kf_has_get s k p : kf_has_option s k p = true <-> is_Some (kf_get s k p);
  kf_get_section s k p v : kf_get s k p = Some v -> kf_section s p;
  kf_add_has s p : kf_section s (kf_add_section s p);
  kf_set_total s k v p : kf_section s p -> is_Some (kf_set s k v p);
  kf_set_section s k v p p' : kf_set s k v p = Some p' -> kf_section s p';
  kf_set_get s k v p p' s' k' :
    kf_set s k v p = Some p' -> kf_get s' k' p' = if decide ((s, k) = (s', k')) then Some v else kf_get s' k' p;
  kf_remove_get s k p k' : k <> k' -> kf_get s k' (kf_remove s k p) = kf_get s k' p;
}.

Module Modules.

Inductive ModuleState := UNKNOWN | ENABLED | DISABLED | DEFAULT | INSTALLED.
#[global] Instance state_eq_dec : EqDecision ModuleState.
Proof. solve_decision. Defined.

Definition fromString (str : cstr) : ModuleState :=
  if bool_decide (str = lit "1") || bool_decide (str = lit "true") || bool_decide (str = lit "enabled") then ENABLED
  else if bool_decide (str = lit "0") || bool_decide (str = lit "false") || bool_decide (str = lit "disabled") then DISABLED
  else UNKNOWN.
Definition toString (state : ModuleState) : cstr :=
  match state with ENABLED => lit "enabled" | DISABLED => lit "disabled" | _ => [] end.

Record Config := mkConfig { stream : cstr; profiles : list cstr; state : ModuleState; locked : bool }.
#[global] Instance config_eq_dec : EqDecision Config.
Proof. solve_decision. Defined.

Inductive error := NoModule (name : cstr) | OutOfRange | EnableMultipleStreams (name : cstr) | ParserError.

(** [ModulePersistor::configs], the parser and the working state by name. *)
Abbreviation entry P := (prod P Config).
Abbreviation persistor P := (gmap cstr (P * Config)).

Section monad.
Context {P : Type}.


(** A call changes the persistor and returns or throws. *)
Definition call (A : Type) : Type := persistor P -> persistor P * result error A.
Definition ret {A} (x : A) : call A := fun p => (p, Ok x).
Definition throw {A} (e : error) : call A := fun p => (p, Err e).
Definition bind {A B} (m : call A) (k : A -> call B) : call B :=
  fun p => match m p with (p, Ok x) => k x p | (p, Err e) => (p, Err e) end.
End monad.
Arguments call : clear implicits.
#[local] Notation "'do!' x ':=' m 'in' k" := (bind m (fun x => k)) (at level 10, x pattern, m at level 100, k at level 200).
Create HintDb modules.
#[local] Arguments lit : simpl never.

Section persistor.
Context {P : Type} `{KeyFile P}.
#[local] Abbreviation M := (call P).

Definition getEntry (name : cstr) : M (entry P) :=
  fun p => match p !! name with Some e => (p, Ok e) | None => (p, Err (NoModule name)) end.
(** Writing through the reference that [getEntry] returned. *)
Definition set_config (name : cstr) (f : Config -> Config) : M unit :=
  fun p => (alter (fun '(parser, c) => (parser, f c)) name p, Ok tt).
Definition set_parser (name : cstr) (parser : P) : M unit :=
  fun p => (alter (fun '(_, c) => (parser, c)) name p, Ok tt).
(** A call of the parser. *)
Definition parsed {A} (x : option A) : M A := match x with Some a => ret a | None => throw ParserError end.

Definition with_stream (s : cstr) (c : Config) : Config := mkConfig s (profiles c) (state c) (locked c).
Definition with_profiles (ps : list cstr) (c : Config) : Config := mkConfig (stream c) ps (state c) (locked c).
Definition with_state (st : ModuleState) (c : Config) : Config := mkConfig (stream c) (profiles c) st (locked c).

Definition getStream (name : cstr) : M cstr := do! e := getEntry name in ret (stream (snd e)).
Definition getProfiles (name : cstr) : M (list cstr) := do! e := getEntry name in ret (profiles (snd e)).
Definition getState (name : cstr) : M ModuleState := do! e := getEntry name in ret (state (snd e)).

(** [configs.at], which throws [std::out_of_range]. *)
Definition at_ (name : cstr) : M (entry P) :=
  fun p => match p !! name with Some e => (p, Ok e) | None => (p, Err OutOfRange) end.

Definition changeStream (name s : cstr) : M bool :=
  do! e := at_ name in
  if decide (stream (snd e) = s) then ret false
  else
    do! originValue := parsed (kf_get name (lit "stream") (fst e)) in
    if decide (originValue <> stream (snd e)) then throw (EnableMultipleStreams name)
    else do! _ := set_config name (with_stream s) in ret true.

Definition addProfile (name profile : cstr) : M bool :=
  do! e := getEntry name in
  if decide (profile ∈ profiles (snd e)) then ret false
  else do! _ := set_config name (with_profiles (profiles (snd e) ++ [profile])) in ret true.

(** The first occurrence only. *)
Fixpoint erase_first (x : cstr) (l : list cstr) : list cstr :=
  match l with [] => [] | y :: l => if decide (y = x) then l else y :: erase_first x l end.
Definition removeProfile (name profile : cstr) : M bool :=
  do! e := getEntry name in
  if decide (profile ∈ profiles (snd e))
  then do! _ := set_config name (with_profiles (erase_first profile (profiles (snd e)))) in ret true
  else ret false.

Definition changeState (name : cstr) (st : ModuleState) : M bool :=
  do! e := getEntry name in
  if decide (state (snd e) = st) then ret false
  else do! _ := set_config name (with_state st) in ret true.

(** ** Loading *)

(** What reading the file of a module gives: no file, a configuration, or an
    exception that leaves the parser as it is then. *)
Inductive file := CantOpen | Parsed (parser : P) | Broken (parser : P).

(** Four settings one after the other, [None] when one of them throws. *)
Definition initConfig (parser : P) (name : cstr) : option P :=
  match kf_set name (lit "name") name (kf_add_section name parser) with
  | None => None
  | Some parser =>
      match kf_set name (lit "stream") [] parser with
      | None => None
      | Some parser =>
          match kf_set name (lit "profiles") [] parser with
          | None => None
          | Some parser => kf_set name (lit "state") [] parser
          end
      end
  end.

Definition parseConfig (f : file) (name : cstr) : option P :=
  match f with
  | CantOpen => initConfig kf_new name
  | Broken _ => None
  | Parsed parser =>
      if negb (kf_has_option name (lit "stream") parser) || negb (kf_has_option name (lit "profiles") parser)
         || (negb (kf_has_option name (lit "state") parser) && negb (kf_has_option name (lit "enabled") parser))
      then initConfig parser name
      else
        match kf_set name (lit "name") name parser with
        | None => None
        | Some parser =>
            if kf_has_option name (lit "enabled") parser then
              match kf_get name (lit "enabled") parser with
              | None => None
              | Some v => match kf_set name (lit "state") v parser with
                          | None => None
                          | Some parser => Some (kf_remove name (lit "enabled") parser)
                          end
              end
            else Some parser
        end
  end.

(** The values of the working state that the file holds. *)
Definition read_config (name : cstr) (parser : P) (locked : bool) : option Config :=
  match kf_get name (lit "profiles") parser, kf_get name (lit "state") parser, kf_get name (lit "stream") parser with
  | Some ps, Some st, Some s => Some (mkConfig s (Options.list_from_string ps) (fromString st) locked)
  | _, _, _ => None
  end.

(** [insert]: an exception leaves an entry with the values of [Config()]. *)
Definition insert (name : cstr) (f : file) : M bool :=
  fun p =>
    if decide (is_Some (p !! name)) then (p, Ok false)
    else
      let partial := match f with Broken parser => parser | Parsed parser => parser | CantOpen => kf_new end in
      match parseConfig f name with
      | None => (<[name := (partial, mkConfig [] [] UNKNOWN false)]> p, Err ParserError)
      | Some parser =>
          match read_config name parser false with
          | None => (<[name := (parser, mkConfig [] [] UNKNOWN false)]> p, Err ParserError)
          | Some c => (<[name := (parser, c)]> p, Ok true)
          end
      end.

(** ** Saving *)

Definition set_option (name key value : cstr) : M unit :=
  do! e := getEntry name in
  do! parser := parsed (kf_set name key value (fst e)) in
  set_parser name parser.

(** One value of the file: it is set if it is missing or another one. *)
Definition update_value (name key : cstr) (same : cstr -> bool) (value : cstr) : M bool :=
  do! e := getEntry name in
  match kf_get name key (fst e) with
  | Some v => if kf_has_option name key (fst e) && same v then ret false
              else do! _ := set_option name key value in ret true
  | None => do! _ := set_option name key value in ret true
  end.

Definition update (name : cstr) : M bool :=
  do! st := getState name in
  do! c1 := update_value name (lit "state") (fun v => bool_decide (v = toString st)) (toString st) in
  do! s := getStream name in
  do! c2 := update_value name (lit "stream") (fun v => bool_decide (v = s)) s in
  do! ps := getProfiles name in
  do! c3 := update_value name (lit "profiles") (fun v => bool_decide (Options.list_from_string v = ps)) (Options.list_to_string ps) in
  ret (c1 || c2 || c3).

(** The files written, by the names of their modules; an exception ends the loop. *)
Fixpoint save_loop (names : list cstr) (written : list (cstr * cstr)) : M (list (cstr * cstr)) :=
  match names with
  | [] => ret written
  | name :: names =>
      do! changed := update name in
      do! e := getEntry name in
      save_loop names (if changed then written ++ [(name, kf_write (fst e))] else written)
  end.
Definition getAllModuleNames (p : persistor P) : list cstr := map fst (rows p).
Definition save : M (list (cstr * cstr)) := fun p => save_loop (getAllModuleNames p) [] p.

(** [reset] of the persistor, one value after the other. *)
Definition reset_entry (name : cstr) : M unit :=
  do! e := getEntry name in
  do! s := parsed (kf_get name (lit "stream") (fst e)) in
  do! _ := set_config name (with_stream s) in
  do! st := parsed (kf_get name (lit "state") (fst e)) in
  do! _ := set_config name (with_state (fromString st)) in
  do! ps := parsed (kf_get name (lit "profiles") (fst e)) in
  set_config name (with_profiles (Options.list_from_string ps)).
Fixpoint for_each (names : list cstr) (f : cstr -> M unit) : M unit :=
  match names with [] => ret tt | n :: names => do! _ := f n in for_each names f end.
Definition rollback : M unit := fun p => for_each (getAllModuleNames p) reset_entry p.

(** ** The container *)

Definition isEnabled (name s : cstr) (p : persistor P) : bool :=
  match p !! name with
  | Some (_, c) => bool_decide (state c = ENABLED) && bool_decide (stream c = s)
  | None => false
  end.
Definition isDisabled (name : cstr) (p : persistor P) : bool :=
  match p !! name with Some (_, c) => bool_decide (state c = DISABLED) | None => false end.
Definition getModuleState (name : cstr) (p : persistor P) : ModuleState :=
  match p !! name with Some (_, c) => state c | None => UNKNOWN end.

Definition clear_profiles (name : cstr) : M unit :=
  do! _ := getEntry name in set_config name (with_profiles []).
Definition enable (name s : cstr) : M bool :=
  do! c1 := changeStream name s in
  do! c2 := changeState name ENABLED in
  if c1 || c2 then do! _ := clear_profiles name in ret true else ret false.
Definition disable (name : cstr) : M unit :=
  do! _ := changeState name DISABLED in do! _ := changeStream name [] in clear_profiles name.
Definition reset (name : cstr) : M unit :=
  do! _ := changeState name UNKNOWN in do! _ := changeStream name [] in clear_profiles name.

(** The module packages by name and stream. *)
Definition install_package (m : cstr * cstr) (profile : cstr) : M unit :=
  do! s := getStream (fst m) in
  if decide (s = snd m) then do! _ := addProfile (fst m) profile in ret tt else ret tt.
Definition uninstall_package (m : cstr * cstr) (profile : cstr) : M unit :=
  do! s := getStream (fst m) in
  if decide (s = snd m) then do! _ := removeProfile (fst m) profile in ret tt else ret tt.
Fixpoint for_packages (ms : list (cstr * cstr)) (name s : cstr) (f : cstr * cstr -> M unit) : M unit :=
  match ms with
  | [] => ret tt
  | m :: ms => do! _ := (if decide (m = (name, s)) then f m else ret tt) in for_packages ms name s f
  end.
Definition install (modules : list (cstr * cstr)) (name s profile : cstr) : M unit :=
  for_packages modules name s (fun m => install_package m profile).
Definition uninstall (modules : list (cstr * cstr)) (name s profile : cstr) : M unit :=
  for_packages modules name s (fun m => uninstall_package m profile).

(** ** What has changed *)

Section reports.
Context {A : Type} (f : cstr -> entry P -> option (option A)).
(** A loop over the configurations in the order of names that collects what
    [f] gives; [None] is an exception of the parser. *)
Fixpoint report (l : list (cstr * entry P)) : option (list (cstr * A)) :=
  match l with
  | [] => Some []
  | (name, e) :: l =>
      match f name e with
      | None => None
      | Some x =>
          match report l with
          | None => None
          | Some r => Some (match x with Some a => (name, a) :: r | None => r end)
          end
      end
  end.
Definition reported : M (list (cstr * A)) :=
  fun p => (p, match report (rows p) with Some r => Ok r | None => Err ParserError end).
End reports.

(** [fromString] of the state in the file. *)
Definition oldState (name : cstr) (e : entry P) : option ModuleState :=
  fromString <$> kf_get name (lit "state") (fst e).
Definition idle (st : ModuleState) : bool := bool_decide (st = UNKNOWN) || bool_decide (st = DEFAULT).

Definition enabled_stream (name : cstr) (e : entry P) : option (option cstr) :=
  match oldState name e with
  | None => None
  | Some oldVal =>
      Some (if bool_decide (oldVal <> ENABLED) && bool_decide (state (snd e) = ENABLED) then Some (stream (snd e)) else None)
  end.
Definition getEnabledStreams : M (list (cstr * cstr)) := reported enabled_stream.
Definition disabled_module (name : cstr) (e : entry P) : option (option unit) :=
  match oldState name e with
  | None => None
  | Some oldVal =>
      Some (if bool_decide (oldVal <> DISABLED) && bool_decide (state (snd e) = DISABLED) then Some tt else None)
  end.
Definition getDisabledModules : M (list (cstr * unit)) := reported disabled_module.
Definition disabled_stream (name : cstr) (e : entry P) : option (option cstr) :=
  match oldState name e with
  | None => None
  | Some oldVal =>
      if bool_decide (oldVal <> DISABLED) && bool_decide (state (snd e) = DISABLED)
      then Some <$> kf_get name (lit "stream") (fst e) else Some None
  end.
Definition getDisabledStreams : M (list (cstr * cstr)) := reported disabled_stream.
Definition reset_module (name : cstr) (e : entry P) : option (option unit) :=
  match oldState name e with
  | None => None
  | Some oldVal => Some (if idle oldVal then None else if idle (state (snd e)) then Some tt else None)
  end.
Definition getResetModules : M (list (cstr * unit)) := reported reset_module.
Definition reset_stream (name : cstr) (e : entry P) : option (option cstr) :=
  match oldState name e with
  | None => None
  | Some oldVal =>
      if idle oldVal then Some None
      else if idle (state (snd e)) then Some <$> kf_get name (lit "stream") (fst e) else Some None
  end.
Definition getResetStreams : M (list (cstr * cstr)) := reported reset_stream.
Definition stream_switch (name : cstr) (e : entry P) : option (option (cstr * cstr)) :=
  match kf_get name (lit "stream") (fst e) with
  | None => None
  | Some oldVal =>
      Some (if bool_decide (oldVal = []) then None
            else if bool_decide (stream (snd e) = []) then None
            else if bool_decide (oldVal <> stream (snd e)) then Some (oldVal, stream (snd e)) else None)
  end.
Definition getSwitchedStreams : M (list (cstr * (cstr * cstr))) := reported stream_switch.

(** The working profiles are sorted in place. *)
Fixpoint profile_changes (diff : list cstr -> list cstr -> list cstr) (names : list cstr)
    (acc : list (cstr * list cstr)) : M (list (cstr * list cstr)) :=
  match names with
  | [] => ret acc
  | name :: names =>
      do! e := getEntry name in
      do! v := parsed (kf_get name (lit "profiles") (fst e)) in
      let vprof := sort_strings (Options.list_from_string v) in
      let newProfiles := sort_strings (profiles (snd e)) in
      do! _ := set_config name (with_profiles newProfiles) in
      let profDiff := diff newProfiles vprof in
      profile_changes diff names (if decide (profDiff = []) then acc else acc ++ [(name, profDiff)])
  end.
Definition getInstalledProfiles : M (list (cstr * list cstr)) :=
  fun p => profile_changes (fun new old => Sets.set_difference str_ltb new old) (getAllModuleNames p) [] p.
Definition getRemovedProfiles : M (list (cstr * list cstr)) :=
  fun p => profile_changes (fun new old => Sets.set_difference str_ltb old new) (getAllModuleNames p) [] p.

(** One question after the other, until one has an answer. *)
Definition or_else {A} (m : M (list A)) (k : M bool) : M bool :=
  do! l := m in match l with [] => k | _ => ret true end.
Definition isChanged : M bool :=
  or_else getEnabledStreams (or_else getDisabledModules (or_else getResetModules
    (or_else getSwitchedStreams (or_else getInstalledProfiles (or_else getRemovedProfiles (ret false)))))).
End persistor.
#[local] Arguments set_config : simpl never.
#[local] Arguments set_parser : simpl never.
#[local] Arguments getEntry : simpl never.
#[local] Arguments at_ : simpl never.

(** ** The effect of the operations *)

Section laws.
Context {P : Type} `{KeyFileLaws P}.
#[local] Abbreviation M := (call P).
Implicit Types (p : persistor P) (e : entry P) (name : cstr).

Lemma bind_ok {A B : Type} (m : M A) (k : A -> M B) p p' x : m p = (p', Ok x) -> bind m k p = k x p'.
Proof. intros E. unfold bind. by rewrite E. Qed.
Lemma bind_err {A B : Type} (m : M A) (k : A -> M B) p p' err : m p = (p', Err err) -> bind m k p = (p', Err err).
Proof. intros E. unfold bind. by rewrite E. Qed.
Lemma parsed_ok {A : Type} (x : option A) a p : x = Some a -> parsed x p = (p, Ok a).
Proof. by intros ->. Qed.
Lemma getEntry_ok p name e : p !! name = Some e -> getEntry name p = (p, Ok e).
Proof. intros E. unfold getEntry. by rewrite E. Qed.
Lemma at_ok p name e : p !! name = Some e -> at_ name p = (p, Ok e).
Proof. intros E. unfold at_. by rewrite E. Qed.

Lemma alter_insert_Some (f : entry P -> entry P) p name e : p !! name = Some e -> alter f name p = <[name := f e]> p.
Proof.
  intros E. apply map_eq. intros i. destruct (decide (i = name)) as [->|Hi].
  - by rewrite lookup_alter_eq, lookup_insert_eq, E.
  - by rewrite lookup_alter_ne, lookup_insert_ne.
Qed.
Lemma set_config_ok f p name parser c :
  p !! name = Some (parser, c) -> set_config name f p = (<[name := (parser, f c)]> p, Ok tt).
Proof. intros E. unfold set_config. by rewrite (alter_insert_Some _ _ _ _ E). Qed.
Lemma set_parser_ok q p name parser c :
  p !! name = Some (parser, c) -> set_parser name q p = (<[name := (q, c)]> p, Ok tt).
Proof. intros E. unfold set_parser. by rewrite (alter_insert_Some _ _ _ _ E). Qed.

(** The first call of a sequence returns. *)
Ltac called H := erewrite bind_ok by exact H; cbn [fst snd].

(** *** Invariants of the calls *)

(** Whatever a call does, and whether it throws, [I] holds afterwards. *)
Definition keeps {A : Type} (I : persistor P -> Prop) (m : M A) : Prop := forall p, I p -> I (fst (m p)).

Section keeps.
Variable I : persistor P -> Prop.
Lemma keeps_ret {A : Type} (x : A) : keeps I (ret x).
Proof. by intros p. Qed.
Lemma keeps_throw {A : Type} err : keeps I (throw (A := A) err).
Proof. by intros p. Qed.
Lemma keeps_parsed {A : Type} (x : option A) : keeps I (parsed x).
Proof. destruct x; by intros p. Qed.
Lemma keeps_entry name : keeps I (getEntry name).
Proof. intros p. unfold getEntry. by destruct (p !! name). Qed.
Lemma keeps_at name : keeps I (at_ name).
Proof. intros p. unfold at_. by destruct (p !! name). Qed.
Lemma keeps_reported {A : Type} (f : cstr -> entry P -> option (option A)) : keeps I (reported f).
Proof. by intros p. Qed.
Lemma keeps_bind {A B : Type} (m : M A) (k : A -> M B) : keeps I m -> (forall x, keeps I (k x)) -> keeps I (bind m k).
Proof.
  intros Hm Hk p Hp. unfold bind. specialize (Hm p Hp). destruct (m p) as [p' [x|err]]; [|done]. by apply Hk.
Qed.
Lemma keeps_if {A : Type} Q `{Decision Q} (m k : M A) : keeps I m -> keeps I k -> keeps I (if decide Q then m else k).
Proof. by destruct (decide Q). Qed.
Lemma keeps_ifb {A : Type} (b : bool) (m k : M A) : keeps I m -> keeps I k -> keeps I (if b then m else k).
Proof. by destruct b. Qed.
End keeps.
Hint Resolve keeps_ret keeps_throw keeps_parsed keeps_entry keeps_at keeps_reported keeps_bind keeps_if keeps_ifb : modules.

(** The calls of a program on the container, between loading and saving. *)
Inductive op :=
| Enable (name s : cstr)
| Disable (name : cstr)
| Reset (name : cstr)
| Install (name s profile : cstr)
| Uninstall (name s profile : cstr)
| IsChanged.
Definition exec (modules : list (cstr * cstr)) (o : op) : M unit :=
  match o with
  | Enable name s => do! _ := enable name s in ret tt
  | Disable name => disable name
  | Reset name => reset name
  | Install name s profile => install modules name s profile
  | Uninstall name s profile => uninstall modules name s profile
  | IsChanged => do! _ := isChanged in ret tt
  end.
(** One after the other; exceptions are caught by the caller. *)
Definition run (modules : list (cstr * cstr)) (os : list op) (p : persistor P) : persistor P :=
  fold_left (fun p o => fst (exec modules o p)) os p.

Section keeps_ops.
(** An invariant that survives changes of profiles and states, and of streams by [changeStream]. *)
Variable I : persistor P -> Prop.
Hypothesis I_profiles : forall name ps, keeps I (set_config name (with_profiles ps)).
Hypothesis I_state : forall name st, keeps I (set_config name (with_state st)).
Hypothesis I_stream : forall name s, keeps I (changeStream name s).
Hint Resolve I_profiles I_state I_stream : modules.

Lemma keeps_changeState name st : keeps I (changeState name st).
Proof. unfold changeState. eauto 10 with modules. Qed.
Lemma keeps_clear name : keeps I (clear_profiles name).
Proof. unfold clear_profiles. eauto 10 with modules. Qed.
Hint Resolve keeps_changeState keeps_clear : modules.
Lemma keeps_packages ms name s f : (forall m, keeps I (f m)) -> keeps I (for_packages ms name s f).
Proof. intros Hf. induction ms as [|m ms IH]; simpl; auto 10 with modules. Qed.
Lemma keeps_profile_changes diff names acc : keeps I (profile_changes diff names acc).
Proof. revert acc. induction names as [|n names IH]; intros acc; simpl; auto 10 with modules. Qed.
Lemma keeps_or_else {A : Type} (m : M (list A)) k : keeps I m -> keeps I k -> keeps I (or_else m k).
Proof. intros Hm Hk. unfold or_else. apply keeps_bind; [done|]. intros [|]; auto with modules. Qed.
Lemma keeps_isChanged : keeps I isChanged.
Proof.
  unfold isChanged. repeat apply keeps_or_else; try (unfold getEnabledStreams, getDisabledModules, getResetModules, getSwitchedStreams; auto with modules; fail).
  - intros p. apply keeps_profile_changes.
  - intros p. apply keeps_profile_changes.
Qed.
Lemma keeps_exec modules o : keeps I (exec modules o).
Proof.
  destruct o; simpl; try (unfold enable, disable, reset; eauto 12 using keeps_isChanged with modules; fail);
    unfold install, uninstall; apply keeps_packages; intros m;
    unfold install_package, uninstall_package, addProfile, removeProfile, getStream; eauto 12 with modules.
Qed.
Lemma keeps_run modules os p : I p -> I (run modules os p).
Proof. unfold run. revert p. induction os as [|o os IH]; intros p Hp; [done|]. simpl. apply IH. by apply keeps_exec. Qed.
End keeps_ops.

(** *** Rollback *)

Definition readable name e : Prop := is_Some (read_config name (fst e) false).
(** The working state is what the file says. *)
Definition in_sync name e : Prop := read_config name (fst e) (locked (snd e)) = Some (snd e).
(** What [reset_entry] makes of an entry. *)
Definition restore name e : entry P := (fst e, default (snd e) (read_config name (fst e) (locked (snd e)))).

Lemma read_config_Some name parser b c :
  read_config name parser b = Some c <->
  exists ps st, kf_get name (lit "profiles") parser = Some ps /\ kf_get name (lit "state") parser = Some st
  /\ kf_get name (lit "stream") parser = Some (stream c)
  /\ profiles c = Options.list_from_string ps /\ state c = fromString st /\ locked c = b.
Proof.
  unfold read_config. split.
  - intros E. repeat case_match; simplify_eq. simpl. eauto 10.
  - intros (ps & st & -> & -> & -> & E1 & E2 & E3). destruct c; simpl in *. by subst.
Qed.

Lemma readable_any name e b : readable name e -> is_Some (read_config name (fst e) b).
Proof.
  intros [c (ps & st & H1 & H2 & H3 & _)%read_config_Some]. unfold read_config. rewrite H1, H2, H3. eauto.
Qed.

Lemma reset_entry_ok p name e :
  p !! name = Some e -> readable name e -> reset_entry name p = (<[name := restore name e]> p, Ok tt).
Proof.
  destruct e as [parser c]. intros E Hr. apply (readable_any _ _ (locked c)) in Hr as [c' Hc']. simpl in Hc'.
  unfold restore. simpl. rewrite Hc'. simpl.
  apply read_config_Some in Hc' as (ps & st & H1 & H2 & H3 & E1 & E2 & E3).
  unfold reset_entry. called (getEntry_ok _ _ _ E). called (parsed_ok _ _ p H3).
  called (set_config_ok (with_stream (stream c')) _ _ _ _ E). called (parsed_ok _ _ (<[name := (parser, with_stream (stream c') c)]> p) H2).
  called (set_config_ok (with_state (fromString st)) _ _ _ _ (lookup_insert_eq p name (parser, with_stream (stream c') c))).
  rewrite insert_insert_eq. erewrite bind_ok by (apply parsed_ok, H1).
  rewrite (set_config_ok _ _ _ _ _ (lookup_insert_eq p name _)), insert_insert_eq.
  destruct c'; simpl in *. by subst.
Qed.

Lemma restore_readable name e : readable name e -> readable name (restore name e).
Proof. done. Qed.
Lemma restore_idem name e : readable name e -> restore name (restore name e) = restore name e.
Proof.
  intros Hr. unfold restore. simpl. f_equal. destruct (readable_any _ _ (locked (snd e)) Hr) as [c Hc].
  rewrite Hc. simpl. pose proof (proj1 (read_config_Some _ _ _ _) Hc) as (_ & _ & _ & _ & _ & _ & _ & ->). by rewrite Hc.
Qed.
Lemma restore_in_sync name e : in_sync name e -> restore name e = e.
Proof. unfold in_sync, restore. intros ->. by destruct e. Qed.
Lemma in_sync_readable name e : in_sync name e -> readable name e.
Proof. intros Hs. apply (readable_any name e false). unfold readable, in_sync in *.
  apply read_config_Some in Hs as (ps & st & H1 & H2 & H3 & _). unfold read_config. rewrite H1, H2, H3. eauto. Qed.

(** A loop that treats each entry on its own. *)
Lemma for_each_ok (f : cstr -> M unit) (g : cstr -> entry P -> entry P) (Q : cstr -> entry P -> Prop) names p :
  (forall p name e, p !! name = Some e -> Q name e -> f name p = (<[name := g name e]> p, Ok tt)) ->
  (forall name e, Q name e -> Q name (g name e) /\ g name (g name e) = g name e) ->
  (forall name, name ∈ names -> exists e, p !! name = Some e /\ Q name e) ->
  exists p', for_each names f p = (p', Ok tt)
  /\ forall name, p' !! name = if decide (name ∈ names) then g name <$> p !! name else p !! name.
Proof.
  intros Hf Hg. revert p. induction names as [|n names IH]; intros p Hn.
  - exists p. split; [done|]. intros name. by rewrite decide_False by apply not_elem_of_nil.
  - destruct (Hn n (list_elem_of_here _ _)) as (e & He & HQ). simpl. unfold bind. rewrite (Hf _ _ _ He HQ).
    destruct (IH (<[n := g n e]> p)) as (p' & -> & Hp').
    { intros name Hin. destruct (decide (name = n)) as [->|Hne].
      - rewrite lookup_insert_eq. exists (g n e). split; [done|]. by apply Hg.
      - rewrite lookup_insert_ne by done. apply Hn. by right. }
    exists p'. split; [done|]. intros name. rewrite Hp'. destruct (decide (name = n)) as [->|Hne].
    + rewrite lookup_insert_eq, He, (decide_True (P := n ∈ n :: names)) by left. simpl.
      destruct (decide (n ∈ names)); [|done]. f_equal. by apply Hg.
    + rewrite lookup_insert_ne by done. destruct (decide (name ∈ names)) as [Hi|Hi].
      * by rewrite decide_True by (by right).
      * rewrite decide_False; [done|]. by intros [?|?]%elem_of_cons.
Qed.

Lemma elem_of_names p name : name ∈ getAllModuleNames p <-> is_Some (p !! name).
Proof.
  unfold getAllModuleNames. rewrite list_elem_of_fmap. split.
  - intros ([n e] & -> & Hin). apply elem_of_rows in Hin. eauto.
  - intros [e He]. exists (name, e). split; [done|]. by apply elem_of_rows.
Qed.

Lemma all_names p name :
  (if decide (name ∈ getAllModuleNames p) then restore name <$> p !! name else p !! name) = restore name <$> p !! name.
Proof.
  destruct (decide _) as [|Hn]; [done|]. rewrite elem_of_names in Hn. apply eq_None_not_Some in Hn. by rewrite Hn.
Qed.

Lemma rollback_ok p :
  map_Forall readable p -> exists p', rollback p = (p', Ok tt) /\ forall name, p' !! name = restore name <$> p !! name.
Proof.
  intros Hr. destruct (for_each_ok reset_entry restore readable (getAllModuleNames p) p) as (p' & Hp & Hl).
  - apply reset_entry_ok.
  - intros name e Hq. split; [done|]. by apply restore_idem.
  - intros name [e He]%elem_of_names. exists e. split; [done|]. by apply Hr.
  - exists p'. split; [done|]. intros name. by rewrite Hl, all_names.
Qed.

(** The parsers, which only saving changes. *)
Definition files p : gmap cstr (P * bool) := (fun e => (fst e, locked (snd e))) <$> p.

Lemma files_set_config (f : Config -> Config) name fs :
  (forall c, locked (f c) = locked c) -> keeps (fun p => files p = fs) (set_config name f).
Proof.
  intros Hf p <-. unfold set_config, files. simpl. apply map_eq. intros i. rewrite !lookup_fmap.
  destruct (decide (i = name)) as [->|Hi]; [|by rewrite lookup_alter_ne].
  rewrite lookup_alter_eq. destruct (p !! name) as [[parser c]|]; [|done]. simpl. by rewrite Hf.
Qed.
Lemma files_run modules os p : files (run modules os p) = files p.
Proof.
  apply (keeps_run (fun p' => files p' = files p)); [..|done]; try (intros; by apply files_set_config).
  intros name s. unfold changeStream. eauto 15 using files_set_config with modules.
Qed.

(** C37. Rolling back undoes everything: whatever sequence of calls a program
    makes on modules that are as their files say, and whether those calls throw
    or not, after [rollback] the container is exactly what it was. *)
Theorem rollback_restores modules os p :
  map_Forall in_sync p -> rollback (run modules os p) = (p, Ok tt).
Proof.
  intros Hs. pose proof (files_run modules os p) as Hf.
  assert (He : forall name, (fun e => (fst e, locked (snd e))) <$> run modules os p !! name
                       = (fun e => (fst e, locked (snd e))) <$> p !! name).
  { intros name. rewrite <-!lookup_fmap. by f_equal. }
  destruct (rollback_ok (run modules os p)) as (p' & -> & Hp').
  - intros name e E. specialize (He name). rewrite E in He. destruct (p !! name) as [e'|] eqn:E'; [|done].
    simpl in He. injection He as He1 He2. apply Hs, in_sync_readable in E'. unfold readable in *. by rewrite He1.
  - f_equal. apply map_eq. intros name. rewrite Hp'. specialize (He name).
    destruct (run modules os p !! name) as [e|], (p !! name) as [e'|] eqn:E'; try done. simpl in *.
    injection He as He1 He2. rewrite <-(restore_in_sync name e') by (by apply Hs). f_equal. unfold restore. rewrite He1, He2.
    apply Hs in E'. unfold in_sync in E'. by rewrite E'.
Qed.

(** *** Streams *)

Lemma changeStream_ok p name s parser c s0 :
  p !! name = Some (parser, c) -> kf_get name (lit "stream") parser = Some s0 ->
  changeStream name s p =
  if decide (stream c = s) then (p, Ok false)
  else if decide (s0 <> stream c) then (p, Err (EnableMultipleStreams name))
  else (<[name := (parser, with_stream s c)]> p, Ok true).
Proof.
  intros E Hs. unfold changeStream. called (at_ok _ _ _ E). destruct (decide (stream c = s)); [done|].
  called (parsed_ok _ _ p Hs). destruct (decide (s0 <> stream c)); [done|].
  by called (set_config_ok (with_stream s) _ _ _ _ E).
Qed.
Lemma changeState_ok p name st parser c :
  p !! name = Some (parser, c) ->
  changeState name st p =
  if decide (state c = st) then (p, Ok false) else (<[name := (parser, with_state st c)]> p, Ok true).
Proof.
  intros E. unfold changeState. called (getEntry_ok _ _ _ E). destruct (decide (state c = st)); [done|].
  by called (set_config_ok (with_state st) _ _ _ _ E).
Qed.
Lemma clear_profiles_ok p name parser c :
  p !! name = Some (parser, c) -> clear_profiles name p = (<[name := (parser, with_profiles [] c)]> p, Ok tt).
Proof. intros E. unfold clear_profiles. called (getEntry_ok _ _ _ E). by rewrite (set_config_ok _ _ _ _ _ E). Qed.

Lemma enable_ok p name s parser c s0 :
  p !! name = Some (parser, c) -> kf_get name (lit "stream") parser = Some s0 ->
  enable name s p =
  if decide (stream c <> s /\ s0 <> stream c) then (p, Err (EnableMultipleStreams name))
  else if decide (stream c = s /\ state c = ENABLED) then (p, Ok false)
  else (<[name := (parser, mkConfig s [] ENABLED (locked c))]> p, Ok true).
Proof.
  intros E Hs. unfold enable. pose proof (changeStream_ok p name s parser c s0 E Hs) as H1.
  assert (Hdone : forall c', stream c' = s -> state c' = ENABLED -> locked c' = locked c ->
    (do! _ := clear_profiles name in ret true) (<[name := (parser, c')]> p)
    = (<[name := (parser, mkConfig s [] ENABLED (locked c))]> p, Ok true)).
  { intros c' <- <- <-. called (clear_profiles_ok _ _ _ _ (lookup_insert_eq p name (parser, c'))). by rewrite insert_insert_eq. }
  destruct (decide (stream c = s)) as [Es|Es].
  - rewrite decide_False by naive_solver. called H1. pose proof (changeState_ok p name ENABLED parser c E) as H2.
    destruct (decide (state c = ENABLED)) as [Et|Et]; called H2; cbn [orb].
    + by rewrite decide_True.
    + rewrite decide_False by naive_solver. by apply Hdone.
  - destruct (decide (s0 <> stream c)) as [Eo|Eo].
    + rewrite decide_True by done. erewrite bind_err by exact H1. done.
    + rewrite !decide_False by naive_solver. called H1.
      pose proof (changeState_ok _ name ENABLED parser _ (lookup_insert_eq p name (parser, with_stream s c))) as H2.
      simpl in H2. destruct (decide (state c = ENABLED)) as [Et|Et]; called H2; cbn [orb]; [by apply Hdone|].
      rewrite insert_insert_eq. by apply Hdone.
Qed.

(** What [enable] does to a loaded module, in every case: nothing if that
    stream is enabled already; the state becomes enabled and the profiles are
    dropped if the stream stays or is switched for the first time; an exception
    and no change at all if it was switched before; an unknown module is the
    exception of the map. *)
Theorem enable_spec p name s :
  map_Forall readable p ->
  match p !! name with
  | None => enable name s p = (p, Err OutOfRange)
  | Some (parser, c) =>
      exists s0, kf_get name (lit "stream") parser = Some s0 /\
      enable name s p =
      if decide (stream c <> s /\ s0 <> stream c) then (p, Err (EnableMultipleStreams name))
      else if decide (stream c = s /\ state c = ENABLED) then (p, Ok false)
      else (<[name := (parser, mkConfig s [] ENABLED (locked c))]> p, Ok true)
  end.
Proof.
  intros Hr. destruct (p !! name) as [[parser c]|] eqn:E.
  - destruct (Hr _ _ E) as [c0 (ps & st & H1 & H2 & H3 & _)%read_config_Some].
    exists (stream c0). split; [done|]. by apply enable_ok.
  - unfold enable, changeStream, at_, bind. by rewrite E.
Qed.

(** The stream of [name] is [s], which is not that of its file. *)
Definition switched name parser s p : Prop :=
  exists c, p !! name = Some (parser, c) /\ stream c = s.
Lemma switched_config (f : Config -> Config) name parser s n :
  (forall c, stream (f c) = stream c) -> keeps (switched name parser s) (set_config n f).
Proof.
  intros Hf p (c & E & Hs). unfold switched. destruct (decide (n = name)) as [->|Hn].
  - rewrite (set_config_ok _ _ _ _ _ E). simpl. rewrite lookup_insert_eq. exists (f c). by rewrite Hf.
  - unfold set_config. simpl. rewrite lookup_alter_ne by done. eauto.
Qed.
Lemma switched_stream name parser s s0 n s' :
  kf_get name (lit "stream") parser = Some s0 -> s <> s0 -> keeps (switched name parser s) (changeStream n s').
Proof.
  intros Hs Hne p (c & E & Hc). destruct (decide (n = name)) as [->|Hn].
  - rewrite (changeStream_ok _ _ _ _ _ _ E Hs). destruct (decide (stream c = s')); [by exists c|].
    rewrite decide_True by congruence. by exists c.
  - unfold changeStream, bind, at_. destruct (p !! n) as [[parser' c']|]; [|by exists c].
    destruct (decide _); [by exists c|]. unfold parsed. simpl. destruct (kf_get n _ parser') as [v|]; [|by exists c]. simpl.
    destruct (decide _); [by exists c|]. unfold set_config, switched. simpl. rewrite lookup_alter_ne by done. eauto.
Qed.

(** C39. A stream can be switched once between two savings: from then on no
    sequence of calls gives the module another stream, and every attempt to
    enable another one throws and changes nothing. *)
Theorem stream_switched_once modules os p name parser c s0 :
  p !! name = Some (parser, c) -> kf_get name (lit "stream") parser = Some s0 -> stream c <> s0 ->
  exists c', run modules os p !! name = Some (parser, c') /\ stream c' = stream c
  /\ forall s, s <> stream c -> enable name s (run modules os p) = (run modules os p, Err (EnableMultipleStreams name)).
Proof.
  intros E Hs Hne.
  assert (switched name parser (stream c) (run modules os p)) as (c' & E' & Hc').
  { apply keeps_run; [..|by exists c]; try (intros; by apply switched_config). intros n s. by apply (switched_stream _ _ _ s0). }
  exists c'. split_and!; [done..|]. intros s Hn. rewrite (enable_ok _ _ _ _ _ _ E' Hs). by rewrite decide_True by (split; congruence).
Qed.

(** *** Saving *)

(** The state that a file can hold: it has no words for the others. *)
Definition saved_state (st : ModuleState) : ModuleState := fromString (toString st).
Definition saved_config (c : Config) : Config := with_state (saved_state (state c)) c.
(** Profiles that the list of the file can hold. *)
Definition clean (name : cstr) e : Prop :=
  Forall Options.clean_item (profiles (snd e)) /\ last (profiles (snd e)) <> Some [].
(** The file holds the state. *)
Definition saved name e : Prop :=
  exists ps, kf_get name (lit "state") (fst e) = Some (toString (state (snd e)))
  /\ kf_get name (lit "stream") (fst e) = Some (stream (snd e))
  /\ kf_get name (lit "profiles") (fst e) = Some ps /\ Options.list_from_string ps = profiles (snd e).

Lemma saved_readable name e : saved name e -> readable name e.
Proof.
  intros (ps & H1 & H2 & H3 & _). unfold readable, read_config. rewrite H1, H2, H3. eauto.
Qed.
Lemma saved_read name e : saved name e -> read_config name (fst e) (locked (snd e)) = Some (saved_config (snd e)).
Proof.
  intros (ps & H1 & H2 & H3 & H4). unfold read_config. rewrite H1, H2, H3, H4. by destruct (snd e).
Qed.

Lemma update_value_ok p name key same value parser c v :
  p !! name = Some (parser, c) -> kf_get name key parser = Some v -> same value = true ->
  exists parser' v', update_value name key same value p = (<[name := (parser', c)]> p, Ok (negb (same v)))
  /\ kf_get name key parser' = Some v' /\ (v' = value \/ same v = true /\ v' = v)
  /\ (forall k, k <> key -> kf_get name k parser' = kf_get name k parser)
  /\ (same v = true -> parser' = parser).
Proof.
  intros E Hv Hsame. unfold update_value. called (getEntry_ok _ _ _ E). rewrite Hv.
  assert (kf_has_option name key parser = true) as -> by (apply kf_has_get; eauto).
  destruct (same v) eqn:Es; simpl.
  - exists parser, v. split_and!; auto. by rewrite insert_id.
  - destruct (kf_set_total name key value parser (kf_get_section _ _ _ _ Hv)) as [parser' Hp].
    exists parser', value. split_and!; auto; [| |intros k Hk|done].
    + unfold set_option.
      assert (Hset : (do! e := getEntry name in do! q := parsed (kf_set name key value (fst e)) in set_parser name q) p
        = (<[name := (parser', c)]> p, Ok tt)).
      { called (getEntry_ok _ _ _ E). called (parsed_ok _ _ p Hp). by rewrite (set_parser_ok _ _ _ _ _ E). }
      by called Hset.
    + rewrite (kf_set_get _ _ _ _ _ _ _ Hp). by rewrite decide_True.
    + rewrite (kf_set_get _ _ _ _ _ _ _ Hp). rewrite decide_False; [done|]. by intros [= ->].
Qed.

Lemma getState_ok p name parser c : p !! name = Some (parser, c) -> getState name p = (p, Ok (state c)).
Proof. intros E. unfold getState. by called (getEntry_ok _ _ _ E). Qed.
Lemma getStream_ok p name parser c : p !! name = Some (parser, c) -> getStream name p = (p, Ok (stream c)).
Proof. intros E. unfold getStream. by called (getEntry_ok _ _ _ E). Qed.
Lemma getProfiles_ok p name parser c : p !! name = Some (parser, c) -> getProfiles name p = (p, Ok (profiles c)).
Proof. intros E. unfold getProfiles. by called (getEntry_ok _ _ _ E). Qed.

#[local] Instance saved_dec name e : Decision (saved name e).
Proof.
  unfold saved. destruct (kf_get name (lit "profiles") (fst e)) as [ps|].
  - destruct (decide (kf_get name (lit "state") (fst e) = Some (toString (state (snd e)))
      /\ kf_get name (lit "stream") (fst e) = Some (stream (snd e)) /\ Options.list_from_string ps = profiles (snd e)))
      as [(H1 & H2 & H3)|Hn]; [left; by exists ps|]. right. intros (ps' & H1 & H2 & [= <-] & H3). by apply Hn.
  - right. by intros (ps & _ & _ & [=] & _).
Defined.

Lemma update_ok p name parser c :
  p !! name = Some (parser, c) -> readable name (parser, c) -> clean name (parser, c) ->
  exists parser', update name p = (<[name := (parser', c)]> p, Ok (negb (bool_decide (saved name (parser, c)))))
  /\ saved name (parser', c) /\ (saved name (parser, c) -> parser' = parser).
Proof.
  intros E [c0 (ps & st & H1 & H2 & H3 & _)%read_config_Some] [Hc Hl]. simpl in *. unfold update.
  called (getState_ok _ _ _ _ E).
  destruct (update_value_ok p name (lit "state") (fun v => bool_decide (v = toString (state c))) (toString (state c)) _ _ _ E H2)
    as (p1 & v1 & U1 & G1 & V1 & O1 & Same1); [by apply bool_decide_eq_true|]. called U1.
  pose proof (lookup_insert_eq p name (p1, c)) as E1. called (getStream_ok _ _ _ _ E1).
  rewrite <-O1 in H3 by done.
  destruct (update_value_ok _ name (lit "stream") (fun v => bool_decide (v = stream c)) (stream c) _ _ _ E1 H3)
    as (p2 & v2 & U2 & G2 & V2 & O2 & Same2); [by apply bool_decide_eq_true|]. called U2. rewrite insert_insert_eq in *.
  pose proof (lookup_insert_eq p name (p2, c)) as E2. called (getProfiles_ok _ _ _ _ E2).
  rewrite <-O1, <-O2 in H1 by done.
  destruct (update_value_ok _ name (lit "profiles") (fun v => bool_decide (Options.list_from_string v = profiles c))
    (Options.list_to_string (profiles c)) _ _ _ E2 H1)
    as (p3 & v3 & U3 & G3 & V3 & O3 & Same3); [by apply bool_decide_eq_true, Options.list_from_to|].
  called U3. rewrite insert_insert_eq in *. exists p3.
  rewrite O1 in H3 by done. rewrite O2, O1 in H1 by done.
  assert (Hb : saved name (parser, c) <-> st = toString (state c) /\ stream c0 = stream c /\ Options.list_from_string ps = profiles c).
  { unfold saved. simpl. rewrite H1, H2, H3. split.
    - intros (ps' & Hst & Hs & Hps & Hp). injection Hst as ->. injection Hs as ->. injection Hps as ->. done.
    - intros (-> & -> & Hp). by exists ps. }
  assert (Hs : saved name (p3, c)).
  { exists v3. simpl. split_and!.
    - rewrite O3, O2, G1 by done. destruct V1 as [->|[Hb1%bool_decide_eq_true ->]]; congruence.
    - rewrite O3, G2 by done. destruct V2 as [->|[Hb1%bool_decide_eq_true ->]]; congruence.
    - done.
    - destruct V3 as [->|[Hb1%bool_decide_eq_true ->]]; [by apply Options.list_from_to|done]. }
  split_and!; [|done|].
  - unfold ret. rewrite <-!negb_andb, <-!bool_decide_and, (bool_decide_ext _ (saved name (parser, c))); [done|].
    rewrite Hb. tauto.
  - intros (Ha & Hs1 & Hp)%Hb. rewrite Same3, Same2, Same1; [done|by apply bool_decide_eq_true..].
Qed.

Lemma save_loop_ok names acc p :
  (forall name, name ∈ names -> exists e, p !! name = Some e /\ readable name e /\ clean name e) ->
  exists p' w, save_loop names acc p = (p', Ok (acc ++ w))
  /\ (forall name, p' !! name = p !! name \/ name ∈ names /\ exists parser c q,
       p !! name = Some (parser, c) /\ p' !! name = Some (q, c) /\ saved name (q, c))
  /\ (forall name e, name ∈ names -> p' !! name = Some e -> saved name e)
  /\ (forall name e, p !! name = Some e -> saved name e -> p' !! name = Some e)
  /\ (forall name, name ∈ map fst w <-> name ∈ names /\ exists e, p !! name = Some e /\ ~ saved name e)
  /\ (forall name text, (name, text) ∈ w -> exists e, p' !! name = Some e /\ text = kf_write (fst e)).
Proof.
  revert acc p. induction names as [|n names IH]; intros acc p Hn.
  - exists p, []. rewrite app_nil_r. split_and!; [done|auto|intros ? ? []%not_elem_of_nil|done| |intros ? ? []%not_elem_of_nil].
    intros name. simpl. split; [intros []%not_elem_of_nil|intros [[]%not_elem_of_nil _]].
  - destruct (Hn n (list_elem_of_here _ _)) as ([parser c] & E & Hr & Hc).
    destruct (update_ok p n parser c E Hr Hc) as (q & U & Hs & Hid). simpl. called U.
    pose proof (lookup_insert_eq p n (q, c)) as Eq. called (getEntry_ok _ _ _ Eq).
    set (changed := negb (bool_decide (saved n (parser, c)))).
    destruct (IH (if changed then acc ++ [(n, kf_write q)] else acc) (<[n := (q, c)]> p)) as (p' & w & W & H1 & H2 & H3 & H4 & H5).
    { intros name Hin. destruct (decide (name = n)) as [->|Hne].
      - exists (q, c). split; [done|]. split; [by apply saved_readable|done].
      - rewrite lookup_insert_ne by done. apply Hn. by right. }
    exists p', ((if changed then [(n, kf_write q)] else []) ++ w).
    assert (Hn' : p' !! n = Some (q, c)) by (by apply H3).
    split_and!.
    + rewrite W. f_equal. f_equal. destruct changed; [by rewrite <-app_assoc|done].
    + intros name. destruct (decide (name = n)) as [->|Hne].
      * right. split; [left|]. by exists parser, c, q.
      * specialize (H1 name). rewrite lookup_insert_ne in H1 by done. destruct H1 as [H1|[Hin H1]]; [by left|right].
        split; [by right|done].
    + intros name e Hin He. destruct (decide (name = n)) as [->|Hne]; [congruence|].
      apply elem_of_cons in Hin as [->|Hin]; [done|]. by apply H2.
    + intros name e He Hse. destruct (decide (name = n)) as [->|Hne].
      * rewrite Hn'. rewrite E in He. injection He as <-. by rewrite Hid.
      * apply H3; [by rewrite lookup_insert_ne|done].
    + intros name. rewrite map_app, elem_of_app, H4. unfold changed. rewrite elem_of_cons.
      destruct (decide (name = n)) as [->|Hne].
      * rewrite Eq, E. destruct (bool_decide (saved n (parser, c))) eqn:Eb; simpl; reflect_bools.
        -- split; [intros [[]%not_elem_of_nil|(_ & e & [= <-] & Hx)]; done|intros [_ (e & [= <-] & Hx)]; done].
        -- split; [|intros _; left; by left]. intros _. split; [by left|eauto].
      * rewrite lookup_insert_ne by done. destruct (bool_decide _); simpl; [rewrite elem_of_nil|rewrite list_elem_of_singleton]; tauto.
    + intros name text [Hin|Hin]%elem_of_app; [|by apply H5]. destruct changed; [|by apply not_elem_of_nil in Hin].
      apply list_elem_of_singleton in Hin as [= -> ->]. eauto.
Qed.

(** *** The reports *)

Lemma report_ok {A : Type} (f : cstr -> entry P -> option (option A)) l :
  (forall name e, (name, e) ∈ l -> is_Some (f name e)) ->
  exists r, report f l = Some r /\ forall name a, (name, a) ∈ r <-> exists e, (name, e) ∈ l /\ f name e = Some (Some a).
Proof.
  induction l as [|[n e] l IH]; intros Hf.
  - exists []. split; [done|]. intros name a. split; [intros []%not_elem_of_nil|]. intros (? & []%not_elem_of_nil & _).
  - destruct (Hf n e (list_elem_of_here _ _)) as [x Hx]. destruct IH as (r & Hr & Hin); [intros; apply Hf; by right|].
    simpl. rewrite Hx, Hr. eexists. split; [done|]. intros name a.
    destruct x as [b|]; [rewrite elem_of_cons|]; rewrite Hin; setoid_rewrite elem_of_cons; split.
    + intros [[= -> ->]|(e' & He & Hf')]; eauto.
    + intros (e' & [[= -> ->]|He] & Hf'); [left; congruence|right; eauto].
    + intros (e' & He & Hf'); eauto.
    + intros (e' & [[= -> ->]|He] & Hf'); [congruence|eauto].
Qed.

Lemma reported_ok {A : Type} (f : cstr -> entry P -> option (option A)) p :
  (forall name e, p !! name = Some e -> is_Some (f name e)) ->
  exists r, reported f p = (p, Ok r)
  /\ forall name a, (name, a) ∈ r <-> exists e, p !! name = Some e /\ f name e = Some (Some a).
Proof.
  intros Hf. unfold reported. destruct (report_ok f (rows p)) as (r & Hr & Hin).
  - intros name e He%elem_of_rows. by apply Hf.
  - exists r. rewrite Hr. split; [done|]. intros name a. rewrite Hin. by setoid_rewrite elem_of_rows.
Qed.

(** What the file says of [e]. *)
Definition filed name e (ps : list cstr) (st : ModuleState) (s : cstr) : Prop :=
  kf_get name (lit "stream") (fst e) = Some s /\ fromString <$> kf_get name (lit "state") (fst e) = Some st
  /\ Options.list_from_string <$> kf_get name (lit "profiles") (fst e) = Some ps.

Lemma readable_filed name e : readable name e <-> exists ps st s, filed name e ps st s.
Proof.
  unfold readable, filed. split.
  - intros [c (ps & st & H1 & H2 & H3 & _)%read_config_Some]. rewrite H1, H2, H3. by do 3 eexists.
  - intros (ps & st & s & H1 & (st' & H2 & _)%fmap_Some & (ps' & H3 & _)%fmap_Some). unfold read_config.
    rewrite H1, H2, H3. eauto.
Qed.

(** No report mentions the module: what the file says against the working state. *)
Definition no_enabled st (_ : cstr) (c : Config) : Prop := st <> ENABLED -> state c <> ENABLED.
Definition no_disabled st (_ : cstr) (c : Config) : Prop := st <> DISABLED -> state c <> DISABLED.
Definition no_reset st (_ : cstr) (c : Config) : Prop := idle st = false -> idle (state c) = false.
Definition no_switch (_ : ModuleState) (s : cstr) (c : Config) : Prop := s = [] \/ stream c = [] \/ s = stream c.
Definition quiet_values ps st s (c : Config) : Prop :=
  no_enabled st s c /\ no_disabled st s c /\ no_reset st s c /\ no_switch st s c /\ profiles c ≡ₚ ps.
Definition quiet name e : Prop := exists ps st s, filed name e ps st s /\ quiet_values ps st s (snd e).

Definition sort_entry (e : entry P) : entry P := (fst e, with_profiles (sort_strings (profiles (snd e))) (snd e)).
Lemma sort_strings_idem l : sort_strings (sort_strings l) = sort_strings l.
Proof. apply sort_strings_eq, sort_strings_Permutation. Qed.

Lemma profile_changes_ok diff names acc p :
  (forall name, name ∈ names -> exists e, p !! name = Some e /\ readable name e) ->
  exists p' r, profile_changes diff names acc p = (p', Ok (acc ++ r))
  /\ (forall name, p' !! name = p !! name \/ p' !! name = sort_entry <$> p !! name)
  /\ (forall name d, (name, d) ∈ r <-> name ∈ names /\ d <> [] /\ exists e ps st s, p !! name = Some e /\ filed name e ps st s
       /\ d = diff (sort_strings (profiles (snd e))) (sort_strings ps)).
Proof.
  revert acc p. induction names as [|n names IH]; intros acc p Hn.
  - exists p, []. rewrite app_nil_r. split_and!; [done|auto|]. intros name d.
    split; [intros []%not_elem_of_nil|intros [[]%not_elem_of_nil _]].
  - destruct (Hn n (list_elem_of_here _ _)) as ([parser c] & E & (ps & st & s & Hfd)%readable_filed).
    simpl. called (getEntry_ok _ _ _ E). pose proof Hfd as (Hs & Hst & (v & Hv & Hps)%fmap_Some). simpl in *.
    called (parsed_ok _ _ p Hv). called (set_config_ok (with_profiles (sort_strings (profiles c))) _ _ _ _ E).
    rewrite <-Hps. set (d0 := diff (sort_strings (profiles c)) (sort_strings ps)).
    destruct (IH (if decide (d0 = []) then acc else acc ++ [(n, d0)]) (<[n := sort_entry (parser, c)]> p)) as (p' & r & R & H1 & H2).
    { intros name Hin. destruct (decide (name = n)) as [->|Hne].
      - rewrite lookup_insert_eq. eexists. split; [done|]. apply readable_filed. by exists ps, st, s.
      - rewrite lookup_insert_ne by done. apply Hn. by right. }
    exists p', ((if decide (d0 = []) then [] else [(n, d0)]) ++ r). split_and!.
    + etrans; [exact R|]. f_equal. f_equal. destruct (decide _); [done|by rewrite <-app_assoc].
    + intros name. destruct (decide (name = n)) as [->|Hne].
      * right. destruct (H1 n) as [->| ->]; rewrite lookup_insert_eq, E; [done|]. simpl. unfold sort_entry. simpl. by rewrite sort_strings_idem.
      * specialize (H1 name). by rewrite lookup_insert_ne in H1.
    + intros name d. rewrite elem_of_app, H2. destruct (decide (name = n)) as [->|Hne].
      * rewrite lookup_insert_eq, E. split.
        -- intros [Hd|(_ & Hd & e & ps' & st' & s' & [= <-] & Hfd' & ->)].
           ++ destruct (decide (d0 = [])) as [|Hd0]; [by apply not_elem_of_nil in Hd|]. apply list_elem_of_singleton in Hd as [= ->].
              split_and!; [left|done|]. by exists (parser, c), ps, st, s.
           ++ split_and!; [left|done|]. exists (parser, c), ps', st', s'. simpl. by rewrite sort_strings_idem.
        -- intros (_ & Hd & e & ps' & st' & s' & [= <-] & (_ & _ & Hps') & ->). left. simpl in *.
           rewrite Hv in Hps'. injection Hps' as <-. rewrite <-Hps in *. fold d0 in Hd |- *.
           rewrite decide_False by done. by apply list_elem_of_singleton.
      * rewrite lookup_insert_ne by done. destruct (decide (d0 = [])); [rewrite elem_of_nil|rewrite list_elem_of_singleton];
          rewrite elem_of_cons; naive_solver.
Qed.

(** [std::set_difference] both ways finds nothing only for equal ranges. *)
Lemma set_difference_both (a b : list cstr) :
  Sets.set_difference str_ltb a b = [] -> Sets.set_difference str_ltb b a = [] -> a = b.
Proof.
  rewrite !Sets.set_difference_merge. revert a b.
  apply (Sets.two_lists_ind (fun a b => Sets.merge str_ltb true false false a b = [] ->
    Sets.merge str_ltb true false false b a = [] -> a = b)).
  - intros b _. by rewrite Sets.merge_nil_r.
  - intros a H1 _. by rewrite Sets.merge_nil_r in H1.
  - intros x a y b IH1 IH2 IH3. rewrite !Sets.merge_cons.
    destruct (str_ltb_tricho x y) as [Hlt|[->|Hlt]].
    + by rewrite Hlt.
    + rewrite !str_ltb_irrefl. simpl. intros H1 H2. by rewrite IH3.
    + intros _. by rewrite Hlt.
Qed.
Lemma set_difference_same (a : list cstr) : Sets.set_difference str_ltb a a = [].
Proof.
  rewrite Sets.set_difference_merge. induction a as [|x a IH]; [done|]. rewrite Sets.merge_cons, str_ltb_irrefl. done.
Qed.

Lemma filed_det name e ps st s ps' st' s' :
  filed name e ps st s -> filed name e ps' st' s' -> ps' = ps /\ st' = st /\ s' = s.
Proof. unfold filed. intros (-> & -> & ->) (H1 & H2 & H3). naive_solver. Qed.
Lemma filed_sorted name e ps st s : filed name (sort_entry e) ps st s <-> filed name e ps st s.
Proof. done. Qed.

Lemma enabled_filed name e ps st s :
  filed name e ps st s -> exists x, enabled_stream name e = Some x /\ (x = None <-> no_enabled st s (snd e)).
Proof.
  intros (_ & Hst & _). unfold enabled_stream, oldState, no_enabled. rewrite Hst. eexists. split; [done|].
  repeat case_bool_decide; simpl; naive_solver.
Qed.
Lemma disabled_filed name e ps st s :
  filed name e ps st s -> exists x, disabled_module name e = Some x /\ (x = None <-> no_disabled st s (snd e)).
Proof.
  intros (_ & Hst & _). unfold disabled_module, oldState, no_disabled. rewrite Hst. eexists. split; [done|].
  repeat case_bool_decide; simpl; naive_solver.
Qed.
Lemma reset_filed name e ps st s :
  filed name e ps st s -> exists x, reset_module name e = Some x /\ (x = None <-> no_reset st s (snd e)).
Proof.
  intros (_ & Hst & _). unfold reset_module, oldState, no_reset. rewrite Hst. eexists. split; [done|].
  destruct (idle st), (idle (state (snd e))); naive_solver.
Qed.
Lemma switch_filed name e ps st s :
  filed name e ps st s -> exists x, stream_switch name e = Some x /\ (x = None <-> no_switch st s (snd e)).
Proof.
  intros (Hs & _). unfold stream_switch, no_switch. rewrite Hs. eexists. split; [done|].
  repeat case_bool_decide; naive_solver.
Qed.


(** The working profiles may have been sorted. *)
Definition near p p' : Prop := forall name, p' !! name = p !! name \/ p' !! name = sort_entry <$> p !! name.
Lemma near_refl p : near p p.
Proof. by left. Qed.
Lemma near_lookup p p' name e' :
  near p p' -> p' !! name = Some e' -> exists e, p !! name = Some e /\ (e' = e \/ e' = sort_entry e).
Proof. intros Hn E. destruct (Hn name) as [Hx|Hx]; rewrite E in Hx; [eauto|]. symmetry in Hx. apply fmap_Some in Hx as (e & He & ->). eauto. Qed.
Lemma near_trans p p' p'' : near p p' -> near p' p'' -> near p p''.
Proof.
  intros H1 H2 n. destruct (H1 n) as [E1|E1], (H2 n) as [E2|E2]; rewrite E2, E1; auto.
  right. destruct (p !! n); [|done]. simpl. unfold sort_entry. simpl. by rewrite sort_strings_idem.
Qed.
Lemma near_readable p p' : near p p' -> map_Forall readable p -> map_Forall readable p'.
Proof. intros Hn Hr name e' E. destruct (near_lookup _ _ _ _ Hn E) as (e & He & [->| ->]); exact (Hr _ _ He). Qed.

(** [Q] holds of every module. *)
Definition all p (Q : list cstr -> ModuleState -> cstr -> Config -> Prop) : Prop :=
  forall name e ps st s, p !! name = Some e -> filed name e ps st s -> Q ps st s (snd e).
Lemma all_and p Q1 Q2 : all p (fun ps st s c => Q1 ps st s c /\ Q2 ps st s c) <-> all p Q1 /\ all p Q2.
Proof. unfold all. split; [|naive_solver]. intros Ha. split; intros; by eapply Ha. Qed.
Lemma all_near p p' (Q : list cstr -> ModuleState -> cstr -> Config -> Prop) :
  (forall ps st s c, Q ps st s (with_profiles (sort_strings (profiles c)) c) <-> Q ps st s c) ->
  near p p' -> all p' Q <-> all p Q.
Proof.
  intros Hq Hn. split; intros Ha name e ps st s He Hfd.
  - destruct (Hn name) as [E|E]; rewrite He in E; [by eapply Ha|]. apply Hq. by apply (Ha name (sort_entry e) ps st s).
  - destruct (near_lookup _ _ _ _ Hn He) as (e0 & He0 & [->| ->]); [by eapply Ha|]. apply Hq. by apply (Ha name e0 ps st s).
Qed.

(** [m] says whether [Q] fails for a module. *)
Definition answers (m : M bool) (Q : list cstr -> ModuleState -> cstr -> Config -> Prop) : Prop :=
  forall p, map_Forall readable p -> exists p' b, m p = (p', Ok b) /\ near p p' /\ (b = false <-> all p Q).

Lemma answers_ret : answers (ret false) (fun _ _ _ _ => True).
Proof. intros p _. exists p, false. split_and!; [done|apply near_refl|]. by unfold all. Qed.

Lemma answers_report {A : Type} (f : cstr -> entry P -> option (option A)) Q1 (k : M bool) Q2 :
  (forall name e ps st s, filed name e ps st s -> exists x, f name e = Some x /\ (x = None <-> Q1 st s (snd e))) ->
  answers k Q2 -> answers (or_else (reported f) k) (fun ps st s c => Q1 st s c /\ Q2 ps st s c).
Proof.
  intros Hf Hk p Hr. destruct (reported_ok f p) as (r & E & Hin).
  { intros name e (ps & st & s & Hfd)%Hr%readable_filed. destruct (Hf _ _ _ _ _ Hfd) as (x & -> & _). eauto. }
  unfold or_else. called E. destruct r as [|[n a] r].
  - destruct (Hk p Hr) as (p' & b & -> & Hn & Hb). exists p', b. split_and!; [done..|]. rewrite all_and, Hb.
    split; [|tauto]. intros Ha. split; [|done]. intros name e ps st s He Hfd.
    destruct (Hf _ _ _ _ _ Hfd) as ([x|] & Hx & Hq); [|by apply Hq].
    exfalso. apply (not_elem_of_nil (name, x)), Hin. eauto.
  - exists p, true. split_and!; [done|apply near_refl|]. rewrite all_and. split; [done|]. intros [Ha _]. exfalso.
    destruct (proj1 (Hin n a)) as (e & He & Hx); [left|]. pose proof (Hr _ _ He) as (ps & st & s & Hfd)%readable_filed.
    destruct (Hf _ _ _ _ _ Hfd) as (x & Hx' & Hq). assert (x = None) by (by apply Hq, (Ha n e ps st s)). congruence.
Qed.

Lemma answers_profiles (diff : list cstr -> list cstr -> list cstr) (k : M bool) (Q2 : list cstr -> ModuleState -> cstr -> Config -> Prop) :
  (forall ps st s c, Q2 ps st s (with_profiles (sort_strings (profiles c)) c) <-> Q2 ps st s c) ->
  answers k Q2 ->
  answers (or_else (fun p => profile_changes diff (getAllModuleNames p) [] p) k)
    (fun ps st s c => diff (sort_strings (profiles c)) (sort_strings ps) = [] /\ Q2 ps st s c).
Proof.
  intros Hq Hk p Hr. destruct (profile_changes_ok diff (getAllModuleNames p) [] p) as (p1 & r & R & Hn1 & Hin).
  { intros name [e He]%elem_of_names. exists e. split; [done|]. by apply Hr. }
  unfold or_else. called R. simpl. destruct r as [|[n d] r].
  - destruct (Hk p1 (near_readable _ _ Hn1 Hr)) as (p' & b & -> & Hn & Hb). exists p', b.
    split_and!; [done|by eapply near_trans|]. rewrite all_and, Hb, (all_near p p1) by done.
    split; [|tauto]. intros Ha. split; [|done]. intros name e ps st s He Hfd. apply dec_stable. intros Hd.
    apply (not_elem_of_nil (name, diff (sort_strings (profiles (snd e))) (sort_strings ps))), Hin.
    split_and!; [apply elem_of_names; eauto|done|]. by exists e, ps, st, s.
  - exists p1, true. split_and!; [done..|]. rewrite all_and. split; [done|]. intros [Ha _]. exfalso.
    destruct (proj1 (Hin n d)) as (_ & Hd & e & ps & st & s & He & Hfd & ->); [left|]. by apply Hd, (Ha n e ps st s).
Qed.

Lemma isChanged_answers : answers isChanged quiet_values.
Proof.
  assert (Ha : answers isChanged (fun ps st s c => no_enabled st s c /\ no_disabled st s c /\ no_reset st s c /\ no_switch st s c
    /\ Sets.set_difference str_ltb (sort_strings (profiles c)) (sort_strings ps) = []
    /\ Sets.set_difference str_ltb (sort_strings ps) (sort_strings (profiles c)) = [] /\ True)).
  { unfold isChanged.
    apply (answers_report _ no_enabled); [apply enabled_filed|]. apply (answers_report _ no_disabled); [apply disabled_filed|].
    apply (answers_report _ no_reset); [apply reset_filed|]. apply (answers_report _ no_switch); [apply switch_filed|].
    apply (answers_profiles (fun new old => Sets.set_difference str_ltb new old)).
    { intros ps st s c. simpl. by rewrite sort_strings_idem. }
    by apply (answers_profiles (fun new old => Sets.set_difference str_ltb old new)), answers_ret. }
  intros p Hr. destruct (Ha p Hr) as (p' & b & E & Hn & Hb). exists p', b. split_and!; [done..|]. rewrite Hb.
  assert (Heq : forall ps c, Sets.set_difference str_ltb (sort_strings (profiles c)) (sort_strings ps) = []
    /\ Sets.set_difference str_ltb (sort_strings ps) (sort_strings (profiles c)) = [] <-> profiles c ≡ₚ ps).
  { intros ps c. rewrite <-sort_strings_eq. split; [intros [H1 H2]; by apply set_difference_both|].
    intros ->. by rewrite set_difference_same. }
  unfold all, quiet_values. split; intros Hq name e ps st s He Hfd; specialize (Hq name e ps st s He Hfd); rewrite <-Heq in *; tauto.
Qed.

(** *** What holds of saving and of [isChanged] *)

Lemma save_ok p :
  map_Forall readable p -> map_Forall clean p ->
  exists p' w, save p = (p', Ok w)
  /\ (forall name, p' !! name = p !! name \/ exists parser c q, p !! name = Some (parser, c) /\ p' !! name = Some (q, c))
  /\ map_Forall saved p'
  /\ (forall name, name ∈ map fst w <-> exists e, p !! name = Some e /\ ~ saved name e)
  /\ (forall name text, (name, text) ∈ w -> exists e, p' !! name = Some e /\ text = kf_write (fst e)).
Proof.
  intros Hr Hc. destruct (save_loop_ok (getAllModuleNames p) [] p) as (p' & w & E & H1 & H2 & H3 & H4 & H5).
  { intros name [e He]%elem_of_names. exists e. split_and!; [done|by apply Hr|by apply Hc]. }
  exists p', w. split_and!; [done| | | |done].
  - intros name. destruct (H1 name) as [?|(_ & parser & c & q & Hp & Hp' & _)]; [by left|]. right. by exists parser, c, q.
  - intros name e He. apply H2; [|done]. apply elem_of_names.
    destruct (H1 name) as [<-|(_ & parser & c & q & -> & _)]; eauto.
  - intros name. rewrite H4, elem_of_names. split; [naive_solver|]. intros (e & He & Hn). eauto.
Qed.
Lemma save_again p : map_Forall saved p -> map_Forall clean p -> save p = (p, Ok []).
Proof.
  intros Hs Hc. destruct (save_loop_ok (getAllModuleNames p) [] p) as (p' & w & E & H1 & H2 & H3 & H4 & H5).
  { intros name [e He]%elem_of_names. exists e. split_and!; [done|by apply saved_readable, Hs|by apply Hc]. }
  unfold save. rewrite E. f_equal.
  - apply map_eq. intros name. destruct (p !! name) as [e|] eqn:He; [by apply H3, Hs|].
    destruct (H1 name) as [->|(_ & parser & c & q & Hp & _)]; congruence.
  - destruct w as [|[n t] w]; [done|]. exfalso. destruct (proj1 (H4 n)) as (_ & e & He & Hn); [left|]. by apply Hn, Hs.
Qed.
Lemma saved_quiet p : map_Forall saved p -> all p quiet_values.
Proof.
  intros Hs name e ps st s He (H1 & H2 & H3). destruct (Hs _ _ He) as (ps' & G1 & G2 & G3 & G4).
  rewrite G1 in H2. rewrite G2 in H1. rewrite G3 in H3. simpl in *. injection H1 as <-. injection H2 as <-. injection H3 as <-.
  unfold quiet_values, no_enabled, no_disabled, no_reset, no_switch. split_and!; [| | |by auto|by rewrite G4].
  all: by destruct (state (snd e)).
Qed.

(** C38. After saving there is nothing to save: the files that were written are
    exactly those of modules whose file said something else, with the text of
    the new configuration; the working state is untouched and every file holds
    it; saving again writes no file and [isChanged] answers no. *)
Theorem save_then_unchanged p :
  map_Forall readable p -> map_Forall clean p ->
  exists p' w, save p = (p', Ok w)
  /\ (forall name, p' !! name = p !! name \/ exists parser c q, p !! name = Some (parser, c) /\ p' !! name = Some (q, c))
  /\ map_Forall saved p'
  /\ (forall name, name ∈ map fst w <-> exists e, p !! name = Some e /\ ~ saved name e)
  /\ (forall name text, (name, text) ∈ w -> exists e, p' !! name = Some e /\ text = kf_write (fst e))
  /\ save p' = (p', Ok []) /\ exists p'', isChanged p' = (p'', Ok false).
Proof.
  intros Hr Hc. destruct (save_ok p Hr Hc) as (p' & w & E & H1 & H2 & H3 & H4). exists p', w. split_and!; [done..| |].
  - apply save_again; [done|]. intros name e He. destruct (H1 name) as [Hp|(parser & c & q & Hp & Hp')].
    + apply Hc. congruence.
    + rewrite He in Hp'. injection Hp' as ->. exact (Hc _ _ Hp).
  - destruct (isChanged_answers p') as (p'' & b & E' & _ & Hb).
    { intros name e He. by apply saved_readable, H2. }
    exists p''. rewrite E'. f_equal. f_equal. by apply Hb, saved_quiet.
Qed.

(** What [isChanged] notices and what it does not: it answers no exactly if
    no module has become enabled or disabled, none was reset, no stream was
    replaced by another one (neither being empty) and the profiles are the same
    up to their order. It always answers, and changes at most the order of the
    working profiles. *)
Theorem is_changed_spec p :
  map_Forall readable p ->
  exists p' b, isChanged p = (p', Ok b) /\ (b = false <-> map_Forall quiet p)
  /\ forall name, p' !! name = p !! name \/ p' !! name = sort_entry <$> p !! name.
Proof.
  intros Hr. destruct (isChanged_answers p Hr) as (p' & b & E & Hn & Hb). exists p', b. split_and!; [done| |done].
  rewrite Hb. split.
  - intros Hq name e He. destruct (proj1 (readable_filed _ _) (Hr _ _ He)) as (ps & st & s & Hfd).
    exists ps, st, s. split; [done|]. by apply (Hq name e).
  - intros Hq name e ps st s He Hfd. destruct (Hq _ _ He) as (ps' & st' & s' & Hfd' & Hv).
    by destruct (filed_det _ _ _ _ _ _ _ _ Hfd Hfd') as (-> & -> & ->).
Qed.

(** *** Loading *)

Definition complete name (parser : P) : bool :=
  kf_has_option name (lit "stream") parser && kf_has_option name (lit "profiles") parser
  && (kf_has_option name (lit "state") parser || kf_has_option name (lit "enabled") parser).
(** What a complete file says; the old option [enabled] comes first. *)
Definition loaded name (parser : P) (c : Config) : Prop :=
  exists st ps, kf_get name (lit "stream") parser = Some (stream c)
  /\ kf_get name (if kf_has_option name (lit "enabled") parser then lit "enabled" else lit "state") parser = Some st
  /\ kf_get name (lit "profiles") parser = Some ps
  /\ state c = fromString st /\ profiles c = Options.list_from_string ps /\ locked c = false.

Lemma set_all parser name key value :
  kf_section name parser ->
  exists q, kf_set name key value parser = Some q /\ kf_section name q
  /\ forall k, kf_get name k q = if decide (key = k) then Some value else kf_get name k parser.
Proof.
  intros Hs. destruct (kf_set_total name key value parser Hs) as [q Hq]. exists q. split_and!; [done|by eapply kf_set_section|].
  intros k. rewrite (kf_set_get _ _ _ _ _ _ _ Hq). destruct (decide (key = k)) as [->|]; [by rewrite decide_True|].
  by rewrite decide_False by congruence.
Qed.

Lemma initConfig_ok parser name :
  exists q, initConfig parser name = Some q /\ read_config name q false = Some (mkConfig [] [] UNKNOWN false).
Proof.
  unfold initConfig.
  destruct (set_all (kf_add_section name parser) name (lit "name") name) as (q1 & -> & S1 & _); [apply kf_add_has|].
  destruct (set_all q1 name (lit "stream") [] S1) as (q2 & -> & S2 & G2).
  destruct (set_all q2 name (lit "profiles") [] S2) as (q3 & -> & S3 & G3).
  destruct (set_all q3 name (lit "state") [] S3) as (q4 & -> & S4 & G4).
  exists q4. split; [done|]. unfold read_config. rewrite !G4, !G3, !G2. done.
Qed.

Lemma parseConfig_complete parser name :
  complete name parser = true ->
  exists q c, parseConfig (Parsed parser) name = Some q /\ read_config name q false = Some c /\ loaded name parser c.
Proof.
  unfold complete. intros Hc. apply andb_true_iff in Hc as [[Hs Hp]%andb_true_iff Hst]. simpl. rewrite Hs, Hp. simpl.
  rewrite <-negb_orb, Hst. simpl.
  pose proof Hs as [s Gs]%kf_has_get. pose proof Hp as [ps Gp]%kf_has_get.
  destruct (set_all parser name (lit "name") name (kf_get_section _ _ _ _ Gs)) as (q1 & -> & S1 & G1).
  assert (Heq : kf_has_option name (lit "enabled") q1 = kf_has_option name (lit "enabled") parser).
  { apply eq_bool_prop_intro. rewrite !Is_true_true, !kf_has_get, G1. done. }
  rewrite Heq. unfold loaded. destruct (kf_has_option name (lit "enabled") parser) eqn:He.
  - pose proof He as [st Ge]%kf_has_get. rewrite (G1 (lit "enabled")). simpl. rewrite Ge.
    destruct (set_all q1 name (lit "state") st S1) as (q2 & -> & S2 & G2).
    exists (kf_remove name (lit "enabled") q2), (mkConfig s (Options.list_from_string ps) (fromString st) false).
    split; [done|]. split; [|by exists st, ps]. unfold read_config. rewrite !kf_remove_get, !G2, !G1 by done. simpl. by rewrite Gp, Gs.
  - rewrite orb_false_r in Hst. apply kf_has_get in Hst as [st Gst].
    exists q1, (mkConfig s (Options.list_from_string ps) (fromString st) false).
    split; [done|]. split; [|by exists st, ps]. unfold read_config. rewrite !G1. simpl. by rewrite Gp, Gs, Gst.
Qed.

(** Loading a module file: a module that is known is left alone; a file
    that can be parsed never throws, and the module gets the values of the file
    if it has all of them (the old option [enabled] instead of [state] if it is
    there) and those of an unknown module otherwise; in both cases the parser
    then says what the working state is. A broken file throws, and leaves an
    entry behind. No other module changes. *)
Theorem insert_spec p name f :
  match p !! name with
  | Some _ => insert name f p = (p, Ok false)
  | None =>
      match f with
      | Broken parser => insert name f p = (<[name := (parser, mkConfig [] [] UNKNOWN false)]> p, Err ParserError)
      | CantOpen => exists q, insert name f p = (<[name := (q, mkConfig [] [] UNKNOWN false)]> p, Ok true)
          /\ in_sync name (q, mkConfig [] [] UNKNOWN false)
      | Parsed parser => exists q c, insert name f p = (<[name := (q, c)]> p, Ok true) /\ in_sync name (q, c)
          /\ if complete name parser then loaded name parser c else c = mkConfig [] [] UNKNOWN false
      end
  end.
Proof.
  unfold insert. destruct (p !! name) as [e|] eqn:E; [by rewrite decide_True by eauto|].
  rewrite decide_False by (by intros [? [=]]). destruct f as [|parser|parser]; [| |done].
  - destruct (initConfig_ok kf_new name) as (q & Hq & Hc). simpl. rewrite Hq, Hc. by exists q.
  - destruct (complete name parser) eqn:Hc.
    + destruct (parseConfig_complete parser name Hc) as (q & c & -> & Hr & Hl). rewrite Hr. exists q, c.
      split; [done|]. split; [|done]. unfold in_sync. simpl. destruct Hl as (_ & _ & _ & _ & _ & _ & _ & ->). done.
    + destruct (initConfig_ok parser name) as (q & Hq & Hr). exists q, (mkConfig [] [] UNKNOWN false).
      assert (parseConfig (Parsed parser) name = Some q) as ->.
      { unfold parseConfig. rewrite <-negb_orb, <-!negb_andb. unfold complete in Hc. by rewrite Hc. }
      by rewrite Hr.
Qed.
End laws.

(** ** [ConfigParser] as the configuration file *)

#[global] Instance config_parser_file : KeyFile ConfigParser.ConfigParser := {
  kf_new := ConfigParser.init;
  kf_add_section s p := fst (ConfigParser.add_section s [] p);
  kf_has_option := ConfigParser.has_option;
  kf_get s k p := match ConfigParser.get_value s k p with Ok v => Some v | Err _ => None end;
  kf_set s k v p := match ConfigParser.set_value s k v p with Ok p => Some p | Err _ => None end;
  kf_remove s k p := fst (ConfigParser.remove_option s k p);
  kf_write := ConfigParser.write;
}.

Lemma has_section_lookup s p : ConfigParser.has_section s p = true <-> is_Some (PreserveOrderMap.lookup s (ConfigParser.data p)).
Proof.
  unfold ConfigParser.has_section. rewrite PreserveOrderMap.is_end_spec, <-not_eq_None_Some, PreserveOrderMap.lookup_None.
  destruct (bool_decide _) eqn:E; simpl; reflect_bools; naive_solver.
Qed.

#[global] Instance config_parser_laws : KeyFileLaws ConfigParser.ConfigParser.
Proof.
  refine (Build_KeyFileLaws _ _ (fun s p => ConfigParser.has_section s p = true) _ _ _ _ _ _ _).
  - intros s k p. simpl. unfold ConfigParser.has_option, ConfigParser.get_value.
    destruct (PreserveOrderMap.lookup s _) as [kvs|]; [|by split; [|intros []]].
    rewrite PreserveOrderMap.is_end_spec. destruct (PreserveOrderMap.lookup k kvs) eqn:E.
    + split; [eauto|]. intros _. rewrite bool_decide_eq_false_2; [done|]. intros Hn%PreserveOrderMap.lookup_None. congruence.
    + apply PreserveOrderMap.lookup_None in E. rewrite bool_decide_eq_true_2 by done. by split; [|intros []].
  - intros s k p v. simpl. rewrite has_section_lookup. unfold ConfigParser.get_value.
    destruct (PreserveOrderMap.lookup s _); [eauto|done].
  - intros s p. simpl. unfold ConfigParser.add_section. destruct (ConfigParser.has_section s p) eqn:E; [done|].
    simpl. apply has_section_lookup. simpl. rewrite PreserveOrderMap.lookup_assign, decide_True by done. eauto.
  - intros s k v p Hs. simpl in *. apply has_section_lookup in Hs as [kvs Hs].
    unfold ConfigParser.set_value, ConfigParser.set_value_raw. rewrite Hs. eauto.
  - intros s k v p p'. simpl. pose proof (ConfigParser.set_value_get s k v p) as Hg.
    destruct (ConfigParser.set_value s k v p) eqn:E; [|done]. intros [= <-]. revert E.
    unfold ConfigParser.set_value, ConfigParser.set_value_raw.
    destruct (PreserveOrderMap.lookup s _); [|done]. intros [= <-]. apply has_section_lookup. simpl.
    rewrite PreserveOrderMap.lookup_assign, decide_True by done. eauto.
  - intros s k v p p' s' k'. simpl. pose proof (ConfigParser.set_value_get s k v p) as Hg.
    destruct (ConfigParser.set_value s k v p) eqn:E; [|done]. intros [= <-]. destruct Hg as (_ & Hg1 & Hg2).
    destruct (decide _) as [[= <- <-]|Hn]; [by rewrite Hg1|]. by rewrite Hg2 by congruence.
  - intros s k p k' Hk. simpl. unfold ConfigParser.remove_option, ConfigParser.get_value.
    destruct (PreserveOrderMap.lookup s (ConfigParser.data p)) as [kvs|] eqn:E; simpl; [|by rewrite E].
    pose proof (PreserveOrderMap.lookup_erase_ne k k' kvs Hk) as He.
    destruct (PreserveOrderMap.erase k kvs) as [kvs' n]. simpl in He.
    destruct (0 <? n)%nat; simpl; rewrite PreserveOrderMap.lookup_assign, decide_True by done; by rewrite He.
Qed.

(** ** Examples *)

#[global] Instance in_sync_dec {P} `{KeyFile P} name (e : entry P) : Decision (in_sync name e).
Proof. unfold in_sync. apply _. Defined.
#[global] Instance readable_dec {P} `{KeyFile P} name (e : entry P) : Decision (readable name e).
Proof. unfold readable. apply _. Defined.
#[global] Instance clean_dec {P} name (e : entry P) : Decision (clean name e).
Proof. unfold clean. apply _. Defined.

(** The modules [a], from a file, and [b], without one. *)
Definition sample_text : cstr :=
  lit "[a]" ++ nl :: lit "name=a" ++ nl :: lit "stream=1" ++ nl :: lit "profiles=x, y" ++ nl :: lit "state=enabled" ++ [nl].
Definition sample_file : file (P := ConfigParser.ConfigParser) :=
  match ConfigParser.read sample_text ConfigParser.init with Some (c, None) => Parsed c | Some (c, _) => Broken c | None => CantOpen end.
Definition sample : persistor ConfigParser.ConfigParser :=
  fst (insert (lit "b") CantOpen (fst (insert (lit "a") sample_file ∅))).
Definition configs (p : persistor ConfigParser.ConfigParser) : list (cstr * Config) := (fun x => (fst x, snd (snd x))) <$> rows p.

Example sample_configs :
  configs sample = [(lit "a", mkConfig (lit "1") [lit "x"; lit "y"] ENABLED false); (lit "b", mkConfig [] [] UNKNOWN false)].
Proof. vm_compute. reflexivity. Qed.

(** A module that is switched, one that is enabled: reported, saved, reported no more. *)
Definition changed : persistor ConfigParser.ConfigParser :=
  run [(lit "b", lit "2")] [Enable (lit "b") (lit "2"); Install (lit "b") (lit "2") (lit "p"); Enable (lit "a") (lit "3")] sample.
Example changed_reports :
  snd (getEnabledStreams changed) = Ok [(lit "b", lit "2")]
  /\ snd (getSwitchedStreams changed) = Ok [(lit "a", (lit "1", lit "3"))]
  /\ snd (getInstalledProfiles changed) = Ok [(lit "b", [lit "p"])]
  /\ snd (getRemovedProfiles changed) = Ok [(lit "a", [lit "x"; lit "y"])]
  /\ snd (isChanged changed) = Ok true
  /\ (map fst <$> match snd (save changed) with Ok w => Some w | Err _ => None end) = Some [lit "a"; lit "b"].
Proof. vm_compute. done. Qed.

(** The file of [a] is edited in place. *)
Example saved_text :
  match snd (save changed) with Ok ((_, text) :: _) => text | _ => [] end
  = lit "[a]" ++ nl :: lit "name=a" ++ nl :: lit "stream=3" ++ nl :: lit "profiles=" ++ nl :: lit "state=enabled" ++ [nl].
Proof. vm_compute. reflexivity. Qed.

(** Disabling a module whose stream was switched throws after the state was
    changed already: the module is disabled, with the stream and without its
    profiles being dropped. *)
Example disable_half_done :
  match disable (lit "a") (fst (enable (lit "a") (lit "3") sample)) with
  | (p, r) => (configs p !! 0, r)
  end = (Some (lit "a", mkConfig (lit "3") [] DISABLED false), Err (EnableMultipleStreams (lit "a"))).
Proof. vm_compute. reflexivity. Qed.

(** Enabling an unknown module is not the exception that the callers catch. *)
Example enable_unknown : snd (enable (lit "c") (lit "1") sample) = Err OutOfRange
  /\ snd (disable (lit "c") sample) = Err (NoModule (lit "c")).
Proof. vm_compute. done. Qed.

(** A default module is saved as one whose state is not known, and removing the
    stream of a module is no change. *)
Example default_not_saved :
  (fun n => getModuleState n (fst (rollback (fst (save (fst (changeState (lit "b") DEFAULT sample))))))) (lit "b") = UNKNOWN
  /\ snd (isChanged (fst (changeStream (lit "a") [] sample))) = Ok false.
Proof. vm_compute. done. Qed.

(** Asking for the installed profiles reorders the working profiles. *)
Example reports_reorder :
  (fun p => configs p !! 1) (fst (getInstalledProfiles (fst (addProfile (lit "b") (lit "k") (fst (addProfile (lit "b") (lit "z") sample))))))
  = Some (lit "b", mkConfig [] [lit "k"; lit "z"] UNKNOWN false).
Proof. vm_compute. reflexivity. Qed.

(** ** Witnesses *)

Lemma rollback_restores_witness : rollback changed = (sample, Ok tt).
Proof.
  refine (rollback_restores [(lit "b", lit "2")] _ sample _).
  apply (bool_decide_unpack _). vm_compute. exact I.
Defined.

Lemma enable_spec_witness :
  map_Forall readable sample /\
  match sample !! lit "a" with
  | None => enable (lit "a") (lit "3") sample = (sample, Err OutOfRange)
  | Some (parser, c) =>
      exists s0, kf_get (lit "a") (lit "stream") parser = Some s0 /\
      enable (lit "a") (lit "3") sample
      = if decide (stream c <> lit "3" /\ s0 <> stream c) then (sample, Err (EnableMultipleStreams (lit "a")))
        else if decide (stream c = lit "3" /\ state c = ENABLED) then (sample, Ok false)
        else (<[lit "a" := (parser, mkConfig (lit "3") [] ENABLED (locked c))]> sample, Ok true)
  end.
Proof.
  assert (Hr : map_Forall readable sample) by (apply (bool_decide_unpack _); vm_compute; exact I).
  split; [exact Hr|]. exact (enable_spec sample (lit "a") (lit "3") Hr).
Defined.

Definition changed_parser : ConfigParser.ConfigParser :=
  match changed !! lit "a" with Some (parser, _) => parser | None => ConfigParser.init end.
Lemma stream_switched_once_witness :
  exists c', run [] [Disable (lit "a")] changed !! lit "a" = Some (changed_parser, c') /\ stream c' = lit "3"
  /\ enable (lit "a") (lit "4") (run [] [Disable (lit "a")] changed)
     = (run [] [Disable (lit "a")] changed, Err (EnableMultipleStreams (lit "a"))).
Proof.
  assert (E : changed !! lit "a" = Some (changed_parser, mkConfig (lit "3") [] ENABLED false)) by (vm_compute; reflexivity).
  assert (Es : kf_get (lit "a") (lit "stream") changed_parser = Some (lit "1")) by (vm_compute; reflexivity).
  assert (En : lit "3" <> lit "1") by (apply (bool_decide_unpack _); vm_compute; exact I).
  assert (En' : lit "4" <> lit "3") by (apply (bool_decide_unpack _); vm_compute; exact I).
  destruct (stream_switched_once [] [Disable (lit "a")] _ _ _ _ _ E Es En) as (c' & H1 & H2 & H3).
  exists c'. exact (conj H1 (conj H2 (H3 (lit "4") En'))).
Defined.

Lemma save_then_unchanged_witness : exists p' w, save changed = (p', Ok w) /\ save p' = (p', Ok []).
Proof.
  destruct (save_then_unchanged changed) as (p' & w & E & _ & _ & _ & _ & E' & _).
  - apply (bool_decide_unpack _). vm_compute. exact I.
  - apply (bool_decide_unpack _). vm_compute. exact I.
  - exists p', w. exact (conj E E').
Defined.

Lemma is_changed_spec_witness : exists p' b, isChanged changed = (p', Ok b) /\ (b = false <-> map_Forall quiet changed).
Proof.
  destruct (is_changed_spec changed) as (p' & b & E & H & _).
  - apply (bool_decide_unpack _). vm_compute. exact I.
  - exists p', b. exact (conj E H).
Defined.
End Modules.
