(* ===== verification/ModuleSolving.v ===== *)
(** * ModuleSolving: which modules are active ([module/ModulePackageContainer.cpp], second half)

    The container of modules over the states of [Modules]: the choice of streams
    that are solved for, the goals that solve, the modules that have to be enabled
    with others, the latest versions, the fail-safe files and the reports. *)

From S2P Require Import Prelude Numeric Sack Solv Regex Specs Packages DnfSack DnfQuery DnfJobs DnfGoal.
From S2P Require Modules.
From stdpp Require Import sorting.
Local Open Scope Z_scope.

Module ModuleSolving.
Import QueryCmp Matches Packages DnfSack DnfQuery DnfJobs DnfGoal.

(** ** Module packages *)

(** What the program reads of a stream through libmodulemd; the version has 64 bits. *)
Record ModulePackage := mkModule {
  getName : cstr; getStream : cstr; mdVersion : Z; getContext : cstr; getArchCStr : option cstr; getRepoID : cstr;
  getArtifacts : list cstr; all_profiles : list (cstr * list cstr); getYaml : cstr;
}.
Implicit Types (mp : ModulePackage).
Definition getVersion mp : cstr := Numeric.dec_Z (mdVersion mp).
(** As [long long]. *)
Definition getVersionNum mp : Z := if mdVersion mp <? 2 ^ 63 then mdVersion mp else mdVersion mp - 2 ^ 64.
Definition getArch mp : cstr := default [] (getArchCStr mp).
Definition getNameStream mp : cstr := getName mp ++ lit ":" ++ getStream mp.
Definition getNameStreamVersion mp : cstr := getNameStream mp ++ lit ":" ++ getVersion mp.
Definition getFullIdentifier mp : cstr := getNameStreamVersion mp ++ lit ":" ++ getContext mp ++ lit ":" ++ getArch mp.

(** [g_strcmp0]: the null pointer comes first. *)
Definition strcmp (a b : cstr) : comparison := if decide (a = b) then Eq else if str_ltb a b then Lt else Gt.
Definition g_strcmp0 (a b : option cstr) : comparison :=
  match a, b with None, None => Eq | None, Some _ => Lt | Some _, None => Gt | Some a, Some b => strcmp a b end.

Section latest.
Context {HP : Reldep.Pool} {HL : LibsolvPool}.
Definition modulePackageLatestSorter (first second : ModulePackage) : bool :=
  match strcmp (getName first) (getName second) with
  | Lt => true | Gt => false
  | Eq =>
      let cmp := pool_evrcmp_str (getStream first) (getStream second) in
      if negb (cmp =? 0) then cmp <? 0
      else match g_strcmp0 (getArchCStr first) (getArchCStr second) with
           | Lt => true | Gt => false
           | Eq => getVersionNum second <? getVersionNum first
           end
  end.
Definition modulePackageLatestPerRepoSorter (first second : ModulePackage) : bool :=
  if negb (bool_decide (getRepoID first = getRepoID second)) then str_ltb (getRepoID first) (getRepoID second)
  else modulePackageLatestSorter first second.
(** [std::sort] *)
Definition not_after (less : ModulePackage -> ModulePackage -> bool) (a b : ModulePackage) : Prop := less b a = false.
#[global] Instance not_after_dec less : RelDecision (not_after less).
Proof. intros a b. unfold not_after. apply _. Defined.
Definition std_sort (less : ModulePackage -> ModulePackage -> bool) (l : list ModulePackage) : list ModulePackage := merge_sort (not_after less) l.

Definition same_stream (a b : ModulePackage) : bool :=
  bool_decide (getName a = getName b) && bool_decide (getStream a = getStream b) && bool_decide (getArchCStr a = getArchCStr b).
(** The loop over the sorted modules: the last module that began a list; what is
    built has its last list, and that one its last group, at the head. *)
Fixpoint group_modules (prev : ModulePackage) (l : list ModulePackage) (out : list (list (list ModulePackage))) : list (list (list ModulePackage)) :=
  match l with
  | [] => out
  | p :: l =>
      if negb (bool_decide (getRepoID prev = getRepoID p)) then group_modules p l ([[p]] :: out)
      else if negb (same_stream p prev) then
        group_modules p l (match out with groups :: out => ([p] :: groups) :: out | [] => [] end)
      else if getVersionNum prev =? getVersionNum p then
        group_modules prev l (match out with (group :: groups) :: out => ((group ++ [p]) :: groups) :: out | _ => out end)
      else group_modules prev l out
  end.
Definition in_order (out : list (list (list ModulePackage))) : list (list (list ModulePackage)) := rev (map (@rev _) out).
Definition latest_per_repo (l : list ModulePackage) : list (list (list ModulePackage)) :=
  match std_sort modulePackageLatestPerRepoSorter l with
  | [] => []
  | packageFirst :: rest => in_order (group_modules packageFirst rest [[[packageFirst]]])
  end.
Fixpoint first_of_stream (prev : ModulePackage) (l : list ModulePackage) : list ModulePackage :=
  match l with
  | [] => []
  | p :: l => if same_stream p prev then first_of_stream prev l else p :: first_of_stream p l
  end.
Definition latest_of (l : list ModulePackage) : list ModulePackage :=
  match std_sort modulePackageLatestSorter l with [] => [] | p :: rest => p :: first_of_stream p rest end.
End latest.

(** ** The container *)

Inductive module_error := Persist (e : Modules.Modules.error) | OutOfRange | Fail (f : failure) | Request (e : goal_error) | Goals (e : list_error).
Inductive ModuleErrorType := NO_ERROR | ERROR_IN_DEFAULTS | ERROR | CANNOT_RESOLVE_MODULES.
#[global] Instance error_type_eq_dec : EqDecision ModuleErrorType.
Proof. solve_decision. Defined.
Definition LIBDNF_MODULE_FAIL_SAFE_REPO_NAME : cstr := lit "@modulefailsafe".

Section container.
Context {HP : Reldep.Pool} {HL : LibsolvPool} {HS : Libsolv} {HG : LibsolvGrow} {HR : ProvidesReady}.
Context {HU : LibsolvUpdates} {HA : Advisories} {HQ : PackageSets} {HD : Dependencies} {HM : MissingFilters} {HJ : SolverJobs}.
Context {HV : Solving} {HE : PackageSetEdits}.
Context {P : Type} {HK : Modules.KeyFile P}.
(** [dnf_package_get_requires] *)
Class ModuleRequires := package_requires : Reldep.pool -> Z -> list Z.
Context {HMR : ModuleRequires}.
Implicit Types (s : DnfSack).

Record Container := mkContainer {
  persistor : Modules.Modules.persistor P;
  (** The map from ids to modules, in the order of ids. *)
  modules : list (Z * ModulePackage);
  moduleSack : DnfSack; moduleIo : Installonly;
  activatedModules : option Map;
  moduleDefaults : list (cstr * cstr);
}.
Implicit Types (c : Container).
(** A call changes the container and returns or throws. *)
Definition call (A : Type) : Type := Container -> Container * result module_error A.
Definition ret {A : Type} (x : A) : call A := fun c => (c, Ok x).
Definition throw {A : Type} (e : module_error) : call A := fun c => (c, Err e).
Definition bind {A B : Type} (m : call A) (k : A -> call B) : call B :=
  fun c => match m c with (c, Ok x) => k x c | (c, Err e) => (c, Err e) end.
#[local] Notation "'do!' x ':=' m 'in' k" := (bind m (fun x => k)) (at level 10, x pattern, m at level 100, k at level 200).
Definition set_persistor (p : Modules.Modules.persistor P) c : Container := mkContainer p (modules c) (moduleSack c) (moduleIo c) (activatedModules c) (moduleDefaults c).
Definition set_sack s c : Container := mkContainer (persistor c) (modules c) s (moduleIo c) (activatedModules c) (moduleDefaults c).
Definition set_sack_io s (io : Installonly) c : Container := mkContainer (persistor c) (modules c) s io (activatedModules c) (moduleDefaults c).
Definition set_activated (o : option Map) c : Container := mkContainer (persistor c) (modules c) (moduleSack c) (moduleIo c) o (moduleDefaults c).
(** Calls of the parts. *)
Definition on_persistor {A : Type} (m : Modules.Modules.call P A) : call A :=
  fun c => let '(p, r) := m (persistor c) in (set_persistor p c, match r with Ok x => Ok x | Err e => Err (Persist e) end).
Definition ask {A : Type} (f : Container -> A) : call A := fun c => (c, Ok (f c)).
Definition modify (f : Container -> Container) : call unit := fun c => (f c, Ok tt).
Definition on_sack {A : Type} (f : DnfSack -> result failure (DnfSack * A)) : call A :=
  fun c => match f (moduleSack c) with Ok (s, x) => (set_sack s c, Ok x) | Err e => (c, Err (Fail e)) end.
Fixpoint each {A : Type} (l : list A) (f : A -> call unit) : call unit :=
  match l with [] => ret tt | x :: l => do! _ := f x in each l f end.
Fixpoint collect {A : Type} (l : list A) (f : A -> call bool) : call (list A) :=
  match l with
  | [] => ret []
  | x :: l => do! b := f x in do! r := collect l f in ret (if (b : bool) then x :: r else r)
  end.

Definition find_module c (id : Z) : option ModulePackage := snd <$> List.find (fun x => fst x =? id) (modules c).
(** [modules.at] *)
Definition getModulePackage (id : Z) : call ModulePackage := fun c => (c, match find_module c id with Some mp => Ok mp | None => Err OutOfRange end).
Definition getModulePackages c : list ModulePackage := map snd (modules c).
Definition isEnabled mp c : bool := Modules.Modules.isEnabled (getName mp) (getStream mp) (persistor c).
Definition isDisabled mp c : bool := Modules.Modules.isDisabled (getName mp) (persistor c).
Definition isModuleActive (id : Z) c : bool := match activatedModules c with Some m => pset_has m id | None => false end.
Definition getDefaultStream (name : cstr) c : cstr :=
  match List.find (fun x => bool_decide (fst x = name)) (moduleDefaults c) with Some x => snd x | None => [] end.
Definition enable mp : call bool := on_persistor (Modules.Modules.enable (getName mp) (getStream mp)).

(** ** Latest versions *)

Definition getLatestModulesPerRepo (moduleFilter : Modules.Modules.ModuleState) (modulePackages : list ModulePackage) : call (list (list (list ModulePackage))) :=
  match modulePackages with
  | [] => ret []
  | _ =>
      do! l := (match moduleFilter with
                | Modules.Modules.ENABLED => collect modulePackages (fun mp => ask (isEnabled mp))
                | Modules.Modules.DISABLED => collect modulePackages (fun mp => ask (isDisabled mp))
                | Modules.Modules.INSTALLED =>
                    collect modulePackages (fun mp =>
                      do! profiles := on_persistor (Modules.Modules.getProfiles (getName mp)) in
                      match profiles with [] => ret false | _ => ask (isEnabled mp) end)
                | _ => ret modulePackages
                end) in
      ret (latest_per_repo l)
  end.
Definition getLatestActiveEnabledModules : call (list ModulePackage) :=
  do! o := ask activatedModules in
  match o with
  | None => throw (Fail Crash)
  | Some m =>
      let fix active (l : list Z) : call (list ModulePackage) :=
        match l with
        | [] => ret []
        | id :: l => do! mp := getModulePackage id in do! b := ask (isEnabled mp) in do! r := active l in ret (if (b : bool) then mp :: r else r)
        end in
      do! l := active (pset_ids m) in ret (latest_of l)
  end.

(** ** Solving *)

(** One module for both goals. *)
Definition stage_module mp (goals : Staging * Staging) : call (Staging * Staging) :=
  let '(goal, goalWeak) := goals in
  let text := lit "module(" ++ getNameStreamVersion mp ++ lit ")" in
  do! state := on_persistor (Modules.Modules.getState (getName mp)) in
  let optional := bool_decide (state = Modules.Modules.DEFAULT) in
  fun c =>
    let '(s, selector, _) := selector_set HY_PKG_PROVIDES HY_EQ (Some text) (moduleSack c) new_selector in
    match install_sltr selector optional s goal with
    | (s, goal, Ok _) =>
        match install_sltr selector true s goalWeak with
        | (s, goalWeak, Ok _) => (set_sack s c, Ok (goal, goalWeak))
        | (s, _, Err e) => (set_sack s c, Err (Request e))
        end
    | (s, _, Err e) => (set_sack s c, Err (Request e))
    end.
Fixpoint stage_modules (l : list ModulePackage) (goals : Staging * Staging) : call (Staging * Staging) :=
  match l with [] => ret goals | mp :: l => do! goals := stage_module mp goals in stage_modules l goals end.
Definition run_goal (flags : Z) (g : Goal) : call (Goal * bool) :=
  fun c => match run flags (moduleSack c) (moduleIo c) g with
           | Ok (s, io, g, failed) => (set_sack_io s io c, Ok (g, failed))
           | Err e => (c, Err (Fail e))
           end.
Definition of_goal {A : Type} (f : DnfSack -> Goal -> result failure A) (g : Goal) : call A :=
  fun c => (c, match f (moduleSack c) g with Ok x => Ok x | Err e => Err (Fail e) end).
(** The modules that are to be installed are active. *)
Definition activate (g : Goal) : call unit :=
  fun c => match listInstalls (moduleSack c) g with Ok m => (set_activated (Some m) c, Ok tt) | Err e => (c, Err (Goals e)) end.
Definition goal_of (st : Staging) : Goal := mkGoal st None None None None.
Definition moduleSolve (l : list ModulePackage) : call (list (list cstr) * ModuleErrorType) :=
  match l with
  | [] => do! _ := modify (set_activated None) in ret ([], NO_ERROR)
  | _ =>
      do! _ := modify (fun c => set_sack (make_provides_ready (dnf_sack_recompute_considered (moduleSack c))) c) in
      do! goals := stage_modules l (new_staging, new_staging) in
      do! x := run_goal DNF_IGNORE_WEAK (goal_of (fst goals)) in
      let '(goal, failed) := x in
      if negb failed then do! _ := activate goal in ret ([], NO_ERROR)
      else
        do! problems := of_goal (describeAllProblemRules false) goal in
        do! x := run_goal DNF_NONE goal in
        let '(goal, failed) := x in
        if negb failed then do! _ := activate goal in ret (problems, ERROR_IN_DEFAULTS)
        else
          do! conflictingPkgs := of_goal (listConflictPkgs PACKAGE_STATE_AVAILABLE) goal in
          do! _ := modify (fun c => set_sack (dnf_sack_add_excludes_or_includes PkgExcludes conflictingPkgs (moduleSack c)) c) in
          do! x := run_goal DNF_NONE (goal_of (snd goals)) in
          let '(goalWeak, failed) := x in
          if failed then do! _ := modify (set_activated None) in ret (problems, CANNOT_RESOLVE_MODULES)
          else do! _ := activate goalWeak in ret (problems, ERROR)
  end.
(** One module: whether it is excluded, or solved for. *)
Inductive choice := Exclude | Skip | Use.
Definition choose mp : call choice :=
  do! moduleState := on_persistor (Modules.Modules.getState (getName mp)) in
  if bool_decide (moduleState = Modules.Modules.DISABLED) then ret Exclude
  else
    do! stream := ask (getDefaultStream (getName mp)) in
    let hasDefaultStream := bool_decide (stream = getStream mp) in
    do! disabled := ask (isDisabled mp) in
    do! enabled := ask (isEnabled mp) in
    if (disabled : bool) then ret Skip
    else if (enabled : bool) then ret Use
    else if hasDefaultStream then
      if bool_decide (moduleState <> Modules.Modules.ENABLED) then
        do! _ := on_persistor (Modules.Modules.changeState (getName mp) Modules.Modules.DEFAULT) in ret Use
      else ret Skip
    else ret Skip.
Fixpoint choose_all (l : list (Z * ModulePackage)) (excludes : Map) (packages : list ModulePackage) : call (Map * list ModulePackage) :=
  match l with
  | [] => ret (excludes, packages)
  | (id, mp) :: l =>
      do! what := choose mp in
      match what with
      | Exclude => choose_all l (pset_set excludes id) packages
      | Skip => choose_all l excludes packages
      | Use => choose_all l excludes (packages ++ [mp])
      end
  end.
Definition resolveActiveModulePackages : call (list (list cstr) * ModuleErrorType) :=
  do! _ := modify (fun c => set_sack (dnf_sack_reset_excludes (moduleSack c)) c) in
  do! start := ask (fun c => (modules c, pset_new (pool (moduleSack c)))) in
  do! x := choose_all (fst start) (snd start) [] in
  do! _ := modify (fun c => set_sack (dnf_sack_add_excludes_or_includes PkgExcludes (fst x) (moduleSack c)) c) in
  moduleSolve (snd x).

(** ** The modules that have to be enabled with others *)

(** The active modules that provide what a module requires. *)
Definition required_modules (enabled : option Map) (id : Z) : call Map :=
  do! o := ask activatedModules in
  match o with
  | None => throw (Fail Crash)
  | Some act =>
      on_sack (fun s =>
        let query := fst (addFilter_pset HY_PKG HY_EQ act (new_query APPLY_EXCLUDES)) in
        let query := match enabled with Some m => fst (addFilter_pset HY_PKG HY_NEQ m query) | None => query end in
        let query := fst (addFilter_reldeps HY_PKG_PROVIDES (package_requires (pool s) id) query) in
        with_result s query (fun s _ res => (s, res)))
  end.
Fixpoint enable_given (l : list (Z * ModulePackage)) (toEnable enabled : Map) : call (Map * Map) :=
  match l with
  | [] => ret (toEnable, enabled)
  | (id, mp) :: l =>
      do! active := ask (isModuleActive id) in
      if negb active then enable_given l toEnable enabled
      else
        do! set := required_modules None id in
        let toEnable := pset_add toEnable set in
        do! _ := enable mp in
        enable_given l toEnable (pset_set enabled id)
  end.
(** [PackageSet::next] *)
Definition next_id (m : Map) (id : Z) : option Z := List.find (fun k => id <? k) (pset_ids m).
(** One run over the set, which grows meanwhile. *)
Fixpoint enable_run (fuel : nat) (moduleId : Z) (toEnable enabled : Map) : call (Map * Map) :=
  match fuel with
  | O => throw (Fail Crash)
  | S fuel =>
      match next_id toEnable moduleId with
      | None => ret (toEnable, enabled)
      | Some moduleId =>
          do! mp := getModulePackage moduleId in
          do! _ := enable mp in
          let enabled := pset_set enabled moduleId in
          do! set := required_modules (Some enabled) moduleId in
          enable_run fuel moduleId (pset_add toEnable set) enabled
      end
  end.
Fixpoint enable_runs (fuel : nat) (toEnable enabled : Map) : call Map :=
  match fuel with
  | O => throw (Fail Crash)
  | S fuel =>
      if bool_decide (pset_ids toEnable = []) then ret enabled
      else
        do! x := (fun c => enable_run (S (Z.to_nat (nsolvables (pool (moduleSack c))))) (-1) toEnable enabled c) in
        enable_runs fuel (pset_sub (fst x) (snd x)) (snd x)
  end.
(** The set of the modules that are enabled is the answer here. *)
Definition enableDependencyTree (modulePackages : list (Z * ModulePackage)) : call Map :=
  do! none := ask (fun c => pset_new (pool (moduleSack c))) in
  do! o := ask activatedModules in
  match o with
  | None => ret none
  | Some _ =>
      do! x := enable_given modulePackages none none in
      fun c => enable_runs (S (Z.to_nat (nsolvables (pool (moduleSack c))))) (pset_sub (fst x) (snd x)) (snd x) c
  end.

(** The active modules that are not enabled and have artifacts among the packages of another sack. *)
Fixpoint needed_modules (l : list Z) (baseQuery testQuery : Query) (s : DnfSack) : call (DnfSack * list ModulePackage) :=
  match l with
  | [] => ret (s, [])
  | id :: l =>
      do! mp := getModulePackage id in
      do! b := ask (isEnabled mp) in
      if (b : bool) then needed_modules l baseQuery testQuery s
      else
        match queryUnion s testQuery baseQuery with
        | Err e => throw (Fail e)
        | Ok (s, testQuery, baseQuery) =>
            match addFilter_strs HY_PKG_NEVRA_STRICT HY_EQ (getArtifacts mp) s testQuery with
            | (_, _, Err e) => throw (Fail e)
            | (s, testQuery, Ok _) =>
                match query_empty s testQuery with
                | Err e => throw (Fail e)
                | Ok (s, testQuery, empty) =>
                    do! x := needed_modules l baseQuery testQuery s in
                    ret (fst x, if (empty : bool) then snd x else mp :: snd x)
                end
            end
        end
  end.
Definition requiresModuleEnablement (packages : Map) (s : DnfSack) : call (DnfSack * list ModulePackage) :=
  do! o := ask activatedModules in
  match o with
  | None => ret (s, [])
  | Some act =>
      match apply s (fst (addFilter_pset HY_PKG HY_EQ packages (new_query APPLY_EXCLUDES))) with
      | Err e => throw (Fail e)
      | Ok (s, baseQuery) => needed_modules (pset_ids act) baseQuery (copy_query baseQuery) s
      end
  end.

(** ** Queries for modules *)

Fixpoint modules_at (l : list Z) : call (list (Z * ModulePackage)) :=
  match l with [] => ret [] | id :: l => do! mp := getModulePackage id in do! r := modules_at l in ret ((id, mp) :: r) end.
Definition no_system (s : DnfSack) : DnfSack * Query := of_repo HY_NEQ s (new_query IGNORE_EXCLUDES).
Definition run_query (s : DnfSack) (q : Query) : result failure (DnfSack * list Z) := let* x := run_set s q in let '(s, _, ids) := x in Ok (s, ids).
Definition query_subject (subject : cstr) : call (list (Z * ModulePackage)) :=
  do! ids := on_sack (fun s =>
    let '(s, query) := no_system s in
    match addFilter_str HY_PKG_NAME HY_GLOB (Some (subject ++ lit "*")) s query with
    | (_, _, Err e) => Err e
    | (s, query, Ok _) => run_query s query
    end) in
  modules_at ids.
Definition stringFormater (imput : cstr) : cstr := match imput with [] => lit "*" | _ => imput end.
Definition query_nsvca (name stream version context arch : cstr) : call (list (Z * ModulePackage)) :=
  do! ids := on_sack (fun s =>
    let '(s, query) := no_system s in
    let text := stringFormater name ++ lit ":" ++ stringFormater stream ++ lit ":" ++ stringFormater version ++ lit ":" ++ stringFormater context in
    match addFilter_str HY_PKG_NAME HY_GLOB (Some text) s query with
    | (_, _, Err e) => Err e
    | (s, query, Ok _) =>
        match arch with
        | [] => run_query s query
        | _ =>
            match addFilter_str HY_PKG_ARCH HY_GLOB (Some arch) s query with
            | (_, _, Err e) => Err e
            | (s, query, Ok _) => run_query s query
            end
        end
    end) in
  modules_at ids.

(** [getProfiles]: the profiles that a name or a glob means. *)
Class GlobMatch := glob_match : cstr -> cstr -> bool.
Context {HGM : GlobMatch}.
Definition getProfiles (name : cstr) mp : list (list cstr) :=
  map snd (List.filter (fun x => is_glob_pattern name && glob_match name (fst x) || bool_decide (fst x = name)) (all_profiles mp)).
(** The versions are compared as texts. *)
Definition latest_version (l : list ModulePackage) : option ModulePackage :=
  fold_left (fun latest mp => match latest with
                              | None => Some mp
                              | Some best => if str_ltb (getVersion best) (getVersion mp) then Some mp else latest
                              end) l None.
Definition pkg_names_of (moduleName : cstr) : call (list cstr) :=
  do! stream := on_persistor (Modules.Modules.getStream moduleName) in
  match stream with
  | [] => ret []
  | _ =>
      do! profilesInstalled := on_persistor (Modules.Modules.getProfiles moduleName) in
      match profilesInstalled with
      | [] => ret []
      | _ =>
          do! found := query_subject (moduleName ++ lit ":" ++ stream) in
          do! active := collect found (fun x => ask (isModuleActive (fst x))) in
          let latest := match latest_version (map snd active) with Some mp => Some mp | None => latest_version (map snd found) end in
          ret (match latest with Some mp => concat (flat_map (fun profile => getProfiles profile mp) profilesInstalled) | None => [] end)
      end
  end.
Fixpoint pkg_names (l : list cstr) (acc : gset cstr) : call (gset cstr) :=
  match l with [] => ret acc | name :: l => do! names := pkg_names_of name in pkg_names l (acc ∪ list_to_set names) end.
Definition getInstalledPkgNames : call (gset cstr) :=
  do! names := ask (fun c => Modules.Modules.getAllModuleNames (persistor c)) in pkg_names names ∅.

(** ** The report *)

Definition nl : cstr := [Ascii.ascii_of_nat 10].
Definition indent : cstr := lit "    ".
(** A heading with lines under it, if there are any. *)
Definition paragraph (title : cstr) (lines : list cstr) : cstr :=
  match lines with [] => [] | _ => title ++ lit ":" ++ nl ++ concat (map (fun l => indent ++ l ++ nl) lines) ++ nl end.
Definition stream_line (x : cstr * cstr) : cstr := fst x ++ lit ":" ++ snd x.
Definition switch_line (x : cstr * (cstr * cstr)) : cstr := fst x ++ lit ":" ++ fst (snd x) ++ lit " > " ++ fst x ++ lit ":" ++ snd (snd x).
Definition profile_lines (x : cstr * list cstr) : list cstr := map (fun profile => fst x ++ lit ":" ++ profile) (snd x).
Definition getReport : call cstr :=
  do! enabled := on_persistor Modules.Modules.getEnabledStreams in
  do! disabled := on_persistor Modules.Modules.getDisabledModules in
  do! switchedStreams := on_persistor Modules.Modules.getSwitchedStreams in
  do! installedProfiles := on_persistor Modules.Modules.getInstalledProfiles in
  do! removedProfiles := on_persistor Modules.Modules.getRemovedProfiles in
  ret (paragraph (lit "Module Enabling") (map stream_line enabled)
       ++ paragraph (lit "Module Disabling") (map fst disabled)
       ++ paragraph (lit "Module Switched Streams") (map switch_line switchedStreams)
       ++ paragraph (lit "Module Installing Profiles") (flat_map profile_lines installedProfiles)
       ++ paragraph (lit "Module Removing Profiles") (flat_map profile_lines removedProfiles)).

(** ** Fail-safe data *)

Definition has_suffix (s suffix : cstr) : bool := bool_decide (drop (length s - length suffix) s = suffix) && (length suffix <=? length s)%nat.
(** [getYamlFilenames] of what [readdir] gives. *)
Definition getYamlFilenames (entries : list cstr) : list cstr :=
  sort_strings (List.filter (fun filename => negb (length filename <? 10)%nat && has_suffix filename (lit ".yaml")) entries).
Definition stringStartWithLowerComparator (first pattern : cstr) : bool := str_ltb (take (length pattern) first) pattern.
(** The enabled streams of which the container has no module. *)
Definition enabledStreams c : list (cstr * cstr) :=
  omap (fun x => if bool_decide (Modules.Modules.state (snd (snd x)) = Modules.Modules.ENABLED) && negb (bool_decide (Modules.Modules.stream (snd (snd x)) = []))
                 then Some (fst x, Modules.Modules.stream (snd (snd x))) else None) (rows (persistor c)).
Definition provided_stream c (x : cstr * cstr) : bool :=
  existsb (fun mp => bool_decide (getName mp = fst x) && bool_decide (getStream mp = snd x)) (getModulePackages c).
Definition search_prefix (x : cstr * cstr) : cstr := fst x ++ lit ":" ++ snd x ++ lit ":".
Definition files_with (searchPrefix : cstr) (fileNames : list cstr) : list cstr :=
  equal_range (fun file => stringStartWithLowerComparator file searchPrefix) (fun file => starts_with file searchPrefix) fileNames.
(** Reading a file, and adding the modules that it describes, for a repository. *)
Class FailSafe := { getFileContent : cstr -> option cstr; add_yaml : cstr -> cstr -> call unit }.
Context {HF : FailSafe}.
(** Exceptions while loading a file are logged. *)
Definition load_file (file : cstr) : call unit :=
  match getFileContent file with
  | None => ret tt
  | Some yamlContent => fun c => (fst (add_yaml yamlContent LIBDNF_MODULE_FAIL_SAFE_REPO_NAME c), Ok tt)
  end.
Definition loadFailSafeData (entries : list cstr) : call unit :=
  do! missing := ask (fun c => List.filter (fun x => negb (provided_stream c x)) (enabledStreams c)) in
  each (flat_map (fun x => files_with (search_prefix x) (getYamlFilenames entries)) missing) load_file.

(** What is done to the directory. *)
Inductive file_change := WriteFile (name yaml : cstr) | RemoveFile (name : cstr).
Definition failsafe_name mp : cstr := getNameStream mp ++ lit ":" ++ getArch mp ++ lit ".yaml".
(** Whether the search for a name ends at it. *)
Definition marks (fileNames : list cstr) (name : cstr) : option nat :=
  let low := lower_bound (fun x => str_ltb x name) fileNames in
  if bool_decide (fileNames !! low = Some name) then Some low else None.
Definition colon : ascii := ":"%char.
(** Name and stream of the module that a file is for. *)
Definition module_of_file (fileName : cstr) : option (cstr * cstr) :=
  match find_idx (fun x => bool_decide (x = colon)) fileName with
  | None | Some O => None
  | Some first =>
      let rest := drop (S first) fileName in
      match find_idx (fun x => bool_decide (x = colon)) rest with
      | None | Some O => None
      | Some n => Some (take first fileName, take n rest)
      end
  end.
Definition to_remove (marked : list nat) (fileNames : list cstr) c : list file_change :=
  omap (fun '(index, fileName) =>
    if bool_decide (index ∈ marked) then None
    else match module_of_file fileName with
         | Some (name, stream) => if Modules.Modules.isEnabled name stream (persistor c) then None else Some (RemoveFile fileName)
         | None => None
         end) (imap (fun i x => (i, x)) fileNames).
Definition updateFailSafeData (entries : list cstr) : call (list file_change) :=
  do! o := ask activatedModules in
  match o with
  | None => ret []
  | Some _ =>
      do! latest := getLatestActiveEnabledModules in
      let fileNames := getYamlFilenames entries in
      let marked := omap (fun mp => marks fileNames (failsafe_name mp)) latest in
      let writes := omap (fun mp => if bool_decide (getRepoID mp = LIBDNF_MODULE_FAIL_SAFE_REPO_NAME) then None else Some (WriteFile (failsafe_name mp) (getYaml mp))) latest in
      do! removals := ask (to_remove marked fileNames) in
      ret (writes ++ removals)
  end.

(** ** Packages of modules *)

Definition collectNevraForInclusionExclusion c : list cstr * list cstr :=
  (flat_map (fun x => if isModuleActive (fst x) c then getArtifacts (snd x) else []) (modules c),
   flat_map (fun x => if isModuleActive (fst x) c then [] else getArtifacts (snd x)) (modules c)).
(** The name in a full name of a package, as [Nevra::parse] reads it, which is no part of this generation's sources. *)
Class NevraName := nevra_name : cstr -> option cstr.
Context {HN : NevraName}.
Definition HY_CMDLINE_REPO_NAME : cstr := lit "@commandline".
Definition filter_texts (key : Keyname) (cmp_type : Z) (l : list cstr) (x : DnfSack * Query) : result failure (DnfSack * Query) :=
  match addFilter_strs key cmp_type l (fst x) (snd x) with (_, _, Err e) => Err e | (s, q, Ok _) => Ok (s, q) end.
(** A query with a filter, less another query. *)
Definition minus_query (s : DnfSack) (q includeQuery : Query) : result failure (DnfSack * Query * Query) := queryDifference s q includeQuery.
Definition result_pset (s : DnfSack) (q : Query) : result failure (DnfSack * Map) := with_result s q (fun s _ res => (s, res)).
Definition setModuleExcludes (hotfixRepos includeNEVRAs excludeNEVRAs : list cstr) (s : DnfSack) : result failure DnfSack :=
  let s := dnf_sack_set_excludes_or_includes ModuleExcludes None s in
  let names := omap nevra_name includeNEVRAs in
  let '(s, nameDependencies) := add_reldeps false names [] s in
  let* x := filter_texts HY_PKG_REPONAME HY_NEQ [HY_CMDLINE_REPO_NAME; HY_SYSTEM_REPO_NAME] (s, new_query APPLY_EXCLUDES) in
  let* x := filter_texts HY_PKG_REPONAME HY_NEQ hotfixRepos x in
  let '(s, keepPackages) := x in
  let* x := filter_texts HY_PKG_NEVRA_STRICT HY_EQ includeNEVRAs (s, new_query APPLY_EXCLUDES) in
  let '(s, includeQuery) := x in
  let* x := filter_texts HY_PKG_NEVRA_STRICT HY_EQ excludeNEVRAs (s, copy_query keepPackages) in
  let* x := minus_query (fst x) (snd x) includeQuery in
  let '(s, excludeQuery, includeQuery) := x in
  let* x := minus_query s (fst (addFilter_reldeps HY_PKG_PROVIDES nameDependencies (copy_query keepPackages))) includeQuery in
  let '(s, excludeProvidesQuery, includeQuery) := x in
  let* x := filter_texts HY_PKG_NAME HY_EQ names (s, copy_query keepPackages) in
  let* x := minus_query (fst x) (snd x) includeQuery in
  let '(s, excludeNamesQuery, includeQuery) := x in
  let* x := result_pset s excludeQuery in
  let s := dnf_sack_set_excludes_or_includes ModuleExcludes (Some (snd x)) (fst x) in
  let* x := result_pset s excludeProvidesQuery in
  let s := dnf_sack_add_excludes_or_includes ModuleExcludes (snd x) (fst x) in
  let* x := result_pset s excludeNamesQuery in
  let s := dnf_sack_add_excludes_or_includes ModuleExcludes (snd x) (fst x) in
  let* x := result_pset s includeQuery in
  Ok (dnf_sack_set_module_includes (Some (snd x)) (fst x)).
(** [dnf_sack_filter_modules]: the repositories that are not filtered. *)
Definition hotfix_repos (repos : list (cstr * bool)) : list cstr := map fst (List.filter snd repos).
(** [requiresModuleEnablement] of a sack of packages that has a container of modules. *)
Definition sack_requires_enablement (installSet : Map) (s : DnfSack) : call (DnfSack * list ModulePackage) :=
  match module_includes s with
  | None => ret (s, [])
  | Some includes =>
      let tmp := pset_and (pset_add (pset_new (pool s)) installSet) includes in
      if bool_decide (pset_ids tmp = []) then ret (s, []) else requiresModuleEnablement installSet s
  end.
(** The last part of [dnf_sack_filter_modules_v2], on the sack of packages [s]. *)
Definition filter_modules (hotfixRepos : list cstr) (s : DnfSack) : call (DnfSack * (list (list cstr) * ModuleErrorType)) :=
  do! answer := resolveActiveModulePackages in
  do! nevras := ask collectNevraForInclusionExclusion in
  match setModuleExcludes hotfixRepos (fst nevras) (snd nevras) s with
  | Ok s => ret (s, answer)
  | Err e => throw (Fail e)
  end.
End container.
Arguments call {HP} P A.
Arguments Container {HP} P.
End ModuleSolving.
