(* ===== verification/ModuleSolved.v ===== *)
(** * ModuleSolved: which modules become active (theorems on [ModuleSolving])

    The choice of the streams that are solved for, the goals that solve, and that
    disabled modules stay out. *)

From S2P Require Import Prelude Numeric Sack Solv Regex Specs Packages DnfSack DnfQuery DnfLatest DnfApply DnfJobs DnfRequests DnfGoal DnfSolved ModuleSolving.
From S2P Require Modules.
From stdpp Require Import sorting.
Local Open Scope Z_scope.

Module ModuleSolved.
Import QueryCmp Matches Packages DnfSack DnfQuery DnfLatest DnfApply DnfJobs DnfRequests DnfGoal DnfSolved ModuleSolving.

Section solving.
Context {HP : Reldep.Pool} {HL : LibsolvPool} {HS : Libsolv} {HG : LibsolvGrow} {HR : ProvidesReady}.
Context {HU : LibsolvUpdates} {HA : Advisories} {HQ : PackageSets} {HD : Dependencies} {HM : MissingFilters} {HJ : SolverJobs}.
Context {HV : Solving} {HE : PackageSetEdits}.
Context {P : Type} {HK : Modules.KeyFile P}.
Context {HLL : LibsolvPoolLaws} {HSL : LibsolvLaws HS} {HGL : LibsolvGrowLaws HG} {HRL : ProvidesReadyLaws}.
Context {HUL : LibsolvUpdatesLaws} {HAL : AdvisoriesLaws} {HQL : PackageSetsLaws HQ} {HDL : DependenciesLaws} {HML : MissingFiltersLaws}.
Context {HJL : SolverJobsLaws} {HVL : SolvingLaws} {HEL : PackageSetEditsLaws}.
Implicit Types (p : Modules.Modules.persistor P) (c : Container P) (mp : ModulePackage) (s : DnfSack) (name : cstr).

(** ** Which modules are solved for *)

Lemma bind_Ok {A B : Type} (m : call P A) (k : A -> call P B) c c' x : m c = (c', Ok x) -> ModuleSolving.bind m k c = k x c'.
Proof. intros E. unfold ModuleSolving.bind. by rewrite E. Qed.
Definition state_in p name : Modules.Modules.ModuleState := Modules.Modules.getModuleState name p.
Definition default_stream c mp : bool := bool_decide (getDefaultStream (getName mp) c = getStream mp).
(** What the states of [p] and the default streams of [c] say. *)
Definition what p c mp : choice :=
  match state_in p (getName mp) with
  | Modules.Modules.DISABLED => Exclude
  | Modules.Modules.ENABLED => if Modules.Modules.isEnabled (getName mp) (getStream mp) p then Use else Skip
  | _ => if default_stream c mp then Use else Skip
  end.
Definition neutral (st : Modules.Modules.ModuleState) : bool :=
  match st with Modules.Modules.DISABLED | Modules.Modules.ENABLED => false | _ => true end.
Definition by_default p c mp : bool := neutral (state_in p (getName mp)) && default_stream c mp.
(** The states of some modules become that of a default. *)
Definition to_default (d : cstr -> bool) p : Modules.Modules.persistor P :=
  map_imap (fun name e => Some (if d name then (fst e, Modules.Modules.with_state Modules.Modules.DEFAULT (snd e)) else e)) p.
Lemma to_default_lookup d p name :
  to_default d p !! name = (fun e => if d name then (fst e, Modules.Modules.with_state Modules.Modules.DEFAULT (snd e)) else e) <$> p !! name.
Proof. unfold to_default. rewrite map_lookup_imap. by destruct (p !! name). Qed.
Lemma to_default_none p : to_default (fun _ => false) p = p.
Proof. apply map_eq. intros name. rewrite to_default_lookup. by destruct (p !! name). Qed.
Lemma to_default_ext d d' p : (forall name, d name = d' name) -> to_default d p = to_default d' p.
Proof. intros H. apply map_eq. intros name. by rewrite !to_default_lookup, H. Qed.
(** Only modules in a neutral state are put into it, so nothing that is decided depends on it. *)
Definition harmless (d : cstr -> bool) p : Prop := forall name, d name = true -> neutral (state_in p name) = true.
Lemma default_state d p name : harmless d p ->
  state_in (to_default d p) name = state_in p name \/ neutral (state_in p name) = true /\ state_in (to_default d p) name = Modules.Modules.DEFAULT.
Proof.
  intros Hd. specialize (Hd name). unfold state_in, Modules.Modules.getModuleState in *. rewrite to_default_lookup.
  destruct (p !! name) as [[parser cfg]|]; simpl; [|by left]. destruct (d name); simpl; [right; split; auto|by left].
Qed.
Lemma what_default d p c mp : harmless d p -> what (to_default d p) c mp = what p c mp.
Proof.
  intros Hd. assert (He : state_in p (getName mp) = Modules.Modules.ENABLED ->
    Modules.Modules.isEnabled (getName mp) (getStream mp) (to_default d p) = Modules.Modules.isEnabled (getName mp) (getStream mp) p).
  { specialize (Hd (getName mp)). unfold state_in, Modules.Modules.getModuleState, Modules.Modules.isEnabled in *. rewrite to_default_lookup.
    destruct (p !! getName mp) as [[parser cfg]|]; [|done]. simpl. destruct (d (getName mp)); [|done]. intros H. specialize (Hd eq_refl). by rewrite H in Hd. }
  unfold what. destruct (default_state d p (getName mp) Hd) as [E|[En E]].
  - rewrite E. destruct (state_in p (getName mp)) eqn:E'; try done. by rewrite He.
  - rewrite E. by destruct (state_in p (getName mp)).
Qed.
Lemma by_default_default d p c mp : harmless d p -> by_default (to_default d p) c mp = by_default p c mp.
Proof. intros Hd. unfold by_default. by destruct (default_state d p (getName mp) Hd) as [->|[-> ->]]. Qed.
Lemma set_persistor_id c : set_persistor (persistor c) c = c.
Proof. by destruct c. Qed.
Lemma isDisabled_state mp c : isDisabled mp c = bool_decide (state_in (persistor c) (getName mp) = Modules.Modules.DISABLED).
Proof.
  unfold isDisabled, state_in, Modules.Modules.isDisabled, Modules.Modules.getModuleState. by destruct (persistor c !! getName mp) as [[]|].
Qed.
Lemma enabled_state name stream p : Modules.Modules.isEnabled name stream p = true -> state_in p name = Modules.Modules.ENABLED.
Proof.
  unfold state_in, Modules.Modules.isEnabled, Modules.Modules.getModuleState. destruct (p !! name) as [[]|]; [|done]. by intros [?%bool_decide_eq_true _]%andb_true_iff.
Qed.
Lemma to_default_one p c mp : by_default p c mp = true ->
  exists b, Modules.Modules.changeState (getName mp) Modules.Modules.DEFAULT p
    = match p !! getName mp with
      | Some _ => (to_default (fun name => by_default p c mp && bool_decide (name = getName mp)) p, Ok b)
      | None => (p, Err (Modules.Modules.NoModule (getName mp)))
      end.
Proof.
  intros ->. destruct (p !! getName mp) as [[parser cfg]|] eqn:E; cycle 1.
  { exists false. unfold Modules.Modules.changeState, Modules.Modules.getEntry, Modules.Modules.bind. by rewrite E. }
  rewrite (Modules.Modules.changeState_ok _ _ _ _ _ E). cbn [andb]. case_decide as Hst; eexists; f_equal; apply map_eq; intros name; rewrite to_default_lookup.
  - case_bool_decide as Hn; [|by destruct (p !! name)]. subst name. rewrite E. simpl. do 2 f_equal. rewrite <-Hst. by destruct cfg.
  - case_bool_decide as Hn; [subst name; by rewrite lookup_insert_eq, E|]. rewrite lookup_insert_ne by done. by destruct (p !! name).
Qed.
Lemma choose_ok mp c : is_Some (persistor c !! getName mp) ->
  choose mp c = (set_persistor (to_default (fun name => by_default (persistor c) c mp && bool_decide (name = getName mp)) (persistor c)) c, Ok (what (persistor c) c mp)).
Proof.
  intros [[parser cfg] E]. set (d := fun name => _).
  assert (Hsame : by_default (persistor c) c mp = false -> set_persistor (to_default d (persistor c)) c = c).
  { intros Hf. rewrite <-(set_persistor_id c) at 3. f_equal. rewrite <-(to_default_none (persistor c)) at 2. apply to_default_ext. intros name. unfold d. by rewrite Hf. }
  assert (Est : state_in (persistor c) (getName mp) = Modules.Modules.state cfg) by (unfold state_in, Modules.Modules.getModuleState; by rewrite E).
  pose proof (to_default_one (persistor c) c mp) as Hone. rewrite E in Hone.
  unfold choose. erewrite bind_Ok; [|unfold on_persistor; by rewrite (Modules.Modules.getState_ok _ _ _ _ E)]. rewrite set_persistor_id, <-Est.
  unfold by_default, what in *. destruct (decide (state_in (persistor c) (getName mp) = Modules.Modules.DISABLED)) as [Ed|Ed].
  { rewrite Ed in *. rewrite bool_decide_true by done. by rewrite Hsame. }
  rewrite bool_decide_false by done. unfold ask. erewrite bind_Ok by done. erewrite bind_Ok by done. erewrite bind_Ok by done.
  rewrite isDisabled_state, bool_decide_false by done. fold (isEnabled mp c) in *. destruct (isEnabled mp c) eqn:Een.
  { rewrite (enabled_state _ _ _ Een) in *. by rewrite Hsame. }
  fold (default_stream c mp). destruct (default_stream c mp) eqn:Edef; cycle 1.
  { rewrite andb_false_r in *. rewrite Hsame by done. by destruct (state_in (persistor c) (getName mp)). }
  destruct (decide (state_in (persistor c) (getName mp) = Modules.Modules.ENABLED)) as [Ee|Ee].
  { rewrite Ee in *. rewrite Hsame by done. by rewrite bool_decide_false by naive_solver. }
  rewrite bool_decide_true by done. rewrite andb_true_r in *. assert (Hn : neutral (state_in (persistor c) (getName mp)) = true) by (by destruct (state_in (persistor c) (getName mp))).
  destruct (Hone Hn) as [b Hb]. erewrite bind_Ok; [|unfold on_persistor; by rewrite Hb]. unfold ret, d. rewrite andb_true_r. do 2 f_equal. clear -Hn. revert Hn. by destruct (state_in (persistor c) (getName mp)).

Qed.

Definition is_use (x : choice) : bool := match x with Use => true | _ => false end.
Definition is_exclude (x : choice) : bool := match x with Exclude => true | _ => false end.
Definition used p c (l : list (Z * ModulePackage)) : list ModulePackage := List.filter (fun mp => is_use (what p c mp)) (map snd l).
Definition excluded_ids p c (l : list (Z * ModulePackage)) : list Z := map fst (List.filter (fun x => is_exclude (what p c (snd x))) l).
(** The modules of which a default stream is among those. *)
Definition newly_default p c (l : list (Z * ModulePackage)) name : bool := existsb (fun x => by_default p c (snd x) && bool_decide (name = getName (snd x))) l.
Lemma newly_harmless p c l : harmless (newly_default p c l) p.
Proof.
  intros name (x & _ & [[H _]%andb_true_iff ->%bool_decide_eq_true]%andb_true_iff)%existsb_exists. exact H.
Qed.
Lemma to_default_twice d d' p : to_default d' (to_default d p) = to_default (fun name => d name || d' name) p.
Proof.
  apply map_eq. intros name. rewrite !to_default_lookup. destruct (p !! name) as [[parser cfg]|]; simpl; [|done]. by destruct (d name), (d' name).
Qed.
Lemma set_persistor_twice p p' c : set_persistor p' (set_persistor p c) = set_persistor p' c.
Proof. done. Qed.
Lemma choose_all_ok l d p c ex packages : (forall x, x ∈ l -> is_Some (p !! getName (snd x))) -> harmless d p ->
  choose_all l ex packages (set_persistor (to_default d p) c)
  = (set_persistor (to_default (fun name => d name || newly_default p c l name) p) c, Ok (fold_left pset_set (excluded_ids p c l) ex, packages ++ used p c l)).
Proof.
  revert d ex packages. induction l as [|[id mp] l IH]; intros d ex packages Hl Hd.
  - cbn. rewrite app_nil_r. unfold ret. do 2 f_equal. apply to_default_ext. intros name. by rewrite orb_false_r.
  - cbn [choose_all]. set (c1 := set_persistor (to_default d p) c). set (d' := fun name => d name || by_default p c mp && bool_decide (name = getName mp)).
    assert (Hd' : harmless d' p).
    { intros name [H|[[H _]%andb_true_iff ->%bool_decide_eq_true]%andb_true_iff]%orb_true_iff; [by apply Hd|done]. }
    erewrite bind_Ok; [|apply choose_ok; unfold c1; simpl; rewrite to_default_lookup, fmap_is_Some; apply (Hl (id, mp)); by left].
    change (what (persistor c1) c1 mp) with (what (to_default d p) c mp). change (by_default (persistor c1) c1 mp) with (by_default (to_default d p) c mp).
    rewrite (what_default d p c mp Hd), (by_default_default d p c mp Hd). unfold c1. cbn [persistor set_persistor]. rewrite set_persistor_twice, to_default_twice.
    fold d'. assert (Hl' : forall x, x ∈ l -> is_Some (p !! getName (snd x))) by (intros; apply Hl; by right).
    assert (E : forall name, d' name || newly_default p c l name = d name || newly_default p c ((id, mp) :: l) name) by (intros; unfold d'; simpl; by rewrite orb_assoc).
    unfold used, excluded_ids in *. simpl. destruct (what p c mp); simpl; rewrite (IH d' _ _ Hl' Hd'), (to_default_ext _ _ p E), <-?app_assoc; reflexivity.
Qed.

(** ** The goals for modules *)

Lemma onward_trans s1 s2 s3 : onward s1 s2 -> onward s2 s3 -> onward s1 s3.
Proof. intros (_ & A2 & _) (B1 & B2 & B3). split; [done|]. split; [by eapply alike_trans|done]. Qed.
Lemma ready_onward s : coherent s -> onward s (make_provides_ready (dnf_sack_recompute_considered s)).
Proof.
  intros Hs. destruct (recomputed s Hs) as (R1 & R2 & R3). apply (steady_onward s (dnf_sack_recompute_considered s)); [|by apply ready_steady].
  split; [done|]. split; [done|]. by eapply says_room.
Qed.
Definition module_job (optional : bool) (id : Z) : Z * Z := (Z.lor SOLVER_SOLVABLE_PROVIDES (install_action optional), id).
(** The dependency on a module, if the pool has it; a module asks for what provides it. *)
Definition asked s mp : option Z := snd (new_dependency (Some (lit "module(" ++ getNameStreamVersion mp ++ lit ")")) s).
Definition jobs_for (optional : bool) (dep : option Z) : Job := match dep with Some id => [module_job optional id] | None => [] end.
Definition requested (optional : bool) (dep : option Z) (g : Staging) : Staging := mkStaging (staging g ++ jobs_for optional dep) (Z.lor (actions g) INSTALL_ACTIONS).
Lemma install_provided optional dep s (g : Staging) : coherent s ->
  exists s', install_sltr (set_provides ((fun id => mkFilter HY_PKG_PROVIDES HY_EQ (MReldep [id])) <$> dep) new_selector) optional s g = (s', requested optional dep g, Ok tt)
    /\ (s' = s \/ onward s s') /\ coherent s'.
Proof.
  intros Hs. unfold install_sltr, request_sltr, sltrToJob, requested, jobs_for. destruct dep as [id|]; cbn [any_req_filter any_opt_filter].
  - cbn -[make_provides_ready dnf_sack_recompute_considered]. pose proof (ready_onward s Hs) as Hon. eexists. split; [reflexivity|]. split; [by right|apply Hon].
  - cbn. exists s. rewrite app_nil_r. split; [done|]. split; [by left|done].
Qed.
Definition known c mp : Prop := is_Some (persistor c !! getName mp).
Definition asked_weakly p mp : bool := bool_decide (state_in p (getName mp) = Modules.Modules.DEFAULT).
Lemma state_of_known mp c : known c mp -> Modules.Modules.getState (getName mp) (persistor c) = (persistor c, Ok (state_in (persistor c) (getName mp))).
Proof.
  intros [[parser cfg] E]. rewrite (Modules.Modules.getState_ok _ _ _ _ E). unfold state_in, Modules.Modules.getModuleState. by rewrite E.
Qed.
Definition both_requested p s mp (goals : Staging * Staging) : Staging * Staging :=
  (requested (asked_weakly p mp) (asked s mp) (fst goals), requested true (asked s mp) (snd goals)).
Lemma stage_module_ok mp goals c : known c mp -> coherent (moduleSack c) -> opt_room (moduleSack c) (considered (moduleSack c)) ->
  exists s', stage_module mp goals c = (set_sack s' c, Ok (both_requested (persistor c) (moduleSack c) mp goals)) /\ onward (moduleSack c) s'.
Proof.
  intros Hk Hs Hroom. destruct goals as [goal goalWeak]. unfold stage_module, on_persistor, both_requested, asked. erewrite bind_Ok; [|by rewrite state_of_known].
  rewrite set_persistor_id. fold (asked_weakly (persistor c) mp). set (text := lit "module(" ++ _).
  unfold selector_set. rewrite (eq_refl : valid_setting HY_PKG_PROVIDES HY_EQ = true). cbn [negb there filterName filterFile pkgs new_selector orb Z.eqb].
  rewrite (eq_refl : HY_EQ =? HY_GLOB = false). cbn [negb].
  pose proof (dependency_steady (Some text) (moduleSack c) Hs) as Hd. destruct (new_dependency (Some text) (moduleSack c)) as [s1 dep]. cbn [fst snd] in *.
  assert (H1 : onward (moduleSack c) s1) by (apply (steady_onward _ (moduleSack c)); [split; [done|split; [apply alike_refl|done]]|done]).
  assert (Hsel : exists x, match dep with
    | Some reldep => (s1, set_provides (Some (mkFilter HY_PKG_PROVIDES HY_EQ (MReldep [reldep]))) new_selector, Ok Selected)
    | None => (s1, set_provides None new_selector, Ok BAD_SELECTOR)
    end = (s1, set_provides ((fun id => mkFilter HY_PKG_PROVIDES HY_EQ (MReldep [id])) <$> dep) new_selector, x : result failure selected)) by (destruct dep; by eexists).
  destruct Hsel as [x Hx]. replace (match dep with Some reldep => _ | None => _ end) with (s1, set_provides ((fun id => mkFilter HY_PKG_PROVIDES HY_EQ (MReldep [id])) <$> dep) new_selector, x) by (rewrite <-Hx; by destruct dep).
  cbv beta iota zeta.
  destruct (install_provided (asked_weakly (persistor c) mp) dep s1 goal (proj1 H1)) as (s2 & E2 & O2 & C2). rewrite E2.
  destruct (install_provided true dep s2 goalWeak C2) as (s3 & E3 & O3 & C3). rewrite E3. exists s3. split; [done|].
  assert (H2 : onward (moduleSack c) s2) by (destruct O2 as [->|?]; [done|by eapply onward_trans]). destruct O3 as [->|?]; [done|by eapply onward_trans].
Qed.
Lemma set_sack_twice s s' c : set_sack s' (set_sack s c) = set_sack s' c.
Proof. done. Qed.
Lemma set_sack_id c : set_sack (moduleSack c) c = c.
Proof. by destruct c. Qed.
(** What the modules ask for, one after the other, in sacks that come from [s]. *)
Inductive all_requested p s : list ModulePackage -> Staging * Staging -> Staging * Staging -> Prop :=
  | requested_none goals : all_requested p s [] goals goals
  | requested_more mp l s1 goals goals' : onward s s1 -> all_requested p s l (both_requested p s1 mp goals) goals' -> all_requested p s (mp :: l) goals goals'.
Lemma requested_from p s s1 l goals goals' : onward s s1 -> all_requested p s1 l goals goals' -> all_requested p s l goals goals'.
Proof. intros H. induction 1 as [|mp l s2 goals goals' H2 _ IH]; [constructor|]. eapply requested_more, IH. by eapply onward_trans. Qed.
Lemma stage_modules_ok l goals c : (forall mp, mp ∈ l -> known c mp) -> coherent (moduleSack c) -> opt_room (moduleSack c) (considered (moduleSack c)) ->
  exists s' goals', stage_modules l goals c = (set_sack s' c, Ok goals') /\ onward (moduleSack c) s' /\ all_requested (persistor c) (moduleSack c) l goals goals'.
Proof.
  revert goals c. induction l as [|mp l IH]; intros goals c Hk Hs Hroom; cbn [stage_modules].
  - exists (moduleSack c), goals. rewrite set_sack_id. split; [done|]. split; [split; [done|split; [apply alike_refl|done]]|constructor].
  - destruct (stage_module_ok mp goals c) as (s1 & E1 & O1); [apply Hk; by left|done..|].
    erewrite bind_Ok by exact E1. destruct (IH (both_requested (persistor c) (moduleSack c) mp goals) (set_sack s1 c)) as (s2 & g2 & E2 & O2 & S2); [|apply O1..|].
    { intros mp' Hin. apply (Hk mp'). by right. }
    exists s2, g2. rewrite E2. split; [done|]. split; [by eapply onward_trans|]. eapply (requested_more _ _ _ _ (moduleSack c)).
    + split; [done|]. split; [apply alike_refl|done].
    + by eapply requested_from.
Qed.

(** The sack of modules can be solved in. *)
Definition solvable_sack s (io : Installonly) : Prop := coherent s /\ running_kernel_id io < nsolvables (pool s).
Lemma run_goal_ok fl (g : Goal) c : solvable_sack (moduleSack c) (moduleIo c) -> opt_room (moduleSack c) (considered (moduleSack c)) -> opt_ok (protectedPkgs g) ->
  exists s' io' g' failed, run_goal fl g c = (set_sack_io s' io' c, Ok (g', failed)) /\ run fl (moduleSack c) (moduleIo c) g = Ok (s', io', g', failed)
    /\ onward (moduleSack c) s' /\ outcome s' io' g'
    /\ (failed = false -> is_Some (trans g')).
Proof.
  intros [Hs Hio] Hroom Hp. unfold run_goal. destruct (run_verdict fl (moduleSack c) (moduleIo c) g Hs (fun _ => Hroom) Hp Hio)
    as (s' & io' & g' & failed & -> & H1 & H2 & (s1 & io1 & kernel & prot & _ & _ & Hv)).
  exists s', io', g', failed. split; [done|]. split; [done|]. split; [done|]. split; [done|]. intros ->. unfold verdict in Hv. by destruct (trans g').
Qed.
Lemma outcome_solvable s io (g : Goal) s0 : onward s0 s -> outcome s io g -> solvable_sack s io /\ opt_room s (considered s) /\ opt_ok (protectedPkgs g).
Proof. intros (H1 & _ & H2) (_ & H3 & _ & prot & -> & H4). done. Qed.
(** The active modules are those that a solution installs. *)
Definition active_of s (m : Map) : Prop := exists io (g : Goal), outcome s io g /\ listInstalls s g = Ok m.
Lemma activate_ok (g : Goal) c : outcome (moduleSack c) (moduleIo c) g -> is_Some (trans g) ->
  exists m, activate g c = (set_activated (Some m) c, Ok tt) /\ listInstalls (moduleSack c) g = Ok m /\ active_of (moduleSack c) m.
Proof.
  intros Ho [t Ht]. unfold activate. assert (E : exists m, listInstalls (moduleSack c) g = Ok m) by (unfold listInstalls, listResults; rewrite Ht; by eexists).
  destruct E as [m E]. rewrite E. exists m. split; [done|]. split; [done|]. by exists (moduleIo c), g.
Qed.
Lemma problems_ok (g : Goal) c : outcome (moduleSack c) (moduleIo c) g ->
  exists problems, of_goal (describeAllProblemRules false) g c = (c, Ok problems) /\ describeAllProblemRules false (moduleSack c) g = Ok problems.
Proof.
  intros (_ & _ & (pl & solver & job & _ & Es & _) & prot & Ep & _). unfold of_goal, describeAllProblemRules.
  assert (En : exists n, countProblems g = Ok n) by (unfold countProblems; rewrite Es; by eexists). destruct En as [n En]. rewrite En. cbn [result_bind].
  destruct (describe_each_spec false (seqZ 0 n) [] (moduleSack c) g) as (out & H1 & _); [intros i _; by eapply describe_total|constructor|].
  rewrite H1. by exists out.
Qed.
Lemma conflicts_ok (g : Goal) c : outcome (moduleSack c) (moduleIo c) g ->
  exists m, of_goal (listConflictPkgs PACKAGE_STATE_AVAILABLE) g c = (c, Ok m) /\ listConflictPkgs PACKAGE_STATE_AVAILABLE (moduleSack c) g = Ok m /\ map_ok (pool (moduleSack c)) m.
Proof.
  intros (_ & _ & (pl & solver & job & Hn & Es & _) & _). unfold of_goal, listConflictPkgs.
  destruct (problem_pkgs_spec conflictPkgs PACKAGE_STATE_AVAILABLE (moduleSack c) g _ Es) as (n & m & _ & -> & Hm & _); [|by exists m].
  apply problem_range; [by left|done].
Qed.

(** *** What solving leaves of the container *)

(** More may be excluded afterwards, and nothing else that counts for the choice of modules is another. *)
Record solved_from c c' : Prop := {
  from_persistor : persistor c' = persistor c;
  from_modules : modules c' = modules c;
  from_defaults : moduleDefaults c' = moduleDefaults c;
  from_sack : solvable_sack (moduleSack c') (moduleIo c');
  from_packages : same_packages (pool (moduleSack c)) (pool (moduleSack c'));
  from_excludes : forall k, in_map (pkg_excludes (moduleSack c)) k = true -> in_map (pkg_excludes (moduleSack c')) k = true;
}.
Lemma from_trans c1 c2 c3 : solved_from c1 c2 -> solved_from c2 c3 -> solved_from c1 c3.
Proof.
  intros [A1 A2 A3 A4 A5 A6] [B1 B2 B3 B4 B5 B6]. split; try congruence; [|by auto]. by rewrite A5.
Qed.
Lemma from_onward c s' io' : onward (moduleSack c) s' -> running_kernel_id io' < nsolvables (pool s') -> solved_from c (set_sack_io s' io' c).
Proof.
  intros (H1 & H2 & _) Hio. split; try done; simpl; [apply H2|]. intros k. by rewrite (alike_excludes _ _ H2).
Qed.
Lemma from_sack_only c s' : solvable_sack (moduleSack c) (moduleIo c) -> onward (moduleSack c) s' -> solved_from c (set_sack s' c).
Proof.
  intros [_ Hio] Ho. apply (from_onward c s' (moduleIo c) Ho). destruct Ho as (_ & Ha & _). by destruct (alike_n _ _ Ha) as [-> _].
Qed.
Lemma from_activated o c c' : solved_from c c' -> solved_from c (set_activated o c').
Proof. by intros [A1 A2 A3 A4 A5 A6]. Qed.
Lemma add_excludes_spec s m : coherent s -> bytes_ok m ->
  let s' := dnf_sack_add_excludes_or_includes PkgExcludes m s in
  coherent s' /\ pool s' = pool s /\ considered s' = considered s /\ forall k, in_map (pkg_excludes s') k = in_map (pkg_excludes s) k || bit m k.
Proof.
  intros Hs Hm s'. split; [by apply add_coherent|]. split; [done|]. split; [done|]. intros k. unfold s', dnf_sack_add_excludes_or_includes. simpl.
  pose proof (ok_maps s Hs PkgExcludes) as Hw. simpl in Hw. pose proof (nsolvables_range (pool s)) as Hn. destruct (pkg_excludes s) as [e|]; simpl.
  - by apply map_or_spec.
  - destruct (make_ok (nsolvables (pool s))) as (B1 & B2 & B3); [lia|]. unfold SolvMap.make in *. destruct (map_or_spec _ m k B1 Hm) as (_ & _ & ->). by rewrite B3.
Qed.
Definition fresh_sack s : DnfSack := make_provides_ready (dnf_sack_recompute_considered s).
Lemma from_excluding c m : solvable_sack (moduleSack c) (moduleIo c) -> bytes_ok m ->
  solved_from c (set_sack (dnf_sack_add_excludes_or_includes PkgExcludes m (moduleSack c)) c).
Proof.
  intros [Hs Hio] Hm. destruct (add_excludes_spec (moduleSack c) m Hs Hm) as (H1 & H2 & H3 & H4). split; try done. intros k Hk. simpl in *. by rewrite H4, Hk.
Qed.
(** How solving ends: which modules are active, and what is reported. *)
Definition ending c (l : list ModulePackage) (answer : list (list cstr) * ModuleErrorType) : Prop :=
  (snd answer = NO_ERROR -> fst answer = [])
  /\ match activatedModules c with
     | None => l = [] /\ snd answer = NO_ERROR \/ l <> [] /\ snd answer = CANNOT_RESOLVE_MODULES
     | Some m => l <> [] /\ snd answer <> CANNOT_RESOLVE_MODULES /\ active_of (moduleSack c) m
     end.
(** The ways of solving, from a sack with two goals: by the first goal, with requests for
    defaults taken for strong ones; by the same goal as it was made; and by the second goal, when what
    was in conflict is excluded. What is active and what is reported tells which one it was. *)
Inductive resolved_by s (io : Installonly) (strong weak : Staging) : DnfSack -> option Map -> list (list cstr) * ModuleErrorType -> Prop :=
  | by_all s1 io1 g1 m : run DNF_IGNORE_WEAK s io (goal_of strong) = Ok (s1, io1, g1, false) -> listInstalls s1 g1 = Ok m ->
      resolved_by s io strong weak s1 (Some m) ([], NO_ERROR)
  | without_defaults s1 io1 g1 problems s2 io2 g2 m : run DNF_IGNORE_WEAK s io (goal_of strong) = Ok (s1, io1, g1, true) -> describeAllProblemRules false s1 g1 = Ok problems ->
      run DNF_NONE s1 io1 g1 = Ok (s2, io2, g2, false) -> listInstalls s2 g2 = Ok m ->
      resolved_by s io strong weak s2 (Some m) (problems, ERROR_IN_DEFAULTS)
  | without_conflicts s1 io1 g1 problems s2 io2 g2 conflicts s3 io3 g3 failed active : run DNF_IGNORE_WEAK s io (goal_of strong) = Ok (s1, io1, g1, true) ->
      describeAllProblemRules false s1 g1 = Ok problems ->
      run DNF_NONE s1 io1 g1 = Ok (s2, io2, g2, true) -> listConflictPkgs PACKAGE_STATE_AVAILABLE s2 g2 = Ok conflicts ->
      run DNF_NONE (dnf_sack_add_excludes_or_includes PkgExcludes conflicts s2) io2 (goal_of weak) = Ok (s3, io3, g3, failed) ->
      match active with Some m => failed = false /\ listInstalls s3 g3 = Ok m | None => failed = true end ->
      resolved_by s io strong weak s3 active (problems, if failed then CANNOT_RESOLVE_MODULES else ERROR).
(** No modules are not solved for. *)
Definition resolving p s (io : Installonly) (l : list ModulePackage) s' (active : option Map) (answer : list (list cstr) * ModuleErrorType) : Prop :=
  l = [] /\ active = None /\ answer = ([], NO_ERROR)
  \/ l <> [] /\ exists s1 strong weak, onward s s1 /\ all_requested p s l (new_staging, new_staging) (strong, weak) /\ resolved_by s1 io strong weak s' active answer.
Lemma activated c0 c (g : Goal) l problems type : solved_from c0 c -> outcome (moduleSack c) (moduleIo c) g -> is_Some (trans g) ->
  l <> [] -> type <> CANNOT_RESOLVE_MODULES -> (type = NO_ERROR -> problems = []) ->
  exists c' m, ModuleSolving.bind (activate g) (fun _ => ret (problems, type)) c = (c', Ok (problems, type)) /\ listInstalls (moduleSack c) g = Ok m
    /\ moduleSack c' = moduleSack c /\ activatedModules c' = Some m /\ solved_from c0 c' /\ ending c' l (problems, type).
Proof.
  intros Hc Ho Ht Hl Ht' Hp. destruct (activate_ok g c Ho Ht) as (m & E & Hi & Ha). erewrite bind_Ok by exact E. eexists _, m. split; [reflexivity|].
  split; [done|]. split; [done|]. split; [done|]. split; [by apply from_activated|]. split; [done|]. simpl. by split.
Qed.
Lemma module_solve_ok l c : (forall mp, mp ∈ l -> known c mp) -> solvable_sack (moduleSack c) (moduleIo c) ->
  exists c' answer, moduleSolve l c = (c', Ok answer) /\ solved_from c c' /\ ending c' l answer
    /\ resolving (persistor c) (moduleSack c) (moduleIo c) l (moduleSack c') (activatedModules c') answer.
Proof.
  intros Hk [Hs Hio]. unfold moduleSolve. destruct l as [|mp l0] eqn:El.
  { eexists _, _. split; [reflexivity|]. split; [apply from_activated; by split|]. split; [split; [done|by left]|by left]. }
  rewrite <-El in *. assert (Hl : l <> []) by (by subst). clear El. pose proof (ready_onward _ Hs) as O1. fold (fresh_sack (moduleSack c)) in *.
  erewrite bind_Ok by reflexivity. set (c1 := set_sack (fresh_sack (moduleSack c)) c). pose proof (from_sack_only c (fresh_sack (moduleSack c)) (conj Hs Hio) O1) as F1. fold c1 in F1.
  destruct (stage_modules_ok l (new_staging, new_staging) c1) as (s2 & [g gw] & E2 & O2 & Hreq); [done|apply O1..|].
  erewrite bind_Ok by exact E2. set (c2 := set_sack s2 c1). pose proof (from_trans _ _ _ F1 (from_sack_only c1 s2 (from_sack _ _ F1) O2)) as F2. fold c2 in F2.
  assert (Hres : forall s' active answer, resolved_by s2 (moduleIo c2) g gw s' active answer -> resolving (persistor c) (moduleSack c) (moduleIo c) l s' active answer).
  { intros s' active answer H. right. split; [done|]. exists s2, g, gw. split; [by eapply onward_trans|]. split; [by eapply requested_from|done]. }
  destruct (run_goal_ok DNF_IGNORE_WEAK (goal_of g) c2 (from_sack _ _ F2) (proj2 (proj2 O2)) I) as (s3 & io3 & g3 & failed3 & E3 & R3' & O3 & U3 & T3).
  cbn [fst]. erewrite bind_Ok by exact E3. cbv beta iota. set (c3 := set_sack_io s3 io3 c2). pose proof (from_trans _ _ _ F2 (from_onward c2 s3 io3 O3 (proj1 (proj2 U3)))) as F3. fold c3 in F3.
  destruct failed3; cbn [negb]; cycle 1.
  { destruct (activated c c3 g3 l [] NO_ERROR F3 U3 (T3 eq_refl) Hl) as (c' & m & E & Hi & E6 & E7 & H & H'); [done..|]. eexists _, _. split; [exact E|]. split; [done|]. split; [done|].
    rewrite E6, E7. apply Hres. by eapply by_all. }
  destruct (problems_ok g3 c3 U3) as (problems & Ep & Ep'). erewrite bind_Ok by exact Ep. destruct (outcome_solvable _ _ _ _ O3 U3) as (_ & R3 & P3).
  destruct (run_goal_ok DNF_NONE g3 c3 (from_sack _ _ F3) R3 P3) as (s4 & io4 & g4 & failed4 & E4 & R4' & O4 & U4 & T4).
  erewrite bind_Ok by exact E4. cbv beta iota. set (c4 := set_sack_io s4 io4 c3). pose proof (from_trans _ _ _ F3 (from_onward c3 s4 io4 O4 (proj1 (proj2 U4)))) as F4. fold c4 in F4.
  destruct failed4; cbn [negb]; cycle 1.
  { destruct (activated c c4 g4 l problems ERROR_IN_DEFAULTS F4 U4 (T4 eq_refl) Hl) as (c' & m & E & Hi & E6 & E7 & H & H'); [done..|]. eexists _, _. split; [exact E|]. split; [done|]. split; [done|].
    rewrite E6, E7. apply Hres. by eapply without_defaults. }
  destruct (conflicts_ok g4 c4 U4) as (m & Em & Em' & Hm). erewrite bind_Ok by exact Em. erewrite bind_Ok by reflexivity.
  pose proof (from_trans _ _ _ F4 (from_excluding c4 m (from_sack _ _ F4) (proj1 Hm))) as F5. set (c5 := set_sack _ c4) in *.
  destruct (outcome_solvable _ _ _ _ O4 U4) as (_ & R4 & _).
  destruct (run_goal_ok DNF_NONE (goal_of gw) c5 (from_sack _ _ F5) R4 I) as (s6 & io6 & g6 & failed6 & E6 & R6' & O6 & U6 & T6).
  cbn [snd]. erewrite bind_Ok by exact E6. cbv beta iota. set (c6 := set_sack_io s6 io6 c5). pose proof (from_trans _ _ _ F5 (from_onward c5 s6 io6 O6 (proj1 (proj2 U6)))) as F6. fold c6 in F6.
  pose proof (fun active => without_conflicts s2 (moduleIo c2) g gw s3 io3 g3 problems s4 io4 g4 m s6 io6 g6 failed6 active R3' Ep' R4' Em' R6') as Hlast.
  destruct failed6.
  - eexists _, _. split; [reflexivity|]. split; [by apply from_activated|]. split; [split; [done|by right]|]. apply Hres. by apply (Hlast None).
  - destruct (activated c c6 g6 l problems ERROR F6 U6 (T6 eq_refl) Hl) as (c' & act & E & Hi & E7 & E8 & H & H'); [done..|]. eexists _, _. split; [exact E|]. split; [done|]. split; [done|].
    rewrite E7, E8. apply Hres. by apply (Hlast (Some act)).
Qed.
Lemma set_ids l m : bytes_ok m -> (forall k, k ∈ l -> 0 <= k < bits m) ->
  bytes_ok (fold_left pset_set l m) /\ forall k, bit (fold_left pset_set l m) k = bit m k || bool_decide (k ∈ l).
Proof.
  intros Hm Hl. destruct (fold_set (fun _ => true) l m Hm Hl) as (H1 & _ & H3). split; [done|]. intros k. by rewrite H3, andb_true_r.
Qed.
(** A container as loading leaves it: modules are solvables of its sack, and their states are known. *)
Record container_ok c : Prop := {
  ok_known : forall x, x ∈ modules c -> known c (snd x);
  ok_sack : solvable_sack (moduleSack c) (moduleIo c);
  ok_ids : forall x, x ∈ modules c -> 2 <= fst x < nsolvables (pool (moduleSack c));
}.
(** The excludes of packages are now just [ids]. *)
Definition excludes_just s (ids : list Z) s' : Prop := coherent s' /\ pool s' = pool s /\ forall k, in_map (pkg_excludes s') k = bool_decide (k ∈ ids).
Lemma reset_spec s : coherent s -> let s' := dnf_sack_reset_excludes s in coherent s' /\ pool s' = pool s /\ pkg_excludes s' = None.
Proof.
  intros Hs. split; [by apply set_coherent|]. unfold dnf_sack_reset_excludes, dnf_sack_set_excludes_or_includes. simpl. by destruct (pkg_excludes s) eqn:E.
Qed.
Lemma resolving_ok c : container_ok c -> exists c' answer,
  resolveActiveModulePackages c = (c', Ok answer)
  /\ persistor c' = to_default (newly_default (persistor c) c (modules c)) (persistor c)
  /\ modules c' = modules c /\ container_ok c'
  /\ ending c' (used (persistor c) c (modules c)) answer
  /\ (exists s, excludes_just (moduleSack c) (excluded_ids (persistor c) c (modules c)) s
      /\ resolving (persistor c') s (moduleIo c) (used (persistor c) c (modules c)) (moduleSack c') (activatedModules c') answer)
  /\ forall id, id ∈ excluded_ids (persistor c) c (modules c) -> in_map (pkg_excludes (moduleSack c')) id = true.
Proof.
  intros [Hk [Hs Hio] Hr]. unfold resolveActiveModulePackages. set (p := persistor c). set (l := modules c) in *.
  erewrite bind_Ok by reflexivity. set (s1 := dnf_sack_reset_excludes (moduleSack c)). set (c1 := set_sack s1 c).
  destruct (reset_spec _ Hs) as (S1 & Hpool & Hnone). fold s1 in S1, Hpool, Hnone. unfold ask at 1. erewrite bind_Ok by reflexivity. cbn [fst snd]. change (modules c1) with l.
  pose proof (choose_all_ok l (fun _ => false) p c1 (pset_new (pool s1)) [] Hk) as Hch. rewrite to_default_none in Hch. change (set_persistor p c1) with c1 in Hch.
  erewrite bind_Ok; [|apply Hch; by intros name]. clear Hch. cbn [fst snd]. set (p' := to_default _ p). set (c2 := set_persistor p' c1).
  change (used p c1 l) with (used p c l). change (excluded_ids p c1 l) with (excluded_ids p c l).
  set (ex := fold_left pset_set (excluded_ids p c l) (pset_new (pool s1))). destruct (pset_new_spec (pool s1)) as [Hn Hb]. pose proof (map_room _ _ Hn) as Hroom.
  destruct (set_ids (excluded_ids p c l) (pset_new (pool s1)) (proj1 Hn)) as [X1 X2].
  { intros k Hin. apply list_elem_of_In, in_map_iff in Hin as (x & <- & [Hx _]%filter_In). apply list_elem_of_In, Hr in Hx. rewrite Hpool in *. lia. }
  fold ex in X1, X2. erewrite bind_Ok by reflexivity. cbn [moduleSack set_persistor set_sack c2 c1].
  destruct (add_excludes_spec s1 ex S1 X1) as (Y1 & Y2 & Y3 & Y4). set (s3 := dnf_sack_add_excludes_or_includes PkgExcludes ex s1) in *. set (c3 := set_sack s3 (set_persistor p' (set_sack s1 c))).
  assert (Hk' : forall x, x ∈ l -> is_Some (p' !! getName (snd x))).
  { intros x Hx. unfold p'. rewrite to_default_lookup, fmap_is_Some. by apply Hk. }
  destruct (module_solve_ok (used p c l) c3) as (c4 & answer & E & [F1 F2 F3 F4 F5 F6] & He & Hres).
  { intros mp Hmp. unfold used in Hmp. apply list_elem_of_In, filter_In in Hmp as [(x & <- & Hx)%in_map_iff _]. apply Hk'. by apply list_elem_of_In. }
  { split; [done|]. change (pool (moduleSack c3)) with (pool s3). by rewrite Y2, Hpool. }
  exists c4, answer. rewrite app_nil_l. split; [done|]. split; [rewrite F1; apply to_default_ext; intros name; done|]. split; [by rewrite F2|]. split.
  { split; [|done|]; rewrite F2; change (modules c3) with l; [intros x Hx; unfold known; rewrite F1; by apply Hk'|]. intros x Hx%Hr.
    rewrite (proj1 F5). change (pool (moduleSack c3)) with (pool s3). by rewrite Y2, Hpool. }
  split; [done|]. split; [|intros id Hid; apply F6; change (moduleSack c3) with s3; rewrite Y4, X2, bool_decide_true by done; by rewrite !orb_true_r].
  exists s3. split; [|by rewrite F1]. split; [done|]. split; [by rewrite Y2|]. intros k. rewrite Y4, X2, Hnone, Hb. done.
Qed.
(** Active modules are chosen among what is considered. *)
Class SolverConsiders : Prop := installs_considered pl m solver job id :
  let t := solver_create_transaction (snd (solver_solve pl (Some m) solver job)) in
  id ∈ steps t -> listed t SOLVER_TRANSACTION_INSTALL SOLVER_TRANSACTION_OBSOLETES id = true -> bit m id = true.
Lemma active_considered {HSC : SolverConsiders} s m id : active_of s m -> 2 <= id < nsolvables (pool s) -> pset_has m id = true -> should_consider s APPLY_EXCLUDES id = true.
Proof.
  intros (io & g & (Hsay & Hio & (pl & solver & job & Hn & Es & Ht) & _) & Hl) Hid Hm. unfold listInstalls, listResults in Hl.
  destruct (trans g) as [t|]; [|destruct (solv g); [destruct (removalOfProtected g)|]; done]. cbv zeta in Ht. destruct (fst _ =? 0); [|done]. injection Ht as Ht.
  destruct (listed_spec SOLVER_TRANSACTION_INSTALL SOLVER_TRANSACTION_OBSOLETES s t) as [M1 M2].
  { intros p Hp. rewrite Ht in Hp. apply steps_range in Hp. lia. }
  injection Hl as El. rewrite El in M1, M2. assert (Hbit : bit m id = true).
  { pose proof (map_room _ _ M1). rewrite <-Hm. symmetry. apply pset_has_spec; [apply M1|lia]. }
  rewrite M2 in Hbit. apply andb_true_iff in Hbit as [Hin%bool_decide_eq_true Hlist]. unfold says in Hsay. destruct (considered s) as [cm|] eqn:Ec; [|by apply Hsay].
  destruct Hsay as [_ Hsay]. rewrite <-Hsay by done. subst t. by eapply installs_considered.
Qed.
(** C29. Resolving the modules never throws: whatever is enabled, disabled or a
    default, it ends with an answer. Only states change, and only of modules in no
    state of their own that have the default stream: they become defaults. What is
    excluded from the sack are the disabled modules, and nothing else. The
    modules that are solved for are those of enabled streams, and those of default
    streams of modules that are neither enabled nor disabled; for each of them the
    goal has a job to install what provides its name, stream and version, a weak one if its state is
    that of a default. If this goal has a solution with all its jobs, there is no error; else
    problems are described, and if it has one without weak jobs, the error is in
    defaults; else what is in conflict is excluded, and if the goal with only weak jobs has
    a solution there is an error; else nothing can be resolved, and nothing is active.
    The modules that the solution installs are active. Without modules to solve for, none is. *)
Theorem resolve_spec c : container_ok c -> exists c' answer,
  resolveActiveModulePackages c = (c', Ok answer)
  /\ container_ok c' /\ modules c' = modules c
  /\ persistor c' = to_default (newly_default (persistor c) c (modules c)) (persistor c)
  /\ exists s, excludes_just (moduleSack c) (excluded_ids (persistor c) c (modules c)) s
      /\ resolving (persistor c') s (moduleIo c) (used (persistor c) c (modules c)) (moduleSack c') (activatedModules c') answer.
Proof.
  intros Hc. destruct (resolving_ok c Hc) as (c' & answer & H1 & H2 & H3 & H4 & _ & H5 & _). by exists c', answer.
Qed.
(** C30. A module that is disabled is never active, whatever else is enabled,
    required or a default, and however solving ends. *)
Theorem disabled_never_active {HSC : SolverConsiders} c c' answer id mp : container_ok c -> (id, mp) ∈ modules c -> isDisabled mp c = true ->
  resolveActiveModulePackages c = (c', answer) -> isModuleActive id c' = false.
Proof.
  intros Hc Hin Hd E. destruct (resolving_ok c Hc) as (c1 & a & E1 & _ & H3 & [_ _ Hr] & [_ H4] & _ & Hex). rewrite E in E1. injection E1 as <- ->.
  rewrite isDisabled_state in Hd. apply bool_decide_eq_true in Hd. assert (He : in_map (pkg_excludes (moduleSack c')) id = true).
  { apply Hex. apply list_elem_of_In, in_map_iff. exists (id, mp). split; [done|]. apply filter_In. split; [by apply list_elem_of_In|]. unfold what. simpl. by rewrite Hd. }
  unfold isModuleActive. destruct (activatedModules c') as [m|]; [|done]. destruct H4 as (_ & _ & Ha). destruct (pset_has m id) eqn:Hm; [|done].
  pose proof (active_considered (moduleSack c') m id Ha) as Hs. rewrite H3 in Hr. specialize (Hs (Hr (id, mp) Hin) Hm). unfold should_consider in Hs. rewrite He in Hs.
  apply andb_true_iff in Hs as [_ Hs]. simpl in Hs. by rewrite andb_false_r in Hs.
Qed.
End solving.
End ModuleSolved.
