(* ===== verification/ModuleTree.v ===== *)
(** * ModuleTree: enabling modules with what they require (theorems on [ModuleSolving])

    The query for required modules, and the loops of [enableDependencyTree]. *)

From S2P Require Import Prelude Numeric Sack Solv Regex Specs Packages DnfSack DnfQuery DnfLatest DnfApply DnfJobs DnfRequests DnfGoal DnfSolved ModuleSolving ModuleSolved.
From S2P Require Modules.
From stdpp Require Import sorting.
Local Open Scope Z_scope.

Module ModuleTree.
Import QueryCmp Matches Packages DnfSack DnfQuery DnfLatest DnfApply DnfJobs DnfRequests DnfGoal DnfSolved ModuleSolving ModuleSolved.

Section solving.
Context {HP : Reldep.Pool} {HL : LibsolvPool} {HS : Libsolv} {HG : LibsolvGrow} {HR : ProvidesReady}.
Context {HU : LibsolvUpdates} {HA : Advisories} {HQ : PackageSets} {HD : Dependencies} {HM : MissingFilters} {HJ : SolverJobs}.
Context {HV : Solving} {HE : PackageSetEdits}.
Context {P : Type} {HK : Modules.KeyFile P}.
Context {HLL : LibsolvPoolLaws} {HSL : LibsolvLaws HS} {HGL : LibsolvGrowLaws HG} {HRL : ProvidesReadyLaws}.
Context {HUL : LibsolvUpdatesLaws} {HAL : AdvisoriesLaws} {HQL : PackageSetsLaws HQ} {HDL : DependenciesLaws} {HML : MissingFiltersLaws}.
Context {HJL : SolverJobsLaws} {HVL : SolvingLaws} {HEL : PackageSetEditsLaws}.
Implicit Types (p : Modules.Modules.persistor P) (c : Container P) (mp : ModulePackage) (s : DnfSack) (name : cstr).

(** ** The modules that have to be enabled with others *)

Context {HMR : ModuleRequires}.
(** What is required and provided is not touched by making indices and by filters,
    and the filter by provides decides the packages of the result by what solvables provide. *)
Definition deps_of s id : list Z := package_requires (pool s) id.
Definition provides_of s d : list Z := provides (pool (make_provides_ready s)) d.
Definition same_deps s s' : Prop := (forall id, deps_of s' id = deps_of s id) /\ forall d, provides_of s' d = provides_of s d.
Class DependenciesKept : Prop := {
  kept_ready s : same_deps s (make_provides_ready s);
  kept_pool s s' : pool s' = pool s -> provides_ready s' = provides_ready s -> same_deps s s';
  kept_filter fl f res m s : same_deps s (fst (missing_filter fl f res m s));
  provides_filter fl f res m s deps k : keyname f = HY_PKG_PROVIDES -> matches f = MReldep deps -> coherent s -> result_ok (pool s) res -> map_ok (pool s) m ->
    bit res k = true -> bit (snd (missing_filter fl f res m s)) k = bit m k || existsb (fun d => bool_decide (k ∈ provides_of s d)) deps;
}.
Context {HDK : DependenciesKept}.
Lemma same_deps_trans s1 s2 s3 : same_deps s1 s2 -> same_deps s2 s3 -> same_deps s1 s3.
Proof. intros [A1 A2] [B1 B2]. split; intros; [by rewrite B1|by rewrite B2]. Qed.
Lemma same_deps_refl s : same_deps s s.
Proof. done. Qed.
Lemma map_deps (c : option Map) fl s : same_deps s (fst (dnf_sack_recompute_considered_map c fl s)).
Proof.
  unfold dnf_sack_recompute_considered_map. destruct (match c with None => _ | Some m => _ end) as [m|]; [|done]. set (s1 := make_provides_ready s).
  destruct (ignore_regular fl); [apply kept_ready|]. destruct (pkg_includes s1) as [i|]; [|apply kept_ready].
  apply (same_deps_trans _ s1); [apply kept_ready|by apply kept_pool].
Qed.
Lemma init_deps fl (c : option Map) s : same_deps s (fst (fst (initResult fl c s))).
Proof.
  unfold initResult. set (start := match pkg_solvables s with Some _ => _ | None => _ end).
  assert (H0 : same_deps s (fst start)) by (unfold start; destruct (pkg_solvables s); [destruct (_ && _)|]; (done || by apply kept_pool)).
  destruct start as [s1 m]. simpl in H0. destruct (negb _ && negb _).
  - simpl. apply (same_deps_trans _ s1); [done|]. unfold dnf_sack_recompute_considered. destruct (considered_uptodate s1); [done|].
    pose proof (map_deps (considered s1) APPLY_EXCLUDES s1) as H. destruct (dnf_sack_recompute_considered_map _ _ s1) as [s2 c2]. simpl in H.
    apply (same_deps_trans _ s2); [done|by apply kept_pool].
  - pose proof (map_deps c fl s1) as H. destruct (dnf_sack_recompute_considered_map c fl s1) as [s2 c2]. by eapply same_deps_trans.
Qed.
(** [k] provides something that the module [id] requires. *)
Definition answers s id k : bool := existsb (fun d => bool_decide (k ∈ provides_of s d)) (deps_of s id).
Lemma answers_same s s' id k : same_deps s s' -> answers s' id k = answers s id k.
Proof. intros [H1 H2]. unfold answers. rewrite H1. induction (deps_of s id) as [|d l IH]; [done|]. simpl. by rewrite H2, IH. Qed.

(** The filter by requirements, at the end of a query for given packages. *)
Lemma reldeps_filter fl q s res m deps : coherent s -> result_ok (pool s) res -> map_ok (pool s) m -> (forall k, bit m k = false) ->
  let f := match deps with [] => mkFilter HY_PKG_EMPTY HY_EQ (MNum [1]) | _ => mkFilter HY_PKG_PROVIDES HY_EQ (MReldep deps) end in
  flags q = fl ->
  exists s' m', run_filter s q f res m = Ok (s', m') /\ steady s s' /\ same_deps s s' /\ map_ok (pool s) m'
    /\ forall k, bit res k && bit m' k = bit res k && existsb (fun d => bool_decide (k ∈ provides_of s d)) deps.
Proof.
  intros Hs Hr Hm Hz f <-. destruct deps as [|d l] eqn:Ed.
  - exists s, m. split; [done|]. split; [by apply still_steady|]. split; [done|]. split; [done|]. intros k. by rewrite Hz.
  - rewrite <-Ed in *. assert (Ef : f = mkFilter HY_PKG_PROVIDES HY_EQ (MReldep deps)) by (unfold f; by rewrite Ed). clear Ed.
    destruct (missing_filter_ok (flags q) f res m s Hs Hr Hm) as [H1 H2]. pose proof (kept_filter (flags q) f res m s) as H3.
    pose proof (fun k => provides_filter (flags q) f res m s deps k) as H4. unfold run_filter. rewrite Ef in *. cbn [keyname matches] in *.
    destruct (missing_filter _ _ _ _ s) as [s' m']. exists s', m'. split; [done|]. split; [done|]. split; [done|]. split; [done|]. intros k. destruct (bit res k) eqn:Ek; [|done]. cbn [andb]. by rewrite H4, Hz.
Qed.
Definition wanted_by s (act : Map) id k : bool :=
  bool_decide (k ∈ packages (pool s)) && should_consider s APPLY_EXCLUDES k && bit act k && answers s id k.
Lemma wanted_same s s' act id k : alike s s' -> same_deps s s' -> wanted_by s' act id k = wanted_by s act id k.
Proof.
  intros Ha Hd. unfold wanted_by. destruct (alike_n _ _ Ha) as [_ ->]. rewrite (answers_same s s') by done. case_bool_decide as Hk; [|done].
  by rewrite (alike_should s s' APPLY_EXCLUDES k Ha (packages_range _ _ Hk)).
Qed.
Definition not_in (o : option Map) k : bool := match o with Some m => negb (bit m k) | None => true end.
Lemma required_query act o id s : coherent s -> result_ok (pool s) act -> match o with Some m => result_ok (pool s) m | None => True end ->
  let query := fst (addFilter_pset HY_PKG HY_EQ act (new_query APPLY_EXCLUDES)) in
  let query := match o with Some m => fst (addFilter_pset HY_PKG HY_NEQ m query) | None => query end in
  let query := fst (addFilter_reldeps HY_PKG_PROVIDES (deps_of s id) query) in
  exists s' res, with_result s query (fun s _ res => (s, res)) = Ok (s', res) /\ coherent s' /\ alike s s' /\ same_deps s s' /\ result_ok (pool s') res
    /\ forall k, bit res k = wanted_by s act id k && not_in o k.
Proof.
  intros Hs Ha Ho query query0 q. set (deps := deps_of s id) in *.
  assert (Hq : query_good s q).
  { apply reldeps_good. unfold query0. destruct o; [apply pset_good; [|done|done]|]; (apply pset_good; [apply new_good|done|done]). }
  set (last := match deps with [] => mkFilter HY_PKG_EMPTY HY_EQ (MNum [1]) | _ => mkFilter HY_PKG_PROVIDES HY_EQ (MReldep deps) end).
  set (one := mkFilter HY_PKG HY_EQ (MPkg act)). set (two := match o with Some m => [mkFilter HY_PKG HY_NEQ (MPkg m)] | None => [] end).
  assert (Ef : filters q = one :: two ++ [last]) by (unfold two, q, query0, query; destruct o; reflexivity).
  assert (Eq : applied q = false /\ flags q = APPLY_EXCLUDES /\ result_map q = None) by (unfold q, query0, query; destruct o; done). destruct Eq as (E1 & E2 & E3).
  destruct (started s q Hs Hq E1) as (s1 & res & cached & E & Hs1 & Hal & Hr & Hbit & Hq1). rewrite E3 in E.
  pose proof (init_deps (flags q) (considered_cached q) s) as Hd1. rewrite E in Hd1. cbn [fst] in Hd1.
  unfold with_result, apply. rewrite E1, E3, E. cbn [filters]. set (q1 := mkQuery false (flags q) (Some res) (filters q) cached) in *.
  assert (El : (length (map_init (nsolvables (pool s1))) =? length res)%nat = true) by (apply Nat.eqb_eq, (map_ok_length (pool s1)); [apply init_ok|apply Hr]).
  rewrite El. cbn [negb]. rewrite Ef. cbn [apply_filters]. change (run_filter s1 q1 one res _) with (Ok (s1, act) : result failure (DnfSack * Map)). cbn [result_bind].
  change (has (cmpType one) HY_NOT) with false. cbv iota. apply (alike_result s s1 act Hal) in Ha.
  destruct (narrowed_ok (pool s1) false act res Hr (proj1 Ha)) as [Hr2 Hb2]. cbv iota zeta in Hr2, Hb2. set (res2 := map_and res act) in *.
  assert (H2 : exists m2 res3, apply_filters s1 q1 (two ++ [last]) act res2 = apply_filters s1 q1 [last] m2 res3 /\ map_ok (pool s1) m2 /\ result_ok (pool s1) res3
    /\ forall k, bit res3 k = bit res2 k && not_in o k).
  { unfold two. destruct o as [m|]; [|exists act, res2; split; [done|]; split; [apply Ha|]; split; [done|]; intros k; by rewrite andb_true_r].
    apply (alike_result s s1 m Hal) in Ho. destruct (narrowed_ok (pool s1) true m res2 Hr2 (proj1 Ho)) as [Hr3 Hb3]. exists m, (map_subtract res2 m).
    split; [reflexivity|]. split; [apply Ho|]. by split. }
  destruct H2 as (m2 & res3 & E4 & Hm2 & Hr3 & Hb3). rewrite E4. cbn [apply_filters]. destruct (empty_ok _ _ Hm2) as [He Hz].
  destruct (reldeps_filter (flags q1) q1 s1 res3 (map_empty m2) deps Hs1 Hr3 He Hz eq_refl) as (s2 & m3 & E5 & Hst & Hd2 & Hm3 & Hb4). fold last in E5.
  rewrite E5. cbn [result_bind]. assert (Enot : has (cmpType last) HY_NOT = false) by (unfold last; by destruct deps). rewrite Enot. cbn [result_bind result_map].
  destruct (narrowed_ok (pool s1) false m3 res3 Hr3 Hm3) as [Hr4 Hb5]. cbv iota zeta in Hr4, Hb5. destruct Hst as (Hs2 & Hal2 & _).
  eexists s2, _. split; [reflexivity|]. split; [done|]. split; [by eapply alike_trans|]. split; [by eapply same_deps_trans|]. split; [by apply (alike_result s1 s2)|].
  intros k. rewrite Hb5, Hb4, Hb3, Hb2, Hbit. unfold start, wanted_by. rewrite E3, E2. change (existsb _ deps) with (existsb (fun d => bool_decide (k ∈ provides_of s1 d)) deps).
  assert (Ea : existsb (fun d => bool_decide (k ∈ provides_of s1 d)) deps = answers s id k).
  { unfold answers, deps. destruct Hd1 as [_ Hd1]. generalize (deps_of s id). induction l as [|d l IH]; [done|]. simpl. by rewrite IH, Hd1. }
  rewrite Ea. destruct (bool_decide _), (should_consider _ _ _), (bit act k), (not_in o k), (answers s id k); reflexivity.
Qed.
Lemma required_ok act o id c : activatedModules c = Some act -> coherent (moduleSack c) -> result_ok (pool (moduleSack c)) act ->
  match o with Some m => result_ok (pool (moduleSack c)) m | None => True end ->
  exists s' res, required_modules o id c = (set_sack s' c, Ok res) /\ coherent s' /\ alike (moduleSack c) s' /\ same_deps (moduleSack c) s' /\ result_ok (pool s') res
    /\ forall k, bit res k = wanted_by (moduleSack c) act id k && not_in o k.
Proof.
  intros Ea Hs Ha Ho. unfold required_modules, ask. erewrite bind_Ok by reflexivity. rewrite Ea. unfold on_sack.
  destruct (required_query act o id (moduleSack c) Hs Ha Ho) as (s' & res & E & H). unfold deps_of in E. rewrite E. by exists s', res.
Qed.

(** *** Enabling one module *)

Lemma changeStream_cases name stream p p' r : Modules.Modules.changeStream name stream p = (p', r) ->
  p' = p \/ exists parser cfg, p !! name = Some (parser, cfg) /\ p' = <[name := (parser, Modules.Modules.with_stream stream cfg)]> p.
Proof.
  unfold Modules.Modules.changeStream, Modules.Modules.bind, Modules.Modules.at_, Modules.Modules.parsed. destruct (p !! name) as [[parser cfg]|] eqn:E; [|intros [= <- _]; by left].
  cbn [snd fst]. destruct (decide _); [intros [= <- _]; by left|]. destruct (Modules.kf_get name (lit "stream") parser); [|intros [= <- _]; by left].
  unfold Modules.Modules.ret. destruct (decide _); [intros [= <- _]; by left|]. rewrite (Modules.Modules.set_config_ok (Modules.Modules.with_stream stream) _ _ _ _ E).
  intros [= <- _]. right. by exists parser, cfg.
Qed.
Lemma changeStream_true name stream p p' b : Modules.Modules.changeStream name stream p = (p', Ok b) ->
  exists parser cfg, p' !! name = Some (parser, cfg) /\ Modules.Modules.stream cfg = stream.
Proof.
  intros E. pose proof (changeStream_cases _ _ _ _ _ E) as H.
  unfold Modules.Modules.changeStream, Modules.Modules.bind, Modules.Modules.at_ in E. destruct (p !! name) as [[parser cfg]|] eqn:Ep; [|done].
  cbn [snd fst] in E. destruct (decide _) as [Es|Es].
  - unfold Modules.Modules.ret in E. injection E as <- _. by exists parser, cfg.
  - destruct H as [->|(pa & cf & H1 & ->)]; [|injection H1 as <- <-; rewrite lookup_insert_eq; by eexists _, _].
    exfalso. unfold Modules.Modules.parsed in E. destruct (Modules.kf_get _ _ _); [|done]. unfold Modules.Modules.ret in E. destruct (decide _); [done|].
    rewrite (Modules.Modules.set_config_ok (Modules.Modules.with_stream stream) _ _ _ _ Ep) in E. injection E as E _. apply (f_equal (fun q => q !! name)) in E.
    rewrite lookup_insert_eq, Ep in E. injection E as E. apply Es. by rewrite <-E.
Qed.
Lemma enable_cases name stream p p' r : Modules.Modules.enable name stream p = (p', r) ->
  (forall other, other <> name -> p' !! other = p !! other) /\ match r with Ok _ => Modules.Modules.isEnabled name stream p' = true | Err _ => True end.
Proof.
  unfold Modules.Modules.enable. destruct (Modules.Modules.changeStream name stream p) as [p1 [c1|e1]] eqn:E1; unfold Modules.Modules.bind at 1; rewrite E1; cycle 1.
  { intros [= <- <-]. split; [|done]. intros other Ho. destruct (changeStream_cases _ _ _ _ _ E1) as [->|(pa & cf & _ & ->)]; [done|by rewrite lookup_insert_ne by done]. }
  assert (H1 : forall other, other <> name -> p1 !! other = p !! other).
  { intros other Ho. destruct (changeStream_cases _ _ _ _ _ E1) as [->|(pa & cf & _ & ->)]; [done|by rewrite lookup_insert_ne by done]. }
  destruct (changeStream_true _ _ _ _ _ E1) as (parser & cfg & Ep & Es). pose proof (Modules.Modules.changeState_ok p1 name Modules.Modules.ENABLED parser cfg Ep) as E2.
  assert (Hend : forall cfg' p2, p2 !! name = Some (parser, cfg') -> Modules.Modules.stream cfg' = stream -> Modules.Modules.state cfg' = Modules.Modules.ENABLED ->
    (forall other, other <> name -> p2 !! other = p !! other) -> forall b, (if (b : bool) then Modules.Modules.bind (Modules.Modules.clear_profiles name) (fun _ => Modules.Modules.ret true) else Modules.Modules.ret false) p2 = (p', r) ->
    (forall other, other <> name -> p' !! other = p !! other) /\ match r with Ok _ => Modules.Modules.isEnabled name stream p' = true | Err _ => True end).
  { intros cfg' p2 E3 Es3 Et3 H3 b. destruct b.
    - unfold Modules.Modules.bind. rewrite (Modules.Modules.clear_profiles_ok _ _ _ _ E3). unfold Modules.Modules.ret. intros [= <- <-]. split.
      + intros other Ho. rewrite lookup_insert_ne by done. by apply H3.
      + unfold Modules.Modules.isEnabled. rewrite lookup_insert_eq. simpl. by rewrite !bool_decide_true.
    - unfold Modules.Modules.ret. intros [= <- <-]. split; [done|]. unfold Modules.Modules.isEnabled. rewrite E3. by rewrite !bool_decide_true. }
  unfold Modules.Modules.bind at 1. rewrite E2. destruct (decide _) as [Et|Et]; [by apply (Hend cfg)|]. apply (Hend (Modules.Modules.with_state Modules.Modules.ENABLED cfg)).
  - by rewrite lookup_insert_eq.
  - done.
  - done.
  - intros other Ho. rewrite lookup_insert_ne by done. by apply H1.
Qed.
Lemma enable_module mp c : exists p', 
  ModuleSolving.enable mp c = (set_persistor p' c, match snd (Modules.Modules.enable (getName mp) (getStream mp) (persistor c)) with Ok x => Ok x | Err e => Err (Persist e) end)
  /\ (forall other, other <> getName mp -> p' !! other = persistor c !! other)
  /\ match snd (Modules.Modules.enable (getName mp) (getStream mp) (persistor c)) with Ok _ => Modules.Modules.isEnabled (getName mp) (getStream mp) p' = true | Err _ => True end.
Proof.
  unfold ModuleSolving.enable, on_persistor. destruct (Modules.Modules.enable _ _ _) as [p' r] eqn:E. exists p'. split; [done|]. by apply enable_cases.
Qed.

(** *** The tree *)

Section tree.
(** The container at the start, its active modules, and the modules that are given. *)
Variables (c0 : Container P) (act : Map) (given : list (Z * ModulePackage)).
Let s0 := moduleSack c0.
Hypothesis Hactive : activatedModules c0 = Some act.
Hypothesis Hsack : coherent s0.
Hypothesis Hact : result_ok (pool s0) act.
Hypothesis Hknown : forall id, bit act id = true -> is_Some (find_module c0 id).
Hypothesis Hstreams : forall id mp id' mp', bit act id = true -> bit act id' = true -> find_module c0 id = Some mp -> find_module c0 id' = Some mp' ->
  getName mp = getName mp' -> getStream mp = getStream mp'.
Hypothesis Hgiven : forall id mp, (id, mp) ∈ given -> find_module c0 id = Some mp /\ 0 <= id < nsolvables (pool s0).

Definition wants (id k : Z) : Prop := wanted_by s0 act id k = true.
Definition root (id : Z) : Prop := bit act id = true /\ id ∈ map fst given.
Definition reached (k : Z) : Prop := exists id, root id /\ rtc wants id k.
(** What is the same of the container while modules are enabled. *)
Record grown c : Prop := {
  grown_active : activatedModules c = Some act;
  grown_modules : modules c = modules c0;
  grown_sack : coherent (moduleSack c);
  grown_alike : alike s0 (moduleSack c);
  grown_deps : same_deps s0 (moduleSack c);
}.
(** The two sets: all modules are reached, those of the second are enabled and
    what they require is in one of the sets. *)
Record tree c (toEnable enabled : Map) : Prop := {
  tree_grown : grown c;
  tree_sets : map_ok (pool s0) toEnable /\ map_ok (pool s0) enabled;
  tree_reached : forall k, bit toEnable k || bit enabled k = true -> reached k /\ bit act k = true;
  tree_closed : forall id k, bit enabled id = true -> wants id k -> bit toEnable k || bit enabled k = true;
  tree_enabled : forall id mp, bit enabled id = true -> find_module c0 id = Some mp -> isEnabled mp c = true;
  tree_others : forall name, (forall id mp, bit enabled id = true -> find_module c0 id = Some mp -> getName mp <> name) -> persistor c !! name = persistor c0 !! name;
}.
Lemma act_range id : bit act id = true -> 2 <= id < nsolvables (pool s0).
Proof. by apply result_range. Qed.
Lemma grown_find c id : grown c -> find_module c id = find_module c0 id.
Proof. intros Hc. unfold find_module. by rewrite (grown_modules c Hc). Qed.
Lemma grown_n c : grown c -> nsolvables (pool (moduleSack c)) = nsolvables (pool s0).
Proof. intros Hc. apply (alike_n s0), Hc. Qed.
Lemma grown_set_sack c s' : grown c -> coherent s' -> alike (moduleSack c) s' -> same_deps (moduleSack c) s' -> grown (set_sack s' c).
Proof. intros [A1 A2 A3 A4 A5] H1 H2 H3. split; try done; simpl; [by eapply alike_trans|by eapply same_deps_trans]. Qed.
Lemma enabled_result c toEnable enabled : tree c toEnable enabled -> result_ok (pool (moduleSack c)) enabled.
Proof.
  intros [Hg [_ He] Hr _ _ _]. apply (alike_result s0); [apply Hg|]. split; [done|]. intros k Hk. apply Hact. apply (Hr k). rewrite Hk. by rewrite orb_true_r.
Qed.
(** One module more is enabled, and what it requires is to be enabled, unless it is already. *)
Lemma tree_step c toEnable enabled id mp c1 o set : tree c toEnable enabled -> bit act id = true -> reached id -> find_module c0 id = Some mp ->
  grown c1 -> isEnabled mp c1 = true -> (forall name, name <> getName mp -> persistor c1 !! name = persistor c !! name) ->
  map_ok (pool s0) set -> (forall k, bit set k = wanted_by s0 act id k && not_in o k) -> o = None \/ o = Some (pset_set enabled id) ->
  tree c1 (pset_add toEnable set) (pset_set enabled id).
Proof.
  intros [Hg [[T1 T2] [E1 E2]] Hr Hcl Hen Hot] Ha Hid Hf Hg1 Hen1 Hp1 [S1 S2] Hset Ho.
  assert (Hroom : 0 <= id < bits enabled) by (pose proof (act_range id Ha); pose proof (map_room (pool s0) enabled (conj E1 E2)); lia).
  assert (HEn : bytes_ok (pset_set enabled id) /\ bits (pset_set enabled id) = bits enabled /\ forall k, bit (pset_set enabled id) k = bit enabled k || bool_decide (k = id)).
  { destruct (pset_set_spec enabled id 0 E1 Hroom) as (B1 & B2 & _). split; [done|]. split; [done|]. intros k. by apply pset_set_spec. }
  destruct HEn as (B1 & B2 & B3).
  assert (HT : bytes_ok (pset_add toEnable set) /\ bits (pset_add toEnable set) = bits toEnable /\ forall k, bit (pset_add toEnable set) k = bit toEnable k || bit set k).
  { destruct (pset_add_spec toEnable set 0 T1 S1) as (C1 & C2 & _); [congruence|]. split; [done|]. split; [done|]. intros k. apply pset_add_spec; (done || congruence). }
  destruct HT as (C1 & C2 & C3). split; [done|split; (split; [done|congruence])|..].
  - intros k Hk. rewrite C3, B3, Hset in Hk. destruct (decide (k = id)) as [->|Hne]; [done|]. rewrite bool_decide_false, orb_false_r in Hk by done.
    destruct (bit toEnable k || bit enabled k) eqn:Ek; [by apply Hr|]. apply orb_false_iff in Ek as [Et Ee]. rewrite Et, Ee, orb_false_r in Hk. simpl in Hk.
    apply andb_true_iff in Hk as [Hk _]. split; [destruct Hid as (g & Hgv & Hrtc); exists g; split; [done|]; by eapply rtc_r|].
    unfold wanted_by in Hk. by apply andb_true_iff in Hk as [[_ Hk]%andb_true_iff _].
  - intros id' k Hk Hw. rewrite B3 in Hk. rewrite C3, B3, Hset. apply orb_true_iff in Hk as [Hk| ->%bool_decide_eq_true].
    + specialize (Hcl id' k Hk Hw). destruct (bit toEnable k); [done|]. simpl in Hcl. rewrite Hcl. by rewrite orb_true_r.
    + unfold wants in Hw. rewrite Hw. destruct Ho as [-> | ->]; simpl; [by rewrite orb_true_r|]. rewrite B3. by destruct (bit toEnable k), (bit enabled k || bool_decide (k = id)).
  - intros id' mp' Hk Hf'. rewrite B3 in Hk. destruct (decide (id' = id)) as [->|Hne]; [congruence|]. rewrite bool_decide_false, orb_false_r in Hk by done.
    destruct (decide (getName mp' = getName mp)) as [En|En].
    + assert (Es : getStream mp' = getStream mp) by (apply (Hstreams id' mp' id mp); [apply (Hr id'); by rewrite Hk, orb_true_r|done..]).
      unfold isEnabled in *. by rewrite En, Es.
    + specialize (Hen id' mp' Hk Hf'). unfold isEnabled, Modules.Modules.isEnabled in *. by rewrite Hp1.
  - intros name Hn. rewrite Hp1.
    + apply Hot. intros id' mp' Hk. apply (Hn id' mp'). by rewrite B3, Hk.
    + intros ->. apply (Hn id mp); [|done..]. rewrite B3, bool_decide_true by done. by rewrite orb_true_r.
Qed.
(** A call that gives what is wanted, or throws what the states of modules make it throw. *)
Definition fine {A : Type} (r : result module_error A) (Q : A -> Prop) : Prop := match r with Ok x => Q x | Err e => exists e', e = Persist e' end.
Definition within (m m' : Map) : Prop := forall k, bit m k = true -> bit m' k = true.
Lemma bind_Err {A B : Type} (m : call P A) (k : A -> call P B) c c' e : m c = (c', Err e) -> ModuleSolving.bind m k c = (c', Err e).
Proof. intros E. unfold ModuleSolving.bind. by rewrite E. Qed.
Lemma set_within enabled id : map_ok (pool s0) enabled -> bit act id = true -> within enabled (pset_set enabled id) /\ bit (pset_set enabled id) id = true.
Proof.
  intros [E1 E2] Ha. assert (Hroom : 0 <= id < bits enabled) by (pose proof (act_range id Ha); pose proof (map_room (pool s0) enabled (conj E1 E2)); lia).
  split; [intros k Hk|].
  - destruct (pset_set_spec enabled id k E1 Hroom) as (_ & _ & ->). by rewrite Hk.
  - destruct (pset_set_spec enabled id id E1 Hroom) as (_ & _ & ->). rewrite bool_decide_true by done. by rewrite orb_true_r.
Qed.
(** Enabling a module leaves a container of which the rest is the same. *)
Lemma enable_grown mp c : grown c -> exists p' r, ModuleSolving.enable mp c = (set_persistor p' c, r) /\ grown (set_persistor p' c)
  /\ (forall name, name <> getName mp -> p' !! name = persistor c !! name) /\ fine r (fun _ => isEnabled mp (set_persistor p' c) = true).
Proof.
  intros Hg. destruct (enable_module mp c) as (p' & E & Ho & Hr). eexists p', _. split; [exact E|]. split; [by destruct Hg; split|]. split; [done|].
  destruct (snd _) as [b|e]; simpl; [done|by exists e].
Qed.
Lemma required_grown c o id : grown c -> match o with Some m => map_ok (pool s0) m /\ within m act | None => True end ->
  exists s' set, required_modules o id c = (set_sack s' c, Ok set) /\ grown (set_sack s' c) /\ map_ok (pool s0) set
    /\ forall k, bit set k = wanted_by s0 act id k && not_in o k.
Proof.
  intros Hg Ho. pose proof Hg as [A1 A2 A3 A4 A5]. destruct (required_ok act o id c A1 A3) as (s' & set & E & H1 & H2 & H3 & H4 & H5).
  - by apply (alike_result s0).
  - destruct o as [m|]; [|done]. destruct Ho as [Hm Hw]. apply (alike_result s0); [done|]. split; [done|]. intros k Hk%Hw. by apply Hact.
  - exists s', set. split; [done|]. split; [by apply grown_set_sack|]. split; [apply (alike_map s0 s'); [by eapply alike_trans|apply H4]|].
    intros k. by rewrite H5, (wanted_same s0) by done.
Qed.
Lemma given_ok l toEnable enabled c : (forall x, x ∈ l -> x ∈ given) -> tree c toEnable enabled ->
  exists c' r, enable_given l toEnable enabled c = (c', r)
    /\ fine r (fun x => tree c' (fst x) (snd x) /\ within enabled (snd x) /\ forall id, id ∈ map fst l -> bit act id = true -> bit (snd x) id = true).
Proof.
  revert toEnable enabled c. induction l as [|[id mp] l IH]; intros toEnable enabled c Hl Ht; cbn [enable_given].
  { eexists c, _. split; [reflexivity|]. split; [done|]. split; [by intros k|]. intros id H. by apply elem_of_nil in H. }
  pose proof Ht as [Hg [_ He] _ _ _ _]. destruct (Hgiven id mp) as [Hf Hrange]; [apply Hl; by left|].
  erewrite bind_Ok by reflexivity. unfold isModuleActive. rewrite (grown_active c Hg).
  assert (Hhas : pset_has act id = bit act id) by (apply pset_has_spec; [apply Hact|]; pose proof (map_room _ _ (proj1 Hact)); unfold s0 in *; lia).
  rewrite Hhas. destruct (bit act id) eqn:Ha; cbn [negb]; cycle 1.
  { destruct (IH toEnable enabled c) as (c' & r & E & H); [intros x Hx; apply Hl; by right|done|]. exists c', r. split; [done|]. destruct r as [[T E']|]; [|done].
    destruct H as (H1 & H2 & H3). split; [done|]. split; [done|]. intros k [->|Hk]%elem_of_cons Hk'; [simpl in Hk'; congruence|by apply H3]. }
  destruct (required_grown c None id Hg I) as (s1 & set & E1 & Hg1 & S1 & S2). erewrite bind_Ok by exact E1.
  destruct (enable_grown mp _ Hg1) as (p' & r & E2 & Hg2 & Hp & Hr). destruct r as [b|e]; cycle 1.
  { erewrite bind_Err by exact E2. by eexists _, _. }
  erewrite bind_Ok by exact E2. destruct (set_within enabled id He Ha) as [W1 W2].
  destruct (IH (pset_add toEnable set) (pset_set enabled id) (set_persistor p' (set_sack s1 c))) as (c' & r & E & H).
  - intros x Hx. apply Hl. by right.
  - apply (tree_step c toEnable enabled id mp _ None set Ht Ha); try done; [|by left]. exists id. split; [|done]. split; [done|]. apply list_elem_of_In, in_map_iff.
    exists (id, mp). split; [done|]. apply list_elem_of_In, Hl. by left.
  - exists c', r. split; [done|]. destruct r as [[T E']|]; [|done]. destruct H as (H1 & H2 & H3). split; [done|]. split; [intros k Hk; by apply H2, W1|].
    intros k [->|Hk]%elem_of_cons Hk'; [by apply H2|by apply H3].
Qed.
Lemma next_id_Some m id k : next_id m id = Some k -> k ∈ pset_ids m /\ id < k.
Proof. intros [H1 H2%Z.ltb_lt]%find_some. split; [by apply list_elem_of_In|done]. Qed.
Lemma next_id_None m id : next_id m id = None -> forall k, k ∈ pset_ids m -> k <= id.
Proof. intros H k Hk%list_elem_of_In. pose proof (find_none _ _ H k Hk) as E. apply Z.ltb_ge in E. lia. Qed.
(** One run over the growing set: it ends, and the first module that it finds is enabled afterwards. *)
Lemma run_ok fuel from toEnable enabled c : tree c toEnable enabled -> (Z.to_nat (nsolvables (pool s0) - from) <= fuel)%nat -> (fuel <> 0)%nat ->
  exists c' r, enable_run fuel from toEnable enabled c = (c', r)
    /\ fine r (fun x => tree c' (fst x) (snd x) /\ within enabled (snd x) /\ forall k, next_id toEnable from = Some k -> bit (snd x) k = true).
Proof.
  revert from toEnable enabled c. induction fuel as [|fuel IH]; intros from toEnable enabled c Ht Hf H0; [done|]. cbn [enable_run].
  destruct (next_id toEnable from) as [id|] eqn:En; [|by eexists c, _; split; [reflexivity|]; split; [done|]; split; [intros k Hk|intros k]].
  apply next_id_Some in En as [Hin Hlt]. pose proof Ht as [Hg [Hte He] Hr _ _ _]. apply pset_ids_spec in Hin; [|apply Hte].
  destruct (Hr id) as [Hid Ha]; [by rewrite Hin|]. pose proof (act_range id Ha) as Hrange. destruct (Hknown id Ha) as [mp Hmp].
  assert (E0 : getModulePackage id c = (c, Ok mp)) by (unfold getModulePackage; by rewrite (grown_find c id Hg), Hmp). erewrite bind_Ok by exact E0.
  destruct (enable_grown mp c Hg) as (p' & r & E1 & Hg1 & Hp & Hen). destruct r as [b|e]; cycle 1.
  { erewrite bind_Err by exact E1. by eexists _, _. }
  erewrite bind_Ok by exact E1. destruct (set_within enabled id He Ha) as [W1 W2].
  assert (HE' : map_ok (pool s0) (pset_set enabled id)).
  { assert (Hroom : 0 <= id < bits enabled) by (pose proof (map_room _ _ He); lia). destruct (pset_set_spec enabled id 0 (proj1 He) Hroom) as (B1 & B2 & _). split; [done|]. rewrite B2. apply He. }
  assert (HEact : within (pset_set enabled id) act).
  { intros k Hk. assert (Hroom : 0 <= id < bits enabled) by (pose proof (map_room _ _ He); lia). destruct (pset_set_spec enabled id k (proj1 He) Hroom) as (_ & _ & B). rewrite B in Hk.
    apply orb_true_iff in Hk as [Hk| ->%bool_decide_eq_true]; [|done]. apply (Hr k). by rewrite Hk, orb_true_r. }
  destruct (required_grown (set_persistor p' c) (Some (pset_set enabled id)) id Hg1 (conj HE' HEact)) as (s1 & set & E2 & Hg2 & S1 & S2). erewrite bind_Ok by exact E2.
  assert (Hstep : tree (set_sack s1 (set_persistor p' c)) (pset_add toEnable set) (pset_set enabled id)).
  { apply (tree_step c toEnable enabled id mp _ (Some (pset_set enabled id)) set Ht Ha Hid Hmp Hg2 Hen Hp S1 S2). by right. }
  destruct (decide (fuel = 0%nat)) as [->|Hne]; [exfalso; lia|].
  destruct (IH id (pset_add toEnable set) (pset_set enabled id) _ Hstep) as (c' & r & E & H); [lia|done|]. exists c', r. split; [exact E|]. destruct r as [[T E']|]; [|done].
  destruct H as (H1 & H2 & _). split; [done|]. split; [intros k Hk; by apply H2, W1|]. intros k [= <-]. by apply H2.
Qed.
Lemma tree_rest c toEnable enabled : tree c toEnable enabled -> tree c (pset_sub toEnable enabled) enabled /\ forall k, bit (pset_sub toEnable enabled) k = bit toEnable k && negb (bit enabled k).
Proof.
  intros [Hg [Hte He] Hr Hc Hen Ho]. assert (Hb : bits enabled = bits toEnable) by (destruct Hte as [_ ->], He as [_ ->]; done).
  assert (Hsub : forall k, bit (pset_sub toEnable enabled) k = bit toEnable k && negb (bit enabled k)) by (intros k; by apply pset_sub_spec; [apply Hte|apply He|]).
  split; [|done]. destruct (pset_sub_spec toEnable enabled 0 (proj1 Hte) (proj1 He) Hb) as (B1 & B2 & _). split; [done|split; [split; [done|rewrite B2; apply Hte]|done]|..|done|done].
  - intros k. rewrite Hsub. intros Hk. apply Hr. destruct (bit toEnable k), (bit enabled k); done.
  - intros id k H1 H2. specialize (Hc id k H1 H2). rewrite Hsub. destruct (bit toEnable k), (bit enabled k); done.
Qed.
Lemma ids_grow enabled enabled' k : bytes_ok enabled -> bytes_ok enabled' -> within enabled enabled' -> bit enabled k = false -> bit enabled' k = true ->
  (length (pset_ids enabled) < length (pset_ids enabled'))%nat.
Proof.
  intros H1 H2 Hw Hk Hk'. apply Nat.lt_le_trans with (length (k :: pset_ids enabled)); [simpl; lia|]. apply submseteq_length, NoDup_submseteq.
  - constructor; [|apply pset_ids_nodup]. rewrite pset_ids_spec by done. congruence.
  - intros x [->|Hx]%elem_of_cons; [by apply pset_ids_spec|]. apply pset_ids_spec in Hx; [|done]. apply pset_ids_spec; auto.
Qed.
Lemma ids_bounded c toEnable enabled : tree c toEnable enabled -> (length (pset_ids enabled) <= Z.to_nat (nsolvables (pool s0)))%nat.
Proof.
  intros [_ [_ He] Hr _ _ _]. transitivity (length (seqZ 0 (nsolvables (pool s0)))); [|by rewrite length_seqZ]. apply submseteq_length, NoDup_submseteq; [apply pset_ids_nodup|].
  intros k Hk. apply pset_ids_spec in Hk; [|apply He]. apply elem_of_seqZ. assert (Ha : bit act k = true) by (apply Hr; by rewrite Hk, orb_true_r). pose proof (act_range k Ha). lia.
Qed.
Lemma runs_ok fuel toEnable enabled c : tree c toEnable enabled -> (forall k, bit toEnable k = true -> bit enabled k = false) ->
  (Z.to_nat (nsolvables (pool s0)) < fuel + length (pset_ids enabled))%nat ->
  exists c' r, enable_runs fuel toEnable enabled c = (c', r)
    /\ fine r (fun E => exists T, tree c' T E /\ (forall k, bit T k = false) /\ within enabled E).
Proof.
  revert toEnable enabled c. induction fuel as [|fuel IH]; intros toEnable enabled c Ht Hdis Hf; [pose proof (ids_bounded _ _ _ Ht); lia|]. cbn [enable_runs].
  pose proof Ht as [Hg [Hte He] Hr _ _ _]. case_bool_decide as Hids.
  { eexists c, _. split; [reflexivity|]. exists toEnable. split; [done|]. split; [|by intros k]. intros k. apply not_true_iff_false. intros Hk.
    apply pset_ids_spec in Hk; [|apply Hte]. rewrite Hids in Hk. by apply elem_of_nil in Hk. }
  rewrite <-(grown_n c Hg) in Hf. destruct (run_ok (S (Z.to_nat (nsolvables (pool (moduleSack c))))) (-1) toEnable enabled c Ht) as (c1 & r & E & H); [rewrite (grown_n c Hg); pose proof (nsolvables_range (pool s0)); lia|done|].
  destruct r as [[T E']|e]; [erewrite bind_Ok by exact E|erewrite bind_Err by exact E; by eexists _, _]. destruct H as (H1 & H2 & H3). cbn [fst snd] in *.
  destruct (tree_rest c1 T E' H1) as [Ht1 Hsub].
  assert (Hnext : exists k, next_id toEnable (-1) = Some k).
  { destruct (next_id toEnable (-1)) as [k|] eqn:En; [by exists k|]. exfalso. destruct (pset_ids toEnable) as [|k l] eqn:El; [done|].
    assert (Hk : k ∈ pset_ids toEnable) by (rewrite El; by left). pose proof (next_id_None _ _ En k Hk) as Hle. apply pset_ids_spec in Hk; [|apply Hte].
    assert (Ha : bit act k = true) by (apply Hr; by rewrite Hk). pose proof (act_range k Ha). lia. }
  destruct Hnext as [k Hk]. specialize (H3 k Hk). apply next_id_Some in Hk as [Hk _]. apply pset_ids_spec in Hk; [|apply Hte].
  pose proof (ids_grow enabled E' k (proj1 He) (proj1 (proj2 (tree_sets _ _ _ H1))) H2 (Hdis k Hk) H3) as Hgrow.
  destruct (IH (pset_sub T E') E' c1 Ht1) as (c' & r & E2 & H).
  - intros x. rewrite Hsub. destruct (bit T x), (bit E' x); done.
  - rewrite (grown_n c Hg) in Hf. lia.
  - exists c', r. split; [exact E2|]. destruct r as [E3|]; [|done]. destruct H as (T' & A1 & A2 & A3). exists T'. split; [done|]. split; [done|]. intros x Hx. by apply A3, H2.
Qed.
(** C31. Enabling modules with what they need ends, for any requirements, circular
    ones included: it gives just the active modules that are reached from the given
    active ones by requirements among active modules; all of these are enabled
    then, each with its stream, and the states of all other modules are as before.
    It can only fail with an exception of the states of modules, such as the one
    for a stream that was switched before. *)
Theorem enable_tree_spec : exists c' r, enableDependencyTree given c0 = (c', r)
  /\ match r with
     | Ok enabled => (forall k, bit enabled k = true <-> reached k)
         /\ (forall id mp, bit enabled id = true -> find_module c0 id = Some mp -> isEnabled mp c' = true)
         /\ forall name, (forall id mp, bit enabled id = true -> find_module c0 id = Some mp -> getName mp <> name) -> persistor c' !! name = persistor c0 !! name
     | Err e => exists e', e = Persist e'
     end.
Proof.
  unfold enableDependencyTree. erewrite bind_Ok by reflexivity. erewrite bind_Ok by reflexivity. rewrite Hactive.
  destruct (pset_new_spec (pool s0)) as [Hn Hb]. set (none := pset_new (pool s0)) in *. change (pset_new (pool (moduleSack c0))) with none.
  assert (Hg : grown c0) by (split; (done || apply alike_refl)).
  assert (Ht : tree c0 none none) by (split; try done; intros *; rewrite !Hb; done).
  destruct (given_ok given none none c0 (fun x H => H) Ht) as (c1 & r & E & H). destruct r as [[T E1]|e]; [erewrite bind_Ok by exact E|erewrite bind_Err by exact E; by eexists _, _].
  destruct H as (Ht1 & _ & Hroots). cbn [fst snd] in *. destruct (tree_rest c1 T E1 Ht1) as [Ht2 Hsub].
  destruct (runs_ok (S (Z.to_nat (nsolvables (pool (moduleSack c1))))) (pset_sub T E1) E1 c1 Ht2) as (c' & r & E' & H).
  - intros k. rewrite Hsub. destruct (bit T k), (bit E1 k); done.
  - rewrite (grown_n c1 (tree_grown _ _ _ Ht1)). lia.
  - exists c', r. split; [exact E'|]. destruct r as [en|]; [|done]. destruct H as (T' & [G1 G2 G3 G4 G5 G6] & Hz & Hw). split; [|split; [done|done]].
    intros k. split; [intros Hk; apply G3; by rewrite Hk, orb_true_r|]. intros (id & [Ha Hin] & Hrtc).
    assert (Hk : bit en id = true) by (by apply Hw, Hroots). clear Ha Hin. induction Hrtc as [|id j k Hw1 _ IH]; [done|]. apply IH. specialize (G4 id j Hk Hw1). by rewrite Hz in G4.
Qed.
End tree.
End solving.
End ModuleTree.
