(* ===== verification/ModuleLatest.v ===== *)
(** * ModuleLatest: the latest modules and the fail-safe files (theorems on [ModuleSolving])

    The passes over sorted modules, and the files that are kept for streams whose
    repositories are gone. *)

From S2P Require Import Prelude Numeric Sack Solv Regex Specs Packages DnfSack DnfQuery DnfLatest DnfApply DnfJobs DnfRequests DnfGoal DnfSolved ModuleSolving.
From S2P Require Modules.
From stdpp Require Import sorting.
Local Open Scope Z_scope.

Module ModuleLatest.
Import QueryCmp Matches Packages DnfSack DnfQuery DnfLatest DnfApply DnfJobs DnfRequests DnfGoal DnfSolved ModuleSolving.

(** ** Comparisons in three ways *)

Section comparisons.
Context {A : Type}.
(** A comparison that is a linear order on classes of elements. *)
Record ordering (c : A -> A -> comparison) : Prop := {
  ordering_opp : forall a b, c b a = CompOpp (c a b);
  ordering_trans : forall x y z, c x y = Lt -> c y z = Lt -> c x z = Lt;
  ordering_eq : forall x y z, c x y = Eq -> c x z = c y z;
}.
Definition lexicographic (c1 c2 : A -> A -> comparison) (a b : A) : comparison := match c1 a b with Eq => c2 a b | r => r end.
Lemma ordering_lex c1 c2 : ordering c1 -> ordering c2 -> ordering (lexicographic c1 c2).
Proof.
  intros [O1 T1 E1] [O2 T2 E2]. unfold lexicographic. split.
  - intros a b. rewrite O1, O2. by destruct (c1 a b).
  - intros x y z. destruct (c1 x y) eqn:Exy; try done.
    + rewrite (E1 x y z Exy). destruct (c1 y z); try done. intros H1 H2. by apply (T2 x y z).
    + intros _. destruct (c1 y z) eqn:Eyz; try done; intros _.
      * assert (Ezy : c1 z y = Eq) by (rewrite O1, Eyz; done). pose proof (E1 z y x Ezy) as H. rewrite O1 in H. rewrite (O1 x y), Exy in H. by destruct (c1 x z).
      * by rewrite (T1 x y z).
  - intros x y z H. destruct (c1 x y) eqn:Exy; try done. rewrite (E1 x y z Exy). by rewrite (E2 x y z H).
Qed.
Lemma ordering_between c x y z : ordering c -> c x y <> Gt -> c y z <> Gt -> c x z <> Gt /\ (c x z = Eq -> c x y = Eq).
Proof.
  intros [O T E] H1 H2. destruct (c x y) eqn:Exy; [|clear H1|done].
  - by rewrite (E x y z Exy).
  - destruct (c y z) eqn:Eyz; [|by rewrite (T x y z)|done]. assert (Ezy : c z y = Eq) by (rewrite O, Eyz; done).
    pose proof (E z y x Ezy) as H. rewrite O in H. rewrite (O x y), Exy in H. by destruct (c x z).
Qed.
Lemma ordering_sorted c (l : list A) `{!RelDecision (fun a b => c a b <> Gt)} : ordering c -> StronglySorted (fun a b => c a b <> Gt) (merge_sort (fun a b => c a b <> Gt) l).
Proof.
  intros Hc. apply StronglySorted_merge_sort.
  - intros a b d H1 H2. by apply (ordering_between c a b d Hc).
  - intros a b. rewrite (ordering_opp c Hc a b). destruct (c a b); auto.
Qed.
End comparisons.
Lemma ordering_on {A B : Type} (f : A -> B) c : ordering c -> ordering (fun a b => c (f a) (f b)).
Proof. intros [O T E]. split; intros *; [apply O|apply T|apply E]. Qed.
Lemma ordering_Z : ordering Z.compare.
Proof.
  split.
  - intros a b. apply Z.compare_antisym.
  - intros x y z. rewrite !Z.compare_lt_iff. lia.
  - intros x y z H%Z.compare_eq_iff. by subst.
Qed.
Lemma ordering_flip {A : Type} (c : A -> A -> comparison) : ordering c -> ordering (fun a b => c b a).
Proof.
  intros [O T E]. split.
  - intros a b. apply O.
  - intros x y z H1 H2. by apply (T z y x).
  - intros x y z H. rewrite (O x z), (O y z). f_equal. apply E. by rewrite O, H.
Qed.
Lemma strcmp_Eq s t : strcmp s t = Eq <-> s = t.
Proof. unfold strcmp. case_decide; [done|]. by destruct (str_ltb s t). Qed.
Lemma strcmp_Lt s t : strcmp s t = Lt <-> str_ltb s t = true.
Proof. unfold strcmp. case_decide as H; [subst; by rewrite str_ltb_irrefl|]. by destruct (str_ltb s t). Qed.
Lemma ordering_strcmp : ordering strcmp.
Proof.
  split.
  - intros a b. unfold strcmp. destruct (decide (a = b)) as [->|Hne]; [by rewrite decide_True|]. rewrite decide_False by congruence.
    destruct (str_ltb_tricho a b) as [H|[H|H]]; [|done|]; rewrite H.
    + destruct (str_ltb b a) eqn:E; [|done]. pose proof (str_ltb_trans a b a H E) as H'. by rewrite str_ltb_irrefl in H'.
    + destruct (str_ltb a b) eqn:E; [|done]. pose proof (str_ltb_trans a b a E H) as H'. by rewrite str_ltb_irrefl in H'.
  - intros x y z. rewrite !strcmp_Lt. apply str_ltb_trans.
  - intros x y z ->%strcmp_Eq. done.
Qed.
Lemma ordering_strcmp0 : ordering g_strcmp0.
Proof.
  destruct ordering_strcmp as [O T E]. split.
  - intros [a|] [b|]; try done. apply O.
  - intros [x|] [y|] [z|]; try done. apply T.
  - intros [x|] [y|] [z|]; try done. apply E.
Qed.
Lemma strcmp0_Eq a b : g_strcmp0 a b = Eq <-> a = b.
Proof. destruct a as [a|], b as [b|]; simpl; try done. rewrite strcmp_Eq. split; congruence. Qed.

Section latest.
Context {HP : Reldep.Pool} {HL : LibsolvPool}.
(** Versions are ordered. *)
Definition stream_order (s t : cstr) : comparison := Z.compare (pool_evrcmp_str s t) 0.
Class VersionOrder : Prop := version_order : ordering stream_order.
Context {HVO : VersionOrder}.
Implicit Types (l : list ModulePackage) (a b mp : ModulePackage) (g : list ModulePackage) (groups : list (list ModulePackage)) (out : list (list (list ModulePackage))).

(** The order of modules by name, stream and architecture; with the version, newest first; and by repositories first. *)
Definition name_order a b : comparison := strcmp (getName a) (getName b).
Definition repo_order a b : comparison := strcmp (getRepoID a) (getRepoID b).
Definition module_order : ModulePackage -> ModulePackage -> comparison :=
  lexicographic name_order (lexicographic (fun a b => stream_order (getStream a) (getStream b)) (fun a b => g_strcmp0 (getArchCStr a) (getArchCStr b))).
Definition newest_first a b : comparison := Z.compare (getVersionNum b) (getVersionNum a).
Definition latest_order := lexicographic module_order newest_first.
Definition place_order := lexicographic repo_order module_order.
Definition per_repo_order := lexicographic place_order newest_first.
Lemma ordering_module : ordering module_order.
Proof.
  apply ordering_lex; [apply (ordering_on getName), ordering_strcmp|]. apply ordering_lex; [apply (ordering_on getStream), version_order|]. apply (ordering_on getArchCStr), ordering_strcmp0.
Qed.
Lemma ordering_newest : ordering newest_first.
Proof. apply (ordering_flip (fun a b => Z.compare (getVersionNum a) (getVersionNum b))), (ordering_on getVersionNum), ordering_Z. Qed.
Lemma ordering_place : ordering place_order.
Proof. apply ordering_lex; [apply (ordering_on getRepoID), ordering_strcmp|apply ordering_module]. Qed.
Definition is_Lt (c : comparison) : bool := match c with Lt => true | _ => false end.
Lemma latest_sorter a b : modulePackageLatestSorter a b = is_Lt (latest_order a b).
Proof.
  unfold modulePackageLatestSorter, latest_order, module_order, lexicographic, name_order, stream_order, newest_first. destruct (strcmp _ _); try done.
  destruct (Z.compare_spec (pool_evrcmp_str (getStream a) (getStream b)) 0) as [->|H|H]; simpl.
  - by destruct (g_strcmp0 _ _).
  - rewrite (proj2 (Z.eqb_neq _ _)) by lia. simpl. apply Z.ltb_lt. lia.
  - rewrite (proj2 (Z.eqb_neq _ _)) by lia. simpl. apply Z.ltb_ge. lia.
Qed.
Lemma per_repo_sorter a b : modulePackageLatestPerRepoSorter a b = is_Lt (per_repo_order a b).
Proof.
  unfold modulePackageLatestPerRepoSorter. rewrite latest_sorter. unfold per_repo_order, latest_order, place_order, lexicographic, repo_order.
  destruct (strcmp (getRepoID a) (getRepoID b)) eqn:E; simpl.
  - apply strcmp_Eq in E. rewrite bool_decide_true by done. by destruct (module_order a b).
  - rewrite bool_decide_false by (intros H%strcmp_Eq; congruence). by apply strcmp_Lt.
  - rewrite bool_decide_false by (intros H%strcmp_Eq; congruence). apply not_true_iff_false. intros H%strcmp_Lt. congruence.
Qed.
(** [std::sort] with one of these orders. *)
Lemma sorted_by (less : ModulePackage -> ModulePackage -> bool) c l : ordering c -> (forall a b, less a b = is_Lt (c a b)) ->
  StronglySorted (fun a b => c a b <> Gt) (std_sort less l) /\ Permutation (std_sort less l) l.
Proof.
  intros Hc Hless. assert (Hna : forall a b, not_after less a b <-> c a b <> Gt).
  { intros a b. unfold not_after. rewrite Hless, (ordering_opp c Hc a b). by destruct (c a b). }
  split; [|apply merge_sort_Permutation]. unfold std_sort.
  assert (H : StronglySorted (not_after less) (merge_sort (not_after less) l)).
  { apply StronglySorted_merge_sort.
    - intros a b d H1%Hna H2%Hna. apply Hna. by apply (ordering_between c a b d Hc).
    - intros a b. destruct (c a b) eqn:E; [left|left|right]; apply Hna; [by rewrite E..|]. by rewrite (ordering_opp c Hc a b), E. }
  eapply sorted_weaken; [|exact H]. intros a b. apply Hna.
Qed.

(** ** One pass over the sorted modules *)

Lemma lex_eq {A : Type} (c1 c2 : A -> A -> comparison) (a b : A) : lexicographic c1 c2 a b = Eq <-> c1 a b = Eq /\ c2 a b = Eq.
Proof. unfold lexicographic. destruct (c1 a b); split; [auto|by intros [_ ?]|done|by intros [? _]|done|by intros [? _]]. Qed.
(** The same repository, name, stream and architecture. *)
Definition same_place a b : Prop := getRepoID a = getRepoID b /\ same_stream a b = true.
(** Streams of a name that are equal as versions are the same text. *)
Definition streams_distinct l : Prop := forall a b, a ∈ l -> b ∈ l -> getName a = getName b -> stream_order (getStream a) (getStream b) = Eq -> getStream a = getStream b.
Lemma same_stream_iff a b : same_stream a b = true <-> getName a = getName b /\ getStream a = getStream b /\ getArchCStr a = getArchCStr b.
Proof. unfold same_stream. rewrite !andb_true_iff, !bool_decide_eq_true. tauto. Qed.
Lemma ordering_refl {A : Type} (c : A -> A -> comparison) (a : A) : ordering c -> c a a = Eq.
Proof. intros [O T E]. destruct (c a a) eqn:H; [done| |]; pose proof (O a a) as H'; rewrite H in H'; done. Qed.
Lemma module_order_eq l a b : streams_distinct l -> a ∈ l -> b ∈ l -> module_order a b = Eq <-> same_stream a b = true.
Proof.
  intros Hd Ha Hb. rewrite same_stream_iff. unfold module_order, name_order. rewrite !lex_eq, strcmp_Eq, strcmp0_Eq. split.
  - intros (H1 & H2 & H3). split; [done|]. split; [by apply Hd|done].
  - intros (H1 & H2 & H3). split; [done|]. split; [|done]. rewrite H2. apply (ordering_refl _ _ version_order).
Qed.
Lemma place_order_eq l a b : streams_distinct l -> a ∈ l -> b ∈ l -> place_order a b = Eq <-> same_place a b.
Proof. intros Hd Ha Hb. unfold place_order, same_place. rewrite lex_eq, (module_order_eq l a b Hd Ha Hb). unfold repo_order. by rewrite strcmp_Eq. Qed.

Lemma elem_concat {A : Type} (x : A) (ls : list (list A)) : x ∈ concat ls <-> exists la, la ∈ ls /\ x ∈ la.
Proof. rewrite list_elem_of_In, in_concat. split; intros (la & H1 & H2); exists la; by rewrite ?list_elem_of_In in *. Qed.

Section pass.
(** An order by places, and by versions among the modules of a place. *)
Variable (c : ModulePackage -> ModulePackage -> comparison).
Hypothesis Hc : ordering c.
(** No module of the place in the list is newer. *)
Definition newest (done : list ModulePackage) mp : Prop := forall other, other ∈ done -> c other mp = Eq -> getVersionNum other <= getVersionNum mp.
(** What was seen, the module that the last group began with, and the groups, the last one first. *)
Record scanned (done : list ModulePackage) (prev : ModulePackage) groups : Prop := {
  scan_sorted : StronglySorted (fun g h => forall a b, a ∈ g -> b ∈ h -> c b a = Lt) groups;
  scan_uniform : forall g, g ∈ groups -> g <> [] /\ forall a b, a ∈ g -> b ∈ g -> c a b = Eq /\ getVersionNum a = getVersionNum b;
  scan_newest : forall mp, mp ∈ concat groups <-> mp ∈ done /\ newest done mp;
  scan_head : exists g rest, groups = g :: rest /\ prev ∈ g;
  scan_last : forall mp, mp ∈ done -> c mp prev <> Gt;
}.
(** The next module in the order. *)
Definition follows (done : list ModulePackage) mp : Prop := forall other, other ∈ done -> c other mp <> Gt /\ (c other mp = Eq -> getVersionNum mp <= getVersionNum other).
Lemma newest_snoc done p mp : newest (done ++ [p]) mp <-> newest done mp /\ (c p mp = Eq -> getVersionNum p <= getVersionNum mp).
Proof.
  unfold newest. split.
  - intros H. split; [intros other Ho|]; apply H; apply elem_of_app; [by left|right; by left].
  - intros [H1 H2] other [Ho|Ho%list_elem_of_singleton]%elem_of_app; [by apply H1|by subst].
Qed.
Lemma scan_one p : scanned [p] p [[p]].
Proof.
  pose proof (ordering_refl c p Hc) as Hpp. split.
  - repeat constructor.
  - intros g ->%list_elem_of_singleton. split; [done|]. intros a b ->%list_elem_of_singleton ->%list_elem_of_singleton. done.
  - intros mp. simpl. rewrite list_elem_of_singleton. split; [intros ->|tauto]. split; [done|]. intros other ->%list_elem_of_singleton _. lia.
  - exists [p], []. split; [done|by left].
  - intros mp ->%list_elem_of_singleton. by rewrite Hpp.
Qed.
Lemma Lt_flip a b : c a b = Lt -> c b a = Gt.
Proof. intros H. by rewrite (ordering_opp c Hc a b), H. Qed.
Lemma ordered_Lt a b d : c a b <> Gt -> c b d = Lt -> c a d = Lt.
Proof.
  intros H1 H2. destruct (c a b) eqn:E; [|by apply (ordering_trans c Hc a b d)|done]. by rewrite (ordering_eq c Hc a b d E).
Qed.
Lemma scan_new done prev groups p : scanned done prev groups -> c prev p = Lt -> scanned (done ++ [p]) p ([p] :: groups).
Proof.
  intros [S1 S2 S3 S4 S5] Hp. pose proof (ordering_refl c p Hc) as Hpp.
  assert (Hlt : forall a, a ∈ done -> c a p = Lt) by (intros a Ha; apply (ordered_Lt a prev p); [by apply S5|done]).
  assert (Hdone : forall a g, g ∈ groups -> a ∈ g -> a ∈ done) by (intros a g Hg Ha; apply S3, elem_concat; by exists g). split.
  - constructor; [done|]. apply Forall_forall. intros g Hg a b ->%list_elem_of_singleton Hb. by apply Hlt, (Hdone b g).
  - intros g [->|Hg]%elem_of_cons; [|by apply S2]. split; [done|]. intros a b ->%list_elem_of_singleton ->%list_elem_of_singleton. done.
  - intros mp. simpl. rewrite elem_of_cons, S3, elem_of_app, list_elem_of_singleton, newest_snoc. split.
    + intros [->|[H1 H2]]; [|split; [by left|]; split; [done|]; intros H; specialize (Hlt mp H1); apply Lt_flip in Hlt; congruence].
      split; [by right|]. split; [|lia]. intros other Ho Heq. specialize (Hlt other Ho). congruence.
    + intros [[H| ->] [H1 _]]; [right|by left]. done.
  - exists [p], groups. split; [done|by left].
  - intros mp [H| ->%list_elem_of_singleton]%elem_of_app; [by rewrite Hlt|by rewrite Hpp].
Qed.
Lemma scan_join done prev g groups p : scanned done prev (g :: groups) -> follows done p -> prev ∈ done -> c prev p = Eq -> getVersionNum prev = getVersionNum p ->
  prev ∈ g -> scanned (done ++ [p]) prev ((g ++ [p]) :: groups).
Proof.
  intros [S1 S2 S3 S4 S5] Hp Hprev Heq Hv Hg. pose proof (ordering_refl c p Hc) as Hpp.
  assert (Hmem : forall a h, a ∈ h -> h ∈ g :: groups -> a ∈ done) by (intros a h Ha Hh; apply S3, elem_concat; by exists h).
  assert (Hsame : forall a, c a p = c a prev).
  { intros a. rewrite (ordering_opp c Hc p a), (ordering_opp c Hc prev a). f_equal. symmetry. apply (ordering_eq c Hc _ _ _ Heq). }
  assert (Hsame' : forall a, c p a = c prev a) by (intros a; symmetry; apply (ordering_eq c Hc _ _ _ Heq)). split.
  - apply StronglySorted_inv in S1 as [S1 S1']. constructor; [done|]. apply Forall_forall. intros h Hh a b [Ha| ->%list_elem_of_singleton]%elem_of_app Hb.
    + rewrite Forall_forall in S1'. by apply (S1' h Hh).
    + rewrite Hsame. rewrite Forall_forall in S1'. by apply (S1' h Hh).
  - intros h [->|Hh]%elem_of_cons; [|apply S2; by right]. split; [by destruct g|]. destruct (S2 g) as [_ U]; [by left|].
    intros a b [Ha| ->%list_elem_of_singleton]%elem_of_app [Hb| ->%list_elem_of_singleton]%elem_of_app; [by apply U|..|done].
    + rewrite Hsame. destruct (U a prev Ha Hg) as [E1 E2]. split; [done|lia].
    + rewrite Hsame'. destruct (U prev b Hg Hb) as [E1 E2]. split; [done|lia].
  - intros mp. simpl in S3 |- *. rewrite <-app_assoc, elem_of_app. simpl. rewrite elem_of_cons, elem_of_app, list_elem_of_singleton, newest_snoc.
    assert (Hprevn : newest done prev) by (apply S3, elem_of_app; by left). split.
    + intros [Ha|[->|Ha]].
      * assert (Hn : mp ∈ done /\ newest done mp) by (apply S3, elem_of_app; by left). destruct Hn as [H1 H2]. split; [by left|]. split; [done|]. rewrite Hsame'. intros H. rewrite <-Hv. by apply H2.
      * split; [by right|]. split; [|lia]. intros other Ho Heq'. rewrite Hsame in Heq'. rewrite <-Hv. by apply Hprevn.
      * assert (Hn : mp ∈ done /\ newest done mp) by (apply S3, elem_of_app; by right). destruct Hn as [H1 H2]. split; [by left|]. split; [done|]. rewrite Hsame'. intros H. rewrite <-Hv. by apply H2.
    + intros [[H| ->] [H1 _]]; [|by right; left]. assert (Hin : mp ∈ g ++ concat groups) by (apply S3; done). apply elem_of_app in Hin as [?|?]; [by left|by right; right].
  - exists (g ++ [p]), groups. split; [done|]. apply elem_of_app. by left.
  - intros mp [H| ->%list_elem_of_singleton]%elem_of_app; [by apply S5|]. rewrite Hsame', (ordering_refl c prev Hc). done.
Qed.
Lemma scan_skip done prev groups p : scanned done prev groups -> follows done p -> prev ∈ done -> c prev p = Eq -> getVersionNum prev <> getVersionNum p ->
  scanned (done ++ [p]) prev groups.
Proof.
  intros [S1 S2 S3 S4 S5] Hp Hprev Heq Hv. assert (Hsame' : forall a, c p a = c prev a) by (intros a; symmetry; apply (ordering_eq c Hc _ _ _ Heq)).
  destruct (Hp prev Hprev) as [_ Hle]. specialize (Hle Heq). split; [done|done| |done|].
  - intros mp. rewrite S3, elem_of_app, list_elem_of_singleton, newest_snoc. split.
    + intros [H1 H2]. split; [by left|]. split; [done|]. rewrite Hsame'. intros H. specialize (H2 prev Hprev H). lia.
    + intros [[H| ->] [H1 _]]; [done|]. specialize (H1 prev Hprev Heq). lia.
  - intros mp [H| ->%list_elem_of_singleton]%elem_of_app; [by apply S5|]. rewrite Hsame', (ordering_refl c prev Hc). done.
Qed.
Lemma prev_in done prev groups : scanned done prev groups -> prev ∈ done.
Proof. intros [_ _ S3 (g & rest & -> & Hg) _]. apply S3, elem_concat. exists g. split; [by left|done]. Qed.
End pass.

(** *** The lists of the repositories *)

Definition repo_before (r r' : list (list ModulePackage)) : Prop := forall a b, a ∈ concat r -> b ∈ concat r' -> str_ltb (getRepoID b) (getRepoID a) = true.
Record rows_ok prev out : Prop := {
  rows_head : exists g gs rest, out = (g :: gs) :: rest /\ prev ∈ g /\ forall a, a ∈ g ++ concat gs -> getRepoID a = getRepoID prev;
  rows_uniform : forall r, r ∈ out -> r <> [] /\ forall a b, a ∈ concat r -> b ∈ concat r -> getRepoID a = getRepoID b;
  rows_sorted : StronglySorted repo_before out;
}.
Lemma rows_new prev out p : rows_ok prev out -> str_ltb (getRepoID prev) (getRepoID p) = true -> rows_ok p ([[p]] :: out).
Proof.
  intros [(g & gs & rest & -> & Hg & H1) H2 H3] Hlt. split.
  - exists [p], [], ((g :: gs) :: rest). split; [done|]. split; [by left|]. by intros a ->%list_elem_of_singleton.
  - intros r [->|Hr]%elem_of_cons; [|by apply H2]. split; [done|]. simpl. by intros a b ->%list_elem_of_singleton ->%list_elem_of_singleton.
  - constructor; [done|]. apply Forall_forall. intros r Hr a b Ha Hb. simpl in Ha. apply list_elem_of_singleton in Ha as ->.
    apply StronglySorted_inv in H3 as [_ H3]. rewrite Forall_forall in H3. apply elem_of_cons in Hr as [->|Hr]; [by rewrite (H1 b)|].
    eapply str_ltb_trans; [|exact Hlt]. apply (H3 r Hr prev b); [|done]. simpl. apply elem_of_app. by left.
Qed.
(** The list of the last repository, with other groups at its head. *)
Lemma rows_head_change prev out p g gs rest g' gs' : out = (g :: gs) :: rest -> rows_ok prev out -> getRepoID p = getRepoID prev -> p ∈ g' ->
  (forall a, a ∈ g' ++ concat gs' -> a ∈ g ++ concat gs \/ getRepoID a = getRepoID prev) -> rows_ok p ((g' :: gs') :: rest).
Proof.
  intros Eo [(g0 & gs0 & rest0 & E & Hg & H1) H2 H3] Hrepo Hp Hin. rewrite Eo in E. injection E as <- <- <-. subst out.
  assert (Hall : forall a, a ∈ g' ++ concat gs' -> getRepoID a = getRepoID prev) by (intros a [Ha|Ha]%Hin; [by apply H1|done]).
  apply StronglySorted_inv in H3 as [H3 H3']. split.
  - exists g', gs', rest. split; [done|]. split; [done|]. intros a Ha. rewrite Hrepo. by apply Hall.
  - intros r [->|Hr]%elem_of_cons; [|apply H2; by right]. split; [done|]. intros a b Ha%Hall Hb%Hall. congruence.
  - constructor; [done|]. rewrite Forall_forall in *. intros r Hr a b Ha%Hall Hb. rewrite Ha. apply (H3' r Hr prev b); [|done]. apply elem_of_app. by left.
Qed.
Lemma rows_one p : rows_ok p [[[p]]].
Proof.
  split; [|intros r ->%list_elem_of_singleton|repeat constructor].
  - exists [p], [], []. split; [done|]. split; [by left|]. by intros a ->%list_elem_of_singleton.
  - split; [done|]. simpl. by intros a b ->%list_elem_of_singleton ->%list_elem_of_singleton.
Qed.
Lemma place_repo prev p : place_order prev p <> Gt -> getRepoID prev <> getRepoID p -> place_order prev p = Lt /\ str_ltb (getRepoID prev) (getRepoID p) = true.
Proof.
  unfold place_order, lexicographic, repo_order. intros H Hne. destruct (strcmp _ _) eqn:E; [by apply strcmp_Eq in E|split; [done|by apply strcmp_Lt]|done].
Qed.
Lemma group_ok all rest done prev out : streams_distinct all -> (forall a, a ∈ done ++ rest -> a ∈ all) ->
  StronglySorted (fun a b => per_repo_order a b <> Gt) (done ++ rest) -> scanned place_order done prev (concat out) -> rows_ok prev out ->
  exists prev', scanned place_order (done ++ rest) prev' (concat (group_modules prev rest out)) /\ rows_ok prev' (group_modules prev rest out).
Proof.
  intros Hd. revert done prev out. induction rest as [|p rest IH]; intros done prev out Hall Hsort Hs Hr; cbn [group_modules]; [rewrite app_nil_r; by exists prev|].
  pose proof (prev_in _ _ _ _ Hs) as Hprev. assert (Hfollow : follows place_order done p).
  { intros other Ho. apply StronglySorted_app in Hsort as (Hx & _ & _). specialize (Hx other p Ho (list_elem_of_here _ _)). unfold per_repo_order, lexicographic at 1 in Hx.
    revert Hx. destruct (place_order other p) eqn:E; intros Hx; [|done|done]. split; [done|]. intros _. exact Hx. }
  assert (Hin : prev ∈ all /\ p ∈ all) by (split; apply Hall, elem_of_app; [by left|right; by left]). destruct Hin as [Hin1 Hin2].
  destruct (Hfollow prev Hprev) as [Hng Hle].
  assert (Hall' : forall a, a ∈ (done ++ [p]) ++ rest -> a ∈ all) by (intros a; rewrite <-app_assoc; apply Hall).
  assert (Hsort' : StronglySorted (fun a b => per_repo_order a b <> Gt) ((done ++ [p]) ++ rest)) by by rewrite <-app_assoc.
  replace (done ++ p :: rest) with ((done ++ [p]) ++ rest) by by rewrite <-app_assoc.
  case_bool_decide as Hrepo; cbn [negb]; cycle 1.
  { destruct (place_repo prev p Hng Hrepo) as [H1 H2]. apply (IH (done ++ [p]) p ([[p]] :: out)); [done|done| |by eapply rows_new]. simpl. by eapply scan_new; [apply ordering_place| |]. }
  pose proof (rows_head _ _ Hr) as (g & gs & others & -> & Hg & _). destruct (same_stream p prev) eqn:Est; cbn [negb]; cycle 1.
  { apply (IH (done ++ [p]) p (([p] :: g :: gs) :: others)); [done|done| |].
    - simpl. apply (scan_new _ ordering_place done prev); [done|]. destruct (place_order prev p) eqn:E; [|done|done].
      apply (place_order_eq all prev p Hd Hin1 Hin2) in E as [_ E]. apply same_stream_iff in E. assert (H : same_stream p prev = true) by (apply same_stream_iff; naive_solver). congruence.
    - eapply (rows_head_change prev _ p g gs others); [done|done|done|by left|]. intros a. simpl. rewrite elem_of_cons. intros [->|Ha]; [by right|by left]. }
  assert (Heq : place_order prev p = Eq).
  { apply (place_order_eq all prev p Hd Hin1 Hin2). split; [done|]. apply same_stream_iff in Est. apply same_stream_iff. naive_solver. }
  destruct (Z.eqb_spec (getVersionNum prev) (getVersionNum p)) as [Ev|Ev].
  - apply (IH (done ++ [p]) prev (((g ++ [p]) :: gs) :: others)); [done|done| |].
    + simpl. apply (scan_join _ ordering_place done prev g (gs ++ concat others) p); done.
    + eapply (rows_head_change prev _ prev g gs others); [done|done|done|apply elem_of_app; by left|]. intros a. rewrite !elem_of_app, list_elem_of_singleton.
      intros [[Ha| ->]|Ha]; [by left; left|by right|by left; right].
  - apply (IH (done ++ [p]) prev); [done|done| |done]. by apply (scan_skip _ ordering_place).
Qed.

(** ** The latest modules *)

Lemma sorted_rev {A : Type} (R R' : A -> A -> Prop) (l : list A) : (forall x y, R x y -> R' y x) -> StronglySorted R l -> StronglySorted R' (rev l).
Proof.
  intros H. induction 1 as [|x l _ IH Hx]; simpl; [constructor|]. apply StronglySorted_app. split; [|split; [done|repeat constructor]].
  intros y z Hy ->%list_elem_of_singleton. apply H. rewrite Forall_forall in Hx. apply Hx. apply list_elem_of_In, in_rev in Hy. by apply list_elem_of_In.
Qed.
Lemma concat_in_order out : concat (in_order out) = rev (concat out).
Proof.
  unfold in_order. induction out as [|r out IH]; [done|]. simpl. rewrite concat_app, IH, rev_app_distr. simpl. by rewrite app_nil_r.
Qed.
Lemma in_rev_iff {A : Type} (x : A) (l : list A) : x ∈ rev l <-> x ∈ l.
Proof. by rewrite !list_elem_of_In, <-in_rev. Qed.
(** C32. The latest modules of each repository: a module is given just when it is one
    of those asked for and none of its repository, name, stream and architecture has
    a higher version. There is a list for each repository, in the order of their names, and
    in it a group for each name, stream and architecture, in this order; the modules
    of a group have one version. This is so where streams of a module that compare
    equal are written alike ([streams_distinct]); streams that are one version but
    written in two ways may alternate in the order of streams, and then modules that are not the
    latest are given too ([ModuleSolvingExamples.split_groups]). *)
Theorem latest_per_repo_spec l : streams_distinct l ->
  (forall mp, mp ∈ concat (concat (latest_per_repo l)) <-> mp ∈ l /\ forall other, other ∈ l -> same_place other mp -> getVersionNum other <= getVersionNum mp)
  /\ (forall r, r ∈ latest_per_repo l -> r <> [] /\ forall a b, a ∈ concat r -> b ∈ concat r -> getRepoID a = getRepoID b)
  /\ StronglySorted (fun r r' => forall a b, a ∈ concat r -> b ∈ concat r' -> str_ltb (getRepoID a) (getRepoID b) = true) (latest_per_repo l)
  /\ (forall g, g ∈ concat (latest_per_repo l) -> g <> [] /\ forall a b, a ∈ g -> b ∈ g -> same_place a b /\ getVersionNum a = getVersionNum b)
  /\ StronglySorted (fun g h => forall a b, a ∈ g -> b ∈ h -> place_order a b = Lt) (concat (latest_per_repo l)).
Proof.
  intros Hd. unfold latest_per_repo. destruct (sorted_by modulePackageLatestPerRepoSorter per_repo_order l) as [Hsort Hperm].
  { apply ordering_lex; [apply ordering_place|apply ordering_newest]. }
  { apply per_repo_sorter. }
  destruct (std_sort modulePackageLatestPerRepoSorter l) as [|first rest].
  { apply Permutation_nil in Hperm as ->. simpl. split; [intros mp; rewrite elem_of_nil; tauto|]. split; [by intros r ?%elem_of_nil|]. split; [constructor|]. split; [by intros g ?%elem_of_nil|constructor]. }
  assert (Hin : forall a, a ∈ [first] ++ rest -> a ∈ l) by (intros a; by rewrite <-Hperm).
  destruct (group_ok l rest [first] first [[[first]]] Hd Hin Hsort (scan_one _ ordering_place first) (rows_one first)) as (last & [S1 S2 S3 S4 S5] & [R1 R2 R3]).
  set (out := group_modules first rest [[[first]]]) in *. rewrite concat_in_order. change ([first] ++ rest) with (first :: rest) in *.
  assert (Hmem : forall mp, mp ∈ concat (concat out) <-> mp ∈ l /\ forall other, other ∈ l -> same_place other mp -> getVersionNum other <= getVersionNum mp).
  { intros mp. rewrite S3. unfold newest. setoid_rewrite Hperm. split; intros [H1 H2]; (split; [done|]); intros other Ho Hp; apply H2; try done; by apply (place_order_eq l other mp Hd Ho H1). }
  assert (Hrow : forall r, r ∈ in_order out <-> rev r ∈ out).
  { intros r. unfold in_order. rewrite in_rev_iff, list_elem_of_In, in_map_iff. setoid_rewrite <-list_elem_of_In. split; [intros (x & <- & Hx); by rewrite rev_involutive|]. intros Hr. exists (rev r). by rewrite rev_involutive. }
  assert (Hrev : forall r mp, mp ∈ concat r <-> mp ∈ concat (rev r)) by (intros r mp; rewrite !elem_concat; by setoid_rewrite in_rev_iff).
  split; [intros mp; by rewrite <-Hrev|]. split.
  { intros r Hr%Hrow. destruct (R2 _ Hr) as [H1 H2]. split; [by intros ->|]. intros a b Ha%Hrev Hb%Hrev. by apply H2. }
  split.
  { unfold in_order. apply (sorted_rev (fun r r' => forall a b, a ∈ concat r -> b ∈ concat r' -> str_ltb (getRepoID b) (getRepoID a) = true)); [auto|].
    clear -R3 Hrev. induction R3 as [|r out _ IH Hr]; simpl; constructor; [done|]. apply Forall_forall. intros r' Hr'. apply list_elem_of_In, in_map_iff in Hr' as (x & <- & Hx).
    rewrite Forall_forall in Hr. apply list_elem_of_In in Hx. intros a b Ha Hb. apply (Hr x Hx); by apply Hrev. }
  split.
  { intros g Hg. rewrite in_rev_iff in Hg. destruct (S2 g Hg) as [H1 H2]. split; [done|]. intros a b Ha Hb. destruct (H2 a b Ha Hb) as [H3 H4]. split; [|done].
    assert (Hl : forall x, x ∈ g -> x ∈ l) by (intros x Hx; apply (Hmem x), elem_concat; by exists g). by apply (place_order_eq l a b Hd); [apply Hl|apply Hl|]. }
  eapply sorted_rev; [|exact S1]. simpl. intros g h H a b Ha Hb. by apply H.
Qed.
(** The passes over modules of all repositories keep the first module of each stream. *)
Record picked (done res : list ModulePackage) (prev : ModulePackage) : Prop := {
  picked_sorted : StronglySorted (fun a b => module_order a b = Lt) res;
  picked_newest : forall mp, mp ∈ res -> mp ∈ done /\ newest module_order done mp;
  picked_all : forall a, a ∈ done -> exists mp, mp ∈ res /\ module_order a mp = Eq;
  picked_last : prev ∈ res /\ forall a, a ∈ res -> module_order a prev <> Gt;
}.
Lemma pick_ok all rest done res prev : streams_distinct all -> (forall a, a ∈ done ++ rest -> a ∈ all) ->
  StronglySorted (fun a b => latest_order a b <> Gt) (done ++ rest) -> picked done res prev ->
  exists prev', picked (done ++ rest) (res ++ first_of_stream prev rest) prev'.
Proof.
  intros Hd. pose proof ordering_module as Hc. revert done res prev. induction rest as [|p rest IH]; intros done res prev Hall Hsort Hp; cbn [first_of_stream].
  { exists prev. by rewrite !app_nil_r. }
  pose proof Hp as [P1 P2 P3 [P4 P5]]. destruct (P2 prev P4) as [Hprev Hnew].
  assert (Hfollow : forall other, other ∈ done -> module_order other p <> Gt /\ (module_order other p = Eq -> getVersionNum p <= getVersionNum other)).
  { intros other Ho. apply StronglySorted_app in Hsort as (Hx & _ & _). specialize (Hx other p Ho (list_elem_of_here _ _)). unfold latest_order, lexicographic at 1 in Hx.
    revert Hx. destruct (module_order other p) eqn:E; intros Hx; [|done|done]. split; [done|]. intros _. exact Hx. }
  assert (Hin : prev ∈ all /\ p ∈ all) by (split; apply Hall, elem_of_app; [by left|right; by left]). destruct Hin as [Hin1 Hin2].
  assert (Hall' : forall a, a ∈ (done ++ [p]) ++ rest -> a ∈ all) by (intros a; rewrite <-app_assoc; apply Hall).
  assert (Hsort' : StronglySorted (fun a b => latest_order a b <> Gt) ((done ++ [p]) ++ rest)) by by rewrite <-app_assoc.
  replace (done ++ p :: rest) with ((done ++ [p]) ++ rest) by by rewrite <-app_assoc.
  assert (Hss : same_stream p prev = true <-> module_order prev p = Eq).
  { rewrite (module_order_eq all prev p Hd Hin1 Hin2), !same_stream_iff. naive_solver. }
  destruct (same_stream p prev) eqn:Est.
  - assert (Heq : module_order prev p = Eq) by by apply Hss. apply (IH (done ++ [p]) res prev); [done|done|]. split; [done| | |done].
    + intros mp Hmp. destruct (P2 mp Hmp) as [H1 H2]. split; [apply elem_of_app; by left|]. apply newest_snoc. split; [done|]. intros H. destruct (Hfollow mp H1) as [_ H3].
      apply H3. rewrite (ordering_opp _ Hc p mp), H. done.
    + intros a [Ha|Ha%list_elem_of_singleton]%elem_of_app; [by apply P3|]. subst a. exists prev. split; [done|]. by rewrite (ordering_opp _ Hc prev p), Heq.
  - assert (Hlt : module_order prev p = Lt).
    { destruct (Hfollow prev Hprev) as [Hng _]. destruct (module_order prev p) eqn:E; [|done|done]. by pose proof (proj2 Hss eq_refl). }
    assert (Hall2 : forall a, a ∈ res -> module_order a p = Lt) by (intros a Ha; apply (ordered_Lt _ Hc a prev p); [by apply P5|done]).
    assert (Hdone : forall a, a ∈ done -> module_order a p = Lt).
    { intros a Ha. destruct (P3 a Ha) as (mp & Hmp & Heq). rewrite (ordering_eq _ Hc a mp p Heq). by apply Hall2. }
    destruct (IH (done ++ [p]) (res ++ [p]) p) as [prev' H]; [done|done| |exists prev'; by rewrite <-(app_assoc res) in H].
    pose proof (ordering_refl module_order p Hc) as Hpp. split.
    + apply StronglySorted_app. split; [|split; [done|repeat constructor]]. intros a b Ha ->%list_elem_of_singleton. by apply Hall2.
    + intros mp [Hmp| ->%list_elem_of_singleton]%elem_of_app.
      * destruct (P2 mp Hmp) as [H1 H2]. split; [apply elem_of_app; by left|]. apply newest_snoc. split; [done|]. intros H. specialize (Hdone mp H1).
        rewrite (ordering_opp _ Hc p mp), H in Hdone. done.
      * split; [apply elem_of_app; right; by left|]. apply newest_snoc. split; [|lia]. intros other Ho H. specialize (Hdone other Ho). congruence.
    + intros a [Ha|Ha%list_elem_of_singleton]%elem_of_app; [destruct (P3 a Ha) as (mp & H1 & H2); exists mp; split; [apply elem_of_app; by left|done]|].
      subst a. exists p. split; [apply elem_of_app; right; by left|done].
    + split; [apply elem_of_app; right; by left|]. intros a [Ha| ->%list_elem_of_singleton]%elem_of_app; [by rewrite Hall2|by rewrite Hpp].
Qed.
(** The latest module of each stream: each stream has one, and no module of it is newer. *)
Lemma latest_of_spec l : streams_distinct l ->
  StronglySorted (fun a b => module_order a b = Lt) (latest_of l)
  /\ (forall mp, mp ∈ latest_of l -> mp ∈ l /\ forall other, other ∈ l -> same_stream other mp = true -> getVersionNum other <= getVersionNum mp)
  /\ forall a, a ∈ l -> exists mp, mp ∈ latest_of l /\ same_stream a mp = true.
Proof.
  intros Hd. unfold latest_of. destruct (sorted_by modulePackageLatestSorter latest_order l) as [Hsort Hperm].
  { apply ordering_lex; [apply ordering_module|apply ordering_newest]. }
  { apply latest_sorter. }
  destruct (std_sort modulePackageLatestSorter l) as [|p rest].
  { apply Permutation_nil in Hperm as ->. split; [constructor|]. split; [by intros mp ?%elem_of_nil|by intros mp ?%elem_of_nil]. }
  pose proof (ordering_refl module_order p ordering_module) as Hpp.
  destruct (pick_ok l rest [p] [p] p Hd) as (prev' & [P1 P2 P3 _]); [intros a; by rewrite <-Hperm|done| |].
  - split; [repeat constructor|..].
    + intros mp ->%list_elem_of_singleton. split; [by left|]. intros other ->%list_elem_of_singleton _. lia.
    + intros a ->%list_elem_of_singleton. exists p. split; [by left|done].
    + split; [by left|]. intros a ->%list_elem_of_singleton. by rewrite Hpp.
  - simpl in P1, P2, P3. split; [done|]. split.
    + intros mp Hmp. destruct (P2 mp Hmp) as [H1 H2]. rewrite Hperm in H1. split; [done|]. intros other Ho Hs. apply H2; [by rewrite Hperm|]. by apply (module_order_eq l).
    + intros a Ha. destruct (P3 a) as (mp & H1 & H2); [by rewrite Hperm|]. exists mp. split; [done|]. apply (module_order_eq l a mp Hd Ha); [|done].
      rewrite <-Hperm. by apply P2.
Qed.
End latest.

(** ** Fail-safe files *)

Section fail_safe.
Context {HP : Reldep.Pool} {HL : LibsolvPool} {HS : Libsolv} {HG : LibsolvGrow} {HR : ProvidesReady}.
Context {HU : LibsolvUpdates} {HA : Advisories} {HQ : PackageSets} {HD : Dependencies} {HM : MissingFilters} {HJ : SolverJobs}.
Context {HV : Solving} {HE : PackageSetEdits}.
Context {P : Type} {HK : Modules.KeyFile P}.
Context {HVO : VersionOrder}.
Implicit Types (c : Container P) (mp : ModulePackage) (names : list cstr) (f : cstr).

Lemma str_le_take n s t : str_le s t -> str_le (take n s) (take n t).
Proof.
  unfold str_le. revert s t. induction n as [|n IH]; intros s t H; [by destruct s, t|]. destruct s as [|a s], t as [|b t]; try done.
  simpl take. apply not_true_iff_false. intros H'. apply str_ltb_cons in H'. apply not_true_iff_false in H. apply H, str_ltb_cons.
  destruct H' as [H'|[-> H']]; [by left|right]. split; [done|]. destruct (str_ltb t s) eqn:E; [done|]. specialize (IH s t E). congruence.
Qed.
Lemma yaml_sorted entries : StronglySorted str_le (getYamlFilenames entries).
Proof. apply StronglySorted_merge_sort; apply _. Qed.
Lemma yaml_in entries f : f ∈ getYamlFilenames entries <-> f ∈ entries /\ (10 <= length f)%nat /\ has_suffix f (lit ".yaml") = true.
Proof.
  unfold getYamlFilenames. rewrite sort_strings_Permutation, list_elem_of_In, filter_In, <-list_elem_of_In, andb_true_iff, negb_true_iff, Nat.ltb_ge. tauto.
Qed.
Lemma yaml_nodup entries : NoDup entries -> NoDup (getYamlFilenames entries).
Proof.
  intros H. unfold getYamlFilenames. rewrite sort_strings_Permutation. apply NoDup_ListNoDup. apply List.NoDup_filter. by apply NoDup_ListNoDup.
Qed.
(** The binary search finds the files of a stream. *)
Lemma files_with_filter prefix names : StronglySorted str_le names -> files_with prefix names = List.filter (fun f => starts_with f prefix) names.
Proof.
  intros Hs. unfold files_with, stringStartWithLowerComparator.
  apply (equal_range_filter _ _ (fun f => str_ltb prefix (take (length prefix) f))).
  - intros f. unfold starts_with. destruct (str_ltb_tricho (take (length prefix) f) prefix) as [H|[H|H]].
    + rewrite H. simpl. apply bool_decide_eq_false. intros E. by rewrite E, str_ltb_irrefl in H.
    + rewrite H. rewrite bool_decide_true by done. by rewrite str_ltb_irrefl.
    + rewrite H. rewrite andb_false_r. apply bool_decide_eq_false. intros E. by rewrite E, str_ltb_irrefl in H.
  - eapply sorted_weaken; [|exact Hs]. intros x y Hxy%(str_le_take (length prefix)). unfold str_le in Hxy. split; intros H.
    + destruct (str_ltb_tricho (take (length prefix) x) (take (length prefix) y)) as [H1|[H1|H1]]; [by eapply str_ltb_trans|by rewrite H1|congruence].
    + destruct (str_ltb_tricho (take (length prefix) x) (take (length prefix) y)) as [H1|[H1|H1]]; [by eapply str_ltb_trans|by rewrite <-H1|congruence].
  - intros f H. destruct (str_ltb prefix (take (length prefix) f)) eqn:E; [|done]. pose proof (str_ltb_trans _ _ _ H E) as H'. by rewrite str_ltb_irrefl in H'.
Qed.
Lemma marks_spec names f : StronglySorted str_le names -> match marks names f with Some i => names !! i = Some f | None => f ∉ names end.
Proof.
  intros Hs. unfold marks. case_bool_decide as H; [done|]. intros Hin.
  pose proof (found_at (fun x => str_ltb x f) (fun x => bool_decide (x = f)) (fun x => str_ltb f x) names) as Hf.
  assert (E : existsb (fun x => bool_decide (x = f)) names = true) by (apply existsb_exists; exists f; split; [by apply list_elem_of_In|by apply bool_decide_eq_true]).
  rewrite <-Hf in E; [| | |].
  - destruct (names !! lower_bound (fun x => str_ltb x f) names) as [x|] eqn:Ex; [|done]. apply bool_decide_eq_true in E as ->. done.
  - intros x. destruct (str_ltb_tricho x f) as [Hx|[->|Hx]].
    + rewrite Hx. apply bool_decide_eq_false. intros ->. by rewrite str_ltb_irrefl in Hx.
    + by rewrite bool_decide_true, str_ltb_irrefl.
    + rewrite Hx, andb_false_r. apply bool_decide_eq_false. intros ->. by rewrite str_ltb_irrefl in Hx.
  - eapply sorted_weaken; [|exact Hs]. intros x y Hxy. split; intros H'; unfold str_le in Hxy.
    + destruct (str_ltb_tricho x y) as [H1|[->|H1]]; [by eapply str_ltb_trans|done|congruence].
    + destruct (str_ltb_tricho x y) as [H1|[->|H1]]; [by eapply str_ltb_trans|done|congruence].
  - intros x Hx. destruct (str_ltb f x) eqn:Ef; [|done]. pose proof (str_ltb_trans _ _ _ Hx Ef) as H'. by rewrite str_ltb_irrefl in H'.
Qed.
(** The modules that are active and of enabled streams. *)
Definition active_enabled (act : Map) c : list ModulePackage := List.filter (fun mp => isEnabled mp c) (omap (find_module c) (pset_ids act)).
Lemma find_module_in c id mp : find_module c id = Some mp -> mp ∈ getModulePackages c.
Proof.
  unfold find_module. intros (x & Hx & ->)%fmap_Some. apply find_some in Hx as [Hx _]. apply list_elem_of_In, in_map_iff. by exists x.
Qed.
Lemma active_enabled_in act c mp : mp ∈ active_enabled act c -> mp ∈ getModulePackages c.
Proof.
  unfold active_enabled. rewrite list_elem_of_In, filter_In, <-list_elem_of_In, list_elem_of_omap. intros [(id & _ & Hf) _]. by eapply find_module_in.
Qed.
Lemma latest_active_ok act c : activatedModules c = Some act -> (forall id, id ∈ pset_ids act -> is_Some (find_module c id)) ->
  getLatestActiveEnabledModules c = (c, Ok (latest_of (active_enabled act c))).
Proof.
  intros Ha Hk. unfold getLatestActiveEnabledModules, ask. unfold ModuleSolving.bind at 1. rewrite Ha. unfold active_enabled.
  set (run := fix active (l : list Z) : call P (list ModulePackage) := _).
  assert (E : forall l, (forall id, id ∈ l -> is_Some (find_module c id)) -> run l c = (c, Ok (List.filter (fun mp => isEnabled mp c) (omap (find_module c) l)))).
  { induction l as [|id l IH]; intros Hl; [done|]. destruct (Hl id) as [mp Hmp]; [by left|]. cbn [run]. unfold getModulePackage, ModuleSolving.bind. rewrite Hmp.
    rewrite IH by (intros; apply Hl; by right). cbn [omap list_omap]. rewrite Hmp. cbn [List.filter]. by destruct (isEnabled mp c). }
  unfold ModuleSolving.bind. rewrite (E _ Hk). done.
Qed.

(** The directory after the changes, when all of them succeed. *)
Definition change_dir (entries : list cstr) (change : file_change) : list cstr :=
  match change with
  | WriteFile name _ => if bool_decide (name ∈ entries) then entries else entries ++ [name]
  | RemoveFile name => List.filter (fun f => negb (bool_decide (f = name))) entries
  end.
Lemma change_in changes entries f : f ∈ entries \/ (exists yaml, WriteFile f yaml ∈ changes) -> RemoveFile f ∉ changes -> f ∈ fold_left change_dir changes entries.
Proof.
  revert entries. induction changes as [|ch changes IH]; intros entries H Hn; simpl; [destruct H as [H|[yaml H%elem_of_nil]]; done|].
  apply not_elem_of_cons in Hn as [Hn1 Hn2]. apply IH; [|done]. destruct H as [H|[yaml [<-|H]%elem_of_cons]]; [left|left|right; by exists yaml]; simpl.
  - destruct ch as [name yaml|name]; simpl; [case_bool_decide; [done|apply elem_of_app; by left]|].
    apply list_elem_of_In, filter_In. split; [by apply list_elem_of_In|]. apply negb_true_iff, bool_decide_eq_false. congruence.
  - case_bool_decide; [done|]. apply elem_of_app. right. by left.
Qed.
Lemma removed_iff marked names c f : RemoveFile f ∈ to_remove marked names c <->
  exists i, names !! i = Some f /\ i ∉ marked /\ exists name stream, module_of_file f = Some (name, stream) /\ Modules.Modules.isEnabled name stream (persistor c) = false.
Proof.
  unfold to_remove. rewrite list_elem_of_omap. split.
  - intros ((i & x) & Hin & Hx). apply list_elem_of_lookup in Hin as [j Hj]. rewrite list_lookup_imap in Hj. apply fmap_Some in Hj as (y & Hy & [= -> ->]).
    case_bool_decide as Hm; [done|]. destruct (module_of_file y) as [[name stream]|] eqn:Ey; [|done]. destruct (Modules.Modules.isEnabled _ _ _) eqn:Ee; [done|]. injection Hx as ->.
    exists j. split; [done|]. split; [done|]. by exists name, stream.
  - intros (i & Hi & Hm & name & stream & Ef & Ee). exists (i, f). split; [|by rewrite bool_decide_false, Ef, Ee].
    apply list_elem_of_lookup. exists i. by rewrite list_lookup_imap, Hi.
Qed.
Lemma failsafe_same a b : same_stream a b = true -> failsafe_name a = failsafe_name b /\ search_prefix (getName a, getStream a) = search_prefix (getName b, getStream b).
Proof. intros (H1 & H2 & H3)%same_stream_iff. unfold failsafe_name, getNameStream, getArch, search_prefix. simpl. by rewrite H1, H2, H3. Qed.
Definition named mp : Prop := getName mp <> [] /\ getStream mp <> [] /\ getArch mp <> [].
Lemma failsafe_found mp : starts_with (failsafe_name mp) (search_prefix (getName mp, getStream mp)) = true
  /\ (named mp -> (10 <= length (failsafe_name mp))%nat) /\ has_suffix (failsafe_name mp) (lit ".yaml") = true.
Proof.
  unfold failsafe_name, getNameStream, search_prefix. cbn [fst snd]. set (n := getName mp). set (st := getStream mp). set (a := getArch mp). split; [|split].
  - apply starts_with_spec. exists (a ++ lit ".yaml"). by rewrite <-!app_assoc.
  - intros (H1 & H2 & H3). fold n st a in H1, H2, H3. rewrite !length_app. simpl. destruct n, st, a; simpl in *; try done; lia.
  - unfold has_suffix. set (pre := (n ++ lit ":" ++ st) ++ lit ":" ++ a). replace ((n ++ lit ":" ++ st) ++ lit ":" ++ a ++ lit ".yaml") with (pre ++ lit ".yaml") by (unfold pre; by rewrite <-!app_assoc).
    rewrite length_app. replace (length pre + length (lit ".yaml") - length (lit ".yaml"))%nat with (length pre) by lia. rewrite drop_app_length, bool_decide_true by done.
    rewrite andb_true_l. apply Nat.leb_le. lia.
Qed.
(** C33. The fail-safe files after an update: exactly those files are removed that
    are not the file of an active module of an enabled stream and name a stream that
    is not enabled. Each active stream has its newest module written, unless it was read from
    such a file itself, and loading finds that file for the stream afterwards. As with the
    latest modules, streams of an active module that compare equal have to be written alike. *)
Theorem fail_safe_spec act c entries : activatedModules c = Some act -> (forall id, id ∈ pset_ids act -> is_Some (find_module c id)) ->
  streams_distinct (active_enabled act c) -> NoDup entries ->
  exists changes, updateFailSafeData entries c = (c, Ok changes)
  /\ (forall f, RemoveFile f ∈ changes <-> f ∈ getYamlFilenames entries /\ (forall mp, mp ∈ active_enabled act c -> failsafe_name mp <> f)
        /\ exists name stream, module_of_file f = Some (name, stream) /\ Modules.Modules.isEnabled name stream (persistor c) = false)
  /\ forall a, a ∈ active_enabled act c -> exists mp, mp ∈ active_enabled act c /\ same_stream a mp = true
       /\ (forall other, other ∈ active_enabled act c -> same_stream other mp = true -> getVersionNum other <= getVersionNum mp)
       /\ (getRepoID mp <> LIBDNF_MODULE_FAIL_SAFE_REPO_NAME -> WriteFile (failsafe_name mp) (getYaml mp) ∈ changes)
       /\ (named mp -> getRepoID mp <> LIBDNF_MODULE_FAIL_SAFE_REPO_NAME \/ failsafe_name mp ∈ entries ->
           failsafe_name mp ∈ files_with (search_prefix (getName a, getStream a)) (getYamlFilenames (fold_left change_dir changes entries))).
Proof.
  intros Ha Hk Hd Hnd. unfold updateFailSafeData, ask, ModuleSolving.bind. rewrite Ha, (latest_active_ok act c Ha Hk). set (l := active_enabled act c) in *. set (latest := latest_of l).
  set (names := getYamlFilenames entries). set (writes := omap _ latest). set (marked := omap _ latest). destruct (latest_of_spec l Hd) as (_ & L1 & L2). fold latest in L1, L2.
  assert (Hmark : forall i f, names !! i = Some f -> i ∈ marked <-> exists mp, mp ∈ l /\ failsafe_name mp = f).
  { intros i f Hi. unfold marked. rewrite list_elem_of_omap. split.
    - intros (mp & Hmp & Hm). exists mp. split; [by apply L1|]. pose proof (marks_spec names (failsafe_name mp) (yaml_sorted entries)) as H. rewrite Hm in H. congruence.
    - intros (a & Hin & Ef). destruct (L2 a Hin) as (mp & Hmp & Hs). exists mp. split; [done|]. destruct (failsafe_same a mp Hs) as [E _]. rewrite <-E, Ef.
      pose proof (marks_spec names f (yaml_sorted entries)) as H. destruct (marks names f) as [j|].
      + f_equal. apply (NoDup_lookup names j i f); [by apply yaml_nodup|done|done].
      + destruct H. apply list_elem_of_lookup. by exists i. }
  assert (Hrem : forall f, RemoveFile f ∈ writes ++ to_remove marked names c <-> f ∈ names /\ (forall mp, mp ∈ l -> failsafe_name mp <> f)
    /\ exists name stream, module_of_file f = Some (name, stream) /\ Modules.Modules.isEnabled name stream (persistor c) = false).
  { intros f. rewrite elem_of_app, removed_iff. split.
    - intros [(mp & _ & Hw)%list_elem_of_omap|(i & Hi & Hm & H)]; [by destruct (bool_decide _)|]. split; [apply list_elem_of_lookup; by exists i|]. split; [|done].
      intros mp Hmp Ef. apply Hm, (Hmark i f Hi). by exists mp.
    - intros (Hin & Hne & H). right. apply list_elem_of_lookup in Hin as [i Hi]. exists i. split; [done|]. split; [|done]. intros (mp & Hmp & Ef)%(Hmark i f Hi). by apply (Hne mp). }
  exists (writes ++ to_remove marked names c). split; [done|]. split; [exact Hrem|]. intros a Hin. destruct (L2 a Hin) as (mp & Hmp & Hs). destruct (L1 mp Hmp) as [H1 H2].
  exists mp. split; [done|]. split; [done|]. split; [done|].
  assert (Hw : getRepoID mp <> LIBDNF_MODULE_FAIL_SAFE_REPO_NAME -> WriteFile (failsafe_name mp) (getYaml mp) ∈ writes ++ to_remove marked names c).
  { intros Hr. apply elem_of_app. left. apply list_elem_of_omap. exists mp. split; [done|]. by rewrite bool_decide_false. }
  split; [done|]. intros Hn Hor. destruct (failsafe_same a mp Hs) as [_ ->]. destruct (failsafe_found mp) as (F1 & F2 & F3).
  rewrite files_with_filter by apply yaml_sorted. apply list_elem_of_In, filter_In. split; [|done]. apply list_elem_of_In, yaml_in. split; [|split; [by apply F2|done]].
  apply change_in.
  - destruct Hor as [Hr|He]; [right; exists (getYaml mp); by apply Hw|by left].
  - intros (_ & Hne & _)%Hrem. by apply (Hne mp).
Qed.
End fail_safe.
End ModuleLatest.
