(* ===== verification/ModuleSolvingExamples.v ===== *)
(** * ModuleSolvingExamples: a container of modules on the small pool

    Two repositories have the same version of walrus, one is enabled; penguin needs
    tool and walrus, and tool is a default. The solver takes the first provider that is considered. *)

From S2P Require Import Prelude Sack Solv Regex Specs Packages DnfSack DnfSackExamples DnfQuery DnfLatest DnfApply DnfQueryExamples DnfJobs DnfRequests DnfGoal DnfSolved DnfGoalExamples.
From S2P Require Import ModuleSolving ModuleSolved ModuleTree ModuleLatest.
From S2P Require ConfigParser Modules.
Local Open Scope Z_scope.

Module ModuleSolvingExamples.
Import QueryCmp Matches Packages DnfSack DnfQuery DnfLatest DnfApply DnfQueryExamples DnfJobs DnfRequests DnfGoal DnfSolved DnfGoalExamples.
Import ModuleSolving ModuleSolved ModuleTree ModuleLatest.
#[local] Existing Instance SolvExamples.libsolv.
#[local] Existing Instance SolvExamples.libsolv_laws.
#[local] Existing Instance DnfSackExamples.grow.
#[local] Existing Instance DnfSackExamples.grow_laws.
#[local] Existing Instance reldep_pool.
#[local] Existing Instance small.
#[local] Existing Instance small_laws.
#[local] Existing Instance updates.
#[local] Existing Instance updates_laws.
#[local] Existing Instance the_advisories.
#[local] Existing Instance the_advisories_laws.
#[local] Existing Instance sets.
#[local] Existing Instance sets_laws.
#[local] Existing Instance ready.
#[local] Existing Instance ready_laws.
#[local] Existing Instance jobs.
#[local] Existing Instance jobs_laws.
#[local] Existing Instance edits.
#[local] Existing Instance edits_laws.

(** What modules provide by name, stream and version. *)
Definition module_deps : list (cstr * Z) := [(lit "module(walrus:1:10)", 1); (lit "module(penguin:4:7)", 2); (lit "module(tool:2:6)", 11); (lit "module(gone:1:1)", 7)].
Definition module_dependencies : Dependencies := {|
  new_dependency t s := (s, match t with Some t => snd <$> List.find (fun x => bool_decide (fst x = t)) module_deps | None => None end);
  addReldep _ l s := (s, l); addReldepWithGlob _ l s := (s, (l, false));
|}.
#[local] Existing Instance module_dependencies.
#[local] Instance module_dependencies_laws : DependenciesLaws.
Proof. split; intros; by apply still_steady. Qed.
(** The filters by repositories and by what is provided. *)
Definition test_of (f : Filter) (pl : Reldep.pool) (k : Z) : bool :=
  match keyname f, matches f with
  | HY_PKG_REPONAME, MStr names => in_repos pl names k
  | HY_PKG_PROVIDES, MReldep deps => existsb (fun d => bool_decide (k ∈ provides pl d)) deps
  | _, _ => false
  end.
Definition module_filters : MissingFilters := {|
  missing_filter _ f res m s := (s, fold_left MAPSET (List.filter (test_of f (pool s)) (List.filter (fun p => 2 <=? p) (pset_ids res))) m);
  filterNevraStrict _ _ res s := (s, res);
  module_container _ := None;
|}.
#[local] Existing Instance module_filters.
Lemma filter_fills f s res m : result_ok (pool s) res -> map_ok (pool s) m ->
  let m' := fold_left MAPSET (List.filter (test_of f (pool s)) (List.filter (fun p => 2 <=? p) (pset_ids res))) m in
  map_ok (pool s) m' /\ forall k, bit m' k = bit m k || bit res k && test_of f (pool s) k.
Proof.
  intros Hr Hm m'. destruct (DnfSack.set_each (List.filter (test_of f (pool s)) (List.filter (fun p => 2 <=? p) (pset_ids res))) m (proj1 Hm)) as (H1 & H2 & H3).
  - apply Forall_forall. intros p Hp. rewrite !list_elem_of_In, !List.filter_In, <-list_elem_of_In in Hp. destruct Hp as [[Hp _] _].
    by apply (in_result (pool s) res m m).
  - split; [split; [done|exact (eq_trans H2 (proj2 Hm))]|]. intros k. unfold m'. rewrite H3. f_equal. apply eq_true_iff_eq.
    rewrite bool_decide_eq_true, list_elem_of_In, !List.filter_In, <-list_elem_of_In, pset_ids_spec, andb_true_iff, Z.leb_le by apply Hr.
    split; [tauto|]. intros [Hk Hn]. pose proof (result_range _ _ _ Hr Hk). split; [split; [done|lia]|done].
Qed.
#[local] Instance module_filters_laws : MissingFiltersLaws.
Proof.
  split.
  - intros fl f res m s Hs Hr Hm. split; [by apply still_steady|]. by apply filter_fills.
  - intros cmp l res s Hs Hr. split; [by apply still_steady|]. by split; [apply Hr|].
  - intros fl f res m s names k Hk _ Hn Hr Hm. destruct (filter_fills f s res m Hr Hm) as [_ H]. cbn [missing_filter module_filters snd]. rewrite H. unfold test_of. by rewrite Hk, Hn.
Qed.
(** The state of the solver are what is considered and the jobs. A job that is not
    weak is a problem if none of its providers can be installed. *)
Definition available_provider (x : option Map) (dep : Z) : option Z :=
  List.find (fun p => (0 <? p) && (p <? 13) && negb (is_installed tt p) && match x with Some m => bit m p | None => true end) (provides tt dep).
Definition is_request (j : Z * Z) : bool := (fst j =? 259) || (fst j =? 65795).
Definition unsolved (x : option Map) (job : Job) : list (Z * Z) := List.filter (fun j => (fst j =? 259) && match available_provider x (snd j) with Some _ => false | None => true end) job.
Definition module_solving : Solving := {|
  Solver := option Map * Job; Transaction := option Map * Job;
  solver_create _ := (None, []);
  solver_set_flag solver _ _ := solver;
  solver_solve _ c _ job := (Z.of_nat (length (unsolved c job)), (c, job));
  solver_problem_count solver := Z.of_nat (length (unsolved (fst solver) (snd solver)));
  solver_get_decisionlevel _ p := 0;
  solver_describe_decision _ _ := (REASON_RESOLVE_JOB, 1);
  rule_of_job _ _ := true;
  solver_get_cleandeps _ := [];
  solver_get_unneeded _ := [];
  solver_get_recommendations _ := [];
  solver_findallproblemrules _ i := [i];
  solver_ruleinfo _ rid := (RULE_JOB, (0, 0, 0));
  solver_allruleinfos solver rid := [(RULE_JOB_NOTHING_PROVIDES_DEP, (0, 0, snd (nth (Z.to_nat (rid - 1)) (unsolved (fst solver) (snd solver)) (0, 0))))];
  solver_problemruleinfo2str _ _ _ _ _ := [];
  solver_create_transaction solver := solver;
  steps t := omap (fun j => if is_request j then available_provider (fst t) (snd j) else None) (snd t);
  transaction_type t p _ := 48;
  transaction_all_obs_pkgs _ _ := [];
  SOLVER_TRANSACTION_ERASE := 32; SOLVER_TRANSACTION_INSTALL := 48; SOLVER_TRANSACTION_OBSOLETES := 53; SOLVER_TRANSACTION_OBSOLETED := 20;
  SOLVER_TRANSACTION_REINSTALL := 49; SOLVER_TRANSACTION_UPGRADE := 51; SOLVER_TRANSACTION_DOWNGRADE := 50;
  SOLVER_TRANSACTION_SHOW_OBSOLETES := 4; SOLVER_TRANSACTION_CHANGE_IS_REINSTALL := 32; SOLVER_TRANSACTION_SHOW_ACTIVE := 1; SOLVER_TRANSACTION_SHOW_ALL := 2;
  pool_solvid2str _ p := text (s_name (solvable p));
  pool_dep2str _ d := match List.find (fun x => snd x =? d) module_deps with Some x => fst x | None => [] end;
  pool_disabled_solvable _ _ _ := false;
  wrong_arch _ _ := false;
  uname_release := None;
|}.
#[local] Existing Instance module_solving.
Lemma provider_ok x dep p : available_provider x dep = Some p -> 0 < p < 13 /\ match x with Some m => bit m p = true | None => True end.
Proof.
  intros [_ H]%find_some. apply andb_true_iff in H as [[[H1%Z.ltb_lt H2%Z.ltb_lt]%andb_true_iff _]%andb_true_iff H3]. split; [lia|]. by destruct x.
Qed.
#[local] Instance module_solving_laws : SolvingLaws.
Proof.
  split.
  - intros pl c solver job p Hp. cbn in Hp. apply list_elem_of_omap in Hp as (j & _ & Hj). destruct (is_request j); [|done]. apply provider_ok in Hj as [Hj _]. exact Hj.
  - intros pl c solver job rid type p q dep E Ht. cbn in E. injection E as <- _ _ _. exfalso. naive_solver.
  - apply DnfGoalExamples.solving_laws.
  - apply DnfGoalExamples.solving_laws.
Qed.
#[local] Instance module_considers : SolverConsiders.
Proof.
  intros pl m solver job id t Hid _. apply (list_elem_of_omap (fun j => if is_request j then available_provider (Some m) (snd j) else None)) in Hid as (j & _ & Hj).
  destruct (is_request j); [|done]. by apply (provider_ok (Some m)) in Hj as [_ Hj].
Qed.
(** tool needs walrus, and penguin and tool need each other. *)
Definition module_requires : ModuleRequires := fun _ id => if (8 <=? id) && (id <? 10) then [11] else if 10 <=? id then [1; 2] else [].
#[local] Existing Instance module_requires.
#[local] Instance module_deps_kept : DependenciesKept.
Proof.
  split; [done| | |].
  - intros s s' Hp Hr. split; intros; unfold deps_of, provides_of, make_provides_ready; simpl; done.
  - done.
  - intros fl f res m s deps k Hk Hm _ Hr Hmap Hb. destruct (filter_fills f s res m Hr Hmap) as [_ H]. cbn [missing_filter module_filters snd]. rewrite H, Hb. unfold test_of. by rewrite Hk, Hm.
Qed.

(** ** The container *)

Abbreviation parser := ConfigParser.ConfigParser.ConfigParser.
Definition a_module (name stream : string) (version : Z) (context repo : string) : ModulePackage :=
  mkModule (lit name) (lit stream) version (lit context) (Some (lit "x86_64")) (lit repo) [] [] (lit name).
Definition the_modules : list (Z * ModulePackage) :=
  [(3, a_module "walrus" "1" 10 "c" "fedora"); (4, a_module "walrus" "1" 10 "c" "updates"); (8, a_module "penguin" "4" 7 "c" "updates");
   (9, a_module "penguin" "4" 7 "c" "fedora"); (10, a_module "tool" "2" 6 "c" "updates"); (11, a_module "tool" "2" 5 "d" "updates")].
Definition known_modules : Modules.Modules.persistor parser :=
  foldr (fun name p => fst (Modules.Modules.insert name Modules.Modules.CantOpen p)) ∅ [lit "walrus"; lit "penguin"; lit "tool"; lit "gone"].
Definition states (os : list Modules.Modules.op) : Modules.Modules.persistor parser := Modules.Modules.run [] os known_modules.
Definition a_container (os : list Modules.Modules.op) (s : DnfSack) (act : option Map) : Container parser :=
  mkContainer (states os) the_modules s new_installonly act [(lit "tool", lit "2")].
Definition enable_walrus : list Modules.Modules.op := [Modules.Modules.Enable (lit "walrus") (lit "1")].
(** walrus is enabled, penguin disabled. *)
Definition one_of_each : Container parser := a_container (enable_walrus ++ [Modules.Modules.Disable (lit "penguin")]) s0 None.
Definition answer_of (x : Container parser * result module_error (list (list cstr) * ModuleErrorType)) :=
  (snd x, pset_ids <$> activatedModules (fst x), map (fun n => Modules.Modules.getModuleState n (persistor (fst x))) [lit "walrus"; lit "penguin"; lit "tool"; lit "gone"]).
Example resolved : answer_of (resolveActiveModulePackages one_of_each)
  = (Ok ([], NO_ERROR), Some [3; 10], [Modules.Modules.ENABLED; Modules.Modules.DISABLED; Modules.Modules.DEFAULT; Modules.Modules.UNKNOWN]).
Proof. vm_compute. reflexivity. Qed.
(** What a module asks for is nowhere: as a default it is left out with an error in
    defaults, as an enabled module with an error; the others become active. *)
Definition with_gone (os : list Modules.Modules.op) (defaults : list (cstr * cstr)) : Container parser :=
  mkContainer (states (enable_walrus ++ os)) (the_modules ++ [(12, a_module "gone" "1" 1 "c" "updates")]) s0 new_installonly None defaults.
Definition problem : list (list cstr) := [[lit "nothing provides requested module(gone:1:1)"]].
Example default_gone : fst (answer_of (resolveActiveModulePackages (with_gone [] [(lit "gone", lit "1")]))) = (Ok (problem, ERROR_IN_DEFAULTS), Some [3]).
Proof. vm_compute. reflexivity. Qed.
Example enabled_gone : fst (answer_of (resolveActiveModulePackages (with_gone [Modules.Modules.Enable (lit "gone") (lit "1")] []))) = (Ok (problem, ERROR), Some [3]).
Proof. vm_compute. reflexivity. Qed.
Example nothing_used : fst (answer_of (resolveActiveModulePackages (a_container [] s0 (Some [8; 0])))) = (Ok ([], NO_ERROR), Some [10]).
Proof. vm_compute. reflexivity. Qed.
Lemma container_fine os act : (forall x, x ∈ the_modules -> is_Some (states os !! getName (snd x))) -> container_ok (a_container os s0 act).
Proof.
  intros Hk. split; [exact Hk| |].
  - split; [exact s0_coherent|]. simpl. lia.
  - intros x Hx. simpl in *. repeat (apply elem_of_cons in Hx as [->|Hx]; [simpl; lia|]). by apply elem_of_nil in Hx.
Qed.
Lemma one_of_each_fine : container_ok one_of_each.
Proof.
  apply container_fine. intros x Hx. unfold the_modules in Hx. repeat (apply elem_of_cons in Hx as [->|Hx]; [vm_compute; by eexists|]). by apply elem_of_nil in Hx.
Qed.
Lemma resolve_spec_witness : container_ok one_of_each /\ exists c' answer s, resolveActiveModulePackages one_of_each = (c', Ok answer)
  /\ excludes_just s0 [8; 9] s /\ resolving (persistor c') s new_installonly [a_module "walrus" "1" 10 "c" "fedora"; a_module "walrus" "1" 10 "c" "updates"; a_module "tool" "2" 6 "c" "updates"; a_module "tool" "2" 5 "d" "updates"] (moduleSack c') (activatedModules c') answer.
Proof.
  split; [exact one_of_each_fine|]. destruct (resolve_spec one_of_each one_of_each_fine) as (c' & answer & H & _ & _ & _ & s & Hx & Hr). exists c', answer, s. split; [exact H|]. split; [exact Hx|exact Hr].
Defined.
Lemma disabled_never_active_witness : isDisabled (a_module "penguin" "4" 7 "c" "updates") one_of_each = true
  /\ isModuleActive 8 (fst (resolveActiveModulePackages one_of_each)) = false.
Proof.
  assert (Hd : isDisabled (a_module "penguin" "4" 7 "c" "updates") one_of_each = true) by (vm_compute; reflexivity). split; [exact Hd|].
  apply (disabled_never_active one_of_each _ (snd (resolveActiveModulePackages one_of_each)) 8 (a_module "penguin" "4" 7 "c" "updates") one_of_each_fine); [|exact Hd|].
  - right. right. left.
  - by destruct (resolveActiveModulePackages one_of_each).
Defined.

(** ** Enabling with requirements *)

Definition act : Map := [8; 5].
Definition active_container : Container parser := a_container enable_walrus s0 (Some act).
Example penguin_needs : match enableDependencyTree [(8, a_module "penguin" "4" 7 "c" "updates")] active_container with
  | (c', Ok enabled) => Some (pset_ids enabled, snd (Modules.Modules.getEnabledStreams (persistor c')))
  | _ => None
  end = Some ([3; 8; 10], Ok [(lit "penguin", lit "4"); (lit "tool", lit "2"); (lit "walrus", lit "1")]).
Proof. vm_compute. reflexivity. Qed.
(** Nothing needs more than walrus. *)
Example walrus_needs : match enableDependencyTree [(3, a_module "walrus" "1" 10 "c" "fedora")] active_container with
  | (c', Ok enabled) => Some (pset_ids enabled)
  | _ => None
  end = Some [3].
Proof. vm_compute. reflexivity. Qed.
Lemma act_ids p : bit act p = true -> p = 3 \/ p = 8 \/ p = 10.
Proof.
  intros H. assert (Hb : bits act = 16) by reflexivity. assert (Hr : 0 <= p < 16).
  { destruct (Z.lt_ge_cases p 0); [by rewrite SolvMap.bit_outside in H by lia|]. destruct (Z.lt_ge_cases p 16); [done|]. by rewrite SolvMap.bit_outside in H by lia. }
  assert (E : bool_decide (Forall (fun p => bit act p = false \/ p = 3 \/ p = 8 \/ p = 10) (seqZ 0 16)) = true) by (vm_compute; reflexivity).
  apply bool_decide_eq_true in E. rewrite Forall_forall in E. destruct (E p) as [E'|?]; [apply elem_of_seqZ; lia|congruence|done].
Qed.
Lemma act_result : result_ok (pool s0) act.
Proof.
  split; [split; [repeat constructor; lia|reflexivity]|]. intros p Hp%act_ids.
  destruct Hp as [->|[->| ->]]; [refine (proj1 (bool_decide_eq_true (3 ∈ packages (pool s0))) _)|refine (proj1 (bool_decide_eq_true (8 ∈ packages (pool s0))) _)
    |refine (proj1 (bool_decide_eq_true (10 ∈ packages (pool s0))) _)]; vm_compute; reflexivity.
Qed.
Lemma enable_tree_spec_witness : result_ok (pool s0) act
  /\ exists c' r, enableDependencyTree [(8, a_module "penguin" "4" 7 "c" "updates")] active_container = (c', r).
Proof.
  split; [exact act_result|]. assert (Hs : coherent (moduleSack active_container)) by exact s0_coherent.
  destruct (enable_tree_spec active_container act [(8, a_module "penguin" "4" 7 "c" "updates")] eq_refl Hs act_result) as (c' & r & H & _).
  - intros id Hid%act_ids. destruct Hid as [->|[->| ->]]; by eexists.
  - intros id mp id' mp' H1%act_ids H2%act_ids. destruct H1 as [->|[->| ->]], H2 as [->|[->| ->]]; intros [= <-] [= <-]; (done || intros E; vm_compute in E; discriminate E).
  - intros id mp Hin. apply list_elem_of_singleton in Hin as [= -> ->]. split; [reflexivity|]. simpl. lia.
  - exists c', r. exact H.
Defined.

(** ** Latest modules and files *)

#[local] Instance text_order : VersionOrder.
Proof. split; done. Qed.
Example latest_lists : map (map (map (fun mp => (getName mp, getRepoID mp, mdVersion mp)))) (latest_per_repo (map snd the_modules))
  = [[[(lit "penguin", lit "fedora", 7)]; [(lit "walrus", lit "fedora", 10)]];
     [[(lit "penguin", lit "updates", 7)]; [(lit "tool", lit "updates", 6)]; [(lit "walrus", lit "updates", 10)]]].
Proof. vm_compute. reflexivity. Qed.
(** The streams of a module that are one version, written in two ways, are sorted
    as one: the lists of groups have a group for the same stream twice. *)
Definition two_ways : list ModulePackage := [a_module "m" "1" 9 "c" "r"; a_module "m" "01" 8 "c" "r"; a_module "m" "1" 7 "c" "r"].
Example split_groups : map (map (map (fun mp => (getStream mp, mdVersion mp)))) (latest_per_repo two_ways) = [[[(lit "1", 9)]; [(lit "01", 8)]; [(lit "1", 7)]]].
Proof. vm_compute. reflexivity. Qed.
(** Among versions the text that is greatest is taken: of 9 and 10 it is 9. *)
Example text_versions : mdVersion <$> latest_version [a_module "m" "1" 9 "c" "r"; a_module "m" "1" 10 "c" "r"] = Some 9.
Proof. vm_compute. reflexivity. Qed.
Lemma some_distinct l : (forall mp, mp ∈ l -> mp ∈ map snd the_modules) -> streams_distinct l.
Proof.
  intros Hl a b Ha%Hl Hb%Hl. unfold the_modules in Ha, Hb. cbn [map snd] in Ha, Hb.
  repeat (apply elem_of_cons in Ha as [->|Ha]; [repeat (apply elem_of_cons in Hb as [->|Hb]; [intros E _; (reflexivity || vm_compute in E; discriminate E)|]); by apply elem_of_nil in Hb|]).
  by apply elem_of_nil in Ha.
Qed.
Lemma latest_per_repo_spec_witness : streams_distinct (map snd the_modules)
  /\ forall mp, mp ∈ concat (concat (latest_per_repo (map snd the_modules))) -> mp ∈ map snd the_modules.
Proof.
  assert (Hd : streams_distinct (map snd the_modules)) by (apply some_distinct; auto). split; [exact Hd|].
  intros mp Hmp. destruct (latest_per_repo_spec (map snd the_modules) Hd) as [H _]. exact (proj1 (proj1 (H mp) Hmp)).
Defined.
(** The file of a stream that is not enabled any more is removed, that of walrus is written, other files stay. *)
Definition directory : list cstr := map lit ["penguin:4:x86_64.yaml"; "README"; "notes.yaml:"; ":x:a-b-c.yaml"]%string.
Example updated : snd (updateFailSafeData directory active_container) = Ok [WriteFile (lit "walrus:1:x86_64.yaml") (lit "walrus"); RemoveFile (lit "penguin:4:x86_64.yaml")].
Proof. vm_compute. reflexivity. Qed.
Example reloaded : files_with (lit "walrus:1:") (getYamlFilenames (lit "walrus:10:x86_64.yaml" :: lit "walrus:1:x86_64.yaml" :: directory)) = [lit "walrus:1:x86_64.yaml"].
Proof. vm_compute. reflexivity. Qed.
Lemma fail_safe_spec_witness : NoDup directory
  /\ exists changes, updateFailSafeData directory active_container = (active_container, Ok changes) /\ RemoveFile (lit "penguin:4:x86_64.yaml") ∈ changes.
Proof.
  assert (Hn : NoDup directory) by (refine (proj1 (bool_decide_eq_true (NoDup directory)) _); vm_compute; reflexivity). split; [exact Hn|].
  destruct (fail_safe_spec act active_container directory eq_refl) as (changes & H1 & H2 & _).
  - intros id Hid. apply pset_ids_spec in Hid; [|apply act_result]. apply act_ids in Hid as [->|[->| ->]]; by eexists.
  - apply some_distinct. intros mp Hmp. exact (active_enabled_in act active_container mp Hmp).
  - exact Hn.
  - exists changes. split; [exact H1|]. apply H2. split; [refine (proj1 (bool_decide_eq_true (_ ∈ getYamlFilenames directory)) _); vm_compute; reflexivity|]. split.
    + intros mp Hmp. assert (E : bool_decide (Forall (fun mp => failsafe_name mp <> lit "penguin:4:x86_64.yaml") (active_enabled act active_container)) = true) by (vm_compute; reflexivity).
      apply bool_decide_eq_true in E. rewrite Forall_forall in E. by apply E.
    + exists (lit "penguin"), (lit "4"). split; vm_compute; reflexivity.
Defined.
End ModuleSolvingExamples.
