(* ===== verification/ModuleMaking.v ===== *)
(** * ModuleMaking: modules as packages of libsolv's pool ([module/ModulePackage.cpp])

    What a module provides, requires and conflicts with, the conflicts between the
    streams of a module ([createConflictsBetweenStreams]), the loading of
    documents into a container, and the package that stands for the platform. *)

From S2P Require Import Prelude Sack Solv Regex Specs Packages DnfSack DnfQuery DnfJobs DnfGoal ModuleSolving.
From S2P Require Modules.
Local Open Scope Z_scope.

(** ** The edits of the pool that libsolv offers *)

Inductive DepArray := SOLVABLE_PROVIDES | SOLVABLE_REQUIRES | SOLVABLE_CONFLICTS.
#[global] Instance dep_array_eq_dec : EqDecision DepArray.
Proof. solve_decision. Defined.
Inductive TextKey := SOLVABLE_NAME | SOLVABLE_EVR | SOLVABLE_ARCH.
Class SolvableEdits `{Reldep.Pool} := {
  (** A new package of a repository. *)
  repo_add_solvable : Z -> Reldep.pool -> Z * Reldep.pool;
  solvable_set_str : Z -> TextKey -> cstr -> Reldep.pool -> Reldep.pool;
  (** The marker says into which part of the array the id goes. *)
  solvable_add_deparray : Z -> DepArray -> Z -> Z -> Reldep.pool -> Reldep.pool;
  repo_create : cstr -> Reldep.pool -> Z * Reldep.pool;
  pool_set_installed : Z -> Reldep.pool -> Reldep.pool;
}.

Module ModuleMaking.
Import DnfSack DnfQuery ModuleSolving.

(** A call of the constructor throws [std::runtime_error]. *)
Inductive making_error := CannotParseRequires | InvalidFormat (text : cstr) | MissingIn (character file : cstr) | NoPlatform | Failed (f : failure).

(** ** Documents *)

(** The document of a stream, and for each of its dependencies what libmodulemd
    lists: modules with streams. *)
Record ModuleDoc := mkDoc { mdStream : ModulePackage; runtime : list (list (cstr * list cstr)) }.
Implicit Types (d : ModuleDoc).
(** [ModuleDependencies::getRequires], one map. *)
Definition getRequires (l : list (cstr * list cstr)) : list (gmap cstr (list cstr)) :=
  [fold_left (fun moduleRequirements x => <[fst x := default [] (moduleRequirements !! fst x) ++ snd x]> moduleRequirements) l ∅].
Definition getModuleDependencies d : list (list (gmap cstr (list cstr))) := map getRequires (runtime d).
(** The order of the loops over dependencies, maps and modules. *)
Definition requirements d : list (cstr * list cstr) := flat_map (flat_map rows) (getModuleDependencies d).

Definition wrapped (text : cstr) : cstr := lit "module(" ++ text ++ lit ")".
Definition name_stream (name stream : cstr) : cstr := name ++ lit ":" ++ stream.

Section making.
Context {HP : Reldep.Pool} {HL : LibsolvPool} {HE : SolvableEdits}.
Implicit Types (pl : Reldep.pool) (id : Z).

(** [pool_str2id] with creation, and the id goes to an array. *)
Definition add_dep id (field : DepArray) (text : cstr) (marker : Z) pl : Reldep.pool :=
  let '(depId, pl) := Reldep.pool_str2id (Some text) pl in solvable_add_deparray id field depId marker pl.

Definition setSovable id (name stream version context : cstr) (arch : option cstr) pl : Reldep.pool :=
  let pl := solvable_set_str id SOLVABLE_NAME (name ++ lit ":" ++ stream ++ lit ":" ++ version ++ lit ":" ++ context) pl in
  let pl := solvable_set_str id SOLVABLE_EVR (lit "0") pl in
  let pl := solvable_set_str id SOLVABLE_ARCH (default (lit "noarch") arch) pl in
  let pl := add_dep id SOLVABLE_PROVIDES (wrapped name) (-1) pl in
  let pl := add_dep id SOLVABLE_PROVIDES (wrapped (name_stream name stream)) (-1) pl in
  add_dep id SOLVABLE_PROVIDES (wrapped (name_stream name stream ++ lit ":" ++ version)) (-1) pl.

(** ** Dependencies *)

(** [find('-', 0)] finds it anywhere. *)
Definition is_negative (moduleStream : cstr) : bool := bool_decide ("-"%char ∈ moduleStream).
Definition requires_stream (moduleName moduleStream : cstr) : cstr := wrapped (name_stream moduleName moduleStream).
(** The loop over the streams of a module: conflicts, and the texts that are left. *)
Fixpoint add_streams id (moduleName : cstr) (streams : list cstr) (requiresStream : list cstr) pl : list cstr * Reldep.pool :=
  match streams with
  | [] => (requiresStream, pl)
  | moduleStream :: streams =>
      if is_negative moduleStream then
        add_streams id moduleName streams requiresStream (add_dep id SOLVABLE_CONFLICTS (requires_stream moduleName (drop 1 moduleStream)) 0 pl)
      else add_streams id moduleName streams (requiresStream ++ [requires_stream moduleName moduleStream]) pl
  end.
Definition alternatives (first : cstr) (others : list cstr) : cstr := lit "(" ++ fold_left (fun a b => a ++ lit " or " ++ b) others first ++ lit ")".
Definition add_requirement id (requirement : cstr * list cstr) pl : Reldep.pool * result making_error unit :=
  let '(moduleName, streams) := requirement in
  let '(requiresStream, pl) := add_streams id moduleName streams [] pl in
  match requiresStream with
  | [] => (add_dep id SOLVABLE_REQUIRES (wrapped moduleName) (-1) pl, Ok tt)
  | [requireFormated] => (add_dep id SOLVABLE_REQUIRES requireFormated (-1) pl, Ok tt)
  | first :: others =>
      let '(depId, pl) := Reldep.pool_parserpmrichdep (alternatives first others) pl in
      if depId =? 0 then (pl, Err CannotParseRequires) else (solvable_add_deparray id SOLVABLE_REQUIRES depId (-1) pl, Ok tt)
  end.
Fixpoint add_requirements id (l : list (cstr * list cstr)) pl : Reldep.pool * result making_error unit :=
  match l with
  | [] => (pl, Ok tt)
  | x :: l => match add_requirement id x pl with (pl, Ok _) => add_requirements id l pl | (pl, Err e) => (pl, Err e) end
  end.
Definition createDependencies id d pl : Reldep.pool * result making_error unit := add_requirements id (requirements d) pl.

(** The pool is neither ready nor up to date afterwards. *)
Definition changed_pool pl (s : DnfSack) : DnfSack := not_uptodate (set_pool pl false s).
(** The constructor: an exception leaves the package in the pool. *)
Definition ModulePackage_ (repo : Z) d (s : DnfSack) : DnfSack * result making_error Z :=
  let '(id, pl) := repo_add_solvable repo (pool s) in
  let mp := mdStream d in
  let pl := setSovable id (getName mp) (getStream mp) (getVersion mp) (getContext mp) (getArchCStr mp) pl in
  match createDependencies id d pl with
  | (pl, Ok _) => (changed_pool pl s, Ok id)
  | (pl, Err e) => (set_pool pl (provides_ready s) s, Err e)
  end.
Fixpoint getAllModulePackages (repo : Z) (docs : list ModuleDoc) (s : DnfSack) : DnfSack * result making_error (list (Z * ModuleDoc)) :=
  match docs with
  | [] => (s, Ok [])
  | d :: docs =>
      match ModulePackage_ repo d s with
      | (s, Err e) => (s, Err e)
      | (s, Ok id) => match getAllModulePackages repo docs s with (s, Ok r) => (s, Ok ((id, d) :: r)) | (s, Err e) => (s, Err e) end
      end
  end.

(** ** Conflicts between the streams of a module *)

Definition addStreamConflict id (package : ModulePackage) pl : Reldep.pool := add_dep id SOLVABLE_CONFLICTS (wrapped (getNameStream package)) 0 pl.
Definition other_stream (a b : ModulePackage) : bool := bool_decide (getName a = getName b) && negb (bool_decide (getStream a = getStream b)).
Definition conflicts_of (modulePackage : Z * ModulePackage) (modules : list (Z * ModulePackage)) pl : Reldep.pool :=
  fold_left (fun pl innerIter => if other_stream (snd modulePackage) (snd innerIter) then addStreamConflict (fst modulePackage) (snd innerIter) pl else pl) modules pl.
Definition createConflictsBetweenStreams (modules : list (Z * ModulePackage)) pl : Reldep.pool :=
  fold_left (fun pl modulePackage => conflicts_of modulePackage modules pl) modules pl.
End making.

(** ** The platform *)

Definition colon_at (s : cstr) : option nat := find_idx (fun x => bool_decide (x = ":"%char)) s.
Definition parsePlatform (platform : cstr) : cstr * cstr :=
  match colon_at platform with None => ([], []) | Some index => (take index platform, drop (S index) platform) end.
(** [substr] with a length that was computed without sign. *)
Definition substr_to (line : cstr) (start stop : nat) : cstr := substr line start (size_wrap (Z.of_nat stop - Z.of_nat start)).
Definition find_char (c : ascii) (line : cstr) (pos : nat) : option nat := find_from (fun x => bool_decide (x = c)) line pos.
Definition quote : ascii := "034"%char.
Definition platform_line (file line : cstr) : result making_error (cstr * cstr) :=
  match find_char "=" line 0 with
  | None => Err (MissingIn (lit "=") file)
  | Some equalCharPosition =>
      match find_char quote line (S equalCharPosition) with
      | None => Err (MissingIn [quote] file)
      | Some startPosition =>
          match find_char ":" line (S equalCharPosition) with
          | None => Err (MissingIn (lit ":") file)
          | Some colonCharPosition =>
              match find_char quote line (S colonCharPosition) with
              | None => Err (MissingIn [quote] file)
              | Some endPosition => Ok (substr_to line (S startPosition) colonCharPosition, substr_to line (S colonCharPosition) endPosition)
              end
          end
      end
  end.
(** Whether a text occurs in a line. *)
Fixpoint contains (text line : cstr) : bool :=
  starts_with line text || match line with [] => false | _ :: line => contains text line end.
Fixpoint platform_of_lines (file : cstr) (lines : list cstr) : result making_error (cstr * cstr) :=
  match lines with
  | [] => Ok ([], [])
  | line :: lines => if contains (lit "PLATFORM_ID") line then platform_line file line else platform_of_lines file lines
  end.
(** The lines of a file, [None] if it cannot be read. *)
Class Lines := read_lines : cstr -> option (list cstr).

Section platform.
Context {HI : Lines}.
(** The exception of a file that cannot be read is caught like the others. *)
Definition getPlatformStream (osReleasePath : cstr) : result making_error (cstr * cstr) :=
  match read_lines osReleasePath with None => Err (MissingIn [] osReleasePath) | Some lines => platform_of_lines osReleasePath lines end.
Definition full (x : cstr * cstr) : bool := negb (bool_decide (fst x = [])) && negb (bool_decide (snd x = [])).
(** The path under the root; [back] of an empty text is the byte behind it. *)
Definition under_root (install_root osReleasePath : cstr) : cstr :=
  if bool_decide (install_root = lit "/") then osReleasePath
  else (if bool_decide (last install_root = Some "/"%char) then take (length install_root - 1) install_root else install_root) ++ osReleasePath.
Fixpoint platform_of_files (install_root : cstr) (osReleasePaths : list cstr) : cstr * cstr :=
  match osReleasePaths with
  | [] => ([], [])
  | osReleasePath :: osReleasePaths =>
      match getPlatformStream (under_root install_root osReleasePath) with
      | Ok platform => if full platform then platform else platform_of_files install_root osReleasePaths
      | Err _ => platform_of_files install_root osReleasePaths
      end
  end.
(** The only text of a set, as a platform. *)
Definition only_platform (platform : gset cstr) : cstr * cstr :=
  match elements platform with [text] => parsePlatform text | _ => ([], []) end.

Context {HP : Reldep.Pool} {HL : LibsolvPool} {HS : Libsolv} {HG : LibsolvGrow} {HR : ProvidesReady}.
Context {HU : LibsolvUpdates} {HA : Advisories} {HQ : PackageSets} {HD : Dependencies} {HM : MissingFilters}.
Definition platform_of_packages (s : DnfSack) : result failure (DnfSack * (cstr * cstr)) :=
  match addFilter_str HY_PKG_PROVIDES HY_EQ (Some (lit "system-release")) s (new_query APPLY_EXCLUDES) with
  | (_, _, Err e) => Err e
  | (s, baseQuery, Ok _) =>
      let baseQuery := fst (addFilter_num HY_PKG_LATEST HY_EQ [1] baseQuery) in
      let* x := apply s baseQuery in
      let '(s, baseQuery) := x in
      let '(s, availableQuery) := of_repo HY_NEQ s (copy_query baseQuery) in
      let* x := getStringsFromProvide (lit "base-module") s availableQuery in
      let '(s, _, platform) := x in
      if full (only_platform platform) then Ok (s, only_platform platform)
      else
        let '(s, baseQuery) := of_repo HY_EQ s baseQuery in
        let* x := getStringsFromProvide (lit "base-module") s baseQuery in
        let '(s, _, platform) := x in
        Ok (s, only_platform platform)
  end.
(** Name and stream of the platform: what is asked for, or what the packages of a
    sack say, or what the files say. *)
Definition platform_module (platformModule : option cstr) (sack : option DnfSack) (install_root : cstr) (osReleasePaths : list cstr)
    : option DnfSack * result making_error (cstr * cstr) :=
  let from_files (sack : option DnfSack) :=
    let platform := platform_of_files install_root osReleasePaths in
    (sack, if full platform then Ok platform else Err NoPlatform) in
  match platformModule with
  | Some text => (sack, if full (parsePlatform text) then Ok (parsePlatform text) else Err (InvalidFormat text))
  | None =>
      match sack with
      | None => from_files None
      | Some s => match platform_of_packages s with
                  | Err e => (Some s, Err (Failed e))
                  | Ok (s, platform) => if full platform then (Some s, Ok platform) else from_files (Some s)
                  end
      end
  end.

Context {HE : SolvableEdits}.
Definition createPlatformSolvable (sack : option DnfSack) (moduleSack : DnfSack) (osReleasePaths : list cstr) (install_root : cstr) (platformModule : option cstr)
    : option DnfSack * DnfSack * result making_error Z :=
  match platform_module platformModule sack install_root osReleasePaths with
  | (sack, Err e) => (sack, moduleSack, Err e)
  | (sack, Ok (name, stream)) =>
      let '(repo, pl) := repo_create HY_SYSTEM_REPO_NAME (pool moduleSack) in
      let '(id, pl) := repo_add_solvable repo pl in
      let pl := setSovable id name stream (lit "0") (lit "00000000") (Some (lit "noarch")) pl in
      (sack, changed_pool (pool_set_installed repo pl) moduleSack, Ok id)
  end.

(** ** Loading documents into a container *)

Context {HJ : SolverJobs} {HV : Solving} {HPE : PackageSetEdits} {P : Type} {HK : Modules.KeyFile P}.
Implicit Types (c : Container P).
(** The names of the modules whose files are in a directory. *)
Definition module_files (entries : list cstr) : list cstr :=
  omap (fun filename => if negb (length filename <? 8)%nat && has_suffix filename (lit ".module") then Some (take (length filename - 7) filename) else None) entries.
(** [std::map::insert] of an id. *)
Fixpoint insert_module (id : Z) (mp : ModulePackage) (l : list (Z * ModulePackage)) : list (Z * ModulePackage) :=
  match l with
  | [] => [(id, mp)]
  | x :: rest => if id <? fst x then (id, mp) :: l else if id =? fst x then l else x :: insert_module id mp rest
  end.
Definition set_modules (l : list (Z * ModulePackage)) c : Container P := mkContainer (persistor c) l (moduleSack c) (moduleIo c) (activatedModules c) (moduleDefaults c).
(** What reading the configuration of a module gives. *)
Context (module_file : cstr -> Modules.Modules.file (P := P)).
Fixpoint insert_all (l : list (Z * ModuleDoc)) : call P unit :=
  match l with
  | [] => ret tt
  | (id, d) :: l =>
      bind (modify (fun c => set_modules (insert_module id (mdStream d) (modules c)) c)) (fun _ =>
      bind (on_persistor (Modules.Modules.insert (getName (mdStream d)) (module_file (getName (mdStream d))))) (fun _ => insert_all l))
  end.
(** [add] of the documents of a text, for the first repository with the name. *)
Definition add_documents (docs : list ModuleDoc) : call P (result making_error unit) :=
  fun c =>
    match repo_by_name (moduleSack c) (lit "available") with
    | None => (c, Ok (Ok tt))
    | Some repo =>
        match getAllModulePackages repo docs (moduleSack c) with
        | (s, Err e) => (set_sack s c, Ok (Err e))
        | (s, Ok l) => bind (insert_all l) (fun _ => ret (Ok tt)) (set_sack s c)
        end
    end.
End platform.
End ModuleMaking.
