(* ===== verification/ModuleMade.v ===== *)
(** * ModuleMade: what the dependencies of modules mean

    Dependencies are observed as lists of texts of which one has to be provided.
    Each operation adds what it says to one package; a set of modules fulfils all
    that was added just when the documents say so. *)

From S2P Require Import Prelude Numeric Sack Solv Regex Specs Packages DnfSack DnfQuery ModuleSolving ModuleMaking.
From S2P Require Modules.
Local Open Scope Z_scope.

(** What can be seen of the packages in a pool: their arrays of dependencies, and
    the texts that fulfil a dependency; there are none for an id that is not in use. *)
Class PoolView `{Reldep.Pool} := {
  deparray : Reldep.pool -> Z -> DepArray -> list Z;
  dep_texts : Reldep.pool -> Z -> list cstr;
}.
(** Characters of names of modules and streams, and the colon. *)
Definition name_char (c : ascii) : bool := is_alnum c || one_of (lit "+._-") c.
Definition text_char (c : ascii) : bool := name_char c || bool_decide (c = ":"%char).

Section laws.
Context {HP : Reldep.Pool} {HL : LibsolvPool} {HE : SolvableEdits} {HW : PoolView}.
(** Packages are as before, and dependencies mean what they meant. *)
Record same_deps (pl pl' : Reldep.pool) : Prop := {
  same_number : nsolvables pl' = nsolvables pl;
  same_arrays : forall k f, deparray pl' k f = deparray pl k f;
  same_texts : forall x, dep_texts pl x <> [] -> dep_texts pl' x = dep_texts pl x;
}.
Class SolvableEditsLaws : Prop := {
  str2id_text s pl : let '(x, pl') := Reldep.pool_str2id (Some s) pl in same_deps pl pl' /\ dep_texts pl' x = [s];
  (** Words are separated by [or]. *)
  richdep_texts t ts pl : ts <> [] -> Forall (fun t => exists w, t = ModuleMaking.wrapped w /\ Forall (fun c => text_char c = true) w) (t :: ts) ->
    let '(x, pl') := Reldep.pool_parserpmrichdep (ModuleMaking.alternatives t ts) pl in same_deps pl pl' /\ x <> 0 /\ dep_texts pl' x = t :: ts;
  set_str_same id key text pl : same_deps pl (solvable_set_str id key text pl);
  add_deparray_spec id field x marker pl : let pl' := solvable_add_deparray id field x marker pl in
    nsolvables pl' = nsolvables pl /\ (forall y, dep_texts pl' y = dep_texts pl y)
    /\ forall k f y, y ∈ deparray pl' k f <-> y ∈ deparray pl k f \/ k = id /\ f = field /\ y = x;
  add_solvable_spec repo pl : let '(id, pl') := repo_add_solvable repo pl in
    id = nsolvables pl /\ nsolvables pl' = nsolvables pl + 1 /\ (forall f, deparray pl' id f = [])
    /\ (forall k f, k <> id -> deparray pl' k f = deparray pl k f) /\ forall x, dep_texts pl' x = dep_texts pl x;
}.
End laws.
Arguments SolvableEditsLaws {HP HL} HE HW.

Module ModuleMade.
Import DnfSack ModuleSolving ModuleMaking.

Section made.
Context {HP : Reldep.Pool} {HL : LibsolvPool} {HE : SolvableEdits} {HW : PoolView} {HEL : SolvableEditsLaws HE HW}.
Implicit Types (pl : Reldep.pool) (id k : Z) (d : ModuleDoc) (l : list cstr).

(** ** What operations add *)

(** A package lists a dependency that any of the texts fulfils. *)
Definition lists pl k (f : DepArray) l : Prop := exists x, x ∈ deparray pl k f /\ dep_texts pl x = l.
(** The dependencies in use have a meaning. *)
Definition deps_known pl : Prop := forall k f x, x ∈ deparray pl k f -> dep_texts pl x <> [].
Abbreviation deps := (DepArray -> list cstr -> Prop).
Record adds id (F : deps) pl pl' : Prop := {
  adds_known : deps_known pl';
  adds_number : nsolvables pl' = nsolvables pl;
  adds_lists : forall k f l, lists pl' k f l <-> lists pl k f l \/ k = id /\ F f l;
}.
Definition nothing : deps := fun _ _ => False.
Definition both (F G : deps) : deps := fun f l => F f l \/ G f l.
Definition one (field : DepArray) l : deps := fun f l' => f = field /\ l' = l.

Lemma same_lists pl pl' : deps_known pl -> same_deps pl pl' -> deps_known pl' /\ forall k f l, lists pl' k f l <-> lists pl k f l.
Proof.
  intros Hk [_ Ha Ht]. split.
  - intros k f x. rewrite Ha. intros Hx. rewrite Ht; by eapply Hk.
  - intros k f l. unfold lists. rewrite Ha. split; intros (x & Hx & E); exists x; (split; [done|]).
    + by rewrite <-E, Ht by (by eapply Hk).
    + by rewrite Ht by (by eapply Hk).
Qed.
Lemma adds_same id pl pl' : deps_known pl -> same_deps pl pl' -> adds id nothing pl pl'.
Proof.
  intros Hk Hs. destruct (same_lists pl pl' Hk Hs) as [H1 H2]. split; [done|apply Hs|]. intros k f l. rewrite H2. unfold nothing. tauto.
Qed.
Lemma adds_refl id pl : deps_known pl -> adds id nothing pl pl.
Proof. intros Hk. by apply adds_same. Qed.
Lemma adds_trans id F G pl pl' pl'' : adds id F pl pl' -> adds id G pl' pl'' -> adds id (both F G) pl pl''.
Proof.
  intros [_ N1 L1] [K2 N2 L2]. split; [done|congruence|]. intros k f l. rewrite L2, L1. unfold both. tauto.
Qed.
Lemma adds_iff id F G pl pl' : (forall f l, F f l <-> G f l) -> adds id F pl pl' -> adds id G pl pl'.
Proof. intros E [K N L]. split; [done|done|]. intros k f l. by rewrite L, E. Qed.
Lemma adds_id_l id G F pl pl' : adds id (both nothing G) pl pl' -> (forall f l, G f l <-> F f l) -> adds id F pl pl'.
Proof. intros H E. eapply adds_iff, H. intros f l. unfold both, nothing. rewrite E. tauto. Qed.
(** An id that means something goes to an array. *)
Lemma add_known id field x marker pl l : deps_known pl -> dep_texts pl x = l -> l <> [] -> adds id (one field l) pl (solvable_add_deparray id field x marker pl).
Proof.
  intros Hk Hx Hl. destruct (add_deparray_spec id field x marker pl) as (H1 & H2 & H3). split; [|done|].
  - intros k f y. rewrite H3, H2. intros [Hy|(_ & _ & ->)]; [by eapply Hk|by rewrite Hx].
  - intros k f l'. unfold lists, one. split.
    + intros (y & Hy & E). rewrite H2 in E. apply H3 in Hy as [Hy|(-> & -> & ->)]; [left; by exists y|]. right. split; [done|]. split; [done|]. congruence.
    + intros [(y & Hy & E)|(-> & -> & ->)].
      * exists y. rewrite H3, H2. tauto.
      * exists x. rewrite H3, H2. split; [by right|done].
Qed.
Lemma add_dep_ok id field text marker pl : deps_known pl -> adds id (one field [text]) pl (add_dep id field text marker pl).
Proof.
  intros Hk. unfold add_dep. pose proof (str2id_text text pl) as H. destruct (Reldep.pool_str2id (Some text) pl) as [x pl1]. destruct H as [Hs Hx].
  destruct (same_lists pl pl1 Hk Hs) as [Hk1 _]. eapply adds_id_l; [eapply adds_trans; [by apply adds_same|by apply add_known]|done].
Qed.
#[local] Hint Resolve adds_known : core.

(** ** The parts of a package *)

Definition provided d : list cstr :=
  let mp := mdStream d in
  [wrapped (getName mp); wrapped (name_stream (getName mp) (getStream mp)); wrapped (name_stream (getName mp) (getStream mp) ++ lit ":" ++ getVersion mp)].
Definition provides_of d : deps := fun f l => f = SOLVABLE_PROVIDES /\ exists t, t ∈ provided d /\ l = [t].
Lemma set_solvable_ok id d pl : deps_known pl ->
  adds id (provides_of d) pl (setSovable id (getName (mdStream d)) (getStream (mdStream d)) (getVersion (mdStream d)) (getContext (mdStream d)) (getArchCStr (mdStream d)) pl).
Proof.
  intros Hk. unfold setSovable. cbv zeta. set (pl1 := solvable_set_str id SOLVABLE_NAME _ pl). set (pl2 := solvable_set_str id SOLVABLE_EVR _ pl1). set (pl3 := solvable_set_str id SOLVABLE_ARCH _ pl2).
  assert (A : adds id (both (both nothing nothing) nothing) pl pl3).
  { eapply adds_trans; [eapply adds_trans|]; [apply adds_same; [done|apply set_str_same]|..]; (apply adds_same; [|apply set_str_same]);
      repeat (eapply same_lists; [|apply set_str_same]); done. }
  eapply adds_iff; [|eapply adds_trans; [eapply adds_trans; [eapply adds_trans; [exact A|]|]|]; apply add_dep_ok].
  - intros f l. unfold both, nothing, one, provides_of, provided. setoid_rewrite elem_of_cons. setoid_rewrite elem_of_cons. setoid_rewrite list_elem_of_singleton. naive_solver.
  - eauto.
  - eapply adds_known, add_dep_ok. eauto.
  - do 2 (eapply adds_known, add_dep_ok). eauto.
Qed.
(** What the code takes for streams that are wanted. *)
Definition positive (streams : list cstr) : list cstr := List.filter (fun s => negb (is_negative s)) streams.
(** What it takes for those that are ruled out. *)
Definition negative (streams : list cstr) : list cstr := map (drop 1) (List.filter is_negative streams).
Definition conflicts_with (name : cstr) (streams : list cstr) : deps := fun f l => f = SOLVABLE_CONFLICTS /\ exists s, s ∈ negative streams /\ l = [requires_stream name s].
Lemma add_streams_ok id name streams acc pl : deps_known pl ->
  exists pl', add_streams id name streams acc pl = (acc ++ map (requires_stream name) (positive streams), pl') /\ adds id (conflicts_with name streams) pl pl'.
Proof.
  revert acc pl. induction streams as [|s streams IH]; intros acc pl Hk; simpl.
  { exists pl. rewrite app_nil_r. split; [done|]. eapply adds_iff, adds_refl, Hk. intros f l. unfold nothing, conflicts_with. simpl. setoid_rewrite elem_of_nil. naive_solver. }
  unfold positive in *. simpl. destruct (is_negative s) eqn:En; simpl.
  - pose proof (add_dep_ok id SOLVABLE_CONFLICTS (requires_stream name (drop 1 s)) 0 pl Hk) as A. destruct (IH acc _ (adds_known _ _ _ _ A)) as (pl' & -> & B).
    exists pl'. split; [done|]. eapply adds_iff, adds_trans; [|exact A|exact B]. intros f l. unfold both, one, conflicts_with, negative. simpl. rewrite En. simpl. setoid_rewrite elem_of_cons. naive_solver.
  - destruct (IH (acc ++ [requires_stream name s]) pl Hk) as (pl' & -> & B). exists pl'. rewrite <-app_assoc. split; [done|].
    eapply adds_iff, B. intros f l. unfold conflicts_with, negative. simpl. by rewrite En.
Qed.
(** One of the texts has to be provided. *)
Definition needs (name : cstr) (streams : list cstr) : list cstr :=
  match positive streams with [] => [wrapped name] | l => map (requires_stream name) l end.
Definition requirement_deps (x : cstr * list cstr) : deps := both (conflicts_with (fst x) (snd x)) (one SOLVABLE_REQUIRES (needs (fst x) (snd x))).
Definition named (text : cstr) : Prop := Forall (fun c => name_char c = true) text.
(** A required stream has no hyphen but a leading one, which rules it out. *)
Definition stream_plain (s : cstr) : Prop := named s /\ "-"%char ∉ drop 1 s.
Definition requirement_named (x : cstr * list cstr) : Prop := named (fst x) /\ Forall stream_plain (snd x).
Lemma text_named t : named t -> Forall (fun c => text_char c = true) t.
Proof. unfold named. rewrite !Forall_forall. intros H c Hc. unfold text_char. by rewrite H. Qed.
Lemma requires_plain name s : named name -> named s -> exists w, requires_stream name s = wrapped w /\ Forall (fun c => text_char c = true) w.
Proof.
  intros H1 H2. eexists. split; [reflexivity|]. unfold name_stream. rewrite !Forall_app. split; [by apply text_named|]. split; [|by apply text_named]. by repeat constructor.
Qed.
Lemma add_requirement_ok id x pl : deps_known pl -> requirement_named x -> exists pl', add_requirement id x pl = (pl', Ok tt) /\ adds id (requirement_deps x) pl pl'.
Proof.
  intros Hk [Hn Hs]. destruct x as [name streams]. simpl in *. unfold add_requirement. destruct (add_streams_ok id name streams [] pl Hk) as (pl1 & -> & A). simpl.
  unfold requirement_deps, needs. simpl. assert (Hp : Forall (fun t => exists w, t = wrapped w /\ Forall (fun c => text_char c = true) w) (map (requires_stream name) (positive streams))).
  { apply Forall_forall. intros t (s & -> & Hin)%list_elem_of_fmap. apply requires_plain; [done|]. rewrite Forall_forall in Hs. apply Hs.
    apply list_elem_of_In, filter_In in Hin as [Hin _]. by apply list_elem_of_In. }
  pose proof (adds_known _ _ _ _ A) as Hk1. destruct (positive streams) as [|s [|s' ss]]; simpl in *.
  - eexists. split; [reflexivity|]. eapply adds_trans; [exact A|by apply add_dep_ok].
  - eexists. split; [reflexivity|]. eapply adds_trans; [exact A|by apply add_dep_ok].
  - pose proof (richdep_texts (requires_stream name s) (requires_stream name s' :: map (requires_stream name) ss) pl1) as H.
    destruct (Reldep.pool_parserpmrichdep _ pl1) as [x pl2]. destruct H as (Hsame & Hx & Ht); [done|done|]. destruct (same_lists pl1 pl2 Hk1 Hsame) as [Hk2 _].
    destruct (Z.eqb_spec x 0) as [|_]; [done|]. eexists. split; [reflexivity|]. eapply adds_iff, adds_trans; [|exact A|eapply adds_trans; [by apply adds_same|apply add_known; [done|exact Ht|done]]].
    intros f l. unfold both, nothing. tauto.
Qed.
Definition all_deps (l : list (cstr * list cstr)) : deps := fun f t => exists x, x ∈ l /\ requirement_deps x f t.
Lemma add_requirements_ok id (reqs : list (cstr * list cstr)) pl : deps_known pl -> Forall requirement_named reqs -> exists pl', add_requirements id reqs pl = (pl', Ok tt) /\ adds id (all_deps reqs) pl pl'.
Proof.
  intros Hk Hl. revert pl Hk. induction Hl as [|x reqs Hx Hl IH]; intros pl Hk; simpl.
  { exists pl. split; [done|]. eapply adds_iff, adds_refl, Hk. intros f t. unfold all_deps, nothing. setoid_rewrite elem_of_nil. naive_solver. }
  destruct (add_requirement_ok id x pl Hk Hx) as (pl1 & -> & A). destruct (IH pl1) as (pl2 & -> & B); [eauto|]. exists pl2. split; [done|].
  eapply adds_iff, adds_trans; [|exact A|exact B]. intros f t. unfold both, all_deps. setoid_rewrite elem_of_cons. naive_solver.
Qed.
Definition doc_deps d : deps := both (provides_of d) (all_deps (requirements d)).
Definition doc_named d : Prop := named (getName (mdStream d)) /\ named (getStream (mdStream d)) /\ Forall requirement_named (requirements d).
(** Packages beyond the last one list nothing. *)
Definition pool_fine pl : Prop := deps_known pl /\ forall k f, nsolvables pl <= k -> deparray pl k f = [].
Lemma adds_fine id F pl pl' : adds id F pl pl' -> id < nsolvables pl -> pool_fine pl -> pool_fine pl'.
Proof.
  intros [K N L] Hid [_ Hf]. split; [done|]. intros k f Hk. destruct (deparray pl' k f) as [|x xs] eqn:E; [done|exfalso].
  assert (H : lists pl' k f (dep_texts pl' x)) by (exists x; rewrite E; split; [by left|done]). apply L in H as [(y & Hy & _)|[-> _]]; [|lia].
  rewrite Hf in Hy by lia. by apply elem_of_nil in Hy.
Qed.
Lemma module_package_ok repo d s : pool_fine (pool s) -> doc_named d -> exists s', ModulePackage_ repo d s = (s', Ok (nsolvables (pool s)))
  /\ pool_fine (pool s') /\ nsolvables (pool s') = nsolvables (pool s) + 1
  /\ forall k f l, lists (pool s') k f l <-> lists (pool s) k f l \/ k = nsolvables (pool s) /\ doc_deps d f l.
Proof.
  intros [Hk Hf] (_ & _ & Hr). unfold ModulePackage_, createDependencies. pose proof (add_solvable_spec repo (pool s)) as H. destruct (repo_add_solvable repo (pool s)) as [id pl1].
  destruct H as (Hid & Hn & Hnew & Hold & Ht).
  assert (Harr : forall k f, deparray pl1 k f = deparray (pool s) k f).
  { intros k f. destruct (decide (k = id)) as [->|Hne]; [by rewrite Hnew, Hf by lia|by apply Hold]. }
  assert (F1 : pool_fine pl1).
  { split; [intros k f x; rewrite Harr, Ht; apply Hk|]. intros k f Hge. rewrite Harr. apply Hf. lia. }
  pose proof (set_solvable_ok id d pl1 (proj1 F1)) as A. set (pl2 := setSovable _ _ _ _ _ _ _) in *.
  destruct (add_requirements_ok id (requirements d) pl2) as (pl3 & -> & B); [eauto|done|]. eexists. rewrite Hid. split; [reflexivity|].
  pose proof (adds_trans _ _ _ _ _ _ A B) as C. simpl. split; [eapply adds_fine; [exact C|lia|done]|]. split; [rewrite (adds_number _ _ _ _ C); lia|].
  intros k f l. rewrite (adds_lists _ _ _ _ C), <-Hid. unfold lists. rewrite Harr. by setoid_rewrite Ht.
Qed.
Lemma get_all_ok repo docs s : pool_fine (pool s) -> Forall doc_named docs -> exists s' made, getAllModulePackages repo docs s = (s', Ok made)
  /\ map snd made = docs /\ map fst made = seqZ (nsolvables (pool s)) (Z.of_nat (length docs))
  /\ pool_fine (pool s') /\ nsolvables (pool s') = nsolvables (pool s) + Z.of_nat (length docs)
  /\ forall k f l, lists (pool s') k f l <-> lists (pool s) k f l \/ exists d, (k, d) ∈ made /\ doc_deps d f l.
Proof.
  intros Hf Hd. revert s Hf. induction Hd as [|d docs Hd Hds IH]; intros s Hf.
  { exists s, []. do 3 (split; [done|]). split; [done|]. simpl. split; [lia|]. intros k f l. setoid_rewrite elem_of_nil. naive_solver. }
  destruct (module_package_ok repo d s Hf Hd) as (s1 & E1 & F1 & N1 & L1). destruct (IH s1 F1) as (s2 & made & E2 & M1 & M2 & F2 & N2 & L2).
  exists s2, ((nsolvables (pool s), d) :: made). cbn [getAllModulePackages]. rewrite E1, E2. split; [done|]. cbn [map fst snd length]. split; [by rewrite M1|].
  split; [rewrite seqZ_cons, M2, N1 by lia; do 2 f_equal; lia|]. split; [done|]. split; [lia|].
  intros k f l. rewrite L2, L1. setoid_rewrite elem_of_cons. split; [|naive_solver].
  intros [[H|[-> H]]|(d' & H1 & H2)]; [by left|right; exists d; auto|right; exists d'; auto].
Qed.

(** ** Conflicts between streams *)

Definition stream_conflicts (mp : ModulePackage) (l : list (Z * ModulePackage)) : deps :=
  fun f t => f = SOLVABLE_CONFLICTS /\ exists x, x ∈ l /\ other_stream mp (snd x) = true /\ t = [wrapped (getNameStream (snd x))].
Lemma conflicts_of_ok m ms pl : deps_known pl -> adds (fst m) (stream_conflicts (snd m) ms) pl (conflicts_of m ms pl).
Proof.
  revert pl. unfold conflicts_of. induction ms as [|x ms IH]; intros pl Hk; simpl.
  { eapply adds_iff, adds_refl, Hk. intros f t. unfold stream_conflicts, nothing. setoid_rewrite elem_of_nil. naive_solver. }
  destruct (other_stream (snd m) (snd x)) eqn:E.
  - pose proof (add_dep_ok (fst m) SOLVABLE_CONFLICTS (wrapped (getNameStream (snd x))) 0 pl Hk) as A. unfold addStreamConflict.
    eapply adds_iff, adds_trans; [|exact A|apply IH; eauto]. intros f t. unfold stream_conflicts, both, one. setoid_rewrite elem_of_cons. naive_solver.
  - eapply adds_iff, IH, Hk. intros f t. unfold stream_conflicts. setoid_rewrite elem_of_cons. split; [naive_solver|]. intros (-> & y & [->|Hy] & Ho & ->); [congruence|]. split; [done|]. by exists y.
Qed.
Lemma create_conflicts_ok (all ms : list (Z * ModulePackage)) pl : deps_known pl ->
  let pl' := fold_left (fun pl m => conflicts_of m all pl) ms pl in
  deps_known pl' /\ forall k f t, lists pl' k f t <-> lists pl k f t \/ exists m, m ∈ ms /\ k = fst m /\ stream_conflicts (snd m) all f t.
Proof.
  revert pl. induction ms as [|m ms IH]; intros pl Hk; simpl.
  { split; [done|]. intros k f t. setoid_rewrite elem_of_nil. naive_solver. }
  pose proof (conflicts_of_ok m all pl Hk) as A. destruct (IH (conflicts_of m all pl)) as [K L]; [eauto|]. split; [done|].
  intros k f t. rewrite L, (adds_lists _ _ _ _ A). setoid_rewrite elem_of_cons. naive_solver.
Qed.

(** ** What names provide *)

Lemma no_colon t : named t -> ":"%char ∉ t.
Proof. unfold named. rewrite Forall_forall. by intros H Hin%H. Qed.
Lemma wrapped_inj a b : wrapped a = wrapped b -> a = b.
Proof. unfold wrapped. intros H%app_inv_head. by eapply app_inv_tail. Qed.
Lemma name_stream_inj n s n' r : named n -> named n' -> name_stream n s = name_stream n' r -> n = n' /\ s = r.
Proof.
  unfold name_stream. intros H1%no_colon H2%no_colon. revert n' H2. induction n as [|c n IH]; intros [|c' n'] H2 E; simpl in E.
  - by injection E as <-.
  - injection E as <- E. by destruct H2; left.
  - injection E as -> E. by destruct H1; left.
  - injection E as -> E. rewrite not_elem_of_cons in H1, H2. by destruct (IH (proj2 H1) n' (proj2 H2) E) as [-> ->].
Qed.
Lemma name_not_stream n n' r : named n -> n <> name_stream n' r.
Proof. intros Hn%no_colon ->. destruct Hn. unfold name_stream. apply elem_of_app. right. by left. Qed.
Lemma provides_name d n : doc_named d -> named n -> wrapped n ∈ provided d <-> getName (mdStream d) = n.
Proof.
  intros (Hd & Hs & _) Hn. unfold provided. cbv zeta. rewrite !elem_of_cons, elem_of_nil. split; [|naive_solver].
  intros [H%wrapped_inj|[H%wrapped_inj|[H%wrapped_inj|[]]]]; [done|by apply name_not_stream in H|].
  unfold name_stream in H. rewrite <-!app_assoc in H. by eapply (name_not_stream n) in H.
Qed.
Lemma provides_stream d n s : doc_named d -> named n -> named s -> requires_stream n s ∈ provided d <-> getName (mdStream d) = n /\ getStream (mdStream d) = s.
Proof.
  intros (Hd & Hds & _) Hn Hs. unfold provided, requires_stream. cbv zeta. rewrite !elem_of_cons, elem_of_nil. split; [|naive_solver].
  intros [H%wrapped_inj|[H%wrapped_inj|[H%wrapped_inj|[]]]].
  - symmetry in H. by apply name_not_stream in H.
  - by apply name_stream_inj in H as [-> ->].
  - unfold name_stream at 2 in H. rewrite <-!app_assoc in H. apply (name_stream_inj n s (getName (mdStream d)) (name_stream (getStream (mdStream d)) (getVersion (mdStream d)))) in H as [_ H]; [|done..].
    by apply name_not_stream in H.
Qed.

(** ** Sets of modules *)

(** What libsolv asks of a package in a set: every dependency is provided by the
    set, and nothing it conflicts with by another package of it. *)
Definition fulfilled pl (S : Z -> Prop) k : Prop :=
  (forall l, lists pl k SOLVABLE_REQUIRES l -> exists t k', t ∈ l /\ S k' /\ lists pl k' SOLVABLE_PROVIDES [t])
  /\ forall l t k', lists pl k SOLVABLE_CONFLICTS l -> t ∈ l -> S k' -> k' <> k -> ~ lists pl k' SOLVABLE_PROVIDES [t].
(** The syntax of documents: a stream that begins with a hyphen is ruled out, others are wanted. *)
Definition ruled_out (s : cstr) : option cstr := match s with "-"%char :: stream => Some stream | _ => None end.
Definition ruled_out_streams (streams : list cstr) : list cstr := omap ruled_out streams.
Definition wanted_streams (streams : list cstr) : list cstr := List.filter (fun s => match ruled_out s with Some _ => false | None => true end) streams.
Lemma plain_stream s : stream_plain s -> ruled_out s = if is_negative s then Some (drop 1 s) else None.
Proof.
  intros [_ Hs]. unfold is_negative. destruct s as [|c s]; [done|]. simpl in Hs. rewrite skipn_O in Hs. case_bool_decide as Hd.
  - apply elem_of_cons in Hd as [<-|]; done.
  - rewrite not_elem_of_cons in Hd. destruct c as [[] [] [] [] [] [] [] []]; naive_solver.
Qed.
Lemma plain_streams streams : Forall stream_plain streams -> wanted_streams streams = positive streams /\ ruled_out_streams streams = negative streams.
Proof.
  unfold wanted_streams, ruled_out_streams, positive, negative. induction 1 as [|s streams Hs _ [IH1 IH2]]; [done|]. csimpl.
  rewrite (plain_stream s Hs). destruct (is_negative s); csimpl; by rewrite IH1, IH2.
Qed.
(** What a document says: each requirement is met by a module with the name, of one
    of the streams if any is wanted, and no other module has a stream that it rules out. *)
Definition meets (made : list (Z * ModuleDoc)) (S : Z -> Prop) (m : Z * ModuleDoc) : Prop :=
  forall name streams, (name, streams) ∈ requirements (snd m) ->
    (exists other, other ∈ made /\ S (fst other) /\ getName (mdStream (snd other)) = name /\ (wanted_streams streams = [] \/ getStream (mdStream (snd other)) ∈ wanted_streams streams))
    /\ forall other, other ∈ made -> S (fst other) -> fst other <> fst m -> getName (mdStream (snd other)) = name -> getStream (mdStream (snd other)) ∉ ruled_out_streams streams.
Definition module_of (m : Z * ModuleDoc) : Z * ModulePackage := (fst m, mdStream (snd m)).

Lemma made_unique (made : list (Z * ModuleDoc)) k d d' : NoDup (map fst made) -> (k, d) ∈ made -> (k, d') ∈ made -> d = d'.
Proof.
  induction made as [|x made IH]; simpl; [by intros _ ?%elem_of_nil|]. rewrite NoDup_cons. intros [Hx Hd]. rewrite !elem_of_cons.
  assert (Hin : forall d0, (k, d0) ∈ made -> k ∈ map fst made) by (intros d0 H; by apply (list_elem_of_fmap_2 fst) in H).
  intros [<-|H1] [E|H2]; [by injection E|by destruct Hx; eapply Hin|subst x; by destruct Hx; eapply Hin|by apply IH].
Qed.
(** The pool after the conflicts are made, for the packages of modules. *)
Record made_in pl (made : list (Z * ModuleDoc)) : Prop := {
  made_named : Forall doc_named (map snd made);
  made_distinct : NoDup (map fst made);
  made_provides : forall k d l, (k, d) ∈ made -> lists pl k SOLVABLE_PROVIDES l <-> exists t, t ∈ provided d /\ l = [t];
  made_requires : forall k d l, (k, d) ∈ made -> lists pl k SOLVABLE_REQUIRES l <-> exists x, x ∈ requirements d /\ l = needs (fst x) (snd x);
  made_conflicts : forall k d l, (k, d) ∈ made -> lists pl k SOLVABLE_CONFLICTS l <->
    (exists x s, x ∈ requirements d /\ s ∈ negative (snd x) /\ l = [requires_stream (fst x) s])
    \/ exists o, o ∈ made /\ other_stream (mdStream d) (mdStream (snd o)) = true /\ l = [wrapped (getNameStream (mdStream (snd o)))];
}.
Lemma made_ok repo docs s : pool_fine (pool s) -> Forall doc_named docs -> exists s' made, getAllModulePackages repo docs s = (s', Ok made)
  /\ map snd made = docs /\ made_in (createConflictsBetweenStreams (map module_of made) (pool s')) made.
Proof.
  intros Hf Hd. destruct (get_all_ok repo docs s Hf Hd) as (s' & made & E & M1 & M2 & F & _ & L). exists s', made. split; [done|]. split; [done|].
  destruct (create_conflicts_ok (map module_of made) (map module_of made) (pool s') (proj1 F)) as [_ L']. set (pl := fold_left _ _ _) in L'. change (createConflictsBetweenStreams (map module_of made) (pool s')) with pl.
  assert (Hnd : NoDup (map fst made)) by (rewrite M2; apply NoDup_seqZ).
  assert (Hall : forall k d f l, (k, d) ∈ made -> lists pl k f l <-> doc_deps d f l \/ f = SOLVABLE_CONFLICTS /\ exists o, o ∈ made /\ other_stream (mdStream d) (mdStream (snd o)) = true /\ l = [wrapped (getNameStream (mdStream (snd o)))]).
  { intros k d f l Hin. assert (Hk : k ∈ map fst made) by (by apply (list_elem_of_fmap_2 fst) in Hin). rewrite M2, elem_of_seqZ in Hk. rewrite L', L. split.
    - intros [[(x & Hx & _)|(d' & Hin' & H)]|(m & Hm & -> & (-> & x & Hx & Ho & ->))].
      + rewrite (proj2 Hf) in Hx by lia. by apply elem_of_nil in Hx.
      + left. by rewrite (made_unique made k d d' Hnd Hin Hin').
      + right. split; [done|]. apply list_elem_of_fmap in Hm as ([k' d'] & -> & Hm). apply list_elem_of_fmap in Hx as (o & -> & Hx). simpl in *.
        rewrite (made_unique made k' d d' Hnd Hin Hm). by exists o.
    - intros [H|(-> & o & Ho & Hs & ->)]; [left; right; by exists d|]. right. exists (module_of (k, d)). split; [by apply list_elem_of_fmap_2|]. split; [done|]. split; [done|].
      exists (module_of o). split; [by apply list_elem_of_fmap_2|done]. }
  split; [by rewrite M1|done|..]; intros k d l Hin; rewrite (Hall k d _ l Hin); unfold doc_deps, both, provides_of, all_deps, requirement_deps, both, conflicts_with, one; naive_solver.
Qed.
Lemma requirement_plain_in d x : doc_named d -> x ∈ requirements d -> Forall stream_plain (snd x).
Proof. intros (_ & _ & H) Hx. rewrite Forall_forall in H. apply (H x Hx). Qed.
Lemma requirement_named_in d x : doc_named d -> x ∈ requirements d -> named (fst x) /\ (forall s, s ∈ positive (snd x) -> named s) /\ forall s, s ∈ negative (snd x) -> named s.
Proof.
  intros (_ & _ & H) Hx. rewrite Forall_forall in H. destruct (H x Hx) as [Hn Hs]. rewrite Forall_forall in Hs. split; [done|]. unfold positive, negative. split.
  - intros s [Hin _]%list_elem_of_In%filter_In. by apply (Hs s), list_elem_of_In.
  - intros s (s' & -> & [Hin _]%list_elem_of_In%filter_In)%list_elem_of_fmap. apply list_elem_of_In, Hs in Hin as [Hin _]. destruct s'; [done|]. simpl. unfold named in *. rewrite skipn_O. by apply Forall_cons in Hin as [_ Hin].
Qed.
Lemma named_in (made : list (Z * ModuleDoc)) m : Forall doc_named (map snd made) -> m ∈ made -> doc_named (snd m).
Proof. rewrite Forall_forall. intros H Hm. apply H. by apply list_elem_of_fmap_2. Qed.
(** A requirement is fulfilled just when it is met. *)
Lemma needs_iff pl made d x (S : Z -> Prop) : made_in pl made -> (forall k, S k -> k ∈ map fst made) -> doc_named d -> x ∈ requirements d ->
  (exists t k, t ∈ needs (fst x) (snd x) /\ S k /\ lists pl k SOLVABLE_PROVIDES [t])
  <-> exists other, other ∈ made /\ S (fst other) /\ getName (mdStream (snd other)) = fst x /\ (wanted_streams (snd x) = [] \/ getStream (mdStream (snd other)) ∈ wanted_streams (snd x)).
Proof.
  intros Hm HS Hd Hx. destruct (requirement_named_in d x Hd Hx) as (Hn & Hp & _).
  rewrite (proj1 (plain_streams _ (requirement_plain_in d x Hd Hx))). unfold needs. split.
  - intros (t & k & Ht & Hk & Hl). pose proof (HS k Hk) as Hin. apply list_elem_of_fmap in Hin as ([k' o] & -> & Hin). apply (made_provides pl made Hm _ o) in Hl as (t' & Hl & [= <-]); [|done].
    pose proof (named_in made _ (made_named _ _ Hm) Hin) as Ho. exists (k', o). split; [done|]. split; [done|]. simpl in *. destruct (positive (snd x)) as [|s ss] eqn:E.
    + apply list_elem_of_singleton in Ht as ->. apply provides_name in Hl; auto.
    + change (t ∈ requires_stream (fst x) <$> s :: ss) in Ht. apply list_elem_of_fmap in Ht as (s' & -> & Hs'). apply provides_stream in Hl as [-> ->]; auto.
  - intros ([k o] & Hin & Hk & Hname & Hs). pose proof (named_in made _ (made_named _ _ Hm) Hin) as Ho. simpl in *. destruct (positive (snd x)) as [|s ss] eqn:E.
    + exists (wrapped (fst x)), k. split; [by left|]. split; [done|]. apply (made_provides pl made Hm k o); [done|]. exists (wrapped (fst x)). split; [by apply provides_name|done].
    + destruct Hs as [Hs|Hs]; [done|]. exists (requires_stream (fst x) (getStream (mdStream o))), k. split; [by apply (list_elem_of_fmap_2 _ (s :: ss))|]. split; [done|].
      apply (made_provides pl made Hm k o); [done|]. eexists. split; [|reflexivity]. apply provides_stream; auto.
Qed.
Lemma fulfilled_iff pl made k d (S : Z -> Prop) : made_in pl made -> (forall k, S k -> k ∈ map fst made) -> (k, d) ∈ made ->
  fulfilled pl S k <-> meets made S (k, d) /\ forall o, o ∈ made -> S (fst o) -> getName (mdStream (snd o)) = getName (mdStream d) -> getStream (mdStream (snd o)) = getStream (mdStream d).
Proof.
  intros Hm HS Hin. pose proof (named_in made _ (made_named _ _ Hm) Hin) as Hd. simpl in Hd. unfold fulfilled, meets. split.
  - intros [Hr Hc]. split.
    + intros name streams Hx. split.
      * apply (needs_iff pl made d (name, streams) S Hm HS Hd Hx). destruct (Hr (needs name streams)) as (t & k' & H); [|by exists t, k'].
        apply (made_requires pl made Hm k d); [done|]. by exists (name, streams).
      * intros [k' o] Ho Hk' Hne Hname Hneg. simpl in *. destruct (requirement_named_in d _ Hd Hx) as (H1 & _ & H2). rewrite (proj2 (plain_streams streams (requirement_plain_in d _ Hd Hx))) in Hneg.
        apply (Hc [requires_stream name (getStream (mdStream o))] (requires_stream name (getStream (mdStream o))) k'); [|by left|done|done|].
        -- apply (made_conflicts pl made Hm k d); [done|]. left. by exists (name, streams), (getStream (mdStream o)).
        -- apply (made_provides pl made Hm k' o); [done|]. eexists. split; [|reflexivity]. apply provides_stream; auto. by eapply named_in in Ho; [|apply Hm].
    + intros [k' o] Ho Hk' Hname. simpl in *. destruct (decide (getStream (mdStream o) = getStream (mdStream d))) as [|Hne]; [done|exfalso].
      assert (Hkk : k' <> k) by (intros ->; by rewrite (made_unique made k o d (made_distinct _ _ Hm) Ho Hin) in Hne).
      apply (Hc [wrapped (getNameStream (mdStream o))] (wrapped (getNameStream (mdStream o))) k'); [|by left|done|done|].
      * apply (made_conflicts pl made Hm k d); [done|]. right. exists (k', o). split; [done|]. split; [|done]. unfold other_stream. simpl. rewrite bool_decide_true by done. by rewrite bool_decide_false by done.
      * apply (made_provides pl made Hm k' o); [done|]. eexists. split; [|reflexivity]. right. by left.
  - intros [Hmeet Hone]. split.
    + intros l ([name streams] & Hx & ->)%(made_requires pl made Hm k d); [|done]. apply (needs_iff pl made d _ S Hm HS Hd Hx). by apply Hmeet.
    + intros l t k' Hl Ht Hk' Hne Hp. pose proof (HS k' Hk') as Ho. apply list_elem_of_fmap in Ho as ([k0 o] & -> & Ho). simpl in *. apply (made_provides pl made Hm k0 o) in Hp as (t' & Hp & [= <-]); [|done].
      pose proof (named_in made _ (made_named _ _ Hm) Ho) as Hod. simpl in Hod.
      apply (made_conflicts pl made Hm k d) in Hl as [([name streams] & s & Hx & Hs & ->)|([k1 o1] & Ho1 & Hoth & ->)]; [..|done]; apply list_elem_of_singleton in Ht as ->; simpl in *.
      * destruct (requirement_named_in d _ Hd Hx) as (H1 & _ & H2). apply provides_stream in Hp as [<- <-]; auto. destruct (Hmeet _ _ Hx) as [_ H]. rewrite (proj2 (plain_streams streams (requirement_plain_in d _ Hd Hx))) in H. by eapply (H (k0, o)).
      * pose proof (named_in made _ (made_named _ _ Hm) Ho1) as (G1 & G2 & _). simpl in *. apply provides_stream in Hp as [E1 E2]; [|done..].
        unfold other_stream in Hoth. apply andb_true_iff in Hoth as [En%bool_decide_eq_true Es%negb_true_iff%bool_decide_eq_false]. apply Es.
        rewrite <-E2. symmetry. apply (Hone (k0, o)); [done|done|]. simpl. congruence.
Qed.
(** C28. Modules become packages whose dependencies say what the documents say: a set of
    modules is one that libsolv accepts just when every requirement of its modules is
    met by one of them, of a wanted stream if streams are wanted, none has a stream that another
    one rules out, and no module is there with two streams. A stream is ruled out by a
    leading hyphen. This holds for documents whose required streams have no other hyphen
    (see [ModuleMadeExamples.dashed_stream]), whose names and streams are of letters, digits and [+._-],
    with requirements that may be circular or impossible to meet. *)
Theorem modules_consistent repo docs s : pool_fine (pool s) -> Forall doc_named docs ->
  exists s' made, getAllModulePackages repo docs s = (s', Ok made) /\ map snd made = docs /\ NoDup (map fst made)
    /\ forall S : Z -> Prop, (forall k, S k -> k ∈ map fst made) ->
         (forall k, S k -> fulfilled (createConflictsBetweenStreams (map module_of made) (pool s')) S k)
         <-> (forall m, m ∈ made -> S (fst m) -> meets made S m)
             /\ forall a b, a ∈ made -> b ∈ made -> S (fst a) -> S (fst b) -> getName (mdStream (snd a)) = getName (mdStream (snd b)) -> getStream (mdStream (snd a)) = getStream (mdStream (snd b)).
Proof.
  intros Hf Hd. destruct (made_ok repo docs s Hf Hd) as (s' & made & E & M & Hm). exists s', made. split; [done|]. split; [done|]. split; [apply Hm|].
  intros S HS. set (pl := createConflictsBetweenStreams _ _) in *. split.
  - intros H. split.
    + intros [k d] Hin Hk. by apply (fulfilled_iff pl made k d S Hm HS Hin), H.
    + intros a [k d] Ha Hin Hka Hk. simpl in *. destruct (proj1 (fulfilled_iff pl made k d S Hm HS Hin) (H k Hk)) as [_ G]. by apply G.
  - intros [H1 H2] k Hk. pose proof (HS k Hk) as Hin. apply list_elem_of_fmap in Hin as ([k' d] & -> & Hin). apply (fulfilled_iff pl made k' d S Hm HS Hin). split; [by apply (H1 (k', d))|].
    intros o Ho Hko. by apply (H2 o (k', d)).
Qed.
End made.
End ModuleMade.
