(* ===== verification/ModuleMadeExamples.v ===== *)
(** * ModuleMadeExamples: a pool of texts that meets the laws of [ModuleMade]

    Ids number lists of texts; a package is the list of what was added to it. *)

From S2P Require Import Prelude Sack Solv Regex Specs Packages DnfSack DnfSackExamples DnfQuery DnfQueryExamples ModuleSolving ModuleMaking ModuleMade.
From S2P Require Modules.
Local Open Scope Z_scope.

Module ModuleMadeExamples.
Import DnfSack ModuleSolving ModuleMaking ModuleMade.

Record text_pool := mkPool { texts : list (list cstr); number : Z; arrays : gmap Z (list (DepArray * Z)) }.
Definition new_text (t : list cstr) (pl : text_pool) : Z * text_pool := (Z.of_nat (length (texts pl)) + 1, mkPool (texts pl ++ [t]) (number pl) (arrays pl)).
Definition intern (t : list cstr) (pl : text_pool) : Z * text_pool :=
  match find_idx (fun u => bool_decide (u = t)) (texts pl) with Some i => (Z.of_nat i + 1, pl) | None => new_text t pl end.
(** The words between the outer parentheses. *)
Definition rich (s : cstr) : list cstr :=
  List.filter (fun w => negb (bool_decide (w = lit "or"))) (split_by (fun c => bool_decide (c = " "%char)) (take (length s - 2) (drop 1 s))).
#[local] Instance pool_ops : Reldep.Pool := {|
  Reldep.pool := text_pool;
  Reldep.pool_str2id s pl := match s with Some t => intern [t] pl | None => (0, pl) end;
  Reldep.pool_rel2id _ _ _ pl := (0, pl);
  Reldep.pool_parserpmrichdep s pl := intern (rich s) pl;
  Reldep.dataiterator _ _ := [];
|}.
#[local] Instance the_solvables : @LibsolvPool pool_ops := {|
  nsolvables := number;
  pool_id2solvable _ _ := mkSolvable 0 0 0 (Some 1) [];
  repos _ := [None; Some (lit "available")];
  pool_id2str _ _ := [];
  pool_find_id _ _ := 0;
  pool_evrcmp_str _ _ := 0;
  pool_solvable2str _ _ := [];
  dataiterator_step _ _ _ _ _ := false;
  pool_createwhatprovides pl := pl;
  provides _ _ := [];
  solvable_lookup_idarray _ _ _ := [];
  pool_match_dep _ := Z.eqb;
  pool_match_nevr _ _ _ := false;
  obsoleteusesprovides _ := false;
  selection_make_matchsolvable _ _ _ _ := [];
  SOLVER_SOLVABLE_ALL := 6;
  lookup_sourcename _ _ := None;
  solvable_lookup_sourcepkg _ _ := None;
  solvable_get_location _ _ := None;
|}.
Definition array_of (l : list (DepArray * Z)) (f : DepArray) : list Z := map snd (List.filter (fun x => bool_decide (fst x = f)) l).
#[local] Instance the_edits : @SolvableEdits pool_ops := {|
  repo_add_solvable _ := fun pl => (number pl, mkPool (texts pl) (number pl + 1) (<[number pl := []]> (arrays pl)));
  solvable_set_str _ _ _ pl := pl;
  solvable_add_deparray id field x _ := fun pl => mkPool (texts pl) (number pl) (<[id := default [] (arrays pl !! id) ++ [(field, x)]]> (arrays pl));
  repo_create _ pl := (1, pl);
  pool_set_installed _ pl := pl;
|}.
#[local] Instance the_view : @PoolView pool_ops := {|
  deparray := fun pl k => array_of (default [] (arrays pl !! k));
  dep_texts := fun pl x => if 1 <=? x then default [] (texts pl !! Z.to_nat (x - 1)) else [];
|}.

Lemma intern_ok t (pl : Reldep.pool) : let '(x, pl') := intern t pl in @same_deps pool_ops the_solvables the_view pl pl' /\ x <> 0 /\ @dep_texts pool_ops the_view pl' x = t.
Proof.
  unfold intern. destruct (find_idx _ (texts pl)) as [i|] eqn:E.
  - apply find_idx_Some in E as (u & Hp & Hu%bool_decide_eq_true & _). split; [by split|]. split; [lia|]. simpl. destruct (Z.leb_spec 1 (Z.of_nat i + 1)); [|lia].
    replace (Z.to_nat (Z.of_nat i + 1 - 1)) with i by lia. by rewrite Hp.
  - simpl. split; [|split; [lia|]].
    + split; [done|done|]. intros x. simpl. destruct (1 <=? x); [|done]. destruct (texts pl !! Z.to_nat (x - 1)) eqn:El; [|done]. intros _. by rewrite (lookup_app_l_Some _ _ _ _ El).
    + destruct (Z.leb_spec 1 (Z.of_nat (length (texts pl)) + 1)); [|lia]. rewrite lookup_app_r by lia.
      replace (Z.to_nat (Z.of_nat (length (texts pl)) + 1 - 1) - length (texts pl))%nat with O by lia. done.
Qed.
(** Words without spaces are found again. *)
Definition word (t : cstr) : Prop := Forall (fun c => bool_decide (c = " "%char) = false) t /\ t <> lit "or".
Lemma alternatives_split t ts : fold_left (fun a b => a ++ lit " or " ++ b) ts t = t ++ concat (map (fun b => lit " or " ++ b) ts).
Proof.
  revert t. induction ts as [|u ts IH]; intros t; simpl; [by rewrite app_nil_r|]. rewrite IH. by rewrite <-!app_assoc.
Qed.
Lemma rich_words t ts : Forall word (t :: ts) -> rich (alternatives t ts) = t :: ts.
Proof.
  intros H. unfold rich, alternatives. rewrite alternatives_split.
  replace (take _ _) with (t ++ concat (map (fun b => lit " or " ++ b) ts)); cycle 1.
  { generalize (t ++ concat (map (fun b => lit " or " ++ b) ts)). intros w. change (drop 1 (lit "(" ++ w ++ lit ")")) with (w ++ lit ")").
    symmetry. apply take_app_length'. rewrite !length_app. simpl. lia. }
  revert t H. induction ts as [|u ts IH]; intros t [[Ht Hor] H]%Forall_cons; simpl.
  - rewrite app_nil_r, split_by_none by done. simpl. by rewrite bool_decide_false.
  - rewrite split_by_app by done. simpl. rewrite bool_decide_false by done. simpl. f_equal. by apply IH.
Qed.
Lemma array_app l l' f : array_of (l ++ l') f = array_of l f ++ array_of l' f.
Proof. unfold array_of. by rewrite List.filter_app, map_app. Qed.
Lemma wrapped_word w : Forall (fun c => text_char c = true) w -> word (wrapped w).
Proof.
  intros Hw. split.
  - unfold wrapped. rewrite !Forall_app. split; [by repeat constructor|]. split; [|by repeat constructor]. rewrite Forall_forall in *. intros c Hc. apply bool_decide_eq_false.
    intros ->. by apply Hw in Hc.
  - unfold wrapped. by destruct w.
Qed.
#[local] Instance the_laws : SolvableEditsLaws the_edits the_view.
Proof.
  split.
  - intros s pl. simpl. pose proof (intern_ok [s] pl) as H. destruct (intern [s] pl). tauto.
  - intros t ts pl _ Hts. simpl. rewrite rich_words.
    + pose proof (intern_ok (t :: ts) pl) as H. by destruct (intern (t :: ts) pl).
    + rewrite Forall_forall in *. intros u (w & -> & Hw)%Hts. by apply wrapped_word.
  - intros. by split.
  - intros id field x marker pl pl'. unfold pl'. simpl. split; [done|]. split; [done|]. intros k f y. destruct (decide (k = id)) as [->|Hne].
    + rewrite lookup_insert_eq. simpl. rewrite array_app, elem_of_app. unfold array_of at 2. simpl. case_bool_decide as Hf; simpl; [rewrite list_elem_of_singleton|rewrite elem_of_nil]; naive_solver.
    + rewrite lookup_insert_ne by done. naive_solver.
  - intros repo pl. simpl. split; [done|]. split; [done|]. split; [by rewrite lookup_insert_eq|]. split; [|done]. intros k f Hk. by rewrite lookup_insert_ne.
Qed.

(** ** Documents *)

Definition doc (name stream : string) (reqs : list (list (cstr * list cstr))) : ModuleDoc :=
  mkDoc (mkModule (lit name) (lit stream) 7 (lit "c") (Some (lit "x86_64")) (lit "fedora") [] [] []) reqs.
Definition no_packages : Reldep.pool := mkPool [] 2 ∅.
(** web wants perl 5 or 6, and any db; db excludes perl 5; old wants perl 5. *)
Definition docs : list ModuleDoc :=
  [doc "perl" "5" []; doc "perl" "6" []; doc "web" "1" [[(lit "perl", [lit "5"; lit "6"]); (lit "db", [])]]; doc "db" "9" [[(lit "perl", [lit "-5"])]];
   doc "old" "1" [[(lit "perl", [lit "5"])]]].
(** What a package of the pool lists, as texts. *)
Definition shown (pl : text_pool) (k : Z) (f : DepArray) : list (list cstr) := map (fun x => default [] (texts pl !! Z.to_nat (x - 1))) (array_of (default [] (arrays pl !! k)) f).
Definition made_pool (docs : list ModuleDoc) : text_pool :=
  match getAllModulePackages 1 docs (DnfSack.init no_packages) with
  | (s, Ok made) => createConflictsBetweenStreams (map module_of made) (pool s)
  | (s, Err _) => pool s
  end.
Example web_lists : map (shown (made_pool docs) 4) [SOLVABLE_PROVIDES; SOLVABLE_REQUIRES; SOLVABLE_CONFLICTS]
  = [[[lit "module(web)"]; [lit "module(web:1)"]; [lit "module(web:1:7)"]]; [[lit "module(db)"]; [lit "module(perl:5)"; lit "module(perl:6)"]]; []].
Proof. vm_compute. reflexivity. Qed.
Example perl_lists : map (fun k => shown (made_pool docs) k SOLVABLE_CONFLICTS) [2; 3; 5] = [[[lit "module(perl:6)"]]; [[lit "module(perl:5)"]]; [[lit "module(perl:5)"]]].
Proof. vm_compute. reflexivity. Qed.
(** A wanted stream with a hyphen in it is taken for one that is ruled out, less its first character. *)
Example dashed_stream : map (shown (made_pool [doc "web" "1" [[(lit "platform", [lit "el-8"])]]]) 2) [SOLVABLE_REQUIRES; SOLVABLE_CONFLICTS]
  = [[[lit "module(platform)"]]; [[lit "module(platform:l-8)"]]].
Proof. vm_compute. reflexivity. Qed.
(** The condition on documents, decided. *)
Lemma all_true {A} (f : A -> bool) (P : A -> Prop) l : (forall x, f x = true -> P x) -> List.forallb f l = true -> Forall P l.
Proof. intros H Hl. apply Forall_forall. intros x Hx%list_elem_of_In. by apply H, (proj1 (List.forallb_forall _ _) Hl). Qed.
Definition named_b (t : cstr) : bool := List.forallb name_char t.
Definition plain_b (t : cstr) : bool := named_b t && negb (existsb (Ascii.eqb "-") (drop 1 t)).
Definition doc_b (d : ModuleDoc) : bool :=
  named_b (getName (mdStream d)) && (named_b (getStream (mdStream d)) && List.forallb (fun x => named_b (fst x) && List.forallb plain_b (snd x)) (requirements d)).
Lemma named_b_ok t : named_b t = true -> named t.
Proof. by apply all_true. Qed.
Lemma plain_b_ok t : plain_b t = true -> stream_plain t.
Proof.
  intros [H1 H2%negb_true_iff]%andb_true_iff. split; [by apply named_b_ok|]. intros Hin%list_elem_of_In. apply not_true_iff_false in H2. apply H2, existsb_exists.
  exists "-"%char. by rewrite Ascii.eqb_refl.
Qed.
Lemma doc_b_ok d : doc_b d = true -> doc_named d.
Proof.
  intros [H1 [H2 H3]%andb_true_iff]%andb_true_iff. split; [by apply named_b_ok|]. split; [by apply named_b_ok|]. eapply all_true, H3. intros x [Hn Hs]%andb_true_iff.
  split; [by apply named_b_ok|]. eapply all_true, Hs. apply plain_b_ok.
Qed.
Lemma docs_named : Forall doc_named docs.
Proof. apply (all_true doc_b); [apply doc_b_ok|by vm_compute]. Qed.
Lemma lists_nothing k f : deparray no_packages k f = [].
Proof. simpl. by rewrite lookup_empty. Qed.
Lemma no_packages_fine : pool_fine no_packages.
Proof. split; [intros k f x Hx|intros k f _; apply lists_nothing]. rewrite lists_nothing in Hx. by apply elem_of_nil in Hx. Qed.
Lemma modules_consistent_witness : pool_fine no_packages /\ Forall doc_named docs /\ exists s' made, getAllModulePackages 1 docs (DnfSack.init no_packages) = (s', Ok made).
Proof.
  split; [apply no_packages_fine|]. split; [apply docs_named|].
  destruct (modules_consistent 1 docs (DnfSack.init no_packages) no_packages_fine docs_named) as (s' & made & E & _). exists s', made. exact E.
Defined.

(** ** The platform *)

#[local] Instance some_lines : Lines := fun file =>
  if bool_decide (file = lit "/root/etc/os-release") then Some [lit "NAME=Walrus"; lit "PLATFORM_ID=" ++ [quote] ++ lit "platform:el8" ++ [quote]]
  else if bool_decide (file = lit "/root/broken") then Some [lit "PLATFORM_ID=el8"] else None.
Example from_file : platform_of_files (lit "/root/") [lit "/none"; lit "/broken"; lit "/etc/os-release"] = (lit "platform", lit "el8").
Proof. vm_compute. reflexivity. Qed.
(** A colon in front of the quotes makes the length of the name wrap around. *)
Example wrapped_length : platform_line [] (lit "PLATFORM_ID=x:y" ++ [quote] ++ lit "a" ++ [quote]) = Ok (lit "a" ++ [quote], lit "y").
Proof. vm_compute. reflexivity. Qed.
End ModuleMadeExamples.
