(* ===== verification/Lock.v ===== *)
(** * Lock: locks of threads and processes (dnf-4 [dnf-lock.cpp])

    One lock object per process keeps the locks its threads hold; a lock against
    other processes is in addition a file with the number of the process. The
    object is guarded by a mutex, so that the calls of one process happen one
    after the other; between processes there is only the file, and taking a lock
    tests it and writes it in two steps. *)

From S2P Require Import Prelude Numeric.

Module Lock.
Import Numeric.

Inductive LockType := RPMDB | REPO | METADATA | CONFIG.
Inductive LockMode := THREAD | PROCESS.
#[global] Instance type_eq_dec : EqDecision LockType.
Proof. solve_decision. Defined.
#[global] Instance mode_eq_dec : EqDecision LockMode.
Proof. solve_decision. Defined.

(** The enumerators as numbers. *)
Definition type_value (t : LockType) : Z := match t with RPMDB => 0 | REPO => 1 | METADATA => 2 | CONFIG => 3 end.
Definition type_to_string (t : LockType) : cstr :=
  match t with RPMDB => lit "rpmdb" | REPO => lit "src" | METADATA => lit "metadata" | CONFIG => lit "config" end.
Definition mode_to_string (m : LockMode) : cstr := match m with THREAD => lit "thread" | PROCESS => lit "process" end.

(** [DnfLockItem]: threads are told apart by a number. *)
Record LockItem := mkItem { owner : Z; id : Z; refcount : Z; mode : LockMode; type : LockType }.
#[global] Instance item_eq_dec : EqDecision LockItem.
Proof. solve_decision. Defined.

(** The lock object; [next_id] is the static variable of [dnf_lock_create_item]
    and [emitted] the values of the signal [state-changed]. *)
Record LockState := mkLock { item_array : list LockItem; lock_dir : cstr; next_id : Z; emitted : list Z }.
Definition init : LockState := mkLock [] (lit "/var/run") 1 [].
Definition set_items (l : list LockItem) (s : LockState) : LockState := mkLock l (lock_dir s) (next_id s) (emitted s).
Definition set_lock_dir (d : cstr) (s : LockState) : LockState := mkLock (item_array s) d (next_id s) (emitted s).

(** [DNF_ERROR_INTERNAL_ERROR] and [DNF_ERROR_CANNOT_GET_LOCK] with their texts. *)
Inductive Error :=
| NotPresent | FailedToParse (contents : cstr) | PidTooLarge (pid : Z)
| AlreadyLocked (t : LockType) (m : LockMode) (pid : Z) | FailedToObtain (t : LockType) | TakenByThread (t : LockType) (thread : Z)
| NeverTaken (id : Z) | NotThisThread (t : LockType) | FailedToWrite.

Definition get_item_by_type_mode (l : list LockItem) (t : LockType) (m : LockMode) : option LockItem :=
  List.find (fun i => bool_decide (type i = t /\ mode i = m)) l.
Definition get_item_by_id (l : list LockItem) (n : Z) : option LockItem := List.find (fun i => bool_decide (id i = n)) l.

(** The new item is the last one; the counter has 32 bits. *)
Definition create_item (self : Z) (t : LockType) (m : LockMode) (s : LockState) : LockState * Z :=
  (mkLock (item_array s ++ [mkItem self (next_id s) 1 m t]) (lock_dir s) (wrap 32 (next_id s + 1)) (emitted s), next_id s).

Definition get_filename_for_type (dir : cstr) (t : LockType) : cstr := dir ++ lit "/dnf-" ++ type_to_string t ++ lit ".lock".

(** The signed 32 bit number that [%i] prints of an unsigned one. *)
Definition as_int (z : Z) : Z := if (z <? 2 ^ 31)%Z then z else (z - 2 ^ 32)%Z.

(** [g_ascii_strtoull]: no digits is [None], what does not fit is the maximum. *)
Definition strtoull (s : cstr) : option Z :=
  let '(neg, ds, _) := scan_int s in
  match ds with
  | [] => None
  | _ =>
      let m := Z.of_N (value_of 10 digit_val ds) in
      Some (if (2 ^ 64 <=? m)%Z then (2 ^ 64 - 1)%Z else if neg then wrap 64 (- m) else m)
  end.

(** Returns zero when it fails, with or without an error; a file that is there can be read. *)
Definition get_pid (files : gmap cstr cstr) (filename : cstr) : Z * option Error :=
  match files !! filename with
  | None => (0%Z, Some NotPresent)
  | Some contents =>
      match strtoull contents with
      | None => (0%Z, Some (FailedToParse contents))
      | Some pid => if (t_max uint32 <? pid)%Z then (0%Z, Some (PidTooLarge pid)) else (pid, None)
      end
  end.

(** The sum of the bits of the items, in 32 bits. *)
Definition get_state (s : LockState) : Z :=
  fold_left (fun b i => wrap 32 (b + Z.shiftl 1 (type_value (type i)))) (item_array s) 0%Z.
Definition emit_state (s : LockState) : LockState :=
  mkLock (item_array s) (lock_dir s) (next_id s) (emitted s ++ [get_state s]).

(** The first item with this number is replaced. *)
Fixpoint replace (n : Z) (i' : LockItem) (l : list LockItem) : list LockItem :=
  match l with [] => [] | i :: l => if decide (id i = n) then i' :: l else i :: replace n i' l end.
Fixpoint remove (n : Z) (l : list LockItem) : list LockItem :=
  match l with [] => [] | i :: l => if decide (id i = n) then l else i :: remove n l end.
Definition with_refcount (r : Z) (i : LockItem) : LockItem := mkItem (owner i) (id i) r (mode i) (type i).

(** ** Taking a lock *)

(** What the first half of [dnf_lock_take] finds: the call is over, the file is to be
    written, or no file is needed. *)
Inductive decision := Over (e : option Error) | MustWrite | NoFile (i : option LockItem).

Section take.
(** The processes that are running. *)
Context (running : Z -> bool).

(** From the start of the call to the creation of the file. *)
Definition take_check (t : LockType) (m : LockMode) (s : LockState) (files : gmap cstr cstr) : decision :=
  let i := match get_item_by_type_mode (item_array s) t m, m with
           | Some i, _ => Some i
           | None, THREAD => get_item_by_type_mode (item_array s) t PROCESS
           | None, PROCESS => None
           end in
  match i, m with
  | None, PROCESS =>
      let filename := get_filename_for_type (lock_dir s) t in
      match files !! filename with
      | None => MustWrite
      | Some _ =>
          let (pid, e) := get_pid files filename in
          if decide (pid = 0%Z) then Over e
          else if running (as_int pid) then Over (Some (AlreadyLocked t m pid))
          else MustWrite
      end
  | _, _ => NoFile i
  end.

(** The file is written, or it cannot be. *)
Definition take_write (pid : Z) (ok : bool) (t : LockType) (s : LockState) (files : gmap cstr cstr)
    : gmap cstr cstr * bool :=
  if ok then (<[get_filename_for_type (lock_dir s) t := dec_Z pid]> files, true) else (files, false).

(** From behind the creation of the file to the end; a failure has an error or none. *)
Definition take_item (self : Z) (t : LockType) (m : LockMode) (i : option LockItem) (s : LockState)
    : LockState * result (option Error) Z :=
  match i with
  | None => let (s, n) := create_item self t m s in (emit_state s, Ok n)
  | Some i =>
      if decide (owner i <> self) then (s, Err (Some (TakenByThread t (owner i))))
      else (emit_state (set_items (replace (id i) (with_refcount (wrap 32 (refcount i + 1)) i) (item_array s)) s), Ok (id i))
  end.

(** [dnf_lock_take] when nothing happens in between. *)
Definition take (pid self : Z) (ok : bool) (t : LockType) (m : LockMode) (s : LockState) (files : gmap cstr cstr)
    : LockState * gmap cstr cstr * result (option Error) Z :=
  match take_check t m s files with
  | Over e => (s, files, Err e)
  | MustWrite =>
      let (files, written) := take_write pid ok t s files in
      if written then let (s, r) := take_item self t m None s in (s, files, r)
      else (s, files, Err (Some (FailedToObtain t)))
  | NoFile i => let (s, r) := take_item self t m i s in (s, files, r)
  end.
End take.

(** [dnf_lock_release]; [ok] is whether files can be deleted. *)
Definition release (self : Z) (ok : bool) (n : Z) (s : LockState) (files : gmap cstr cstr)
    : LockState * gmap cstr cstr * result (option Error) unit :=
  if decide (n = 0%Z) then (s, files, Err None)
  else
    match get_item_by_id (item_array s) n with
    | None => (s, files, Err (Some (NeverTaken n)))
    | Some i =>
        if decide (owner i <> self) then (s, files, Err (Some (NotThisThread (type i))))
        else
          let i := with_refcount (wrap 32 (refcount i - 1)) i in
          let s := set_items (replace n i (item_array s)) s in
          let filename := get_filename_for_type (lock_dir s) (type i) in
          let deletes := bool_decide (refcount i = 0%Z) && bool_decide (mode i = PROCESS) in
          if deletes && negb (ok && bool_decide (is_Some (files !! filename)))
          then (s, files, Err (Some FailedToWrite))
          else
            let files := if deletes then delete filename files else files in
            let s := if bool_decide (refcount i = 0%Z) then set_items (remove n (item_array s)) s else s in
            (emit_state s, files, Ok tt)
    end.

(** [dnf_lock_finalize]: the loop runs over the array that the releases shorten. *)
Fixpoint finalize_loop (fuel : nat) (self : Z) (ok : bool) (k : nat) (s : LockState) (files : gmap cstr cstr)
    : LockState * gmap cstr cstr :=
  match fuel with
  | O => (s, files)
  | S fuel =>
      match item_array s !! k with
      | None => (s, files)
      | Some i =>
          if (0 <? refcount i)%Z
          then let '(s, files, _) := release self ok (id i) s files in finalize_loop fuel self ok (S k) s files
          else finalize_loop fuel self ok (S k) s files
      end
  end.
Definition finalize (self : Z) (ok : bool) (s : LockState) (files : gmap cstr cstr) : gmap cstr cstr :=
  snd (finalize_loop (S (length (item_array s))) self ok 0 s files).

(** ** Numbers in files *)

Lemma strtoull_dec z : (0 <= z < 2 ^ 64)%Z -> strtoull (dec_Z z) = Some z.
Proof.
  intros Hz. unfold strtoull. rewrite <-(app_nil_r (dec_Z z)), scan_int_dec by done.
  pose proof (dec_N_nonempty (Z.to_N (Z.abs z))) as Hne.
  destruct (dec_N (Z.to_N (Z.abs z))) eqn:E; [done|]. rewrite <-E, dec_N_value, Z2N.id, Z.abs_eq by lia.
  by rewrite (proj2 (Z.leb_gt _ _)), (proj2 (Z.ltb_ge _ _)) by lia.
Qed.

Lemma get_pid_own files filename pid :
  (0 < pid < 2 ^ 31)%Z -> files !! filename = Some (dec_Z pid) -> get_pid files filename = (pid, None).
Proof.
  intros Hp Hf. unfold get_pid. rewrite Hf, strtoull_dec by lia. simpl. by rewrite (proj2 (Z.ltb_ge _ _)) by lia.
Qed.

Lemma dec_pid_inj p q : (0 < p < 2 ^ 31)%Z -> (0 < q < 2 ^ 31)%Z -> dec_Z p = dec_Z q -> p = q.
Proof.
  intros Hp Hq E. assert (H : Some p = Some q) by (rewrite <-!strtoull_dec, E by lia; done). by injection H.
Qed.

Lemma filename_inj dir t u : get_filename_for_type dir t = get_filename_for_type dir u -> t = u.
Proof. unfold get_filename_for_type. intros H. apply app_inv_head in H. destruct t, u; done. Qed.

(** ** The items *)

Lemma find_item_Some (f : LockItem -> bool) l i : List.find f l = Some i -> i ∈ l /\ f i = true.
Proof. intros [H1 H2]%List.find_some. split; [by apply list_elem_of_In|done]. Qed.
Lemma by_type_mode_Some l t m i : get_item_by_type_mode l t m = Some i -> i ∈ l /\ type i = t /\ mode i = m.
Proof. intros [H1 H2%bool_decide_eq_true]%find_item_Some. done. Qed.
Lemma by_type_mode_None l t m i : get_item_by_type_mode l t m = None -> i ∈ l -> (type i, mode i) <> (t, m).
Proof.
  intros Hn Hi%list_elem_of_In [= Ht Hm]. pose proof (List.find_none _ _ Hn _ Hi) as H. simpl in H.
  by rewrite bool_decide_eq_true_2 in H.
Qed.
Lemma by_id_Some l n i : get_item_by_id l n = Some i -> i ∈ l /\ id i = n.
Proof. intros [H1 H2%bool_decide_eq_true]%find_item_Some. done. Qed.

Lemma by_id_elem l i : NoDup (id <$> l) -> i ∈ l -> get_item_by_id l (id i) = Some i.
Proof.
  induction l as [|j l IH]; intros Hn Hi; [by apply not_elem_of_nil in Hi|]. apply NoDup_cons in Hn as [Hj Hn].
  unfold get_item_by_id. simpl. apply elem_of_cons in Hi as [->|Hi]; [by rewrite bool_decide_eq_true_2|].
  rewrite bool_decide_eq_false_2; [by apply IH|]. intros E. apply Hj. rewrite E. by apply list_elem_of_fmap_2.
Qed.

Definition kind (i : LockItem) : LockType * LockMode := (type i, mode i).

Lemma replace_map {B} (f : LockItem -> B) n i' l :
  (forall i, get_item_by_id l n = Some i -> f i' = f i) -> f <$> replace n i' l = f <$> l.
Proof.
  induction l as [|j l IH]; intros Hf; [done|]. unfold get_item_by_id in *. simpl in *.
  destruct (decide (id j = n)) as [Hj|Hj].
  - rewrite bool_decide_eq_true_2 in Hf by done. csimpl. by rewrite (Hf j).
  - rewrite bool_decide_eq_false_2 in Hf by done. csimpl. by rewrite IH.
Qed.
Lemma replace_elem n i' l i : i ∈ replace n i' l -> i = i' \/ i ∈ l.
Proof.
  induction l as [|j l IH]; simpl; [by right|]. destruct (decide (id j = n)); rewrite !elem_of_cons; naive_solver.
Qed.
Lemma replace_same n i l : get_item_by_id l n = Some i -> replace n i l = l.
Proof.
  unfold get_item_by_id. induction l as [|j l IH]; [done|]. simpl. destruct (decide (id j = n)).
  - rewrite bool_decide_eq_true_2 by done. by intros [= ->].
  - rewrite bool_decide_eq_false_2 by done. intros H. by rewrite IH.
Qed.
Lemma replace_twice n i j l : id i = n -> replace n j (replace n i l) = replace n j l.
Proof. intros Hi. induction l as [|k l IH]; [done|]. simpl. destruct (decide (id k = n)); simpl; [by rewrite decide_True|]. by rewrite decide_False, IH. Qed.
Lemma by_id_replace n i l : id i = n -> is_Some (get_item_by_id l n) -> get_item_by_id (replace n i l) n = Some i.
Proof.
  intros Hi. unfold get_item_by_id. induction l as [|k l IH]; simpl; [by intros []|]. destruct (decide (id k = n)); simpl.
  - intros _. by rewrite bool_decide_eq_true_2.
  - by rewrite bool_decide_eq_false_2.
Qed.
Lemma remove_sublist {B} (f : LockItem -> B) n l : f <$> remove n l `sublist_of` f <$> l.
Proof. induction l as [|i l IH]; csimpl; [done|]. destruct (decide _); csimpl; by constructor. Qed.
Lemma remove_in n l i : i ∈ remove n l -> i ∈ l.
Proof.
  induction l as [|j l IH]; simpl; [done|]. destruct (decide (id j = n)); rewrite ?elem_of_cons; naive_solver.
Qed.
Lemma remove_elem n l i : NoDup (id <$> l) -> i ∈ remove n l -> i ∈ l /\ id i <> n.
Proof.
  induction l as [|j l IH]; simpl; [by intros _ ?%not_elem_of_nil|]. intros [Hj Hn]%NoDup_cons.
  destruct (decide (id j = n)) as [<-|Hne].
  - intros Hi. split; [by right|]. intros E. apply Hj. rewrite <-E. by apply list_elem_of_fmap_2.
  - rewrite elem_of_cons. intros [->|Hi]; [split; [left|done]|]. destruct (IH Hn Hi). split; [by right|done].
Qed.
Lemma remove_last n l i : n ∉ id <$> l -> id i = n -> remove n (l ++ [i]) = l.
Proof.
  intros Hn Hi. induction l as [|j l IH]; simpl in *; [by rewrite decide_True|]. apply not_elem_of_cons in Hn as [H1 H2].
  rewrite decide_False by done. by rewrite IH.
Qed.
Lemma by_id_app n l i : n ∉ id <$> l -> id i = n -> get_item_by_id (l ++ [i]) n = Some i.
Proof.
  unfold get_item_by_id. intros Hn Hi. induction l as [|j l IH]; simpl in *; [by rewrite bool_decide_eq_true_2|].
  apply not_elem_of_cons in Hn as [H1 H2]. rewrite bool_decide_eq_false_2 by done. by apply IH.
Qed.
Lemma replace_last n l i i' : n ∉ id <$> l -> id i = n -> replace n i' (l ++ [i]) = l ++ [i'].
Proof.
  intros Hn Hi. induction l as [|j l IH]; simpl in *; [by rewrite decide_True|]. apply not_elem_of_cons in Hn as [H1 H2].
  rewrite decide_False by done. by rewrite IH.
Qed.
Lemma remove_replaced n l i : remove n (replace n i l) = remove n l \/ id i <> n.
Proof.
  destruct (decide (id i = n)) as [Hi|]; [left|by right]. induction l as [|j l IH]; simpl; [done|].
  destruct (decide (id j = n)); simpl; [by rewrite decide_True|]. by rewrite decide_False, IH.
Qed.

(** ** One process *)

(** Numbers are given once, and there is one item for a type and a mode. *)
Record wf (s : LockState) : Prop := {
  wf_ids : NoDup (id <$> item_array s);
  wf_kinds : NoDup (kind <$> item_array s);
  wf_below : Forall (fun i => 0 < id i < next_id s)%Z (item_array s);
  wf_next : (0 < next_id s < 2 ^ 32)%Z;
}.
(** The counter has not reached its end. *)
Definition spare (s : LockState) : Prop := (next_id s < 2 ^ 32 - 1)%Z.

Lemma lock_wf_init dir : wf (set_lock_dir dir init).
Proof. split; simpl; [constructor..|constructor|lia]. Qed.

Lemma next_fresh s : wf s -> next_id s ∉ id <$> item_array s.
Proof.
  intros Hw (i & Hi & Hin)%list_elem_of_fmap. pose proof (proj1 (Forall_forall _ _) (wf_below _ Hw) _ Hin). simpl in *. lia.
Qed.

Lemma wf_emit s : wf s -> wf (emit_state s).
Proof. intros [H1 H2 H3 H4]. by split. Qed.

Lemma wf_create self t m s :
  wf s -> spare s -> (forall i, i ∈ item_array s -> kind i <> (t, m)) -> wf (fst (create_item self t m s)).
Proof.
  intros Hw Hs Hk. pose proof (next_fresh s Hw) as Hf. destruct Hw as [H1 H2 H3 H4]. unfold spare in Hs. split; simpl; rewrite ?fmap_app.
  - apply NoDup_app. split_and!; [done| |apply NoDup_singleton]. intros n Hn ->%list_elem_of_singleton. by apply Hf.
  - apply NoDup_app. split_and!; [done| |apply NoDup_singleton].
    intros k (i & -> & Hi)%list_elem_of_fmap Hk'%list_elem_of_singleton. by apply (Hk i Hi).
  - rewrite wrap_small by lia. apply Forall_app. split; [|constructor; [simpl; lia|constructor]].
    eapply Forall_impl; [exact H3|]. simpl. lia.
  - rewrite wrap_small by lia. lia.
Qed.

Lemma wf_replace n r i s :
  wf s -> get_item_by_id (item_array s) n = Some i -> wf (set_items (replace n (with_refcount r i) (item_array s)) s).
Proof.
  intros [H1 H2 H3 H4] E. pose proof (by_id_Some _ _ _ E) as [Hi Hn]. split; simpl; [| | |done].
  - rewrite (replace_map id); [done|]. intros j Hj. rewrite E in Hj. by injection Hj as <-.
  - rewrite (replace_map kind); [done|]. intros j Hj. rewrite E in Hj. by injection Hj as <-.
  - apply Forall_forall. intros j [->|Hj]%replace_elem; simpl; by apply (proj1 (Forall_forall _ _) H3).
Qed.
Lemma wf_remove n s : wf s -> wf (set_items (remove n (item_array s)) s).
Proof.
  intros [H1 H2 H3 H4]. split; simpl; [| | |done].
  - eapply sublist_NoDup; [exact H1|apply remove_sublist].
  - eapply sublist_NoDup; [exact H2|apply remove_sublist].
  - apply Forall_forall. intros i Hi%remove_in. by apply (proj1 (Forall_forall _ _) H3).
Qed.

Lemma take_item_wf self t m i s :
  wf s -> spare s ->
  match i with
  | None => forall j, j ∈ item_array s -> kind j <> (t, m)
  | Some i => get_item_by_id (item_array s) (id i) = Some i
  end -> wf (fst (take_item self t m i s)) /\ lock_dir (fst (take_item self t m i s)) = lock_dir s.
Proof.
  intros Hw Hs Hi. destruct i as [i|]; simpl.
  - destruct (decide _); [done|]. split; [|done]. by apply wf_emit, wf_replace.
  - split; [|done]. by apply wf_emit, (wf_create self t m s).
Qed.

(** What the check has found out. *)
Lemma take_check_found running t m s files :
  wf s ->
  match take_check running t m s files with
  | Over _ => m = PROCESS /\ get_item_by_type_mode (item_array s) t m = None
  | MustWrite => m = PROCESS /\ get_item_by_type_mode (item_array s) t m = None
  | NoFile None => m = THREAD /\ get_item_by_type_mode (item_array s) t THREAD = None
      /\ get_item_by_type_mode (item_array s) t PROCESS = None
  | NoFile (Some i) => get_item_by_id (item_array s) (id i) = Some i /\ type i = t /\ (mode i = m \/ m = THREAD)
  end.
Proof.
  intros Hw. unfold take_check. destruct (get_item_by_type_mode (item_array s) t m) as [i|] eqn:E.
  - apply by_type_mode_Some in E as (Hi & Ht & Hm). destruct m; (split_and!; [by apply by_id_elem, Hi; apply Hw|done|by left]).
  - destruct m.
    + destruct (get_item_by_type_mode (item_array s) t PROCESS) as [i|] eqn:E'; [|done].
      apply by_type_mode_Some in E' as (Hi & Ht & Hm). split_and!; [by apply by_id_elem, Hi; apply Hw|done|by right].
    + destruct (files !! _); [|done]. destruct (get_pid _ _) as [pid e]. destruct (decide _); [done|]. by destruct (running _).
Qed.

Lemma by_type_mode_kind l t m : get_item_by_type_mode l t m = None -> forall i, i ∈ l -> kind i <> (t, m).
Proof. intros H i Hi. by eapply by_type_mode_None. Qed.

Lemma take_wf running pid self ok t m s files :
  wf s -> spare s ->
  wf (fst (fst (take running pid self ok t m s files)))
  /\ lock_dir (fst (fst (take running pid self ok t m s files))) = lock_dir s.
Proof.
  intros Hw Hs. pose proof (take_check_found running t m s files Hw) as Hf. unfold take.
  destruct (take_check running t m s files) as [e| |i]; [done| |].
  - destruct Hf as [-> Hf]. unfold take_write. destruct ok; [|done].
    pose proof (take_item_wf self t PROCESS None s Hw Hs (by_type_mode_kind _ _ _ Hf)) as Hi.
    by destruct (take_item self t PROCESS None s).
  - assert (Hi : wf (fst (take_item self t m i s)) /\ lock_dir (fst (take_item self t m i s)) = lock_dir s).
    { apply take_item_wf; [done..|]. destruct i as [i|]; [by destruct Hf as [? _]|]. destruct Hf as (-> & Hf & _).
      by apply by_type_mode_kind. }
    by destruct (take_item self t m i s).
Qed.

Lemma release_wf self ok n s files :
  wf s -> wf (fst (fst (release self ok n s files))) /\ lock_dir (fst (fst (release self ok n s files))) = lock_dir s.
Proof.
  intros Hw. unfold release. destruct (decide (n = 0%Z)); [done|].
  destruct (get_item_by_id (item_array s) n) as [i|] eqn:E; [|done]. destruct (decide (owner i <> self)); [done|].
  pose proof (wf_replace n (wrap 32 (refcount i - 1)) i s Hw E) as Hr.
  destruct (bool_decide _ && bool_decide _ && negb _); [done|]. simpl.
  destruct (bool_decide _); [|by split; [apply wf_emit|]]. split; [|done]. by apply wf_emit, (wf_remove n _ Hr).
Qed.

(** A lock that is taken and released is as before: whenever a thread gets a
    lock - a new one or one more time - releasing it with the number it got
    succeeds and leaves the items as they were; the lock file is there only if
    the lock was new, and is gone afterwards. *)
Theorem take_then_release running pid self t m s files s1 files1 n :
  wf s -> spare s -> Forall (fun i => 0 < refcount i < 2 ^ 32 - 1)%Z (item_array s) ->
  take running pid self true t m s files = (s1, files1, Ok n) ->
  exists s2, release self true n s1 files1
    = (s2, match take_check running t m s files with
           | MustWrite => delete (get_filename_for_type (lock_dir s) t) files | _ => files end, Ok tt)
  /\ item_array s2 = item_array s /\ (0 < n)%Z.
Proof.
  intros Hw Hs Hr. pose proof (take_check_found running t m s files Hw) as Hf. pose proof (next_fresh s Hw) as Hn.
  pose proof (wf_next s Hw) as Hnext. unfold take.
  assert (Hnew : forall m' fs, (m' = PROCESS -> is_Some (fs !! get_filename_for_type (lock_dir s) t)) ->
    exists s2, release self true (next_id s) (emit_state (fst (create_item self t m' s))) fs
      = (s2, if decide (m' = PROCESS) then delete (get_filename_for_type (lock_dir s) t) fs else fs, Ok tt)
    /\ item_array s2 = item_array s).
  { intros m' fs Hfs. unfold release. rewrite decide_False by lia. simpl. rewrite by_id_app by done. simpl.
    rewrite decide_False by naive_solver. change (wrap 32 (1 - 1)) with 0%Z.
    rewrite (replace_last _ _ _ _ Hn) by done. simpl. rewrite remove_last by done.
    destruct m'; simpl; [by eexists|]. rewrite bool_decide_eq_true_2 by (by apply Hfs). simpl. by eexists. }
  destruct (take_check running t m s files) as [e| |i] eqn:Ec; [done| |].
  - destruct Hf as [-> _]. simpl. intros [= <- <- <-].
    destruct (Hnew PROCESS (<[get_filename_for_type (lock_dir s) t := dec_Z pid]> files)) as (s2 & H1 & H2).
    { intros _. rewrite lookup_insert_eq. eauto. }
    exists s2. split; [|split; [done|lia]]. etrans; [exact H1|]. by rewrite decide_True, delete_insert_eq by done.
  - destruct i as [i|]; simpl.
    + destruct Hf as (Hi & _). destruct (decide (owner i <> self)) as [|Ho]; [done|]. apply dec_stable in Ho. intros [= <- <- <-].
      pose proof (by_id_Some _ _ _ Hi) as [Hin _].
      pose proof (proj1 (Forall_forall _ _) Hr i Hin) as Hri. pose proof (proj1 (Forall_forall _ _) (wf_below s Hw) i Hin) as Hid. simpl in *.
      unfold release. rewrite decide_False by lia. simpl. rewrite by_id_replace by eauto. simpl. rewrite decide_False by naive_solver.
      rewrite (wrap_small 32 (refcount i + 1)) by lia. replace (refcount i + 1 - 1)%Z with (refcount i) by lia.
      rewrite wrap_small by lia. rewrite bool_decide_eq_false_2 by lia. simpl. eexists. split; [done|]. split; [|lia].
      simpl. rewrite replace_twice by done. apply replace_same. rewrite Hi. f_equal. by destruct i.
    + destruct Hf as (-> & _). intros [= <- <- <-]. destruct (Hnew THREAD files) as (s2 & H1 & H2); [done|].
      exists s2. split; [|split; [done|lia]]. exact H1.
Qed.

Lemma kinds_unique s i j :
  wf s -> i ∈ item_array s -> j ∈ item_array s -> kind i = kind j -> i = j.
Proof.
  intros Hw Hi Hj Hk. apply list_elem_of_lookup in Hi as [k Hi], Hj as [k' Hj].
  assert (k = k') as <-; [|congruence].
  eapply (NoDup_lookup _ _ _ (kind i) (wf_kinds s Hw)); rewrite list_lookup_fmap; [by rewrite Hi|by rewrite Hj, Hk].
Qed.

Lemma replace_other n j i l : i ∈ l -> id i <> n -> i ∈ replace n j l.
Proof.
  intros Hi Hne. induction l as [|k l IH]; [done|]. simpl. apply elem_of_cons in Hi as [->|Hi].
  - rewrite decide_False by done. by left.
  - destruct (decide _); [by right|right; by apply IH].
Qed.
Lemma remove_other n i l : i ∈ l -> id i <> n -> i ∈ remove n l.
Proof.
  intros Hi Hne. induction l as [|k l IH]; [done|]. simpl. apply elem_of_cons in Hi as [->|Hi].
  - rewrite decide_False by done. by left.
  - destruct (decide _); [done|right; by apply IH].
Qed.

(** What [release] does to the items and to the files. *)
Lemma release_effect self ok n s files :
  wf s ->
  let r := release self ok n s files in
  (forall j, j ∈ item_array (fst (fst r)) -> exists j', j' ∈ item_array s /\ kind j' = kind j)
  /\ (snd (fst r) = files \/ exists i, i ∈ item_array s /\ mode i = PROCESS
       /\ snd (fst r) = delete (get_filename_for_type (lock_dir s) (type i)) files
       /\ forall j, j ∈ item_array (fst (fst r)) -> kind j <> kind i).
Proof.
  intros Hw r. unfold r, release. assert (Hid : forall j, j ∈ item_array s -> exists j', j' ∈ item_array s /\ kind j' = kind j) by eauto.
  destruct (decide (n = 0%Z)); [by auto|]. destruct (get_item_by_id (item_array s) n) as [i|] eqn:Ei; [|by auto].
  destruct (decide (owner i <> self)); [by auto|]. pose proof (by_id_Some _ _ _ Ei) as [Hi Hn]. simpl.
  set (i' := with_refcount (wrap 32 (refcount i - 1)) i).
  pose proof (wf_ids _ (wf_replace n (wrap 32 (refcount i - 1)) i s Hw Ei)) as Hnd. simpl in Hnd. fold i' in Hnd.
  assert (Hkeep : forall j, j ∈ replace n i' (item_array s) -> exists j', j' ∈ item_array s /\ kind j' = kind j).
  { intros j [->|Hj]%replace_elem; [by exists i|by exists j]. }
  assert (Hrem : forall j, j ∈ remove n (replace n i' (item_array s)) -> kind j <> kind i).
  { intros j [Hj Hne]%remove_elem; [|done]. apply replace_elem in Hj as [->|Hj]; [by simpl in Hne|]. intros Hk.
    apply Hne. by rewrite (kinds_unique s j i Hw Hj Hi Hk). }
  destruct (bool_decide (wrap 32 (refcount i - 1) = 0%Z)); simpl; [|by auto].
  destruct (bool_decide (mode i = PROCESS)) eqn:Em; reflect_bools; simpl.
  - destruct (ok && _); simpl; [|by auto]. split; [intros j Hj%remove_in; by apply Hkeep|]. right. by exists i.
  - split; [intros j Hj%remove_in; by apply Hkeep|by left].
Qed.

(** ** Several processes *)

(** A process, with the lock it is taking between the check and the file. *)
Record proc := mkProc { p_state : LockState; pending : option (Z * LockType) }.
Record world := mkWorld { procs : gmap Z proc; w_files : gmap cstr cstr }.

(** [Take] is the call without anything in between; [Check] and [Write] are its two halves. *)
Inductive event :=
| Start
| Exit
| Take (self : Z) (ok : bool) (t : LockType) (m : LockMode)
| Release (self : Z) (ok : bool) (n : Z)
| Check (self : Z) (t : LockType)
| Write (ok : bool).
Definition atomic (ev : event) : Prop := match ev with Check _ _ => False | _ => True end.

Definition is_running (w : world) (pid : Z) : bool := bool_decide (is_Some (procs w !! pid)).

Section system.
(** The directory of the lock files, the same for all. *)
Context (dir : cstr).

(** What happens to [pid]; [None] is what cannot happen then. *)
Definition exec (pid : Z) (ev : event) (w : world) : option world :=
  match ev, procs w !! pid with
  | Start, None =>
      if bool_decide (0 < pid < 2 ^ 31)%Z
      then Some (mkWorld (<[pid := mkProc (set_lock_dir dir init) None]> (procs w)) (w_files w)) else None
  | Exit, Some _ => Some (mkWorld (delete pid (procs w)) (w_files w))
  | Take self ok t m, Some (mkProc s None) =>
      if bool_decide (next_id s < 2 ^ 32 - 1)%Z then
        let '(s, files, _) := take (is_running w) pid self ok t m s (w_files w) in
        Some (mkWorld (<[pid := mkProc s None]> (procs w)) files)
      else None
  | Release self ok n, Some (mkProc s None) =>
      let '(s, files, _) := release self ok n s (w_files w) in
      Some (mkWorld (<[pid := mkProc s None]> (procs w)) files)
  | Check self t, Some (mkProc s None) =>
      match take_check (is_running w) t PROCESS s (w_files w) with
      | MustWrite => Some (mkWorld (<[pid := mkProc s (Some (self, t))]> (procs w)) (w_files w))
      | _ => None
      end
  | Write ok, Some (mkProc s (Some (self, t))) =>
      let (files, written) := take_write pid ok t s (w_files w) in
      let s := if written then fst (take_item self t PROCESS None s) else s in
      Some (mkWorld (<[pid := mkProc s None]> (procs w)) files)
  | _, _ => None
  end.
Fixpoint execs (evs : list (Z * event)) (w : world) : option world :=
  match evs with
  | [] => Some w
  | (pid, ev) :: evs => match exec pid ev w with Some w => execs evs w | None => None end
  end.

(** [pid] has the lock against other processes. *)
Definition holds (w : world) (pid : Z) (t : LockType) : Prop :=
  exists P i, procs w !! pid = Some P /\ i ∈ item_array (p_state P) /\ kind i = (t, PROCESS).

(** The file of every lock that is held says who holds it. *)
Record good (w : world) : Prop := {
  good_procs pid P : procs w !! pid = Some P ->
    wf (p_state P) /\ lock_dir (p_state P) = dir /\ (0 < pid < 2 ^ 31)%Z /\ pending P = None;
  good_files pid t : holds w pid t -> w_files w !! get_filename_for_type dir t = Some (dec_Z pid);
}.

Lemma good_exclusive w p q t : good w -> holds w p t -> holds w q t -> p = q.
Proof.
  intros Hg Hp Hq. pose proof (good_files _ Hg _ _ Hp) as H1. rewrite (good_files _ Hg _ _ Hq) in H1. injection H1 as H1.
  destruct Hp as (P & _ & Hp & _), Hq as (Q & _ & Hq & _).
  apply dec_pid_inj; [apply (good_procs _ Hg _ _ Hp)|apply (good_procs _ Hg _ _ Hq)|congruence].
Qed.

(** One process goes on: what it holds, and what happens to the files. *)
Lemma good_update w pid s s' files :
  good w -> procs w !! pid = Some (mkProc s None) -> wf s' -> lock_dir s' = dir ->
  (forall i t, i ∈ item_array s' -> kind i = (t, PROCESS) -> files !! get_filename_for_type dir t = Some (dec_Z pid)) ->
  (forall q t, q <> pid -> holds w q t -> files !! get_filename_for_type dir t = w_files w !! get_filename_for_type dir t) ->
  good (mkWorld (<[pid := mkProc s' None]> (procs w)) files).
Proof.
  intros Hg E Hw Hd Hown Hother. split; simpl.
  - intros q Q. destruct (decide (q = pid)) as [->|Hne].
    + rewrite lookup_insert_eq. intros [= <-]. destruct (good_procs _ Hg _ _ E) as (_ & _ & Hpid & _). done.
    + rewrite lookup_insert_ne by done. apply (good_procs _ Hg).
  - intros q t (Q & i & HQ & Hi & Hk). simpl in HQ. destruct (decide (q = pid)) as [->|Hne].
    + rewrite lookup_insert_eq in HQ. injection HQ as <-. by eapply Hown.
    + rewrite lookup_insert_ne in HQ by done. assert (Hh : holds w q t) by (by exists Q, i).
      rewrite (Hother q t Hne Hh). by apply (good_files _ Hg).
Qed.

Lemma take_item_kinds self t m i s j k :
  (forall i', i = Some i' -> get_item_by_id (item_array s) (id i') = Some i') ->
  j ∈ item_array (fst (take_item self t m i s)) -> kind j = k ->
  (exists j', j' ∈ item_array s /\ kind j' = k) \/ i = None /\ k = (t, m).
Proof.
  intros Hi Hj <-. destruct i as [i|]; simpl in Hj.
  - left. destruct (decide _); [by exists j|]. simpl in Hj. apply replace_elem in Hj as [->|Hj]; [|by exists j].
    exists i. by destruct (by_id_Some _ _ _ (Hi i eq_refl)).
  - apply elem_of_app in Hj as [Hj|Hj%list_elem_of_singleton]; [left; by exists j|right; by subst].
Qed.

Lemma good_take w pid s self ok t m :
  good w -> procs w !! pid = Some (mkProc s None) -> spare s ->
  let r := take (is_running w) pid self ok t m s (w_files w) in
  good (mkWorld (<[pid := mkProc (fst (fst r)) None]> (procs w)) (snd (fst r))).
Proof.
  intros Hg E Hs r. destruct (good_procs _ Hg _ _ E) as (Hw & Hd & Hpid & _). simpl in *.
  pose proof (take_wf (is_running w) pid self ok t m s (w_files w) Hw Hs) as [Hw' Hd']. fold r in Hw', Hd'.
  assert (Hmine : forall j t', j ∈ item_array s -> kind j = (t', PROCESS) -> w_files w !! get_filename_for_type dir t' = Some (dec_Z pid)).
  { intros j t' Hj Hk. apply (good_files _ Hg pid). by exists (mkProc s None), j. }
  pose proof (take_check_found (is_running w) t m s (w_files w) Hw) as Hf.
  apply (good_update w pid s); [done|done|done|congruence| |]; unfold r, take in *;
    destruct (take_check (is_running w) t m s (w_files w)) as [e| |i] eqn:Ec; simpl; try done.
  - destruct ok; simpl; [|done]. intros j t' [Hj|Hj%list_elem_of_singleton]%elem_of_app Hk.
    + destruct (decide (t' = t)) as [->|Ht]; [by rewrite Hd, lookup_insert_eq|].
      rewrite lookup_insert_ne by (rewrite Hd; intros ?%filename_inj; congruence). by apply (Hmine j).
    + subst j. injection Hk as <-. by rewrite Hd, lookup_insert_eq.
  - intros j t' Hj Hk. destruct (take_item self t m i s) as [s' res] eqn:Et. simpl in Hj.
    assert (Hj' : j ∈ item_array (fst (take_item self t m i s))) by (by rewrite Et).
    destruct (take_item_kinds self t m i s j (t', PROCESS)) as [(j' & H1 & H2)|[-> [= -> <-]]]; [|done..| |].
    + intros i' ->. by destruct Hf.
    + by apply (Hmine j').
    + by destruct Hf.
  - destruct ok; simpl; [|done]. intros q t' Hq Hh. destruct (decide (t' = t)) as [->|Ht].
    + exfalso. pose proof (good_files _ Hg _ _ Hh) as Hfile. destruct Hh as (Q & i & HQ & _).
      destruct (good_procs _ Hg _ _ HQ) as (_ & _ & Hqp & _). destruct Hf as [-> Hnone]. unfold take_check in Ec.
      rewrite Hnone, Hd, Hfile, (get_pid_own _ _ q Hqp Hfile), decide_False in Ec by lia.
      unfold as_int in Ec. rewrite (proj2 (Z.ltb_lt _ _)) in Ec by lia. unfold is_running in Ec.
      by rewrite bool_decide_eq_true_2 in Ec by eauto.
    + rewrite lookup_insert_ne; [done|]. rewrite Hd. intros ?%filename_inj. congruence.
  - intros q t' _ _. by destruct (take_item self t m i s).
Qed.

Lemma good_release w pid s self ok n :
  good w -> procs w !! pid = Some (mkProc s None) ->
  let r := release self ok n s (w_files w) in
  good (mkWorld (<[pid := mkProc (fst (fst r)) None]> (procs w)) (snd (fst r))).
Proof.
  intros Hg E r. destruct (good_procs _ Hg _ _ E) as (Hw & Hd & Hpid & _). simpl in *.
  pose proof (release_wf self ok n s (w_files w) Hw) as [Hw' Hd'].
  pose proof (release_effect self ok n s (w_files w) Hw) as [Hkeep Hfiles]. fold r in Hw', Hd', Hkeep, Hfiles.
  assert (Hold : forall j t', j ∈ item_array (fst (fst r)) -> kind j = (t', PROCESS) -> w_files w !! get_filename_for_type dir t' = Some (dec_Z pid)).
  { intros j t' Hj Hk. destruct (Hkeep j Hj) as (j' & Hj' & Hk'). apply (good_files _ Hg pid).
    exists (mkProc s None), j'. split_and!; [done..|congruence]. }
  apply (good_update w pid s); [done|done|done|congruence| |].
  - intros j t' Hj Hk. destruct Hfiles as [->|(i & Hi & Hm & -> & Hne)]; [by apply (Hold j)|].
    rewrite lookup_delete_ne; [by apply (Hold j)|]. rewrite Hd. intros Heq%filename_inj. apply (Hne j Hj). unfold kind in *. congruence.
  - intros q t' Hq Hh. destruct Hfiles as [->|(i & Hi & Hm & -> & Hne)]; [done|]. apply lookup_delete_ne. rewrite Hd.
    intros Heq%filename_inj. apply Hq. apply (good_exclusive w q pid t'); [done..|]. exists (mkProc s None), i.
    split_and!; [done..|]. unfold kind. congruence.
Qed.

Lemma good_exec w pid ev w' : good w -> atomic ev -> exec pid ev w = Some w' -> good w'.
Proof.
  intros Hg Ha. unfold exec. destruct ev as [| |self ok t m|self ok n|self t|ok]; try done;
    destruct (procs w !! pid) as [[s pend]|] eqn:E; try done.
  - case_bool_decide as Hp; [|done]. intros [= <-]. split; simpl.
    + intros q Q. destruct (decide (q = pid)) as [->|Hne]; [rewrite lookup_insert_eq|rewrite lookup_insert_ne by done; apply (good_procs _ Hg)].
      intros [= <-]. split; [apply lock_wf_init|]. split; [done|]. by split.
    + intros q t (Q & i & HQ & Hi & Hk). simpl in HQ. destruct (decide (q = pid)) as [->|Hne].
      * rewrite lookup_insert_eq in HQ. injection HQ as <-. by apply not_elem_of_nil in Hi.
      * rewrite lookup_insert_ne in HQ by done. apply (good_files _ Hg). by exists Q, i.
  - intros [= <-]. split; simpl.
    + intros q Q. rewrite lookup_delete_Some. intros [_ HQ]. by apply (good_procs _ Hg).
    + intros q t (Q & i & HQ & Hi & Hk). simpl in HQ. apply lookup_delete_Some in HQ as [_ HQ]. apply (good_files _ Hg). by exists Q, i.
  - destruct pend; [done|]. case_bool_decide as Hs; [|done]. pose proof (good_take w pid s self ok t m Hg E Hs) as Ht. simpl in Ht.
    destruct (take (is_running w) pid self ok t m s (w_files w)) as [[s' files] r]. by intros [= <-].
  - destruct pend; [done|]. pose proof (good_release w pid s self ok n Hg E) as Ht. simpl in Ht.
    destruct (release self ok n s (w_files w)) as [[s' files] r]. by intros [= <-].
  - by destruct (good_procs _ Hg _ _ E) as (_ & _ & _ & Hp); simpl in Hp; subst.
Qed.
Lemma good_execs evs w w' : good w -> Forall (fun e => atomic (snd e)) evs -> execs evs w = Some w' -> good w'.
Proof.
  intros Hg Ha. revert w Hg. induction Ha as [|[pid ev] evs Hev _ IH]; intros w Hg; simpl; [by intros [= <-]|].
  destruct (exec pid ev w) as [w1|] eqn:E; [|done]. apply IH. by apply (good_exec w pid ev).
Qed.

(** C12. Locks against other processes exclude: whatever files there are at the
    start, and whatever processes do - start, take locks, release them, end or
    die with their files left behind, fail to write or to delete - as long as
    no process acts between another one's test of the lock file and its
    writing, two processes never hold the same lock; and the lock file of a
    lock that is held names its holder. *)
Theorem process_locks_exclude files evs w p q t :
  Forall (fun e => atomic (snd e)) evs -> execs evs (mkWorld ∅ files) = Some w ->
  holds w p t -> holds w q t -> p = q /\ w_files w !! get_filename_for_type dir t = Some (dec_Z p).
Proof.
  intros Ha He Hp Hq. assert (Hg : good w).
  { apply (good_execs evs (mkWorld ∅ files)); [|done..]. split; simpl; [done|]. by intros pid u (P & i & HP & _). }
  split; [by apply (good_exclusive w p q t)|]. by apply (good_files w Hg).
Qed.
End system.

(** ** Threads of one process *)

(** One call after the other, as the mutex has it. *)
Inductive thread_call := TTake (ok : bool) (t : LockType) (m : LockMode) | TRelease (ok : bool) (n : Z).
Definition thread_exec (running : Z -> bool) (pid self : Z) (c : thread_call) (x : LockState * gmap cstr cstr)
    : LockState * gmap cstr cstr * result (option Error) Z :=
  let (s, files) := x in
  match c with
  | TTake ok t m => take running pid self ok t m s files
  | TRelease ok n =>
      match release self ok n s files with
      | (s, files, Ok _) => (s, files, Ok n)
      | (s, files, Err e) => (s, files, Err e)
      end
  end.

Lemma by_type_mode_elem s i : wf s -> i ∈ item_array s -> get_item_by_type_mode (item_array s) (type i) (mode i) = Some i.
Proof.
  intros Hw Hi. destruct (get_item_by_type_mode (item_array s) (type i) (mode i)) as [j|] eqn:E.
  - apply by_type_mode_Some in E as (Hj & Ht & Hm). f_equal. apply (kinds_unique s); [done..|]. unfold kind. congruence.
  - by destruct (by_type_mode_None _ _ _ i E Hi).
Qed.

(** The item that a call for [t] and [m] comes to: of the same mode, or held
    against processes when a lock against threads is asked for. *)
Definition covers (s : LockState) (i : LockItem) (t : LockType) (m : LockMode) : Prop :=
  type i = t /\ (mode i = m \/ m = THREAD /\ get_item_by_type_mode (item_array s) t THREAD = None).
Lemma take_check_covered running s i t m files :
  wf s -> i ∈ item_array s -> covers s i t m -> take_check running t m s files = NoFile (Some i).
Proof.
  intros Hw Hi [<- Hc]. pose proof (by_type_mode_elem s i Hw Hi) as Hf. unfold take_check.
  destruct Hc as [<-|[-> Hn]]; [by rewrite Hf; destruct (mode i)|]. rewrite Hn.
  destruct (mode i); [congruence|]. by rewrite Hf.
Qed.

(** Locks exclude threads: while a thread holds a lock, no other thread of
    the process gets a lock of that type and mode - nor one against threads, when
    it is held against processes - and no call of another thread changes the
    item: it can be neither counted up nor released. *)
Theorem thread_locks_exclude running pid self c s files i :
  wf s -> i ∈ item_array s -> owner i <> self ->
  let '(s', _, r) := thread_exec running pid self c (s, files) in
  i ∈ item_array s'
  /\ match c with
     | TTake _ t m => covers s i t m -> r = Err (Some (TakenByThread t (owner i))) /\ s' = s
     | TRelease _ n => id i = n -> r = Err (Some (NotThisThread (type i))) /\ s' = s
     end.
Proof.
  intros Hw Hi Ho. destruct c as [ok t m|ok n]; simpl.
  - pose proof (take_check_found running t m s files Hw) as Hf.
    pose proof (take_check_covered running s i t m files Hw Hi) as Hc. unfold take.
    destruct (take_check running t m s files) as [e| |j] eqn:Ec.
    + split; [done|]. by intros ?%Hc.
    + destruct ok; simpl; (split; [rewrite ?elem_of_app; auto|by intros ?%Hc]).
    + destruct j as [j|]; simpl; [|split; [apply elem_of_app; by left|by intros ?%Hc]].
      destruct Hf as (Hj & _). destruct (decide (owner j <> self)) as [Hjo|Hjo].
      * split; [done|]. intros Hcov. pose proof (Hc Hcov) as [= ->]. done.
      * assert (Hne : id i <> id j).
        { intros Heq. apply Hjo. pose proof (by_id_elem _ i (wf_ids _ Hw) Hi) as Hx. rewrite Heq, Hj in Hx. by injection Hx as ->. }
        split; [by apply replace_other|]. intros ?%Hc. congruence.
  - pose proof (by_id_elem _ i (wf_ids _ Hw) Hi) as Hid. unfold release.
    pose proof (proj1 (Forall_forall _ _) (wf_below s Hw) i Hi) as Hpos. simpl in Hpos.
    destruct (decide (n = 0%Z)) as [->|_]; [split; [done|lia]|].
    destruct (get_item_by_id (item_array s) n) as [j|] eqn:Ej; [|split; [done|intros <-; congruence]].
    destruct (decide (owner j <> self)) as [Hj|Hj]; [split; [done|intros <-; rewrite Hid in Ej; by injection Ej as <-]|].
    assert (Hne : id i <> n) by (intros <-; rewrite Hid in Ej; injection Ej as <-; done).
    destruct (bool_decide _), (bool_decide (mode _ = PROCESS)); simpl; try destruct (ok && _); simpl;
      (split; [|done]); auto using replace_other, remove_other.
Qed.

(** ** Examples *)

Definition dir : cstr := lit "/tmp".
Definition calls (l : list (Z * thread_call)) (x : LockState * gmap cstr cstr) : LockState * gmap cstr cstr :=
  fold_left (fun x c => fst (thread_exec (fun p => bool_decide (p = 7%Z)) 7 (fst c) (snd c) x)) l x.

(** The sequence of the library's own test: six changes are emitted, the items are gone. *)
Example lock_test :
  let x := calls [(1%Z, TRelease true 999); (1%Z, TTake true RPMDB PROCESS); (1%Z, TTake true REPO PROCESS); (1%Z, TTake true RPMDB PROCESS);
                  (1%Z, TRelease true 1); (1%Z, TRelease true 2); (1%Z, TRelease true 1); (1%Z, TRelease true 1)] (set_lock_dir dir init, ∅) in
  item_array (fst x) = [] /\ emitted (fst x) = [1; 3; 3; 3; 1; 0]%Z /\ snd x = ∅.
Proof. vm_compute. done. Qed.

(** Testing the lock file and writing it are two steps: two processes that both
    test before either writes have the same lock. *)
Example race : exists w,
  execs dir [(1%Z, Start); (2%Z, Start); (1%Z, Check 1 RPMDB); (2%Z, Check 1 RPMDB); (1%Z, Write true); (2%Z, Write true)] (mkWorld ∅ ∅) = Some w
  /\ holds w 1 RPMDB /\ holds w 2 RPMDB.
Proof.
  eexists. split; [vm_compute; reflexivity|]. unfold holds. split; eexists; eexists;
    (split; [vm_compute; reflexivity|split; [left|reflexivity]]).
Qed.

(** The number in the file can be that of a later process: then nobody gets the lock. *)
Example reused_pid :
  (fun w => snd (take (is_running w) 2 1 true RPMDB PROCESS (set_lock_dir dir init) (w_files w)))
    <$> execs dir [(1%Z, Start); (1%Z, Take 1 true RPMDB PROCESS); (1%Z, Exit); (1%Z, Start); (2%Z, Start)] (mkWorld ∅ ∅)
  = Some (Err (Some (AlreadyLocked RPMDB PROCESS 1))).
Proof. vm_compute. reflexivity. Qed.
(** Without that, a lock file that was left behind is taken over. *)
Example left_behind :
  (fun w => snd (take (is_running w) 2 1 true RPMDB PROCESS (set_lock_dir dir init) (w_files w)))
    <$> execs dir [(1%Z, Start); (1%Z, Take 1 true RPMDB PROCESS); (1%Z, Exit); (2%Z, Start)] (mkWorld ∅ ∅)
  = Some (Ok 1%Z).
Proof. vm_compute. reflexivity. Qed.
(** A file that holds the number zero makes taking fail without an error. *)
Example zero_pid :
  snd (take (fun _ => false) 2 1 true RPMDB PROCESS (set_lock_dir dir init) {[get_filename_for_type dir RPMDB := lit "0"]}) = Err None.
Proof. vm_compute. reflexivity. Qed.

(** One thread has the lock against threads, another one the lock against
    processes; and the two items add up to the bit of another type. *)
Example thread_then_process :
  let x := calls [(1%Z, TTake true METADATA THREAD); (2%Z, TTake true METADATA PROCESS)] (set_lock_dir dir init, ∅) in
  (fun i => (owner i, kind i)) <$> item_array (fst x) = [(1%Z, (METADATA, THREAD)); (2%Z, (METADATA, PROCESS))]
  /\ get_state (fst x) = Z.shiftl 1 (type_value CONFIG).
Proof. vm_compute. done. Qed.

(** A file that cannot be deleted leaves an item that counts zero; releasing it
    once more counts down to the largest number. *)
Example release_below_zero :
  let x := calls [(1%Z, TTake true RPMDB PROCESS); (1%Z, TRelease false 1); (1%Z, TRelease false 1)] (set_lock_dir dir init, ∅) in
  refcount <$> item_array (fst x) = [(2 ^ 32 - 1)%Z].
Proof. vm_compute. reflexivity. Qed.

(** The finalizer releases each lock once, and skips the item behind one that goes. *)
Example finalize_leaves_files :
  let x := calls [(1%Z, TTake true RPMDB PROCESS); (1%Z, TTake true REPO PROCESS)] (set_lock_dir dir init, ∅) in
  let y := calls [(1%Z, TTake true RPMDB PROCESS); (1%Z, TTake true RPMDB PROCESS)] (set_lock_dir dir init, ∅) in
  map_to_list (finalize 1 true (fst x) (snd x)) = [(get_filename_for_type dir REPO, lit "7")]
  /\ map_to_list (finalize 1 true (fst y) (snd y)) = [(get_filename_for_type dir RPMDB, lit "7")].
Proof. split; vm_compute; reflexivity. Qed.

(** ** Witnesses *)

Lemma take_then_release_witness :
  exists s1 files1 s2, take (fun _ => false) 7 1 true RPMDB PROCESS (set_lock_dir dir init) ∅ = (s1, files1, Ok 1%Z)
  /\ release 1 true 1 s1 files1 = (s2, ∅, Ok tt) /\ item_array s2 = [].
Proof.
  destruct (take (fun _ => false) 7 1 true RPMDB PROCESS (set_lock_dir dir init) ∅) as [[s1 files1] r] eqn:E.
  assert (Hr : snd (take (fun _ => false) 7 1 true RPMDB PROCESS (set_lock_dir dir init) ∅) = Ok 1%Z) by (vm_compute; reflexivity).
  rewrite E in Hr. simpl in Hr. subst r.
  destruct (take_then_release (fun _ => false) 7 1 RPMDB PROCESS (set_lock_dir dir init) ∅ s1 files1 1) as (s2 & H1 & H2 & _).
  - apply lock_wf_init.
  - reflexivity.
  - constructor.
  - exact E.
  - exists s1, files1, s2. split; [reflexivity|]. split; [exact H1|exact H2].
Defined.

Lemma process_locks_exclude_witness :
  exists w, execs dir [(1%Z, Start); (2%Z, Start); (1%Z, Take 1 true RPMDB PROCESS); (2%Z, Take 1 true RPMDB PROCESS)] (mkWorld ∅ ∅) = Some w
  /\ w_files w !! get_filename_for_type dir RPMDB = Some (dec_Z 1).
Proof.
  destruct (execs dir [(1%Z, Start); (2%Z, Start); (1%Z, Take 1 true RPMDB PROCESS); (2%Z, Take 1 true RPMDB PROCESS)] (mkWorld ∅ ∅)) as [w|] eqn:E;
    [|vm_compute in E; discriminate E].
  assert (Hh : holds w 1 RPMDB).
  { vm_compute in E. injection E as <-. eexists. eexists. split; [vm_compute; reflexivity|split; [left|reflexivity]]. }
  exists w. split; [reflexivity|].
  refine (proj2 (process_locks_exclude dir ∅ _ w 1 1 RPMDB _ E Hh Hh)). repeat constructor.
Defined.

Definition held : LockState := mkLock [mkItem 1 1 1 PROCESS REPO] dir 2 [2%Z].
Lemma thread_locks_exclude_witness :
  take (fun _ => false) 7 2 true REPO THREAD held ∅ = (held, ∅, Err (Some (TakenByThread REPO 1))).
Proof.
  assert (Hw : wf held) by (split; [apply NoDup_singleton|apply NoDup_singleton|repeat constructor|split; reflexivity]).
  assert (Hi : mkItem 1 1 1 PROCESS REPO ∈ item_array held) by left.
  assert (Hc : covers held (mkItem 1 1 1 PROCESS REPO) REPO THREAD) by (split; [reflexivity|right; split; reflexivity]).
  assert (Ho : owner (mkItem 1 1 1 PROCESS REPO) <> 2%Z) by discriminate.
  pose proof (thread_locks_exclude (fun _ => false) 7 2 (TTake true REPO THREAD) held ∅ _ Hw Hi Ho) as H.
  change (thread_exec (fun _ => false) 7 2 (TTake true REPO THREAD) (held, ∅)) with (take (fun _ => false) 7 2 true REPO THREAD held ∅) in H.
  destruct (take (fun _ => false) 7 2 true REPO THREAD held ∅) as [[s' f] r] eqn:E. destruct H as [_ H].
  destruct (H Hc) as [Hr Hs]. subst. unfold take in E. rewrite (take_check_covered _ _ _ _ _ _ Hw Hi Hc) in E. by injection E as <-.
Defined.
End Lock.
