(* ===== verification/Progress.v ===== *)
(** * Progress: the progress of tasks (dnf-4 [dnf-state.cpp])

    A state has a number of steps, of which some are done, and at most one child
    that reports for the step under way: the states of a task form a chain, in
    which position 0 is the root and a state's child is the next one. Signals of
    a child are handled by its parent, which emits its own. The signals emitted
    are recorded in order. Locks are those of the class [LockObject], of which
    the lock object of [Lock] is an instance. *)

From S2P Require Import Prelude Numeric Floats Lock.

(** ** What a state asks of the lock object *)

Class LockObject (L : Type) := {
  lock_take : Lock.LockType -> Lock.LockMode -> L -> L * option Z;
  lock_release : Z -> L -> L * bool;
}.
(** The locks taken and not yet released, by the numbers that were given. *)
Class LockObjectLaws (L : Type) `{LockObject L} := {
  lock_held : list Z -> L -> Prop;
  (** No counter is at its end. *)
  lock_room : L -> Prop;
  lock_take_held ids t m l l' n : lock_held ids l -> lock_room l -> lock_take t m l = (l', Some n) -> lock_held (n :: ids) l';
  lock_take_none ids t m l l' : lock_held ids l -> lock_take t m l = (l', None) -> lock_held ids l';
  lock_release_held ids n l : lock_held (n :: ids) l -> exists l', lock_release n l = (l', true) /\ lock_held ids l';
  lock_held_perm ids ids' l : ids ≡ₚ ids' -> lock_held ids l -> lock_held ids' l;
}.

Module Progress.
Import Numeric.

(** [DnfStateAction] as its number; zero is [DNF_STATE_ACTION_UNKNOWN]. *)
Definition Action : Type := Z.
Definition ACTION_UNKNOWN : Action := 0%Z.
Definition SPEED_SMOOTHING_ITEMS : nat := 5.

(** [DnfStatePrivate], in groups; the timers of profiling are left out. *)
Record Cancel := mkCancel { allow_cancel : bool; allow_cancel_changed_state : bool; allow_cancel_child : bool }.
Record Steps := mkSteps { report_progress : bool; current : Z; last_percentage : Z; steps : Z; step_data : option (list Z) }.
Record Acts := mkActs { action_hint : option cstr; action : Action; last_action : Action; child_action : Action }.
Record Priv := mkPriv { cancel : Cancel; progress : Steps; acts : Acts; speed : Z; speed_data : list Z; lock_ids : list Z }.

Definition new : Priv :=
  mkPriv (mkCancel true false true) (mkSteps true 0 0 0 None) (mkActs None ACTION_UNKNOWN ACTION_UNKNOWN ACTION_UNKNOWN)
    0 (replicate SPEED_SMOOTHING_ITEMS 0%Z) [].

Definition set_cancel (f : Cancel -> Cancel) (n : Priv) : Priv :=
  mkPriv (f (cancel n)) (progress n) (acts n) (speed n) (speed_data n) (lock_ids n).
Definition set_progress (f : Steps -> Steps) (n : Priv) : Priv :=
  mkPriv (cancel n) (f (progress n)) (acts n) (speed n) (speed_data n) (lock_ids n).
Definition set_acts (f : Acts -> Acts) (n : Priv) : Priv :=
  mkPriv (cancel n) (progress n) (f (acts n)) (speed n) (speed_data n) (lock_ids n).
Definition set_speed_value (v : Z) (n : Priv) : Priv :=
  mkPriv (cancel n) (progress n) (acts n) v (speed_data n) (lock_ids n).
Definition set_speed_data (d : list Z) (n : Priv) : Priv :=
  mkPriv (cancel n) (progress n) (acts n) (speed n) d (lock_ids n).
Definition set_lock_ids (ids : list Z) (n : Priv) : Priv :=
  mkPriv (cancel n) (progress n) (acts n) (speed n) (speed_data n) ids.
Definition with_last (p : Z) (s : Steps) : Steps := mkSteps (report_progress s) (current s) p (steps s) (step_data s).
Definition with_current (c : Z) (s : Steps) : Steps := mkSteps (report_progress s) c (last_percentage s) (steps s) (step_data s).
Definition with_steps (k : Z) (d : option (list Z)) (s : Steps) : Steps :=
  mkSteps (report_progress s) (current s) (last_percentage s) k d.

(** The signals, with the position of the state that emits them. *)
Inductive Signal :=
| PercentageChanged (d : nat) (percentage : Z)
| AllowCancelChanged (d : nat) (allow : bool)
| ActionChanged (d : nat) (a : Action) (hint : option cstr)
| PackageProgressChanged (d : nat) (package : cstr) (a : Action) (percentage : Z).

Inductive Error := Cancelled | NoSize | AlreadyFinished | Not100 (total : Z) | StepsFailed (n : Z).

(** [discrete * (100.0 / steps)] in double, as a float. *)
Definition discrete_to_percent (discrete steps : Z) : SpecFloat.spec_float :=
  if (steps <? discrete)%Z then of_Z float 100
  else if (steps =? 0)%Z then of_Z float 0
  else Floats.fcast float (fmul double (of_Z double discrete) (fdiv double (of_Z double 100) (of_Z double steps))).
(** [(guint) x]; the values are between 0 and about 100. *)
Definition to_guint (x : SpecFloat.spec_float) : Z := default 0%Z (to_int uint32 x).

Section state.
Context {L : Type} `{LockObject L}.

(** [cancellable] is shared by the whole chain: whether there is one, and
    whether it is cancelled. *)
Record World := mkWorld { chain : list Priv; cancellable : option bool; locks : L; signals : list Signal }.
Definition set_chain (c : list Priv) (w : World) : World := mkWorld c (cancellable w) (locks w) (signals w).
Definition set_locks (l : L) (w : World) : World := mkWorld (chain w) (cancellable w) l (signals w).
Definition on (d : nat) (f : Priv -> Priv) (w : World) : World := set_chain (alter f d (chain w)) w.
Definition emit (s : Signal) (w : World) : World := mkWorld (chain w) (cancellable w) (locks w) (signals w ++ [s]).

(** ** Cancelling *)

Definition get_allow_cancel (n : Priv) : bool := allow_cancel (cancel n) && allow_cancel_child (cancel n).

(** The signal of the state at [d], and the handlers [child_allow_cancel_changed_cb] above it. *)
Fixpoint emit_allow_cancel (d : nat) (w : World) : World :=
  match chain w !! d with
  | None => w
  | Some n =>
      let b := get_allow_cancel n in
      let w := emit (AllowCancelChanged d b) w in
      match d with
      | O => w
      | S d' => emit_allow_cancel d' (on d' (set_cancel (fun c => mkCancel (allow_cancel c) (allow_cancel_changed_state c) b)) w)
      end
  end.
Definition set_allow_cancel (d : nat) (b : bool) (w : World) : World :=
  match chain w !! d with
  | None => w
  | Some n =>
      let w := on d (set_cancel (fun c => mkCancel b true (allow_cancel_child c))) w in
      if Bool.eqb (allow_cancel (cancel n)) b then w else emit_allow_cancel d w
  end.

(** [dnf_state_check]. *)
Definition check (w : World) : bool := negb (default false (cancellable w)).
(** [dnf_state_set_cancellable], on the root: only if there is none. *)
Definition set_cancellable (cancelled : bool) (w : World) : World :=
  match cancellable w with Some _ => w | None => mkWorld (chain w) (Some cancelled) (locks w) (signals w) end.
(** [g_cancellable_cancel]. *)
Definition cancel_all (w : World) : World :=
  mkWorld (chain w) (match cancellable w with Some _ => Some true | None => None end) (locks w) (signals w).

(** ** Speed *)

(** [child_notify_speed_cb] hands a new speed on. *)
Fixpoint set_speed_internal (d : nat) (v : Z) (w : World) : World :=
  match chain w !! d with
  | None => w
  | Some n =>
      if (speed n =? v)%Z then w
      else let w := on d (set_speed_value v) w in
           match d with O => w | S d' => set_speed_internal d' v w end
  end.
(** The average of the values that are not zero; the sum has 64 bits. *)
Definition average (data : list Z) : Z :=
  let nz := List.filter (fun v => 0 <? v)%Z data in
  let sum := fold_left (fun s v => wrap 64 (s + v)) nz 0%Z in
  match nz with [] => sum | _ => (sum / Z.of_nat (length nz))%Z end.
Definition set_speed (d : nat) (v : Z) (w : World) : World :=
  match chain w !! d with
  | None => w
  | Some n =>
      let data := v :: take (SPEED_SMOOTHING_ITEMS - 1) (speed_data n) in
      set_speed_internal d (average data) (on d (set_speed_data data) w)
  end.

(** ** Actions *)

Fixpoint emit_action (d : nat) (a : Action) (hint : option cstr) (w : World) : World :=
  let w := emit (ActionChanged d a hint) w in
  match d with
  | O => w
  | S d' => emit_action d' a hint (on d' (set_acts (fun x => mkActs (action_hint x) a (last_action x) (child_action x))) w)
  end.
Definition action_start (d : nat) (a : Action) (hint : option cstr) (w : World) : World * bool :=
  match chain w !! d with
  | None => (w, false)
  | Some n =>
      if (a =? ACTION_UNKNOWN)%Z then (w, false)
      else if (action (acts n) =? a)%Z && bool_decide (hint = action_hint (acts n)) then (w, false)
      else (emit_action d a hint (on d (set_acts (fun x => mkActs hint a (action x) (child_action x))) w), true)
  end.
Definition action_stop (d : nat) (w : World) : World * bool :=
  match chain w !! d with
  | None => (w, false)
  | Some n =>
      if (action (acts n) =? ACTION_UNKNOWN)%Z then (w, false)
      else (emit_action d (last_action (acts n)) None
              (on d (set_acts (fun x => mkActs None (last_action x) ACTION_UNKNOWN (child_action x))) w), true)
  end.
Fixpoint emit_package_progress (d : nat) (package : cstr) (a : Action) (p : Z) (w : World) : World :=
  let w := emit (PackageProgressChanged d package a p) w in
  match d with O => w | S d' => emit_package_progress d' package a p w end.
Definition set_package_progress (d : nat) (package : cstr) (a : Action) (p : Z) (w : World) : World :=
  if (a =? ACTION_UNKNOWN)%Z || (100 <? p)%Z then w else emit_package_progress d package a p w.

(** ** Locks *)

Definition take_lock (d : nat) (t : Lock.LockType) (m : Lock.LockMode) (w : World) : World * bool :=
  match lock_take t m (locks w) with
  | (l, None) => (set_locks l w, false)
  | (l, Some n) => (on d (fun x => set_lock_ids (lock_ids x ++ [n]) x) (set_locks l w), true)
  end.
Fixpoint release_ids (ids : list Z) (l : L) : L * bool :=
  match ids with
  | [] => (l, true)
  | n :: ids => match lock_release n l with (l, true) => release_ids ids l | (l, false) => (l, false) end
  end.
(** The children first; if a lock cannot be released the list stays as it was. *)
Fixpoint release_list (ns : list Priv) (l : L) : list Priv * L * bool :=
  match ns with
  | [] => ([], l, true)
  | n :: ns =>
      let '(ns, l, _) := release_list ns l in
      let '(l, ok) := release_ids (lock_ids n) l in
      ((if ok then set_lock_ids [] n else n) :: ns, l, ok)
  end.
Definition release_locks (d : nat) (w : World) : World * bool :=
  let '(ns, l, ok) := release_list (drop d (chain w)) (locks w) in
  (set_locks l (set_chain (take d (chain w) ++ ns) w), ok).

(** ** Percentages *)

(** What happens at 100%, before the value is stored. *)
Definition reach_end (d : nat) (w : World) : World * bool :=
  match chain w !! d with
  | None => (w, false)
  | Some n =>
      let w := if allow_cancel (cancel n) then w else set_allow_cancel d true w in
      let w := if (action (acts n) =? ACTION_UNKNOWN)%Z then w else fst (action_stop d w) in
      release_locks d (set_speed_internal d 0 w)
  end.

(** [child_percentage_changed_cb]: what the parent is to be set to, in 32 bits
    with weights and as a float without. *)
Definition parent_percentage (d : nat) (p : Z) (w : World) : World * option Z :=
  match chain w !! d with
  | None => (w, None)
  | Some n =>
      let s := progress n in
      if (steps s =? 1)%Z then (w, Some p)
      else if (steps s =? 0)%Z then (w, None)
      else if (steps s <=? current s)%Z then (w, None)
      else
        match step_data s with
        | Some data =>
            let at_ := fun k => default 0%Z (data !! Z.to_nat k) in
            (w, Some (if (current s =? 0)%Z then wrap 32 (p * at_ 0) / 100
                      else wrap 32 (wrap 32 (wrap 32 (100 - p) * at_ (current s - 1)) + wrap 32 (p * at_ (current s))) / 100)%Z)
        | None =>
            let offset := discrete_to_percent (current s) (steps s) in
            let range := Floats.fsub float (discrete_to_percent (wrap 32 (current s + 1)) (steps s)) offset in
            if flt (Floats.fcast double range) (round_literal double 1 10 (- 2)) then (w, None)
            else
              let w := if (p =? 100)%Z
                       then on d (set_acts (fun x => mkActs (action_hint x) (action x) (child_action x) (child_action x))) w else w in
              let extra := fmul float (fdiv float (of_Z float p) (of_Z float 100)) range in
              (w, Some (to_guint (Floats.fadd float offset extra)))
        end
  end.

Fixpoint set_percentage (d : nat) (p : Z) (w : World) : World * bool :=
  match chain w !! d with
  | None => (w, false)
  | Some n =>
      let s := progress n in
      if negb (report_progress s) then (w, true)
      else if (p =? last_percentage s)%Z then (w, false)
      else if (100 <? p)%Z then (w, false)
      else if (p <? last_percentage s)%Z then (w, false)
      else
        let '(w, ok) := if (p =? 100)%Z then reach_end d w else (w, true) in
        if negb ok then (w, false)
        else
          let w := emit (PercentageChanged d p) (on d (set_progress (with_last p)) w) in
          match d with
          | O => (w, true)
          | S d' =>
              match parent_percentage d' p w with
              | (w, Some pp) => (fst (set_percentage d' pp w), true)
              | (w, None) => (w, true)
              end
          end
  end.

(** ** Children *)

(** [dnf_state_finalize] of the states from one on: its locks are released, then
    it is reset, which drops its own child. *)
Fixpoint finalize_list (fuel : nat) (ns : list Priv) (l : L) : L :=
  match fuel with
  | O => l
  | S fuel =>
      let '(ns, l, _) := release_list ns l in
      match ns with
      | [] => l
      | n :: ns => if report_progress (progress n) then fst (release_ids (lock_ids n) (finalize_list fuel ns l)) else l
      end
  end.
(** Dropping the child of [d]. *)
Definition unref_child (d : nat) (w : World) : World :=
  let ns := drop (S d) (chain w) in
  set_locks (finalize_list (length ns) ns (locks w)) (set_chain (take (S d) (chain w)) w).

Definition reset (d : nat) (w : World) : World * bool :=
  match chain w !! d with
  | None => (w, false)
  | Some n =>
      if negb (report_progress (progress n)) then (w, true)
      else
        let w := on d (set_progress (fun s => mkSteps (report_progress s) 0 0 0 (step_data s))) w in
        let w := fst (release_locks d (unref_child d w)) in
        (on d (set_progress (with_steps 0 None)) w, true)
  end.

(** The position of the child: the state itself if it does not report. *)
Definition get_child (d : nat) (w : World) : World * nat :=
  match chain w !! d with
  | None => (w, d)
  | Some n =>
      if negb (report_progress (progress n)) then (w, d)
      else
        let a := action (acts n) in
        let w := unref_child d w in
        let w := on d (set_acts (fun x => mkActs (action_hint x) (action x) (last_action x) a)) w in
        let child := set_acts (fun x => mkActs (action_hint x) a (last_action x) (child_action x)) new in
        (mkWorld (chain w ++ [child]) (Some (default false (cancellable w))) (locks w) (signals w), S d)
  end.

Definition set_report_progress (d : nat) (b : bool) (w : World) : World :=
  on d (set_progress (fun s => mkSteps b (current s) (last_percentage s) (steps s) (step_data s))) w.

(** ** Steps *)

Definition set_number_steps (d : nat) (k : Z) (w : World) : World * bool :=
  match chain w !! d with
  | None => (w, false)
  | Some n =>
      if (k =? 0)%Z then (w, true)
      else if negb (report_progress (progress n)) then (w, true)
      else if negb (steps (progress n) =? 0)%Z then (w, false)
      else (on d (set_progress (with_steps k (step_data (progress n)))) w, true)
  end.

(** The sums of the first values, the sum of all, in 32 bits. *)
Fixpoint cumulate (total : Z) (vs : list Z) : list Z :=
  match vs with [] => [] | v :: vs => let t := wrap 32 (total + v) in t :: cumulate t vs end.
Definition total (vs : list Z) : Z := fold_left (fun t v => wrap 32 (t + v)) vs 0%Z.

(** The weights are a value and the values up to the terminating [-1]. *)
Definition set_steps (d : nat) (value : Z) (values : list Z) (w : World) : World * result Error unit :=
  match chain w !! d with
  | None => (w, Ok tt)
  | Some n =>
      if negb (report_progress (progress n)) then (w, Ok tt)
      else if negb (total (value :: values) =? 100)%Z then (w, Err (Not100 (total (value :: values))))
      else
        let k := Z.of_nat (S (length values)) in
        match set_number_steps d k w with
        | (w, false) => (w, Err (StepsFailed k))
        | (w, true) => (on d (set_progress (with_steps k (Some (cumulate 0 (value :: values))))) w, Ok tt)
        end
  end.

(** The percentage of [c] steps; the weights are summed up already. *)
Definition done_percentage (s : Steps) (c : Z) : Z :=
  match step_data s with
  | None => to_guint (discrete_to_percent c (steps s))
  | Some data => to_guint (of_Z float (default 0%Z (data !! Z.to_nat (c - 1))))
  end.
Definition done (d : nat) (w : World) : World * result Error unit :=
  match chain w !! d with
  | None => (w, Ok tt)
  | Some n =>
      let s := progress n in
      if negb (check w) then (w, Err Cancelled)
      else if negb (report_progress s) then (w, Ok tt)
      else if (steps s =? 0)%Z then (w, Err NoSize)
      else if (steps s <=? current s)%Z then (w, Err AlreadyFinished)
      else
        let w := set_allow_cancel d true w in
        let c := (current s + 1)%Z in
        let w := on d (set_progress (with_current c)) w in
        let w := fst (set_percentage d (done_percentage s c) w) in
        (if decide (is_Some (chain w !! S d)) then fst (reset (S d) w) else w, Ok tt)
  end.

Definition finished (d : nat) (w : World) : World * result Error unit :=
  match chain w !! d with
  | None => (w, Ok tt)
  | Some n =>
      if negb (check w) then (w, Err Cancelled)
      else if (current (progress n) =? steps (progress n))%Z then (w, Ok tt)
      else (fst (set_percentage d 100 (on d (set_progress (with_current (steps (progress n)))) w)), Ok tt)
  end.

(** ** What a program does with a task *)

Inductive op :=
| SetNumberSteps (d : nat) (k : Z) | SetSteps (d : nat) (value : Z) (values : list Z)
| Done (d : nat) | Finished (d : nat) | SetPercentage (d : nat) (p : Z)
| GetChild (d : nat) | Reset (d : nat) | SetReportProgress (d : nat) (b : bool)
| SetAllowCancel (d : nat) (b : bool) | SetCancellable (cancelled : bool) | CancelAll
| ActionStart (d : nat) (a : Action) (hint : option cstr) | ActionStop (d : nat)
| SetPackageProgress (d : nat) (package : cstr) (a : Action) (p : Z)
| SetSpeed (d : nat) (v : Z)
| TakeLock (d : nat) (t : Lock.LockType) (m : Lock.LockMode) | ReleaseLocks (d : nat).
Definition exec (o : op) (w : World) : World :=
  match o with
  | SetNumberSteps d k => fst (set_number_steps d k w)
  | SetSteps d v vs => fst (set_steps d v vs w)
  | Done d => fst (done d w)
  | Finished d => fst (finished d w)
  | SetPercentage d p => fst (set_percentage d p w)
  | GetChild d => fst (get_child d w)
  | Reset d => fst (reset d w)
  | SetReportProgress d b => set_report_progress d b w
  | SetAllowCancel d b => set_allow_cancel d b w
  | SetCancellable b => set_cancellable b w
  | CancelAll => cancel_all w
  | ActionStart d a hint => fst (action_start d a hint w)
  | ActionStop d => fst (action_stop d w)
  | SetPackageProgress d package a p => set_package_progress d package a p w
  | SetSpeed d v => set_speed d v w
  | TakeLock d t m => fst (take_lock d t m w)
  | ReleaseLocks d => fst (release_locks d w)
  end.
Definition run (os : list op) (w : World) : World := fold_left (fun w o => exec o w) os w.
(** [dnf_state_new]. *)
Definition start (l : L) : World := mkWorld [new] None l [].
End state.

(** ** What the operations leave alone *)

Create HintDb progress.

Section frames.
Context {L : Type} `{LockObject L}.
Implicit Types w : World (L := L).

(** The percentages that were announced, with their states. *)
Definition percent_of (s : Signal) : option (nat * Z) := match s with PercentageChanged d p => Some (d, p) | _ => None end.
Definition percents w : list (nat * Z) := omap percent_of (signals w).
Definition frame (n : Priv) : Steps * list Z := (progress n, lock_ids n).

(** Neither steps nor percentages nor locks change. *)
Definition still w w' : Prop :=
  frame <$> chain w' = frame <$> chain w /\ percents w' = percents w /\ cancellable w' = cancellable w /\ locks w' = locks w.
#[global] Instance still_refl : Reflexive still.
Proof. done. Qed.
#[global] Instance still_trans : Transitive still.
Proof. intros x y z (A & B & C & D) (A' & B' & C' & D'). unfold still. by rewrite A', B', C', D'. Qed.

Lemma alter_frame {B} (g : Priv -> B) f d (l : list Priv) : (forall n, g (f n) = g n) -> g <$> alter f d l = g <$> l.
Proof.
  intros Hf. revert d. induction l as [|n l IH]; intros [|d]; csimpl; [done..|by rewrite Hf|].
  change (g n :: (g <$> alter f d l) = g n :: (g <$> l)). by rewrite IH.
Qed.
Lemma still_on d f w : (forall n, frame (f n) = frame n) -> still w (on d f w).
Proof. intros Hf. unfold still, on. simpl. by rewrite alter_frame. Qed.
Lemma still_emit s w : percent_of s = None -> still w (emit s w).
Proof. intros Hs. unfold still, percents. simpl. rewrite omap_app. simpl. by rewrite Hs, app_nil_r. Qed.
Hint Resolve still_on still_emit : progress.
Hint Extern 1 (percent_of _ = None) => reflexivity : progress.
Hint Extern 1 (forall n, frame _ = frame n) => intros []; reflexivity : progress.

Lemma still_emit_allow_cancel d w : still w (emit_allow_cancel d w).
Proof.
  revert w. induction d as [|d IH]; intros w; simpl; (destruct (chain w !! _); [|done]); [auto with progress|].
  etrans; [|apply IH]. etrans; [|apply still_on; by intros []]. auto with progress.
Qed.
Lemma still_set_allow_cancel d b w : still w (set_allow_cancel d b w).
Proof.
  unfold set_allow_cancel. destruct (chain w !! d); [|done].
  assert (Hs : still w (on d (set_cancel (fun c => mkCancel b true (allow_cancel_child c))) w)) by auto with progress.
  destruct (Bool.eqb _ _); [done|]. etrans; [exact Hs|apply still_emit_allow_cancel].
Qed.
Lemma still_set_speed_internal d v w : still w (set_speed_internal d v w).
Proof.
  revert w. induction d as [|d IH]; intros w; simpl; (destruct (chain w !! _); [|done]); (destruct (_ =? _)%Z; [done|]); [auto with progress|].
  etrans; [|apply IH]. auto with progress.
Qed.
Lemma still_set_speed d v w : still w (set_speed d v w).
Proof.
  unfold set_speed. destruct (chain w !! d); [|done]. etrans; [|apply still_set_speed_internal]. auto with progress.
Qed.
Lemma still_emit_action d a hint w : still w (emit_action d a hint w).
Proof.
  revert w. induction d as [|d IH]; intros w; simpl; [auto with progress|].
  etrans; [|apply IH]. etrans; [|apply still_on; by intros []]. auto with progress.
Qed.
Lemma still_action_start d a hint w : still w (fst (action_start d a hint w)).
Proof.
  unfold action_start. destruct (chain w !! d); [|done]. destruct (_ =? _)%Z; [done|]. destruct (_ && _); [done|].
  simpl. etrans; [|apply still_emit_action]. auto with progress.
Qed.
Lemma still_action_stop d w : still w (fst (action_stop d w)).
Proof.
  unfold action_stop. destruct (chain w !! d); [|done]. destruct (_ =? _)%Z; [done|].
  simpl. etrans; [|apply still_emit_action]. auto with progress.
Qed.
Lemma still_package_progress d package a p w : still w (set_package_progress d package a p w).
Proof.
  unfold set_package_progress. destruct (_ || _); [done|]. revert w.
  induction d as [|d IH]; intros w; simpl; [auto with progress|]. etrans; [|apply IH]. auto with progress.
Qed.
Lemma still_parent_percentage d p w : still w (fst (parent_percentage d p w)).
Proof.
  unfold parent_percentage. destruct (chain w !! d) as [n|]; [|done].
  destruct (steps (progress n) =? 1)%Z; [done|]. destruct (steps (progress n) =? 0)%Z; [done|]. destruct (steps (progress n) <=? _)%Z; [done|]. destruct (step_data _); [done|]. destruct (flt _ _); [done|]. simpl.
  destruct (p =? 100)%Z; [auto with progress|done].
Qed.

(** The states and percentages stay, locks may go. *)
Definition calm w w' : Prop :=
  progress <$> chain w' = progress <$> chain w /\ percents w' = percents w /\ cancellable w' = cancellable w.
#[global] Instance calm_refl : Reflexive calm.
Proof. done. Qed.
#[global] Instance calm_trans : Transitive calm.
Proof. intros x y z (A & B & C) (A' & B' & C'). unfold calm. by rewrite A', B', C'. Qed.
Lemma still_calm w w' : still w w' -> calm w w'.
Proof.
  intros (A & B & C & _). split; [|done]. apply (f_equal (fmap fst)) in A. rewrite <-!list_fmap_compose in A. exact A.
Qed.

Lemma release_list_progress ns l : progress <$> fst (fst (release_list ns l)) = progress <$> ns.
Proof.
  revert l. induction ns as [|n ns IH]; intros l; [done|]. simpl. specialize (IH l).
  destruct (release_list ns l) as [[ns' l'] ok]. simpl in IH. destruct (release_ids (lock_ids n) l') as [l'' ok'].
  csimpl. rewrite IH. by destruct ok'.
Qed.
Lemma calm_release_locks d w : calm w (fst (release_locks d w)).
Proof.
  unfold release_locks. pose proof (release_list_progress (drop d (chain w)) (locks w)) as Hp.
  destruct (release_list _ _) as [[ns l] ok]. split; [|done]. simpl in *.
  by rewrite fmap_app, Hp, <-fmap_app, take_drop.
Qed.
Lemma still_before_end d w (b : bool) (c : bool) :
  let w1 := if b then w else set_allow_cancel d true w in
  let w2 := if c then w1 else fst (action_stop d w1) in
  still w (set_speed_internal d 0 w2).
Proof.
  intros w1 w2. etrans; [|apply still_set_speed_internal]. unfold w2, w1.
  destruct b, c; eauto using still_refl, still_set_allow_cancel, still_action_stop, still_trans.
Qed.
Lemma calm_reach_end d w : calm w (fst (reach_end d w)).
Proof.
  unfold reach_end. destruct (chain w !! d) as [n|]; [|done].
  etrans; [|apply calm_release_locks]. apply still_calm, still_before_end.
Qed.

(** ** The percentages of the task *)

(** What the root has announced, oldest first, from zero on. *)
Definition root_of (x : nat * Z) : option Z := match x with (O, p) => Some p | _ => None end.
Definition announced w : list Z := 0%Z :: omap root_of (percents w).
Definition root_percentage w : option Z := (fun n => last_percentage (progress n)) <$> chain w !! 0.
(** The percentages grow, stay below 100, and the last one is that of the root. *)
Record rising w : Prop := {
  rising_sorted : StronglySorted Z.lt (announced w);
  rising_bound : Forall (fun p => p <= 100)%Z (announced w);
  rising_last : last (announced w) = root_percentage w;
}.

Lemma calm_rising w w' : calm w w' -> rising w -> rising w'.
Proof.
  intros (A & B & _) [H1 H2 H3]. unfold announced in *. split; unfold announced; rewrite ?B; [done|done|].
  rewrite H3. unfold root_percentage. apply (f_equal (lookup 0)) in A. rewrite !list_lookup_fmap in A.
  destruct (chain w !! 0), (chain w' !! 0); simpl in *; congruence.
Qed.
Lemma still_rising w w' : still w w' -> rising w -> rising w'.
Proof. intros Hs. by apply calm_rising, still_calm. Qed.

(** Steps and such of any state, and percentages of others than the root, do not matter. *)
Lemma rising_on w d f : (forall n, last_percentage (progress (f n)) = last_percentage (progress n)) -> rising w -> rising (on d f w).
Proof.
  intros Hf [H1 H2 H3]. split; [done..|]. etrans; [exact H3|]. unfold root_percentage. simpl.
  destruct (decide (d = 0)) as [->|Hd]; [rewrite list_lookup_alter_eq|by rewrite list_lookup_alter_ne].
  destruct (chain w !! 0); simpl; [by rewrite Hf|done].
Qed.
Lemma rising_above w d f s :
  match s with PercentageChanged d _ => d <> 0 | _ => True end -> d <> 0 -> rising w -> rising (emit s (on d f w)).
Proof.
  intros Hs Hd [H1 H2 H3].
  assert (E : announced (emit s (on d f w)) = announced w).
  { unfold announced, percents. simpl. rewrite omap_app. simpl. destruct s as [[|d'] p| | |]; try done; simpl; rewrite ?omap_app; simpl; by rewrite ?app_nil_r. }
  split; rewrite E; [done..|]. rewrite H3. unfold root_percentage. simpl. by rewrite list_lookup_alter_ne.
Qed.
(** The root announces more than the last time. *)
Lemma rising_emit w n p :
  rising w -> chain w !! 0 = Some n -> (last_percentage (progress n) < p <= 100)%Z ->
  rising (emit (PercentageChanged 0 p) (on 0 (set_progress (with_last p)) w)).
Proof.
  intros [H1 H2 H3] E Hp. unfold root_percentage in H3. rewrite E in H3. simpl in H3.
  assert (Ea : announced (emit (PercentageChanged 0 p) (on 0 (set_progress (with_last p)) w)) = announced w ++ [p]).
  { unfold announced, percents. simpl. rewrite omap_app. simpl. by rewrite omap_app. }
  split; rewrite Ea.
  - apply last_Some in H3 as [l Hl]. rewrite Hl in *. clear -H1 Hp. induction l as [|x l IH]; simpl in *.
    + repeat constructor. lia.
    + apply StronglySorted_inv in H1 as [H1 Hx]. constructor; [by apply IH|]. apply Forall_app. split; [done|].
      constructor; [|constructor]. apply Forall_app in Hx as [_ Hx]. inversion Hx; subst. lia.
  - apply Forall_app. split; [done|]. constructor; [lia|constructor].
  - rewrite last_snoc. unfold root_percentage. simpl. by rewrite list_lookup_alter_eq, E.
Qed.

Lemma calm_lookup w w' d n :
  calm w w' -> chain w !! d = Some n -> exists n', chain w' !! d = Some n' /\ progress n' = progress n.
Proof.
  intros (A & _) E. apply (f_equal (lookup d)) in A. rewrite !list_lookup_fmap, E in A.
  destruct (chain w' !! d) as [n'|]; [|done]. exists n'. split; [done|]. simpl in A. congruence.
Qed.

Lemma set_percentage_rising d p w : rising w -> rising (fst (set_percentage d p w)).
Proof.
  revert p w. induction d as [|d IH]; intros p w Hw; simpl; (destruct (chain w !! _) as [n|] eqn:E; [|done]);
    (destruct (negb (report_progress (progress n))); [done|]); (destruct (Z.eqb_spec p (last_percentage (progress n))) as [|Hne]; [done|]);
    (destruct (Z.ltb_spec 100 p) as [|H100]; [done|]); (destruct (Z.ltb_spec p (last_percentage (progress n))) as [|Hlt]; [done|]).
  - assert (Hc : calm w (fst (if (p =? 100)%Z then reach_end 0 w else (w, true)))) by (destruct (p =? 100)%Z; [apply calm_reach_end|done]).
    destruct (if (p =? 100)%Z then _ else _) as [w1 ok]. simpl in Hc. destruct ok; simpl; [|by apply (calm_rising w)].
    destruct (calm_lookup _ _ _ _ Hc E) as (n1 & E1 & Hn1). apply (rising_emit _ n1); [by apply (calm_rising w)|done|]. rewrite Hn1. lia.
  - assert (Hc : calm w (fst (if (p =? 100)%Z then reach_end (S d) w else (w, true)))) by (destruct (p =? 100)%Z; [apply calm_reach_end|done]).
    destruct (if (p =? 100)%Z then _ else _) as [w1 ok]. simpl in Hc. destruct ok; simpl; [|by apply (calm_rising w)].
    set (w2 := emit (PercentageChanged (S d) p) (on (S d) (set_progress (with_last p)) w1)).
    assert (Hw2 : rising w2) by (apply rising_above; [done|done|by apply (calm_rising w)]).
    pose proof (still_parent_percentage d p w2) as Hs. destruct (parent_percentage d p w2) as [w3 [pp|]]; simpl in *;
      [apply IH|]; by apply (still_rising w2).
Qed.

Lemma calm_unref_child d w : calm (set_chain (take (S d) (chain w)) w) (unref_child d w).
Proof. done. Qed.
Lemma rising_take d w : rising w -> rising (set_chain (take (S d) (chain w)) w).
Proof.
  intros [H1 H2 H3]. split; [done..|]. etrans; [exact H3|]. unfold root_percentage. simpl.
  by rewrite lookup_take_lt by lia.
Qed.
Lemma rising_unref d w : rising w -> rising (unref_child d w).
Proof. intros Hw. apply (calm_rising _ _ (calm_unref_child d w)). by apply rising_take. Qed.

Lemma reset_rising d w : rising w -> rising (fst (reset (S d) w)).
Proof.
  intros Hw. unfold reset. destruct (chain w !! S d) as [n|]; [|done]. destruct (negb _); [done|]. simpl fst.
  apply rising_on; [done|]. eapply calm_rising; [apply calm_release_locks|]. apply rising_unref.
  destruct Hw as [H1 H2 H3]. split; [done..|]. etrans; [exact H3|]. unfold root_percentage. simpl. by rewrite list_lookup_alter_ne.
Qed.
Lemma get_child_rising d w : rising w -> rising (fst (get_child d w)).
Proof.
  intros Hw. unfold get_child. destruct (chain w !! d) as [n|] eqn:E; [|done]. destruct (negb _); [done|]. simpl fst.
  assert (Hu : rising (on d (set_acts (fun x => mkActs (action_hint x) (action x) (last_action x) (action (acts n)))) (unref_child d w))).
  { apply rising_on; [done|]. by apply rising_unref. }
  destruct Hu as [H1 H2 H3]. split; [done..|]. etrans; [exact H3|]. unfold root_percentage. simpl. rewrite lookup_app_l; [done|].
  rewrite length_alter, length_take. apply lookup_lt_Some in E. lia.
Qed.
Lemma done_rising d w : rising w -> rising (fst (done d w)).
Proof.
  intros Hw. unfold done. destruct (chain w !! d) as [n|]; [|done]. repeat (case_match; [done|]).
  simpl fst. set (w1 := fst (set_percentage _ _ _)).
  assert (Hw1 : rising w1).
  { apply set_percentage_rising, rising_on; [done|]. eapply still_rising; [apply still_set_allow_cancel|done]. }
  destruct (decide _); [by apply reset_rising|done].
Qed.

Lemma rising_set_number_steps d k w : rising w -> rising (fst (set_number_steps d k w)).
Proof.
  intros Hw. unfold set_number_steps. destruct (chain w !! d) as [n|]; [|done]. repeat (case_match; [done|]). by apply rising_on.
Qed.
Lemma exec_rising o w : o <> Reset 0 -> rising w -> rising (exec o w).
Proof.
  intros Ho Hw. destruct o as [d k|d v vs|d|d|d p|d|d|d b|d b|b| |d a hint|d|d package a p|d v|d t m|d]; simpl.
  - by apply rising_set_number_steps.
  - unfold set_steps. destruct (chain w !! d); [|done]. repeat (case_match; [done|]).
    pose proof (rising_set_number_steps d (Z.of_nat (S (length vs))) w Hw) as Hn.
    destruct (set_number_steps _ _ _) as [w1 ok]. simpl in Hn. destruct ok; [by apply rising_on|done].
  - by apply done_rising.
  - unfold finished. destruct (chain w !! d); [|done]. repeat (case_match; [done|]). by apply set_percentage_rising, rising_on.
  - by apply set_percentage_rising.
  - by apply get_child_rising.
  - destruct d as [|d]; [done|by apply reset_rising].
  - by apply rising_on.
  - eapply still_rising; [apply still_set_allow_cancel|done].
  - unfold set_cancellable. by destruct (cancellable w), Hw.
  - by destruct Hw.
  - eapply still_rising; [apply still_action_start|done].
  - eapply still_rising; [apply still_action_stop|done].
  - eapply still_rising; [apply still_package_progress|done].
  - eapply still_rising; [apply still_set_speed|done].
  - unfold take_lock. destruct (lock_take t m (locks w)) as [l [i|]]; simpl; [apply rising_on; [done|]|]; by destruct Hw.
  - eapply calm_rising; [apply calm_release_locks|done].
Qed.

(** The percentage of a task only grows: whatever a program does with a task
    and its children - in any order, with wrong numbers of steps, with refused
    percentages, cancelled or with locks that cannot be released - short of
    resetting the task itself, what it announces is strictly increasing, never
    above 100, and the last announcement is what it answers. *)
Theorem percentages_rise l os :
  Reset 0 ∉ os ->
  let w := run os (start l) in
  let ps := omap root_of (percents w) in
  StronglySorted Z.lt (0%Z :: ps) /\ Forall (fun p => p <= 100)%Z ps
  /\ root_percentage w = Some (default 0%Z (last ps)).
Proof.
  intros Hos. assert (Hw : rising (run os (start l))).
  { assert (H0 : rising (start l)) by (split; repeat constructor; lia).
    unfold run. revert Hos H0. generalize (start l). induction os as [|o os IH]; intros w Hos Hw; [done|]. simpl.
    apply not_elem_of_cons in Hos as [Ho Hos]. apply IH; [done|]. by apply exec_rising. }
  destruct Hw as [H1 H2 H3]. unfold announced in *. split; [done|]. split; [by inversion H2|]. rewrite <-H3.
  destruct (omap root_of (percents (run os (start l)))) as [|p ps]; [done|]. rewrite last_cons_cons.
  destruct (last (p :: ps)) eqn:E; [done|]. by apply last_None in E.
Qed.
End frames.

(** ** Locks, and reaching the end *)

Section completion.
Context {L : Type} `{LockObjectLaws L}.
Implicit Types w : World (L := L).

(** The locks of the states are those that are held. *)
Definition held (rest : list Z) (ns : list Priv) (l : L) : Prop := lock_held (rest ++ concat (lock_ids <$> ns)) l.
Definition all_held w : Prop := held [] (chain w) (locks w).

Lemma release_ids_held rest ids l : lock_held (rest ++ ids) l -> exists l', release_ids ids l = (l', true) /\ lock_held rest l'.
Proof.
  revert l. induction ids as [|n ids IH]; intros l Hl; [rewrite app_nil_r in Hl; by exists l|]. simpl.
  destruct (lock_release_held (rest ++ ids) n l) as (l' & -> & Hl'); [|by apply IH].
  eapply lock_held_perm; [|exact Hl]. by rewrite Permutation_middle.
Qed.
Lemma release_list_held rest ns l :
  held rest ns l ->
  exists l', release_list ns l = (set_lock_ids [] <$> ns, l', true) /\ lock_held rest l'.
Proof.
  unfold held. revert rest l. induction ns as [|n ns IH]; intros rest l Hl; [rewrite app_nil_r in Hl; by exists l|]. csimpl in Hl.
  destruct (IH (rest ++ lock_ids n) l) as (l1 & E & Hl1); [by rewrite <-app_assoc|].
  destruct (release_ids_held rest (lock_ids n) l1 Hl1) as (l2 & E2 & Hl2).
  exists l2. simpl. by rewrite E, E2.
Qed.
Lemma concat_no_ids ns : concat (lock_ids <$> (set_lock_ids [] <$> ns)) = [].
Proof. induction ns as [|n ns IH]; [done|]. csimpl. exact IH. Qed.

Lemma release_locks_held d w :
  all_held w -> exists l,
  release_locks d w = (set_locks l (set_chain (take d (chain w) ++ (set_lock_ids [] <$> drop d (chain w))) w), true)
  /\ all_held (fst (release_locks d w)).
Proof.
  unfold all_held, held. intros Hw. unfold release_locks.
  destruct (release_list_held (concat (lock_ids <$> take d (chain w))) (drop d (chain w)) (locks w)) as (l & -> & Hl).
  { unfold held. by rewrite <-concat_app, <-fmap_app, take_drop. }
  exists l. split; [done|]. simpl. by rewrite fmap_app, concat_app, concat_no_ids, app_nil_r.
Qed.

Lemma finalize_none fuel ns (l : L) : lock_ids <$> ns = replicate (length ns) [] -> finalize_list fuel ns l = l.
Proof.
  revert ns. induction fuel as [|fuel IH]; intros ns Hns; [done|]. simpl.
  assert (Hr : release_list ns l = (ns, l, true)).
  { clear IH. induction ns as [|n ns IHn]; [done|]. csimpl in Hns. injection Hns as Hn Hns. simpl. rewrite IHn by done.
    rewrite Hn. simpl. destruct n; simpl in *; by subst. }
  rewrite Hr. destruct ns as [|n ns]; [done|]. csimpl in Hns. injection Hns as Hn Hns.
  destruct (report_progress (progress n)); [|done]. by rewrite IH, Hn.
Qed.
Lemma finalize_held fuel rest ns l : length ns <= fuel -> held rest ns l -> lock_held rest (finalize_list fuel ns l).
Proof.
  intros Hf Hl. destruct fuel as [|fuel].
  - destruct ns; [|simpl in Hf; lia]. unfold held in Hl. by rewrite app_nil_r in Hl.
  - destruct (release_list_held rest ns l Hl) as (l' & E & Hl'). simpl. rewrite E. destruct ns as [|n ns]; [done|]. csimpl.
    destruct (report_progress (progress n)); [|done]. rewrite finalize_none; [done|]. clear. rewrite length_fmap.
    induction ns as [|m ns IH]; [done|]. csimpl. by rewrite IH.
Qed.

Lemma still_held w w' : still w w' -> all_held w -> all_held w'.
Proof.
  intros (A & _ & _ & D). unfold all_held, held. rewrite D. apply (f_equal (fmap snd)) in A. rewrite <-!list_fmap_compose in A.
  change (snd ∘ frame) with lock_ids in A. by rewrite A.
Qed.
Lemma on_held d f w : (forall n, lock_ids (f n) = lock_ids n) -> all_held w -> all_held (on d f w).
Proof. intros Hf. unfold all_held, held. simpl. by rewrite alter_frame. Qed.

Lemma reach_end_held d w n :
  all_held w -> chain w !! d = Some n ->
  exists w' n', reach_end d w = (w', true) /\ all_held w' /\ chain w' !! d = Some n' /\ progress n' = progress n /\ lock_ids n' = [].
Proof.
  intros Hw E. pose proof (calm_reach_end d w) as Hc. unfold reach_end in *. rewrite E in *.
  pose proof (still_before_end d w (allow_cancel (cancel n)) (action (acts n) =? ACTION_UNKNOWN)%Z) as Hs.
  cbv zeta in Hs. set (w3 := set_speed_internal d 0 _) in *.
  assert (H3 : all_held w3) by (by apply (still_held w)).
  destruct (release_locks_held d w3 H3) as (l & Er & Hr). rewrite Er in *. simpl in *.
  destruct (calm_lookup _ _ _ _ Hc E) as (n' & E' & Hn'). eexists _, n'. split; [done|]. split; [done|]. split; [done|]. split; [done|].
  simpl in E'. destruct (calm_lookup _ _ _ _ (still_calm _ _ Hs) E) as (n3 & E3 & _).
  rewrite lookup_app_r in E' by (rewrite length_take; lia). rewrite length_take in E'.
  apply lookup_lt_Some in E3 as Hlt. replace (d - d `min` length (chain w3)) with 0 in E' by lia.
  rewrite list_lookup_fmap, lookup_drop, Nat.add_0_r, E3 in E'. simpl in E'. injection E' as <-. done.
Qed.

(** Locks stay those that are held, states without locks stay so, and the steps
    of the states from [k] on do not change. *)
Record tame (k : nat) w w' : Prop := {
  tame_held : all_held w -> all_held w';
  tame_cancel : cancellable w' = cancellable w;
  tame_empty i n : chain w !! i = Some n -> lock_ids n = [] -> exists n', chain w' !! i = Some n' /\ lock_ids n' = [];
  tame_steps i : k <= i -> progress <$> (chain w' !! i) = progress <$> (chain w !! i);
}.
Lemma tame_refl k w : tame k w w.
Proof. split; eauto. Qed.
Lemma tame_trans k k' w w1 w2 : tame k w w1 -> tame k' w1 w2 -> tame (k `max` k') w w2.
Proof.
  intros [A1 B1 C1 D1] [A2 B2 C2 D2]. split; [auto|congruence| |].
  - intros i n E Hn. destruct (C1 i n E Hn) as (n1 & E1 & Hn1). by apply (C2 i n1).
  - intros i Hi. by rewrite D2, D1 by lia.
Qed.
Lemma still_tame w w' : still w w' -> tame 0 w w'.
Proof.
  intros Hs. pose proof Hs as (A & _ & C & _). split; [by apply still_held|done| |].
  - intros i n E Hn. apply (f_equal (lookup i)) in A. rewrite !list_lookup_fmap, E in A.
    destruct (chain w' !! i) as [n'|]; [|done]. exists n'. split; [done|]. simpl in A. unfold frame in A. injection A as A1 A2. by rewrite A2.
  - intros i _. apply (f_equal (lookup i)) in A. rewrite !list_lookup_fmap in A.
    destruct (chain w' !! i), (chain w !! i); simpl in *; unfold frame in *; congruence.
Qed.
Lemma on_tame d f w : (forall n, lock_ids (f n) = lock_ids n) -> tame (S d) w (on d f w).
Proof.
  intros Hf. split; [by apply on_held|done| |].
  - intros i n E Hn. simpl. destruct (decide (d = i)) as [->|Hi].
    + rewrite list_lookup_alter_eq, E. exists (f n). by rewrite Hf.
    + rewrite list_lookup_alter_ne by done. eauto.
  - intros i Hi. simpl. by rewrite list_lookup_alter_ne by lia.
Qed.
Lemma reach_end_tame d w n : all_held w -> chain w !! d = Some n -> tame 0 w (fst (reach_end d w)).
Proof.
  intros Hw E. pose proof (calm_reach_end d w) as (A & _ & C). destruct (reach_end_held d w n Hw E) as (w' & n' & Er & Hw' & _).
  split; [by rewrite Er|done| |].
  - intros i m Em Hm. pose proof (still_before_end d w (allow_cancel (cancel n)) (action (acts n) =? ACTION_UNKNOWN)%Z) as Hs.
    unfold reach_end. rewrite E. cbv zeta in Hs. set (w3 := set_speed_internal d 0 _) in *.
    destruct (tame_empty _ _ _ (still_tame _ _ Hs) i m Em Hm) as (m3 & E3 & Hm3).
    destruct (release_locks_held d w3 (still_held _ _ Hs Hw)) as (l & -> & _). simpl.
    destruct (decide (i < d)) as [Hi|Hi].
    + rewrite lookup_app_l by (rewrite length_take; apply lookup_lt_Some in E3; lia). rewrite lookup_take_lt by done. eauto.
    + apply lookup_lt_Some in E3 as Hlt. rewrite lookup_app_r by (rewrite length_take; lia). rewrite length_take.
      rewrite list_lookup_fmap, lookup_drop. replace (d + (i - d `min` length (chain w3))) with i by lia. rewrite E3. simpl. eauto.
  - intros i _. apply (f_equal (lookup i)) in A. rewrite !list_lookup_fmap in A. exact A.
Qed.
Lemma emit_tame s w : tame 0 w (emit s w).
Proof. split; eauto. Qed.

Lemma set_percentage_tame d p w : all_held w -> tame (S d) w (fst (set_percentage d p w)).
Proof.
  revert p w. induction d as [|d IH]; intros p w Hw; simpl; (destruct (chain w !! _) as [n|] eqn:E; [|apply tame_refl]);
    (destruct (negb _); [apply tame_refl|]); (destruct (p =? last_percentage _)%Z; [apply tame_refl|]);
    (destruct (100 <? p)%Z; [apply tame_refl|]); (destruct (p <? last_percentage _)%Z; [apply tame_refl|]).
  - assert (Hc : tame 0 w (fst (if (p =? 100)%Z then reach_end 0 w else (w, true)))) by (destruct (p =? 100)%Z; [by eapply reach_end_tame|apply tame_refl]).
    destruct (if (p =? 100)%Z then _ else _) as [w1 ok]. simpl in Hc. destruct ok; simpl; [|by apply (tame_trans 0 1 _ w1), tame_refl].
    apply (tame_trans 0 1 _ w1); [done|]. apply (tame_trans 1 0 _ (on 0 (set_progress (with_last p)) w1)); [by apply on_tame|apply emit_tame].
  - assert (Hc : tame 0 w (fst (if (p =? 100)%Z then reach_end (S d) w else (w, true)))) by (destruct (p =? 100)%Z; [by eapply reach_end_tame|apply tame_refl]).
    destruct (if (p =? 100)%Z then _ else _) as [w1 ok]. simpl in Hc. destruct ok; simpl; [|by apply (tame_trans 0 (S (S d)) _ w1), tame_refl].
    set (w2 := emit (PercentageChanged (S d) p) (on (S d) (set_progress (with_last p)) w1)).
    assert (H2 : tame (S (S d)) w w2).
    { apply (tame_trans 0 (S (S d)) _ w1); [done|]. apply (tame_trans (S (S d)) 0 _ (on (S d) (set_progress (with_last p)) w1)); [by apply on_tame|apply emit_tame]. }
    pose proof (still_tame _ _ (still_parent_percentage d p w2)) as Hp.
    pose proof (tame_trans _ _ _ _ _ H2 Hp) as H3.
    destruct (parent_percentage d p w2) as [w3 [pp|]]; simpl in *; [|done].
    pose proof (tame_trans _ _ _ _ _ H3 (IH pp w3 (tame_held _ _ _ H3 Hw))) as H4.
    refine (eq_rect _ (fun k => tame k _ _) H4 _ _). lia.
Qed.

(** The state itself takes a larger percentage, and is rid of its locks at 100. *)
Lemma set_percentage_own d p w n :
  all_held w -> chain w !! d = Some n -> report_progress (progress n) = true ->
  exists n', chain (fst (set_percentage d p w)) !! d = Some n'
  /\ progress n' = (if (last_percentage (progress n) <? p)%Z && (p <=? 100)%Z then with_last p (progress n) else progress n)
  /\ (p = 100%Z -> (last_percentage (progress n) < 100)%Z -> lock_ids n' = []).
Proof.
  intros Hw E Hrep.
  assert (Hsame : forall w', w' = w -> ((last_percentage (progress n) <? p)%Z && (p <=? 100)%Z = false) ->
    exists n', chain w' !! d = Some n' /\ progress n' = (if (last_percentage (progress n) <? p)%Z && (p <=? 100)%Z then with_last p (progress n) else progress n)
    /\ (p = 100%Z -> (last_percentage (progress n) < 100)%Z -> lock_ids n' = [])).
  { intros w' -> Hf. exists n. rewrite Hf. split_and!; [done..|]. intros -> Hl. apply Z.ltb_lt in Hl. by rewrite Hl in Hf. }
  assert (Hstep : (last_percentage (progress n) < p <= 100)%Z ->
    exists w1 n1, (if (p =? 100)%Z then reach_end d w else (w, true)) = (w1, true) /\ all_held w1 /\ chain w1 !! d = Some n1
    /\ progress n1 = progress n /\ (p = 100%Z -> lock_ids n1 = [])).
  { intros Hp. destruct (Z.eqb_spec p 100) as [->|Hne]; [|exists w, n; done].
    destruct (reach_end_held d w n Hw E) as (w1 & n1 & H1 & H2 & H3 & H4 & H5). by exists w1, n1. }
  destruct d as [|d]; simpl; rewrite E, Hrep; simpl;
    (destruct (Z.eqb_spec p (last_percentage (progress n))) as [Heq|Hne]; [apply Hsame; [done|]; rewrite (proj2 (Z.ltb_ge _ _)) by lia; done|]);
    (destruct (Z.ltb_spec 100 p) as [|H100]; [apply Hsame; [done|]; rewrite (proj2 (Z.leb_gt _ _)) by lia; by rewrite andb_false_r|]);
    (destruct (Z.ltb_spec p (last_percentage (progress n))) as [|Hlt]; [apply Hsame; [done|]; rewrite (proj2 (Z.ltb_ge _ _)) by lia; done|]);
    destruct Hstep as (w1 & n1 & -> & Hw1 & E1 & Hn1 & Hids); [lia| |lia|]; simpl;
    rewrite (proj2 (Z.ltb_lt _ _)), (proj2 (Z.leb_le _ _)) by lia; simpl.
  - exists (set_progress (with_last p) n1). rewrite list_lookup_alter_eq, E1. split_and!; [done|simpl; by rewrite Hn1|intros Hp _; by apply Hids].
  - set (w2 := emit (PercentageChanged (S d) p) (on (S d) (set_progress (with_last p)) w1)).
    assert (E2 : chain w2 !! S d = Some (set_progress (with_last p) n1)) by (simpl; by rewrite list_lookup_alter_eq, E1).
    assert (H2 : all_held w2) by (by apply (on_held (S d) _ w1)).
    pose proof (still_tame _ _ (still_parent_percentage d p w2)) as Hp.
    assert (Ht : tame (S d) w2 (fst (match parent_percentage d p w2 with (w, Some pp) => (fst (set_percentage d pp w), true) | (w, None) => (w, true) end))).
    { destruct (parent_percentage d p w2) as [w3 [pp|]]; simpl in *; [|by apply (tame_trans 0 (S d) _ w3), tame_refl].
      apply (tame_trans 0 (S d) _ w3); [done|]. apply set_percentage_tame. by apply (tame_held _ _ _ Hp). }
    pose proof (tame_steps _ _ _ Ht (S d) (Nat.le_refl _)) as Hst. rewrite E2 in Hst.
    apply fmap_Some in Hst as (n' & E' & Hn'). exists n'. split; [exact E'|]. split; [rewrite <-Hn'; simpl; by rewrite Hn1|].
    intros Hp100 _. destruct (tame_empty _ _ _ Ht (S d) _ E2) as (n'' & E'' & Hn''); [simpl; by apply Hids|].
    rewrite E' in E''. by injection E'' as ->.
Qed.

Lemma unref_held d w : all_held w -> all_held (unref_child d w).
Proof.
  intros Hw. unfold unref_child, all_held, held. simpl. apply finalize_held; [done|]. unfold held.
  by rewrite <-concat_app, <-fmap_app, take_drop.
Qed.
Lemma reset_tame d w : all_held w ->
  all_held (fst (reset (S d) w)) /\ cancellable (fst (reset (S d) w)) = cancellable w
  /\ forall i, i <= d -> chain (fst (reset (S d) w)) !! i = chain w !! i.
Proof.
  intros Hw. unfold reset. destruct (chain w !! S d) as [n|] eqn:E; [|done]. destruct (negb _); [done|]. cbn [fst].
  set (w1 := on (S d) (set_progress _) w). assert (H1 : all_held (unref_child (S d) w1)) by (by apply unref_held, on_held).
  destruct (release_locks_held (S d) (unref_child (S d) w1) H1) as (l & Er & Hr). rewrite Er in *. cbn [fst] in *.
  split; [by apply on_held|]. split; [done|]. intros i Hi. simpl. rewrite list_lookup_alter_ne by lia.
  apply lookup_lt_Some in E.
  rewrite lookup_app_l by (rewrite !length_take, length_alter; lia). rewrite !lookup_take_lt by lia. by rewrite list_lookup_alter_ne by lia.
Qed.

(** ** A task that is done step by step *)

(** The last step is worth 100%: a hundredth of the number of steps, taken that
    many times in floating point, is 100 for every number of steps. *)
Lemma all_steps_hundred k : (0 < k < 2 ^ 32)%Z -> to_guint (discrete_to_percent k k) = 100%Z.
Proof.
  intros Hk. unfold discrete_to_percent. rewrite (proj2 (Z.ltb_ge _ _)), (proj2 (Z.eqb_neq _ _)) by lia.
  destruct (Floats.hundredth_times k Hk) as (m & -> & Hm). unfold to_guint. by rewrite Floats.cast_near_hundred.
Qed.

(** The steps lead to the end. *)
Definition reaches (s : Steps) : Prop :=
  match step_data s with
  | None => (0 < steps s < 2 ^ 32)%Z
  | Some data => data !! Z.to_nat (steps s - 1) = Some 100%Z
  end.
Lemma reaches_hundred s : reaches s -> done_percentage s (steps s) = 100%Z.
Proof.
  unfold reaches, done_percentage. destruct (step_data s) as [data|]; [intros ->; vm_compute; reflexivity|apply all_steps_hundred].
Qed.

Lemma done_own d w n :
  all_held w -> chain w !! d = Some n -> report_progress (progress n) = true -> check w = true ->
  (0 <= current (progress n) < steps (progress n))%Z ->
  exists w' n', done d w = (w', Ok tt) /\ all_held w' /\ cancellable w' = cancellable w /\ chain w' !! d = Some n'
  /\ (let s := with_current (current (progress n) + 1) (progress n) in
      let p := done_percentage (progress n) (current (progress n) + 1) in
      progress n' = (if (last_percentage s <? p)%Z && (p <=? 100)%Z then with_last p s else s)
      /\ (p = 100%Z -> (last_percentage s < 100)%Z -> lock_ids n' = []) /\ (lock_ids n = [] -> lock_ids n' = [])).
Proof.
  intros Hw E Hrep Hc Hcur. unfold done. rewrite E, Hc, Hrep. cbn [negb].
  rewrite (proj2 (Z.eqb_neq _ _)), (proj2 (Z.leb_gt _ _)) by lia. cbv zeta.
  set (c := (current (progress n) + 1)%Z). set (p := done_percentage (progress n) c).
  pose proof (still_set_allow_cancel d true w) as Hs. destruct (calm_lookup _ _ _ _ (still_calm _ _ Hs) E) as (n1 & E1 & Hn1).
  set (w2 := on d (set_progress (with_current c)) (set_allow_cancel d true w)).
  assert (E2 : chain w2 !! d = Some (set_progress (with_current c) n1)) by (simpl; by rewrite list_lookup_alter_eq, E1).
  assert (H2 : all_held w2) by (by apply on_held, (still_held w)).
  assert (Hids1 : lock_ids n = [] -> lock_ids n1 = []).
  { intros Hn. destruct (tame_empty _ _ _ (still_tame _ _ Hs) d n E Hn) as (n1' & E1' & H1'). rewrite E1 in E1'. by injection E1' as ->. }
  pose proof (set_percentage_tame d p w2 H2) as Ht.
  destruct (set_percentage_own d p w2 _ H2 E2) as (n3 & E3 & Hn3 & Hids3); [simpl; by rewrite Hn1|].
  set (w3 := fst (set_percentage d p w2)) in *. assert (H3 : all_held w3) by (by apply (tame_held _ _ _ Ht)).
  assert (Hc3 : cancellable w3 = cancellable w) by (rewrite (tame_cancel _ _ _ Ht); simpl; apply Hs).
  simpl in Hn3, Hids3. rewrite Hn1 in Hn3, Hids3.
  assert (Hempty : lock_ids n = [] -> lock_ids n3 = []).
  { intros Hn. destruct (tame_empty _ _ _ Ht d _ E2) as (n3' & E3' & H3'); [simpl; by apply Hids1|].
    rewrite E3 in E3'. by injection E3' as ->. }
  destruct (reset_tame d w3 H3) as (Hr1 & Hr2 & Hr3). destruct (decide (is_Some (chain w3 !! S d))) as [Hi|Hi].
  - exists (fst (reset (S d) w3)), n3. split_and!; [done|done|congruence|by rewrite Hr3|done..].
  - by exists w3, n3.
Qed.

Fixpoint done_times (k : nat) (d : nat) w : World (L := L) :=
  match k with O => w | S k => done_times k d (fst (done d w)) end.

(** C13. A task that is carried out reaches its end: a state with any number of
    steps - equal ones or with weights that sum up to 100 - that is not
    cancelled and reports, and for which [done] is called for each step that is
    left, is at 100% with all steps done and all its locks released, wherever it
    is in the chain and whatever its children and parents are doing. *)
Theorem task_completes d w n k :
  all_held w -> chain w !! d = Some n -> report_progress (progress n) = true -> check w = true ->
  reaches (progress n) -> (0 <= current (progress n))%Z -> steps (progress n) = (current (progress n) + Z.of_nat (S k))%Z ->
  (last_percentage (progress n) < 100)%Z ->
  exists n', chain (done_times (S k) d w) !! d = Some n' /\ current (progress n') = steps (progress n)
  /\ last_percentage (progress n') = 100%Z /\ lock_ids n' = [] /\ all_held (done_times (S k) d w).
Proof.
  intros Hw E Hrep Hc Hre Hcur Hst Hlast.
  assert (Hinv : (last_percentage (progress n) <= 100)%Z /\ (last_percentage (progress n) = 100%Z -> lock_ids n = [])) by (split; lia).
  clear Hlast. revert w n Hw E Hrep Hc Hre Hcur Hst Hinv. induction k as [|k IH]; intros w n Hw E Hrep Hc Hre Hcur Hst [Hle Hids];
    (destruct (done_own d w n Hw E Hrep Hc) as (w' & n' & Ed & Hw' & Hcan & E' & Hn' & Hi1 & Hi2); [lia|]); cbn [done_times] in *; rewrite Ed; cbn [fst].
  - exists n'. simpl in Hn', Hi1. replace (current (progress n) + 1)%Z with (steps (progress n)) in * by lia.
    rewrite (reaches_hundred _ Hre) in Hn', Hi1.
    destruct (Z.ltb_spec (last_percentage (progress n)) 100) as [Hlt|Hge]; simpl in Hn'; rewrite Hn'; simpl.
    + split_and!; [done..|by apply Hi1|done].
    + split_and!; [done..|lia|by apply Hi2, Hids; lia|done].
  - assert (Hs : steps (progress n') = steps (progress n) /\ report_progress (progress n') = true /\ step_data (progress n') = step_data (progress n)
      /\ current (progress n') = (current (progress n) + 1)%Z).
    { rewrite Hn'. simpl. destruct (_ && _); simpl; done. }
    destruct Hs as (Hs1 & Hs2 & Hs3 & Hs4).
    destruct (IH w' n') as (m & M1 & M2 & M3); [done|done|done| | |lia|lia| |].
    + unfold check in *. by rewrite Hcan.
    + unfold reaches in *. by rewrite Hs3, Hs1.
    + simpl in Hn', Hi1. destruct ((last_percentage (progress n) <? _)%Z && _) eqn:Eb; rewrite Hn'; simpl.
      * apply andb_true_iff in Eb as [Eb1%Z.ltb_lt Eb2%Z.leb_le]. split; [done|]. intros Hp. apply Hi1; [done|lia].
      * split; [done|]. intros Hp. by apply Hi2, Hids.
    + exists m. by rewrite M2, Hs1.
Qed.

Lemma take_lock_held d t m w :
  all_held w -> lock_room (locks w) -> d < length (chain w) -> all_held (fst (take_lock d t m w)).
Proof.
  unfold all_held, held. intros Hw Hr Hd. unfold take_lock. destruct (lock_take t m (locks w)) as [l [n|]] eqn:E; simpl.
  - apply (lock_take_held _ _ _ _ _ _ Hw Hr) in E. eapply lock_held_perm; [|exact E].
    destruct (lookup_lt_is_Some_2 (chain w) d Hd) as [x Hx].
    rewrite <-(take_drop_middle _ _ _ Hx). rewrite alter_app_r_alt by (rewrite length_take; lia).
    rewrite length_take. replace (d - d `min` length (chain w)) with 0 by lia. simpl. rewrite !fmap_app, !concat_app. csimpl.
    rewrite <-!app_assoc. simpl. rewrite !Permutation_middle. done.
  - by apply (lock_take_none _ _ _ _ _ Hw) in E.
Qed.
End completion.

(** ** Weights *)

Section weights.
Context {L : Type} `{LockObject L}.
Implicit Types w : World (L := L).
Local Open Scope Z_scope.

Definition zsum (vs : list Z) : Z := foldr Z.add 0 vs.
Lemma zsum_nonneg vs : Forall (fun v => 0 <= v) vs -> 0 <= zsum vs.
Proof. unfold zsum. induction 1; simpl; lia. Qed.
Lemma zsum_take_le vs i j : Forall (fun v => 0 <= v) vs -> (i <= j)%nat -> zsum (take i vs) <= zsum (take j vs).
Proof.
  intros Hv. revert i j. induction Hv as [|v vs Hv Hvs IH]; intros [|i] [|j] Hij; simpl; try lia.
  - pose proof (zsum_nonneg (take j vs) (Forall_take _ _ _ Hvs)). unfold zsum in *. lia.
  - pose proof (IH i j ltac:(lia)). unfold zsum in *. lia.
Qed.

(** Without overflow the data are the sums of the first weights. *)
Lemma cumulate_lookup t vs i :
  Forall (fun v => 0 <= v) vs -> 0 <= t -> t + zsum vs < 2 ^ 32 -> (i < length vs)%nat ->
  cumulate t vs !! i = Some (t + zsum (take (S i) vs)).
Proof.
  intros Hv. revert t i. induction Hv as [|v vs Hv Hvs IH]; intros t i Ht Hs Hi; simpl in *; [lia|].
  pose proof (zsum_nonneg vs Hvs) as Hn. unfold zsum in Hs, Hn. simpl in Hs. rewrite wrap_small by lia.
  destruct i as [|i]; simpl; [f_equal; unfold zsum; destruct vs; simpl; lia|].
  rewrite IH by (unfold zsum; lia). f_equal. unfold zsum. simpl. lia.
Qed.

(** With weights, the progress of a child moves its parent between the
    percentages of the steps around it: what the parent is set to when the child
    is at [p] is at least the weight of the steps that are done and at most that
    with the step under way, reaches both ends, grows with [p], and no product
    overflows. *)
Theorem child_progress_bounds d p w n vs :
  chain w !! d = Some n -> step_data (progress n) = Some (cumulate 0 vs) -> steps (progress n) = Z.of_nat (length vs) ->
  (2 <= length vs)%nat -> Forall (fun v => 0 <= v) vs -> zsum vs = 100 ->
  0 <= current (progress n) < steps (progress n) -> 0 <= p <= 100 ->
  let below := zsum (take (Z.to_nat (current (progress n))) vs) in
  let above := zsum (take (S (Z.to_nat (current (progress n)))) vs) in
  exists pp, parent_percentage d p w = (w, Some pp) /\ below <= pp <= above
  /\ (p = 0 -> pp = below) /\ (p = 100 -> pp = above)
  /\ forall p' pp', p <= p' <= 100 -> parent_percentage d p' w = (w, Some pp') -> pp <= pp'.
Proof.
  intros E Hd Hst Hlen Hv Hsum Hc Hp below above.
  assert (Hb : 0 <= below) by (apply zsum_nonneg, Forall_take, Hv).
  assert (Hba : below <= above) by (apply zsum_take_le; [done|lia]).
  assert (Ha : above <= 100).
  { rewrite <-Hsum. unfold above. rewrite <-(take_ge vs (length vs)) at 2 by lia. apply zsum_take_le; [done|lia]. }
  assert (Hpp : forall q, 0 <= q <= 100 -> parent_percentage d q w = (w, Some (((100 - q) * below + q * above) / 100))).
  { intros q Hq. unfold parent_percentage. rewrite E, Hd, Hst. rewrite (proj2 (Z.eqb_neq _ 1)), (proj2 (Z.eqb_neq _ 0)), (proj2 (Z.leb_gt _ _)) by lia.
    assert (Hup : default 0 (cumulate 0 vs !! Z.to_nat (current (progress n))) = above).
    { rewrite cumulate_lookup by (done || lia). unfold above. simpl. lia. }
    destruct (Z.eqb_spec (current (progress n)) 0) as [Hz|Hz].
    - rewrite Hz in Hup. change (Z.to_nat 0) with 0%nat in *. rewrite Hup.
      assert (below = 0) as -> by (unfold below; rewrite Hz; done). rewrite wrap_small by nia. do 2 f_equal. f_equal. lia.
    - rewrite Hup. assert (Hlow : default 0 (cumulate 0 vs !! Z.to_nat (current (progress n) - 1)) = below).
      { rewrite cumulate_lookup by (done || lia). unfold below. simpl. replace (S (Z.to_nat (current (progress n) - 1))) with (Z.to_nat (current (progress n))) by lia. lia. }
      rewrite Hlow, (wrap_small 32 (100 - q)) by lia. rewrite !wrap_small by (try rewrite !wrap_small; nia). done. }
  exists (((100 - p) * below + p * above) / 100). split; [by apply Hpp|]. split; [|split; [|split]].
  - split; [apply Z.div_le_lower_bound; nia|apply Z.div_le_upper_bound; nia].
  - intros ->. symmetry. apply (Z.div_unique_exact _ 100); lia.
  - intros ->. symmetry. apply (Z.div_unique_exact _ 100); lia.
  - intros p' pp' Hp'. rewrite Hpp by lia. intros [= <-]. apply Z.div_le_mono; nia.
Qed.
End weights.

(** ** The lock object of a thread *)

Section lock_object.
Context (running : Z -> bool) (pid self : Z).
Import Lock.

Definition thread_locks : LockObject (LockState * gmap cstr cstr) := {|
  lock_take t m x :=
    match take running pid self true t m (fst x) (snd x) with
    | (s, files, Ok n) => ((s, files), Some n) | (s, files, Err _) => ((s, files), None) end;
  lock_release n x :=
    match release self true n (fst x) (snd x) with
    | (s, files, Ok _) => ((s, files), true) | (s, files, Err _) => ((s, files), false) end |}.

(** Every item belongs to the thread, counts the numbers that were given and has its file. *)
Definition item_held (ids : list Z) (s : LockState) (files : gmap cstr cstr) (i : LockItem) : Prop :=
  owner i = self /\ refcount i = Z.of_nat (count_occ Z.eq_dec ids (id i)) /\ (0 < refcount i < 2 ^ 32)%Z
  /\ (mode i = PROCESS -> is_Some (files !! get_filename_for_type (lock_dir s) (type i))).
Definition thread_held (ids : list Z) (x : LockState * gmap cstr cstr) : Prop :=
  wf (fst x) /\ Forall (item_held ids (fst x) (snd x)) (item_array (fst x)) /\ Forall (fun n => n ∈ id <$> item_array (fst x)) ids.
Definition thread_room (x : LockState * gmap cstr cstr) : Prop :=
  spare (fst x) /\ Forall (fun i => refcount i < 2 ^ 32 - 1)%Z (item_array (fst x)).

Lemma count_other ids n m : n <> m -> count_occ Z.eq_dec (n :: ids) m = count_occ Z.eq_dec ids m.
Proof. intros Hn. simpl. by destruct (Z.eq_dec n m). Qed.
Lemma count_same ids n : count_occ Z.eq_dec (n :: ids) n = S (count_occ Z.eq_dec ids n).
Proof. simpl. by destruct (Z.eq_dec n n). Qed.
Lemma item_held_other ids n s files i : id i <> n -> item_held (n :: ids) s files i <-> item_held ids s files i.
Proof. intros Hn. unfold item_held. by rewrite count_other by congruence. Qed.

(** The last number of an item is released: the item goes, with its file. *)
Lemma thread_held_remove ids s files i :
  wf s -> i ∈ item_array s -> Forall (item_held (id i :: ids) s files) (item_array s) -> count_occ Z.eq_dec ids (id i) = 0 ->
  Forall (fun n => n ∈ id <$> item_array s) ids ->
  let items := remove (id i) (replace (id i) (with_refcount 0 i) (item_array s)) in
  let fs := if bool_decide (mode i = PROCESS) then delete (get_filename_for_type (lock_dir s) (type i)) files else files in
  Forall (item_held ids s fs) items /\ Forall (fun n => n ∈ id <$> items) ids.
Proof.
  intros Hw Hin Hi Hcount Hids items fs.
  assert (Hnd : NoDup (id <$> replace (id i) (with_refcount 0 i) (item_array s))).
  { apply (wf_ids _ (wf_replace (id i) 0 i s Hw (by_id_elem _ i (wf_ids _ Hw) Hin))). }
  split; apply Forall_forall.
  - intros j Hj. apply remove_elem in Hj as [Hj Hne]; [|done]. apply replace_elem in Hj as [->|Hj]; [done|].
    pose proof (proj1 (Forall_forall _ _) Hi j Hj) as Hh. apply item_held_other in Hh; [|done].
    destruct Hh as (H1 & H2 & [H3 H3'] & H4). split_and!; [done..|]. intros Hm. unfold fs. case_bool_decide as Hp; [|by apply H4].
    rewrite lookup_delete_ne; [by apply H4|]. intros Heq%filename_inj. apply Hne. f_equal. apply (kinds_unique s); [done..|].
    unfold kind. congruence.
  - intros m Hm. pose proof (proj1 (Forall_forall _ _) Hids m Hm) as Hx. simpl in Hx. apply list_elem_of_fmap in Hx as (j & -> & Hj).
    apply list_elem_of_fmap_2. assert (Hne : id j <> id i).
    { intros Heq. apply (count_occ_not_In Z.eq_dec) in Hcount. apply Hcount. rewrite <-Heq. by apply list_elem_of_In. }
    by apply remove_other, Hne; apply replace_other.
Qed.
(** One number of several is given or released: the item counts. *)
Lemma thread_held_replace ids ids' s files i r :
  wf s -> i ∈ item_array s -> Forall (item_held ids s files) (item_array s) ->
  (forall n, n <> id i -> count_occ Z.eq_dec ids' n = count_occ Z.eq_dec ids n) ->
  r = Z.of_nat (count_occ Z.eq_dec ids' (id i)) -> (0 < r < 2 ^ 32)%Z ->
  Forall (fun n => n ∈ id <$> item_array s) ids' ->
  let items := replace (id i) (with_refcount r i) (item_array s) in
  Forall (item_held ids' s files) items /\ Forall (fun n => n ∈ id <$> items) ids'.
Proof.
  intros Hw Hin Hi Hother Hr Hb Hids items. pose proof (by_id_elem _ i (wf_ids _ Hw) Hin) as Ei. split; apply Forall_forall.
  - intros j Hj. destruct (decide (id j = id i)) as [Heq|Hne].
    + assert (j = with_refcount r i) as ->.
      { pose proof (wf_ids _ (wf_replace (id i) r i s Hw Ei)) as Hnd. simpl in Hnd.
        pose proof (by_id_elem _ j Hnd Hj) as E1. rewrite Heq, by_id_replace in E1 by eauto. by injection E1. }
      pose proof (proj1 (Forall_forall _ _) Hi i Hin) as (H1 & H2 & H3 & H4). destruct Hb. by split_and!.
    + apply replace_elem in Hj as [->|Hj]; [done|]. pose proof (proj1 (Forall_forall _ _) Hi j Hj) as (H1 & H2 & H3 & H4).
      split_and!; [done| |lia..|done]. rewrite H2. by rewrite Hother.
  - intros m Hm. unfold items. rewrite (replace_map id); [by apply (proj1 (Forall_forall _ _) Hids)|].
    intros j Hj. rewrite Ei in Hj. by injection Hj as <-.
Qed.

Lemma thread_release_held ids n x :
  thread_held (n :: ids) x -> exists x', @lock_release _ thread_locks n x = (x', true) /\ thread_held ids x'.
Proof.
  destruct x as [s files]. intros (Hw & Hi & Hids). simpl in *. apply Forall_cons in Hids as [Hn Hids].
  apply list_elem_of_fmap in Hn as (i & -> & Hin). pose proof (by_id_elem _ i (wf_ids _ Hw) Hin) as Ei.
  pose proof (proj1 (Forall_forall _ _) Hi i Hin) as (Ho & Hrc & Hrb & Hf). rewrite count_same in Hrc.
  pose proof (proj1 (Forall_forall _ _) (wf_below s Hw) i Hin) as Hpos. simpl in Hpos.
  pose proof (release_wf self true (id i) s files Hw) as [Hrw _]. unfold release in *. rewrite decide_False in * by lia. rewrite Ei in *.
  rewrite decide_False in * by (by intros ?). cbn [refcount with_refcount mode type lock_dir set_items item_array] in *.
  rewrite wrap_small in * by lia. replace (refcount i - 1)%Z with (Z.of_nat (count_occ Z.eq_dec ids (id i))) in * by lia.
  destruct (count_occ Z.eq_dec ids (id i)) as [|k] eqn:Ec.
  - rewrite (bool_decide_eq_true_2 (Z.of_nat 0 = 0%Z)) in * by done. cbn [andb] in *.
    destruct (thread_held_remove ids s files i Hw Hin Hi Ec Hids) as [R1 R2].
    assert (Hg : bool_decide (mode i = PROCESS) && negb (bool_decide (is_Some (files !! get_filename_for_type (lock_dir s) (type i)))) = false).
    { case_bool_decide as Hp; [|done]. simpl. rewrite bool_decide_eq_true_2; [done|]. by apply Hf. }
    rewrite Hg in *. eexists. split; [done|]. by split_and!.
  - rewrite (bool_decide_eq_false_2 (Z.of_nat (S k) = 0%Z)) in * by lia. cbn [andb] in *.
    destruct (thread_held_replace (id i :: ids) ids s files i (Z.of_nat (S k)) Hw Hin Hi) as [R1 R2];
      [by intros m Hm; rewrite count_other|by rewrite Ec|lia|done|].
    eexists. split; [done|]. by split_and!.
Qed.

Lemma thread_held_new ids s files files' t m :
  wf s -> Forall (item_held ids s files) (item_array s) -> Forall (fun n => n ∈ id <$> item_array s) ids ->
  (forall k, is_Some (files !! k) -> is_Some (files' !! k)) ->
  (m = PROCESS -> is_Some (files' !! get_filename_for_type (lock_dir s) t)) ->
  let items := item_array s ++ [mkItem self (next_id s) 1 m t] in
  Forall (item_held (next_id s :: ids) s files') items /\ Forall (fun n => n ∈ id <$> items) (next_id s :: ids).
Proof.
  intros Hw Hi Hids Hmono Hnew items. pose proof (next_fresh s Hw) as Hfresh.
  assert (Hc : count_occ Z.eq_dec ids (next_id s) = 0).
  { apply count_occ_not_In. intros Hin%list_elem_of_In. by apply Hfresh, (proj1 (Forall_forall _ _) Hids). }
  split; apply Forall_forall.
  - intros j [Hj| ->%list_elem_of_singleton]%elem_of_app.
    + pose proof (proj1 (Forall_forall _ _) Hi j Hj) as (H1 & H2 & [H3 H3'] & H4). split_and!; [done| |done..|auto].
      rewrite count_other; [done|]. intros Heq. apply Hfresh. rewrite Heq. by apply list_elem_of_fmap_2.
    + split_and!; [done| |done..]. cbn [id refcount]. by rewrite count_same, Hc.
  - intros n Hn. unfold items. rewrite fmap_app. apply elem_of_app. apply elem_of_cons in Hn as [->|Hn]; [right; by left|left].
    by apply (proj1 (Forall_forall _ _) Hids).
Qed.

Lemma thread_take ids t m x :
  thread_held ids x ->
  match @lock_take _ thread_locks t m x with
  | (x', Some n) => thread_room x -> thread_held (n :: ids) x'
  | (x', None) => thread_held ids x'
  end.
Proof.
  destruct x as [s files]. intros (Hw & Hi & Hids). simpl in *.
  pose proof (take_check_found running t m s files Hw) as Hf. pose proof (take_wf running pid self true t m s files Hw) as Htw.
  unfold take in *. destruct (take_check running t m s files) as [e| |i]; [done| |].
  - destruct Hf as [-> Hf]. simpl in *. intros [Hs _]. destruct (Htw Hs) as [Htw' _].
    destruct (thread_held_new ids s files (<[get_filename_for_type (lock_dir s) t := dec_Z pid]> files) t PROCESS Hw Hi Hids) as [R1 R2].
    + intros k Hk. destruct (decide (k = get_filename_for_type (lock_dir s) t)) as [->|Hne]; [rewrite lookup_insert_eq; eauto|by rewrite lookup_insert_ne].
    + intros _. rewrite lookup_insert_eq. eauto.
    + by split_and!.
  - destruct i as [i|]; simpl in *.
    + destruct Hf as (Ei & _). pose proof (by_id_Some _ _ _ Ei) as [Hin _].
      pose proof (proj1 (Forall_forall _ _) Hi i Hin) as (Ho & Hrc & Hrb & _).
      rewrite decide_False in * by (by intros ?). simpl in *. intros [Hs Hr]. destruct (Htw Hs) as [Htw' _].
      pose proof (proj1 (Forall_forall _ _) Hr i Hin) as Hri. simpl in Hri. rewrite wrap_small in * by lia.
      destruct (thread_held_replace ids (id i :: ids) s files i (refcount i + 1) Hw Hin Hi) as [R1 R2];
        [intros k Hk; by rewrite count_other|rewrite count_same; lia|lia| |by split_and!].
      apply Forall_cons. split; [by apply list_elem_of_fmap_2|done].
    + destruct Hf as (-> & _). intros [Hs _]. destruct (Htw Hs) as [Htw' _].
      destruct (thread_held_new ids s files files t THREAD Hw Hi Hids) as [R1 R2]; [done|done|by split_and!].
Qed.

Lemma thread_held_perm ids ids' x : ids ≡ₚ ids' -> thread_held ids x -> thread_held ids' x.
Proof.
  intros Hp (Hw & Hi & Hids). split_and!; [done| |by rewrite <-Hp].
  eapply Forall_impl; [exact Hi|]. intros i (H1 & H2 & H3 & H4). split_and!; [done| |lia..|done].
  rewrite H2. f_equal. by apply Permutation_count_occ.
Qed.

(** The lock object keeps its promise to the tasks of a thread that has it
    for itself: what was taken and not released is exactly what the items
    count, a lock that was taken can be released - its file is there - and each
    release gives back one of the numbers, as long as no counter is at its end. *)
Theorem thread_locks_law ids x :
  thread_held ids x ->
  (forall t m, match @lock_take _ thread_locks t m x with
          | (x', Some n) => thread_room x -> thread_held (n :: ids) x'
          | (x', None) => thread_held ids x'
          end)
  /\ (forall n ids', ids ≡ₚ n :: ids' -> exists x', @lock_release _ thread_locks n x = (x', true) /\ thread_held ids' x').
Proof.
  intros Hx. split; [intros t m; by apply thread_take|]. intros n ids' Hp. apply thread_release_held.
  by apply (thread_held_perm ids).
Qed.

#[local] Instance thread_locks_laws : @LockObjectLaws _ thread_locks.
Proof.
  refine (@Build_LockObjectLaws _ thread_locks thread_held thread_room _ _ _ _).
  - intros ids t m x x' n Hx Hr E. pose proof (thread_take ids t m x Hx) as Ht. rewrite E in Ht. by apply Ht.
  - intros ids t m x x' Hx E. pose proof (thread_take ids t m x Hx) as Ht. by rewrite E in Ht.
  - apply thread_release_held.
  - intros ids ids' x. apply thread_held_perm.
Defined.
End lock_object.

(** ** Examples *)

#[local] Instance sample_locks : LockObject (Lock.LockState * gmap cstr cstr) := thread_locks (fun _ => false) 7 1.
#[local] Instance sample_laws : LockObjectLaws (Lock.LockState * gmap cstr cstr) := thread_locks_laws (fun _ => false) 7 1.
Definition begin : World (L := Lock.LockState * gmap cstr cstr) := start (Lock.init, ∅).
Definition shown (os : list op) : list Z := omap root_of (percents (run os begin)).
(** Some actions. *)
Definition DOWNLOAD : Action := 1%Z.
Definition DEP_RESOLVE : Action := 2%Z.
Definition LOADING_CACHE : Action := 3%Z.

(** The tests of the library: equal steps, *)
Example equal_steps :
  shown (SetNumberSteps 0 5 :: replicate 5 (Done 0)) = [20; 40; 60; 80; 100]%Z
  /\ snd (done 0 (run (SetNumberSteps 0 5 :: replicate 5 (Done 0)) begin)) = Err AlreadyFinished.
Proof. vm_compute. done. Qed.
(** a child, with its action and its cancelling, *)
Definition child_ops : list op :=
  [SetNumberSteps 0 2; Done 0; ActionStart 0 DEP_RESOLVE None; GetChild 0; SetNumberSteps 1 2; SetAllowCancel 1 false;
   ActionStart 1 LOADING_CACHE None; Done 1; ActionStart 1 DOWNLOAD None; Done 1].
Example with_child :
  shown (child_ops ++ [Done 0]) = [50; 75; 100]%Z
  /\ (fun n => (action (acts n), get_allow_cancel n)) <$> chain (run child_ops begin) !! 0 = Some (DEP_RESOLVE, true).
Proof. split; vm_compute; reflexivity. Qed.
(** a child of a single step, *)
Example single_step : shown [SetNumberSteps 0 1; GetChild 0; SetNumberSteps 1 2; SetPercentage 1 33] = [33]%Z.
Proof. vm_compute. done. Qed.
(** weights, with a child of a child, *)
Example weighted :
  snd (set_steps 0 20 [60; 10]%Z begin) = Err (Not100 90)
  /\ shown [SetSteps 0 20 [60; 20]%Z; GetChild 0; SetNumberSteps 1 2; Done 1; Done 1; Done 0; GetChild 0; SetSteps 1 25 [75]%Z; Done 1;
            GetChild 1; SetSteps 2 90 [10]%Z; Done 2; Done 2; Done 1; Done 0; Done 0] = [10; 20; 35; 75; 80; 100]%Z.
Proof. vm_compute. done. Qed.
(** no progress, and a child that is finished at once. *)
Example no_progress :
  shown [SetReportProgress 0 false; SetNumberSteps 0 3; Done 0; GetChild 0; Done 0; SetPercentage 0 100] = []
  /\ shown [SetNumberSteps 0 3; GetChild 0; SetNumberSteps 1 3; Finished 1; Done 0] = [33]%Z.
Proof. vm_compute. done. Qed.
Example averages : (fun n => speed n) <$> chain (run [SetSpeed 0 100; SetSpeed 0 200; SetSpeed 0 300] begin) !! 0 = Some 200%Z.
Proof. vm_compute. done. Qed.

(** A parent with weights does not restore its action when its child ends. *)
Example weighted_keeps_action :
  let ops := fun o => [o; ActionStart 0 DEP_RESOLVE None; GetChild 0; SetNumberSteps 1 1; ActionStart 1 DOWNLOAD None;
                       ActionStart 1 LOADING_CACHE None; Done 1] in
  (fun n => action (acts n)) <$> chain (run (ops (SetSteps 0 50 [50]%Z) ++ [ActionStop 0]) begin) !! 0 = Some ACTION_UNKNOWN
  /\ (fun n => action (acts n)) <$> chain (run (ops (SetNumberSteps 0 2) ++ [ActionStop 0]) begin) !! 0 = Some DEP_RESOLVE.
Proof. vm_compute. done. Qed.
(** A child that could not be cancelled and is replaced or reset leaves its parent so. *)
Example stale_allow_cancel :
  get_allow_cancel <$> chain (run [SetNumberSteps 0 2; GetChild 0; SetAllowCancel 1 false; Reset 1; Done 0; GetChild 0] begin)
  = [false; true].
Proof. vm_compute. done. Qed.
(** Weights are only added up: 150 and -50 are accepted, and what is above 100 is refused later. *)
Example negative_weights :
  snd (set_steps 0 150 [-50]%Z begin) = Ok tt /\ shown [SetSteps 0 150 [-50]%Z; Done 0; Done 0] = [100]%Z
  /\ snd (set_steps 0 150 [-100; 50]%Z begin) = Ok tt /\ shown [SetSteps 0 150 [-100; 50]%Z; Done 0; Done 0; Done 0] = [50; 100]%Z.
Proof. vm_compute. done. Qed.

(** A lock that cannot be released keeps the task from its end, now and later:
    the locks released before it are on the list again. *)
Definition stuck : World (L := Lock.LockState * gmap cstr cstr) :=
  let w := run [SetNumberSteps 0 1; TakeLock 0 Lock.METADATA Lock.THREAD; TakeLock 0 Lock.REPO Lock.PROCESS] begin in
  let w := run [Done 0] (set_locks (fst (locks w), ∅) w) in
  run [SetPercentage 0 100; Reset 0; SetNumberSteps 0 1; Done 0] (set_locks (fst (locks w), {[Lock.get_filename_for_type (lit "/var/run") Lock.REPO := lit "7"]}) w).
Example release_stuck :
  omap root_of (percents stuck) = [] /\ lock_ids <$> chain stuck = [[1; 2]%Z].
Proof. vm_compute. done. Qed.

(** ** Witnesses *)

Lemma percentages_rise_witness :
  let w := run [SetNumberSteps 0 4; Done 0; SetPercentage 0 10; Done 0; SetPercentage 0 120] begin in
  omap root_of (percents w) = [25; 50]%Z /\ root_percentage w = Some 50%Z.
Proof.
  intros w. assert (E : omap root_of (percents w) = [25; 50]%Z) by (vm_compute; reflexivity).
  split; [exact E|].
  refine (eq_trans (proj2 (proj2 (percentages_rise (Lock.init, ∅) [SetNumberSteps 0 4; Done 0; SetPercentage 0 10; Done 0; SetPercentage 0 120] _))) _).
  - repeat (apply not_elem_of_cons; split; [discriminate|]). apply not_elem_of_nil.
  - fold begin. fold w. rewrite E. reflexivity.
Defined.

Lemma begin_held : all_held begin.
Proof. split; [apply Lock.lock_wf_init|]. by split. Qed.
Definition locked : World (L := Lock.LockState * gmap cstr cstr) := fst (take_lock 0 Lock.METADATA Lock.PROCESS (run [SetNumberSteps 0 3; Done 0] begin)).
Lemma locked_held : all_held locked.
Proof.
  unfold locked. set (w := run _ begin).
  assert (E1 : locks w = (Lock.init, ∅)) by (vm_compute; reflexivity).
  assert (E2 : lock_ids <$> chain w = [[]]) by (vm_compute; reflexivity).
  apply take_lock_held.
  - unfold all_held, held. rewrite E1, E2. exact begin_held.
  - rewrite E1. split; [vm_compute; reflexivity|constructor].
  - apply (f_equal length) in E2. rewrite length_fmap in E2. rewrite E2. cbn. lia.
Qed.
Lemma task_completes_witness :
  (lock_ids <$> chain locked) = [[1%Z]]
  /\ exists n, chain (done_times 2 0 locked) !! 0 = Some n /\ last_percentage (progress n) = 100%Z /\ lock_ids n = [].
Proof.
  split; [vm_compute; reflexivity|]. destruct (chain locked !! 0) as [n|] eqn:E; [|vm_compute in E; discriminate E].
  assert (Hn : progress n = mkSteps true 1 33 3 None) by (vm_compute in E; injection E as <-; reflexivity).
  destruct (task_completes 0 locked n 1) as (n' & H1 & _ & H2 & H3 & _).
  - apply locked_held.
  - exact E.
  - rewrite Hn. reflexivity.
  - vm_compute. reflexivity.
  - rewrite Hn. split; reflexivity.
  - rewrite Hn. cbn [current]. lia.
  - rewrite Hn. reflexivity.
  - rewrite Hn. reflexivity.
  - exists n'. split; [exact H1|]. split; [exact H2|exact H3].
Defined.

Lemma child_progress_bounds_witness :
  let w := run [SetSteps 0 20 [60; 20]%Z; Done 0; GetChild 0] begin in
  exists pp, parent_percentage 0 50 w = (w, Some pp) /\ (20 <= pp <= 80)%Z.
Proof.
  intros w. destruct (chain w !! 0) as [n|] eqn:E; [|vm_compute in E; discriminate E].
  assert (Hn : progress n = mkSteps true 1 20 3 (Some (cumulate 0 [20; 60; 20]%Z))) by (vm_compute in E; injection E as <-; reflexivity).
  destruct (child_progress_bounds 0 50 w n [20; 60; 20]%Z) as (pp & H1 & H2 & _).
  - exact E.
  - rewrite Hn. reflexivity.
  - rewrite Hn. reflexivity.
  - cbn. lia.
  - repeat constructor; lia.
  - reflexivity.
  - rewrite Hn. cbn [current steps]. lia.
  - lia.
  - rewrite Hn in H2. exists pp. split; [exact H1|exact H2].
Defined.

Lemma thread_locks_law_witness :
  exists x, @lock_take _ (thread_locks (fun _ => false) 7 1) Lock.REPO Lock.PROCESS (Lock.init, ∅) = (x, Some 1%Z) /\ thread_held 1 [1%Z] x.
Proof.
  destruct (@lock_take _ (thread_locks (fun _ => false) 7 1) Lock.REPO Lock.PROCESS (Lock.init, ∅)) as [x r] eqn:E.
  assert (Hr : snd (@lock_take _ (thread_locks (fun _ => false) 7 1) Lock.REPO Lock.PROCESS (Lock.init, ∅)) = Some 1%Z) by (vm_compute; reflexivity).
  rewrite E in Hr. cbn [snd] in Hr. subst r. exists x. split; [reflexivity|].
  assert (Hh : thread_held 1 [] (Lock.init, ∅)) by (split; [apply Lock.lock_wf_init|split; constructor]).
  destruct (thread_locks_law (fun _ => false) 7 1 [] (Lock.init, ∅) Hh) as [H _].
  pose proof (H Lock.REPO Lock.PROCESS) as H1. rewrite E in H1. apply H1.
  split; [vm_compute; reflexivity|constructor].
Defined.
End Progress.
