(* ===== verification/Bars.v ===== *)
(** * Bars: progress bars on the terminal ([libdnf-cli/progressbar])

    A bar counts ticks and estimates speeds and times; its widgets print parts of it in
    columns, and [DownloadProgressBar] chooses the columns for the width of the
    terminal. Times are nanoseconds of the clock; what overflows, or is
    undefined otherwise, is an error. *)

From S2P Require Import Prelude Numeric.
From Stdlib Require Import SpecFloat.
From S2P Require Import Floats.
Local Open Scope Z_scope.

(** The text of [{:5.1f}] in the library fmt. *)
Class Fmt := fixed_5_1 : spec_float -> cstr.
(** Minus infinity, the logarithm of 0, as [size_t], which the language leaves open:
    processors give the smallest number or the highest bit. *)
Class Conversion := minus_infinity : Z.
Class ConversionLaws `(Conversion) : Prop := minus_infinity_cases : minus_infinity = 0 \/ minus_infinity = 2 ^ 63.

Module Bars.
Import Numeric.

(** An integer or a conversion out of range, or a read outside of an array. *)
Inductive error := Undefined.
Definition int_of (t : IntType) (z : Z) : result error Z := if (t_min t <=? z) && (z <=? t_max t) then Ok z else Err Undefined.
Definition defined {A} (o : option A) : result error A := match o with Some x => Ok x | None => Err Undefined end.

(** ** The bar ([progress_bar.cpp]) *)

Inductive ProgressBarState := READY | STARTED | SUCCESS | WARNING | ERROR.
#[global] Instance bar_state_eq_dec : EqDecision ProgressBarState.
Proof. solve_decision. Defined.
Inductive MessageType := INFO_MESSAGE | SUCCESS_MESSAGE | WARNING_MESSAGE | ERROR_MESSAGE.

Record ProgressBar := mkBar {
  ticks : Z; total_ticks : Z;
  number : Z; total : Z;
  description : cstr; messages : list (MessageType * cstr);
  state : ProgressBarState;
  percent_done : Z; elapsed_seconds : Z; remaining_seconds : Z; average_speed : Z;
  auto_finish : bool;
  begin_time : Z; end_time : Z;
  window_start : Z; current_speed : Z; window_ticks : Z;
}.
Implicit Types (b : ProgressBar).
Definition new_bar (now total_ticks : Z) (description : cstr) : ProgressBar :=
  mkBar 0 total_ticks 0 0 description [] READY 0 0 0 0 true 0 0 now 0 0.
Definition is_finished b : bool := negb (bool_decide (state b = READY)) && negb (bool_decide (state b = STARTED)).
Definition with_ticks (t w : Z) b : ProgressBar :=
  mkBar t (total_ticks b) (number b) (total b) (description b) (messages b) (state b) (percent_done b) (elapsed_seconds b) (remaining_seconds b) (average_speed b)
    (auto_finish b) (begin_time b) (end_time b) (window_start b) (current_speed b) w.
Definition with_total_ticks (t : Z) b : ProgressBar :=
  mkBar (ticks b) t (number b) (total b) (description b) (messages b) (state b) (percent_done b) (elapsed_seconds b) (remaining_seconds b) (average_speed b)
    (auto_finish b) (begin_time b) (end_time b) (window_start b) (current_speed b) (window_ticks b).
Definition with_numbers (n t : Z) b : ProgressBar :=
  mkBar (ticks b) (total_ticks b) n t (description b) (messages b) (state b) (percent_done b) (elapsed_seconds b) (remaining_seconds b) (average_speed b)
    (auto_finish b) (begin_time b) (end_time b) (window_start b) (current_speed b) (window_ticks b).
Definition set_number (n : Z) b : ProgressBar := with_numbers n (total b) b.
Definition set_total (t : Z) b : ProgressBar := with_numbers (number b) t b.
Definition with_state (st : ProgressBarState) (begin_time : Z) b : ProgressBar :=
  mkBar (ticks b) (total_ticks b) (number b) (total b) (description b) (messages b) st (percent_done b) (elapsed_seconds b) (remaining_seconds b) (average_speed b)
    (auto_finish b) begin_time (end_time b) (window_start b) (current_speed b) (window_ticks b).
Definition set_auto_finish (v : bool) b : ProgressBar :=
  mkBar (ticks b) (total_ticks b) (number b) (total b) (description b) (messages b) (state b) (percent_done b) (elapsed_seconds b) (remaining_seconds b) (average_speed b)
    v (begin_time b) (end_time b) (window_start b) (current_speed b) (window_ticks b).
Definition add_message (type : MessageType) (message : cstr) b : ProgressBar :=
  mkBar (ticks b) (total_ticks b) (number b) (total b) (description b) (messages b ++ [(type, message)]) (state b) (percent_done b) (elapsed_seconds b) (remaining_seconds b) (average_speed b)
    (auto_finish b) (begin_time b) (end_time b) (window_start b) (current_speed b) (window_ticks b).

Definition set_ticks (value : Z) b : result error ProgressBar :=
  if is_finished b then Ok b
  else
    let new_ticks := if 0 <=? total_ticks b then Z.min value (total_ticks b) else value in
    let* delta := int_of int64 (new_ticks - ticks b) in
    let* window := int_of int64 (window_ticks b + delta) in
    Ok (with_ticks new_ticks window b).
Definition add_ticks (value : Z) b : result error ProgressBar := let* t := int_of int64 (ticks b + value) in set_ticks t b.
Definition set_total_ticks (value : Z) b : ProgressBar := if is_finished b then b else with_total_ticks value b.
Definition start (now : Z) b : ProgressBar := if begin_time b =? 0 then with_state STARTED now b else b.

(** Milliseconds, towards zero. *)
Definition milliseconds (delta : Z) : Z := Z.quot delta (10 ^ 6).
Definition seconds (delta : Z) : Z := Z.quot delta (10 ^ 9).
Definition percentage b : result error Z :=
  if total_ticks b <=? ticks b then Ok 100
  else if total_ticks b =? 0 then Ok 100
  else if 0 <? total_ticks b then
    defined (to_int int32 (fmul float (fdiv float (of_Z float (ticks b)) (of_Z float (total_ticks b))) (of_Z float 100)))
  else Ok (-1).
(** Ticks per second. *)
Definition speed (ticks ms : Z) : result error Z := let* t := int_of int64 (ticks * 1000) in int_of int64 (Z.quot t ms).
(** The window for the current speed: its start, its ticks and the speed. *)
Definition update_window (now : Z) b : result error (Z * Z * Z) :=
  let* delta := int_of int64 (now - window_start b) in
  let ms := milliseconds delta in
  if 950 <? ms then let* s := speed (window_ticks b) ms in Ok (now, 0, s)
  else if (current_speed b =? 0) && negb (ms =? 0) then let* s := speed (window_ticks b) ms in Ok (window_start b, window_ticks b, s)
  else Ok (window_start b, window_ticks b, current_speed b).
Definition update (now : Z) b : result error ProgressBar :=
  if is_finished b then Ok b
  else
    let* percent := percentage b in
    let* window := update_window now b in
    let '(start, window, current) := window in
    let* delta := int_of int64 (now - begin_time b) in
    let ms := milliseconds delta in
    let* average := (if ms =? 0 then Ok 0 else speed (ticks b) ms) in
    let* remaining := (if 0 <=? total_ticks b then
                         let* remaining_ticks := int_of int64 (total_ticks b - ticks b) in
                         if current =? 0 then Ok (remaining_seconds b) else int_of int64 (Z.quot remaining_ticks current)
                       else Ok (-1)) in
    let done := (0 <=? total_ticks b) && (total_ticks b <=? ticks b) in
    Ok (mkBar (ticks b) (total_ticks b) (number b) (total b) (description b) (messages b)
          (if done && auto_finish b && bool_decide (state b = STARTED) then SUCCESS else state b)
          (if done then 100 else percent) (seconds delta) (if done then 0 else remaining) average (auto_finish b)
          (begin_time b) (if done then now else end_time b) start current window).
Definition set_state (now : Z) (value : ProgressBarState) b : result error ProgressBar :=
  let* b := update now b in Ok (with_state value (begin_time b) b).

(** ** Texts ([widgets/common.cpp]) *)

Definition space : ascii := " "%char.
(** [std::setw] with what a conversion to [int] leaves; the fill is on the left or on the right. *)
Definition to_int32 (z : Z) : Z := let w := wrap 32 z in if w <? 2 ^ 31 then w else w - 2 ^ 32.
Definition fill (width : Z) (s : cstr) : cstr := replicate (Z.to_nat (to_int32 width) - length s) space.
Definition setw_left (width : Z) (s : cstr) : cstr := s ++ fill width s.
Definition setw_right (width : Z) (s : cstr) : cstr := fill width s ++ s.

Definition SIZE_UNITS : list cstr := [lit "B"; lit "KiB"; lit "MiB"; lit "GiB"; lit "TiB"; lit "PiB"; lit "EiB"; lit "ZiB"; lit "YiB"].
(** The loop: the number and the index of its unit. *)
Fixpoint scale (fuel : nat) (i : spec_float) (index : nat) : option (spec_float * nat) :=
  if flt (of_Z float 999) i then
    match fuel with O => None | S fuel => scale fuel (fdiv float i (of_Z float 1024)) (S index) end
  else Some (i, index).
Section fmt.
Context {HF : Fmt} {HC : Conversion}.
Definition format_size (num : Z) : result error cstr :=
  let* x := defined (scale 10 (of_Z float num) 0) in
  let* unit_ := defined (SIZE_UNITS !! snd x) in
  Ok (fixed_5_1 (fst x) ++ lit " " ++ setw_right 3 unit_).
(** [{:02d}] of a number that is not negative. *)
Definition two_digits (n : Z) : cstr := replicate (2 - length (dec_Z n)) "0"%char ++ dec_Z n.
Definition format_time (num : Z) (negative : bool) : result error cstr :=
  let sign := if negative then lit "-" else lit " " in
  let* a := int_of int64 (Z.abs num) in
  let seconds := a mod 60 in
  let minutes := a / 60 in
  if minutes <? 60 then Ok (sign ++ two_digits minutes ++ lit "m" ++ two_digits seconds ++ lit "s")
  else
    let hours := minutes / 60 in
    let minutes := minutes mod 60 in
    if hours <? 24 then Ok (sign ++ two_digits hours ++ lit "h" ++ two_digits minutes ++ lit "m")
    else
      let days := hours / 24 in
      let hours := hours mod 24 in
      if days <? 100 then Ok (sign ++ two_digits days ++ lit "d" ++ two_digits hours ++ lit "h")
      else Ok (sign ++ lit "?     ").

(** ** Widgets *)

Inductive Widget := Number | Description | Percent | Progress | Speed | Size | Time.
#[global] Instance widget_eq_dec : EqDecision Widget.
Proof. solve_decision. Defined.
(** The bar with its widgets: which are visible, what is before them, and two widths. *)
Record DownloadProgressBar := mkDownload {
  bar : ProgressBar;
  visible : Widget -> bool; delimiter_before : Widget -> cstr;
  description_width : Z; progress_width : Z;
}.
Implicit Types (d : DownloadProgressBar).
Definition new_download (now download_size : Z) (description : cstr) : DownloadProgressBar :=
  mkDownload (new_bar now download_size description) (fun _ => true) (fun _ => []) 0 20.
Definition with_bar b d : DownloadProgressBar := mkDownload b (visible d) (delimiter_before d) (description_width d) (progress_width d).
Definition set_width (width : Z) d : DownloadProgressBar := mkDownload (bar d) (visible d) (delimiter_before d) width (progress_width d).
Definition set_delimiter_before (w : Widget) (s : cstr) d : DownloadProgressBar :=
  mkDownload (bar d) (visible d) (fun w' => if decide (w' = w) then s else delimiter_before d w') (description_width d) (progress_width d).

Definition size_ (s : cstr) : Z := Z.of_nat (length s).
(** The whole part of [log10], which is no number below 0. *)
Definition log10_floor (n : Z) : result error Z :=
  if 0 <? n then Ok (Z.of_nat (length (dec_Z n)) - 1) else if n =? 0 then Ok minus_infinity else Err Undefined.
Definition get_number_width d : result error Z :=
  let* x := log10_floor (number (bar d)) in
  let* y := log10_floor (total (bar d)) in
  Ok (size_wrap (Z.max x y + 1)).
Definition get_total_width (w : Widget) d : result error Z :=
  let delimiter := size_ (delimiter_before d w) in
  match w with
  | Number => let* n := get_number_width d in Ok (size_wrap (3 + size_wrap (2 * n) + delimiter))
  | Description => Ok (size_wrap ((if 0 <? description_width d then description_width d else size_ (description (bar d))) + delimiter))
  | Percent => Ok (size_wrap (4 + delimiter))
  | Progress => Ok (size_wrap (progress_width d + delimiter))
  | Speed => Ok (size_wrap (11 + delimiter))
  | Size => Ok (size_wrap (9 + delimiter))
  | Time => Ok (size_wrap (7 + delimiter))
  end.
(** [DescriptionWidget::set_total_width] *)
Definition set_total_width (value : Z) d : DownloadProgressBar := set_width (size_wrap (value - size_ (delimiter_before d Description))) d.

(** [rint]: the nearest integer, the even one of two. *)
Definition rint (x : spec_float) : option Z :=
  match x with
  | S754_zero _ => Some 0
  | S754_finite s m e =>
      let a := if 0 <=? e then Zpos m * 2 ^ e
               else let q := Zpos m / 2 ^ (- e) in
                    let r := Zpos m mod 2 ^ (- e) in
                    if 2 * r <? 2 ^ (- e) then q else if 2 ^ (- e) <? 2 * r then q + 1 else if Z.even q then q else q + 1 in
      Some (if s then - a else a)
  | _ => None
  end.
Definition progress_text (now : Z) d : result error cstr :=
  let b := bar d in
  let width := progress_width d in
  let* inner :=
    (if 0 <? total_ticks b then
       let* r := defined (rint (fmul double (fdiv double (of_Z double (ticks b)) (of_Z double (total_ticks b))) (Floats.fsub double (of_Z double width) (of_Z double 2)))) in
       let* progress := int_of uint64 r in
       Ok (setw_left (size_wrap (width - 2)) (replicate (Z.to_nat progress) "="%char))
     else
       let* delta := int_of int64 (now - begin_time b) in
       let steps := size_wrap (Z.quot (milliseconds delta) 500) in
       let room := size_wrap (width - 4) in
       if room =? 0 then Err Undefined
       else
         let progress := steps mod room in
         Ok (replicate (Z.to_nat progress) space ++ lit "<=>" ++ replicate (Z.to_nat (size_wrap (width - 5 - progress))) space)) in
  Ok (lit "[" ++ inner ++ lit "]").
Definition shows_whole_run b : bool := is_finished b || (total_ticks b <? 0).
Definition number_text d : result error cstr :=
  let* n := get_number_width d in
  Ok (lit "[" ++ setw_right n (dec_Z (number (bar d))) ++ lit "/" ++ setw_right n (dec_Z (total (bar d))) ++ lit "]").
Definition description_text d : result error cstr :=
  let* width := get_total_width Description d in
  Ok (setw_left (size_wrap (width - size_ (delimiter_before d Description))) (description (bar d))).
Definition percent_text b : cstr := setw_right 3 (if 0 <=? percent_done b then dec_Z (percent_done b) else lit "???") ++ lit "%".
Definition speed_text b : result error cstr :=
  let* t := format_size (if shows_whole_run b then average_speed b else current_speed b) in Ok (t ++ lit "/s").
Definition size_text b : result error cstr := format_size (ticks b).
Definition time_text b : result error cstr :=
  if shows_whole_run b then format_time (elapsed_seconds b) false else format_time (remaining_seconds b) true.
(** What every widget does: nothing when it is not visible, and its delimiter first. *)
Definition to_string (now : Z) (w : Widget) d : result error cstr :=
  if negb (visible d w) then Ok []
  else
    let* text :=
      (match w with
       | Number => number_text d
       | Description => description_text d
       | Percent => Ok (percent_text (bar d))
       | Progress => progress_text now d
       | Speed => speed_text (bar d)
       | Size => size_text (bar d)
       | Time => time_text (bar d)
       end) in
    Ok (delimiter_before d w ++ text).

(** ** The line ([download_progress_bar.cpp]) *)

Definition without (w : Widget) (l : list Widget) : list Widget := List.filter (fun w' => negb (bool_decide (w' = w))) l.
Fixpoint get_bar_width (widgets : list Widget) d : result error Z :=
  match widgets with
  | [] => Ok 0
  | w :: widgets =>
      let* a := get_total_width w d in
      let* rest := get_bar_width widgets d in
      Ok (size_wrap (a + rest))
  end.
Definition default_layout d : DownloadProgressBar :=
  set_width 21 (set_delimiter_before Time (lit " | ") (set_delimiter_before Size (lit " | ") (set_delimiter_before Speed (lit " | ")
    (set_delimiter_before Progress (lit " ") (set_delimiter_before Percent (lit " ") (set_delimiter_before Description (lit " ") (set_delimiter_before Number [] d))))))).
(** A column goes if the line does not fit. *)
Definition drop_wide (w : Widget) (terminal_width : Z) (x : list Widget * DownloadProgressBar) : result error (list Widget * DownloadProgressBar) :=
  let '(widgets, d) := x in
  let* bar_width := get_bar_width widgets d in
  if terminal_width <? bar_width then Ok (without w widgets, if decide (w = Speed) then set_delimiter_before Speed (lit " ") d else d) else Ok x.
Definition fit_description (terminal_width bar_width : Z) d : result error DownloadProgressBar :=
  let* width := get_total_width Description d in
  Ok (set_total_width (size_wrap (width + terminal_width - bar_width)) d).
(** The columns of the line, and the bar with their widths. *)
Definition narrow (terminal_width : Z) d : result error (list Widget * DownloadProgressBar) :=
  let d := default_layout d in
  let widgets := List.filter (visible d) [Number; Description; Percent; Progress; Speed; Size; Time] in
  let* x := drop_wide Progress terminal_width (widgets, d) in
  let* x := drop_wide Speed terminal_width x in
  let* x := drop_wide Time terminal_width x in
  let '(widgets, d) := x in
  let widgets := if decide (state (bar d) = STARTED) then widgets else without Progress widgets in
  let* bar_width := get_bar_width widgets d in
  let* d := (if terminal_width <? bar_width then fit_description terminal_width bar_width d else Ok d) in
  Ok (widgets, d).
Definition widen (terminal_width : Z) (widgets : list Widget) d : result error DownloadProgressBar :=
  let* bar_width := get_bar_width widgets d in
  if bar_width <? terminal_width then fit_description terminal_width bar_width d else Ok d.

(** What goes to the stream. *)
Inductive Color := yellow | red | green.
Inductive Out := Text (s : cstr) | Endl | ClearLine | CursorUp | Return | SetColor (c : Color) | ResetColor | CursorHide | CursorShow.
Definition column (now : Z) d (w : Widget) : result error cstr :=
  let* width := get_total_width w d in
  let* text := to_string now w d in
  Ok (setw_left width (take (Z.to_nat width) text)).
Fixpoint columns (now : Z) d (widgets : list Widget) : result error cstr :=
  match widgets with
  | [] => Ok []
  | w :: widgets => let* t := column now d w in let* rest := columns now d widgets in Ok (t ++ rest)
  end.
Definition colored (interactive : bool) (c : option Color) (l : list Out) : list Out :=
  match c with Some c => if interactive then SetColor c :: l ++ [ResetColor] else l | None => l end.
Definition state_color (st : ProgressBarState) : option Color := match st with WARNING => Some yellow | ERROR => Some red | _ => None end.
Definition message_color (t : MessageType) : option Color :=
  match t with INFO_MESSAGE => None | SUCCESS_MESSAGE => Some green | WARNING_MESSAGE => Some yellow | ERROR_MESSAGE => Some red end.
Definition message_out (interactive : bool) (terminal_width : Z) (m : MessageType * cstr) : list Out :=
  [Endl; Text (lit ">>> ")] ++ colored interactive (message_color (fst m)) [Text (take (Z.to_nat (size_wrap (terminal_width - 4))) (snd m))].
(** [to_stream]; the terminal is interactive or not, and has a width. *)
Definition to_stream (interactive : bool) (terminal_width now : Z) d : result error (DownloadProgressBar * list Out) :=
  let* b := update now (bar d) in
  let terminal_width := size_wrap terminal_width in
  let* x := narrow terminal_width (with_bar b d) in
  let '(widgets, d) := x in
  if bool_decide (state (bar d) = STARTED) && negb interactive then Ok (d, [])
  else
    let* d := widen terminal_width widgets d in
    let* line := columns now d widgets in
    Ok (d, colored interactive (state_color (state (bar d))) [Text line] ++ flat_map (message_out interactive terminal_width) (messages (bar d))).
End fmt.

(** [tty::get_width]: the variable, or what the terminal says. *)
Definition get_width (columns : option cstr) (window : option Z) : Z :=
  match columns with
  | Some s => match stoi s with Ok n => n | Err _ => default 80 window end
  | None => default 80 window
  end.
End Bars.
