(* ===== verification/BarLines.v ===== *)
(** * BarLines: the line of a bar fills the terminal

    Printing never fails for bars with sensible numbers, and the columns that are
    chosen are together as wide as the terminal. *)

From S2P Require Import Prelude Numeric.
From Stdlib Require Import SpecFloat.
From S2P Require Import Floats Bars.
Local Open Scope Z_scope.

Module BarLines.
Import Numeric Floats Bars.
Implicit Types (b : ProgressBar).

(** ** Floats of full precision *)

Section precision.
Context (prec emax : Z) (Hprec : 2 < prec) (Hmax : 128 <= emax).
#[local] Notation emin := (SpecFloat.emin prec emax).
(** A positive number with all digits. *)
Definition full (x : spec_float) (e : Z) : Prop := exists m, x = S754_finite false m e /\ 2 ^ (prec - 1) <= Zpos m < 2 ^ prec.
Lemma full_log2 m : 2 ^ (prec - 1) <= Zpos m < 2 ^ prec -> Z.log2 (Zpos m) = prec - 1.
Proof. intros [H1 H2]. apply Z.log2_unique; [lia|]. by replace (Z.succ (prec - 1)) with prec by lia. Qed.
(** Rounding a number with enough digits. *)
Lemma round_full m e l : 0 < m -> emin <= e -> prec <= Z.log2 m + 1 -> e + Z.log2 m + 2 <= emax ->
  exists e', full (binary_round_aux prec emax false m e l) e' /\ e + Z.log2 m - prec <= e' <= e + Z.log2 m + 2 - prec.
Proof.
  intros Hm He Hd Hx. destruct (round_aux_near prec emax ltac:(lia) false m e l Hm He Hd) as (m' & k & -> & Hm' & Hk & Hnear).
  rewrite (proj2 (Z.leb_le _ _)) by lia. exists (e + k). split; [by exists m'|]. split; [|lia].
  destruct (Z.lt_ge_cases k (Z.log2 m - prec)) as [Hlt|]; [exfalso|lia].
  pose proof (Z.log2_spec m Hm) as [Hlo _]. set (L := Z.log2 m) in *.
  assert (H1 : Zpos m' * 2 ^ k <= 2 ^ prec * 2 ^ (L - prec - 1)).
  { apply Z.mul_le_mono_nonneg; first [lia|apply Z.pow_le_mono_r; lia|apply Z.pow_nonneg; lia]. }
  rewrite <-Z.pow_add_r in H1 by lia. replace (prec + (L - prec - 1)) with (L - 1) in H1 by lia.
  assert (H2 : 2 ^ L = 2 ^ (L - 1) + 2 ^ (L - 1)) by (replace L with (L - 1 + 1) at 1 by lia; rewrite Z.pow_add_r by lia; lia).
  assert (H4 : 2 ^ (L + 1 - prec) < 2 ^ (L - 1)) by (apply Z.pow_lt_mono_r; lia). lia.
Qed.
Lemma div_full x y e1 e2 : full x e1 -> full y e2 -> emin <= e1 - e2 - prec -> e1 - e2 + 2 <= emax ->
  exists e, full (SFdiv prec emax x y) e /\ e1 - e2 - prec - 1 <= e <= e1 - e2 - prec + 2.
Proof.
  intros (m1 & -> & H1) (m2 & -> & H2) He Hx. unfold SFdiv, SFdiv_core_binary. cbn [xorb].
  assert (D1 : Zdigits2 (Zpos m1) = prec) by (rewrite digits_log2, full_log2 by lia; lia). assert (D2 : Zdigits2 (Zpos m2) = prec) by (rewrite digits_log2, full_log2 by lia; lia).
  rewrite D1, D2. replace (Z.min (fexp prec emax (prec + e1 - (prec + e2))) (e1 - e2)) with (e1 - e2 - prec) by (unfold fexp; lia).
  replace (e1 - e2 - (e1 - e2 - prec)) with prec by lia.
  replace (match prec with Z0 => Zpos m1 | Zpos _ => Z.shiftl (Zpos m1) prec | Zneg _ => 0 end) with (Zpos m1 * 2 ^ prec).
  2: { destruct prec as [|p|p] eqn:E; [lia| |lia]. by rewrite Z.shiftl_mul_pow2 by lia. }
  pose proof (Z.div_mod (Zpos m1 * 2 ^ prec) (Zpos m2)) as Hdm. pose proof (Z.mod_pos_bound (Zpos m1 * 2 ^ prec) (Zpos m2)) as Hmod.
  unfold Z.div, Z.modulo in Hdm, Hmod. destruct (Z.div_eucl (Zpos m1 * 2 ^ prec) (Zpos m2)) as [q r]. specialize (Hdm ltac:(lia)). specialize (Hmod ltac:(lia)).
  assert (Hp : 2 ^ prec = 2 * 2 ^ (prec - 1)) by (replace prec with (1 + (prec - 1)) at 1 by lia; by rewrite Z.pow_add_r by lia).
  set (h := 2 ^ (prec - 1)) in *. assert (Hh : 0 < h) by (by apply Z.pow_pos_nonneg; lia).
  assert (Hq : h <= q < 4 * h) by nia.
  assert (Hlq : prec - 1 <= Z.log2 q <= prec).
  { split; [apply Z.log2_le_pow2; lia|]. assert (Z.log2 q < prec + 1); [|lia]. apply Z.log2_lt_pow2; [lia|]. rewrite Z.pow_add_r, Hp by lia. lia. }
  destruct (round_full q (e1 - e2 - prec) (new_location (Zpos m2) r)) as (e & Hf & Hb); [lia..|]. exists e. split; [done|lia].
Qed.
Lemma mul_full x y e1 e2 : full x e1 -> full y e2 -> emin <= e1 + e2 -> e1 + e2 + 2 * prec + 1 <= emax ->
  exists e, full (SFmul prec emax x y) e /\ e1 + e2 + prec - 2 <= e <= e1 + e2 + prec + 1.
Proof.
  intros (m1 & -> & H1) (m2 & -> & H2) He Hx. unfold SFmul. cbn [xorb].
  assert (Hl : 2 * prec - 2 <= Z.log2 (Zpos (m1 * m2)) <= 2 * prec - 1).
  { rewrite Pos2Z.inj_mul. split.
    - apply Z.log2_le_pow2; [lia|]. replace (2 * prec - 2) with (prec - 1 + (prec - 1)) by lia. rewrite Z.pow_add_r by lia. apply Z.mul_le_mono_nonneg; lia.
    - assert (Z.log2 (Zpos m1 * Zpos m2) < 2 * prec); [|lia]. apply Z.log2_lt_pow2; [lia|]. replace (2 * prec) with (prec + prec) by lia. rewrite Z.pow_add_r by lia. apply Z.mul_lt_mono_nonneg; lia. }
  destruct (round_full (Zpos (m1 * m2)) (e1 + e2) loc_Exact) as (e & Hf & Hb); [lia..|]. exists e. split; [done|lia].
Qed.
Lemma of_Z_full n : 0 < n < 2 ^ 64 -> exists e, full (binary_normalize prec emax n 0 false) e /\ 1 - prec <= e /\ Z.log2 n - prec <= e <= Z.log2 n + 2 - prec.
Proof.
  intros Hn. destruct n as [|p|p]; try lia. unfold binary_normalize, binary_round.
  pose proof (Z.log2_spec (Zpos p)) as [Hlo Hhi]; [lia|]. pose proof (Z.log2_nonneg (Zpos p)) as Hl0.
  assert (Hl : Z.log2 (Zpos p) < 64) by (apply Z.log2_lt_pow2; lia).
  pose proof (digits_log2 (Zpos p)) as Hd. cbn [Zdigits2] in Hd. rewrite Hd, Z.add_0_r by lia.
  destruct (Z.lt_ge_cases (Z.log2 (Zpos p)) prec) as [Hlt|Hge].
  - set (s := prec - 1 - Z.log2 (Zpos p)).
    assert (Hf : fexp prec emax (Z.log2 (Zpos p) + 1) = - s) by (unfold fexp, SpecFloat.emin; lia). rewrite Hf.
    assert (Halign : exists m, shl_align p 0 (- s) = (m, - s) /\ Zpos m = Zpos p * 2 ^ s).
    { unfold shl_align. destruct s as [|q|q] eqn:E; [exists p; split; [done|lia]| |lia]. simpl. exists (Pos.iter xO p q). split; [done|].
      pose proof (Zpower.shift_pos_correct q p) as Hq. unfold Zpower.shift_pos in Hq. rewrite Hq. simpl. lia. }
    destruct Halign as (m & -> & Hm). assert (Hlm : Z.log2 (Zpos m) = prec - 1) by (rewrite Hm, Z.log2_mul_pow2 by lia; lia).
    rewrite (round_aux_exact prec emax) by (unfold SpecFloat.emin; lia). exists (- s). split; [|lia]. exists m. split; [done|].
    pose proof (Z.log2_spec (Zpos m)) as Hb. rewrite Hlm in Hb. replace (Z.succ (prec - 1)) with prec in Hb by lia. apply Hb. lia.
  - assert (Hf : 0 < fexp prec emax (Z.log2 (Zpos p) + 1)) by (unfold fexp, SpecFloat.emin; lia).
    assert (Halign : shl_align p 0 (fexp prec emax (Z.log2 (Zpos p) + 1)) = (p, 0)).
    { unfold shl_align. by destruct (fexp prec emax (Z.log2 (Zpos p) + 1) - 0) eqn:E; [..|lia]. }
    rewrite Halign. destruct (round_full (Zpos p) 0 loc_Exact) as (e & Hfull & Hb); [lia|unfold SpecFloat.emin; lia|lia|lia|]. exists e. split; [done|lia].
Qed.
End precision.

(** ** Sizes, percentages and times *)

(** A number above 999 has an exponent above that of 512. *)
Lemma above_999 m e : flt (of_Z float 999) (S754_finite false m e) = true -> -14 <= e.
Proof.
  replace (of_Z float 999) with (S754_finite false 16367616 (-14)) by (vm_compute; reflexivity). unfold flt, SFltb, SFcompare.
  destruct (Z.compare_spec (-14) e); [lia|lia|done].
Qed.
Lemma scale_total k i index e : full 24 i e -> e <= 100 -> e <= 9 * Z.of_nat k - 15 -> exists x j, scale k i index = Some (x, j) /\ (j <= index + k)%nat.
Proof.
  revert i index e. induction k as [|k IH]; intros i index e Hi Hm He; cbn [scale].
  - destruct Hi as (m & -> & _). destruct (flt _ _) eqn:E; [apply above_999 in E; lia|]. exists (S754_finite false m e), index. split; [done|lia].
  - destruct (flt _ i) eqn:E; [|exists i, index; split; [done|lia]]. assert (-14 <= e) by (destruct Hi as (m & -> & _); by apply above_999 in E).
    destruct (div_full 24 128 ltac:(lia) i (of_Z float 1024) e (-13) Hi) as (e' & Hf & Hb); [|unfold emin; lia|lia|].
    { exists 8388608%positive. split; [vm_compute; reflexivity|lia]. }
    destruct (IH (fdiv float i (of_Z float 1024)) (S index) e' Hf) as (x & j & -> & Hj); [lia..|]. exists x, j. split; [done|lia].
Qed.
Lemma scale_more k n i index r : scale k i index = Some r -> scale (k + n) i index = Some r.
Proof.
  revert i index. induction k as [|k IH]; intros i index; cbn [scale Nat.add].
  - destruct (flt _ i) eqn:E; [done|]. intros <-. destruct n; cbn [scale]; by rewrite E.
  - destruct (flt _ i); [apply IH|done].
Qed.
(** Negative numbers are not scaled. *)
Lemma round_aux_negative pr em m e l : flt (of_Z float 999) (binary_round_aux pr em true m e l) = false.
Proof.
  unfold binary_round_aux. destruct (shr_fexp pr em m e l) as [mrs e1]. destruct (shr_fexp pr em _ e1 loc_Exact) as [mrs' e2].
  destruct (shr_m mrs'); [vm_compute; reflexivity| |vm_compute; reflexivity]. destruct (e2 <=? em - pr); vm_compute; reflexivity.
Qed.
Section fmt.
Context {HF : Fmt} {HC : Conversion}.
Lemma format_size_ok n : - 2 ^ 63 <= n < 2 ^ 63 -> exists t, format_size n = Ok t.
Proof.
  intros Hn. assert (H : exists x j, scale 10 (of_Z float n) 0 = Some (x, j) /\ (j < 9)%nat).
  { destruct n as [|p|p].
    - exists (of_Z float 0), 0%nat. split; [vm_compute; reflexivity|lia].
    - destruct (of_Z_full 24 128 ltac:(lia) ltac:(lia) (Zpos p)) as (e & Hf & _ & Hb); [lia|]. assert (Z.log2 (Zpos p) < 63) by (apply Z.log2_lt_pow2; lia).
      destruct (scale_total 7 (of_Z float (Zpos p)) 0 e Hf) as (x & j & E & Hj); [lia..|]. exists x, j. split; [by apply (scale_more 7 3)|lia].
    - exists (of_Z float (Zneg p)), 0%nat. split; [|lia]. assert (E : flt (of_Z float 999) (of_Z float (Zneg p)) = false); [|cbn [scale]; by rewrite E].
      change (of_Z float (Zneg p)) with (binary_round 24 128 true p 0). unfold binary_round. destruct (shl_align _ _ _). apply round_aux_negative. }
  destruct H as (x & j & E & Hj). unfold format_size. rewrite E. cbn [defined result_bind fst snd].
  destruct (lookup_lt_is_Some_2 SIZE_UNITS j Hj) as [u ->]. cbn [defined result_bind]. by eexists.
Qed.
Lemma int_ok (ty : IntType) z : t_min ty <= z <= t_max ty -> int_of ty z = Ok z.
Proof. intros H. unfold int_of. by rewrite (proj2 (Z.leb_le _ _)), (proj2 (Z.leb_le _ _)) by lia. Qed.
Lemma format_time_ok n negative : - 2 ^ 63 < n < 2 ^ 63 -> exists t, format_time n negative = Ok t.
Proof.
  intros Hn. unfold format_time. rewrite int_ok by (simpl; lia). cbn [result_bind]. destruct (_ <? 60); [by eexists|]. destruct (_ <? 24); [by eexists|]. destruct (_ <? 100); by eexists.
Qed.
Lemma to_int_ok x e : full 24 x e -> e <= -12 -> exists z, to_int int32 x = Some z.
Proof.
  intros (m & -> & Hm) He. unfold to_int. rewrite (proj2 (Z.leb_gt 0 e)) by lia.
  assert (H : 0 <= Zpos m / 2 ^ (- e) < 2 ^ 12).
  { split; [apply Z.div_pos; [lia|apply Z.pow_pos_nonneg; lia]|]. apply Z.div_lt_upper_bound; [apply Z.pow_pos_nonneg; lia|].
    assert (2 ^ 12 <= 2 ^ (- e)) by (apply Z.pow_le_mono_r; lia). change (2 ^ 24) with (2 ^ 12 * 2 ^ 12) in Hm. change (2 ^ 12) with 4096 in *. nia. }
  simpl in *. rewrite (proj2 (Z.leb_le _ _)), (proj2 (Z.leb_le _ _)) by lia. by eexists.
Qed.
Lemma percentage_ok b : 0 <= ticks b -> total_ticks b < 2 ^ 63 -> exists p, percentage b = Ok p.
Proof.
  intros Ht Hm. unfold percentage. destruct (Z.leb_spec (total_ticks b) (ticks b)); [by eexists|]. destruct (Z.eqb_spec (total_ticks b) 0); [by eexists|].
  destruct (Z.ltb_spec 0 (total_ticks b)); [|lia]. destruct (of_Z_full 24 128 ltac:(lia) ltac:(lia) (total_ticks b)) as (e2 & F2 & _ & B2); [lia|].
  assert (Hz : exists z, to_int int32 (fmul float (fdiv float (of_Z float (ticks b)) (of_Z float (total_ticks b))) (of_Z float 100)) = Some z); [|destruct Hz as [z ->]; by eexists].
  change (binary_normalize 24 128 (total_ticks b) 0 false) with (of_Z float (total_ticks b)) in F2.
  destruct (decide (ticks b = 0)) as [->|Hne].
  - destruct F2 as (m & -> & _). exists 0. vm_compute. reflexivity.
  - destruct (of_Z_full 24 128 ltac:(lia) ltac:(lia) (ticks b)) as (e1 & F1 & L1 & B1); [lia|].
    assert (Z.log2 (ticks b) <= Z.log2 (total_ticks b)) by (apply Z.log2_le_mono; lia). assert (Z.log2 (total_ticks b) < 63) by (apply Z.log2_lt_pow2; lia).
    destruct (div_full 24 128 ltac:(lia) _ _ _ _ F1 F2) as (e3 & F3 & B3); [unfold emin; lia|lia|].
    destruct (mul_full 24 128 ltac:(lia) _ (of_Z float 100) e3 (-17) F3) as (e4 & F4 & B4); [|unfold emin; lia|lia|].
    { exists 13107200%positive. split; [vm_compute; reflexivity|lia]. }
    apply (to_int_ok _ e4 F4). lia.
Qed.
Lemma rint_ok x e : full 53 x e -> e <= 10 -> exists r, rint x = Some r /\ 0 <= r < 2 ^ 64.
Proof.
  intros (m & -> & Hm) He. unfold rint. cbv zeta. destruct (Z.leb_spec 0 e).
  - eexists. split; [reflexivity|]. assert (1 <= 2 ^ e <= 2 ^ 10) by (split; [change 1 with (2 ^ 0)|]; apply Z.pow_le_mono_r; lia). nia.
  - assert (Hq : 0 <= Zpos m / 2 ^ (- e) <= Zpos m).
    { split; [apply Z.div_pos; [lia|apply Z.pow_pos_nonneg; lia]|]. apply Z.div_le_upper_bound; [apply Z.pow_pos_nonneg; lia|]. assert (1 <= 2 ^ (- e)) by (change 1 with (2 ^ 0); apply Z.pow_le_mono_r; lia). nia. }
    eexists. split; [reflexivity|]. repeat case_match; lia.
Qed.
End fmt.

(** ** Bars *)

(** Ticks below 2^53, times that have passed, numbers in 31 bits. *)
Record bar_ok (now : Z) b : Prop := {
  ok_ticks : 0 <= ticks b <= 2 ^ 53;
  ok_total_ticks : - 2 ^ 53 <= total_ticks b <= 2 ^ 53;
  (** The ticks at the start of the window. *)
  ok_window : 0 <= ticks b - window_ticks b <= 2 ^ 53;
  ok_begin : 0 <= begin_time b <= now;
  ok_start : 0 <= window_start b <= now;
  ok_now : now < 2 ^ 63;
  ok_speeds : - 2 ^ 63 <= current_speed b < 2 ^ 63 /\ - 2 ^ 63 <= average_speed b < 2 ^ 63;
  ok_seconds : - 2 ^ 63 < elapsed_seconds b < 2 ^ 63 /\ - 2 ^ 63 < remaining_seconds b < 2 ^ 63;
  ok_numbers : 0 <= number b < 2 ^ 31 /\ 0 <= total b < 2 ^ 31;
}.
(** Whatever counting changes, these stay. *)
Definition same_bar b b' : Prop :=
  ticks b' = ticks b /\ total_ticks b' = total_ticks b /\ number b' = number b /\ total b' = total b /\ description b' = description b /\ messages b' = messages b
  /\ auto_finish b' = auto_finish b /\ begin_time b' = begin_time b /\ (state b' = state b \/ state b = STARTED /\ state b' = SUCCESS).
Lemma quot_small a c M : - M <= a <= M -> 0 <= M -> - M <= Z.quot a c <= M.
Proof.
  intros Ha HM. destruct (decide (c = 0)) as [->|Hc]; [replace (Z.quot a 0) with 0 by (by destruct a); lia|]. assert (H : Z.abs (Z.quot a c) <= Z.abs a); [|lia].
  rewrite <-Z.quot_abs by done. rewrite Z.quot_div_nonneg by lia. apply Z.div_le_upper_bound; nia.
Qed.
Lemma speed_ok t ms : - 2 ^ 53 <= t <= 2 ^ 53 -> exists s, speed t ms = Ok s /\ - 2 ^ 63 <= s < 2 ^ 63.
Proof.
  intros Ht. unfold speed. rewrite int_ok by (simpl; lia). cbn [result_bind]. pose proof (quot_small (t * 1000) ms (2 ^ 53 * 1000) ltac:(lia) ltac:(lia)) as H.
  rewrite int_ok by (simpl in *; lia). eexists. split; [done|lia].
Qed.
Lemma update_window_ok now b : bar_ok now b -> exists start ticks s, update_window now b = Ok (start, ticks, s)
  /\ 0 <= start <= now /\ 0 <= Bars.ticks b - ticks <= 2 ^ 53 /\ - 2 ^ 63 <= s < 2 ^ 63.
Proof.
  intros [H1 H2 H3 H4 H5 H6 H7 H8 H9]. unfold update_window. rewrite int_ok by (simpl; lia). cbn [result_bind].
  destruct (_ <? _); [|destruct (_ && _)].
  - destruct (speed_ok (window_ticks b) (milliseconds (now - window_start b)) ltac:(lia)) as (s & -> & Hs). do 3 eexists. split; [reflexivity|]. split; [lia|]. split; [lia|done].
  - destruct (speed_ok (window_ticks b) (milliseconds (now - window_start b)) ltac:(lia)) as (s & -> & Hs). do 3 eexists. split; [reflexivity|]. split; [lia|]. split; [lia|done].
  - do 3 eexists. split; [reflexivity|]. split; [lia|]. split; [lia|apply H7].
Qed.
Lemma bar_update_ok now b : bar_ok now b -> exists b', update now b = Ok b' /\ bar_ok now b' /\ same_bar b b'.
Proof.
  intros Hb. pose proof Hb as [H1 H2 H3 H4 H5 H6 H7 H8 H9]. unfold update. destruct (is_finished b).
  { exists b. split; [done|]. split; [done|]. repeat (split; [done|]). by left. }
  destruct (percentage_ok b) as [p ->]; [lia..|]. cbn [result_bind]. destruct (update_window_ok now b Hb) as (start & w & s & -> & W1 & W2 & W3). cbn [result_bind].
  rewrite int_ok by (simpl; lia). cbn [result_bind].
  assert (Ha : exists a, (if milliseconds (now - begin_time b) =? 0 then Ok 0 else speed (ticks b) (milliseconds (now - begin_time b))) = Ok a /\ - 2 ^ 63 <= a < 2 ^ 63).
  { destruct (_ =? 0); [exists 0; split; [done|lia]|]. apply speed_ok. lia. }
  destruct Ha as (a & -> & Ha). cbn [result_bind].
  set (rem := if 0 <=? total_ticks b then _ else _).
  assert (Hr : exists r, rem = Ok r /\ - 2 ^ 63 < r < 2 ^ 63).
  { unfold rem. destruct (0 <=? total_ticks b); [|exists (-1); split; [done|lia]]. rewrite int_ok by (simpl; lia). cbn [result_bind].
    destruct (s =? 0); [eexists; split; [done|apply H8]|]. pose proof (quot_small (total_ticks b - ticks b) s (2 ^ 54) ltac:(lia) ltac:(lia)).
    rewrite int_ok by (simpl; lia). eexists. split; [done|lia]. }
  destruct Hr as (r & -> & Hr). cbn [result_bind]. eexists. split; [reflexivity|].
  assert (He : - 2 ^ 63 < seconds (now - begin_time b) < 2 ^ 63).
  { unfold seconds. pose proof (quot_small (now - begin_time b) (10 ^ 9) (2 ^ 63 - 1) ltac:(lia) ltac:(lia)). lia. }
  split.
  - split; simpl; try done; try lia. split; [done|]. destruct (_ && _); [lia|done].
  - repeat (split; [done|]). simpl. destruct (_ && _) eqn:E; [|by left]. right. apply andb_true_iff in E as [_ E%bool_decide_eq_true]. done.
Qed.

(** ** Columns *)

Section columns.
Context {HF : Fmt} {HC : Conversion} {HCL : ConversionLaws HC}.
Implicit Types (d : DownloadProgressBar).
Lemma dec_loop_length fuel n acc k : (n < 10 ^ N.of_nat k)%N -> (0 < k)%nat -> (length (dec_loop fuel n acc) <= length acc + k)%nat.
Proof.
  revert n acc k. induction fuel as [|fuel IH]; intros n acc k Hn Hk; simpl; [lia|]. destruct (N.eqb_spec (n / 10) 0) as [|Hne]; simpl; [lia|].
  destruct k as [|[|k]]; [lia|rewrite N.div_small in Hne by lia; done|]. etransitivity; [apply (IH _ _ (S k))|simpl; lia]; [|lia].
  rewrite Nat2N.inj_succ, N.pow_succ_r' in Hn. apply N.Div0.div_lt_upper_bound. lia.
Qed.
Lemma log10_ok n : 0 <= n < 2 ^ 31 -> exists x, log10_floor n = Ok x /\ (0 <= x <= 9 \/ x = 2 ^ 63).
Proof.
  intros Hn. unfold log10_floor. destruct (Z.ltb_spec 0 n).
  - eexists. split; [reflexivity|]. left. unfold dec_Z. rewrite (proj2 (Z.ltb_ge n 0)) by lia.
    pose proof (dec_loop_length (S (N.to_nat (N.log2 (Z.to_N n)))) (Z.to_N n) [] 10 ltac:(simpl; lia) ltac:(lia)) as H1. fold (dec_N (Z.to_N n)) in H1.
    pose proof (dec_N_nonempty (Z.to_N n)) as H2. simpl in H1. destruct (dec_N (Z.to_N n)); [done|]. simpl in *. lia.
  - replace n with 0 by lia. simpl. eexists. split; [reflexivity|]. destruct minus_infinity_cases as [->| ->]; [left; lia|by right].
Qed.
Lemma number_width_ok d : 0 <= number (bar d) < 2 ^ 31 -> 0 <= total (bar d) < 2 ^ 31 ->
  exists n, get_number_width d = Ok n /\ (1 <= n <= 10 \/ n = 2 ^ 63 + 1).
Proof.
  intros H1 H2. unfold get_number_width. destruct (log10_ok _ H1) as (x & -> & Hx). destruct (log10_ok _ H2) as (y & -> & Hy). cbn [result_bind].
  eexists. split; [reflexivity|]. rewrite size_wrap_small by lia. lia.
Qed.
(** The widths of the default layout; [n] of the numbers and [x] of the description. *)
Definition width_of (n x : Z) (w : Widget) : Z :=
  match w with Number => n | Description => x + 1 | Percent => 5 | Progress => 21 | Speed => 14 | Size => 12 | Time => 10 end.
Definition laid (n x : Z) d (ws : list Widget) : Prop := forall w, w ∈ ws -> get_total_width w d = Ok (width_of n x w).
Lemma layout_ok d : 0 <= number (bar d) < 2 ^ 31 -> 0 <= total (bar d) < 2 ^ 31 -> progress_width d = 20 ->
  exists n, 5 <= n <= 23 /\ forall ws, laid n 21 (default_layout d) ws.
Proof.
  intros H1 H2 Hp. destruct (number_width_ok (default_layout d) H1 H2) as (k & E & Hk).
  exists (size_wrap (3 + size_wrap (2 * k))). split.
  { destruct Hk as [Hk| ->]; [rewrite !size_wrap_small; rewrite ?size_wrap_small; lia|vm_compute; split; discriminate]. }
  intros ws w _. destruct w.
  - change (get_total_width Number (default_layout d)) with (let* n := get_number_width (default_layout d) in Ok (size_wrap (3 + size_wrap (2 * n) + 0))).
    rewrite E. cbn [result_bind]. by rewrite Z.add_0_r.
  - reflexivity.
  - reflexivity.
  - change (get_total_width Progress (default_layout d)) with (Ok (E := error) (size_wrap (progress_width d + 1))). by rewrite Hp.
  - reflexivity.
  - reflexivity.
  - reflexivity.
Qed.
(** The width of a line, and what does not depend on the description. *)
Definition line_width (n x : Z) (ws : list Widget) : Z := foldr (fun w a => width_of n x w + a) 0 ws.
Lemma line_width_other n x x' ws : Description ∉ ws -> line_width n x ws = line_width n x' ws.
Proof.
  induction ws as [|w ws IH]; [done|]. rewrite not_elem_of_cons. intros [Hw Hws]. simpl. rewrite (IH Hws). by destruct w.
Qed.
Lemma line_width_cons n x rest : line_width n x (Number :: Description :: rest) = n + (x + 1) + line_width n x rest.
Proof. simpl. lia. Qed.
Lemma line_width_nonneg n x ws : 0 <= n -> 0 <= x -> 0 <= line_width n x ws.
Proof. intros Hn Hx. induction ws as [|w ws IH]; simpl; [lia|]. assert (0 <= width_of n x w) by (destruct w; simpl; lia). lia. Qed.
Lemma get_bar_width_ok n x d ws : laid n x d ws -> 0 <= n -> 0 <= x -> line_width n x ws < 2 ^ 64 -> get_bar_width ws d = Ok (line_width n x ws).
Proof.
  intros Hl Hn Hx. induction ws as [|w ws IH]; intros Hb; [done|]. cbn [get_bar_width line_width foldr] in *. fold (line_width n x ws) in *.
  rewrite Hl by left. pose proof (line_width_nonneg n x ws Hn Hx). assert (0 <= width_of n x w) by (destruct w; simpl; lia).
  cbn [result_bind]. rewrite IH by (try (intros w' Hw'; apply Hl; by right); lia). cbn [result_bind]. by rewrite size_wrap_small by lia.
Qed.
Lemma laid_sub n x d ws ws' : laid n x d ws -> ws' ⊆ ws -> laid n x d ws'.
Proof. intros H Hs w Hw. by apply H, Hs. Qed.
Lemma laid_speed n x d ws s : laid n x d ws -> Speed ∉ ws -> laid n x (set_delimiter_before Speed s d) ws.
Proof. intros H Hs w Hw. specialize (H w Hw). destruct w; try exact H. done. Qed.
Lemma laid_width n x x' d ws : laid n x d ws -> delimiter_before d Description = lit " " -> 0 < x' < 2 ^ 63 -> laid n x' (set_width x' d) ws.
Proof.
  intros H Hd Hx w Hw. specialize (H w Hw). destruct w; try exact H. unfold get_total_width. cbn [set_width delimiter_before description_width]. rewrite Hd, (proj2 (Z.ltb_lt 0 x')) by lia.
  unfold size_. cbn [length lit String.list_ascii_of_string]. by rewrite size_wrap_small by lia.
Qed.
(** What a layout keeps of the bar, and the room for the description. *)
Record laid_out (W n x : Z) d0 d (rest : list Widget) : Prop := {
  out_laid : laid n x d (Number :: Description :: rest);
  out_rest : Description ∉ rest;
  out_fits : line_width n x (Number :: Description :: rest) <= W;
  out_numbers : 5 <= n <= 23 /\ 1 <= x < 2 ^ 31;
  out_delimiter : delimiter_before d Description = lit " ";
  out_same : bar d = bar d0 /\ visible d = visible d0 /\ progress_width d = progress_width d0;
}.
Lemma fit_ok W n x d0 d rest : laid n x d (Number :: Description :: rest) -> Description ∉ rest -> delimiter_before d Description = lit " " ->
  5 <= n <= 23 -> 1 <= x <= 21 -> 0 <= W < 2 ^ 31 -> let bw := line_width n x (Number :: Description :: rest) in
  bw < 2 ^ 31 -> 1 <= x + W - bw -> bar d = bar d0 /\ visible d = visible d0 /\ progress_width d = progress_width d0 ->
  exists d', fit_description W bw d = Ok d' /\ laid_out W n (x + W - bw) d0 d' rest /\ line_width n (x + W - bw) (Number :: Description :: rest) = W.
Proof.
  intros Hl Hr Hd Hn Hx HW bw Hbw Hx' Hs. unfold fit_description. rewrite (Hl Description) by (right; left). cbn [result_bind width_of].
  assert (Hbw0 : x < bw).
  { unfold bw. rewrite line_width_cons. pose proof (line_width_nonneg n x rest ltac:(lia) ltac:(lia)). lia. }
  assert (E : set_total_width (size_wrap (x + 1 + W - bw)) d = set_width (x + W - bw) d).
  { unfold set_total_width. rewrite Hd. unfold size_. cbn [length lit String.list_ascii_of_string]. rewrite (size_wrap_small (x + 1 + W - bw)) by lia. rewrite size_wrap_small by lia. f_equal. lia. }
  rewrite E. eexists. split; [reflexivity|].
  assert (HL : line_width n (x + W - bw) (Number :: Description :: rest) = W).
  { rewrite line_width_cons, (line_width_other n (x + W - bw) x rest Hr). unfold bw. rewrite line_width_cons. lia. }
  split; [|exact HL]. split; [|done|lia|split; [done|lia]|done|done]. eapply laid_width; [exact Hl|done|lia].
Qed.
(** The end of [narrow]: the description gives way. *)
Lemma finish_ok W n d0 d rest : laid n 21 d (Number :: Description :: rest) -> Description ∉ rest -> delimiter_before d Description = lit " " ->
  bar d = bar d0 /\ visible d = visible d0 /\ progress_width d = progress_width d0 -> 5 <= n <= 23 -> 42 <= W < 2 ^ 31 ->
  line_width n 21 (Number :: Description :: rest) < 2 ^ 31 -> line_width n 21 (Number :: Description :: rest) - W <= 20 ->
  exists x d', (let* bar_width := get_bar_width (Number :: Description :: rest) d in
      let* d := (if W <? bar_width then fit_description W bar_width d else Ok d) in Ok (Number :: Description :: rest, d)) = Ok (Number :: Description :: rest, d')
    /\ laid_out W n x d0 d' rest /\ x <= 21.
Proof.
  intros Hl Hr Hd Hs Hn HW Hb1 Hb2. rewrite (get_bar_width_ok n 21) by (try done; lia). cbn [result_bind].
  destruct (Z.ltb_spec W (line_width n 21 (Number :: Description :: rest))) as [Hlt|Hge].
  - destruct (fit_ok W n 21 d0 d rest) as (d' & -> & Ho & _); try done; try lia. cbn [result_bind]. do 2 eexists. split; [reflexivity|]. split; [exact Ho|lia].
  - cbn [result_bind]. exists 21, d. split; [reflexivity|]. split; [|reflexivity]. by split.
Qed.
Lemma drop_ok w W n d ws : laid n 21 d ws -> 5 <= n <= 23 -> line_width n 21 ws < 2 ^ 64 ->
  drop_wide w W (ws, d) = if W <? line_width n 21 ws then Ok (without w ws, if decide (w = Speed) then set_delimiter_before Speed (lit " ") d else d) else Ok (ws, d).
Proof. intros Hl Hn Hb. unfold drop_wide. by rewrite (get_bar_width_ok n 21) by (try done; lia). Qed.
Lemma narrow_ok W d : 0 <= number (bar d) < 2 ^ 31 -> 0 <= total (bar d) < 2 ^ 31 -> (forall w, visible d w = true) -> progress_width d = 20 -> 42 <= W < 2 ^ 31 ->
  exists n x rest d', narrow W d = Ok (Number :: Description :: rest, d') /\ laid_out W n x d d' rest /\ x <= 21.
Proof.
  intros H1 H2 Hv Hp HW. destruct (layout_ok d H1 H2 Hp) as (n & Hn & Hl). unfold narrow. cbv zeta.
  replace (List.filter _ _) with [Number; Description; Percent; Progress; Speed; Size; Time] by (simpl; by rewrite !Hv).
  set (d1 := default_layout d) in *. set (d2 := set_delimiter_before Speed (lit " ") d1).
  assert (Hin : forall (w : Widget) ws, w ∉ ws <-> List.existsb (fun w' => bool_decide (w' = w)) ws = false).
  { intros w ws. rewrite <-not_true_iff_false, existsb_exists. setoid_rewrite <-list_elem_of_In. split; intros H; [intros (w' & Hw & ->%bool_decide_eq_true); done|].
    intros Hw. apply H. exists w. split; [done|by apply bool_decide_eq_true]. }
  assert (Hfin : forall rest d', d' = d1 \/ d' = d2 /\ Speed ∉ rest -> Description ∉ rest -> line_width n 21 (Number :: Description :: rest) < 2 ^ 31 ->
    line_width n 21 (Number :: Description :: rest) - W <= 20 -> exists n0 x rest0 d0, (let* bar_width := get_bar_width (Number :: Description :: rest) d' in
      let* d := (if W <? bar_width then fit_description W bar_width d' else Ok d') in Ok (Number :: Description :: rest, d)) = Ok (Number :: Description :: rest0, d0)
      /\ laid_out W n0 x d d0 rest0 /\ x <= 21).
  { intros rest d' Hd' Hr Hb1 Hb2. destruct (finish_ok W n d d' rest) as (x & d0 & H); try done.
    - destruct Hd' as [->|[-> Hs]]; [apply Hl|]. apply laid_speed; [apply Hl|]. by rewrite !not_elem_of_cons.
    - by destruct Hd' as [->|[-> _]].
    - by destruct Hd' as [->|[-> _]].
    - by exists n, x, rest, d0. }
  assert (Hl2 : laid n 21 d2 [Number; Description; Percent; Size; Time]) by (apply laid_speed; [apply Hl|by apply Hin]).
  rewrite (drop_ok Progress W n) by (try apply Hl; simpl; lia). cbn [line_width foldr width_of]. destruct (Z.ltb_spec W (n + (21 + 1 + (5 + (21 + (14 + (12 + (10 + 0)))))))) as [HA|HA]; cycle 1.
  { cbn [result_bind]. rewrite (drop_ok Speed W n) by (try apply Hl; simpl; lia). cbn [line_width foldr width_of]. rewrite (proj2 (Z.ltb_ge _ _)) by lia. cbn [result_bind].
    rewrite (drop_ok Time W n) by (try apply Hl; simpl; lia). cbn [line_width foldr width_of]. rewrite (proj2 (Z.ltb_ge _ _)) by lia. cbn [result_bind].
    destruct (decide _); [apply Hfin|apply (Hfin [Percent; Speed; Size; Time])]; try (by left); try (by apply Hin); simpl; lia. }
  change (without Progress [Number; Description; Percent; Progress; Speed; Size; Time]) with [Number; Description; Percent; Speed; Size; Time]. cbn [result_bind]. destruct (decide (Progress = Speed)); [done|].
  rewrite (drop_ok Speed W n) by (try apply Hl; simpl; lia). cbn [line_width foldr width_of]. destruct (Z.ltb_spec W (n + (21 + 1 + (5 + (14 + (12 + (10 + 0))))))) as [HB|HB]; cycle 1.
  { cbn [result_bind]. rewrite (drop_ok Time W n) by (try apply Hl; simpl; lia). cbn [line_width foldr width_of]. rewrite (proj2 (Z.ltb_ge _ _)) by lia. cbn [result_bind].
    replace (if decide _ then _ else _) with [Number; Description; Percent; Speed; Size; Time] by (by destruct (decide _)). apply Hfin; try (by left); try (by apply Hin); simpl; lia. }
  change (without Speed [Number; Description; Percent; Speed; Size; Time]) with [Number; Description; Percent; Size; Time]. cbn [result_bind]. destruct (decide (Speed = Speed)); [|done]. fold d2.
  rewrite (drop_ok Time W n) by (try done; simpl; lia). cbn [line_width foldr width_of]. destruct (decide (Time = Speed)); [done|].
  destruct (Z.ltb_spec W (n + (21 + 1 + (5 + (12 + (10 + 0)))))) as [HD|HD]; cbn [result_bind].
  - change (without Time [Number; Description; Percent; Size; Time]) with [Number; Description; Percent; Size]. replace (if decide _ then _ else _) with [Number; Description; Percent; Size] by (by destruct (decide _)).
    apply Hfin; try (right; split; [done|]); try (by apply Hin); simpl; lia.
  - replace (if decide _ then _ else _) with [Number; Description; Percent; Size; Time] by (by destruct (decide _)).
    apply Hfin; try (right; split; [done|]); try (by apply Hin); simpl; lia.
Qed.
(** ** The line *)

Lemma progress_text_ok now d : bar_ok now (bar d) -> progress_width d = 20 -> exists t, progress_text now d = Ok t.
Proof.
  intros [H1 H2 _ H4 _ H6 _ _ _] Hp. unfold progress_text. rewrite Hp. destruct (Z.ltb_spec 0 (total_ticks (bar d))) as [Ht|Ht].
  - set (x := fmul _ _ _). assert (H : exists r, rint x = Some r /\ 0 <= r < 2 ^ 64).
    { destruct (of_Z_full 53 1024 ltac:(lia) ltac:(lia) (total_ticks (bar d))) as (e2 & F2 & _ & B2); [lia|].
      assert (L2 : 0 <= Z.log2 (total_ticks (bar d)) <= 53) by (split; [apply Z.log2_nonneg|etransitivity; [apply Z.log2_le_mono, H2|by vm_compute]]).
      change (binary_normalize 53 1024 (total_ticks (bar d)) 0 false) with (of_Z double (total_ticks (bar d))) in F2.
      destruct (decide (ticks (bar d) = 0)) as [E|Hne].
      - exists 0. split; [|lia]. unfold x. rewrite E. destruct F2 as (m & -> & _). vm_compute. reflexivity.
      - destruct (of_Z_full 53 1024 ltac:(lia) ltac:(lia) (ticks (bar d))) as (e1 & F1 & _ & B1); [lia|].
        assert (L1 : 0 <= Z.log2 (ticks (bar d)) <= 53) by (split; [apply Z.log2_nonneg|etransitivity; [apply Z.log2_le_mono, H1|by vm_compute]]).
        destruct (div_full 53 1024 ltac:(lia) _ _ _ _ F1 F2) as (e3 & F3 & B3); [unfold emin; lia|lia|].
        destruct (mul_full 53 1024 ltac:(lia) _ (Floats.fsub double (of_Z double 20) (of_Z double 2)) e3 (-48) F3) as (e4 & F4 & B4); [|unfold emin; lia|lia|].
        { exists 5066549580791808%positive. split; [vm_compute; reflexivity|lia]. }
        apply (rint_ok _ e4 F4). lia. }
    destruct H as (r & -> & Hr). cbn [defined result_bind]. rewrite int_ok by (simpl; lia). cbn [result_bind]. by eexists.
  - rewrite int_ok by (simpl; lia). cbn [result_bind]. change (size_wrap (20 - 4) =? 0) with false. cbn [result_bind]. by eexists.
Qed.
Lemma to_string_ok now d w n x ws : bar_ok now (bar d) -> progress_width d = 20 -> laid n x d ws -> w ∈ ws -> Description ∈ ws -> exists t, to_string now w d = Ok t.
Proof.
  intros Hb Hp Hl Hw Hd. unfold to_string. destruct (negb (visible d w)); [by eexists|]. pose proof Hb as [H1 H2 H3 H4 H5 H6 [H7 H7'] [H8 H8'] [H9 H9']].
  assert (H : forall r : result error cstr, (exists t, r = Ok t) -> exists t, (let* text := r in Ok (delimiter_before d w ++ text)) = Ok t) by (intros r [t ->]; by eexists).
  apply H. destruct w; unfold number_text, description_text, speed_text, size_text, time_text.
  - destruct (number_width_ok d H9 H9') as (k & -> & _). by eexists.
  - rewrite (Hl Description Hd). by eexists.
  - by eexists.
  - by apply progress_text_ok.
  - destruct (format_size_ok (if shows_whole_run (bar d) then average_speed (bar d) else current_speed (bar d))) as [t ->]; [by destruct (shows_whole_run _)|]. by eexists.
  - apply format_size_ok. lia.
  - destruct (shows_whole_run _); by apply format_time_ok.
Qed.
Lemma setw_take w t : 0 <= w < 2 ^ 31 -> Z.of_nat (length (setw_left w (take (Z.to_nat w) t))) = w.
Proof.
  intros Hw. unfold setw_left, fill. assert (E : to_int32 w = w).
  { unfold to_int32. cbv zeta. rewrite wrap_small by lia. by rewrite (proj2 (Z.ltb_lt _ _)) by lia. }
  rewrite E, length_app, length_replicate, length_take. lia.
Qed.
Lemma columns_ok now d n x all ws : bar_ok now (bar d) -> progress_width d = 20 -> laid n x d all -> Description ∈ all -> ws ⊆ all -> 0 <= n < 2 ^ 31 -> 0 <= x < 2 ^ 31 - 1 ->
  exists t, columns now d ws = Ok t /\ Z.of_nat (length t) = line_width n x ws.
Proof.
  intros Hb Hp Hl Hd Hs Hn Hx. induction ws as [|w ws IH]; [by exists []|]. destruct IH as (rest & E & HL); [set_solver|]. cbn [columns line_width foldr].
  assert (Hw : w ∈ all) by (apply Hs; left). destruct (to_string_ok now d w n x all Hb Hp Hl Hw Hd) as [t Et]. unfold column. rewrite (Hl w Hw), Et. cbn [result_bind]. rewrite E. cbn [result_bind].
  eexists. split; [reflexivity|]. rewrite length_app, Nat2Z.inj_add, HL, setw_take; [done|]. destruct w; simpl; lia.
Qed.
(** A download bar that can be printed. *)
Record download_ok (now : Z) d : Prop := {
  ok_bar : bar_ok now (bar d);
  ok_visible : forall w, visible d w = true;
  ok_progress : progress_width d = 20;
}.
Definition same_download d d' : Prop := same_bar (bar d) (bar d') /\ visible d' = visible d /\ progress_width d' = progress_width d.
Lemma same_download_ok now d d' : download_ok now d -> same_download d d' -> bar_ok now (bar d') -> download_ok now d'.
Proof. intros [H1 H2 H3] (_ & Hv & Hp) Hb. split; [done|intros w; by rewrite Hv|by rewrite Hp]. Qed.
Lemma line_ok interactive W now d : download_ok now d -> 42 <= W < 2 ^ 31 ->
  exists d' out, to_stream interactive W now d = Ok (d', out) /\ download_ok now d' /\ same_download d d'
    /\ if interactive || negb (bool_decide (state (bar d') = STARTED))
       then exists line, out = colored interactive (state_color (state (bar d'))) [Text line] ++ flat_map (message_out interactive W) (messages (bar d))
              /\ Z.of_nat (length line) = W
              /\ Forall (fun m => Z.of_nat (length (lit ">>> " ++ take (Z.to_nat (size_wrap (W - 4))) (snd m))) <= W) (messages (bar d))
       else out = [].
Proof.
  intros [Hb Hv Hp] HW. unfold to_stream. destruct (bar_update_ok now (bar d) Hb) as (b' & -> & Hb' & Hsame). cbn [result_bind]. cbv zeta. rewrite (size_wrap_small W) by lia.
  destruct (narrow_ok W (with_bar b' d)) as (n & x & rest & d1 & -> & [O1 O2 O3 [O4 O4'] O5 (O6 & O7 & O8)] & Hx); try done; try apply Hb'. cbn [result_bind]. simpl in O6, O7, O8.
  assert (Hd1 : download_ok now d1) by (split; [by rewrite O6|intros w; by rewrite O7|by rewrite O8]).
  assert (Hs1 : same_download d d1) by (unfold same_download; by rewrite O6, O7, O8).
  assert (Hm : Forall (fun m : MessageType * cstr => Z.of_nat (length (lit ">>> " ++ take (Z.to_nat (size_wrap (W - 4))) (snd m))) <= W) (messages (bar d))).
  { apply Forall_forall. intros m _. rewrite size_wrap_small by lia. rewrite length_app, length_take. simpl. lia. }
  assert (Hmsg : messages (bar d1) = messages (bar d)) by (rewrite O6; apply Hsame).
  assert (Hline : exists d2 line, widen W (Number :: Description :: rest) d1 = Ok d2 /\ columns now d2 (Number :: Description :: rest) = Ok line /\ Z.of_nat (length line) = W
    /\ bar d2 = bar d1 /\ visible d2 = visible d1 /\ progress_width d2 = progress_width d1).
  { unfold widen. pose proof (line_width_nonneg n x (Number :: Description :: rest) ltac:(lia) ltac:(lia)) as H0. rewrite (get_bar_width_ok n x) by (try done; lia). cbn [result_bind].
    destruct (Z.ltb_spec (line_width n x (Number :: Description :: rest)) W) as [Hlt|Hge].
    - destruct (fit_ok W n x d1 d1 rest) as (d2 & E2 & [L1 L2 L3 [L4 L4'] L5 (L6 & L7 & L8)] & HL); try done; try lia. rewrite E2. exists d2.
      destruct (columns_ok now d2 n _ _ (Number :: Description :: rest) ltac:(rewrite L6; apply Hd1) ltac:(by rewrite L8, O8) L1) as (t & Et & Ht); [right; left|done|lia| |].
      { rewrite line_width_cons in *. pose proof (line_width_nonneg n x rest ltac:(lia) ltac:(lia)). lia. }
      exists t. split; [done|]. split; [done|]. by rewrite Ht, HL.
    - exists d1. destruct (columns_ok now d1 n x _ (Number :: Description :: rest) ltac:(apply Hd1) ltac:(by rewrite O8) O1) as (t & Et & Ht); [right; left|done|lia|lia|].
      exists t. split; [done|]. split; [done|]. split; [lia|done]. }
  destruct Hline as (d2 & line & E2 & Ec & HL & S1 & S2 & S3). destruct interactive; simpl orb.
  - rewrite andb_false_r. rewrite E2. cbn [result_bind]. rewrite Ec. cbn [result_bind]. eexists _, _. split; [reflexivity|].
    split; [split; [rewrite S1; apply Hd1|rewrite S2; apply Hd1|rewrite S3; apply Hd1]|]. split; [unfold same_download; by rewrite S1, S2, S3|]. exists line. rewrite S1, Hmsg. done.
  - rewrite andb_true_r. destruct (bool_decide (state (bar d1) = STARTED)) eqn:Es.
    + eexists _, _. split; [reflexivity|]. split; [done|]. split; [done|]. by rewrite Es.
    + rewrite E2. cbn [result_bind]. rewrite Ec. cbn [result_bind]. eexists _, _. split; [reflexivity|].
      split; [split; [rewrite S1; apply Hd1|rewrite S2; apply Hd1|rewrite S3; apply Hd1]|]. split; [unfold same_download; by rewrite S1, S2, S3|]. rewrite S1, Es. exists line. rewrite Hmsg. done.
Qed.
(** C15. Printing a download bar never fails on a terminal of 42 columns and more: the
    columns that are chosen, with the description cut or widened, are together just as wide as the
    terminal. The bar's messages follow, each on a line that is not wider. A bar in
    progress prints nothing when nobody watches. C++ leaves open what the logarithm of 0 becomes
    as an integer; it is assumed to be 0 or the highest bit ([ConversionLaws]). *)
Theorem line_fills_terminal interactive W now d : download_ok now d -> 42 <= W < 2 ^ 31 ->
  exists d' out, to_stream interactive W now d = Ok (d', out) /\ download_ok now d' /\ same_download d d'
    /\ if interactive || negb (bool_decide (state (bar d') = STARTED))
       then exists line, out = colored interactive (state_color (state (bar d'))) [Text line] ++ flat_map (message_out interactive W) (messages (bar d))
              /\ Z.of_nat (length line) = W
              /\ Forall (fun m => Z.of_nat (length (lit ">>> " ++ take (Z.to_nat (size_wrap (W - 4))) (snd m))) <= W) (messages (bar d))
       else out = [].
Proof. apply line_ok. Qed.
End columns.
End BarLines.
