(* ===== verification/MultiBars.v ===== *)
(** * MultiBars: several bars on one screen ([progressbar/multi_progress_bar.cpp])

    The bars that are shown are objects that the caller also holds and changes. A
    print clears what the last one left for bars in progress, prints the bars that are
    finished for good, then those in progress, a divider and a total. *)

From S2P Require Import Prelude Numeric Bars.
Local Open Scope Z_scope.

Module MultiBars.
Import Numeric Bars.

Record MultiProgressBar := mkMulti {
  (** The bars by their addresses. *)
  store : gmap nat DownloadProgressBar;
  bars_all : list nat; bars_todo : list nat; bars_done : list nat;
  total_bar : DownloadProgressBar;
  printed_lines : Z;
}.
Implicit Types (m : MultiProgressBar) (d : DownloadProgressBar).
Definition new_multi (now : Z) : MultiProgressBar :=
  let total := new_download now 0 (lit "Total") in
  mkMulti ∅ [] [] [] (with_bar (start now (set_auto_finish false (bar total))) total) 0.
Definition on_bar (f : ProgressBar -> ProgressBar) d : DownloadProgressBar := with_bar (f (bar d)) d.
Definition on_bar_result (f : ProgressBar -> result error ProgressBar) d : result error DownloadProgressBar := let* b := f (bar d) in Ok (with_bar b d).
Definition with_store (s : gmap nat DownloadProgressBar) m : MultiProgressBar := mkMulti s (bars_all m) (bars_todo m) (bars_done m) (total_bar m) (printed_lines m).
Definition with_total (d : DownloadProgressBar) m : MultiProgressBar := mkMulti (store m) (bars_all m) (bars_todo m) (bars_done m) d (printed_lines m).
Definition get_bar m (id : nat) : result error DownloadProgressBar := match store m !! id with Some d => Ok d | None => Err Undefined end.

(** A bar that the caller made. *)
Definition highest_number m (ids : list nat) : Z := fold_left (fun n id => Z.max n (match store m !! id with Some d => number (bar d) | None => 0 end)) ids 0.
Definition add_bar (id : nat) m : result error MultiProgressBar :=
  let m := mkMulti (store m) (bars_all m ++ [id]) (bars_todo m ++ [id]) (bars_done m) (total_bar m) (printed_lines m) in
  let m := with_total (on_bar (set_total (Z.of_nat (length (bars_all m)))) (total_bar m)) m in
  let* d := get_bar m id in
  let m := if number (bar d) =? 0 then with_store (<[id := on_bar (set_number (highest_number m (bars_todo m) + 1)) d]> (store m)) m else m in
  Ok (with_store (fold_left (fun s id => alter (on_bar (set_total (total (bar (total_bar m))))) id s) (bars_all m) (store m)) m).

Section print.
Context {HF : Fmt} {HC : Conversion}.
(** What the last print left goes. *)
Definition clear (interactive : bool) (lines : Z) : list Out :=
  if interactive then ClearLine :: concat (replicate (Z.to_nat (lines - 1)) [CursorUp; ClearLine]) ++ [Return] else [].
(** [back] and [pop_back] of the numbers. *)
Definition take_back (numbers : list Z) : result error (Z * list Z) :=
  match rev numbers with [] => Err Undefined | n :: rest => Ok (n, rev rest) end.
Definition numbers_of m : result error (list Z) :=
  fold_left (fun r id => let* numbers := r in let* d := get_bar m id in Ok (number (bar d) :: numbers)) (bars_todo m) (Ok []).
(** Finished bars are printed and leave the list; the result has the others in their order. *)
Fixpoint print_finished (interactive : bool) (W now : Z) (todo : list nat) (numbers : list Z) m : result error (list nat * list Z * MultiProgressBar * list Out) :=
  match todo with
  | [] => Ok ([], numbers, m, [])
  | id :: todo =>
      let* d := get_bar m id in
      if negb (is_finished (bar d)) then
        let* x := print_finished interactive W now todo numbers m in
        let '(todo, numbers, m, out) := x in Ok (id :: todo, numbers, m, out)
      else
        let* x := take_back numbers in
        let '(n, numbers) := x in
        let* y := to_stream interactive W now (on_bar (set_number n) d) in
        let '(d, line) := y in
        let m := mkMulti (<[id := d]> (store m)) (bars_all m) (bars_todo m) (bars_done m ++ [id]) (total_bar m) (printed_lines m) in
        let* x := print_finished interactive W now todo numbers m in
        let '(todo, numbers, m, out) := x in
        Ok (todo, numbers, m, line ++ [Endl] ++ out)
  end.
(** The bars in progress; those that have not started are only updated. *)
Fixpoint print_started (interactive : bool) (W now : Z) (todo : list nat) (numbers : list Z) m : result error (MultiProgressBar * list Out) :=
  match todo with
  | [] => Ok (m, [])
  | id :: todo =>
      let* d := get_bar m id in
      let* x := take_back numbers in
      let '(n, numbers) := x in
      let d := on_bar (set_number n) d in
      if negb (bool_decide (state (bar d) = STARTED)) || negb interactive then
        let* d := on_bar_result (update now) d in
        print_started interactive W now todo numbers (with_store (<[id := d]> (store m)) m)
      else
        let* y := to_stream interactive W now d in
        let '(d, line) := y in
        let m := mkMulti (<[id := d]> (store m)) (bars_all m) (bars_todo m) (bars_done m) (total_bar m)
                   (size_wrap (printed_lines m + 1 + Z.of_nat (length (messages (bar d))))) in
        let* x := print_started interactive W now todo numbers m in
        let '(m, out) := x in
        Ok (m, line ++ [Endl] ++ out)
  end.
(** The sums over bars: all ticks and those that are done. *)
Definition sum_bars m (f : ProgressBar -> Z) (ids : list nat) (acc : Z * Z) : result error (Z * Z) :=
  fold_left (fun r id =>
    let* acc := r in
    let* d := get_bar m id in
    let* total_ticks := int_of int64 (fst acc + f (bar d)) in
    let* ticks := int_of int64 (snd acc + ticks (bar d)) in
    Ok (total_ticks, ticks)) ids (Ok acc).
Definition print_total (interactive : bool) (W now : Z) m : result error (MultiProgressBar * list Out) :=
  let* sums := sum_bars m ticks (bars_done m) (0, 0) in
  let* sums := sum_bars m total_ticks (bars_todo m) sums in
  let finished := match bars_todo m with [] => true | _ => false end in
  let* d := (if finished then on_bar_result (set_state now SUCCESS) (total_bar m) else Ok (total_bar m)) in
  let m := with_total d m in
  if interactive || finished then
    if W <? 0 then Err Undefined
    else
      let d := on_bar (set_total_ticks (fst sums)) (on_bar (set_number (Z.of_nat (length (bars_done m)))) d) in
      let* d := on_bar_result (set_ticks (snd sums)) d in
      let* y := to_stream interactive W now d in
      let '(d, line) := y in
      Ok (mkMulti (store m) (bars_all m) (bars_todo m) (bars_done m) d (size_wrap (printed_lines m + 2)),
          [Text (replicate (Z.to_nat W) "-"%char); Endl] ++ line)
  else Ok (m, []).
(** [operator<<] *)
Definition print (interactive : bool) (W now : Z) m : result error (MultiProgressBar * list Out) :=
  let cleared := clear interactive (printed_lines m) in
  let m := mkMulti (store m) (bars_all m) (bars_todo m) (bars_done m) (total_bar m) 0 in
  let* numbers := numbers_of m in
  let* x := print_finished interactive W now (bars_todo m) numbers m in
  let '(todo, numbers, m, finished) := x in
  let m := mkMulti (store m) (bars_all m) todo (bars_done m) (total_bar m) (printed_lines m) in
  let* x := print_started interactive W now todo numbers m in
  let '(m, started) := x in
  let* x := print_total interactive W now m in
  let '(m, total) := x in
  Ok (m, cleared ++ finished ++ started ++ total).
End print.

(** ** The screen *)

(** The lines above the cursor, nearest first, its own, and those below. Texts are of
    characters that take a column each: nothing here is for control characters in a description or a message. *)
Record Screen := mkScreen { above : list cstr; line : cstr; col : nat; below : list cstr }.
Implicit Types (sc : Screen).
Definition write (s : cstr) sc : Screen :=
  let padded := line sc ++ replicate (col sc - length (line sc)) space in
  mkScreen (above sc) (take (col sc) padded ++ s ++ drop (col sc + length s) padded) (col sc + length s) (below sc).
Definition emit (sc : Screen) (o : Out) : Screen :=
  match o with
  | Text s => write s sc
  | Endl => mkScreen (line sc :: above sc) (hd [] (below sc)) 0 (tl (below sc))
  | ClearLine => mkScreen (above sc) [] (col sc) (below sc)
  | CursorUp => match above sc with [] => sc | a :: rest => mkScreen rest a (col sc) (line sc :: below sc) end
  | Return => mkScreen (above sc) (line sc) 0 (below sc)
  | SetColor _ | ResetColor | CursorHide | CursorShow => sc
  end.
Definition run (sc : Screen) (out : list Out) : Screen := fold_left emit out sc.
(** The lines that plain output makes, when it starts behind a text. *)
Fixpoint lines_from (current : cstr) (out : list Out) : list cstr :=
  match out with
  | [] => [current]
  | Text s :: out => lines_from (current ++ s) out
  | Endl :: out => current :: lines_from [] out
  | _ :: out => lines_from current out
  end.
End MultiBars.
