(* ===== verification/MultiScreen.v ===== *)
(** * MultiScreen: what several bars leave on the screen

    Whatever happens to the bars between two prints, a print replaces just what the
    last one left for bars in progress; lines of finished bars stay. *)

From S2P Require Import Prelude Numeric Bars BarLines MultiBars.
Local Open Scope Z_scope.

Module MultiScreen.
Import Numeric Bars BarLines MultiBars.
Implicit Types (m : MultiProgressBar) (d : DownloadProgressBar) (sc : Screen) (out : list Out) (ls : list cstr).

(** ** Output without movements *)

Definition is_plain (o : Out) : bool := match o with ClearLine | CursorUp | Return => false | _ => true end.
Definition plain out : Prop := Forall (fun o => is_plain o = true) out.
Definition blank ls : Prop := Forall (fun l => l = []) ls.
Lemma lines_from_endl current a b : lines_from current (a ++ Endl :: b) = lines_from current a ++ lines_from [] b.
Proof. revert current. induction a as [|o a IH]; intros current; [done|]. destruct o; simpl; by rewrite IH. Qed.
Lemma run_cons sc o out : run sc (o :: out) = run (emit sc o) out.
Proof. done. Qed.
Lemma run_plain sc out : plain out -> col sc = length (line sc) -> blank (below sc) -> let sc' := run sc out in
  rev (above sc') ++ [line sc'] = rev (above sc) ++ lines_from (line sc) out /\ col sc' = length (line sc') /\ blank (below sc').
Proof.
  cbv zeta. intros Hp. revert sc. induction Hp as [|o out Ho Hp IH]; intros sc Hc Hb; [done|]. rewrite run_cons.
  destruct o; try done; try exact (IH sc Hc Hb).
  - cbn [emit]. destruct (IH (write s sc)) as (H1 & H2 & H3).
    + cbn [write col line]. rewrite Hc, Nat.sub_diag. cbn [replicate]. rewrite app_nil_r, firstn_all, drop_ge by lia. by rewrite app_nil_r, length_app.
    + done.
    + split; [|done]. cbn [lines_from]. rewrite H1. cbn [write above line]. by rewrite Hc, Nat.sub_diag, app_nil_r, firstn_all, drop_ge, app_nil_r by lia.
  - destruct (IH (emit sc Endl)) as (H1 & H2 & H3).
    + cbn [emit col line]. destruct (below sc); [done|]. by apply Forall_cons in Hb as [-> _].
    + cbn [emit below]. destruct (below sc); [done|]. by apply Forall_cons in Hb as [_ Hb].
    + split; [|done]. cbn [lines_from]. rewrite H1. cbn [emit above line rev]. rewrite <-app_assoc. simpl. destruct (below sc); [done|]. by apply Forall_cons in Hb as [-> _].
Qed.
(** Output that is some whole lines. *)
Definition rendered out ls : Prop := plain out /\ forall rest, lines_from [] (out ++ rest) = ls ++ lines_from [] rest.
Lemma rendered_nil : rendered [] [].
Proof. split; [constructor|done]. Qed.
Lemma rendered_app a b la lb : rendered a la -> rendered b lb -> rendered (a ++ b) (la ++ lb).
Proof.
  intros [Ha1 Ha2] [Hb1 Hb2]. split; [by apply Forall_app|]. intros rest. by rewrite <-app_assoc, Ha2, Hb2, app_assoc.
Qed.
Lemma rendered_endl out : plain out -> rendered (out ++ [Endl]) (lines_from [] out).
Proof.
  intros Hp. split; [apply Forall_app; split; [done|by repeat constructor]|]. intros rest. rewrite <-app_assoc. apply lines_from_endl.
Qed.

(** ** Clearing *)

(** The screen has the lines that stay, and below them [n] lines that go. *)
Record shows sc (kept : list cstr) (n : Z) : Prop := {
  shows_blank : blank (below sc);
  shows_nothing : n = 0 -> rev (above sc) = kept;
  shows_block : 0 < n -> exists block, rev (above sc) ++ [line sc] = kept ++ block /\ Z.of_nat (length block) = n;
}.
Lemma run_app sc a b : run sc (a ++ b) = run (run sc a) b.
Proof. apply fold_left_app. Qed.
Lemma ups k sc : (k <= length (above sc))%nat -> line sc = [] -> let sc' := run sc (concat (replicate k [CursorUp; ClearLine])) in
  above sc' = drop k (above sc) /\ line sc' = [] /\ (blank (below sc) -> blank (below sc')).
Proof.
  cbv zeta. revert sc. induction k as [|k IH]; intros sc Hk Hl; [by rewrite drop_0|]. cbn [replicate concat app]. rewrite !run_cons.
  destruct sc as [[|a rest] l c bl]; cbn [above line] in *; [simpl in Hk; lia|]. subst l. cbn [emit above line col below].
  destruct (IH (mkScreen rest [] c ([] :: bl))) as (H1 & H2 & H3); [simpl in *; lia|done|]. split; [by rewrite H1|]. split; [done|].
  intros Hb. apply H3. by constructor.
Qed.
Lemma clear_ok sc kept n : shows sc kept n -> 0 <= n -> let sc' := run sc (clear true n) in
  rev (above sc') = kept /\ line sc' = [] /\ col sc' = 0%nat /\ blank (below sc').
Proof.
  cbv zeta. intros [Hb H0 H1] Hn. unfold clear. rewrite run_cons, run_app. cbn [emit]. set (sc1 := mkScreen (above sc) [] (col sc) (below sc)).
  assert (Hk : exists back, rev (above sc) = kept ++ back /\ length back = Z.to_nat (n - 1)).
  { destruct (decide (n = 0)) as [->|Hne]; [exists []; rewrite app_nil_r; split; [by apply H0|done]|]. destruct H1 as (block & E & Hlen); [lia|].
    destruct block as [|l block _] using rev_ind; [simpl in *; lia|]. rewrite app_assoc in E. apply app_inj_tail in E as [E _]. exists block. split; [done|].
    rewrite length_app in Hlen. simpl in Hlen. lia. }
  destruct Hk as (back & E & Hlen). assert (Habove : above sc = rev back ++ rev kept) by (by rewrite <-rev_app_distr, <-E, rev_involutive).
  destruct (ups (Z.to_nat (n - 1)) sc1) as (U1 & U2 & U3); [simpl; rewrite Habove, length_app, length_rev; lia|done|].
  assert (D : drop (Z.to_nat (n - 1)) (above sc1) = rev kept) by (cbn [sc1 above]; rewrite Habove, <-Hlen, <-(length_rev back); apply drop_app_length).
  cbn [run fold_left emit above line col below]. rewrite U1, D, rev_involutive. split; [done|]. split; [done|]. split; [done|]. by apply U3.
Qed.

(** ** Lines of bars *)

(** The line of a bar, as wide as the screen, and its messages. *)
Definition shown (W : Z) d ls : Prop :=
  exists first rest, ls = first :: rest /\ Z.of_nat (length first) = W /\ length rest = length (messages (bar d)) /\ Forall (fun l => Z.of_nat (length l) <= W) ls.
Lemma lines_colored interactive c s current rest : lines_from current (colored interactive c [Text s] ++ rest) = lines_from (current ++ s) rest.
Proof. destruct c as [c|]; [|done]. by destruct interactive. Qed.
Lemma plain_colored interactive c s : plain (colored interactive c [Text s]).
Proof. destruct c as [c|]; [destruct interactive|]; by repeat constructor. Qed.
Lemma message_lines interactive W ms current :
  lines_from current (flat_map (message_out interactive W) ms) = current :: map (fun m : MessageType * cstr => lit ">>> " ++ take (Z.to_nat (size_wrap (W - 4))) (snd m)) ms.
Proof.
  revert current. induction ms as [|x ms IH]; intros current; [done|]. cbn [flat_map map]. unfold message_out at 1. rewrite <-app_assoc. cbn [app lines_from]. f_equal.
  rewrite lines_colored. apply IH.
Qed.

Section bars.
Context {HF : Fmt} {HC : Conversion} {HCL : ConversionLaws HC}.
Lemma stream_lines W now d : download_ok now d -> 42 <= W < 2 ^ 31 ->
  exists d' out, to_stream true W now d = Ok (d', out) /\ download_ok now d' /\ same_download d d' /\ plain out /\ shown W d (lines_from [] out).
Proof.
  intros Hd HW. destruct (line_ok true W now d Hd HW) as (d' & out & E & Hd' & Hs & line & -> & HL & Hm). eexists d', _. split; [exact E|]. split; [done|]. split; [done|]. split.
  - apply Forall_app. split; [apply plain_colored|]. apply Forall_flat_map. apply Forall_forall. intros m _. unfold message_out. do 2 (apply Forall_cons; split; [done|]). apply plain_colored.
  - rewrite lines_colored, message_lines. cbn [app]. exists line, (map (fun m : MessageType * cstr => lit ">>> " ++ take (Z.to_nat (size_wrap (W - 4))) (snd m)) (messages (bar d))).
    split; [done|]. split; [done|]. split; [by rewrite length_map|]. apply Forall_cons. split; [lia|]. rewrite List.Forall_map. exact Hm.
Qed.

(** ** The store *)

(** What printing does not change of a bar. *)
Definition alike d d' : Prop :=
  ticks (bar d') = ticks (bar d) /\ total_ticks (bar d') = total_ticks (bar d) /\ total (bar d') = total (bar d) /\ messages (bar d') = messages (bar d)
  /\ description (bar d') = description (bar d).
#[global] Instance alike_refl : Reflexive alike.
Proof. done. Qed.
#[global] Instance alike_trans : Transitive alike.
Proof. intros a b c (?&?&?&?&?) (?&?&?&?&?). unfold alike. split_and!; congruence. Qed.
Definition stores_alike (s s' : gmap nat DownloadProgressBar) : Prop := forall id, option_Forall2 alike (s !! id) (s' !! id).
#[global] Instance stores_alike_refl : Reflexive stores_alike.
Proof. intros s id. destruct (s !! id); by constructor. Qed.
#[global] Instance stores_alike_trans : Transitive stores_alike.
Proof.
  intros a b c H1 H2 id. specialize (H1 id). specialize (H2 id). destruct H1 as [d1 d2 H|]; inversion H2; subst; constructor. by etransitivity.
Qed.
Lemma alike_insert s id d d' : s !! id = Some d -> alike d d' -> stores_alike s (<[id := d']> s).
Proof. intros E Ha i. destruct (decide (i = id)) as [->|Hne]; [rewrite lookup_insert_eq, E; by constructor|rewrite lookup_insert_ne by done; apply stores_alike_refl]. Qed.
Lemma download_alike d d' n : same_download (on_bar (set_number n) d) d' -> alike d d' /\ number (bar d') = n.
Proof. intros ((A1 & A2 & A3 & A4 & A5 & A6 & _) & _). done. Qed.
Definition sum_over (f : DownloadProgressBar -> Z) (s : gmap nat DownloadProgressBar) (ids : list nat) : Z :=
  foldr (fun id a => match s !! id with Some d => f d | None => 0 end + a) 0 ids.
Lemma sum_alike f s s' ids : stores_alike s s' -> (forall d d', alike d d' -> f d' = f d) -> sum_over f s' ids = sum_over f s ids.
Proof.
  intros Hs Hf. induction ids as [|id ids IH]; [done|]. simpl. rewrite IH. f_equal. destruct (Hs id) as [d d' Ha|]; [by apply Hf|done].
Qed.
Lemma sum_app f s a b : sum_over f s (a ++ b) = sum_over f s a + sum_over f s b.
Proof. induction a as [|id a IH]; [done|]. simpl. rewrite IH. lia. Qed.
Lemma sum_nonneg f s ids : (forall d id, id ∈ ids -> s !! id = Some d -> 0 <= f d) -> 0 <= sum_over f s ids.
Proof.
  induction ids as [|id ids IH]; intros H; simpl; [lia|]. assert (0 <= sum_over f s ids) by (apply IH; intros d i Hi; apply H; by right).
  destruct (s !! id) as [d|] eqn:E; [|lia]. pose proof (H d id ltac:(left) E). lia.
Qed.
Lemma sum_le f g s ids : (forall d id, id ∈ ids -> s !! id = Some d -> f d <= g d) -> sum_over f s ids <= sum_over g s ids.
Proof.
  induction ids as [|id ids IH]; intros H; simpl; [lia|]. assert (sum_over f s ids <= sum_over g s ids) by (apply IH; intros d i Hi; apply H; by right).
  destruct (s !! id) as [d|] eqn:E; [|lia]. pose proof (H d id ltac:(left) E). lia.
Qed.
Definition finished_id (s : gmap nat DownloadProgressBar) (id : nat) : bool := match s !! id with Some d => is_finished (bar d) | None => false end.
Definition started_id (s : gmap nat DownloadProgressBar) (id : nat) : bool := match s !! id with Some d => bool_decide (state (bar d) = STARTED) | None => false end.
Definition number_of (s : gmap nat DownloadProgressBar) (id : nat) : Z := match s !! id with Some d => number (bar d) | None => 0 end.
Definition bars_fine (now : Z) (s : gmap nat DownloadProgressBar) (ids : list nat) : Prop := forall id, id ∈ ids -> exists d, s !! id = Some d /\ download_ok now d.
(** Every bar of the list has its lines. *)
Definition lines_for (W : Z) (s : gmap nat DownloadProgressBar) (ids : list nat) (lss : list (list cstr)) : Prop :=
  Forall2 (fun id ls => exists d, s !! id = Some d /\ shown W d ls) ids lss.
Definition numbers_ok (ns : list Z) : Prop := Forall (fun n => 0 <= n < 2 ^ 31) ns.
Lemma set_number_ok now n d : download_ok now d -> 0 <= n < 2 ^ 31 -> download_ok now (on_bar (set_number n) d).
Proof. intros [[H1 H2 H3 H4 H5 H6 H7 H8 [_ H9]] Hv Hp] Hn. split; [|done|done]. by split. Qed.
Lemma take_back_rev n ns : take_back (rev (n :: ns)) = Ok (n, rev ns).
Proof. unfold take_back. by rewrite rev_involutive. Qed.
Lemma agree_filter {A} (f g : A -> bool) l : (forall x, x ∈ l -> f x = g x) -> List.filter f l = List.filter g l.
Proof.
  induction l as [|x l IH]; intros H; [done|]. simpl. rewrite H by left. rewrite IH; [done|]. intros y Hy. apply H. by right.
Qed.

(** ** The three parts of a print *)

Lemma lines_for_same W s s' ids lss : (forall id, id ∈ ids -> s !! id = s' !! id) -> lines_for W s ids lss -> lines_for W s' ids lss.
Proof.
  intros H Hl. induction Hl as [|id ls ids lss (d & E & Hd) Hl IH]; constructor.
  - exists d. split; [|done]. by rewrite <-H by left.
  - apply IH. intros i Hi. apply H. by right.
Qed.
Lemma fine_same now s s' ids : (forall id, id ∈ ids -> s !! id = s' !! id) -> bars_fine now s ids -> bars_fine now s' ids.
Proof. intros H Hf id Hid. destruct (Hf id Hid) as (d & E & Hd). exists d. by rewrite <-H. Qed.
(** What printing a list of bars does to the rest. *)
Record printed now (ids : list nat) (ns : list Z) m m' : Prop := {
  printed_alike : stores_alike (store m) (store m');
  printed_others : forall id, id ∉ ids -> store m' !! id = store m !! id;
  printed_fine : bars_fine now (store m') ids;
  printed_numbers : map (number_of (store m')) ids = ns;
  printed_total : total_bar m' = total_bar m;
}.
Lemma printed_cons now id ids n ns d d' m m1 m' : store m !! id = Some d -> alike d d' -> download_ok now d' -> number (bar d') = n -> id ∉ ids ->
  store m1 = <[id := d']> (store m) -> total_bar m1 = total_bar m -> printed now ids ns m1 m' -> printed now (id :: ids) (n :: ns) m m'.
Proof.
  intros E Ha Hd Hn Hid Es Et [P1 P2 P3 P4 P5]. assert (E' : store m' !! id = Some d') by (by rewrite P2, Es, lookup_insert_eq). split.
  - etransitivity; [|exact P1]. rewrite Es. by eapply alike_insert.
  - intros i [Hi1 Hi2]%not_elem_of_cons. by rewrite P2, Es, lookup_insert_ne.
  - intros i [->|Hi]%elem_of_cons; [by exists d'|by apply P3].
  - simpl. rewrite P4. unfold number_of at 1. by rewrite E', Hn.
  - congruence.
Qed.
Lemma finished_ok W now todo ns m : bars_fine now (store m) todo -> NoDup todo -> numbers_ok ns -> 42 <= W < 2 ^ 31 ->
  let fin := List.filter (finished_id (store m)) todo in (length fin <= length ns)%nat ->
  exists m' out lss, print_finished true W now todo (rev ns) m = Ok (List.filter (fun id => negb (finished_id (store m) id)) todo, rev (drop (length fin) ns), m', out)
    /\ bars_done m' = bars_done m ++ fin /\ printed_lines m' = printed_lines m /\ rendered out (concat lss) /\ lines_for W (store m) fin lss
    /\ printed now fin (take (length fin) ns) m m'.
Proof.
  intros Hf Hnd Hns HW. cbv zeta. revert ns m Hf Hns. induction Hnd as [|id todo Hid Hnd IH]; intros ns m Hf Hns Hlen.
  { exists m, [], []. simpl. rewrite drop_0, app_nil_r. split; [done|]. split; [done|]. split; [done|]. split; [apply rendered_nil|]. split; [constructor|].
    split; [done|done|by intros id ?%elem_of_nil|by rewrite take_0|done]. }
  destruct (Hf id ltac:(left)) as (d & E & Hd). assert (Hf' : bars_fine now (store m) todo) by (intros i Hi; apply Hf; by right).
  cbn [print_finished List.filter] in *. unfold get_bar. rewrite E. cbn [result_bind].
  assert (Eid : finished_id (store m) id = is_finished (bar d)) by (unfold finished_id; by rewrite E). rewrite Eid in *.
  destruct (is_finished (bar d)) eqn:Efin; cbn [negb].
  - destruct ns as [|n ns]; [simpl in Hlen; lia|]. apply Forall_cons in Hns as [Hn Hns]. rewrite take_back_rev. cbn [result_bind].
    destruct (stream_lines W now _ (set_number_ok now n d Hd Hn) HW) as (d' & line & -> & Hd' & Hs & Hp & Hsh). cbn [result_bind]. destruct (download_alike d d' n Hs) as [Ha Hnum].
    set (m1 := mkMulti (<[id := d']> (store m)) _ _ _ _ _).
    assert (Hsame : forall i, i ∈ todo -> store m !! i = store m1 !! i) by (intros i Hi; cbn [m1 store]; rewrite lookup_insert_ne; [done|]; by intros ->).
    assert (Hfin : List.filter (finished_id (store m1)) todo = List.filter (finished_id (store m)) todo) by (apply agree_filter; intros i Hi; unfold finished_id; by rewrite <-Hsame).
    assert (Hfin' : List.filter (fun id => negb (finished_id (store m1) id)) todo = List.filter (fun id => negb (finished_id (store m) id)) todo) by (apply agree_filter; intros i Hi; unfold finished_id; by rewrite <-Hsame).
    destruct (IH ns m1) as (m' & out & lss & -> & D1 & D2 & D3 & D4 & D5); [by apply (fine_same now (store m))|done|rewrite Hfin; simpl in Hlen; lia|]. rewrite Hfin, Hfin' in *.
    exists m', (line ++ [Endl] ++ out), (lines_from [] line :: lss). cbn [result_bind length]. split; [done|]. split; [rewrite D1; cbn [m1 bars_done]; by rewrite <-app_assoc|]. split; [done|].
    split; [rewrite app_assoc; apply rendered_app; [by apply rendered_endl|done]|]. split.
    + constructor; [by exists d|]. apply (lines_for_same W (store m1)); [|done]. intros i [Hi _]%list_elem_of_In%filter_In. symmetry. by apply Hsame, list_elem_of_In.
    + cbn [take]. eapply (printed_cons _ _ _ _ _ d d' m m1); [exact E|exact Ha|exact Hd'|exact Hnum| |reflexivity|reflexivity|exact D5]. intros [Hi _]%list_elem_of_In%filter_In. by apply Hid, list_elem_of_In.
  - destruct (IH ns m Hf' Hns Hlen) as (m' & out & lss & -> & D). exists m', out, lss. exact (conj eq_refl D).
Qed.
Definition line_count (d : DownloadProgressBar) : Z := 1 + Z.of_nat (length (messages (bar d))).
Lemma on_bar_result_ok now f d : download_ok now d -> (exists b, f (bar d) = Ok b /\ bar_ok now b /\ same_bar (bar d) b) ->
  exists d', on_bar_result f d = Ok d' /\ download_ok now d' /\ same_download d d'.
Proof. intros [H1 H2 H3] (b & E & Hb & Hs). unfold on_bar_result. rewrite E. eexists. split; [reflexivity|]. split; [by split|done]. Qed.
Lemma started_ok W now todo ns m : bars_fine now (store m) todo -> NoDup todo -> numbers_ok ns -> length ns = length todo -> 42 <= W < 2 ^ 31 ->
  0 <= printed_lines m -> printed_lines m + sum_over line_count (store m) todo < 2 ^ 64 ->
  exists m' out lss, print_started true W now todo (rev ns) m = Ok (m', out)
    /\ bars_done m' = bars_done m /\ bars_todo m' = bars_todo m /\ rendered out (concat lss) /\ lines_for W (store m) (List.filter (started_id (store m)) todo) lss
    /\ printed_lines m' = printed_lines m + Z.of_nat (length (concat lss)) /\ printed now todo ns m m'.
Proof.
  intros Hf Hnd Hns Hlen HW. revert ns m Hf Hns Hlen. induction Hnd as [|id todo Hid Hnd IH]; intros ns m Hf Hns Hlen Hp0 Hp.
  { destruct ns; [|done]. exists m, [], []. split; [done|]. split; [done|]. split; [done|]. split; [apply rendered_nil|]. split; [constructor|]. split; [simpl; lia|].
    split; [done|done|by intros id ?%elem_of_nil|done|done]. }
  destruct ns as [|n ns]; [done|]. apply Forall_cons in Hns as [Hn Hns]. injection Hlen as Hlen.
  destruct (Hf id ltac:(left)) as (d & E & Hd). assert (Hf' : bars_fine now (store m) todo) by (intros i Hi; apply Hf; by right).
  cbn [print_started List.filter sum_over foldr] in *. fold (sum_over line_count (store m) todo) in *. unfold get_bar. rewrite E in *. cbn [result_bind]. rewrite take_back_rev. cbn [result_bind].
  assert (Eid : started_id (store m) id = bool_decide (state (bar d) = STARTED)) by (unfold started_id; by rewrite E). rewrite Eid. change (state (bar (on_bar (set_number n) d))) with (state (bar d)).
  pose proof (set_number_ok now n d Hd Hn) as Hdn. rewrite orb_false_r.
  assert (Hpos : 0 <= sum_over line_count (store m) todo) by (apply sum_nonneg; intros ? ? _ _; unfold line_count; lia).
  assert (Hnext : forall d', alike d d' -> download_ok now d' -> number (bar d') = n -> forall p, 0 <= p -> p + sum_over line_count (store m) todo < 2 ^ 64 ->
    let m1 := mkMulti (<[id := d']> (store m)) (bars_all m) (bars_todo m) (bars_done m) (total_bar m) p in
    exists m' out lss, print_started true W now todo (rev ns) m1 = Ok (m', out) /\ bars_done m' = bars_done m /\ bars_todo m' = bars_todo m /\ rendered out (concat lss)
      /\ lines_for W (store m) (List.filter (started_id (store m)) todo) lss /\ printed_lines m' = p + Z.of_nat (length (concat lss)) /\ printed now (id :: todo) (n :: ns) m m').
  { intros d' Ha Hd' Hnum p Hp1 Hp2 m1. assert (Hsame : forall i, i ∈ todo -> store m !! i = store m1 !! i) by (intros i Hi; cbn [m1 store]; rewrite lookup_insert_ne; [done|]; by intros ->).
    assert (Hst : List.filter (started_id (store m1)) todo = List.filter (started_id (store m)) todo) by (apply agree_filter; intros i Hi; unfold started_id; by rewrite <-Hsame).
    assert (Hsum : sum_over line_count (store m1) todo = sum_over line_count (store m) todo).
    { apply sum_alike; [by eapply alike_insert|]. intros ? ? (_ & _ & _ & Hm & _). unfold line_count. by rewrite Hm. }
    destruct (IH ns m1) as (m' & out & lss & E1 & D1 & D2 & D3 & D4 & D5 & D6); [by apply (fine_same now (store m))|done|done|done|by rewrite Hsum|]. rewrite Hst in D4.
    exists m', out, lss. split; [exact E1|]. split; [done|]. split; [done|]. split; [done|]. split; [|split; [done|by apply (printed_cons _ _ _ _ _ d d' m m1)]].
    apply (lines_for_same W (store m1)); [|done]. intros i [Hi _]%list_elem_of_In%filter_In. symmetry. by apply Hsame, list_elem_of_In. }
  destruct (bool_decide (state (bar d) = STARTED)) eqn:Est; cbn [negb].
  - destruct (stream_lines W now _ Hdn HW) as (d' & line & -> & Hd' & Hs & Hpl & Hsh). cbn [result_bind]. destruct (download_alike d d' n Hs) as [Ha Hnum].
    assert (Hmsg : messages (bar d') = messages (bar d)) by apply Ha.
    assert (Hcnt : Z.of_nat (length (lines_from [] line)) = line_count d) by (destruct Hsh as (? & ? & -> & _ & Hr & _); simpl in *; unfold line_count; lia).
    rewrite Hmsg. replace (printed_lines m + 1 + Z.of_nat (length (messages (bar d)))) with (printed_lines m + line_count d) by (unfold line_count; lia). rewrite size_wrap_small by (unfold line_count in *; lia).
    destruct (Hnext d' Ha Hd' Hnum (printed_lines m + line_count d)) as (m' & out & lss & -> & D1 & D2 & D3 & D4 & D5 & D6); [unfold line_count; lia|lia|].
    cbn [result_bind]. exists m', (line ++ [Endl] ++ out), (lines_from [] line :: lss). split; [done|]. split; [done|]. split; [done|].
    split; [rewrite app_assoc; apply rendered_app; [by apply rendered_endl|done]|]. split; [constructor; [by exists d|done]|]. split; [|done].
    rewrite D5. cbn [concat]. rewrite length_app. lia.
  - destruct (on_bar_result_ok now (update now) _ Hdn) as (d' & -> & Hd' & Hs); [destruct (bar_update_ok now _ (ok_bar _ _ Hdn)) as (b & H); by exists b|]. cbn [result_bind].
    destruct (download_alike d d' n Hs) as [Ha Hnum]. unfold with_store. apply Hnext; try done. unfold line_count in Hp at 1. lia.
Qed.

(** ** The total *)

Definition weight (d : DownloadProgressBar) : Z := ticks (bar d) + Z.abs (total_ticks (bar d)).
Lemma sum_bars_ok now m f ids acc : bars_fine now (store m) ids -> (forall d, download_ok now d -> Z.abs (f (bar d)) <= weight d) ->
  Z.abs (fst acc) + sum_over weight (store m) ids < 2 ^ 62 -> 0 <= snd acc -> snd acc + sum_over weight (store m) ids < 2 ^ 62 ->
  exists r, sum_bars m f ids acc = Ok r /\ Z.abs (fst r) <= Z.abs (fst acc) + sum_over weight (store m) ids /\ 0 <= snd r <= snd acc + sum_over weight (store m) ids.
Proof.
  intros Hf Hw. revert acc. induction ids as [|id ids IH]; intros acc H1 H2 H3; [exists acc; simpl; split; [done|lia]|].
  destruct (Hf id ltac:(left)) as (d & E & Hd). cbn [sum_over foldr] in *. fold (sum_over weight (store m) ids) in *. rewrite E in *.
  assert (Hf' : bars_fine now (store m) ids) by (intros i Hi; apply Hf; by right).
  assert (H0 : 0 <= sum_over weight (store m) ids).
  { apply sum_nonneg. intros d' i Hi E'. destruct (Hf' i Hi) as (d2 & E2 & [[Ht _] _ _]). rewrite E' in E2. injection E2 as <-. unfold weight. lia. }
  pose proof (Hw d Hd) as Hfd. assert (Htd : 0 <= ticks (bar d) <= weight d) by (destruct Hd as [[Ht _] _ _]; unfold weight; lia).
  unfold sum_bars. cbn [fold_left result_bind]. unfold get_bar. rewrite E. cbn [result_bind]. rewrite int_ok by (simpl; lia). cbn [result_bind]. rewrite int_ok by (simpl; lia). cbn [result_bind].
  destruct (IH Hf' (fst acc + f (bar d), snd acc + ticks (bar d))) as (r & Er & R1 & R2); [simpl; lia..|]. exists r. split; [exact Er|]. simpl in *. lia.
Qed.
Lemma set_ticks_ok now v b : bar_ok now b -> 0 <= v <= 2 ^ 53 -> exists b', set_ticks v b = Ok b' /\ bar_ok now b' /\ messages b' = messages b.
Proof.
  intros Hb Hv. pose proof Hb as [H1 H2 H3 H4 H5 H6 H7 H8 H9]. unfold set_ticks. destruct (is_finished b); [by exists b|]. cbv zeta. set (new := if 0 <=? total_ticks b then _ else _).
  assert (Hn : 0 <= new <= 2 ^ 53) by (unfold new; destruct (Z.leb_spec 0 (total_ticks b)); lia). rewrite int_ok by (simpl; lia). cbn [result_bind]. rewrite int_ok by (simpl; lia). cbn [result_bind].
  eexists. split; [reflexivity|]. split; [|done]. split; simpl; try done; lia.
Qed.
Lemma print_total_ok W now m : bars_fine now (store m) (bars_done m ++ bars_todo m) -> download_ok now (total_bar m) -> messages (bar (total_bar m)) = [] -> 42 <= W < 2 ^ 31 ->
  sum_over weight (store m) (bars_done m ++ bars_todo m) <= 2 ^ 53 -> Z.of_nat (length (bars_done m)) < 2 ^ 31 -> 0 <= printed_lines m -> printed_lines m + 2 < 2 ^ 64 ->
  exists m' out divider line, print_total true W now m = Ok (m', out) /\ store m' = store m /\ bars_done m' = bars_done m /\ bars_todo m' = bars_todo m
    /\ printed_lines m' = printed_lines m + 2 /\ download_ok now (total_bar m') /\ messages (bar (total_bar m')) = []
    /\ plain out /\ lines_from [] out = [divider; line] /\ Z.of_nat (length divider) = W /\ Z.of_nat (length line) = W.
Proof.
  intros Hf Hd Hm HW Hs Hn Hp Hp2. unfold print_total. rewrite sum_app in Hs.
  assert (F1 : bars_fine now (store m) (bars_done m)) by (intros i Hi; apply Hf, elem_of_app; by left). assert (F2 : bars_fine now (store m) (bars_todo m)) by (intros i Hi; apply Hf, elem_of_app; by right).
  assert (S0 : forall ids, bars_fine now (store m) ids -> 0 <= sum_over weight (store m) ids).
  { intros ids F. apply sum_nonneg. intros d' i Hi E'. destruct (F i Hi) as (d2 & E2 & [[Ht _] _ _]). rewrite E' in E2. injection E2 as <-. unfold weight. lia. }
  pose proof (S0 _ F1). pose proof (S0 _ F2).
  destruct (sum_bars_ok now m ticks (bars_done m) (0, 0) F1) as (s1 & -> & A1 & A2); [intros d' [[Ht _] _ _]; unfold weight; lia|simpl; lia..|]. cbn [result_bind].
  destruct (sum_bars_ok now m total_ticks (bars_todo m) s1 F2) as (s2 & -> & B1 & B2); [intros d' [[Ht _] _ _]; unfold weight; lia|simpl in *; lia..|]. cbn [result_bind]. simpl in A1, A2.
  set (r := if match bars_todo m with [] => true | _ => false end then _ else _).
  assert (Hr : exists d, r = Ok d /\ download_ok now d /\ messages (bar d) = []).
  { unfold r. destruct (bars_todo m); [|by exists (total_bar m)]. destruct (bar_update_ok now _ (ok_bar _ _ Hd)) as (b & E & [C1 C2 C3 C4 C5 C6 C7 C8 C9] & (_ & _ & _ & _ & _ & Eq & _)).
    unfold on_bar_result, set_state. rewrite E. cbn [result_bind]. eexists. split; [reflexivity|]. split; [split; [by split|apply Hd|apply Hd]|]. simpl. congruence. }
  destruct Hr as (d & -> & Hd2 & Hm2). cbn [result_bind]. rewrite orb_true_l. rewrite (proj2 (Z.ltb_ge W 0)) by lia.
  set (d3 := on_bar (set_total_ticks (fst s2)) (on_bar (set_number (Z.of_nat (length (bars_done m)))) d)).
  assert (Hd3 : download_ok now d3 /\ messages (bar d3) = []).
  { pose proof (set_number_ok now (Z.of_nat (length (bars_done m))) d Hd2 ltac:(lia)) as Hdn. unfold d3. set (dn := on_bar (set_number _) d) in *. split; [|cbn [on_bar bar with_bar]; unfold set_total_ticks; by destruct (is_finished _)].
    pose proof Hdn as [[C1 C2 C3 C4 C5 C6 C7 C8 C9] Hv Hw]. split; [|done|done]. cbn [on_bar bar with_bar]. unfold set_total_ticks. destruct (is_finished (bar dn)); [by split|]. split; simpl; try done; lia. }
  destruct Hd3 as [Hd3 Hm3]. destruct (set_ticks_ok now (snd s2) (bar d3) (ok_bar _ _ Hd3)) as (b4 & E4 & Hb4 & Hm4); [lia|].
  unfold on_bar_result at 1. change (bars_done (with_total d m)) with (bars_done m). fold d3. rewrite E4. cbn [result_bind].
  assert (Hd4 : download_ok now (with_bar b4 d3)) by (split; [done|apply Hd3|apply Hd3]).
  destruct (stream_lines W now _ Hd4 HW) as (d5 & line & -> & Hd5 & Hs5 & Hpl & (first & rest & El & Hw & Hlen & _)). cbn [result_bind].
  cbn [bar with_bar] in Hlen. rewrite Hm4, Hm3 in Hlen. destruct rest; [|done]. do 4 eexists. split; [reflexivity|]. split; [done|]. split; [done|]. split; [done|].
  split; [cbn [printed_lines with_total]; by rewrite size_wrap_small by lia|]. split; [exact Hd5|]. split; [transitivity (messages b4); [apply Hs5|by rewrite Hm4]|].
  split; [by repeat (constructor; [done|])|]. split; [cbn [app lines_from]; by rewrite El|]. split; [|done]. rewrite length_replicate. lia.
Qed.

(** ** The whole print *)

Lemma filter_split {A} (f : A -> bool) l : List.filter f l ++ List.filter (fun x => negb (f x)) l ≡ₚ l.
Proof. induction l as [|x l IH]; [done|]. simpl. destruct (f x); simpl; [by rewrite IH|]. by rewrite <-Permutation_middle, IH. Qed.
Lemma sum_perm f s a b : a ≡ₚ b -> sum_over f s a = sum_over f s b.
Proof. induction 1; simpl; lia. Qed.
Lemma numbers_of_ok now m : bars_fine now (store m) (bars_todo m) -> numbers_of m = Ok (rev (map (number_of (store m)) (bars_todo m))).
Proof.
  intros Hf. unfold numbers_of. rewrite <-(app_nil_r (rev _)). generalize (@nil Z) as acc. revert Hf. induction (bars_todo m) as [|id ids IH]; intros Hf acc; [done|].
  destruct (Hf id ltac:(left)) as (d & E & _). assert (En : number_of (store m) id = number (bar d)) by (unfold number_of; by rewrite E).
  cbn [fold_left result_bind map rev]. unfold get_bar at 2. rewrite E, En. cbn [result_bind].
  rewrite <-app_assoc. simpl. apply IH. intros i Hi. apply Hf. by right.
Qed.
(** Bars that are shown are there and can be printed, and nothing is too much. *)
Record multi_ok (now : Z) m : Prop := {
  ok_fine : bars_fine now (store m) (bars_done m ++ bars_todo m);
  ok_distinct : NoDup (bars_done m ++ bars_todo m);
  ok_total : download_ok now (total_bar m) /\ messages (bar (total_bar m)) = [];
  ok_weight : sum_over weight (store m) (bars_done m ++ bars_todo m) <= 2 ^ 53;
  ok_length : Z.of_nat (length (bars_done m ++ bars_todo m)) < 2 ^ 31;
  ok_lines : sum_over line_count (store m) (bars_todo m) < 2 ^ 31;
  ok_printed : 0 <= printed_lines m;
}.
(** What a print leaves: the bars, the lines that stay from now on, and those below them. *)
Record outcome (W now : Z) m sc kept m' sc' (finished started : list (list cstr)) (divider total : cstr) : Prop := {
  outcome_ok : multi_ok now m';
  outcome_done : bars_done m' = bars_done m ++ List.filter (finished_id (store m)) (bars_todo m);
  outcome_todo : bars_todo m' = List.filter (fun id => negb (finished_id (store m) id)) (bars_todo m);
  outcome_alike : stores_alike (store m) (store m');
  outcome_numbers : map (number_of (store m')) (bars_done m' ++ bars_todo m') = map (number_of (store m)) (bars_done m ++ bars_todo m);
  outcome_finished : lines_for W (store m) (List.filter (finished_id (store m)) (bars_todo m)) finished;
  outcome_started : lines_for W (store m) (List.filter (started_id (store m)) (bars_todo m)) started;
  outcome_width : Z.of_nat (length divider) = W /\ Z.of_nat (length total) = W;
  outcome_screen : rev (above sc') ++ [line sc'] = kept ++ concat finished ++ concat started ++ [divider; total];
  outcome_below : blank (below sc');
  outcome_shows : shows sc' (kept ++ concat finished) (printed_lines m');
}.
Lemma filter_finer {A} (f g : A -> bool) l : (forall x, f x = true -> g x = true) -> List.filter f (List.filter g l) = List.filter f l.
Proof.
  intros H. induction l as [|x l IH]; [done|]. simpl. destruct (g x) eqn:G; simpl; [by rewrite IH|]. destruct (f x) eqn:F; [by rewrite H in G|done].
Qed.
Lemma started_unfinished s ids : List.filter (started_id s) (List.filter (fun id => negb (finished_id s id)) ids) = List.filter (started_id s) ids.
Proof.
  apply filter_finer. intros id. unfold started_id, finished_id, is_finished. destruct (s !! id) as [d|]; [|done]. intros ->%bool_decide_eq_true. done.
Qed.
Lemma count_lines W s ids lss : lines_for W s ids lss -> Z.of_nat (length (concat lss)) = sum_over line_count s ids.
Proof.
  induction 1 as [|id ls ids lss (d & E & first & rest & -> & _ & Hr & _) Hl IH]; [done|]. cbn [concat sum_over foldr]. fold (sum_over line_count s ids). rewrite E, length_app. unfold line_count at 1. simpl. lia.
Qed.
Lemma sum_filter_le f s g ids : (forall d, 0 <= f d) -> sum_over f s (List.filter g ids) <= sum_over f s ids.
Proof.
  intros Hf. rewrite <-(sum_perm f s _ _ (filter_split g ids)), sum_app. pose proof (sum_nonneg f s (List.filter (fun x => negb (g x)) ids) ltac:(auto)). lia.
Qed.
(** The two lists after the bars are printed. *)
Record bars_printed W now m m' (out : list Out) (finished started : list (list cstr)) : Prop := {
  bars_done_ok : bars_done m' = bars_done m ++ List.filter (finished_id (store m)) (bars_todo m);
  bars_todo_ok : bars_todo m' = List.filter (fun id => negb (finished_id (store m) id)) (bars_todo m);
  bars_alike : stores_alike (store m) (store m');
  bars_numbers : map (number_of (store m')) (bars_done m' ++ bars_todo m') = map (number_of (store m)) (bars_done m ++ bars_todo m);
  bars_finished : lines_for W (store m) (List.filter (finished_id (store m)) (bars_todo m)) finished;
  bars_started : lines_for W (store m) (List.filter (started_id (store m)) (bars_todo m)) started;
  bars_rendered : rendered out (concat finished ++ concat started);
  bars_lines : printed_lines m' = Z.of_nat (length (concat started));
  bars_still_fine : bars_fine now (store m') (bars_done m' ++ bars_todo m');
  bars_total : total_bar m' = total_bar m;
}.
Lemma bars_ok W now m : multi_ok now m -> 42 <= W < 2 ^ 31 ->
  exists numbers todo numbers' m1 out1 m2 out2 finished started, numbers_of (mkMulti (store m) (bars_all m) (bars_todo m) (bars_done m) (total_bar m) 0) = Ok numbers
    /\ print_finished true W now (bars_todo m) numbers (mkMulti (store m) (bars_all m) (bars_todo m) (bars_done m) (total_bar m) 0) = Ok (todo, numbers', m1, out1)
    /\ print_started true W now todo numbers' (mkMulti (store m1) (bars_all m1) todo (bars_done m1) (total_bar m1) (printed_lines m1)) = Ok (m2, out2)
    /\ bars_printed W now m m2 (out1 ++ out2) finished started.
Proof.
  intros [K1 K2 _ _ _ K6 _] HW. set (m0 := mkMulti (store m) _ _ _ _ 0).
  assert (F1 : bars_fine now (store m) (bars_done m)) by (intros i Hi; apply K1, elem_of_app; by left). assert (F2 : bars_fine now (store m) (bars_todo m)) by (intros i Hi; apply K1, elem_of_app; by right).
  set (ns := map (number_of (store m)) (bars_todo m)). set (fin := List.filter (finished_id (store m)) (bars_todo m)). set (unfin := List.filter (fun id => negb (finished_id (store m) id)) (bars_todo m)).
  pose proof (filter_split (finished_id (store m)) (bars_todo m)) as Hsplit. fold fin unfin in Hsplit. assert (Hlen : (length fin + length unfin)%nat = length (bars_todo m)) by (by rewrite <-length_app, Hsplit).
  assert (Hns : numbers_ok ns).
  { apply List.Forall_map, Forall_forall. intros id Hid. destruct (F2 id Hid) as (d & E & [[_ _ _ _ _ _ _ _ [Hn _]] _ _]). unfold number_of. by rewrite E. }
  apply NoDup_app in K2 as (N1 & N2 & N3).
  destruct (finished_ok W now (bars_todo m) ns m0 F2 N3 Hns HW) as (m1 & out1 & lss1 & E1 & D1 & D2 & D3 & D4 & [P1 P2 P3 P4 P5]); [unfold ns; rewrite length_map; change (length fin <= length (bars_todo m))%nat; lia|].
  change (store m0) with (store m) in *. fold fin unfin in E1, D1, D3, D4, P1, P2, P3, P4.
  set (m1' := mkMulti (store m1) (bars_all m1) unfin (bars_done m1) (total_bar m1) (printed_lines m1)).
  assert (Hut : forall id, id ∈ unfin -> id ∈ bars_todo m) by (intros id [H _]%list_elem_of_In%filter_In; by apply list_elem_of_In).
  assert (Hft : forall id, id ∈ fin -> id ∈ bars_todo m) by (intros id [H _]%list_elem_of_In%filter_In; by apply list_elem_of_In).
  assert (NF : NoDup (fin ++ unfin)) by (by rewrite Hsplit). apply NoDup_app in NF as (NF1 & NF2 & NF3).
  assert (Hfu : forall id, id ∈ unfin -> id ∉ fin) by (intros id H1 H2; exact (NF2 id H2 H1)).
  assert (Hsame : forall id, id ∈ unfin -> store m !! id = store m1 !! id) by (intros id Hid; symmetry; by apply P2, Hfu).
  assert (Hlines : sum_over line_count (store m1) unfin <= sum_over line_count (store m) (bars_todo m)).
  { rewrite (sum_alike line_count (store m)); [apply sum_filter_le; intros; unfold line_count; lia|exact P1|intros ? ? (_ & _ & _ & Hm & _); unfold line_count; by rewrite Hm]. }
  destruct (started_ok W now unfin (drop (length fin) ns) m1') as (m2 & out2 & lss2 & E2 & G1 & G2 & G3 & G4 & G5 & [Q1 Q2 Q3 Q4 Q5]);
    [apply (fine_same now (store m)); [done|intros i Hi; by apply F2, Hut]|done|by apply Forall_drop|rewrite length_drop; unfold ns; rewrite length_map; lia|done|cbn; rewrite D2; done|cbn; rewrite D2; cbn; lia|].
  change (store m1') with (store m1) in *. change (total_bar m1') with (total_bar m1) in Q5. cbn [bars_done m1' bars_todo printed_lines] in G1, G2, G5. rewrite D1 in G1. rewrite D2 in G5. cbn in G1, G5.
  assert (Hst : List.filter (started_id (store m1)) unfin = List.filter (started_id (store m)) (bars_todo m)).
  { rewrite <-(started_unfinished (store m) (bars_todo m)). fold unfin. apply agree_filter. intros i Hi. unfold started_id. by rewrite Hsame. }
  apply (lines_for_same W _ (store m)) in G4; [|intros i [Hi _]%list_elem_of_In%filter_In; symmetry; by apply Hsame, list_elem_of_In]. rewrite Hst in G4.
  assert (Hold : forall i, i ∈ bars_done m -> store m2 !! i = store m !! i) by (intros i Hi; rewrite Q2 by (intros H; exact (N2 i Hi (Hut i H))); apply P2; intros H; exact (N2 i Hi (Hft i H))).
  assert (Hfin : forall i, i ∈ fin -> store m2 !! i = store m1 !! i) by (intros i Hi; apply Q2; intros H; by eapply Hfu).
  exists (rev ns), unfin, (rev (drop (length fin) ns)), m1, out1, m2, out2, lss1, lss2.
  split; [exact (numbers_of_ok now m0 F2)|]. split; [exact E1|]. split; [exact E2|]. split.
  - done.
  - done.
  - by etransitivity.
  - rewrite G1, G2, !map_app, <-app_assoc, Q4. f_equal; [apply map_ext_in; intros i Hi; unfold number_of; by rewrite Hold by by apply list_elem_of_In|].
    transitivity (take (length fin) ns ++ drop (length fin) ns); [f_equal; rewrite <-P4|apply take_drop]. apply map_ext_in. intros i Hi. unfold number_of. by rewrite Hfin by by apply list_elem_of_In.
  - done.
  - done.
  - by apply rendered_app.
  - done.
  - rewrite G1, G2. intros i [[Hi|Hi]%elem_of_app|Hi]%elem_of_app; [rewrite Hold by done; by apply F1|rewrite Hfin by done; by apply P3|by apply Q3].
  - by rewrite Q5, P5.
Qed.
Lemma print_ok W now m sc kept : multi_ok now m -> 42 <= W < 2 ^ 31 -> shows sc kept (printed_lines m) ->
  exists m' out finished started divider total, print true W now m = Ok (m', out) /\ outcome W now m sc kept m' (run sc out) finished started divider total.
Proof.
  intros Hok HW Hsc. pose proof Hok as [K1 K2 [K3 K3'] K4 K5 K6 K7].
  destruct (bars_ok W now m Hok HW) as (ns & todo & ns' & m1 & out1 & m2 & out2 & fin & started & E0 & E1 & E2 & [B1 B2 B3 B4 B5 B6 B7 B8 B9 B10]).
  assert (Hperm : bars_done m2 ++ bars_todo m2 ≡ₚ bars_done m ++ bars_todo m) by (rewrite B1, B2, <-app_assoc; by rewrite filter_split).
  assert (Hweight : sum_over weight (store m2) (bars_done m2 ++ bars_todo m2) <= 2 ^ 53).
  { rewrite (sum_perm _ _ _ _ Hperm), (sum_alike weight (store m)); [done|done|]. intros ? ? (H1 & H2 & _). unfold weight. by rewrite H1, H2. }
  assert (Hlen : Z.of_nat (length (bars_done m2 ++ bars_todo m2)) < 2 ^ 31) by (by rewrite Hperm).
  assert (Hcount : Z.of_nat (length (concat started)) <= sum_over line_count (store m) (bars_todo m)).
  { rewrite (count_lines _ _ _ _ B6). apply sum_filter_le. intros d. unfold line_count. lia. }
  destruct (print_total_ok W now m2 B9) as (m3 & out3 & divider & total & E3 & T1 & T2 & T3 & T4 & T5 & T6 & T7 & T8 & T9 & T10);
    [rewrite B10; apply K3|rewrite B10; apply K3'|done|done|rewrite length_app in Hlen; lia|lia|lia|].
  exists m3, (clear true (printed_lines m) ++ out1 ++ out2 ++ out3), fin, started, divider, total.
  split; [unfold print; cbv zeta; rewrite E0; cbn [result_bind bars_todo]; rewrite E1; cbn [result_bind]; rewrite E2; cbn [result_bind]; rewrite E3; reflexivity|].
  destruct (clear_ok sc kept (printed_lines m) Hsc K7) as (C1 & C2 & C3 & C4). rewrite run_app. set (sc1 := run sc _) in *.
  destruct B7 as [Bp Br]. rewrite (app_assoc out1).
  destruct (run_plain sc1 ((out1 ++ out2) ++ out3)) as (R1 & R2 & R3); [by apply Forall_app|by rewrite C2, C3|done|]. rewrite C1, C2, Br, T8, <-(app_assoc (concat fin)) in R1.
  assert (Hsum : sum_over line_count (store m3) (bars_todo m3) < 2 ^ 31).
  { rewrite T1, T3, B2. eapply Z.le_lt_trans; [|exact K6]. rewrite (sum_alike line_count (store m)); [apply sum_filter_le; intros; unfold line_count; lia|done|].
    intros ? ? (_ & _ & _ & Hm & _). unfold line_count. by rewrite Hm. }
  split; try (rewrite ?T1, ?T2, ?T3; done).
  - rewrite T1, T3 in Hsum. split; rewrite ?T1, ?T2, ?T3; try done; [by rewrite Hperm|lia].
  - split; [done|intros ?; exfalso; lia|]. intros _. exists (concat started ++ [divider; total]). rewrite R1, <-!app_assoc. split; [done|]. rewrite length_app, T4, B8. simpl. lia.
Qed.
(** ** Any number of prints *)

Definition bars_of (s : gmap nat DownloadProgressBar) (ids : list nat) : list DownloadProgressBar := omap (fun id => s !! id) ids.
Lemma lines_of_bars W s ids lss : lines_for W s ids lss -> Forall2 (shown W) (bars_of s ids) lss.
Proof. induction 1 as [|id ls ids lss (d & E & Hd) Hl IH]; [constructor|]. unfold bars_of. cbn [omap list_omap]. rewrite E. by constructor. Qed.
(** Bars are shown below the lines [kept]. Between prints the caller does what it likes
    with its bars and adds others; [gone] are the bars that a print has found finished,
    as they were then. *)
Inductive session (W : Z) (kept : list cstr) : MultiProgressBar -> Screen -> list DownloadProgressBar -> Prop :=
  | session_new now sc : rev (above sc) = kept -> blank (below sc) -> session W kept (new_multi now) sc []
  | session_change m m' sc gone : session W kept m sc gone -> printed_lines m' = printed_lines m -> session W kept m' sc gone
  | session_print m m' now out sc gone : session W kept m sc gone -> multi_ok now m -> print true W now m = Ok (m', out) ->
      session W kept m' (run sc out) (gone ++ bars_of (store m) (List.filter (finished_id (store m)) (bars_todo m))).
Lemma session_shows W kept m sc gone : 42 <= W < 2 ^ 31 -> session W kept m sc gone ->
  exists lss, Forall2 (shown W) gone lss /\ shows sc (kept ++ concat lss) (printed_lines m).
Proof.
  intros HW. induction 1 as [now sc Ha Hb|m m' sc gone Hs (lss & H1 & H2) E|m m' now out sc gone Hs (lss & H1 & H2) Hok E].
  - exists []. split; [constructor|]. rewrite app_nil_r. split; [done|done|]. simpl. lia.
  - exists lss. rewrite E. done.
  - destruct (print_ok W now m sc _ Hok HW H2) as (m2 & out2 & fin & started & divider & total & E2 & O). rewrite E in E2. injection E2 as <- <-.
    exists (lss ++ fin). split; [apply Forall2_app; [done|]; apply lines_of_bars, O|]. rewrite concat_app, app_assoc. apply O.
Qed.
(** C14. Bars on a terminal, printed any number of times with any changes between: a print
    never fails and replaces just the lines that the last one left for bars in progress.
    The screen then has the lines that were there before the first print, the lines of every bar
    that has finished, once and in order, the lines of the bars in progress, a
    divider and the total, and nothing else; each bar's line, the divider and the total are as wide as
    the terminal, and a bar's messages follow its line. The numbers of bars stay with their places. *)
Theorem screen_kept W kept m sc gone now : 42 <= W < 2 ^ 31 -> session W kept m sc gone -> multi_ok now m ->
  exists m' out finished started divider total, print true W now m = Ok (m', out)
    /\ let sc' := run sc out in
    rev (above sc') ++ [line sc'] = kept ++ concat finished ++ concat started ++ [divider; total] /\ blank (below sc')
    /\ Forall2 (shown W) (gone ++ bars_of (store m) (List.filter (finished_id (store m)) (bars_todo m))) finished
    /\ Forall2 (shown W) (bars_of (store m) (List.filter (started_id (store m)) (bars_todo m))) started
    /\ Z.of_nat (length divider) = W /\ Z.of_nat (length total) = W
    /\ bars_done m' = bars_done m ++ List.filter (finished_id (store m)) (bars_todo m)
    /\ bars_todo m' = List.filter (fun id => negb (finished_id (store m) id)) (bars_todo m)
    /\ map (number_of (store m')) (bars_done m' ++ bars_todo m') = map (number_of (store m)) (bars_done m ++ bars_todo m)
    /\ multi_ok now m'.
Proof.
  intros HW Hs Hok. destruct (session_shows W kept m sc gone HW Hs) as (lss & H1 & H2).
  destruct (print_ok W now m sc _ Hok HW H2) as (m' & out & fin & started & divider & total & E & [O1 O2 O3 O4 O5 O6 O7 [O8 O8'] O9 O10 O11]).
  exists m', out, (lss ++ fin), started, divider, total. split; [done|]. cbv zeta. rewrite O9, concat_app, <-!app_assoc. do 2 (split; [done|]).
  split; [apply Forall2_app; [done|by apply lines_of_bars]|]. split; [by apply lines_of_bars|]. done.
Qed.
End bars.
End MultiScreen.
