(* ===== verification/BarExamples.v ===== *)
(** * BarExamples: bars at work

    Witnesses for the properties of bars, and what bars show at their limits. *)

From S2P Require Import Prelude Numeric.
From Stdlib Require Import SpecFloat.
From S2P Require Import Floats Bars BarLines MultiBars MultiScreen.
Local Open Scope Z_scope.

Module BarExamples.
Import Numeric Bars BarLines MultiBars MultiScreen.

(** A rendering of numbers that is wide enough for a test. *)
#[local] Instance whole_fmt : Fmt := fun x => let s := match to_int int64 x with Some z => dec_Z z | None => lit "?" end in replicate (3 - length s) space ++ s ++ lit ".0".
#[local] Instance zero_conversion : Conversion := 0.
#[local] Instance zero_laws : ConversionLaws zero_conversion.
Proof. by left. Qed.
Ltac concrete := vm_compute; repeat split; discriminate.

Definition second : Z := 10 ^ 9.
(** A download of 1000 bytes that started at the third second. *)
Definition half : DownloadProgressBar := with_bar (with_ticks 500 500 (start (3 * second) (bar (new_download (3 * second) 1000 (lit "bash"))))) (new_download (3 * second) 1000 (lit "bash")).
Definition message_of (s : cstr) (d : DownloadProgressBar) : DownloadProgressBar := on_bar (add_message WARNING_MESSAGE s) d.
Lemma half_ok : download_ok (5 * second) (message_of (lit "slow") half).
Proof. split; [split; concrete|done|done]. Qed.
Lemma line_fills_terminal_witness : exists d' out, to_stream true 80 (5 * second) (message_of (lit "slow") half) = Ok (d', out) /\ download_ok (5 * second) d' /\ same_download (message_of (lit "slow") half) d'
    /\ exists line, out = colored true (state_color (state (bar d'))) [Text line] ++ flat_map (message_out true 80) [(WARNING_MESSAGE, lit "slow")]
         /\ Z.of_nat (length line) = 80
         /\ Forall (fun m : MessageType * cstr => Z.of_nat (length (lit ">>> " ++ take (Z.to_nat (size_wrap (80 - 4))) (snd m))) <= 80) [(WARNING_MESSAGE, lit "slow")].
Proof. exact (line_fills_terminal true 80 (5 * second) (message_of (lit "slow") half) half_ok ltac:(concrete)). Defined.

(** ** Two bars *)

Definition finished_bar (name : cstr) : DownloadProgressBar := on_bar (with_state SUCCESS (3 * second)) (new_download (3 * second) 1000 name).
Definition with_bars (m : MultiProgressBar) : result error MultiProgressBar :=
  let* m := add_bar 1 (with_store {[ 1%nat := finished_bar (lit "glibc"); 2%nat := message_of (lit "slow") half ]} m) in add_bar 2 m.
Definition two_bars : MultiProgressBar := match with_bars (new_multi (3 * second)) with Ok m => m | Err _ => new_multi 0 end.
Lemma two_bars_ok : multi_ok (5 * second) two_bars.
Proof.
  split; [|vm_compute; by repeat constructor; set_solver|split; [split; [split; concrete|done|done]|done]|concrete..].
  intros id Hid. assert (id = 1 \/ id = 2)%nat as [-> | ->] by (vm_compute in Hid; set_solver); (eexists; split; [vm_compute; reflexivity|]); (split; [split; concrete|done|done]).
Qed.
Definition shell : Screen := mkScreen [lit "$ dnf5 install bash"] [] 0 [].
Lemma screen_kept_witness : session 60 [lit "$ dnf5 install bash"] two_bars shell [] /\
  exists m' out finished started divider total, print true 60 (5 * second) two_bars = Ok (m', out)
    /\ rev (above (run shell out)) ++ [line (run shell out)] = [lit "$ dnf5 install bash"] ++ concat finished ++ concat started ++ [divider; total]
    /\ length finished = 1%nat /\ length started = 1%nat.
Proof.
  assert (Hs : session 60 [lit "$ dnf5 install bash"] two_bars shell []) by (apply (session_change 60 _ (new_multi (3 * second))); [apply session_new; [done|constructor]|done]).
  split; [exact Hs|].
  destruct (screen_kept 60 _ two_bars shell [] (5 * second) ltac:(concrete) Hs two_bars_ok) as (m' & out & fin & started & divider & total & E & Hscreen & _ & Hf & Hst & _).
  exists m', out, fin, started, divider, total. split; [exact E|]. split; [exact Hscreen|].
  split; [rewrite <-(Forall2_length _ _ _ Hf); vm_compute; reflexivity|rewrite <-(Forall2_length _ _ _ Hst); vm_compute; reflexivity].
Defined.
(** ** What is shown *)

Definition again (now : Z) (f : MultiProgressBar -> MultiProgressBar) (x : MultiProgressBar * Screen) : MultiProgressBar * Screen :=
  match print true 60 now (f (fst x)) with Ok (m, out) => (m, run (snd x) out) | Err _ => x end.
Definition shown_lines (x : MultiProgressBar * Screen) : list cstr := rev (above (snd x)) ++ [line (snd x)] ++ below (snd x).
Example first_print : shown_lines (again (5 * second) id (two_bars, shell)) =
  [lit "$ dnf5 install bash";
   lit "[1/2] glibc                         0% |   0.0   B |  00m00s";
   lit "[2/2] bash                         50% | 500.0   B | -00m02s";
   lit ">>> slow";
   lit "------------------------------------------------------------";
   lit "[1/2] Total                        50% | 500.0   B | -00m02s"].
Proof. vm_compute. reflexivity. Qed.
(** The rest arrives and the download ends: the total of the last print is the one of the print before,
    since a finished bar takes no ticks. *)
Definition all_there (m : MultiProgressBar) : MultiProgressBar := with_store (alter (on_bar (fun b => with_state SUCCESS (begin_time b) (with_ticks 1000 500 b))) 2%nat (store m)) m.
Example stale_total : match again (6 * second) all_there (again (5 * second) id (two_bars, shell)) with
  | (m, sc) => bars_todo m = [] /\ state (bar (total_bar m)) = SUCCESS /\ sum_over (fun d => ticks (bar d)) (store m) (bars_done m) = 1000 /\ ticks (bar (total_bar m)) = 500
      /\ line sc = lit "[2/2] Total                        50% | 500.0   B |  00m03s"
  end.
Proof. vm_compute. repeat split. Qed.
(** A download of unknown size is all there as long as it has no fewer ticks than -1. *)
Example unknown_is_all : percentage (new_bar 0 (-1) (lit "metadata")) = Ok 100.
Proof. reflexivity. Qed.
(** The number of a bar that is added after the others were done is 1 again. *)
Example number_again : match again (6 * second) all_there (two_bars, shell) with
  | (m, _) => map (number_of (store m)) (bars_done m) = [1; 2]
      /\ match add_bar 3 (with_store (<[3%nat := half]> (store m)) m) with Ok m' => number_of (store m') 3 = 1 | Err _ => False end
  end.
Proof. vm_compute. repeat split. Qed.
(** Below four columns the room for a message wraps around: all of it is printed. *)
Example narrow_message : message_out true 3 (INFO_MESSAGE, lit "slow mirror") = [Endl; Text (lit ">>> "); Text (lit "slow mirror")].
Proof.
  unfold message_out. replace (Z.to_nat (size_wrap (3 - 4))) with (length (lit "slow mirror") + Z.to_nat (2 ^ 64 - 12))%nat; [by rewrite (take_ge (lit "slow mirror")) by lia|].
  change (size_wrap (3 - 4)) with (2 ^ 64 - 1). change (length _) with (Z.to_nat 11). rewrite <-Z2Nat.inj_add by lia. done.
Qed.
(** No bar is done yet and none is there: the width of the total's numbers comes from the logarithm of 0. *)
Definition highest_bit : Conversion := 2 ^ 63.
Example zero_width : get_number_width (HC := zero_conversion) (total_bar (new_multi 0)) = Ok 1 /\ get_number_width (HC := highest_bit) (total_bar (new_multi 0)) = Ok (2 ^ 63 + 1).
Proof. by split; vm_compute. Qed.
End BarExamples.
